(* ===== verification/_CoqProject ===== *)
-Q . S2P
Prelude.v
AMem.v
Alloc.v
Temporal.v
Bits.v
Mask.v
Trie.v
Bittree.v
BittreeRep.v
BtModel.v
BtSpec.v
BtRefine.v
BtHeap.v
BtTrace.v
BtTheorems.v
BtTemporal.v
CString.v
Shadow.v
Segment.v
SegModel.v
SegStatic.v
SegHeap.v
SegTrace.v
SegTheorems.v
SegTemporal.v
SegStamps.v
SegStampRuns.v
Agree.v
LibcString.v
LibcStringSpec.v
LibcStringTheorems.v
LibcWchar.v
AcslString.v
StringContracts.v
LibcGetline.v
Digits.v
LibcStdlib.v
LibcStdlibTheorems.v
LibcStatic.v
LibcGlob.v
LibcNetdb.v
LibcContracts.v
MachTables.v
Machdep.v
GccBuiltins.v
Bindings.v
Printf.v
PrintfSpec.v
PrintfOutput.v
PrintfTheorems.v
Shexec.v
Trace.v
RuntimeAssert.v
Observers.v
LibcReplacements.v
LibcReplacementsTheorems.v
ObserversInst.v
LibcReplacementsExact.v
Format.v
FormatSpec.v
FormatParse.v
FormatValidate.v
FormatTheorems.v
ApiContracts.v
ApiBuiltins.v
FloatingPoint.v
DebugLog.v
AllocContracts.v
CStringTheorems.v
