(* ===== verification/Prelude.v ===== *)
(** * Verification of the C run-time code of Frama-C

    Frama-C is a platform for the analysis of C programs, written in OCaml.  The C
    code of the repository is what its users' programs run with or are analysed
    with: the run-time library of the plug-in E-ACSL, which monitors memory
    (src/plugins/e-acsl/share/e-acsl, below EA/), and the sources of the C library
    for the analysers (share/libc, below LC/) with their headers, whose ACSL contracts
    the analysers use.  This development models that code as executable functions and
    the contracts as specifications, and proves what the functions compute.

    ** The program

    A program that E-ACSL instruments records its blocks of memory (store_block,
    malloc, ...), marks the bytes that it initializes, and asks queries (valid,
    initialized, base_addr, ...) before it uses memory.  A memory model answers
    them.  There are two: a Patricia trie of blocks
    (EA/bittree_model), and shadow memory (EA/segment_model), where a translated
    address holds the metadata of a byte.  On top of their common interface are the
    temporal analysis (EA/e_acsl_temporal.h), the checked replacements of the string
    functions (EA/e_acsl_libc_replacements.h) and the checked functions of the printf
    family (EA/e_acsl_format.h).  The library has a printf of its own
    (EA/e_acsl_printf.h) and bit and string helpers.  LC/ implements the functions of
    the standard library, which the analysers read in the place of the system's; its
    headers declare the functions with contracts, and describe the machines that a
    program can be analysed for.  The platform itself calls a few functions in C
    (src/libraries/utils/c_bindings.c).

    ** How the code is modelled

    Integers are [Z] with the wrap-around of the C type written out ([u64], [s32],
    ...); an overflow of a signed type is a fault.  A function that can fail gives
    an [outcome]: [Ret] a result, [Abort] for a failed assertion or vabort, [Fault]
    for undefined behaviour (an access outside of the memory, a null dereference),
    and [NoFuel] for a loop that has used up its fuel.  State is passed explicitly.
    Byte memory is a finite map from addresses to bytes ([mem], in this file); the
    nodes, blocks and buffers of the trie are records in maps of a private heap.
    The allocator (dlmalloc or the system's) is a parameter with laws: a new block
    is aligned and apart from those in use.

    ** Files

    - Prelude: C integers, bits, outcomes and their notation, byte memory, lists,
      tactics and the hint database.  AMem: the abstract memory, disjoint blocks with
      the set of their initialized offsets, and its operations; the specification
      of both memory models.  Alloc: e_acsl_malloc.h and e_acsl_leak.h, the allocator as
      a class and the counters.
    - Bits: e_acsl_bits.h.  Mask: the mask tables and the search of
      e_acsl_bittree.h.  Trie: the value of the trie, a tree.  Bittree: the linked
      structure and its operations, statement by statement.  BittreeRep: they perform
      the tree operations.  BtModel: e_acsl_bittree_mmodel.c.  BtSpec, BtRefine,
      BtHeap, BtTrace: queries, updates, allocation functions and whole runs against
      the abstract memory.  BtTheorems: the properties.
    - Temporal: e_acsl_temporal.h and e_acsl_temporal_timestamp.h against a class that
      a memory model implements, with its laws.  BtTemporal: the trie model satisfies
      them, and the properties.
    - Shadow: e_acsl_shadow_layout.h.  Segment: the encodings of
      e_acsl_segment_tracking.h.  SegModel: the allocation functions, the public
      operations of e_acsl_segment_mmodel.c and the initialization.  SegStatic,
      SegHeap, SegTrace: both encodings and whole runs against the abstract memory.
      SegTheorems: the properties.  SegTemporal: temporal analysis in this model.
      SegStamps, SegStampRuns: the time stamps that its shadows hold, and whole runs
      with temporal analysis.  Agree: the two models give the same answers.
    - ApiContracts: the contracts of the queries of e_acsl.h over the abstract memory,
      and both models against them.  ApiBuiltins: the contracts of its builtin
      functions.  AllocContracts: those of its allocation functions, over any
      allocator.
    - CString, CStringTheorems: e_acsl_string.h.  LibcString, LibcStringSpec, LibcStringTheorems:
      LC/string.c.  LibcWchar: LC/wchar.c and math.c.  Digits: numerals.  LibcStdlib,
      LibcStdlibTheorems: LC/ctype.c, stdlib.c, inttypes.c and the integer functions of
      __fc_builtin.c.  LibcGetline: LC/stdio.c.  LibcGlob: LC/glob.c.  LibcNetdb:
      LC/netdb.c.  LibcStatic: the functions of string.c, time.c, locale.c, fenv.c and
      assert.c that answer a static object or an unknown value.
    - AcslString: the logic functions and axioms of LC/__fc_string_axiomatic.h.
      StringContracts: the contracts of LC/string.h, and that the functions of LibcString
      meet them.  LibcContracts: the contracts of LC/ctype.h and of the scalar functions
      of __fc_builtin.h, stdlib.h and inttypes.h.  GccBuiltins: those of
      __fc_gcc_builtins.h.
    - MachTables: the macros of LC/__fc_machdep.h, limits.h, stdint.h, inttypes.h and
      errno.h as data.  Machdep: the evaluation of their constant expressions, and the
      records of the same machines in machdeps.ml.
    - Bindings: c_bindings.c.
    - Printf, PrintfSpec, PrintfOutput, PrintfTheorems: e_acsl_printf.h.
      RuntimeAssert: e_acsl_assert.h, the assertions of the instrumented program.
      DebugLog: its internal assertions, and the report file of e_acsl_debug.h.
      FloatingPoint: e_acsl_floating_point.h.
      Shexec: e_acsl_shexec.h, on classes for system calls and for the private heap.
      Trace: e_acsl_trace.h.
    - Observers: what the clients ask of a memory model, as a class with laws;
      ObserversInst: the instances for the two models.  LibcReplacements,
      LibcReplacementsTheorems, LibcReplacementsExact: e_acsl_libc_replacements.h.
    - Format, FormatSpec, FormatParse, FormatValidate, FormatTheorems:
      e_acsl_format.h; its syntax, parser and checks.

    ** Properties

    - C1 to C7: the trie model.  Every run that the abstract memory can make is
      a run of the model with the same effect, in every configuration (C1); search,
      insertion and removal of the trie (C2 to C4); initialization and queries (C5 to
      C7).  C11: the mask of two addresses.
    - C12: the queries of both models meet the contracts of e_acsl.h, and C34: so do the
      builtin functions.  C28: what the allocation functions do, from any allocator.
    - C17 to C20: the shadow model: no collisions in the layout that the code builds
      and accepts (C17), runs without temporal analysis (C18) and with it (C20), queries
      (C19).  C22: both models agree.
    - C23, C24, C13: temporal analysis: referents flow as pointers do in every model
      that satisfies the laws, as both do, and a stale pointer is detected, in the trie
      model (C24) and in every run of the shadow model (C13).
    - C8 to C10: the functions of string.c meet their ACSL contracts.  C14: wide strings
      exactly.  C21: getline.  C30: the environment.
    - C25 to C27: the values of the limits, the widths and the conversions of the
      machines; the types of their constants; the overflow builtins.
    - C29: the checks of the floating-point exceptions.  C31: the string helpers of the
      library.
    - C33, C36: the conversions and the output of the printf of the library.  C32:
      run-time assertions.  C35: the execution of a command.
    - C37 to C39: the checked string functions are the plain ones behind exactly their
      preconditions.  C15, C16, C40: so are the checked functions of the printf
      family; what validate_format accepts; and the parser of formats.

    A theorem states in its comment the inputs it is about; where the code does not do
    what it is meant to on other ones, a theorem of the same file shows it: characters
    that are not of type char (C8, C9), queries at the end of the heap segment or of
    unaligned ranges (C12, C19, C22), formats with a flag 0 at the start of a directive,
    a star or more than 14 characters (C15, C16, C40), failed allocations (C21, C31), an
    uninitialized field (C35), directives that print wrongly (C36).

    The files prove more about each component than these properties: the other queries
    and the cleaning of the trie and of the shadows, the exact copies and comparisons of
    string.c, its searches and the termination of its loops, runs of bits, atoi and
    calloc, the total order of floats, the classes of
    characters by an interface that any implementation of the contracts satisfies, the
    codes of errno.h, the rounding modes, glob, name resolution, static buffers, the
    consistency of the axioms on strings, and backtraces.

    The files of properties also hold theorems about inputs on which the code does not
    do what it is meant to; their comments say what happens.

    ** Fuel and bounds

    A loop takes fuel that the theorems prove to be enough.  The search of the trie
    goes down at most 64 levels, and back once at each ([bt_fuel] is 65,
    [bt_find_fuel] 130); the search of the mask halves a table of 65 entries
    ([mask_fuel] is 8); numbers have at most 64 digits ([digits_fuel] is 66); a loop
    over a string in the memory [m] has [steps m], one more than its number of bytes,
    since a string lies in the memory; the chains of macros are at most 8 long
    ([macro_fuel]); getline and fd_read take more steps than the input has characters,
    as the hypotheses of their theorems say.  Blocks are smaller than [max_size], and
    initialization ranges of the trie model and static blocks of the shadow model
    smaller than 2^32, because of the int counters in their loops; validate_format
    takes lengths as int, so that its theorems are for blocks smaller than 2^31, and
    for directives of at most 14 characters, because of its buffer (FormatTheorems
    shows what longer ones do); it has room in the private heap, a class of Format.v
    (FormatTheorems shows what happens without).  Sizes of types are those of a 64-bit Linux; the mask
    tables are for all word sizes.

    ** What is not modelled

    Debug printing: in the memory models an internal assertion that fails is [Abort]
    (DebugLog has what it prints, RuntimeAssert the messages of the assertions of the
    program).  The contracts of e_acsl.h on functions that only call GMP.  The
    system below the library: write, the layout that the linker and the kernel choose
    (the theorems on shadows take a layout that the library accepts), dlmalloc, GMP,
    and, behind the checked printf family, the formatted output of the system; behind
    the checked string functions, the functions of LC/string.c stand for those of
    the system.  In the runs with
    temporal analysis the copies of shadows by temporal_memcpy and temporal_memset are
    left out.
    The theorems on formats are for narrow strings and directives without a star, while
    the model has all of them.  The reads and writes of the pipes of shexec do not
    block.  In
    LC/: the contracts of functions that have no code in the repository (unistd.h,
    stdio.h, math.h, sockets, threads), which nothing in the repository could be proved
    against, and the files that only hold variables.  Of c_bindings.c the wrappers of
    mathematical functions, which only call the C library.  The OCaml code of the
    platform is outside of this development, apart from the records of machdeps.ml.

    ** Plan

    Next: the conversions of wide strings in validate_format; the copies of temporal
    shadows in runs; the contracts of wchar.h. *)

From Stdlib Require Export ZArith Lia.
From stdpp Require Export numbers base gmap list.

#[global] Open Scope Z_scope.

(** ** C integers

    A C integer of width [w] is a [Z]; the wrap-around of unsigned arithmetic
    and the (two's complement) conversions to signed types are written out
    where the source performs them. *)

Definition u8 (z : Z) : Z := z mod 2 ^ 8.
Definition u16 (z : Z) : Z := z mod 2 ^ 16.
Definition u32 (z : Z) : Z := z mod 2 ^ 32.
Definition u64 (z : Z) : Z := z mod 2 ^ 64.
Definition s8 (z : Z) : Z := (z + 2 ^ 7) mod 2 ^ 8 - 2 ^ 7.
Definition s16 (z : Z) : Z := (z + 2 ^ 15) mod 2 ^ 16 - 2 ^ 15.
Definition s32 (z : Z) : Z := (z + 2 ^ 31) mod 2 ^ 32 - 2 ^ 31.
Definition s64 (z : Z) : Z := (z + 2 ^ 63) mod 2 ^ 64 - 2 ^ 63.

(** Truth value of a C condition as the [int] 0 or 1. *)
Definition b2i (b : bool) : Z := if b then 1 else 0.

(** Truth value of an [int]. *)
Definition i2b (z : Z) : bool := negb (z =? 0).

(** The null pointer. *)
Definition NULL : Z := 0.

(** Range of a [w]-bit unsigned integer. *)
Definition in_u (w z : Z) : Prop := 0 <= z < 2 ^ w.

(** ** Outcomes of C code

    [Ret a] is normal termination with result [a]; [Abort] is the end of the
    program by [vabort] or a failed [vassert]; [Fault] is undefined behaviour
    (an access through a null or dangling pointer, or outside an object);
    [NoFuel] is a loop that did not finish within the iterations given to it. *)

Inductive outcome (A : Type) : Type :=
| Ret (a : A)
| Abort
| Fault
| NoFuel.
Arguments Ret {A} a.
Arguments Abort {A}.
Arguments Fault {A}.
Arguments NoFuel {A}.

Definition obind {A B : Type} (c : outcome A) (k : A -> outcome B) : outcome B :=
  match c with
  | Ret a => k a
  | Abort => Abort
  | Fault => Fault
  | NoFuel => NoFuel
  end.

(** Undefined behaviour was reached. *)
Definition is_fault {A : Type} (o : outcome A) : bool :=
  match o with Fault => true | _ => false end.

Declare Scope c_scope.
Delimit Scope c_scope with c.
Notation "'let*' x ':=' c 'in' k" := (obind c (fun x => k))
  (at level 10, x pattern, c at level 100, k at level 200,
   format "'[v' 'let*'  x  ':='  c  'in' '//' k ']'") : c_scope.
#[global] Open Scope c_scope.

(** A read through a pointer or an index: absent means undefined behaviour. *)
Definition deref {A : Type} (o : option A) : outcome A :=
  match o with Some a => Ret a | None => Fault end.

(** [vassert(expr, ...)] of e_acsl_assert.h. *)
Definition vassert (b : bool) : outcome unit := if b then Ret tt else Abort.

(** ** Build configuration

    The run-time library is configured by macros; the ones that change the
    behaviour of the modelled code are the fields of [config]. *)
Record config : Type := mk_config {
  cfg_debug : bool;               (* E_ACSL_DEBUG *)
  cfg_weak_validity : bool;       (* E_ACSL_WEAK_VALIDITY *)
  cfg_temporal : bool;            (* E_ACSL_TEMPORAL *)
  cfg_free_valid_address : bool   (* E_ACSL_FREE_VALID_ADDRESS *)
}.

(** The configuration with every option undefined. *)
Definition default_config : config := mk_config false false false false.

(** [DASSERT(e)] of e_acsl_debug.h: [vassert] in debug mode, nothing otherwise. *)
Definition DASSERT (cfg : config) (b : bool) : outcome unit :=
  if cfg_debug cfg then vassert b else Ret tt.

(** ** Byte memory

    The contents of a memory object, or of a region of the address space: a
    finite map from addresses to bytes.  An address that is not in the map may
    not be accessed. *)
Abbreviation mem := (gmap Z Z).

Definition load8 (m : mem) (a : Z) : outcome Z := deref (m !! a).

Definition store8 (m : mem) (a v : Z) : outcome mem :=
  match m !! a with Some _ => Ret (<[a := u8 v]> m) | None => Fault end.

(** Little-endian [n]-byte loads and stores. *)
Fixpoint load_le (n : nat) (m : mem) (a : Z) : outcome Z :=
  match n with
  | O => Ret 0
  | S n => let* b := load8 m a in
           let* r := load_le n m (a + 1) in
           Ret (b + 2 ^ 8 * r)
  end.

Fixpoint store_le (n : nat) (m : mem) (a v : Z) : outcome mem :=
  match n with
  | O => Ret m
  | S n => let* m := store8 m a (v mod 2 ^ 8) in
           store_le n m (a + 1) (v / 2 ^ 8)
  end.

Definition load64 (m : mem) (a : Z) : outcome Z := load_le 8 m a.
Definition store64 (m : mem) (a v : Z) : outcome mem := store_le 8 m a v.
Definition load32 (m : mem) (a : Z) : outcome Z := load_le 4 m a.
Definition store32 (m : mem) (a v : Z) : outcome mem := store_le 4 m a v.

(** [for (i = lo; i < hi; i++) body], for a body that changes neither [i] nor
    [hi] and has no early exit. *)
Fixpoint for_n {S : Type} (n : nat) (i : Z) (body : Z -> S -> outcome S) (s : S)
  : outcome S :=
  match n with
  | O => Ret s
  | S n => let* s := body i s in for_n n (i + 1) body s
  end.
Definition for_range {S : Type} (lo hi : Z) (body : Z -> S -> outcome S) (s : S)
  : outcome S := for_n (Z.to_nat (hi - lo)) lo body s.

(** [memset(a, v, n)] and [memcpy(dst, src, n)] of the C library. *)
Definition memset (m : mem) (a v n : Z) : outcome mem :=
  for_range 0 n (fun i m => store8 m (a + i) v) m.
Definition memcpy (m : mem) (dst src n : Z) : outcome mem :=
  for_range 0 n (fun i m => let* b := load8 m (src + i) in store8 m (dst + i) b) m.

(** [strlen(s)], having read [n] characters; [fuel] bounds the length. *)
Fixpoint strlen_loop (fuel : nat) (m : mem) (s n : Z) : outcome Z :=
  match fuel with
  | O => NoFuel
  | S fuel => let* c := load8 m (s + n) in
              if c =? 0 then Ret n else strlen_loop fuel m s (n + 1)
  end.

(** An object of [n] bytes of value [v] at address [a]. *)
Fixpoint mem_fill (n : nat) (a v : Z) : mem :=
  match n with
  | O => ∅
  | S n => <[a := v]> (mem_fill n (a + 1) v)
  end.

(** The [i]-th bit of the region that starts at [a]: bit [i mod 8] of byte
    [a + i / 8]; [false] outside the accessible memory. *)
Definition mbit (m : mem) (a i : Z) : bool :=
  match m !! (a + i / 8) with
  | Some b => Z.testbit b (i mod 8)
  | None => false
  end.

(** Every byte is an 8-bit value. *)
Definition mem_ok (m : mem) : Prop := map_Forall (fun _ b => in_u 8 b) m.

(** The region [[a, a + n)] is accessible. *)
Definition accessible (m : mem) (a n : Z) : Prop :=
  forall x, a <= x < a + n -> is_Some (m !! x).

(** ** Automation *)

Create HintDb cdb.

(** Splits the hypothesis that a sequence of steps returned. *)
Lemma obind_inv {A B} (c : outcome A) (k : A -> outcome B) r :
  obind c k = Ret r -> exists a, c = Ret a /\ k a = Ret r.
Proof. destruct c; simpl; naive_solver. Qed.

Lemma obind_assoc {A B C} (c : outcome A) (f : A -> outcome B) (g : B -> outcome C) :
  (let* x := c in let* y := f x in g y) = (let* y := (let* x := c in f x) in g y).
Proof. by destruct c. Qed.

Lemma deref_inv {A} (o : option A) a : deref o = Ret a -> o = Some a.
Proof. destruct o; simpl; naive_solver. Qed.

Ltac obind_split :=
  repeat match goal with
  | H : obind _ _ = Ret _ |- _ =>
      let a := fresh "a" in let E := fresh "E" in
      apply obind_inv in H as (a & E & H)
  | H : deref _ = Ret _ |- _ => apply deref_inv in H
  | H : Ret _ = Ret _ |- _ => injection H as H
  end.

(** Case analysis on the boolean comparisons of the goal and the context. *)
Ltac zbool :=
  repeat match goal with
  | H : context [?a =? ?b] |- _ => destruct (Z.eqb_spec a b)
  | H : context [?a <? ?b] |- _ => destruct (Z.ltb_spec a b)
  | H : context [?a <=? ?b] |- _ => destruct (Z.leb_spec a b)
  | |- context [?a =? ?b] => destruct (Z.eqb_spec a b)
  | |- context [?a <? ?b] => destruct (Z.ltb_spec a b)
  | |- context [?a <=? ?b] => destruct (Z.leb_spec a b)
  end.

(** [lia] with the defining equations of [/] and [mod]. *)
Ltac dlia := Z.div_mod_to_equations; lia.

(** ** Integers *)

Lemma u64_small z : in_u 64 z -> u64 z = z.
Proof. apply Z.mod_small. Qed.

Lemma u32_small z : in_u 32 z -> u32 z = z.
Proof. apply Z.mod_small. Qed.

Lemma u8_small z : in_u 8 z -> u8 z = z.
Proof. apply Z.mod_small. Qed.

Lemma s32_small z : - 2 ^ 31 <= z < 2 ^ 31 -> s32 z = z.
Proof. unfold s32. intros. rewrite Z.mod_small; lia. Qed.

Lemma s64_small z : - 2 ^ 63 <= z < 2 ^ 63 -> s64 z = z.
Proof. unfold s64. intros. rewrite Z.mod_small; lia. Qed.

Lemma u64_range z : in_u 64 (u64 z).
Proof. apply Z.mod_pos_bound. lia. Qed.

Lemma u8_range z : in_u 8 (u8 z).
Proof. apply Z.mod_pos_bound. lia. Qed.

#[export] Hint Resolve u64_range u8_range : cdb.

Lemma b2i_i2b b : i2b (b2i b) = b.
Proof. by destruct b. Qed.

(** Bits of an integer of bounded width. *)
Lemma testbit_in_u w z i : in_u w z -> w <= i -> Z.testbit z i = false.
Proof.
  unfold in_u. intros Hz Hi.
  destruct (Z.leb_spec 0 w).
  - rewrite <- (Z.mod_small z (2 ^ w)) by lia. apply Z.mod_pow2_bits_high. lia.
  - rewrite Z.pow_neg_r in Hz by lia. lia.
Qed.

Lemma in_u_testbit w z :
  0 <= w -> 0 <= z -> (forall i, w <= i -> Z.testbit z i = false) -> in_u w z.
Proof.
  intros Hw Hz Hb. split; [done|].
  destruct (Z.eq_dec z 0) as [->|]; [apply Z.pow_pos_nonneg; lia|].
  apply Z.log2_lt_pow2; [lia|].
  destruct (Z.ltb_spec (Z.log2 z) w); [done|].
  specialize (Hb (Z.log2 z)). rewrite Z.bit_log2 in Hb by lia. naive_solver lia.
Qed.

Lemma testbit_u64 z i : 0 <= i < 64 -> Z.testbit (u64 z) i = Z.testbit z i.
Proof. intros. unfold u64. apply Z.mod_pow2_bits_low. lia. Qed.

Lemma testbit_u8 z i : 0 <= i < 8 -> Z.testbit (u8 z) i = Z.testbit z i.
Proof. intros. unfold u8. apply Z.mod_pow2_bits_low. lia. Qed.

(** ** Counted loops *)

Section Loops.
Context {S : Type} (body : Z -> S -> outcome S).

(** Loop rule: an invariant [P], established before the loop and preserved by
    every iteration, holds at its end, and the loop terminates normally. *)
Lemma for_n_inv (P : Z -> S -> Prop) n i s :
  P i s ->
  (forall j s, i <= j < i + Z.of_nat n -> P j s ->
     exists s', body j s = Ret s' /\ P (j + 1) s') ->
  exists s', for_n n i body s = Ret s' /\ P (i + Z.of_nat n) s'.
Proof.
  revert i s. induction n as [|n IH]; intros i s HP Hstep; simpl.
  - exists s. split; [done|]. by replace (i + Z.of_nat 0) with i by lia.
  - destruct (Hstep i s) as (s1 & E1 & HP1); [lia|done|]. rewrite E1. simpl.
    destruct (IH (i + 1) s1 HP1) as (s' & E' & HP').
    + intros j s2 Hj. apply Hstep. lia.
    + exists s'. split; [done|].
      by replace (i + Z.of_nat (Datatypes.S n)) with (i + 1 + Z.of_nat n) by lia.
Qed.

Lemma for_range_inv (P : Z -> S -> Prop) lo hi s :
  lo <= hi -> P lo s ->
  (forall j s, lo <= j < hi -> P j s ->
     exists s', body j s = Ret s' /\ P (j + 1) s') ->
  exists s', for_range lo hi body s = Ret s' /\ P hi s'.
Proof.
  intros Hle HP Hstep. unfold for_range.
  destruct (for_n_inv P (Z.to_nat (hi - lo)) lo s HP) as (s' & E & H').
  - intros j s1 Hj. apply Hstep. lia.
  - exists s'. split; [done|]. by replace hi with (lo + Z.of_nat (Z.to_nat (hi - lo))) by lia.
Qed.
End Loops.

(** ** Byte memory *)

Lemma store8_spec m a v :
  is_Some (m !! a) -> store8 m a v = Ret (<[a := u8 v]> m).
Proof. unfold store8. intros [b ->]. done. Qed.

Lemma load8_ok m a b : m !! a = Some b -> load8 m a = Ret b.
Proof. unfold load8. intros ->. done. Qed.

Lemma mem_ok_insert m a v : mem_ok m -> in_u 8 v -> mem_ok (<[a := v]> m).
Proof. intros. by apply map_Forall_insert_2. Qed.

Lemma mem_ok_lookup m a b : mem_ok m -> m !! a = Some b -> in_u 8 b.
Proof. intros Hm Ha. by apply (Hm a b). Qed.

#[export] Hint Resolve mem_ok_insert mem_ok_lookup : cdb.

Lemma accessible_insert m a v x n :
  accessible m x n -> accessible (<[a := v]> m) x n.
Proof.
  intros H y Hy. destruct (decide (a = y)) as [->|].
  - rewrite lookup_insert_eq. eauto.
  - rewrite lookup_insert_ne; auto.
Qed.

(** Properties of a concrete memory are found by evaluation. *)
Lemma accessible_check (m : mem) (a n : Z) :
  forallb (fun x => bool_decide (is_Some (m !! x))) (seqZ a n) = true -> accessible m a n.
Proof. intros H x Hx. rewrite forallb_forall in H. apply (bool_decide_eq_true_1 _), H, list_elem_of_In, elem_of_seqZ. lia. Qed.
Lemma mem_ok_check m : bool_decide (map_Forall (fun _ b => in_u 8 b) m) = true -> mem_ok m.
Proof. intros H%bool_decide_eq_true a b E. exact (H a b E). Qed.

Lemma accessible_sub m a n b k :
  accessible m a n -> a <= b -> b + k <= a + n -> accessible m b k.
Proof. intros H ? ? x ?. apply H. lia. Qed.

Lemma accessible_dom m m' a n : dom m' = dom m -> accessible m a n -> accessible m' a n.
Proof. intros E H x Hx. apply elem_of_dom. rewrite E. apply elem_of_dom. auto. Qed.

#[export] Hint Resolve accessible_insert : cdb.

Lemma mbit_shift m a k i : mbit m (a + k) i = mbit m a (8 * k + i).
Proof.
  unfold mbit.
  replace (a + k + i / 8) with (a + (8 * k + i) / 8) by dlia.
  replace (i mod 8) with ((8 * k + i) mod 8) by dlia. done.
Qed.

(** Two bytes with the same bits are equal. *)
Lemma byte_ext m m' a x : mem_ok m -> mem_ok m' -> dom m' = dom m ->
  (forall i, 0 <= i < 8 -> mbit m' a (8 * (x - a) + i) = mbit m a (8 * (x - a) + i)) ->
  m' !! x = m !! x.
Proof.
  intros Hm Hm' Hd Hb.
  assert (is_Some (m' !! x) <-> is_Some (m !! x)) as Hs
    by (rewrite <- !elem_of_dom, Hd; done).
  unfold is_Some in Hs.
  destruct (m !! x) as [b|] eqn:E, (m' !! x) as [b'|] eqn:E'; [|naive_solver..].
  f_equal.
  pose proof (mem_ok_lookup _ _ _ Hm E). pose proof (mem_ok_lookup _ _ _ Hm' E').
  apply Z.bits_inj. intros i.
  destruct (Z.ltb_spec i 0); [by rewrite !Z.testbit_neg_r|].
  destruct (Z.ltb_spec i 8); [|by rewrite !(testbit_in_u 8) by done].
  specialize (Hb i ltac:(lia)). unfold mbit in Hb.
  replace (a + (8 * (x - a) + i) / 8) with x in Hb by dlia.
  replace ((8 * (x - a) + i) mod 8) with i in Hb by dlia.
  by rewrite E, E' in Hb.
Qed.

(** Two memories with the same domain and the same bits are equal. *)
Lemma mem_ext m m' a :
  mem_ok m -> mem_ok m' -> dom m' = dom m ->
  (forall i, mbit m' a i = mbit m a i) -> m' = m.
Proof. intros Hm Hm' Hd Hb. apply map_eq. intros x. by apply (byte_ext m m' a). Qed.

Lemma mbit_insert m a b p i :
  mbit (<[a := b]> m) p i =
  if decide (a = p + i / 8) then Z.testbit b (i mod 8) else mbit m p i.
Proof.
  unfold mbit. case_decide as E.
  - by rewrite <- E, lookup_insert_eq.
  - by rewrite lookup_insert_ne.
Qed.

(** Bits of a little-endian number. *)
Lemma testbit_le_add b r i :
  in_u 8 b -> 0 <= i ->
  Z.testbit (b + 2 ^ 8 * r) i = if i <? 8 then Z.testbit b i else Z.testbit r (i - 8).
Proof.
  unfold in_u. intros Hb Hi. destruct (Z.ltb_spec i 8).
  - rewrite <- (Z.mod_pow2_bits_low (b + 2 ^ 8 * r) 8) by lia.
    f_equal. change (2 ^ 8) with 256 in *. dlia.
  - replace r with ((b + 2 ^ 8 * r) / 2 ^ 8) at 2
      by (change (2 ^ 8) with 256 in *; dlia).
    rewrite Z.div_pow2_bits by lia. f_equal. lia.
Qed.

Lemma load_le_spec n m a :
  mem_ok m -> accessible m a (Z.of_nat n) ->
  exists v, load_le n m a = Ret v /\ in_u (8 * Z.of_nat n) v /\
    forall i, 0 <= i < 8 * Z.of_nat n -> Z.testbit v i = mbit m a i.
Proof.
  intros Hm. revert a. induction n as [|n IH]; intros a Ha; simpl load_le.
  - exists 0. unfold in_u. repeat split; lia.
  - destruct (Ha a) as [b Hb]; [lia|].
    destruct (IH (a + 1)) as (r & Er & Hr & Hbits).
    { eapply accessible_sub; [done|lia..]. }
    rewrite (load8_ok _ _ _ Hb), Er. simpl. exists (b + 2 ^ 8 * r).
    pose proof (mem_ok_lookup _ _ _ Hm Hb) as Hb8. split; [done|]. split.
    + unfold in_u in *. replace (8 * Z.of_nat (S n)) with (8 + 8 * Z.of_nat n) by lia.
      rewrite Z.pow_add_r by lia. change (2 ^ 8) with 256 in *. lia.
    + intros i Hi. rewrite testbit_le_add by (done || lia).
      destruct (Z.ltb_spec i 8).
      * unfold mbit. rewrite Z.div_small, Z.add_0_r, Hb, Z.mod_small by lia. done.
      * rewrite Hbits, mbit_shift by lia. f_equal. lia.
Qed.

Lemma store_le_spec n m a v :
  mem_ok m -> accessible m a (Z.of_nat n) -> 0 <= v ->
  exists m', store_le n m a v = Ret m' /\ mem_ok m' /\ dom m' = dom m /\
    (forall x, ~ (a <= x < a + Z.of_nat n) -> m' !! x = m !! x) /\
    forall i, 0 <= i < 8 * Z.of_nat n -> mbit m' a i = Z.testbit v i.
Proof.
  revert m a v. induction n as [|n IH]; intros m a v Hm Ha Hv; cbn [store_le].
  - exists m. split_and!; [done..|]. intros; lia.
  - assert (is_Some (m !! a)) as Hs by (apply Ha; lia).
    rewrite store8_spec by done. cbn [obind].
    set (m1 := <[a := u8 (v mod 2 ^ 8)]> m).
    destruct (IH m1 (a + 1) (v / 2 ^ 8)) as (m' & E & Hok & Hd & Hout & Hbits).
    { unfold m1. auto with cdb. }
    { unfold m1. apply accessible_insert. eapply accessible_sub; [done|lia..]. }
    { apply Z.div_pos; lia. }
    rewrite E. exists m'. split; [done|]. split; [done|]. split.
    { rewrite Hd. unfold m1. apply dom_insert_lookup_L. done. }
    split.
    + intros x Hx. rewrite Hout by lia. unfold m1. rewrite lookup_insert_ne by lia. done.
    + intros i Hi. destruct (Z.ltb_spec i 8).
      * unfold mbit. rewrite Z.div_small, Z.add_0_r, Hout by lia. unfold m1.
        rewrite lookup_insert_eq, (Z.mod_small i 8), testbit_u8 by lia.
        rewrite Z.mod_pow2_bits_low by lia. done.
      * replace i with (8 * 1 + (i - 8)) by lia. rewrite <- mbit_shift, Hbits by lia.
        rewrite Z.div_pow2_bits by lia. f_equal. lia.
Qed.

(** Frame for bits: what a store leaves unchanged. *)
Lemma mbit_frame m m' a n p i :
  (forall x, ~ (a <= x < a + n) -> m' !! x = m !! x) ->
  ~ (a <= p + i / 8 < a + n) -> mbit m' p i = mbit m p i.
Proof. intros H Hi. unfold mbit. by rewrite H. Qed.

(** ** Bytes of loads and stores *)

(** The [j]-th byte of a number. *)
Definition byte_of (v j : Z) : Z := (v / 2 ^ (8 * j)) mod 2 ^ 8.

Lemma byte_of_range v j : in_u 8 (byte_of v j).
Proof. apply Z.mod_pos_bound. lia. Qed.
#[export] Hint Resolve byte_of_range : cdb.

Lemma byte_of_0 v : byte_of v 0 = v mod 2 ^ 8.
Proof. unfold byte_of. by rewrite Z.mul_0_r, Z.div_1_r. Qed.

Lemma byte_of_S v j : 0 <= j -> byte_of (v / 2 ^ 8) j = byte_of v (j + 1).
Proof.
  intros Hj. unfold byte_of. rewrite Z.div_div, <- Z.pow_add_r by lia.
  by replace (8 + 8 * j) with (8 * (j + 1)) by lia.
Qed.

Lemma store_le_bytes n m a v : accessible m a (Z.of_nat n) ->
  exists m', store_le n m a v = Ret m' /\ dom m' = dom m /\
    forall x, m' !! x = if decide (a <= x < a + Z.of_nat n) then Some (byte_of v (x - a)) else m !! x.
Proof.
  revert m a v. induction n as [|n IH]; intros m a v Ha; cbn [store_le].
  { exists m. split_and!; [done..|]. intros x. rewrite decide_False by lia. done. }
  assert (is_Some (m !! a)) as Hs by (apply Ha; lia). rewrite store8_spec by done. cbn [obind].
  destruct (IH (<[a := u8 (v mod 2 ^ 8)]> m) (a + 1) (v / 2 ^ 8)) as (m' & E & Hd & Hx).
  { apply accessible_insert. eapply accessible_sub; [done|lia..]. }
  exists m'. split; [done|]. split; [rewrite Hd; by apply dom_insert_lookup_L|].
  intros x. rewrite Hx. destruct (decide (a = x)) as [->|Hne].
  - rewrite decide_False, lookup_insert_eq, decide_True by lia.
    rewrite Z.sub_diag, byte_of_0. f_equal. apply u8_small, Z.mod_pos_bound. lia.
  - rewrite lookup_insert_ne by done. do 2 case_decide; try lia; [|done].
    rewrite byte_of_S by lia. do 2 f_equal. lia.
Qed.

Lemma load_le_bytes n m a v :
  (forall j, 0 <= j < Z.of_nat n -> m !! (a + j) = Some (byte_of v j)) ->
  load_le n m a = Ret (v mod 2 ^ (8 * Z.of_nat n)).
Proof.
  revert a v. induction n as [|n IH]; intros a v Hb; cbn [load_le].
  { by rewrite Z.mul_0_r, Z.mod_1_r. }
  pose proof (Hb 0 ltac:(lia)) as H0. rewrite Z.add_0_r in H0. rewrite (load8_ok _ _ _ H0).
  cbn [obind]. rewrite (IH (a + 1) (v / 2 ^ 8)); cbn [obind].
  - f_equal. rewrite byte_of_0. replace (8 * Z.of_nat (S n)) with (8 + 8 * Z.of_nat n) by lia.
    rewrite Z.pow_add_r, Z.rem_mul_r by lia. done.
  - intros j Hj. rewrite byte_of_S by lia.
    replace (a + 1 + j) with (a + (j + 1)) by lia. apply Hb. lia.
Qed.

(** A store that succeeds accessed its object; a load after it reads the value. *)
Lemma store_le_accessible n m a v m' : store_le n m a v = Ret m' -> accessible m a (Z.of_nat n).
Proof.
  revert m a v. induction n as [|n IH]; intros m a v; cbn [store_le]; [intros _ x Hx; lia|].
  unfold store8. destruct (m !! a) eqn:E; cbn [obind]; [|done]. intros H x Hx.
  destruct (decide (x = a)) as [->|Hne]; [eauto|].
  specialize (IH _ _ _ H x ltac:(lia)). by rewrite lookup_insert_ne in IH by done.
Qed.

Lemma load_store_le n m a v m' : store_le n m a v = Ret m' ->
  load_le n m' a = Ret (v mod 2 ^ (8 * Z.of_nat n)).
Proof.
  intros H. pose proof (store_le_accessible _ _ _ _ _ H) as Ha.
  destruct (store_le_bytes n m a v Ha) as (m1 & E & _ & Hx). rewrite E in H. injection H as <-.
  apply load_le_bytes. intros j Hj. rewrite Hx, decide_True by lia. do 2 f_equal. lia.
Qed.

Lemma store_le_ok n m a v m' : mem_ok m -> store_le n m a v = Ret m' -> mem_ok m'.
Proof.
  intros Hm H. pose proof (store_le_accessible _ _ _ _ _ H) as Ha.
  destruct (store_le_bytes n m a v Ha) as (m1 & E & _ & Hx). rewrite E in H. injection H as <-.
  intros x b Eb. rewrite Hx in Eb. case_decide; [|by apply (Hm x b)].
  injection Eb as <-. apply byte_of_range.
Qed.

Lemma load_le_range n m a v : mem_ok m -> load_le n m a = Ret v -> in_u (8 * Z.of_nat n) v.
Proof.
  intros Hm. revert a v. induction n as [|n IH]; intros a v; cbn [load_le].
  { intros [= <-]. unfold in_u. lia. }
  intros H. apply obind_inv in H as (b & Eb & H). apply obind_inv in H as (r & Er & H).
  injection H as <-. apply deref_inv in Eb. pose proof (mem_ok_lookup _ _ _ Hm Eb) as Hb.
  specialize (IH _ _ Er). unfold in_u in *.
  replace (8 * Z.of_nat (S n)) with (8 + 8 * Z.of_nat n) by lia. rewrite Z.pow_add_r by lia.
  change (2 ^ 8) with 256 in *. lia.
Qed.

Lemma load_le_frame n m m' a : (forall x, a <= x < a + Z.of_nat n -> m' !! x = m !! x) ->
  load_le n m' a = load_le n m a.
Proof.
  revert a. induction n as [|n IH]; intros a Hf; cbn [load_le]; [done|].
  unfold load8. rewrite Hf by lia. destruct (m !! a); [|done]. cbn [deref obind].
  rewrite IH; [done|]. intros x Hx. apply Hf. lia.
Qed.

Lemma byte_of_land v j : 0 <= j -> byte_of v j = Z.land (Z.shiftr v (8 * j)) (Z.ones 8).
Proof. intros. unfold byte_of. by rewrite Z.land_ones, Z.shiftr_div_pow2 by lia. Qed.

Lemma byte_of_lor v w j : 0 <= j -> byte_of (Z.lor v w) j = Z.lor (byte_of v j) (byte_of w j).
Proof. intros. by rewrite !byte_of_land, Z.shiftr_lor, Z.land_lor_distr_l by lia. Qed.

Lemma byte_of_and v w j : 0 <= j -> byte_of (Z.land v w) j = Z.land (byte_of v j) (byte_of w j).
Proof.
  intros. rewrite !byte_of_land, Z.shiftr_land by lia. apply Z.bits_inj. intros i.
  rewrite !Z.land_spec. destruct (Z.testbit (Z.ones 8) i); by rewrite ?andb_true_r, ?andb_false_r.
Qed.

Lemma testbit_byte_of v i : 0 <= i -> Z.testbit (byte_of v (i / 8)) (i mod 8) = Z.testbit v i.
Proof.
  intros Hi. pose proof (Z.mod_pos_bound i 8 ltac:(lia)). pose proof (Z.div_pos i 8 Hi ltac:(lia)).
  rewrite byte_of_land, Z.land_spec, Z.ones_spec_low, andb_true_r, Z.shiftr_spec by lia.
  f_equal. pose proof (Z.div_mod i 8). lia.
Qed.

(** Numbers of [n] bytes are equal if their bytes are. *)
Lemma bytes_ext n v w : in_u (8 * n) v -> in_u (8 * n) w ->
  (forall j, 0 <= j < n -> byte_of v j = byte_of w j) -> v = w.
Proof.
  intros Hv Hw Hb. apply Z.bits_inj. intros i.
  destruct (Z.ltb_spec i 0); [by rewrite !Z.testbit_neg_r|].
  destruct (Z.ltb_spec i (8 * n)); [|by rewrite !(testbit_in_u (8 * n)) by done].
  rewrite <- (testbit_byte_of v i), <- (testbit_byte_of w i), Hb; [done| |lia..].
  split; [apply Z.div_pos; lia|]. apply Z.div_lt_upper_bound; lia.
Qed.

Lemma load_le_ret n m a : mem_ok m -> accessible m a (Z.of_nat n) ->
  exists w, load_le n m a = Ret w /\ in_u (8 * Z.of_nat n) w /\
    forall j, 0 <= j < Z.of_nat n -> m !! (a + j) = Some (byte_of w j).
Proof.
  intros Hm Ha. destruct (load_le_spec n m a Hm Ha) as (w & E & Hw & Hb). exists w.
  split_and!; [done..|]. intros j Hj. destruct (Ha (a + j)) as [b Eb]; [lia|]. rewrite Eb. f_equal.
  pose proof (mem_ok_lookup _ _ _ Hm Eb) as Hb8. apply Z.bits_inj. intros i.
  destruct (Z.ltb_spec i 0); [by rewrite !Z.testbit_neg_r|].
  destruct (Z.ltb_spec i 8); [|by rewrite !(testbit_in_u 8) by (done || apply byte_of_range)].
  specialize (Hb (8 * j + i) ltac:(lia)). unfold mbit in Hb.
  replace ((8 * j + i) / 8) with j in Hb by dlia. replace ((8 * j + i) mod 8) with i in Hb by dlia.
  rewrite Eb in Hb. rewrite <- Hb, <- (testbit_byte_of w (8 * j + i)) by lia.
  f_equal; [f_equal; dlia|dlia].
Qed.

Lemma memset_spec m a v n : 0 <= n -> accessible m a n ->
  exists m', memset m a v n = Ret m' /\ dom m' = dom m /\
    forall x, m' !! x = if decide (a <= x < a + n) then Some (u8 v) else m !! x.
Proof.
  intros Hn Ha.
  destruct (for_range_inv (fun i m => store8 m (a + i) v)
    (fun i m' => dom m' = dom m /\
       forall x, m' !! x = if decide (a <= x < a + i) then Some (u8 v) else m !! x) 0 n m)
    as (m' & E & Hd & Hx); [done|..].
  - split; [done|]. intros x. by rewrite decide_False by lia.
  - intros j m1 Hj [Hd Hx]. rewrite store8_spec.
    2: { apply (accessible_dom m m1 a n Hd Ha). lia. }
    eexists. split; [done|]. split.
    + rewrite <- Hd. apply dom_insert_lookup_L. apply (accessible_dom m m1 a n Hd Ha). lia.
    + intros x. destruct (decide (a + j = x)) as [<-|Hne].
      * by rewrite lookup_insert_eq, decide_True by lia.
      * rewrite lookup_insert_ne, Hx by done. do 2 case_decide; done || lia.
  - eauto.
Qed.

Lemma mem_ok_pointwise m m' : mem_ok m ->
  (forall x b, m' !! x = Some b -> in_u 8 b \/ m !! x = Some b) -> mem_ok m'.
Proof. intros Hm H x b E. destruct (H x b E) as [|E']; [done|]. by apply (Hm x b). Qed.

(** Fresh objects. *)
Lemma mem_fill_lookup n a v x : mem_fill n a v !! x =
  if decide (a <= x < a + Z.of_nat n) then Some v else None.
Proof.
  revert a. induction n as [|n IH]; intros a; cbn [mem_fill].
  - rewrite lookup_empty. case_decide; [lia|done].
  - destruct (Z.eq_dec a x) as [->|].
    + rewrite lookup_insert_eq. case_decide; [done|lia].
    + rewrite lookup_insert_ne, IH by done. do 2 case_decide; done || lia.
Qed.

Lemma mem_fill_ok n a v : in_u 8 v -> mem_ok (mem_fill n a v).
Proof.
  intros Hv x b. rewrite mem_fill_lookup. case_decide; [|done]. by intros [= <-].
Qed.

Lemma mem_fill_accessible k a v x n : a <= x -> x + n <= a + Z.of_nat k ->
  accessible (mem_fill k a v) x n.
Proof. intros Hx Hn y Hy. rewrite mem_fill_lookup. case_decide; [eauto|lia]. Qed.
