(* ===== verification/AMem.v ===== *)
(** * The contract of the memory models

    A memory model tracks a set of disjoint blocks; each block has a size, the
    set of its initialized offsets, and two flags.  This abstract state is what
    both memory models implement. *)

From S2P Require Import Prelude.

(** ** Abstract state *)

Record ablock : Type := mk_ablock {
  ab_size : Z;
  ab_init : gset Z;
  ab_readonly : bool;
  ab_freeable : bool
}.

(** Blocks by base address. *)
Abbreviation amem := (gmap Z ablock).

(** [p] lies in the block of size [sz] at [a] (an empty block contains its base). *)
Definition covers (a sz p : Z) : Prop := a <= p < a + sz \/ sz = 0 /\ p = a.

#[export] Instance covers_dec a sz p : Decision (covers a sz p).
Proof. unfold covers. apply _. Defined.

Definition contains (M : amem) (p a : Z) (ab : ablock) : Prop :=
  M !! a = Some ab /\ covers a (ab_size ab) p.

(** The [size] bytes from [ptr] lie inside the block at [a], which (unless weak
    validity is on) also contains the base [base] of the pointer. *)
Definition allocated_in (cfg : config) (M : amem) (ptr size base a : Z) (ab : ablock) : Prop :=
  contains M ptr a ab /\ (cfg_weak_validity cfg = false -> contains M base a ab) /\
  ptr + size <= a + ab_size ab.

(** The range [[p, p + sz)] meets no block of [M]. *)
Definition fresh_range (M : amem) (p sz : Z) : Prop :=
  forall a ab, M !! a = Some ab -> a <> p /\ (a + ab_size ab <= p \/ p + sz <= a).

(** The offsets [lo .. hi - 1]. *)
Definition offsets (lo hi : Z) : gset Z := list_to_set (seqZ lo (hi - lo)).
Lemma elem_offsets lo hi i : i ∈ offsets lo hi <-> lo <= i < hi.
Proof. unfold offsets. rewrite elem_of_list_to_set, elem_of_seqZ. lia. Qed.

(** All the offsets of a block of [sz] bytes. *)
Definition all_offsets (sz : Z) : gset Z := list_to_set (seqZ 0 sz).
Lemma elem_all_offsets sz i : i ∈ all_offsets sz <-> 0 <= i < sz.
Proof. unfold all_offsets. rewrite elem_of_list_to_set, elem_of_seqZ. lia. Qed.

Lemma contains_dec M x : (exists a ab, contains M x a ab) \/ (forall a ab, ~ contains M x a ab).
Proof.
  destruct (decide (map_Exists (fun a ab => covers a (ab_size ab) x) M)) as [(a & ab & E & H)|Hn].
  - left. by exists a, ab.
  - right. intros a ab [E H]. apply Hn. by exists a, ab.
Qed.

(** ** Accounting *)

(** Bytes and number of the blocks that may be freed. *)
Definition heap_bytes (M : amem) : Z :=
  map_fold (fun _ ab n => n + if ab_freeable ab then ab_size ab else 0) 0 M.
Definition heap_count (M : amem) : Z :=
  map_fold (fun _ ab n => n + if ab_freeable ab then (if ab_size ab =? 0 then 0 else 1) else 0) 0 M.

Lemma sum_insert (f : ablock -> Z) (M : amem) a ab : M !! a = None ->
  map_fold (fun _ ab n => n + f ab) 0 (<[a := ab]> M) = map_fold (fun _ ab n => n + f ab) 0 M + f ab.
Proof. intros H. rewrite map_fold_insert_L; [done|lia|done]. Qed.

Lemma sum_delete (f : ablock -> Z) (M : amem) a ab : M !! a = Some ab ->
  map_fold (fun _ ab n => n + f ab) 0 M = map_fold (fun _ ab n => n + f ab) 0 (delete a M) + f ab.
Proof. intros H. rewrite (map_fold_delete_L _ _ a ab); [done|lia|done]. Qed.

Lemma heap_bytes_insert M a ab : M !! a = None ->
  heap_bytes (<[a := ab]> M) = heap_bytes M + if ab_freeable ab then ab_size ab else 0.
Proof. apply sum_insert. Qed.
Lemma heap_count_insert M a ab : M !! a = None ->
  heap_count (<[a := ab]> M) =
  heap_count M + if ab_freeable ab then (if ab_size ab =? 0 then 0 else 1) else 0.
Proof. apply (sum_insert (fun ab => if ab_freeable ab then (if ab_size ab =? 0 then 0 else 1) else 0)). Qed.
Lemma heap_bytes_delete M a ab : M !! a = Some ab ->
  heap_bytes M = heap_bytes (delete a M) + if ab_freeable ab then ab_size ab else 0.
Proof. apply (sum_delete (fun ab => if ab_freeable ab then ab_size ab else 0)). Qed.
Lemma heap_count_delete M a ab : M !! a = Some ab ->
  heap_count M =
  heap_count (delete a M) + if ab_freeable ab then (if ab_size ab =? 0 then 0 else 1) else 0.
Proof. apply (sum_delete (fun ab => if ab_freeable ab then (if ab_size ab =? 0 then 0 else 1) else 0)). Qed.

Lemma u64_add a b : u64 (u64 a + b) = u64 (a + b).
Proof. unfold u64. apply Zplus_mod_idemp_l. Qed.

Lemma heap_same_counters M p ab ab' : M !! p = Some ab -> ab_size ab' = ab_size ab ->
  ab_freeable ab' = ab_freeable ab ->
  heap_bytes (<[p := ab']> M) = heap_bytes M /\ heap_count (<[p := ab']> M) = heap_count M.
Proof.
  intros E Es Ef. rewrite <- (insert_delete_eq M p ab').
  rewrite heap_bytes_insert, heap_count_insert by apply lookup_delete_eq.
  by rewrite (heap_bytes_delete M p ab), (heap_count_delete M p ab), Es, Ef.
Qed.

(** ** Operations of a memory model *)

Inductive op : Type :=
| OStore (p sz : Z)           (* __e_acsl_store_block *)
| ODelete (p : Z)             (* __e_acsl_delete_block *)
| OInitialize (p sz : Z)      (* __e_acsl_initialize *)
| OFullInit (p : Z)           (* __e_acsl_full_init *)
| OMarkReadonly (p : Z)       (* __e_acsl_mark_readonly *)
| OMalloc (sz : Z)
| OCalloc (n k : Z)
| OFree (p : Z).
