(* ===== verification/Alloc.v ===== *)
(** * e_acsl_malloc.h and e_acsl_leak.h: allocation bindings and accounting

    The allocator of the application's memory space, which both memory models
    call, the address bounds of that space, the power-of-two test of the aligned
    allocation functions, and the counters of the application's heap. *)

From S2P Require Import Prelude.

(** The allocator of the application's memory space (dlmalloc): an answer to
    each request, and its next state. *)
Class PublicAlloc : Type := {
  pub : Type;
  public_malloc : pub -> Z -> Z * pub;
  public_calloc : pub -> Z -> Z -> Z * pub;
  public_aligned_alloc : pub -> Z -> Z -> Z * pub;
  public_posix_memalign : pub -> Z -> Z -> Z * Z * pub;   (* status, *memptr *)
  public_realloc : pub -> Z -> Z -> Z * pub;
  public_free : pub -> Z -> pub;
  mspace_least_addr : pub -> Z
}.

(** The bounds of the application's memory space, in [struct memory_spaces]. *)
Record memory_spaces : Type := mk_spaces {
  heap_start : Z;
  heap_end : Z;
  heap_mspace_least : Z
}.

(** The part of [make_memory_spaces] that follows the creation of the spaces,
    on the space of the application. *)
Definition make_memory_spaces `{PublicAlloc} (p : pub) (heap_size : Z) : memory_spaces * pub :=
  let (start, p) := public_malloc p 1 in
  (mk_spaces start (u64 (start + heap_size)) (mspace_least_addr p), p).

(** [powof2] of e_acsl_malloc.h; its loop halves a 64-bit value. *)
Fixpoint powof2_loop (fuel : nat) (x : Z) : outcome Z :=
  if (Z.land x 1 =? 0) && (1 <? x) then
    match fuel with
    | O => NoFuel
    | S fuel => powof2_loop fuel (Z.shiftr x 1)
    end
  else Ret (b2i (x =? 1)).
Definition powof2 (x : Z) : outcome Z := powof2_loop 64 x.

(** ** e_acsl_leak.h *)

(** [heap_allocation_size] and [heap_allocated_blocks]. *)
Record heap_stats : Type := mk_stats {
  heap_allocation_size : Z;
  heap_allocated_blocks : Z
}.

Definition update_heap_allocation (s : heap_stats) (size : Z) : heap_stats :=
  mk_stats (u64 (heap_allocation_size s + size))
    (if 0 <? size then u64 (heap_allocated_blocks s + 1)
     else if size <? 0 then u64 (heap_allocated_blocks s - 1)
     else heap_allocated_blocks s).

Definition get_heap_allocation_size (s : heap_stats) : Z := heap_allocation_size s.
Definition get_heap_allocated_blocks (s : heap_stats) : Z := heap_allocated_blocks s.
