(* ===== verification/Temporal.v ===== *)
(** * e_acsl_temporal.h: the temporal API that both memory models share

    A memory model provides the time stamp of the block an address belongs to
    (its origin), the time stamp stored for a pointer (its referent) and access
    to the shadow that holds the latter.  The operations of this file are the
    clients of that interface. *)

From S2P Require Import Prelude.

Definition INVALID_TEMPORAL_TIMESTAMP : Z := 0.
Definition GLOBAL_TEMPORAL_TIMESTAMP : Z := 1.
Definition MAX_PARAMETERS : Z := 127.
Definition sizeof_ptr : Z := 8.

(** [++temporal_timestamp], a [uint32_t]. *)
Definition NEW_TEMPORAL_TIMESTAMP (ts : Z) : Z := u32 (ts + 1).

(** What a memory model with states [S] provides; [shadow] is an address in a
    temporal shadow. *)
Class TemporalModel (S : Type) : Type := {
  shadow : Type;
  tm_origin : S -> Z -> outcome Z;
  tm_referent : S -> Z -> outcome Z;
  tm_store : S -> Z -> Z -> outcome S;
  tm_shadow : S -> Z -> outcome shadow;
  tm_memcpy : S -> shadow -> shadow -> Z -> outcome S;
  tm_memset : S -> shadow -> Z -> Z -> outcome S;
  tm_allocated : S -> Z -> Z -> Z -> outcome Z;
  tm_writeable : S -> Z -> Z -> Z -> outcome Z
}.

(** [enum temporal_flow]; [TNone] is the value 0 of a reset entry. *)
Inductive temporal_flow : Type := TNone | TBlockN | TReferentN | TCopy.

Record temporal_parameter : Type := mk_parameter {
  tp_ptr : Z;
  tp_flow : temporal_flow
}.

(** [parameter_referents] and [return_referent]. *)
Record temporal_regs : Type := mk_regs {
  parameter_referents : list temporal_parameter;
  return_referent : Z
}.

Definition no_parameters : list temporal_parameter :=
  replicate (Z.to_nat MAX_PARAMETERS) (mk_parameter NULL TNone).

Section Client.
Context {S : Type} `{TM : !TemporalModel S} (cfg : config).

(** ** Stores *)

Definition temporal_store_nblock (s : S) (lhs rhs : Z) : outcome S :=
  let* t := tm_origin s rhs in tm_store s lhs t.

Definition temporal_store_nreferent (s : S) (lhs rhs : Z) : outcome S :=
  let* t := tm_referent s rhs in tm_store s lhs t.

(** The debug checks [DVALIDATE_ALLOCATED] and [DVALIDATE_WRITEABLE]. *)
Definition DVALIDATE_ALLOCATED (s : S) (addr size base : Z) : outcome unit :=
  if cfg_debug cfg then let* a := tm_allocated s addr size base in vassert (i2b a) else Ret tt.
Definition DVALIDATE_WRITEABLE (s : S) (addr size base : Z) : outcome unit :=
  if cfg_debug cfg then let* a := tm_writeable s addr size base in vassert (i2b a) else Ret tt.

Definition temporal_memcpy (s : S) (dest src size : Z) : outcome S :=
  if sizeof_ptr <=? size then
    let* _ := DVALIDATE_ALLOCATED s src size src in
    let* _ := DVALIDATE_WRITEABLE s dest size dest in
    let* dest_shadow := tm_shadow s dest in
    let* src_shadow := tm_shadow s src in
    tm_memcpy s dest_shadow src_shadow size
  else Ret s.

Definition temporal_memset (s : S) (dest c size : Z) : outcome S :=
  let* _ := DVALIDATE_WRITEABLE s dest size dest in
  let* dest_shadow := tm_shadow s dest in
  tm_memset s dest_shadow 0 size.

(** ** Function parameters *)

Definition save_parameter (r : temporal_regs) (ptr param : Z) (flow : temporal_flow)
  : outcome temporal_regs :=
  if (0 <=? param) && (param <? MAX_PARAMETERS) then
    Ret (mk_regs (<[Z.to_nat param := mk_parameter ptr flow]> (parameter_referents r))
           (return_referent r))
  else Fault.

Definition temporal_save_nblock_parameter (r : temporal_regs) (ptr param : Z) :=
  save_parameter r ptr param TBlockN.
Definition temporal_save_nreferent_parameter (r : temporal_regs) (ptr param : Z) :=
  save_parameter r ptr param TReferentN.
Definition temporal_save_copy_parameter (r : temporal_regs) (ptr param : Z) :=
  save_parameter r ptr param TCopy.

Definition temporal_pull_parameter (r : temporal_regs) (s : S) (ptr param size : Z) : outcome S :=
  if (0 <=? param) && (param <? MAX_PARAMETERS) then
    let* tpar := deref (parameter_referents r !! Z.to_nat param) in
    match tp_flow tpar with
    | TBlockN => let* t := tm_origin s (tp_ptr tpar) in tm_store s ptr t
    | TReferentN => let* t := tm_referent s (tp_ptr tpar) in tm_store s ptr t
    | TCopy => temporal_memcpy s ptr (tp_ptr tpar) size
    | TNone => Abort
    end
  else Fault.

Definition temporal_reset_parameters (r : temporal_regs) : temporal_regs :=
  mk_regs no_parameters (return_referent r).

(** ** Return values *)

(** The condition of the source is a comma expression whose value is the size
    of a pointer. *)
Definition temporal_save_return (r : temporal_regs) (s : S) (ptr : Z) : outcome temporal_regs :=
  let* t := if i2b sizeof_ptr then tm_referent s ptr else Ret 0 in
  Ret (mk_regs (parameter_referents r) t).

Definition temporal_pull_return (r : temporal_regs) (s : S) (ptr : Z) : outcome S :=
  tm_store s ptr (return_referent r).

Definition temporal_reset_return (r : temporal_regs) : temporal_regs :=
  mk_regs (parameter_referents r) 0.

(** ** Validity *)

Definition temporal_valid (s : S) (ptr addr_of_ptr : Z) : outcome Z :=
  if negb (addr_of_ptr =? NULL) && negb (ptr =? addr_of_ptr) then
    let* stored_referent := tm_referent s addr_of_ptr in
    let* actual_referent := tm_origin s ptr in
    Ret (b2i (stored_referent =? actual_referent))
  else Ret 1.
End Client.

(** ** Laws of a memory model, and what they give its clients *)

(** In the states that satisfy [tm_ok], time stamps are 32-bit values, the addresses
    that satisfy [tm_target] have an origin, a pointer can be stored at the addresses
    that satisfy [tm_slot], a stored referent is read back, and stores of referents do
    not change the origins. *)
Class TemporalModelOk (S : Type) `{TM : !TemporalModel S} : Type := {
  tm_ok : S -> Prop;
  tm_slot : S -> Z -> Prop;
  tm_target : S -> Z -> Prop;
  tm_origin_total : forall s p, tm_ok s -> tm_target s p -> exists t, tm_origin s p = Ret t /\ in_u 32 t;
  tm_referent_total : forall s p, tm_ok s -> tm_slot s p ->
    exists t, tm_referent s p = Ret t /\ in_u 32 t;
  tm_store_total : forall s p t, tm_ok s -> tm_slot s p ->
    exists s', tm_store s p t = Ret s' /\ tm_ok s' /\ tm_referent s' p = Ret (u32 t) /\
      (forall q, tm_target s q -> tm_origin s' q = tm_origin s q) /\ (forall q, tm_slot s q -> tm_slot s' q)
}.

Section Laws.
Context {S : Type} `{TM : !TemporalModel S, TMok : !TemporalModelOk S} (cfg : config).

(** Storing the block of [rhs] as the referent of the pointer at [lhs]: the access
    through [lhs] is temporally valid. *)
Lemma store_origin_valid s lhs rhs : tm_ok s -> tm_slot s lhs -> tm_target s rhs ->
  exists s', (let* t := tm_origin s rhs in tm_store s lhs t) = Ret s' /\
    temporal_valid s' rhs lhs = Ret 1.
Proof.
  intros Hok Hl Hr. destruct (tm_origin_total s rhs Hok Hr) as (t & E & Ht). rewrite E. cbn [obind].
  destruct (tm_store_total s lhs t Hok Hl) as (s' & -> & _ & Er & Eo & _). exists s'. split; [done|].
  unfold temporal_valid. destruct (_ && _); [|done]. rewrite Er, Eo, E by done. cbn [obind].
  by rewrite u32_small, Z.eqb_refl.
Qed.

(** Storing the referent of [rhs] at [lhs]. *)
Lemma store_referent_same s lhs rhs : tm_ok s -> tm_slot s lhs -> tm_slot s rhs ->
  exists s', (let* t := tm_referent s rhs in tm_store s lhs t) = Ret s' /\
    tm_referent s' lhs = tm_referent s rhs.
Proof.
  intros Hok Hl Hr. destruct (tm_referent_total s rhs Hok Hr) as (t & E & Ht). rewrite E. cbn [obind].
  destruct (tm_store_total s lhs t Hok Hl) as (s' & -> & _ & Er & _). exists s'. split; [done|].
  by rewrite Er, u32_small.
Qed.

(** A parameter saved at a call is found at the entry of the callee. *)
Lemma save_parameter_lookup r ptr i flow r' : length (parameter_referents r) = Z.to_nat MAX_PARAMETERS ->
  save_parameter r ptr i flow = Ret r' ->
  (0 <=? i) && (i <? MAX_PARAMETERS) = true /\
  parameter_referents r' !! Z.to_nat i = Some (mk_parameter ptr flow).
Proof.
  unfold save_parameter. intros Hlen H. destruct ((0 <=? i) && (i <? MAX_PARAMETERS)) eqn:E; [|done].
  injection H as <-. split; [done|]. cbn. apply list_lookup_insert_eq. rewrite Hlen.
  rewrite andb_true_iff, Z.leb_le, Z.ltb_lt in E. unfold MAX_PARAMETERS in *. lia.
Qed.

Lemma save_parameter_total r ptr i flow : 0 <= i < MAX_PARAMETERS ->
  exists r', save_parameter r ptr i flow = Ret r'.
Proof.
  intros Hi. unfold save_parameter. rewrite (proj2 (Z.leb_le 0 i)), (proj2 (Z.ltb_lt i _)) by lia. eauto.
Qed.

(** A parameter that is saved and then pulled. *)
Lemma pull_saved r s ptr formal i size flow :
  length (parameter_referents r) = Z.to_nat MAX_PARAMETERS -> 0 <= i < MAX_PARAMETERS ->
  exists r', save_parameter r ptr i flow = Ret r' /\
    temporal_pull_parameter cfg r' s formal i size =
    match flow with
    | TBlockN => let* t := tm_origin s ptr in tm_store s formal t
    | TReferentN => let* t := tm_referent s ptr in tm_store s formal t
    | TCopy => temporal_memcpy cfg s formal ptr size
    | TNone => Abort
    end.
Proof.
  intros Hlen Hi. destruct (save_parameter_total r ptr i flow Hi) as [r' E]. exists r'. split; [done|].
  destruct (save_parameter_lookup _ _ _ _ _ Hlen E) as [Hb El].
  unfold temporal_pull_parameter. by rewrite Hb, El.
Qed.

Lemma pull_return_same r s ptr target : tm_ok s -> tm_slot s target -> tm_slot s ptr ->
  exists r' s', temporal_save_return r s ptr = Ret r' /\ temporal_pull_return r' s target = Ret s' /\
    tm_referent s' target = tm_referent s ptr.
Proof.
  intros Hok Ht Hp. destruct (tm_referent_total s ptr Hok Hp) as (t & E & Hr).
  destruct (tm_store_total s target t Hok Ht) as (s' & Es & _ & Er & _).
  exists (mk_regs (parameter_referents r) t), s'. unfold temporal_save_return, temporal_pull_return.
  cbn [i2b sizeof_ptr Z.eqb negb]. rewrite E. cbn [obind]. split_and!; [done|done|].
  by rewrite Er, u32_small.
Qed.
End Laws.
