(* ===== verification/Bits.v ===== *)
(** * e_acsl_bits.h: bit-level manipulations

    The macros of the header as functions of the value of the modified lvalue,
    whose width [w] is the width of its C type (an assignment truncates to it),
    and the functions that set, clear and check runs of bits in memory, 64 bits
    at a time. *)

From S2P Require Import Prelude.

(** ** Macros *)

(** [UINT64_MAX] and its complement. *)
Definition ONE : Z := 2 ^ 64 - 1.
Definition ZERO : Z := 0.

(** Complement of a 64-bit value, and shifts of 64-bit values. *)
Definition not64 (z : Z) : Z := u64 (Z.lnot z).
Definition shl64 (z n : Z) : Z := u64 (Z.shiftl z n).
Definition shr64 (z n : Z) : Z := Z.shiftr z n.

Definition setbit (w bit number : Z) : Z :=
  (Z.lor number (Z.shiftl 1 bit)) mod 2 ^ w.

Definition clearbit (w bit number : Z) : Z :=
  (Z.land number (Z.lnot (Z.shiftl 1 bit))) mod 2 ^ w.

Definition checkbit (bit number : Z) : Z := Z.land (Z.shiftr number bit) 1.

Definition togglebit (w bit number : Z) : Z :=
  (Z.lxor number (Z.shiftl 1 bit)) mod 2 ^ w.

Definition changebit (w bit val number : Z) : Z :=
  (Z.lxor number (Z.land (Z.lxor (- val) number) (Z.shiftl 1 bit))) mod 2 ^ w.

Definition setbits64 (w bits number : Z) : Z :=
  (Z.lor number (not64 (shl64 ONE bits))) mod 2 ^ w.

Definition setbits64_skip (w bits number skip : Z) : Z :=
  (Z.lor number (shl64 (not64 (shl64 ONE bits)) skip)) mod 2 ^ w.

Definition checkbits64 (bits number : Z) : Z :=
  b2i (Z.land number (not64 (shl64 ONE bits)) =? not64 (shl64 ONE bits)).

Definition checkbits64_skip (bits number skip : Z) : Z :=
  b2i (Z.land number (shl64 (not64 (shl64 ONE bits)) skip)
       =? shl64 (not64 (shl64 ONE bits)) skip).

Definition clearbits64 (w bits number : Z) : Z :=
  (Z.land number (shl64 ONE bits)) mod 2 ^ w.

Definition setbits64_right (w bits number : Z) : Z :=
  (Z.lor number (not64 (shr64 ONE bits))) mod 2 ^ w.

Definition clearbits64_right (w bits number : Z) : Z :=
  (Z.land number (shr64 ONE bits)) mod 2 ^ w.

(** ** Runs of bits in memory

    [ptr] is the address of the first byte; the [i]-th [int64_t] past it
    is at [ptr + 8 * i].  A 64-bit word is read as its unsigned representation. *)

(** Read-modify-write of the 64-bit object at [p]. *)
Definition update64 (m : mem) (p : Z) (f : Z -> Z) : outcome mem :=
  let* v := load64 m p in store64 m p (f v).

Definition setbits (size : Z) (m : mem) (ptr : Z) : outcome mem :=
  let* m := for_range 0 (size / 64)
              (fun i m => update64 m (ptr + 8 * i) (fun v => Z.lor v ONE)) m in
  update64 m (ptr + 8 * (size / 64)) (setbits64 64 (size mod 64)).

Definition clearbits (size : Z) (m : mem) (ptr : Z) : outcome mem :=
  let* m := for_range 0 (size / 64)
              (fun i m => update64 m (ptr + 8 * i) (fun v => Z.land v ZERO)) m in
  update64 m (ptr + 8 * (size / 64)) (clearbits64 64 (size mod 64)).

(** The loop of [checkbits], with its early [return 0]; [n] iterations are left
    and [i] is the index of the next word. *)
Fixpoint checkbits_loop (n : nat) (i size : Z) (m : mem) (ptr : Z) : outcome Z :=
  match n with
  | O => let* v := load64 m (ptr + 8 * i) in Ret (checkbits64 (size mod 64) v)
  | S n => let* v := load64 m (ptr + 8 * i) in
           if negb (v =? ONE) then Ret 0
           else checkbits_loop n (i + 1) size m ptr
  end.

Definition checkbits (size : Z) (m : mem) (ptr : Z) : outcome Z :=
  checkbits_loop (Z.to_nat (size / 64)) 0 size m ptr.

Definition setbits_right (size : Z) (m : mem) (ptr : Z) : outcome mem :=
  let lp := ptr - 8 in
  let* m := for_range 0 (size / 64)
              (fun i m => update64 m (lp - 8 * i) (fun v => Z.lor v ONE)) m in
  update64 m (lp - 8 * (size / 64)) (setbits64_right 64 (size mod 64)).

Definition clearbits_right (size : Z) (m : mem) (ptr : Z) : outcome mem :=
  let lp := ptr - 8 in
  let* m := for_range 0 (size / 64)
              (fun i m => update64 m (lp - 8 * i) (fun v => Z.land v ZERO)) m in
  update64 m (lp - 8 * (size / 64)) (clearbits64_right 64 (size mod 64)).

(** ** Specifications *)

Lemma testbit_ONE i : 0 <= i -> Z.testbit ONE i = (i <? 64).
Proof.
  intros. unfold ONE. replace (2 ^ 64 - 1) with (Z.ones 64) by done.
  rewrite Z.testbit_ones_nonneg by lia. done.
Qed.

Lemma testbit_not64 z i : 0 <= i < 64 -> Z.testbit (not64 z) i = negb (Z.testbit z i).
Proof. intros. unfold not64. rewrite testbit_u64, Z.lnot_spec by lia. done. Qed.

Lemma testbit_shl64_ONE n i :
  0 <= n -> 0 <= i < 64 -> Z.testbit (shl64 ONE n) i = (n <=? i).
Proof.
  intros. unfold shl64. rewrite testbit_u64, Z.shiftl_spec by lia.
  destruct (Z.leb_spec n i).
  - rewrite testbit_ONE by lia. apply Z.ltb_lt. lia.
  - apply Z.testbit_neg_r. lia.
Qed.

Lemma testbit_shr64_ONE n i :
  0 <= n -> 0 <= i < 64 -> Z.testbit (shr64 ONE n) i = (i <? 64 - n).
Proof.
  intros. unfold shr64. rewrite Z.shiftr_spec, testbit_ONE by lia.
  destruct (Z.ltb_spec (i + n) 64), (Z.ltb_spec i (64 - n)); lia || done.
Qed.

Lemma not64_range z : in_u 64 (not64 z).
Proof. unfold not64. auto with cdb. Qed.

Ltac bits64 :=
  repeat first
    [ rewrite Z.mod_pow2_bits_low by lia
    | rewrite Z.lor_spec | rewrite Z.land_spec
    | rewrite testbit_not64 by lia
    | rewrite testbit_shl64_ONE by lia
    | rewrite testbit_shr64_ONE by lia
    | rewrite testbit_ONE by lia ].

Lemma setbits64_spec bits v i :
  0 <= bits -> 0 <= i < 64 ->
  Z.testbit (setbits64 64 bits v) i = (i <? bits) || Z.testbit v i.
Proof.
  intros. unfold setbits64. bits64. rewrite orb_comm. f_equal.
  destruct (Z.leb_spec bits i), (Z.ltb_spec i bits); lia || done.
Qed.

Lemma clearbits64_spec bits v i :
  0 <= bits -> 0 <= i < 64 ->
  Z.testbit (clearbits64 64 bits v) i = (bits <=? i) && Z.testbit v i.
Proof. intros. unfold clearbits64. bits64. apply andb_comm. Qed.

Lemma setbits64_right_spec bits v i :
  0 <= bits -> 0 <= i < 64 ->
  Z.testbit (setbits64_right 64 bits v) i = (64 - bits <=? i) || Z.testbit v i.
Proof.
  intros. unfold setbits64_right. bits64. rewrite orb_comm. f_equal.
  destruct (Z.leb_spec (64 - bits) i), (Z.ltb_spec i (64 - bits)); lia || done.
Qed.

Lemma clearbits64_right_spec bits v i :
  0 <= bits -> 0 <= i < 64 ->
  Z.testbit (clearbits64_right 64 bits v) i = (i <? 64 - bits) && Z.testbit v i.
Proof. intros. unfold clearbits64_right. bits64. apply andb_comm. Qed.

(** What a read-modify-write of a word does to the bits of the memory, as seen
    from any base address [q] that is a whole number of bytes away. *)
Lemma update64_spec m p f g q :
  mem_ok m -> accessible m p 8 -> (forall v, in_u 64 v -> 0 <= f v) ->
  (forall v i, 0 <= i < 64 -> Z.testbit (f v) i = g i (Z.testbit v i)) ->
  exists m', update64 m p f = Ret m' /\ mem_ok m' /\ dom m' = dom m /\
    forall i, mbit m' q i =
      if decide (8 * (p - q) <= i < 8 * (p - q) + 64)
      then g (i - 8 * (p - q)) (mbit m q i) else mbit m q i.
Proof.
  intros Hm Ha Hpos Hg. unfold update64, load64, store64.
  destruct (load_le_spec 8 m p Hm Ha) as (v & -> & Hv & Hbits).
  simpl obind.
  destruct (store_le_spec 8 m p (f v) Hm Ha) as (m' & E & Hok & Hd & Hout & Hin);
    [by apply Hpos|].
  exists m'. split_and!; [done..|]. intros i. case_decide as Hi.
  - replace (mbit m' q i) with (mbit m' p (i - 8 * (p - q))).
    + rewrite Hin, Hg, Hbits by lia. f_equal.
      replace p with (q + (p - q)) at 1 by lia. rewrite mbit_shift. f_equal. lia.
    + replace p with (q + (p - q)) at 1 by lia. rewrite mbit_shift. f_equal. lia.
  - eapply mbit_frame; [done|]. dlia.
Qed.

(** The 64-bit strides of the four functions: after [j] iterations the bits of
    the first [j] words (counted upwards from [p], or downwards) have been
    rewritten to the constant [c]. *)
Section Strides.
Context (m : mem) (p n : Z) (f : Z -> Z) (c : bool).
Hypothesis Hm : mem_ok m.
Hypothesis Hn : 0 <= n.
Hypothesis Hpos : forall v, in_u 64 v -> 0 <= f v.
Hypothesis Hf : forall v i, 0 <= i < 64 -> Z.testbit (f v) i = c.

Definition run_set (lo hi : Z) (m' : mem) : Prop :=
  mem_ok m' /\ dom m' = dom m /\
  forall i, mbit m' p i = if decide (lo <= i < hi) then c else mbit m p i.

Lemma stride_up :
  accessible m p (8 * n) ->
  exists m', for_range 0 n (fun i m => update64 m (p + 8 * i) f) m = Ret m' /\
    run_set 0 (64 * n) m'.
Proof.
  intros Ha.
  apply (for_range_inv _ (fun j m' => run_set 0 (64 * j) m')); [lia| |].
  - split_and!; [done..|]. intros i. case_decide; [lia|done].
  - intros j m1 Hj (Hok & Hd & Hb).
    destruct (update64_spec m1 (p + 8 * j) f (fun _ _ => c) p) as (m2 & E & Hok2 & Hd2 & Hb2);
      [done| |done|done|].
    { eapply accessible_dom; [exact Hd|]. eapply accessible_sub; [exact Ha|lia..]. }
    exists m2. split; [done|]. split_and!; [done|congruence|].
    intros i. rewrite Hb2, Hb. repeat case_decide; lia || done.
Qed.

Lemma stride_down :
  accessible m (p - 8 * n) (8 * n) ->
  exists m', for_range 0 n (fun i m => update64 m (p - 8 - 8 * i) f) m = Ret m' /\
    run_set (- (64 * n)) 0 m'.
Proof.
  intros Ha.
  apply (for_range_inv _ (fun j m' => run_set (- (64 * j)) 0 m')); [lia| |].
  - split_and!; [done..|]. intros i. case_decide; [lia|done].
  - intros j m1 Hj (Hok & Hd & Hb).
    destruct (update64_spec m1 (p - 8 - 8 * j) f (fun _ _ => c) p)
      as (m2 & E & Hok2 & Hd2 & Hb2); [done| |done|done|].
    { eapply accessible_dom; [exact Hd|]. eapply accessible_sub; [exact Ha|lia..]. }
    exists m2. split; [done|]. split_and!; [done|congruence|].
    intros i. rewrite Hb2, Hb. repeat case_decide; lia || done.
Qed.
End Strides.

(** [size/64] and [size%64] of the source. *)
Lemma size_split size : 0 <= size ->
  0 <= size / 64 /\ 0 <= size mod 64 < 64 /\ size = 64 * (size / 64) + size mod 64.
Proof. intros. dlia. Qed.

Lemma lor_nonneg64 v : in_u 64 v -> 0 <= Z.lor v ONE.
Proof. unfold in_u, ONE. intros. apply Z.lor_nonneg. lia. Qed.

Lemma land_nonneg64 v z : in_u 64 v -> 0 <= Z.land v z.
Proof. unfold in_u. intros. apply Z.land_nonneg. lia. Qed.

Lemma mod_nonneg64 z : 0 <= z mod 2 ^ 64.
Proof. apply Z.mod_pos_bound. lia. Qed.

#[export] Hint Resolve lor_nonneg64 land_nonneg64 mod_nonneg64 : cdb.

Lemma testbit_lor_ONE v i : 0 <= i < 64 -> Z.testbit (Z.lor v ONE) i = true.
Proof.
  intros. rewrite Z.lor_spec, testbit_ONE by lia.
  rewrite (proj2 (Z.ltb_lt i 64)) by lia. apply orb_true_r.
Qed.

Lemma testbit_land_ZERO v i : 0 <= i < 64 -> Z.testbit (Z.land v ZERO) i = false.
Proof. intros. rewrite Z.land_spec. unfold ZERO. rewrite Z.bits_0. apply andb_false_r. Qed.

(** The strides of a function followed by the update of the last word, whose
    low (resp. high) [size mod 64] bits are rewritten to [c]. *)
Lemma run_up m p size f g c :
  mem_ok m -> 0 <= size -> accessible m p (8 * (size / 64 + 1)) ->
  (forall v, in_u 64 v -> 0 <= f v) ->
  (forall v i, 0 <= i < 64 -> Z.testbit (f v) i = c) ->
  (forall v, in_u 64 v -> 0 <= g v) ->
  (forall v i, 0 <= i < 64 ->
     Z.testbit (g v) i = if i <? size mod 64 then c else Z.testbit v i) ->
  exists m',
    (let* m1 := for_range 0 (size / 64) (fun i m => update64 m (p + 8 * i) f) m in
     update64 m1 (p + 8 * (size / 64)) g) = Ret m' /\ run_set m p c 0 size m'.
Proof.
  intros Hm Hs Ha Hf0 Hf Hg0 Hg. destruct (size_split size Hs) as (? & ? & Esz).
  destruct (stride_up m p (size / 64) f c) as (m1 & -> & Hok & Hd & Hb); try done.
  { eapply accessible_sub; [exact Ha|lia..]. }
  simpl obind.
  destruct (update64_spec m1 (p + 8 * (size / 64)) g
              (fun i b => if i <? size mod 64 then c else b) p)
    as (m' & E & Hok' & Hd' & Hb'); try done.
  { eapply accessible_dom; [exact Hd|]. eapply accessible_sub; [exact Ha|lia..]. }
  exists m'. split; [done|]. split_and!; [done|congruence|].
  intros i. rewrite Hb', Hb. repeat case_decide; zbool; lia || done.
Qed.

Lemma run_down m p size f g c :
  mem_ok m -> 0 <= size ->
  accessible m (p - 8 * (size / 64 + 1)) (8 * (size / 64 + 1)) ->
  (forall v, in_u 64 v -> 0 <= f v) ->
  (forall v i, 0 <= i < 64 -> Z.testbit (f v) i = c) ->
  (forall v, in_u 64 v -> 0 <= g v) ->
  (forall v i, 0 <= i < 64 ->
     Z.testbit (g v) i = if 64 - size mod 64 <=? i then c else Z.testbit v i) ->
  exists m',
    (let* m1 := for_range 0 (size / 64) (fun i m => update64 m (p - 8 - 8 * i) f) m in
     update64 m1 (p - 8 - 8 * (size / 64)) g) = Ret m' /\ run_set m p c (- size) 0 m'.
Proof.
  intros Hm Hs Ha Hf0 Hf Hg0 Hg. destruct (size_split size Hs) as (? & ? & Esz).
  destruct (stride_down m p (size / 64) f c) as (m1 & -> & Hok & Hd & Hb); try done.
  { eapply accessible_sub; [exact Ha|lia..]. }
  simpl obind.
  destruct (update64_spec m1 (p - 8 - 8 * (size / 64)) g
              (fun i b => if 64 - size mod 64 <=? i then c else b) p)
    as (m' & E & Hok' & Hd' & Hb'); try done.
  { eapply accessible_dom; [exact Hd|]. eapply accessible_sub; [exact Ha|lia..]. }
  exists m'. split; [done|]. split_and!; [done|congruence|].
  intros i. rewrite Hb', Hb. repeat case_decide; zbool; lia || done.
Qed.

(** [setbits] sets exactly the [size] bits from [ptr] on, provided whole 64-bit
    words up to the one that holds bit [size] may be accessed. *)
Lemma setbits_spec size m ptr :
  mem_ok m -> 0 <= size -> accessible m ptr (8 * (size / 64 + 1)) ->
  exists m', setbits size m ptr = Ret m' /\ run_set m ptr true 0 size m'.
Proof.
  intros Hm Hs Ha. apply run_up; auto with cdb.
  - intros. by apply testbit_lor_ONE.
  - intros. unfold setbits64. auto with cdb.
  - intros v i Hi. rewrite setbits64_spec by dlia. by destruct (i <? _).
Qed.

Lemma clearbits_spec size m ptr :
  mem_ok m -> 0 <= size -> accessible m ptr (8 * (size / 64 + 1)) ->
  exists m', clearbits size m ptr = Ret m' /\ run_set m ptr false 0 size m'.
Proof.
  intros Hm Hs Ha. apply run_up; auto with cdb.
  - intros. by apply testbit_land_ZERO.
  - intros. unfold clearbits64. auto with cdb.
  - intros v i Hi. rewrite clearbits64_spec by dlia. zbool; lia || done.
Qed.

Lemma setbits_right_spec size m ptr :
  mem_ok m -> 0 <= size ->
  accessible m (ptr - 8 * (size / 64 + 1)) (8 * (size / 64 + 1)) ->
  exists m', setbits_right size m ptr = Ret m' /\ run_set m ptr true (- size) 0 m'.
Proof.
  intros Hm Hs Ha. apply run_down; auto with cdb.
  - intros. by apply testbit_lor_ONE.
  - intros. unfold setbits64_right. auto with cdb.
  - intros v i Hi. rewrite setbits64_right_spec by dlia. by destruct (_ <=? i).
Qed.

Lemma clearbits_right_spec size m ptr :
  mem_ok m -> 0 <= size ->
  accessible m (ptr - 8 * (size / 64 + 1)) (8 * (size / 64 + 1)) ->
  exists m', clearbits_right size m ptr = Ret m' /\ run_set m ptr false (- size) 0 m'.
Proof.
  intros Hm Hs Ha. apply run_down; auto with cdb.
  - intros. by apply testbit_land_ZERO.
  - intros. unfold clearbits64_right. auto with cdb.
  - intros v i Hi. rewrite clearbits64_right_spec by dlia. zbool; lia || done.
Qed.

(** Decision of a bounded universal statement about bits. *)
Definition all_bits (m : mem) (p lo hi : Z) : Prop :=
  forall i, lo <= i < hi -> mbit m p i = true.

#[export] Instance all_bits_dec m p lo hi : Decision (all_bits m p lo hi).
Proof.
  refine (cast_if (decide (Forall (fun i => mbit m p i = true) (seqZ lo (hi - lo)))));
    unfold all_bits.
  - rewrite Forall_forall in f. intros i Hi. apply f, elem_of_seqZ. lia.
  - intros H. apply n, Forall_forall. intros i Hi%elem_of_seqZ. apply H. lia.
Defined.

Lemma word_ones v : in_u 64 v ->
  (v = ONE <-> forall i, 0 <= i < 64 -> Z.testbit v i = true).
Proof.
  intros Hv. split.
  - intros -> i Hi. rewrite testbit_ONE by lia. apply Z.ltb_lt. lia.
  - intros H. apply Z.bits_inj'. intros i Hi. rewrite testbit_ONE by lia.
    destruct (Z.ltb_spec i 64); [by rewrite H|]. by apply (testbit_in_u 64).
Qed.

Lemma checkbits64_spec bits v :
  0 <= bits < 64 -> in_u 64 v ->
  (checkbits64 bits v = 1 <-> forall i, 0 <= i < bits -> Z.testbit v i = true) /\
  (checkbits64 bits v = 0 \/ checkbits64 bits v = 1).
Proof.
  intros Hb Hv. unfold checkbits64.
  destruct (Z.eqb_spec (Z.land v (not64 (shl64 ONE bits))) (not64 (shl64 ONE bits))) as [E|E];
    (split; [split; [intros Hr|intros Hbits]|auto]; simpl in *; try done).
  - intros i Hi. apply (f_equal (fun z => Z.testbit z i)) in E.
    rewrite Z.land_spec, testbit_not64, testbit_shl64_ONE in E by lia.
    destruct (Z.leb_spec bits i); [lia|]. by destruct (Z.testbit v i).
  - destruct E. apply Z.bits_inj'. intros i Hi. rewrite Z.land_spec.
    destruct (Z.ltb_spec i 64).
    + rewrite testbit_not64, testbit_shl64_ONE by lia.
      destruct (Z.leb_spec bits i); simpl; [by rewrite andb_false_r|].
      by rewrite Hbits by lia.
    + rewrite (testbit_in_u 64 (not64 _) i); [apply andb_false_r|apply not64_range|lia].
Qed.

(** [checkbits] decides whether the [size] bits from [ptr] on are all set. *)
Lemma checkbits_loop_spec n i size m ptr :
  mem_ok m -> 0 <= i -> 0 <= size -> i + Z.of_nat n = size / 64 ->
  accessible m ptr (8 * (size / 64 + 1)) ->
  exists r, checkbits_loop n i size m ptr = Ret r /\ (r = 0 \/ r = 1) /\
    (r = 1 <-> all_bits m ptr (64 * i) size).
Proof.
  intros Hm. revert i. induction n as [|n IH]; intros i Hi Hs Hn Ha; cbn [checkbits_loop];
    destruct (size_split size Hs) as (? & ? & Esz);
    (destruct (load_le_spec 8 m (ptr + 8 * i) Hm) as (v & E & Hv & Hbits);
      [eapply accessible_sub; [exact Ha|lia..]|]);
    unfold load64; rewrite E; cbn [obind].
  - destruct (checkbits64_spec (size mod 64) v) as [Hc Hr]; [lia|done|].
    eexists. split; [done|]. split; [done|]. rewrite Hc. split; intros H1 j Hj.
    + replace j with (8 * (8 * i) + (j - 64 * i)) by lia. rewrite <- mbit_shift, <- Hbits by lia.
      apply H1. lia.
    + rewrite Hbits, mbit_shift by lia. apply H1. lia.
  - destruct (Z.eqb_spec v ONE) as [Ev|Ev]; cbn [negb].
    + destruct (IH (i + 1)) as (r & Er & Hr & Hiff); [lia|done|lia|done|].
      rewrite Er. exists r. split; [done|]. split; [done|]. rewrite Hiff.
      split; intros H1 j Hj; [|apply H1; lia].
      destruct (Z.ltb_spec j (64 * (i + 1))); [|apply H1; lia].
      replace j with (8 * (8 * i) + (j - 64 * i)) by lia. rewrite <- mbit_shift, <- Hbits by lia.
      apply (proj1 (word_ones v Hv) Ev). lia.
    + exists 0. split; [done|]. split; [auto|]. split; [done|]. intros H1. destruct Ev.
      apply (word_ones v Hv). intros j Hj. rewrite Hbits, mbit_shift by lia. apply H1. lia.
Qed.

Lemma checkbits_spec size m ptr :
  mem_ok m -> 0 <= size -> accessible m ptr (8 * (size / 64 + 1)) ->
  exists r, checkbits size m ptr = Ret r /\ (r = 0 \/ r = 1) /\
    (r = 1 <-> all_bits m ptr 0 size).
Proof.
  intros Hm Hs Ha. unfold checkbits.
  apply (checkbits_loop_spec (Z.to_nat (size / 64)) 0); try done. dlia.
Qed.

(** [setbits], [clearbits], [setbits_right] and [clearbits_right] set
    (clear) exactly the [size] bits that follow (precede) the address: every
    other bit of the memory is unchanged, although whole words are written. *)
Theorem bit_runs_exact (size : Z) (m : mem) (ptr : Z) :
  mem_ok m -> 0 <= size ->
  (accessible m ptr (8 * (size / 64 + 1)) ->
   (exists m', setbits size m ptr = Ret m' /\ run_set m ptr true 0 size m') /\
   (exists m', clearbits size m ptr = Ret m' /\ run_set m ptr false 0 size m')) /\
  (accessible m (ptr - 8 * (size / 64 + 1)) (8 * (size / 64 + 1)) ->
   (exists m', setbits_right size m ptr = Ret m' /\ run_set m ptr true (- size) 0 m') /\
   (exists m', clearbits_right size m ptr = Ret m' /\ run_set m ptr false (- size) 0 m')).
Proof.
  intros Hm Hs. split; intros Ha.
  - split; [by apply setbits_spec|by apply clearbits_spec].
  - split; [by apply setbits_right_spec|by apply clearbits_right_spec].
Qed.

(** A memory of 32 bytes at address 100. *)
Definition demo_bytes : mem := mem_fill 32 100 0.

Lemma demo_bytes_ok : mem_ok demo_bytes.
Proof. apply mem_fill_ok. unfold in_u. lia. Qed.

Lemma bit_runs_exact_witness :
  (exists m', setbits 70 demo_bytes 100 = Ret m' /\ run_set demo_bytes 100 true 0 70 m') /\
  (exists m', setbits_right 70 demo_bytes 132 = Ret m' /\ run_set demo_bytes 132 true (-70) 0 m').
Proof.
  split.
  - apply (bit_runs_exact 70 demo_bytes 100 demo_bytes_ok); [lia|].
    apply mem_fill_accessible; vm_compute; discriminate.
  - apply (bit_runs_exact 70 demo_bytes 132 demo_bytes_ok); [lia|].
    apply mem_fill_accessible; vm_compute; discriminate.
Defined.

(** [checkbits] is 1 if the [size] bits that start at the address are all
    set and 0 otherwise, for every size. *)
Theorem checkbits_exact (size : Z) (m : mem) (ptr : Z) :
  mem_ok m -> 0 <= size -> accessible m ptr (8 * (size / 64 + 1)) ->
  exists r, checkbits size m ptr = Ret r /\ (r = 0 \/ r = 1) /\
    (r = 1 <-> forall i, 0 <= i < size -> mbit m ptr i = true).
Proof. apply checkbits_spec. Qed.

Lemma checkbits_exact_witness : exists r, checkbits 70 demo_bytes 100 = Ret r.
Proof.
  destruct (checkbits_exact 70 demo_bytes 100 demo_bytes_ok) as (r & E & _); [lia| |eauto].
  apply mem_fill_accessible; vm_compute; discriminate.
Defined.
