(* ===== verification/Mask.v ===== *)
(** * e_acsl_bittree.h: the common prefix of two addresses

    The tables [Tmasks], [Teq] and [Tneq] for the three supported word sizes,
    and the dichotomic search [mask] that walks them. *)

From S2P Require Import Prelude.

(** ** The tables *)

Definition Tmasks_16 : list Z :=
  [ 0x0; 0x8000; 0xc000; 0xe000; 0xf000; 0xf800; 0xfc00; 0xfe00; 0xff00;
    0xff80; 0xffc0; 0xffe0; 0xfff0; 0xfff8; 0xfffc; 0xfffe; 0xffff ].

Definition Teq_16 : list Z :=
  [ 0; (-1); 3; (-3); 6; (-5); 7; (-7); 12; (-9); 11; (-11); 14; (-13); 15;
    16; (-16) ].

Definition Tneq_16 : list Z :=
  [ 0; 0; 1; (-2); 2; (-4); 5; (-6); 4; (-8); 9; (-10); 10; (-12); 13; (-14);
    (-15) ].

Definition Tmasks_32 : list Z :=
  [ 0x0; 0x80000000; 0xc0000000; 0xe0000000; 0xf0000000; 0xf8000000;
    0xfc000000; 0xfe000000; 0xff000000; 0xff800000; 0xffc00000; 0xffe00000;
    0xfff00000; 0xfff80000; 0xfffc0000; 0xfffe0000; 0xffff0000; 0xffff8000;
    0xffffc000; 0xffffe000; 0xfffff000; 0xfffff800; 0xfffffc00; 0xfffffe00;
    0xffffff00; 0xffffff80; 0xffffffc0; 0xffffffe0; 0xfffffff0; 0xfffffff8;
    0xfffffffc; 0xfffffffe; 0xffffffff ].

Definition Teq_32 : list Z :=
  [ 0; (-1); 3; (-3); 6; (-5); 7; (-7); 12; (-9); 11; (-11); 14; (-13); 15;
    (-15); 24; (-17); 19; (-19); 22; (-21); 23; (-23); 28; (-25); 27; (-27);
    30; (-29); 31; 32; (-32) ].

Definition Tneq_32 : list Z :=
  [ 0; 0; 1; (-2); 2; (-4); 5; (-6); 4; (-8); 9; (-10); 10; (-12); 13; (-14);
    8; (-16); 17; (-18); 18; (-20); 21; (-22); 20; (-24); 25; (-26); 26;
    (-28); 29; (-30); (-31) ].

Definition Tmasks_64 : list Z :=
  [ 0x0; 0x8000000000000000; 0xc000000000000000; 0xe000000000000000;
    0xf000000000000000; 0xf800000000000000; 0xfc00000000000000;
    0xfe00000000000000; 0xff00000000000000; 0xff80000000000000;
    0xffc0000000000000; 0xffe0000000000000; 0xfff0000000000000;
    0xfff8000000000000; 0xfffc000000000000; 0xfffe000000000000;
    0xffff000000000000; 0xffff800000000000; 0xffffc00000000000;
    0xffffe00000000000; 0xfffff00000000000; 0xfffff80000000000;
    0xfffffc0000000000; 0xfffffe0000000000; 0xffffff0000000000;
    0xffffff8000000000; 0xffffffc000000000; 0xffffffe000000000;
    0xfffffff000000000; 0xfffffff800000000; 0xfffffffc00000000;
    0xfffffffe00000000; 0xffffffff00000000; 0xffffffff80000000;
    0xffffffffc0000000; 0xffffffffe0000000; 0xfffffffff0000000;
    0xfffffffff8000000; 0xfffffffffc000000; 0xfffffffffe000000;
    0xffffffffff000000; 0xffffffffff800000; 0xffffffffffc00000;
    0xffffffffffe00000; 0xfffffffffff00000; 0xfffffffffff80000;
    0xfffffffffffc0000; 0xfffffffffffe0000; 0xffffffffffff0000;
    0xffffffffffff8000; 0xffffffffffffc000; 0xffffffffffffe000;
    0xfffffffffffff000; 0xfffffffffffff800; 0xfffffffffffffc00;
    0xfffffffffffffe00; 0xffffffffffffff00; 0xffffffffffffff80;
    0xffffffffffffffc0; 0xffffffffffffffe0; 0xfffffffffffffff0;
    0xfffffffffffffff8; 0xfffffffffffffffc; 0xfffffffffffffffe;
    0xffffffffffffffff ].

Definition Teq_64 : list Z :=
  [ 0; (-1); 3; (-3); 6; (-5); 7; (-7); 12; (-9); 11; (-11); 14; (-13); 15;
    (-15); 24; (-17); 19; (-19); 22; (-21); 23; (-23); 28; (-25); 27; (-27);
    30; (-29); 31; (-31); 48; (-33); 35; (-35); 38; (-37); 39; (-39); 44;
    (-41); 43; (-43); 46; (-45); 47; (-47); 56; (-49); 51; (-51); 54; (-53);
    55; (-55); 60; (-57); 59; (-59); 62; (-61); 63; 64; (-64) ].

Definition Tneq_64 : list Z :=
  [ 0; 0; 1; (-2); 2; (-4); 5; (-6); 4; (-8); 9; (-10); 10; (-12); 13; (-14);
    8; (-16); 17; (-18); 18; (-20); 21; (-22); 20; (-24); 25; (-26); 26;
    (-28); 29; (-30); 16; (-32); 33; (-34); 34; (-36); 37; (-38); 36; (-40);
    41; (-42); 42; (-44); 45; (-46); 40; (-48); 49; (-50); 50; (-52); 53;
    (-54); 52; (-56); 57; (-58); 58; (-60); 61; (-62); (-63) ].

(** The tables selected by [WORDBITS]. *)
Record prefix_tables : Type := mk_tables {
  WORDBITS : Z;
  Tmasks : list Z;
  Teq : list Z;
  Tneq : list Z
}.

Definition tables16 : prefix_tables := mk_tables 16 Tmasks_16 Teq_16 Tneq_16.
Definition tables32 : prefix_tables := mk_tables 32 Tmasks_32 Teq_32 Tneq_32.
Definition tables64 : prefix_tables := mk_tables 64 Tmasks_64 Teq_64 Tneq_64.

(** ** The search *)

(** Read of a table: outside its bounds the behaviour is undefined. *)
Definition tget (t : list Z) (i : Z) : outcome Z :=
  if i <? 0 then Fault else deref (t !! Z.to_nat i).

(** The [while (i > 0)] loop. *)
Fixpoint mask_loop (T : prefix_tables) (fuel : nat) (nxor i : Z) : outcome Z :=
  if 0 <? i then
    match fuel with
    | O => NoFuel
    | S fuel =>
        let* tm := tget (Tmasks T) i in
        let* i := if tm <=? nxor then tget (Teq T) i else tget (Tneq T) i in
        mask_loop T fuel nxor i
    end
  else Ret i.

(** The search halves an interval of [WORDBITS + 1] positions; 8 iterations are
    enough for all word sizes. *)
Definition mask_fuel : nat := 8.

Definition mask_in (T : prefix_tables) (cfg : config) (a b : Z) : outcome Z :=
  let nxor := (Z.lnot (Z.lxor a b)) mod 2 ^ WORDBITS T in
  let* i := mask_loop T mask_fuel nxor (WORDBITS T / 2) in
  let* ret := tget (Tmasks T) (- i) in
  let* _ := DASSERT cfg (Z.land a ret =? Z.land b ret) in
  Ret ret.

(** [mask] on the 64-bit target. *)
Definition mask (cfg : config) (a b : Z) : outcome Z := mask_in tables64 cfg a b.

(** ** Prefixes

    [pmask w k] has its [k] most significant bits set (among [w]); [hi w k a]
    are the [k] most significant bits of [a]; [cpl w a b] is the length of the
    longest common prefix of [a] and [b]. *)
Definition pmask (w k : Z) : Z := 2 ^ w - 2 ^ (w - k).
Definition hi (w k a : Z) : Z := a / 2 ^ (w - k).
Definition cpl (w a b : Z) : Z :=
  if a =? b then w else w - 1 - Z.log2 (Z.lxor a b).

(** ** The tables are right

    The search only depends on the outcome of the probes [nxor >= Tmasks[i]],
    which are monotone in [i]: it is the same search driven by the predicate
    [i <= L], and for each [L] it has to stop at [-L]. *)

Fixpoint probe_loop (T : prefix_tables) (P : Z -> bool) (fuel : nat) (i : Z) : outcome Z :=
  if 0 <? i then
    match fuel with
    | O => NoFuel
    | S fuel =>
        if WORDBITS T <? i then Fault
        else let* i := if P i then tget (Teq T) i else tget (Tneq T) i in
             probe_loop T P fuel i
    end
  else Ret i.

(** What [mask] needs of the tables. *)
Class TablesOk (T : prefix_tables) : Prop := {
  tables_width : 0 < WORDBITS T;
  tables_length : length (Tmasks T) = S (Z.to_nat (WORDBITS T));
  tables_masks : forall i, 0 <= i <= WORDBITS T ->
    Tmasks T !! Z.to_nat i = Some (pmask (WORDBITS T) i);
  tables_search : forall L, 0 <= L <= WORDBITS T ->
    probe_loop T (fun i => i <=? L) mask_fuel (WORDBITS T / 2) = Ret (- L)
}.

(** Both table properties, checked by enumeration. *)
Definition tables_check (T : prefix_tables) : bool :=
  (0 <? WORDBITS T) && (Nat.eqb (length (Tmasks T)) (S (Z.to_nat (WORDBITS T)))) &&
  forallb (fun n =>
    let i := Z.of_nat n in
    bool_decide (Tmasks T !! n = Some (pmask (WORDBITS T) i)) &&
    match probe_loop T (fun j => j <=? i) mask_fuel (WORDBITS T / 2) with
    | Ret r => r =? - i
    | _ => false
    end) (seq 0 (S (Z.to_nat (WORDBITS T)))).

Lemma tables_check_ok T : tables_check T = true -> TablesOk T.
Proof.
  unfold tables_check. rewrite !andb_true_iff, Z.ltb_lt, Nat.eqb_eq, forallb_forall.
  intros [[Hw Hl] H]. assert (forall i, 0 <= i <= WORDBITS T ->
    Tmasks T !! Z.to_nat i = Some (pmask (WORDBITS T) i) /\
    probe_loop T (fun j => j <=? i) mask_fuel (WORDBITS T / 2) = Ret (- i)) as Hi.
  { intros i Hi. specialize (H (Z.to_nat i)). rewrite Z2Nat.id in H by lia.
    rewrite andb_true_iff, bool_decide_eq_true in H.
    destruct H as [H1 H2]; [apply in_seq; lia|]. split; [done|].
    destruct (probe_loop _ _ _ _); try done. f_equal. by apply Z.eqb_eq. }
  split; [done|done|apply Hi|apply Hi].
Qed.

#[export] Instance tables16_ok : TablesOk tables16.
Proof. apply tables_check_ok. by vm_compute. Qed.
#[export] Instance tables32_ok : TablesOk tables32.
Proof. apply tables_check_ok. by vm_compute. Qed.
#[export] Instance tables64_ok : TablesOk tables64.
Proof. apply tables_check_ok. by vm_compute. Qed.

(** ** Lemmas on prefixes *)

Section Prefix.
Context (w : Z) (Hw : 0 < w).

Lemma pow2_pos n : 0 <= n -> 0 < 2 ^ n.
Proof. intros. by apply Z.pow_pos_nonneg. Qed.

Lemma pmask_mono i j : 0 <= i <= j -> j <= w -> pmask w i <= pmask w j.
Proof.
  intros. unfold pmask. assert (2 ^ (w - j) <= 2 ^ (w - i)); [|lia].
  apply Z.pow_le_mono_r; lia.
Qed.

Lemma pmask_inj i j : 0 <= i <= w -> 0 <= j <= w -> pmask w i = pmask w j -> i = j.
Proof.
  unfold pmask. intros Hi Hj E.
  assert (w - i = w - j); [|lia]. apply (Z.pow_inj_r 2); lia.
Qed.

Lemma pmask_lt i j : 0 <= i < j -> j <= w -> pmask w i < pmask w j.
Proof.
  intros. unfold pmask. assert (2 ^ (w - j) < 2 ^ (w - i)); [|lia].
  apply Z.pow_lt_mono_r; lia.
Qed.

Lemma pmask_range k : 0 <= k <= w -> in_u w (pmask w k).
Proof.
  intros. unfold in_u, pmask. pose proof (pow2_pos (w - k)).
  assert (2 ^ (w - k) <= 2 ^ w) by (apply Z.pow_le_mono_r; lia). lia.
Qed.

Lemma testbit_pmask k i : 0 <= k <= w -> 0 <= i < w ->
  Z.testbit (pmask w k) i = (w - k <=? i).
Proof.
  intros Hk Hi. unfold pmask.
  replace (2 ^ w - 2 ^ (w - k)) with (Z.shiftl (Z.ones k) (w - k)).
  - rewrite Z.shiftl_spec by lia. destruct (Z.leb_spec (w - k) i).
    + rewrite Z.testbit_ones_nonneg by lia. apply Z.ltb_lt. lia.
    + by rewrite Z.testbit_neg_r by lia.
  - rewrite Z.shiftl_mul_pow2, Z.ones_equiv by lia.
    replace (2 ^ w) with (2 ^ k * 2 ^ (w - k)); [lia|].
    rewrite <- Z.pow_add_r by lia. f_equal. lia.
Qed.

Lemma land_pmask k a : 0 <= k <= w -> in_u w a ->
  Z.land a (pmask w k) = hi w k a * 2 ^ (w - k).
Proof.
  intros Hk Ha. unfold hi.
  rewrite <- Z.shiftr_div_pow2, <- Z.shiftl_mul_pow2 by lia.
  apply Z.bits_inj'. intros i Hi. rewrite Z.land_spec, Z.shiftl_spec by lia.
  destruct (Z.ltb_spec i w).
  - rewrite testbit_pmask by lia. destruct (Z.leb_spec (w - k) i).
    + rewrite Z.shiftr_spec, andb_true_r by lia. f_equal. lia.
    + rewrite andb_false_r, Z.testbit_neg_r by lia. done.
  - rewrite Z.shiftr_spec by lia. rewrite !(testbit_in_u w a) by (done || lia). done.
Qed.

Lemma land_pmask_eq k a b : 0 <= k <= w -> in_u w a -> in_u w b ->
  Z.land a (pmask w k) = Z.land b (pmask w k) <-> hi w k a = hi w k b.
Proof.
  intros. rewrite !land_pmask by done. pose proof (pow2_pos (w - k)). nia.
Qed.

Lemma land_pmask_le k a b : 0 <= k <= w -> in_u w a -> in_u w b ->
  Z.land a (pmask w k) <= Z.land b (pmask w k) <-> hi w k a <= hi w k b.
Proof.
  intros. rewrite !land_pmask by done. pose proof (pow2_pos (w - k)). nia.
Qed.

Lemma hi_land k j a : 0 <= j <= k -> k <= w -> in_u w a ->
  hi w j (Z.land a (pmask w k)) = hi w j a.
Proof.
  intros Hj Hk Ha. rewrite land_pmask by (done || lia). unfold hi.
  replace (2 ^ (w - j)) with (2 ^ (w - k) * 2 ^ (k - j))
    by (rewrite <- Z.pow_add_r by lia; f_equal; lia).
  pose proof (pow2_pos (w - k)). pose proof (pow2_pos (k - j)).
  rewrite <- !Z.div_div by lia. rewrite Z.div_mul by lia. done.
Qed.

Lemma hi_mono k a b : a <= b -> hi w k a <= hi w k b.
Proof.
  intros. unfold hi. destruct (Z.leb_spec 0 (w - k)).
  - apply Z.div_le_mono; [apply pow2_pos|]; lia.
  - rewrite Z.pow_neg_r by lia. by rewrite !Z.div_0_r.
Qed.

Lemma hi_lt k a b : hi w k a < hi w k b -> a < b.
Proof.
  intros H. destruct (Z.ltb_spec a b); [done|]. pose proof (hi_mono k b a). lia.
Qed.

Lemma hi_full a : hi w w a = a.
Proof. unfold hi. rewrite Z.sub_diag. apply Z.div_1_r. Qed.

Lemma hi_hi j k a : 0 <= j <= k -> k <= w -> hi w j a = hi w k a / 2 ^ (k - j).
Proof.
  intros. unfold hi. pose proof (pow2_pos (w - k)). pose proof (pow2_pos (k - j)).
  rewrite Z.div_div by lia. f_equal. rewrite <- Z.pow_add_r by lia. f_equal. lia.
Qed.

Lemma hi_le j k a b : 0 <= j <= k -> k <= w -> hi w k a = hi w k b -> hi w j a = hi w j b.
Proof. intros. rewrite !(hi_hi j k) by lia. congruence. Qed.

(** One more bit. *)
Lemma hi_succ k a : 0 <= k < w ->
  hi w (k + 1) a = 2 * hi w k a \/ hi w (k + 1) a = 2 * hi w k a + 1.
Proof.
  intros. rewrite (hi_hi k (k + 1)) by lia. replace (k + 1 - k) with 1 by lia.
  change (2 ^ 1) with 2. dlia.
Qed.
End Prefix.

(** ** Longest common prefix *)

Section CommonPrefix.
Context (w : Z) (Hw : 0 < w) (a b : Z) (Ha : in_u w a) (Hb : in_u w b).

Lemma lxor_range : in_u w (Z.lxor a b).
Proof using Hw Ha Hb.
  apply in_u_testbit; [lia|apply Z.lxor_nonneg; unfold in_u in *; lia|].
  intros i Hi. rewrite Z.lxor_spec, !(testbit_in_u w) by done. done.
Qed.

Lemma cpl_range : 0 <= cpl w a b <= w /\ (a <> b -> cpl w a b < w).
Proof using Hw Ha Hb.
  unfold cpl. destruct (Z.eqb_spec a b) as [->|E]; [split; [lia|done]|].
  pose proof lxor_range as Hx. unfold in_u in Hx.
  assert (Z.lxor a b <> 0) by (rewrite Z.lxor_eq_0_iff; done).
  pose proof (Z.log2_nonneg (Z.lxor a b)).
  assert (Z.log2 (Z.lxor a b) < w) by (apply Z.log2_lt_pow2; lia). lia.
Qed.

Lemma lxor_lt_cpl i : 0 <= i <= w -> Z.lxor a b < 2 ^ (w - i) <-> i <= cpl w a b.
Proof using Hw Ha Hb.
  intros Hi. pose proof lxor_range as Hx. unfold in_u in Hx.
  unfold cpl. destruct (Z.eqb_spec a b) as [->|E].
  - rewrite Z.lxor_nilpotent. pose proof (pow2_pos (w - i)). lia.
  - assert (Z.lxor a b <> 0) by (rewrite Z.lxor_eq_0_iff; done).
    rewrite Z.log2_lt_pow2 by lia. lia.
Qed.

Lemma cpl_spec i : 0 <= i <= w -> hi w i a = hi w i b <-> i <= cpl w a b.
Proof using Hw Ha Hb.
  intros Hi. rewrite <- lxor_lt_cpl by done. unfold hi.
  pose proof lxor_range as Hx. unfold in_u in Hx. pose proof (pow2_pos (w - i)).
  rewrite <- !Z.shiftr_div_pow2 by lia. rewrite <- Z.lxor_eq_0_iff, <- Z.shiftr_lxor.
  rewrite Z.shiftr_div_pow2 by lia. rewrite Z.div_small_iff by lia. lia.
Qed.

Lemma probe_cpl i : 0 <= i <= w ->
  (pmask w i <=? (Z.lnot (Z.lxor a b)) mod 2 ^ w) = (i <=? cpl w a b).
Proof using Hw Ha Hb.
  intros Hi. pose proof lxor_range as Hx. unfold in_u in Hx.
  replace (Z.lnot (Z.lxor a b) mod 2 ^ w) with (2 ^ w - 1 - Z.lxor a b).
  - pose proof (lxor_lt_cpl i Hi). unfold pmask.
    destruct (Z.leb_spec (2 ^ w - 2 ^ (w - i)) (2 ^ w - 1 - Z.lxor a b)),
      (Z.leb_spec i (cpl w a b)); lia || done.
  - unfold Z.lnot. apply Z.mod_unique with (q := -1); lia.
Qed.

Lemma cpl_agree : hi w (cpl w a b) a = hi w (cpl w a b) b.
Proof using Hw Ha Hb. apply cpl_spec; [apply cpl_range|]; lia. Qed.
End CommonPrefix.

(** ** Correctness of the search *)

Section MaskCorrect.
Context (T : prefix_tables) `{HT : !TablesOk T}.
Notation w := (WORDBITS T).

Lemma tget_Tmasks i : 0 <= i <= w -> tget (Tmasks T) i = Ret (pmask w i).
Proof using HT.
  intros. unfold tget. destruct (Z.ltb_spec i 0); [lia|]. by rewrite tables_masks.
Qed.

Lemma mask_loop_probe fuel nxor P i :
  (forall j, 0 <= j <= w -> (pmask w j <=? nxor) = P j) ->
  mask_loop T fuel nxor i = probe_loop T P fuel i.
Proof using HT.
  intros HP. revert i. induction fuel as [|fuel IH]; intros i; simpl; [done|].
  destruct (Z.ltb_spec 0 i); [|done]. destruct (Z.ltb_spec w i).
  - unfold tget. destruct (Z.ltb_spec i 0); [lia|].
    rewrite lookup_ge_None_2; [done|]. rewrite tables_length. lia.
  - rewrite tget_Tmasks by lia. simpl. rewrite HP by lia.
    destruct (if P i then _ else _); simpl; [apply IH|done..].
Qed.

(** [mask] returns the mask of the longest common prefix, whatever the
    configuration: its debug assertion never fails. *)
Lemma mask_in_cpl cfg a b :
  in_u w a -> in_u w b -> mask_in T cfg a b = Ret (pmask w (cpl w a b)).
Proof using HT.
  intros Ha Hb. pose proof tables_width as Hw. unfold mask_in.
  destruct (cpl_range w Hw a b Ha Hb) as [Hr _].
  rewrite (mask_loop_probe _ _ (fun i => i <=? cpl w a b)) by (intros; by apply probe_cpl).
  rewrite tables_search by done. cbn [obind]. rewrite Z.opp_involutive.
  rewrite tget_Tmasks by done. cbn [obind]. unfold DASSERT, vassert.
  rewrite (proj2 (Z.eqb_eq _ _)).
  - by destruct (cfg_debug cfg).
  - apply land_pmask_eq; [done..|]. by apply cpl_agree.
Qed.
End MaskCorrect.

Lemma mask_cpl cfg a b :
  in_u 64 a -> in_u 64 b -> mask cfg a b = Ret (pmask 64 (cpl 64 a b)).
Proof. apply (mask_in_cpl tables64). Qed.

(** C11.  For the tables of the 16-, 32- and 64-bit targets, [mask] meets its
    ACSL contract: its result is one of the masks, both arguments agree on it,
    and it is the greatest mask on which they agree.  The dichotomic search
    always ends, reads the tables inside their bounds, and the debug assertion
    holds. *)
Theorem mask_contract (T : prefix_tables) (cfg : config) (a b : Z) :
  T = tables16 \/ T = tables32 \/ T = tables64 ->
  in_u (WORDBITS T) a -> in_u (WORDBITS T) b ->
  exists r, mask_in T cfg a b = Ret r /\
    (forall i tm, 0 <= i <= WORDBITS T -> tget (Tmasks T) i = Ret tm ->
       Z.land tm a = Z.land tm b -> tm <= r) /\
    Z.land a r = Z.land b r /\
    exists i, 0 <= i <= WORDBITS T /\ tget (Tmasks T) i = Ret r.
Proof.
  intros HT Ha Hb. assert (TablesOk T) as Hok by (destruct HT as [->|[->| ->]]; apply _).
  pose proof (tables_width (T := T)) as Hw.
  destruct (cpl_range _ Hw a b Ha Hb) as [Hr _].
  exists (pmask (WORDBITS T) (cpl (WORDBITS T) a b)). split_and!.
  - by apply mask_in_cpl.
  - intros i tm Hi. rewrite (tget_Tmasks T i) by done. intros [= <-] E.
    apply pmask_mono; [|lia]. split; [lia|]. apply cpl_spec; [done..|].
    rewrite !(Z.land_comm (pmask _ _)) in E. by apply land_pmask_eq in E.
  - apply land_pmask_eq; [done..|]. by apply cpl_agree.
  - exists (cpl (WORDBITS T) a b). split; [done|]. by apply tget_Tmasks.
Qed.

Lemma mask_contract_witness :
  exists r, mask_in tables64 default_config 4096 4112 = Ret r /\ Z.land 4096 r = Z.land 4112 r.
Proof.
  destruct (mask_contract tables64 default_config 4096 4112) as (r & E & _ & Ha & _).
  - right. right. reflexivity.
  - split; [discriminate|reflexivity].
  - split; [discriminate|reflexivity].
  - exists r. split; [exact E|exact Ha].
Defined.
