(* ===== verification/Trie.v ===== *)
(** * The Patricia trie as a tree

    The value of the linked structure of e_acsl_bittree.h: a binary tree whose
    internal nodes carry the fields [addr] and [mask] and whose leaves carry a
    block.  Every node also carries its own address in the private heap, so
    that the tree determines the linked structure.  The operations below are
    the tree transformations that the pointer code performs; BittreeRep.v proves
    that it does, and this file proves what they compute. *)

From S2P Require Import Prelude Mask.

Abbreviation W := 64.

Inductive tree : Type :=
| Leaf (n a b : Z)
| Node (n a mk : Z) (l r : tree).

(** The address of the root node, its fields [addr] and [mask], its prefix. *)
Definition tnode (t : tree) : Z := match t with Leaf n _ _ | Node n _ _ _ _ => n end.
Definition taddr (t : tree) : Z := match t with Leaf _ a _ | Node _ a _ _ _ => a end.
Definition tmask (t : tree) : Z :=
  match t with Leaf _ _ _ => pmask W W | Node _ _ mk _ _ => mk end.
Definition tprefix (t : tree) : Z := Z.land (taddr t) (tmask t).

(** The leaves from left to right, and the addresses of all the nodes. *)
Fixpoint leaves (t : tree) : list (Z * Z) :=
  match t with
  | Leaf _ a b => [(a, b)]
  | Node _ _ _ l r => leaves l ++ leaves r
  end.
Fixpoint tnodes (t : tree) : list Z :=
  match t with
  | Leaf n _ _ => [n]
  | Node n _ _ l r => n :: tnodes l ++ tnodes r
  end.
Fixpoint height (t : tree) : nat :=
  match t with
  | Leaf _ _ _ => 1
  | Node _ _ _ l r => S (Nat.max (height l) (height r))
  end.

(** ** Well-formed tries

    [wf k t]: all the addresses of [t] start with the same [k] bits, those of
    [addr]; at an internal node the next bit is 0 on the left and 1 on the
    right.  Bits of [addr] past the prefix are arbitrary. *)
Inductive wf : Z -> tree -> Prop :=
| wf_leaf n a b : in_u W a -> wf W (Leaf n a b)
| wf_node n a k kl kr l r :
    0 <= k < W -> in_u W a -> wf kl l -> wf kr r -> k < kl -> k < kr ->
    hi W (k + 1) (taddr l) = 2 * hi W k a ->
    hi W (k + 1) (taddr r) = 2 * hi W k a + 1 ->
    wf k (Node n a (pmask W k) l r).

(** ** Operations *)

(** Prefix tests of the descents. *)
Definition prefix_eq (t : tree) (p : Z) : bool := tprefix t =? Z.land p (tmask t).
Definition prefix_le (t : tree) (p : Z) : bool := tprefix t <=? Z.land p (tmask t).

Fixpoint t_lookup (t : tree) (p : Z) : option Z :=
  match t with
  | Leaf _ a b => if a =? p then Some b else None
  | Node _ a mk l r =>
      if prefix_eq t p then
        if prefix_eq r p then t_lookup r p
        else if prefix_eq l p then t_lookup l p else None
      else None
  end.

(** The descent of [bt_find], with its second choice. *)
Fixpoint find_leaf (fuel : nat) (t : tree) (other : option tree) (p : Z)
  : outcome (option (Z * Z)) :=
  match fuel with
  | O => NoFuel
  | S fuel =>
      match t with
      | Leaf _ a b => Ret (if p <? a then None else Some (a, b))
      | Node _ _ _ l r =>
          if prefix_le r p then find_leaf fuel r (Some l) p
          else if prefix_le l p then find_leaf fuel l other p
          else match other with
               | None => Ret None
               | Some o => find_leaf fuel o None p
               end
      end
  end.

(** The mask of the longest common prefix of [p] and the prefix of [t]. *)
Definition sim (t : tree) (p : Z) : Z := pmask W (cpl W (tprefix t) p).

(** The new internal node, whose children are the new leaf and [s]. *)
Definition graft (nl np p b : Z) (s : tree) : tree :=
  let leaf := Leaf nl p b in
  let a := Z.land (taddr s) p in
  if p <=? taddr s then Node np a (sim s p) leaf s else Node np a (sim s p) s leaf.

Fixpoint t_insert (nl np p b : Z) (t : tree) : tree :=
  match t with
  | Leaf _ _ _ => graft nl np p b t
  | Node n a mk l r =>
      if sim r p <? sim l p then Node n a mk (t_insert nl np p b l) r
      else if sim l p <? sim r p then Node n a mk l (t_insert nl np p b r)
      else graft nl np p b t
  end.

(** The same tree with its root moved to the node [n]. *)
Definition relocate (n : Z) (t : tree) : tree :=
  match t with
  | Leaf _ a b => Leaf n a b
  | Node _ a mk l r => Node n a mk l r
  end.

Fixpoint t_delete (p : Z) (t : tree) : option tree :=
  match t with
  | Leaf _ _ _ => None
  | Node n a mk l r =>
      if prefix_eq r p then
        match t_delete p r with
        | None => Some (relocate n l)
        | Some r' => Some (Node n a mk l r')
        end
      else
        match t_delete p l with
        | None => Some (relocate n r)
        | Some l' => Some (Node n a mk l' r)
        end
  end.

(** ** Contexts: a tree with a hole, innermost frame first *)
Inductive ctx : Type :=
| CTop
| CLeft (n a mk : Z) (c : ctx) (r : tree)
| CRight (n a mk : Z) (l : tree) (c : ctx).

Fixpoint plug (c : ctx) (t : tree) : tree :=
  match c with
  | CTop => t
  | CLeft n a mk c r => plug c (Node n a mk t r)
  | CRight n a mk l c => plug c (Node n a mk l t)
  end.

(** The address of the node above the hole, [NULL] at the top. *)
Definition cparent (c : ctx) : Z :=
  match c with CTop => NULL | CLeft n _ _ _ _ | CRight n _ _ _ _ => n end.

(** The nodes of a context. *)
Fixpoint cnodes (c : ctx) : list Z :=
  match c with
  | CTop => []
  | CLeft n _ _ c r => n :: tnodes r ++ cnodes c
  | CRight n _ _ l c => n :: tnodes l ++ cnodes c
  end.

(** Descent to the sibling of a new leaf ([bt_most_similar_node]). *)
Fixpoint t_similar (c : ctx) (t : tree) (p : Z) : ctx * tree :=
  match t with
  | Leaf _ _ _ => (c, t)
  | Node n a mk l r =>
      if sim r p <? sim l p then t_similar (CLeft n a mk c r) l p
      else if sim l p <? sim r p then t_similar (CRight n a mk l c) r p
      else (c, t)
  end.

(** Descent to the leaf of a block ([bt_get_leaf_from_block]). *)
Fixpoint t_get_leaf (c : ctx) (t : tree) (p : Z) : ctx * tree :=
  match t with
  | Leaf _ _ _ => (c, t)
  | Node n a mk l r =>
      if prefix_eq r p then t_get_leaf (CRight n a mk l c) r p
      else t_get_leaf (CLeft n a mk c r) l p
  end.

(** Removal of the leaf in the hole of a context. *)
Definition unhook (c : ctx) : option tree :=
  match c with
  | CTop => None
  | CLeft n _ _ c r => Some (plug c (relocate n r))
  | CRight n _ _ l c => Some (plug c (relocate n l))
  end.

(** ** Basic facts *)


Lemma wf_len k t : wf k t -> 0 <= k <= W.
Proof. destruct 1; lia. Qed.

Lemma wf_addr k t : wf k t -> in_u W (taddr t).
Proof. by destruct 1. Qed.

Lemma wf_mask k t : wf k t -> tmask t = pmask W k.
Proof. by destruct 1. Qed.

#[export] Hint Resolve wf_len wf_addr : cdb.

Lemma prefix_range k t : wf k t -> in_u W (tprefix t).
Proof.
  intros H. pose proof (wf_len _ _ H). pose proof (wf_addr _ _ H) as Ha.
  unfold tprefix. rewrite (wf_mask _ _ H), land_pmask by (done || lia).
  unfold in_u, hi in *. pose proof (pow2_pos (W - k)). pose proof (pow2_pos k).
  assert (taddr t / 2 ^ (W - k) * 2 ^ (W - k) <= taddr t) by dlia.
  assert (0 <= taddr t / 2 ^ (W - k)) by (apply Z.div_pos; lia). nia.
Qed.

Lemma hi_prefix k t j : wf k t -> 0 <= j <= k -> hi W j (tprefix t) = hi W j (taddr t).
Proof.
  intros H Hj. pose proof (wf_len _ _ H). unfold tprefix. rewrite (wf_mask _ _ H).
  apply hi_land; eauto with cdb; lia.
Qed.

Lemma prefix_eq_spec k t p : wf k t -> in_u W p ->
  prefix_eq t p = true <-> hi W k (taddr t) = hi W k p.
Proof.
  intros H Hp. unfold prefix_eq, tprefix. rewrite (wf_mask _ _ H), Z.eqb_eq.
  apply land_pmask_eq; eauto with cdb.
Qed.

Lemma prefix_le_spec k t p : wf k t -> in_u W p ->
  prefix_le t p = true <-> hi W k (taddr t) <= hi W k p.
Proof.
  intros H Hp. unfold prefix_le, tprefix. rewrite (wf_mask _ _ H), Z.leb_le.
  apply land_pmask_le; eauto with cdb.
Qed.

Lemma prefix_eq_false k t p : wf k t -> in_u W p ->
  prefix_eq t p = false <-> hi W k (taddr t) <> hi W k p.
Proof.
  intros H Hp. pose proof (prefix_eq_spec k t p H Hp). destruct (prefix_eq t p); naive_solver.
Qed.

Lemma prefix_le_false k t p : wf k t -> in_u W p ->
  prefix_le t p = false <-> hi W k p < hi W k (taddr t).
Proof.
  intros H Hp. pose proof (prefix_le_spec k t p H Hp).
  destruct (prefix_le t p); split; try done; intros; lia || naive_solver lia.
Qed.

(** Every address of a trie starts with the prefix of its root. *)
Lemma wf_keys k t x b : wf k t -> (x, b) ∈ leaves t ->
  in_u W x /\ hi W k x = hi W k (taddr t).
Proof.
  intros H. revert x b.
  induction H as [n a b' Ha|n a k kl kr l r Hk Ha Hl IHl Hr IHr Hkl Hkr El Er];
    intros x b Hx; simpl in *.
  - apply list_elem_of_singleton in Hx. naive_solver.
  - pose proof (wf_len _ _ Hl). pose proof (wf_len _ _ Hr).
    assert (forall t' j v, k < j <= W -> hi W (k + 1) (taddr t') = 2 * hi W k a + v ->
      0 <= v < 2 -> hi W j x = hi W j (taddr t') -> hi W k x = hi W k a) as Haux.
    { intros t' j v Hj E Hv Ej. apply (hi_le W (k + 1) j) in Ej; [|lia..].
      rewrite (hi_hi W k (k + 1)), Ej, E by lia.
      replace (k + 1 - k) with 1 by lia. change (2 ^ 1) with 2. dlia. }
    apply elem_of_app in Hx as [Hx|Hx].
    + apply IHl in Hx as [? Hx]. split; [done|]. apply (Haux l kl 0); lia || done.
    + apply IHr in Hx as [? Hx]. split; [done|]. apply (Haux r kr 1); lia || done.
Qed.

(** Both sides of an internal node. *)
Lemma wf_left_keys n a k mk l r x b : wf k (Node n a mk l r) -> (x, b) ∈ leaves l ->
  hi W (k + 1) x = 2 * hi W k a.
Proof.
  intros H Hx. inversion H; subst. pose proof (wf_len kl l ltac:(done)).
  rewrite (hi_le W (k + 1) kl x (taddr l)); [done|lia|lia|].
  eapply wf_keys; eauto.
Qed.

Lemma wf_right_keys n a k mk l r x b : wf k (Node n a mk l r) -> (x, b) ∈ leaves r ->
  hi W (k + 1) x = 2 * hi W k a + 1.
Proof.
  intros H Hx. inversion H; subst. pose proof (wf_len kr r ltac:(done)).
  rewrite (hi_le W (k + 1) kr x (taddr r)); [done|lia|lia|].
  eapply wf_keys; eauto.
Qed.

Lemma wf_left_lt_right n a k mk l r x b y c : wf k (Node n a mk l r) ->
  (x, b) ∈ leaves l -> (y, c) ∈ leaves r -> x < y.
Proof.
  intros H Hx Hy. apply (hi_lt W (k + 1)).
  rewrite (wf_left_keys _ _ _ _ _ _ _ _ H Hx), (wf_right_keys _ _ _ _ _ _ _ _ H Hy). lia.
Qed.

Lemma leaves_nonempty t : exists x b, (x, b) ∈ leaves t.
Proof.
  induction t as [n a b|n a mk l (x & b & IHl) r IHr]; simpl.
  - exists a, b. by apply list_elem_of_singleton.
  - exists x, b. apply elem_of_app. auto.
Qed.

(** The paths of a trie are at most [W + 1] nodes long. *)
Lemma wf_height k t : wf k t -> Z.of_nat (height t) <= W - k + 1.
Proof. induction 1; simpl; lia. Qed.

(** An address occurs once. *)
Lemma wf_NoDup k t : wf k t -> NoDup (map fst (leaves t)).
Proof.
  induction 1 as [n a b Ha|n a k kl kr l r Hk Ha Hl IHl Hr IHr Hkl Hkr El Er]; simpl.
  - apply NoDup_singleton.
  - rewrite map_app. apply NoDup_app. split_and!; [done| |done].
    intros x (y & -> & Hy)%list_elem_of_fmap (z & E & Hz)%list_elem_of_fmap.
    destruct y as [x b], z as [x' c]. simpl in E. subst x'.
    pose proof (wf_left_lt_right n a k (pmask W k) l r x b x c) as Hlt.
    assert (x < x); [apply Hlt; [by econstructor|done..]|lia].
Qed.

Lemma wf_functional k t x b c :
  wf k t -> (x, b) ∈ leaves t -> (x, c) ∈ leaves t -> b = c.
Proof.
  induction 1 as [n a b' Ha|n a k kl kr l r Hk Ha Hl IHl Hr IHr Hkl Hkr El Er]; simpl.
  - rewrite !list_elem_of_singleton. naive_solver.
  - pose proof (wf_left_lt_right n a k (pmask W k) l r) as Hlt.
    assert (wf k (Node n a (pmask W k) l r)) as Hwf by (by econstructor).
    rewrite !elem_of_app. intros [H1|H1] [H2|H2]; [auto| | |auto]; exfalso.
    + pose proof (Hlt _ _ _ _ Hwf H1 H2). lia.
    + pose proof (Hlt _ _ _ _ Hwf H2 H1). lia.
Qed.

(** ** Lookup *)

Lemma t_lookup_spec k t p b : wf k t -> in_u W p ->
  t_lookup t p = Some b <-> (p, b) ∈ leaves t.
Proof.
  intros H Hp.
  induction H as [n a b' Ha|n a k kl kr l r Hk Ha Hl IHl Hr IHr Hkl Hkr El Er].
  - simpl. rewrite list_elem_of_singleton. destruct (Z.eqb_spec a p); naive_solver.
  - assert (wf k (Node n a (pmask W k) l r)) as Hwf by (by econstructor).
    pose proof (wf_len _ _ Hl). pose proof (wf_len _ _ Hr).
    cbn [t_lookup leaves]. rewrite elem_of_app.
    destruct (prefix_eq (Node n a (pmask W k) l r) p) eqn:E0.
    2:{ split; [done|]. intros Hin. exfalso. apply (prefix_eq_false k) in E0; [|done..].
        destruct (wf_keys k _ p b Hwf) as [_ Hk']; [by apply elem_of_app|]. naive_solver. }
    destruct (prefix_eq r p) eqn:E1.
    + rewrite IHr. split; [auto|]. intros [Hin|]; [exfalso|done].
      apply (prefix_eq_spec kr) in E1; [|done..].
      apply (hi_le W (k + 1) kr) in E1; [|lia..].
      pose proof (wf_left_keys _ _ _ _ _ _ _ _ Hwf Hin). lia.
    + destruct (prefix_eq l p) eqn:E2.
      * rewrite IHl. split; [auto|]. intros [|Hin]; [done|exfalso].
        apply (prefix_eq_false kr) in E1; [|done..].
        destruct (wf_keys kr r p b Hr Hin). naive_solver.
      * split; [done|]. intros [Hin|Hin]; exfalso.
        -- apply (prefix_eq_false kl) in E2; [|done..].
           destruct (wf_keys kl l p b Hl Hin). naive_solver.
        -- apply (prefix_eq_false kr) in E1; [|done..].
           destruct (wf_keys kr r p b Hr Hin). naive_solver.
Qed.

(** ** Search of the greatest address below a given one *)

(** The last leaf whose address is at most [p]. *)
Definition pred_leaf (t : tree) (p : Z) : option (Z * Z) :=
  last (filter (fun x => x.1 <= p) (leaves t)).

Lemma last_app_some {A} (l1 l2 : list A) :
  last (l1 ++ l2) = match last l2 with Some x => Some x | None => last l1 end.
Proof.
  destruct l2 as [|y l2] using rev_ind; [by rewrite app_nil_r|].
  by rewrite app_assoc, !last_snoc.
Qed.

Lemma filter_all {A} (P : A -> Prop) `{!forall x, Decision (P x)} (l : list A) :
  (forall x, x ∈ l -> P x) -> filter P l = l.
Proof.
  induction l as [|x l IH]; intros HP; [done|].
  rewrite filter_cons_True by (apply HP; set_solver). f_equal. apply IH. set_solver.
Qed.

Lemma filter_none {A} (P : A -> Prop) `{!forall x, Decision (P x)} (l : list A) :
  (forall x, x ∈ l -> ~ P x) -> filter P l = [].
Proof.
  induction l as [|x l IH]; intros HP; [done|].
  rewrite filter_cons_False by (apply HP; set_solver). apply IH. set_solver.
Qed.

Lemma pred_leaf_node n a mk l r p :
  pred_leaf (Node n a mk l r) p =
  match pred_leaf r p with Some x => Some x | None => pred_leaf l p end.
Proof. unfold pred_leaf. simpl. by rewrite filter_app, last_app_some. Qed.

Lemma pred_leaf_all t p : (forall x b, (x, b) ∈ leaves t -> x <= p) ->
  pred_leaf t p = last (leaves t).
Proof. intros H. unfold pred_leaf. rewrite filter_all; [done|]. intros [x b]. apply H. Qed.

Lemma pred_leaf_none t p : (forall x b, (x, b) ∈ leaves t -> p < x) ->
  pred_leaf t p = None.
Proof.
  intros H. unfold pred_leaf. rewrite filter_none; [done|].
  intros [x b] Hx Hp. apply H in Hx. simpl in Hp. lia.
Qed.

Lemma last_leaves_some t : is_Some (last (leaves t)).
Proof.
  rewrite last_is_Some. intros E. destruct (leaves_nonempty t) as (x & b & Hx).
  rewrite E in Hx. by apply not_elem_of_nil in Hx.
Qed.

(** The side of [p] with respect to a subtrie, from the prefix test. *)
Lemma prefix_le_above k t p : wf k t -> in_u W p -> prefix_le t p = false ->
  forall x b, (x, b) ∈ leaves t -> p < x.
Proof.
  intros H Hp E x b Hx. apply (prefix_le_false k) in E; [|done..].
  apply (hi_lt W k). destruct (wf_keys k t x b H Hx) as [_ ->]. done.
Qed.

Lemma prefix_le_left n a k mk l r p : wf k (Node n a mk l r) -> in_u W p ->
  prefix_le r p = true -> forall x b, (x, b) ∈ leaves l -> x < p.
Proof.
  intros H Hp E x b Hx. pose proof (wf_left_keys _ _ _ _ _ _ _ _ H Hx) as Ex.
  inversion H; subst. apply (prefix_le_spec kr) in E; [|done..].
  pose proof (wf_len kr r ltac:(done)).
  apply (hi_lt W (k + 1)).
  assert (hi W (k + 1) (taddr r) <= hi W (k + 1) p) as E'; [|lia].
  rewrite !(hi_hi W (k + 1) kr) by lia. apply Z.div_le_mono; [apply pow2_pos; lia|done].
Qed.

(** A trie whose addresses are all at most [p]: the search goes to its last leaf. *)
Lemma find_leaf_all fuel k t other p : wf k t -> in_u W p -> (height t <= fuel)%nat ->
  (forall x b, (x, b) ∈ leaves t -> x <= p) ->
  find_leaf fuel t other p = Ret (last (leaves t)).
Proof.
  intros H Hp. revert fuel other.
  induction H as [n a b' Ha|n a k kl kr l r Hk Ha Hl IHl Hr IHr Hkl Hkr El Er];
    intros fuel other Hf Hall; (destruct fuel as [|fuel]; [simpl in Hf; lia|]);
    cbn [find_leaf leaves].
  - destruct (Z.ltb_spec p a) as [Hlt|]; [|done].
    specialize (Hall a b'). simpl in Hall. rewrite list_elem_of_singleton in Hall.
    specialize (Hall eq_refl). lia.
  - assert (prefix_le r p = true) as ->.
    { destruct (prefix_le r p) eqn:E; [done|]. destruct (leaves_nonempty r) as (x & b & Hx).
      pose proof (prefix_le_above kr r p Hr Hp E x b Hx).
      assert (x <= p); [|lia]. eapply Hall. simpl. apply elem_of_app. eauto. }
    rewrite IHr, last_app_some; [|simpl in Hf; lia|].
    + destruct (last_leaves_some r) as [x ->]. done.
    + intros x b Hx. eapply Hall. simpl. apply elem_of_app. eauto.
Qed.

(** What the search returns: the last leaf at most [p], else the last leaf of
    the second choice. *)
Definition choice (other : option tree) : option (Z * Z) :=
  match other with Some o => last (leaves o) | None => None end.
Definition other_height (other : option tree) : nat :=
  match other with Some o => height o | None => 0 end.

Lemma find_leaf_spec fuel B k t other p : wf k t -> in_u W p ->
  (match t with Leaf _ a _ => a <= p | Node _ _ _ _ _ => True end) ->
  (forall o, other = Some o -> (exists ko, wf ko o) /\
     forall x b, (x, b) ∈ leaves o -> x <= p) ->
  (other_height other <= B /\ height t <= B /\ height t + B <= fuel)%nat ->
  find_leaf fuel t other p =
  Ret (match pred_leaf t p with Some x => Some x | None => choice other end).
Proof.
  intros H Hp. revert fuel other.
  induction H as [n a b' Ha|n a k kl kr l r Hk Ha Hl IHl Hr IHr Hkl Hkr El Er];
    intros fuel other Hleaf Hother Hf; (destruct fuel as [|fuel]; [simpl in Hf; lia|]);
    cbn [find_leaf].
  - unfold pred_leaf. cbn [leaves]. rewrite filter_cons_True by done. simpl.
    destruct (Z.ltb_spec p a); [lia|done].
  - assert (wf k (Node n a (pmask W k) l r)) as Hwf by (by econstructor).
    simpl in Hf. rewrite pred_leaf_node.
    destruct (prefix_le r p) eqn:E1; [|destruct (prefix_le l p) eqn:E2].
    + pose proof (prefix_le_left _ _ _ _ _ _ _ Hwf Hp E1) as Hlt.
      rewrite IHr; [| |intros o [= <-]; split; [by exists kl|]; intros; apply Z.lt_le_incl;
        eauto|simpl; lia].
      * destruct (pred_leaf r p); [done|]. simpl.
        rewrite (pred_leaf_all l p) by (intros; apply Z.lt_le_incl; eauto).
        by destruct (last_leaves_some l) as [x ->].
      * destruct r; [|done]. inversion Hr; subst.
        apply (prefix_le_spec W) in E1; [|done..]. by rewrite !hi_full in E1.
    + rewrite (pred_leaf_none r p) by (by eapply prefix_le_above).
      apply IHl; [|done|simpl; lia]. destruct l; [|done]. inversion Hl; subst.
      apply (prefix_le_spec W) in E2; [|done..]. by rewrite !hi_full in E2.
    + rewrite (pred_leaf_none r p), (pred_leaf_none l p) by (by eapply prefix_le_above).
      destruct other as [o|]; [|done]. destruct (Hother o eq_refl) as [[ko Hko] Hall].
      by rewrite (find_leaf_all fuel ko o None p); [|done..|simpl in Hf; lia|].
Qed.

(** From the root, without a second choice, the descent returns the last leaf
    whose address is at most [p]. *)
Lemma find_leaf_root fuel k t p : wf k t -> in_u W p ->
  (height t + height t <= fuel)%nat -> find_leaf fuel t None p = Ret (pred_leaf t p).
Proof.
  intros H Hp Hf. destruct t as [n a b|n a mk l r].
  - destruct fuel as [|fuel]; [simpl in Hf; lia|]. cbn. destruct (Z.ltb_spec p a).
    + rewrite pred_leaf_none; [done|]. intros x c. simpl. rewrite list_elem_of_singleton.
      naive_solver.
    + rewrite pred_leaf_all; [done|]. intros x c. simpl. rewrite list_elem_of_singleton.
      naive_solver.
  - rewrite (find_leaf_spec fuel (height (Node n a mk l r)) k); [|done..|simpl in *; lia].
    by destruct (pred_leaf _ p).
Qed.

(** ** Insertion *)

(** The common prefix of [p] and a subtrie, inside the prefix of the subtrie. *)
Lemma cpl_prefix k t p j : wf k t -> in_u W p -> 0 <= j <= k ->
  j <= cpl W (tprefix t) p <-> hi W j (taddr t) = hi W j p.
Proof.
  intros H Hp Hj. pose proof (wf_len _ _ H). rewrite <- (hi_prefix k t j H Hj).
  rewrite cpl_spec; [done|done|by eapply prefix_range|done|lia].
Qed.

Lemma cpl_bounds k t p : wf k t -> in_u W p -> 0 <= cpl W (tprefix t) p <= W.
Proof. intros H Hp. apply cpl_range; [done|by eapply prefix_range|done]. Qed.

Lemma sim_lt k j s t p : wf k s -> wf j t -> in_u W p ->
  sim s p < sim t p <-> cpl W (tprefix s) p < cpl W (tprefix t) p.
Proof.
  intros Hs Ht Hp. pose proof (cpl_bounds _ _ _ Hs Hp). pose proof (cpl_bounds _ _ _ Ht Hp).
  unfold sim. split; intros Hlt; [|apply pmask_lt; lia].
  destruct (Z.ltb_spec (cpl W (tprefix s) p) (cpl W (tprefix t) p)); [done|].
  pose proof (pmask_mono W (cpl W (tprefix t) p) (cpl W (tprefix s) p)). lia.
Qed.

(** The three cases of the descent at an internal node. *)
Lemma descend_cases k n a mk l r p : wf k (Node n a mk l r) -> in_u W p ->
  (hi W (k + 1) p = 2 * hi W k a /\ sim r p < sim l p) \/
  (hi W (k + 1) p = 2 * hi W k a + 1 /\ sim l p < sim r p) \/
  (hi W k p <> hi W k a /\ sim l p = sim r p).
Proof.
  intros H Hp. inversion H; subst.
  match goal with Hl : wf kl l, Hr : wf kr r |- _ => rename Hl into Hwl, Hr into Hwr end.
  pose proof (wf_len _ _ Hwl). pose proof (wf_len _ _ Hwr).
  pose proof (cpl_bounds _ _ _ Hwl Hp). pose proof (cpl_bounds _ _ _ Hwr Hp).
  assert (forall j, 0 <= j <= k + 1 -> j <= cpl W (tprefix l) p <-> hi W j (taddr l) = hi W j p)
    as Cl by (intros; apply (cpl_prefix kl); [done..|lia]).
  assert (forall j, 0 <= j <= k + 1 -> j <= cpl W (tprefix r) p <-> hi W j (taddr r) = hi W j p)
    as Cr by (intros; apply (cpl_prefix kr); [done..|lia]).
  rewrite (sim_lt kr kl), (sim_lt kl kr) by done.
  destruct (Z.eq_dec (hi W k p) (hi W k a)) as [E|E].
  - destruct (hi_succ W k p) as [E'|E']; [lia| |]; rewrite E in E'.
    + left. split; [done|]. specialize (Cl (k + 1)). specialize (Cr (k + 1)). lia.
    + right; left. split; [done|]. specialize (Cl (k + 1)). specialize (Cr (k + 1)). lia.
  - right; right. split; [done|]. unfold sim. f_equal.
    assert (forall j, 0 <= j <= k -> hi W j (taddr l) = hi W j (taddr r)) as Elr.
    { intros j Hj. apply (hi_le W j k); [lia..|].
      rewrite !(hi_hi W k (k + 1)) by lia. replace (k + 1 - k) with 1 by lia.
      change (2 ^ 1) with 2. dlia. }
    assert (hi W k (taddr l) = hi W k a) as Ek.
    { rewrite (hi_hi W k (k + 1)) by lia. replace (k + 1 - k) with 1 by lia.
      change (2 ^ 1) with 2. dlia. }
    pose proof (Cl k). pose proof (Cr k). pose proof (Elr k).
    assert (cpl W (tprefix l) p < k /\ cpl W (tprefix r) p < k) as [] by (split; lia).
    pose proof (Cl (cpl W (tprefix l) p)). pose proof (Cr (cpl W (tprefix l) p)).
    pose proof (Cl (cpl W (tprefix r) p)). pose proof (Cr (cpl W (tprefix r) p)).
    pose proof (Elr (cpl W (tprefix l) p)). pose proof (Elr (cpl W (tprefix r) p)). lia.
Qed.

Lemma hi_land_both c x y : 0 <= c <= W -> hi W c x = hi W c y ->
  hi W c (Z.land x y) = hi W c x.
Proof.
  intros Hc E. unfold hi in *. rewrite <- !Z.shiftr_div_pow2 in * by lia.
  rewrite Z.shiftr_land, <- E. apply Z.land_diag.
Qed.

Lemma in_u_land x y : in_u W x -> in_u W (Z.land x y).
Proof.
  intros Hx. apply in_u_testbit; [done|apply Z.land_nonneg; unfold in_u in *; lia|].
  intros i Hi. by rewrite Z.land_spec, (testbit_in_u W x).
Qed.

Lemma graft_wf k s nl np p b : wf k s -> in_u W p -> hi W k (taddr s) <> hi W k p ->
  let c := cpl W (tprefix s) p in
  0 <= c < k /\ wf c (graft nl np p b s) /\
  hi W c (taddr (graft nl np p b s)) = hi W c (taddr s) /\ hi W c p = hi W c (taddr s).
Proof.
  intros H Hp Hne c. pose proof (wf_len _ _ H). pose proof (cpl_bounds _ _ _ H Hp).
  pose proof (cpl_prefix k s p k H Hp).
  assert (0 <= c < k) as Hc by (unfold c; lia). split; [done|].
  assert (hi W c (taddr s) = hi W c p) as Ec by (apply (cpl_prefix k); [done..|lia|unfold c; lia]).
  assert (hi W (c + 1) (taddr s) <> hi W (c + 1) p) as Ec1.
  { intros E. apply (cpl_prefix k) in E; [|done..|lia]. unfold c in E. lia. }
  assert (hi W c (Z.land (taddr s) p) = hi W c p) as Ea
    by (rewrite hi_land_both by (done || lia); done).
  assert (in_u W (Z.land (taddr s) p)) as Hin
    by (apply in_u_land; eauto with cdb).
  pose proof (hi_succ W c p) as Sp. pose proof (hi_succ W c (taddr s)) as Ss.
  unfold graft, sim. fold c.
  destruct (Z.leb_spec p (taddr s)) as [Hle|Hlt].
  - pose proof (hi_mono W (c + 1) p (taddr s) Hle). simpl. split_and!; [|congruence|done].
    econstructor; try done; try (constructor; done); simpl; lia.
  - pose proof (hi_mono W (c + 1) (taddr s) p). simpl. split_and!; [|congruence|done].
    econstructor; try done; try (constructor; done); simpl; lia.
Qed.

Lemma graft_leaves nl np p b s :
  leaves (graft nl np p b s) = (p, b) :: leaves s \/
  leaves (graft nl np p b s) = leaves s ++ [(p, b)].
Proof. unfold graft. destruct (p <=? taddr s); auto. Qed.

(** Insertion of a new address keeps the trie well formed. *)
Lemma t_insert_wf k t nl np p b : wf k t -> in_u W p -> p ∉ map fst (leaves t) ->
  exists k', 0 <= k' <= k /\ wf k' (t_insert nl np p b t) /\
    hi W k' (taddr (t_insert nl np p b t)) = hi W k' (taddr t) /\
    (forall j, 0 <= j <= k -> hi W j p = hi W j (taddr t) -> j <= k').
Proof.
  intros H Hp. induction H as [n a b' Ha|n a k kl kr l r Hk Ha Hl IHl Hr IHr Hkl Hkr El Er];
    intros Hnin; cbn [t_insert].
  - destruct (graft_wf W (Leaf n a b') nl np p b) as (Hc & Hwf & Hh & _);
      [by constructor|done|simpl; rewrite !hi_full; set_solver|].
    eexists. split_and!; [| |exact Hwf|exact Hh|]; [lia..|].
    intros j Hj E. apply (cpl_prefix W); [by constructor|done..].
  - assert (wf k (Node n a (pmask W k) l r)) as Hwf by (by econstructor).
    pose proof (wf_len _ _ Hl). pose proof (wf_len _ _ Hr).
    simpl in Hnin. rewrite map_app, not_elem_of_app in Hnin. destruct Hnin as [Nl Nr].
    destruct (descend_cases k _ _ _ _ _ p Hwf Hp) as [[Ep Hs]|[[Ep Hs]|[Ep Hs]]].
    + rewrite (proj2 (Z.ltb_lt _ _) Hs). destruct (IHl Nl) as (k' & Hk' & Hwf' & Eh & Hj).
      assert (k + 1 <= k') by (apply Hj; lia).
      exists k. split_and!; [lia|lia| |done|lia]. econstructor; try done; [lia|].
      rewrite (hi_le W (k + 1) k' _ (taddr l)); [done|lia..|done].
    + rewrite (proj2 (Z.ltb_ge _ _)) by lia. rewrite (proj2 (Z.ltb_lt _ _) Hs).
      destruct (IHr Nr) as (k' & Hk' & Hwf' & Eh & Hj).
      assert (k + 1 <= k') by (apply Hj; lia).
      exists k. split_and!; [lia|lia| |done|lia]. econstructor; try done; [lia|].
      rewrite (hi_le W (k + 1) k' _ (taddr r)); [done|lia..|done].
    + rewrite !(proj2 (Z.ltb_ge _ _)) by lia.
      destruct (graft_wf k (Node n a (pmask W k) l r) nl np p b) as (Hc & Hwf' & Hh & _);
        [done..|simpl; congruence|].
      eexists. split_and!; [| |exact Hwf'|exact Hh|]; [lia..|].
      intros j Hj E. by apply (cpl_prefix k).
Qed.

(** Insertion adds one leaf and keeps the others. *)
Lemma t_insert_leaves nl np p b t :
  exists l1 l2, leaves t = l1 ++ l2 /\ leaves (t_insert nl np p b t) = l1 ++ (p, b) :: l2.
Proof.
  assert (forall s, exists l1 l2,
    leaves s = l1 ++ l2 /\ leaves (graft nl np p b s) = l1 ++ (p, b) :: l2) as Hg.
  { intros s. destruct (graft_leaves nl np p b s) as [E|E].
    - by exists [], (leaves s).
    - exists (leaves s), []. by rewrite app_nil_r. }
  induction t as [n a b'|n a mk l (l1 & l2 & E1 & E2) r (r1 & r2 & F1 & F2)];
    cbn [t_insert]; [apply Hg|].
  destruct (_ <? _); [|destruct (_ <? _); [|apply Hg]]; simpl.
  - exists l1, (l2 ++ leaves r). rewrite E1, E2, <- !app_assoc. done.
  - exists (leaves l ++ r1), r2. rewrite F1, F2, <- !app_assoc. done.
Qed.

(** ** Removal *)

Lemma relocate_wf k n t : wf k t -> wf k (relocate n t).
Proof. destruct 1; simpl; by econstructor. Qed.
Lemma relocate_addr n t : taddr (relocate n t) = taddr t.
Proof. by destruct t. Qed.
Lemma relocate_leaves n t : leaves (relocate n t) = leaves t.
Proof. by destruct t. Qed.

(** Removal of an address of the trie: the other leaves are kept, the trie stays
    well formed; it becomes empty exactly when it was a leaf. *)
Lemma t_delete_spec k t p b : wf k t -> (p, b) ∈ leaves t ->
  match t_delete p t with
  | None => exists n, t = Leaf n p b
  | Some t' => exists k', k <= k' /\ wf k' t' /\ hi W k (taddr t') = hi W k (taddr t) /\
      exists l1 l2, leaves t = l1 ++ (p, b) :: l2 /\ leaves t' = l1 ++ l2
  end.
Proof.
  intros H. induction H as [n a b' Ha|n a k kl kr l r Hk Ha Hl IHl Hr IHr Hkl Hkr El Er];
    intros Hin; cbn [t_delete].
  - simpl in Hin. apply list_elem_of_singleton in Hin as [= <- <-]. by exists n.
  - assert (wf k (Node n a (pmask W k) l r)) as Hwf by (by econstructor).
    pose proof (wf_len _ _ Hl). pose proof (wf_len _ _ Hr).
    pose proof (wf_keys k _ p b Hwf Hin) as [Hp _].
    assert (forall t' j v, k < j <= W -> hi W (k + 1) (taddr t') = 2 * hi W k a + v ->
      0 <= v < 2 -> hi W k (taddr t') = hi W k a) as Haux.
    { intros t' j v Hj E Hv. rewrite (hi_hi W k (k + 1)), E by lia.
      replace (k + 1 - k) with 1 by lia. change (2 ^ 1) with 2. dlia. }
    destruct (prefix_eq r p) eqn:E1.
    + assert ((p, b) ∈ leaves r) as Hin'.
      { simpl in Hin. apply elem_of_app in Hin as [Hin|]; [|done]. exfalso.
        apply (prefix_eq_spec kr) in E1; [|done..]. apply (hi_le W (k + 1) kr) in E1; [|lia..].
        pose proof (wf_left_keys _ _ _ _ _ _ _ _ Hwf Hin). lia. }
      specialize (IHr Hin'). destruct (t_delete p r) as [r'|].
      * destruct IHr as (k' & Hk' & Hwf' & Eh & l1 & l2 & F1 & F2).
        exists k. split_and!; [lia| |done|].
        -- econstructor; try done; [lia|]. rewrite (hi_le W (k + 1) kr _ (taddr r)); lia || done.
        -- exists (leaves l ++ l1), l2. simpl. by rewrite F1, F2, <- !app_assoc.
      * destruct IHr as (n' & ->). exists kl.
        rewrite relocate_addr, relocate_leaves. split_and!;
          [lia|by apply relocate_wf|by apply (Haux l kl 0); lia|].
        exists (leaves l), []. by rewrite app_nil_r.
    + assert ((p, b) ∈ leaves l) as Hin'.
      { simpl in Hin. apply elem_of_app in Hin as [|Hin]; [done|]. exfalso.
        apply (prefix_eq_false kr) in E1; [|done..]. apply E1.
        symmetry. by eapply wf_keys. }
      specialize (IHl Hin'). destruct (t_delete p l) as [l'|].
      * destruct IHl as (k' & Hk' & Hwf' & Eh & l1 & l2 & F1 & F2).
        exists k. split_and!; [lia| |done|].
        -- econstructor; try done; [lia|]. rewrite (hi_le W (k + 1) kl _ (taddr l)); lia || done.
        -- exists l1, (l2 ++ leaves r). simpl. by rewrite F1, F2, <- !app_assoc.
      * destruct IHl as (n' & ->). exists kr.
        rewrite relocate_addr, relocate_leaves. split_and!;
          [lia|by apply relocate_wf|by apply (Haux r kr 1); lia|].
        by exists [], (leaves r).
Qed.

(** ** Descents as contexts *)

Lemma t_similar_plug c t p :
  plug (t_similar c t p).1 (t_similar c t p).2 = plug c t.
Proof.
  revert c. induction t as [n a b|n a mk l IHl r IHr]; intros c; simpl; [done|].
  destruct (_ <? _); [apply IHl|]. destruct (_ <? _); [apply IHr|done].
Qed.

Lemma t_similar_insert nl np b c t p :
  plug (t_similar c t p).1 (graft nl np p b (t_similar c t p).2) =
  plug c (t_insert nl np p b t).
Proof.
  revert c. induction t as [n a b'|n a mk l IHl r IHr]; intros c; simpl; [done|].
  destruct (_ <? _); [apply IHl|]. destruct (_ <? _); [apply IHr|done].
Qed.

Lemma t_get_leaf_plug c t p :
  plug (t_get_leaf c t p).1 (t_get_leaf c t p).2 = plug c t.
Proof.
  revert c. induction t as [n a b|n a mk l IHl r IHr]; intros c; simpl; [done|].
  destruct (prefix_eq r p); [apply IHr|apply IHl].
Qed.

Lemma t_get_leaf_unhook c t p :
  unhook (t_get_leaf c t p).1 =
  match t_delete p t with None => unhook c | Some t' => Some (plug c t') end.
Proof.
  revert c. induction t as [n a b|n a mk l IHl r IHr]; intros c; simpl; [done|].
  destruct (prefix_eq r p).
  - rewrite IHr. by destruct (t_delete p r).
  - rewrite IHl. by destruct (t_delete p l).
Qed.

(** The descent of [bt_get_leaf_from_block] ends at the leaf of its address. *)
Lemma t_get_leaf_leaf c k t p b : wf k t -> (p, b) ∈ leaves t ->
  exists n, (t_get_leaf c t p).2 = Leaf n p b.
Proof.
  intros H. revert c.
  induction H as [n a b' Ha|n a k kl kr l r Hk Ha Hl IHl Hr IHr Hkl Hkr El Er];
    intros c Hin; cbn [t_get_leaf].
  - simpl in Hin. apply list_elem_of_singleton in Hin as [= <- <-]. by exists n.
  - assert (wf k (Node n a (pmask W k) l r)) as Hwf by (by econstructor).
    pose proof (wf_keys k _ p b Hwf Hin) as [Hp _].
    pose proof (wf_len _ _ Hr). simpl in Hin. apply elem_of_app in Hin.
    destruct (prefix_eq r p) eqn:E1.
    + apply IHr. destruct Hin as [Hin|]; [exfalso|done].
      apply (prefix_eq_spec kr) in E1; [|done..]. apply (hi_le W (k + 1) kr) in E1; [|lia..].
      pose proof (wf_left_keys _ _ _ _ _ _ _ _ Hwf Hin). lia.
    + apply IHl. destruct Hin as [|Hin]; [done|exfalso].
      apply (prefix_eq_false kr) in E1; [|done..]. apply E1. symmetry. by eapply wf_keys.
Qed.
