(* ===== verification/Bittree.v ===== *)
(** * e_acsl_bittree.h and e_acsl_bittree_api.h: the Patricia trie of blocks

    The linked structure in the private heap of the run-time library, the
    operations on it statement by statement.  BittreeRep.v proves that they
    perform the tree transformations of Trie.v. *)

From S2P Require Import Prelude Mask Trie.

(** ** Data *)

(** [struct bt_block].  The debug-only fields [line] and [file] only occur in
    messages and are left out. *)
Record bt_block : Type := mk_block {
  bk_ptr : Z;
  bk_size : Z;
  bk_init_ptr : Z;
  bk_init_bytes : Z;
  bk_is_readonly : Z;
  bk_is_freeable : Z;
  bk_timestamp : Z;
  bk_temporal_shadow : Z
}.

(** [struct bt_node]. *)
Record bt_node : Type := mk_node {
  nd_is_leaf : Z;
  nd_addr : Z;
  nd_mask : Z;
  nd_left : Z;
  nd_right : Z;
  nd_parent : Z;
  nd_leaf : Z
}.

Definition set_mask (nd : bt_node) (v : Z) : bt_node :=
  mk_node (nd_is_leaf nd) (nd_addr nd) v (nd_left nd) (nd_right nd) (nd_parent nd) (nd_leaf nd).
Definition set_left (nd : bt_node) (v : Z) : bt_node :=
  mk_node (nd_is_leaf nd) (nd_addr nd) (nd_mask nd) v (nd_right nd) (nd_parent nd) (nd_leaf nd).
Definition set_right (nd : bt_node) (v : Z) : bt_node :=
  mk_node (nd_is_leaf nd) (nd_addr nd) (nd_mask nd) (nd_left nd) v (nd_parent nd) (nd_leaf nd).
Definition set_parent (nd : bt_node) (v : Z) : bt_node :=
  mk_node (nd_is_leaf nd) (nd_addr nd) (nd_mask nd) (nd_left nd) (nd_right nd) v (nd_leaf nd).

(** The private heap: the live objects by address (nodes, blocks and byte
    buffers), and the static variable [bt_root]. *)
Record heap : Type := mk_heap {
  h_nodes : gmap Z bt_node;
  h_blocks : gmap Z bt_block;
  h_bufs : gmap Z mem;
  bt_root : Z
}.

Definition set_nodes (h : heap) v : heap := mk_heap v (h_blocks h) (h_bufs h) (bt_root h).
Definition set_blocks (h : heap) v : heap := mk_heap (h_nodes h) v (h_bufs h) (bt_root h).
Definition set_bufs (h : heap) v : heap := mk_heap (h_nodes h) (h_blocks h) v (bt_root h).
Definition set_root (h : heap) v : heap := mk_heap (h_nodes h) (h_blocks h) (h_bufs h) v.

(** Addresses in use. *)
Definition live (h : heap) : gset Z :=
  dom (h_nodes h) ∪ dom (h_blocks h) ∪ dom (h_bufs h).

(** The allocator of the private memory space (dlmalloc): the address returned
    for a request of a size, given the addresses in use; [junk] is what the
    bytes of a fresh object hold. *)
Class PrivateAlloc : Type := {
  private_malloc : gset Z -> Z -> Z;
  junk : Z
}.

(** What the library relies on: a request is served, by a fresh address. *)
Class PrivateAllocOk `{!PrivateAlloc} : Prop := {
  private_malloc_served : forall used sz, private_malloc used sz <> NULL;
  private_malloc_fresh : forall used sz, private_malloc used sz ∉ used;
  junk_byte : in_u 8 junk
}.

Definition sizeof_bt_node : Z := 56.
Definition sizeof_bt_block (cfg : config) : Z :=
  40 + (if cfg_debug cfg then 16 else 0) + (if cfg_temporal cfg then 16 else 0).

(** Accesses through pointers. *)
Definition load_node (h : heap) (p : Z) : outcome bt_node :=
  if p =? NULL then Fault else deref (h_nodes h !! p).
Definition store_node (h : heap) (p : Z) (nd : bt_node) : outcome heap :=
  if p =? NULL then Fault
  else match h_nodes h !! p with
       | Some _ => Ret (set_nodes h (<[p := nd]> (h_nodes h)))
       | None => Fault
       end.
Definition load_block (h : heap) (p : Z) : outcome bt_block :=
  if p =? NULL then Fault else deref (h_blocks h !! p).
Definition store_block_at (h : heap) (p : Z) (b : bt_block) : outcome heap :=
  if p =? NULL then Fault
  else match h_blocks h !! p with
       | Some _ => Ret (set_blocks h (<[p := b]> (h_blocks h)))
       | None => Fault
       end.

(** [private_free]: of a null pointer nothing; of a dangling pointer undefined. *)
Definition free_node (h : heap) (p : Z) : outcome heap :=
  if p =? NULL then Ret h
  else match h_nodes h !! p with
       | Some _ => Ret (set_nodes h (delete p (h_nodes h)))
       | None => Fault
       end.
Definition free_block (h : heap) (p : Z) : outcome heap :=
  if p =? NULL then Ret h
  else match h_blocks h !! p with
       | Some _ => Ret (set_blocks h (delete p (h_blocks h)))
       | None => Fault
       end.
Definition free_buf (h : heap) (p : Z) : outcome heap :=
  if p =? NULL then Ret h
  else match h_bufs h !! p with
       | Some _ => Ret (set_bufs h (delete p (h_bufs h)))
       | None => Fault
       end.

(** Iterations of a descent: one per node of a path, which has at most 65; the
    descent of [bt_find] may restart once from its second choice. *)
Definition bt_fuel : nat := 65.
Definition bt_find_fuel : nat := 130.

Section Operations.
Context `{PA : !PrivateAlloc} (cfg : config).

(** A fresh node at the address given by [private_malloc]. *)
Definition malloc_node (h : heap) (nd : bt_node) : outcome (Z * heap) :=
  let p := private_malloc (live h) sizeof_bt_node in
  if p =? NULL then Fault else Ret (p, set_nodes h (<[p := nd]> (h_nodes h))).

(** ** Descent to the leaf of a block *)

Fixpoint bt_get_leaf_loop (fuel : nat) (h : heap) (curr ptr : Z) : outcome Z :=
  match fuel with
  | O => NoFuel
  | S fuel =>
      let* nd := load_node h curr in
      if negb (i2b (nd_is_leaf nd)) then
        let* blk := load_block h ptr in
        let* _ := DASSERT cfg
          (Z.land (nd_addr nd) (nd_mask nd) =? Z.land (bk_ptr blk) (nd_mask nd)) in
        let* _ := DASSERT cfg (negb (nd_left nd =? NULL) && negb (nd_right nd =? NULL)) in
        let* rn := load_node h (nd_right nd) in
        if Z.land (nd_addr rn) (nd_mask rn) =? Z.land (bk_ptr blk) (nd_mask rn)
        then bt_get_leaf_loop fuel h (nd_right nd) ptr
        else
          let* ln := load_node h (nd_left nd) in
          if Z.land (nd_addr ln) (nd_mask ln) =? Z.land (bk_ptr blk) (nd_mask ln)
          then bt_get_leaf_loop fuel h (nd_left nd) ptr
          else Abort (* vassert(0, "Unreachable", NULL) *)
      else
        let* _ := DASSERT cfg (i2b (nd_is_leaf nd)) in
        let* _ := DASSERT cfg (nd_leaf nd =? ptr) in
        Ret curr
  end.

Definition bt_get_leaf_from_block (h : heap) (ptr : Z) : outcome Z :=
  let curr := bt_root h in
  let* _ := DASSERT cfg (negb (bt_root h =? NULL)) in
  let* _ := DASSERT cfg (negb (ptr =? NULL)) in
  bt_get_leaf_loop bt_fuel h curr ptr.

(** ** Removal *)

(** The children of [sibling] get the parent that takes its place. *)
Definition bt_remove_adopt (h : heap) (sibling parent : Z) : outcome heap :=
  let* sn := load_node h sibling in
  if negb (i2b (nd_is_leaf sn)) then
    let* sl := load_node h (nd_left sn) in
    let* h := store_node h (nd_left sn) (set_parent sl parent) in
    let* sr := load_node h (nd_right sn) in
    store_node h (nd_right sn) (set_parent sr parent)
  else Ret h.

(** The mask of the node above [parent] is computed again. *)
Definition bt_remove_remask (h : heap) (parent : Z) : outcome heap :=
  let* pn := load_node h parent in
  if negb (nd_parent pn =? NULL) then
    let* gp := load_node h (nd_parent pn) in
    let* gl := load_node h (nd_left gp) in
    let* gr := load_node h (nd_right gp) in
    let* mk := mask cfg (Z.land (nd_addr gl) (nd_mask gl))
                        (Z.land (nd_addr gr) (nd_mask gr)) in
    store_node h (nd_parent pn) (set_mask gp mk)
  else Ret h.

(** The branch of [bt_remove] for a leaf with a parent: the sibling of the leaf
    is copied over the parent. *)
Definition bt_remove_splice (h : heap) (leaf_to_delete parent : Z) : outcome heap :=
  let* pn := load_node h parent in
  let sibling := if leaf_to_delete =? nd_left pn then nd_right pn else nd_left pn in
  let* _ := DASSERT cfg (negb (sibling =? NULL)) in
  let* sn := load_node h sibling in
  (* copying all sibling's fields into the parent's *)
  let* h := store_node h parent
    (mk_node (nd_is_leaf sn) (nd_addr sn) (nd_mask sn) (nd_left sn) (nd_right sn)
       (nd_parent pn) (nd_leaf sn)) in
  let* h := bt_remove_adopt h sibling parent in
  let* h := free_node h sibling in
  bt_remove_remask h parent.

Definition bt_remove (h : heap) (ptr : Z) : outcome heap :=
  let* leaf_to_delete := bt_get_leaf_from_block h ptr in
  let* ltd := load_node h leaf_to_delete in
  let* _ := DASSERT cfg (nd_leaf ltd =? ptr) in
  let* h :=
    if nd_parent ltd =? NULL then
      (* the leaf is the root *)
      Ret (set_root h NULL)
    else bt_remove_splice h leaf_to_delete (nd_parent ltd) in
  free_node h leaf_to_delete.

(** ** Insertion *)

Fixpoint bt_most_similar_loop (fuel : nat) (h : heap) (curr ptr : Z) : outcome Z :=
  match fuel with
  | O => NoFuel
  | S fuel =>
      let* nd := load_node h curr in
      if i2b (nd_is_leaf nd) then Ret curr
      else
        let* _ := DASSERT cfg (negb (nd_left nd =? NULL) && negb (nd_right nd =? NULL)) in
        let* blk := load_block h ptr in
        let* ln := load_node h (nd_left nd) in
        let* left_prefix := mask cfg (Z.land (nd_addr ln) (nd_mask ln)) (bk_ptr blk) in
        let* rn := load_node h (nd_right nd) in
        let* right_prefix := mask cfg (Z.land (nd_addr rn) (nd_mask rn)) (bk_ptr blk) in
        if right_prefix <? left_prefix then bt_most_similar_loop fuel h (nd_left nd) ptr
        else if left_prefix <? right_prefix then
          bt_most_similar_loop fuel h (nd_right nd) ptr
        else Ret curr
  end.

Definition bt_most_similar_node (h : heap) (ptr : Z) : outcome Z :=
  let curr := bt_root h in
  let* _ := DASSERT cfg (negb (ptr =? NULL)) in
  let* _ := DASSERT cfg (negb (bt_root h =? NULL)) in
  bt_most_similar_loop bt_fuel h curr ptr.

(** The mask of an internal node, computed from its children. *)
Definition children_mask (h : heap) (nd : bt_node) : outcome Z :=
  let* ln := load_node h (nd_left nd) in
  let* rn := load_node h (nd_right nd) in
  mask cfg (Z.land (nd_addr ln) (nd_mask ln)) (Z.land (nd_addr rn) (nd_mask rn)).

(** The new internal node takes the place of [sibling] in the tree: the part of
    [bt_insert] from [if(sibling == bt_root)] to its end; [sn] and [blk] are the
    contents of [sibling] and of the inserted block. *)
Definition bt_insert_link (h : heap) (sibling parent : Z) (sn : bt_node) (blk : bt_block)
  : outcome heap :=
  if sibling =? bt_root h then
    let* pn := load_node h parent in
    let* mk := mask cfg (Z.land (nd_addr sn) (nd_mask sn)) (bk_ptr blk) in
    let* h := store_node h parent (set_mask (set_parent pn NULL) mk) in
    Ret (set_root h parent)
  else
    let* sp := load_node h (nd_parent sn) in
    let* h := store_node h (nd_parent sn)
      (if nd_left sp =? sibling then set_left sp parent else set_right sp parent) in
    let* pn := load_node h parent in
    let* h := store_node h parent (set_parent pn (nd_parent sn)) in
    let* pn := load_node h parent in
    let* mk := children_mask h pn in
    store_node h parent (set_mask pn mk).

(** The last updates of [bt_insert], on [sibling]. *)
Definition bt_insert_sibling (h : heap) (sibling parent : Z) : outcome heap :=
  let* sn := load_node h sibling in
  let* h := store_node h sibling (set_parent sn parent) in
  let* sn := load_node h sibling in
  if negb (i2b (nd_is_leaf sn)) then
    let* mk := children_mask h sn in
    store_node h sibling (set_mask sn mk)
  else Ret h.

Definition bt_insert (h : heap) (ptr : Z) : outcome heap :=
  let* _ := DASSERT cfg (negb (ptr =? NULL)) in
  let* blk := load_block h ptr in
  let* tm := tget (Tmasks tables64) (WORDBITS tables64) in
  let* (new_leaf, h) := malloc_node h (mk_node 1 (bk_ptr blk) tm NULL NULL NULL ptr) in
  if bt_root h =? NULL then Ret (set_root h new_leaf)
  else
    let* sibling := bt_most_similar_node h ptr in
    let* _ := DASSERT cfg (negb (sibling =? NULL)) in
    let* sn := load_node h sibling in
    let* ln := load_node h new_leaf in
    let (pleft, pright) :=
      if nd_addr ln <=? nd_addr sn then (new_leaf, sibling) else (sibling, new_leaf) in
    (* the fields [mask] and [parent] are assigned by [bt_insert_link] *)
    let* (parent, h) := malloc_node h
      (mk_node 0 (Z.land (nd_addr sn) (nd_addr ln)) junk pleft pright junk NULL) in
    let* h := store_node h new_leaf (set_parent ln parent) in
    let* h := bt_insert_link h sibling parent sn blk in
    let* h := bt_insert_sibling h sibling parent in
    let* pn := load_node h parent in
    let* _ := DASSERT cfg
      ((nd_left pn =? sibling) && (nd_right pn =? new_leaf)
       || (nd_left pn =? new_leaf) && (nd_right pn =? sibling)) in
    Ret h.

(** ** Lookup by base address *)

Fixpoint bt_lookup_loop (fuel : nat) (h : heap) (tmp ptr : Z) : outcome Z :=
  match fuel with
  | O => NoFuel
  | S fuel =>
      let* nd := load_node h tmp in
      if negb (i2b (nd_is_leaf nd)) then
        if negb (Z.land (nd_addr nd) (nd_mask nd) =? Z.land ptr (nd_mask nd)) then Ret NULL
        else
          let* _ := DASSERT cfg (negb (nd_left nd =? NULL) && negb (nd_right nd =? NULL)) in
          let* rn := load_node h (nd_right nd) in
          if Z.land (nd_addr rn) (nd_mask rn) =? Z.land ptr (nd_mask rn)
          then bt_lookup_loop fuel h (nd_right nd) ptr
          else
            let* ln := load_node h (nd_left nd) in
            if Z.land (nd_addr ln) (nd_mask ln) =? Z.land ptr (nd_mask ln)
            then bt_lookup_loop fuel h (nd_left nd) ptr
            else Ret NULL
      else
        let* blk := load_block h (nd_leaf nd) in
        if negb (bk_ptr blk =? ptr) then Ret NULL else Ret (nd_leaf nd)
  end.

Definition bt_lookup (h : heap) (ptr : Z) : outcome Z :=
  let* _ := DASSERT cfg (negb (bt_root h =? NULL)) in
  let* _ := DASSERT cfg (negb (ptr =? NULL)) in
  bt_lookup_loop bt_fuel h (bt_root h) ptr.

(** ** Search of the block that contains an address *)

Fixpoint bt_find_loop (fuel : nat) (h : heap) (tmp other_choice ptr : Z) : outcome Z :=
  match fuel with
  | O => NoFuel
  | S fuel =>
      let* nd := load_node h tmp in
      if i2b (nd_is_leaf nd) then
        if ptr <? nd_addr nd then Ret NULL
        else
          let* blk := load_block h (nd_leaf nd) in
          if (ptr <? u64 (bk_size blk + nd_addr nd))
             || (bk_size blk =? 0) && (ptr =? bk_ptr blk)
          then Ret (nd_leaf nd)
          else Ret NULL
      else
        let* _ := DASSERT cfg (negb (nd_left nd =? NULL) && negb (nd_right nd =? NULL)) in
        let* rn := load_node h (nd_right nd) in
        if Z.land (nd_addr rn) (nd_mask rn) <=? Z.land ptr (nd_mask rn)
        then bt_find_loop fuel h (nd_right nd) (nd_left nd) ptr
        else
          let* ln := load_node h (nd_left nd) in
          if Z.land (nd_addr ln) (nd_mask ln) <=? Z.land ptr (nd_mask ln)
          then bt_find_loop fuel h (nd_left nd) other_choice ptr
          else if other_choice =? NULL then Ret NULL
          else bt_find_loop fuel h other_choice NULL ptr
  end.

Definition bt_find (h : heap) (ptr : Z) : outcome Z :=
  if (bt_root h =? NULL) || (ptr =? NULL) then Ret NULL
  else bt_find_loop bt_find_fuel h (bt_root h) NULL ptr.

(** ** Erasure *)

Definition bt_clean_block_init (h : heap) (ptr : Z) : outcome heap :=
  let* blk := load_block h ptr in
  let* h :=
    if negb (bk_init_ptr blk =? NULL) then
      let* h := free_buf h (bk_init_ptr blk) in
      store_block_at h ptr
        (mk_block (bk_ptr blk) (bk_size blk) NULL (bk_init_bytes blk) (bk_is_readonly blk)
           (bk_is_freeable blk) (bk_timestamp blk) (bk_temporal_shadow blk))
    else Ret h in
  let* blk := load_block h ptr in
  store_block_at h ptr
    (mk_block (bk_ptr blk) (bk_size blk) (bk_init_ptr blk) 0 (bk_is_readonly blk)
       (bk_is_freeable blk) (bk_timestamp blk) (bk_temporal_shadow blk)).

Definition bt_clean_block (h : heap) (ptr : Z) : outcome heap :=
  if negb (ptr =? NULL) then
    let* h := bt_clean_block_init h ptr in
    free_block h ptr
  else Ret h.

(** The fields cleared before a node is freed ([leaf], or [left] and [right])
    are part of the freed object. *)
Fixpoint bt_clean_rec (fuel : nat) (h : heap) (ptr : Z) : outcome heap :=
  match fuel with
  | O => NoFuel
  | S fuel =>
      if ptr =? NULL then Ret h
      else
        let* nd := load_node h ptr in
        let* h :=
          if i2b (nd_is_leaf nd) then bt_clean_block h (nd_leaf nd)
          else
            let* h := bt_clean_rec fuel h (nd_left nd) in
            bt_clean_rec fuel h (nd_right nd) in
        free_node h ptr
  end.

Definition bt_clean (h : heap) : outcome heap :=
  let* h := bt_clean_rec (S bt_fuel) h (bt_root h) in
  Ret (set_root h NULL).
End Operations.
