(* ===== verification/BittreeRep.v ===== *)
(** * The linked trie implements the tree

    [tree_inv h ot] says that the nodes of the private heap are exactly those
    of the tree [ot], linked as the C code expects.  Under that invariant every
    operation of [Bittree] returns (no fault, no failed assertion, no loop that
    runs out of fuel) and performs the tree transformation of [Trie]. *)

From S2P Require Import Prelude Mask Trie Bittree.

(** ** Representation *)

Fixpoint rep (m : gmap Z bt_node) (par : Z) (t : tree) : Prop :=
  match t with
  | Leaf n a b => n <> NULL /\ m !! n = Some (mk_node 1 a (pmask W W) NULL NULL par b)
  | Node n a mk l r =>
      n <> NULL /\ m !! n = Some (mk_node 0 a mk (tnode l) (tnode r) par NULL) /\
      rep m n l /\ rep m n r
  end.

Fixpoint rep_ctx (m : gmap Z bt_node) (c : ctx) (hole : Z) : Prop :=
  match c with
  | CTop => True
  | CLeft n a mk c r =>
      n <> NULL /\ m !! n = Some (mk_node 0 a mk hole (tnode r) (cparent c) NULL) /\
      rep m n r /\ rep_ctx m c n
  | CRight n a mk l c =>
      n <> NULL /\ m !! n = Some (mk_node 0 a mk (tnode l) hole (cparent c) NULL) /\
      rep m n l /\ rep_ctx m c n
  end.

(** The node record of the root of a tree. *)
Definition root_node (par : Z) (t : tree) : bt_node :=
  match t with
  | Leaf _ a b => mk_node 1 a (pmask W W) NULL NULL par b
  | Node _ a mk l r => mk_node 0 a mk (tnode l) (tnode r) par NULL
  end.

(** The blocks of the leaves are allocated and start at the leaf's address. *)
Definition leaf_blocks (bs : gmap Z bt_block) (t : tree) : Prop :=
  forall a b, (a, b) ∈ leaves t ->
    b <> NULL /\ exists blk, bs !! b = Some blk /\ bk_ptr blk = a.

Definition tree_inv (h : heap) (ot : option tree) : Prop :=
  match ot with
  | None => bt_root h = NULL /\ h_nodes h = ∅
  | Some t =>
      bt_root h = tnode t /\ rep (h_nodes h) NULL t /\ (exists k, wf k t) /\
      NoDup (tnodes t) /\ dom (h_nodes h) = list_to_set (tnodes t) /\
      leaf_blocks (h_blocks h) t
  end.

(** ** Lemmas on the representation *)

Lemma tnode_in t : tnode t ∈ tnodes t.
Proof. destruct t; simpl; set_solver. Qed.
#[export] Hint Resolve tnode_in : cdb.

Lemma rep_root m par t : rep m par t -> tnode t <> NULL /\ m !! tnode t = Some (root_node par t).
Proof. destruct t; simpl; naive_solver. Qed.

Lemma root_node_is_leaf par t :
  i2b (nd_is_leaf (root_node par t)) = match t with Leaf _ _ _ => true | _ => false end.
Proof. by destruct t. Qed.
Lemma root_node_addr par t : nd_addr (root_node par t) = taddr t.
Proof. by destruct t. Qed.
Lemma root_node_mask par t : nd_mask (root_node par t) = tmask t.
Proof. by destruct t. Qed.
Lemma root_node_parent par t : nd_parent (root_node par t) = par.
Proof. by destruct t. Qed.
Lemma root_node_set_parent par q t : set_parent (root_node par t) q = root_node q t.
Proof. by destruct t. Qed.

Lemma rep_frame m m' par t :
  rep m par t -> (forall n, n ∈ tnodes t -> m' !! n = m !! n) -> rep m' par t.
Proof.
  revert par. induction t as [n a b|n a mk l IHl r IHr]; simpl; intros par H Hf.
  - destruct H. split; [done|]. rewrite Hf; [done|set_solver].
  - destruct H as (? & ? & ? & ?). split_and!; [done| | |].
    + rewrite Hf; [done|set_solver].
    + apply IHl; [done|]. intros. apply Hf. set_solver.
    + apply IHr; [done|]. intros. apply Hf. set_solver.
Qed.

Lemma rep_ctx_frame m m' c hole :
  rep_ctx m c hole -> (forall n, n ∈ cnodes c -> m' !! n = m !! n) -> rep_ctx m' c hole.
Proof.
  revert hole. induction c as [|n a mk c IH r|n a mk l c IH]; simpl; intros hole H Hf;
    [done| |]; destruct H as (? & ? & ? & ?);
    (split_and!; [done|rewrite Hf; [done|set_solver]| |];
     [eapply rep_frame; [done|]|apply IH; [done|]]; intros; apply Hf; set_solver).
Qed.

(** A tree whose root changes its parent. *)
Lemma rep_reparent m m' par par' t :
  rep m par t -> NoDup (tnodes t) -> m' !! tnode t = Some (root_node par' t) ->
  (forall n, n ∈ tnodes t -> n <> tnode t -> m' !! n = m !! n) -> rep m' par' t.
Proof.
  destruct t as [n a b|n a mk l r]; simpl; intros H Hnd Hr Hf.
  - naive_solver.
  - destruct H as (? & ? & Hl & Hrr). apply NoDup_cons in Hnd as [Hn _].
    split_and!; [done|done| |]; (eapply rep_frame; [done|]); intros x Hx;
      apply Hf; set_solver.
Qed.

Lemma rep_plug m c s :
  rep m NULL (plug c s) <-> rep_ctx m c (tnode s) /\ rep m (cparent c) s.
Proof.
  revert s. induction c as [|n a mk c IH r|n a mk l c IH]; intros s; simpl.
  - naive_solver.
  - rewrite IH. simpl. naive_solver.
  - rewrite IH. simpl. naive_solver.
Qed.

Lemma plug_nodes c s : tnodes (plug c s) ≡ₚ tnodes s ++ cnodes c.
Proof.
  revert s. induction c as [|n a mk c IH r|n a mk l c IH]; intros s; simpl.
  - by rewrite app_nil_r.
  - rewrite IH. simpl. by rewrite <- app_assoc, Permutation_middle.
  - rewrite IH. simpl. rewrite <- Permutation_middle. f_equiv.
    by rewrite <- app_assoc, !(assoc_L (++)), (Permutation_app_comm (tnodes l)).
Qed.

Lemma plug_root c s : tnode (plug c s) = match c with CTop => tnode s | _ => tnode (plug c (Leaf 0 0 0)) end.
Proof.
  revert s. induction c as [|n a mk c IH r|n a mk l c IH]; intros s; simpl; [done| |];
    rewrite IH; symmetry; rewrite IH; by destruct c.
Qed.

Lemma wf_plug k c s : wf k (plug c s) -> exists j, wf j s.
Proof.
  revert s. induction c as [|n a mk c IH r|n a mk l c IH]; intros s; simpl; [eauto| |];
    intros [j Hj]%IH; inversion Hj; eauto.
Qed.

Lemma plug_leaves c s x : x ∈ leaves s -> x ∈ leaves (plug c s).
Proof.
  revert s. induction c as [|n a mk c IH r|n a mk l c IH]; intros s H; simpl; [done| |];
    apply IH; simpl; set_solver.
Qed.

Lemma rep_nonnull m par t n : rep m par t -> n ∈ tnodes t -> n <> NULL /\ is_Some (m !! n).
Proof.
  revert par. induction t as [n' a b|n' a mk l IHl r IHr]; simpl; intros par H Hn.
  - apply list_elem_of_singleton in Hn. naive_solver.
  - destruct H as (? & ? & ? & ?). apply elem_of_cons in Hn as [->|Hn]; [naive_solver|].
    apply elem_of_app in Hn as []; eauto.
Qed.

(** ** Pointer accesses *)

Lemma load_node_eq h p nd : p <> NULL -> h_nodes h !! p = Some nd -> load_node h p = Ret nd.
Proof. intros Hp E. unfold load_node. rewrite (proj2 (Z.eqb_neq _ _) Hp), E. done. Qed.

Lemma store_node_eq h p nd : p <> NULL -> is_Some (h_nodes h !! p) ->
  store_node h p nd = Ret (set_nodes h (<[p := nd]> (h_nodes h))).
Proof.
  intros Hp [? E]. unfold store_node. rewrite (proj2 (Z.eqb_neq _ _) Hp), E. done.
Qed.

Lemma free_node_eq h p : p <> NULL -> is_Some (h_nodes h !! p) ->
  free_node h p = Ret (set_nodes h (delete p (h_nodes h))).
Proof.
  intros Hp [? E]. unfold free_node. rewrite (proj2 (Z.eqb_neq _ _) Hp), E. done.
Qed.

Lemma load_block_eq h p b : p <> NULL -> h_blocks h !! p = Some b -> load_block h p = Ret b.
Proof. intros Hp E. unfold load_block. rewrite (proj2 (Z.eqb_neq _ _) Hp), E. done. Qed.

Lemma load_root h par t : rep (h_nodes h) par t -> load_node h (tnode t) = Ret (root_node par t).
Proof. intros H. apply rep_root in H as []. by apply load_node_eq. Qed.

Lemma DASSERT_true cfg b : b = true -> DASSERT cfg b = Ret tt.
Proof. intros ->. unfold DASSERT. by destruct (cfg_debug cfg). Qed.

Lemma neqb_true a b : a <> b -> negb (a =? b) = true.
Proof. intros H. by rewrite (proj2 (Z.eqb_neq _ _) H). Qed.
Lemma eqb_false a b : a <> b -> (a =? b) = false.
Proof. apply Z.eqb_neq. Qed.

(** ** Queries *)

Section Queries.
Context (cfg : config) (h : heap).

(** Reads the root node of a represented tree. *)
Ltac load_roots :=
  repeat (erewrite load_root by eassumption; cbn [obind]);
  rewrite ?root_node_addr, ?root_node_mask.

Lemma rep_tnode m par t : rep m par t -> tnode t <> NULL.
Proof. intros H. apply (rep_root _ _ _ H). Qed.

Lemma children_assert par par' l r : rep (h_nodes h) par l -> rep (h_nodes h) par' r ->
  DASSERT cfg (negb (tnode l =? NULL) && negb (tnode r =? NULL)) = Ret tt.
Proof.
  intros Hl Hr. apply DASSERT_true. by rewrite !neqb_true by eauto using rep_tnode.
Qed.

Lemma bt_lookup_loop_spec fuel par t p :
  rep (h_nodes h) par t -> leaf_blocks (h_blocks h) t -> (height t <= fuel)%nat ->
  bt_lookup_loop cfg fuel h (tnode t) p =
  Ret (match t_lookup t p with Some b => b | None => NULL end).
Proof.
  revert par t. induction fuel as [|fuel IH]; intros par t Hrep Hb Hf.
  { destruct t; simpl in Hf; lia. }
  destruct t as [n a b|n a mk l r]; cbn [bt_lookup_loop]; load_roots.
  - destruct (Hb a b) as (Hnn & blk & Eb & Ep); [simpl; set_solver|]. cbn.
    erewrite load_block_eq by done. cbn. rewrite Ep. by destruct (a =? p).
  - destruct Hrep as (Hn & En & Hl & Hr). cbn [root_node nd_is_leaf i2b negb Z.eqb].
    assert (leaf_blocks (h_blocks h) l /\ leaf_blocks (h_blocks h) r) as [Hbl Hbr]
      by (split; intros x y Hx; apply Hb; simpl; set_solver).
    cbn [t_lookup]. unfold prefix_eq at 1, tprefix. cbn [taddr tmask].
    destruct (Z.land a mk =? Z.land p mk); cbn [negb]; [|done].
    cbn [nd_left nd_right]. erewrite children_assert by done. cbn [obind].
    load_roots. fold (tprefix r). fold (prefix_eq r p).
    simpl in Hf. destruct (prefix_eq r p); [apply (IH n); [done..|lia]|].
    load_roots. fold (tprefix l). fold (prefix_eq l p).
    destruct (prefix_eq l p); [apply (IH n); [done..|lia]|done].
Qed.

(** What [bt_find] answers at the leaf its descent ends at. *)
Definition find_answer (p : Z) (r : option (Z * Z)) : outcome Z :=
  match r with
  | None => Ret NULL
  | Some (a, b) =>
      let* blk := load_block h b in
      if (p <? u64 (bk_size blk + a)) || (bk_size blk =? 0) && (p =? bk_ptr blk)
      then Ret b else Ret NULL
  end.

Lemma bt_find_loop_spec fuel par par' t o p :
  rep (h_nodes h) par t ->
  match o with None => True | Some t' => rep (h_nodes h) par' t' end ->
  bt_find_loop cfg fuel h (tnode t) (match o with None => NULL | Some t' => tnode t' end) p =
  obind (find_leaf fuel t o p) (find_answer p).
Proof.
  revert par par' t o. induction fuel as [|fuel IH]; intros par par' t o Hrep Ho; [done|].
  destruct t as [n a b|n a mk l r]; cbn [bt_find_loop find_leaf]; load_roots.
  - cbn. by destruct (p <? a).
  - destruct Hrep as (Hn & En & Hl & Hr). cbn [root_node nd_is_leaf i2b negb Z.eqb].
    cbn [nd_left nd_right]. erewrite children_assert by done. cbn [obind].
    load_roots. fold (tprefix r). fold (prefix_le r p).
    destruct (prefix_le r p).
    { apply (IH n n r (Some l)); done. }
    load_roots. fold (tprefix l). fold (prefix_le l p).
    destruct (prefix_le l p); [by eapply IH|].
    destruct o as [o|].
    + rewrite eqb_false by eauto using rep_tnode. by apply (IH par' NULL o None).
    + done.
Qed.

Lemma bt_get_leaf_loop_spec fuel par k t ptr blk c :
  rep (h_nodes h) par t -> wf k t -> (height t <= fuel)%nat ->
  load_block h ptr = Ret blk -> in_u W (bk_ptr blk) ->
  (bk_ptr blk, ptr) ∈ leaves t ->
  bt_get_leaf_loop cfg fuel h (tnode t) ptr = Ret (tnode (t_get_leaf c t (bk_ptr blk)).2).
Proof.
  intros Hrep Hwf Hf Hblk Hp Hin. revert par k t c Hrep Hwf Hf Hin.
  induction fuel as [|fuel IH]; intros par k t c Hrep Hwf Hf Hin.
  { destruct t; simpl in Hf; lia. }
  destruct t as [n a b'|n a mk l r]; cbn [bt_get_leaf_loop t_get_leaf]; load_roots.
  - cbn. simpl in Hin. apply list_elem_of_singleton in Hin as [= <- <-].
    rewrite Z.eqb_refl, !DASSERT_true by done. done.
  - destruct Hrep as (Hn & En & Hl & Hr). cbn [root_node nd_is_leaf i2b negb Z.eqb].
    rewrite Hblk. cbn [obind nd_addr nd_mask nd_left nd_right].
    pose proof (wf_keys k _ _ _ Hwf Hin) as [_ Hk].
    pose proof (prefix_eq_spec k (Node n a mk l r) (bk_ptr blk) Hwf Hp) as Hpe.
    rewrite DASSERT_true by (apply Hpe; done). cbn [obind].
    erewrite children_assert by done. cbn [obind].
    load_roots. fold (tprefix r). fold (prefix_eq r (bk_ptr blk)).
    pose proof (wf_left_keys _ _ _ _ _ _ (bk_ptr blk) ptr Hwf) as Hlk.
    pose proof (fun k => wf_keys k l (bk_ptr blk) ptr) as Hkl.
    pose proof (fun k => wf_keys k r (bk_ptr blk) ptr) as Hkr.
    inversion Hwf; subst. simpl in Hf.
    match goal with Hl : wf kl l, Hr : wf kr r |- _ => rename Hl into Hwl, Hr into Hwr end.
    pose proof (wf_len _ _ Hwr). pose proof (wf_len _ _ Hwl).
    simpl in Hin. apply elem_of_app in Hin.
    destruct (prefix_eq r (bk_ptr blk)) eqn:E1.
    + apply (IH n kr); [done..|lia|]. destruct Hin as [Hin|]; [exfalso|done].
      apply (prefix_eq_spec kr) in E1; [|done..]. apply (hi_le W (k + 1) kr) in E1; [|lia..].
      specialize (Hlk Hin). lia.
    + load_roots. fold (tprefix l). fold (prefix_eq l (bk_ptr blk)).
      destruct Hin as [Hin|Hin].
      * rewrite (proj2 (prefix_eq_spec kl l (bk_ptr blk) Hwl Hp)) by (symmetry; by apply Hkl).
        apply (IH n kl); [done..|lia|done].
      * exfalso. apply (prefix_eq_false kr) in E1; [|done..]. apply E1. symmetry. by apply Hkr.
Qed.

Lemma bt_most_similar_loop_spec fuel par k t ptr blk c :
  rep (h_nodes h) par t -> wf k t -> (height t <= fuel)%nat ->
  load_block h ptr = Ret blk -> in_u W (bk_ptr blk) ->
  bt_most_similar_loop cfg fuel h (tnode t) ptr = Ret (tnode (t_similar c t (bk_ptr blk)).2).
Proof.
  intros Hrep Hwf Hf Hblk Hp. revert par k t c Hrep Hwf Hf.
  induction fuel as [|fuel IH]; intros par k t c Hrep Hwf Hf.
  { destruct t; simpl in Hf; lia. }
  destruct t as [n a b'|n a mk l r]; cbn [bt_most_similar_loop t_similar]; load_roots; [done|].
  destruct Hrep as (Hn & En & Hl & Hr). cbn [root_node nd_is_leaf i2b negb Z.eqb].
  cbn [nd_left nd_right]. erewrite children_assert by done. cbn [obind]. rewrite Hblk. cbn [obind].
  inversion Hwf; subst. simpl in Hf.
  match goal with Hl : wf kl l, Hr : wf kr r |- _ => rename Hl into Hwl, Hr into Hwr end.
  load_roots. fold (tprefix l). rewrite mask_cpl by (done || by eapply prefix_range).
  cbn [obind]. load_roots. fold (tprefix r).
  rewrite mask_cpl by (done || by eapply prefix_range). cbn [obind].
  fold (sim l (bk_ptr blk)). fold (sim r (bk_ptr blk)).
  destruct (_ <? _); [apply (IH n kl); [done..|lia]|].
  destruct (_ <? _); [apply (IH n kr); [done..|lia]|done].
Qed.
End Queries.

Section TopQueries.
Context (cfg : config) (h : heap).

Lemma wf_fuel k t : wf k t -> (height t <= bt_fuel)%nat.
Proof. intros H. pose proof (wf_height _ _ H). pose proof (wf_len _ _ H). unfold bt_fuel. lia. Qed.

Lemma bt_lookup_tree t p : tree_inv h (Some t) -> p <> NULL ->
  bt_lookup cfg h p = Ret (match t_lookup t p with Some b => b | None => NULL end).
Proof.
  intros (Er & Hrep & [k Hwf] & _ & _ & Hb) Hp. unfold bt_lookup.
  rewrite Er, !DASSERT_true by (apply neqb_true; eauto using rep_tnode).
  cbn [obind]. eapply bt_lookup_loop_spec; eauto using wf_fuel.
Qed.

Lemma bt_find_tree ot p : tree_inv h ot -> p <> NULL -> in_u W p ->
  bt_find cfg h p =
  match ot with None => Ret NULL | Some t => find_answer h p (pred_leaf t p) end.
Proof.
  intros Hinv Hp Hu. unfold bt_find. rewrite (eqb_false p) by done. rewrite orb_false_r.
  destruct ot as [t|].
  - destruct Hinv as (Er & Hrep & [k Hwf] & _ & _ & Hb).
    rewrite Er, eqb_false by eauto using rep_tnode.
    rewrite (bt_find_loop_spec cfg h bt_find_fuel NULL NULL t None) by done.
    pose proof (wf_fuel _ _ Hwf). rewrite (find_leaf_root _ k); [done..|].
    unfold bt_find_fuel, bt_fuel in *. lia.
  - destruct Hinv as [-> _]. done.
Qed.

Lemma bt_get_leaf_tree t ptr blk : tree_inv h (Some t) ->
  h_blocks h !! ptr = Some blk -> in_u W (bk_ptr blk) -> (bk_ptr blk, ptr) ∈ leaves t ->
  bt_get_leaf_from_block cfg h ptr = Ret (tnode (t_get_leaf CTop t (bk_ptr blk)).2).
Proof.
  intros (Er & Hrep & [k Hwf] & _ & _ & Hb) Eblk Hu Hin. unfold bt_get_leaf_from_block.
  destruct (Hb _ _ Hin) as [Hnn _].
  rewrite Er, !DASSERT_true by (apply neqb_true; eauto using rep_tnode).
  cbn [obind]. eapply bt_get_leaf_loop_spec; eauto using wf_fuel. by apply load_block_eq.
Qed.
End TopQueries.

(** ** Symbolic execution on the nodes *)

Ltac node_lookup :=
  cbn [h_nodes set_nodes set_root];
  repeat first
    [ eassumption
    | rewrite lookup_insert_eq; reflexivity
    | rewrite lookup_insert_ne by congruence
    | rewrite lookup_delete_ne by congruence ].

(** Unfolds the accesses to the fields of the records. *)
Ltac node_simpl :=
  cbv beta iota delta [set_left set_right set_parent set_mask set_nodes set_root];
  cbn [obind fst snd nd_is_leaf nd_addr nd_mask nd_left nd_right nd_parent nd_leaf
       h_nodes h_blocks h_bufs bt_root].

(** The next statement of the goal: a load, a store or a free. *)
Ltac node_step :=
  node_simpl;
  first
    [ erewrite load_node_eq by (congruence || node_lookup)
    | rewrite store_node_eq by (congruence || (eexists; node_lookup))
    | rewrite free_node_eq by (congruence || (eexists; node_lookup)) ];
  node_simpl.

(** The record of the node above the hole of a context. *)
Definition hole_node (hole : Z) (c : ctx) : bt_node :=
  match c with
  | CTop => mk_node 0 0 0 0 0 0 0
  | CLeft _ a mk c r => mk_node 0 a mk hole (tnode r) (cparent c) NULL
  | CRight _ a mk l c => mk_node 0 a mk (tnode l) hole (cparent c) NULL
  end.

Lemma rep_ctx_head m c hole : rep_ctx m c hole -> c <> CTop ->
  cparent c <> NULL /\ m !! cparent c = Some (hole_node hole c).
Proof. destruct c; simpl; naive_solver. Qed.

(** A context whose hole is filled by another node. *)
Lemma rep_ctx_rehole m m' c hole hole' :
  rep_ctx m c hole -> NoDup (cnodes c) ->
  (c <> CTop -> m' !! cparent c = Some (hole_node hole' c)) ->
  (forall n, n ∈ cnodes c -> n <> cparent c -> m' !! n = m !! n) -> rep_ctx m' c hole'.
Proof.
  destruct c as [|n a mk c r|n a mk l c]; simpl; intros H Hnd Hh Hf; [done| |];
    destruct H as (? & ? & ? & ?); apply NoDup_cons in Hnd as [Hn _];
    (split_and!; [done|by apply Hh| |]; [eapply rep_frame|eapply rep_ctx_frame]; try done;
     intros x Hx; apply Hf; set_solver).
Qed.

(** ** Insertion *)

Lemma graft_tnode nl np p b s : tnode (graft nl np p b s) = np.
Proof. unfold graft. by destruct (_ <=? _). Qed.

Lemma cparent_notin c s : NoDup (tnodes s ++ cnodes c) -> cparent c ∉ tnodes s \/ cparent c = NULL.
Proof.
  intros (_ & Hd & _)%NoDup_app. destruct c; simpl in *; [by right| |];
    left; intros Hx; apply (Hd _ Hx); set_solver.
Qed.

Section Insert.
Context (m m' : gmap Z bt_node) (c : ctx) (s : tree) (nl np p b : Z).
Context (Hctx : rep_ctx m c (tnode s)) (Hs : rep m (cparent c) s).
Context (Hnd : NoDup (tnodes s ++ cnodes c)) (Hnl : nl <> NULL) (Hnp : np <> NULL).
Context (Em_nl : m' !! nl = Some (root_node np (Leaf nl p b))).
Context (Em_np : m' !! np = Some (root_node (cparent c) (graft nl np p b s))).
Context (Em_s : m' !! tnode s = Some (root_node np s)).
Context (Em_c : c <> CTop -> m' !! cparent c = Some (hole_node np c)).
Context (Em_o : forall x, x ∈ tnodes s ++ cnodes c -> x <> tnode s -> x <> cparent c ->
  m' !! x = m !! x).

Lemma graft_rep : rep m' NULL (plug c (graft nl np p b s)).
Proof using All.
  apply rep_plug. rewrite graft_tnode. pose proof Hnd as (Hnds & Hd & Hndc)%NoDup_app.
  split.
  - eapply rep_ctx_rehole; eauto. intros x Hx Hne. apply Em_o; [set_solver| |done].
    intros ->. apply (Hd (tnode s)); eauto with cdb.
  - assert (rep m' np s) as Hrs.
    { eapply rep_reparent; eauto. intros x Hx Hne. apply Em_o; [set_solver|done|].
      intros ->. destruct (cparent_notin c s Hnd) as [|E]; [done|].
      destruct (rep_nonnull _ _ _ _ Hs Hx). done. }
    assert (rep m' np (Leaf nl p b)) by (by split).
    revert Em_np. unfold graft. destruct (_ <=? _); simpl; intros; split_and!; done.
Qed.
End Insert.

(** The mask of an internal node is that of the common prefix of its children. *)
Lemma children_cpl k n a mk l r : wf k (Node n a mk l r) ->
  pmask W (cpl W (tprefix l) (tprefix r)) = mk.
Proof.
  intros H. inversion H; subst.
  match goal with Hl : wf kl l, Hr : wf kr r |- _ => rename Hl into Hwl, Hr into Hwr end.
  f_equal. pose proof (wf_len _ _ Hwl). pose proof (wf_len _ _ Hwr).
  pose proof (prefix_range _ _ Hwl) as Pl. pose proof (prefix_range _ _ Hwr) as Pr.
  pose proof (cpl_spec W ltac:(lia) _ _ Pl Pr k) as C0.
  pose proof (cpl_spec W ltac:(lia) _ _ Pl Pr (k + 1)) as C1.
  rewrite !(hi_prefix kl l), !(hi_prefix kr r) in C0, C1 by (done || lia).
  rewrite !(hi_hi W k (k + 1)) in C0 by lia. replace (k + 1 - k) with 1 in C0 by lia.
  change (2 ^ 1) with 2 in C0. assert (k <= cpl W (tprefix l) (tprefix r)) by (apply C0; dlia).
  destruct (Z.leb_spec (k + 1) (cpl W (tprefix l) (tprefix r))) as [Hle|]; [|lia].
  apply C1 in Hle; lia.
Qed.

Lemma cpl_sym a b : cpl W a b = cpl W b a.
Proof. unfold cpl. rewrite Z.lxor_comm. by destruct (Z.eqb_spec a b), (Z.eqb_spec b a); subst. Qed.

Instance ctx_top_dec c : Decision (c = CTop).
Proof. destruct c; [by left|by right..]. Defined.

(** The root of a tree is a node of every context but the empty one. *)
Lemma plug_root_in c s : c <> CTop -> tnode (plug c s) ∈ cnodes c.
Proof.
  revert s. induction c as [|n a mk c IH r|n a mk l c IH]; intros s H; [done| |]; simpl;
    (destruct (decide (c = CTop)) as [->|Hc]; [simpl; set_solver|]);
    specialize (IH (Leaf n 0 0) Hc); rewrite plug_root in *; destruct c; set_solver.
Qed.

(** Replacing the child [tnode s] of the node above the hole. *)
Lemma hole_node_replace c s np : NoDup (tnodes s ++ cnodes c) -> c <> CTop ->
  (if nd_left (hole_node (tnode s) c) =? tnode s
   then set_left (hole_node (tnode s) c) np else set_right (hole_node (tnode s) c) np) =
  hole_node np c.
Proof.
  intros (_ & Hd & _)%NoDup_app Hc. destruct c as [|n a mk c r|n a mk l c]; [done| |]; simpl.
  - by rewrite Z.eqb_refl.
  - rewrite eqb_false; [done|]. intros E. apply (Hd (tnode s)); [auto with cdb|].
    simpl. rewrite <- E. pose proof (tnode_in l). set_solver.
Qed.

Ltac node_dom :=
  cbn [h_nodes]; rewrite ?dom_insert_lookup_L by (eexists; node_lookup); reflexivity.

Section InsertExec.
Context `{PA : !PrivateAlloc, PAok : !PrivateAllocOk} (cfg : config).

Lemma malloc_node_eq h nd : exists p,
  malloc_node h nd = Ret (p, set_nodes h (<[p := nd]> (h_nodes h))) /\
  p <> NULL /\ p ∉ live h.
Proof using PAok.
  exists (private_malloc (live h) sizeof_bt_node). unfold malloc_node.
  rewrite eqb_false by apply private_malloc_served.
  split_and!; [done|apply private_malloc_served|apply private_malloc_fresh].
Qed.

Lemma children_mask_eq h nd l r par par' :
  rep (h_nodes h) par l -> rep (h_nodes h) par' r -> nd_left nd = tnode l -> nd_right nd = tnode r ->
  in_u W (tprefix l) -> in_u W (tprefix r) ->
  children_mask cfg h nd = Ret (pmask W (cpl W (tprefix l) (tprefix r))).
Proof.
  intros Hl Hr El Er Pl Pr. unfold children_mask.
  rewrite El, (load_root _ _ _ Hl). cbn [obind]. rewrite Er, (load_root _ _ _ Hr). cbn [obind].
  rewrite !root_node_addr, !root_node_mask. by apply mask_cpl.
Qed.

(** The children of the node that [bt_insert] creates. *)
Definition graft_children (nl p : Z) (s : tree) : Z * Z :=
  if p <=? taddr s then (nl, tnode s) else (tnode s, nl).

Lemma tprefix_leaf n p b : in_u W p -> tprefix (Leaf n p b) = p.
Proof.
  intros Hp. unfold tprefix. simpl. rewrite land_pmask by (done || lia).
  rewrite hi_full. replace (W - W) with 0 by lia. lia.
Qed.

Lemma graft_mask h c s nl np p b x y :
  rep (h_nodes h) (cparent c) s -> rep (h_nodes h) np (Leaf nl p b) ->
  in_u W p -> (exists ks, wf ks s) ->
  children_mask cfg h (mk_node 0 x y (graft_children nl p s).1 (graft_children nl p s).2
    (cparent c) NULL) = Ret (sim s p).
Proof.
  intros Hs Hl Hp [ks Hwf]. pose proof (prefix_range _ _ Hwf).
  pose proof (tprefix_leaf nl p b Hp) as El.
  unfold graft_children. destruct (p <=? taddr s); cbn [fst snd].
  - rewrite (children_mask_eq _ _ (Leaf nl p b) s np (cparent c)) by (done || by rewrite El).
    by rewrite El, cpl_sym.
  - rewrite (children_mask_eq _ _ s (Leaf nl p b) (cparent c) np) by (done || by rewrite El).
    by rewrite El.
Qed.

(** The node that [bt_insert] creates, at its place in the tree. *)
Lemma root_graft par nl np p b s :
  root_node par (graft nl np p b s) =
  mk_node 0 (Z.land (taddr s) p) (sim s p) (graft_children nl p s).1 (graft_children nl p s).2
    par NULL.
Proof. unfold graft, graft_children. by destruct (_ <=? _). Qed.

Section Link.
Context (h : heap) (c : ctx) (s : tree) (nl np ptr x y : Z) (blk : bt_block).
Notation p := (bk_ptr blk).
Context (Hs : rep (h_nodes h) (cparent c) s) (Hwf : exists ks, wf ks s) (Hp : in_u W p).
Context (Hnn : np <> NULL) (Er : bt_root h = tnode (plug c s)).
Context (Enp : h_nodes h !! np = Some (mk_node 0 (Z.land (taddr s) p) x
  (graft_children nl p s).1 (graft_children nl p s).2 y NULL)).

Definition linked (h' : outcome heap) : Prop := exists m',
  h' = Ret (mk_heap m' (h_blocks h) (h_bufs h) (tnode (plug c (graft nl np p ptr s)))) /\
  m' !! np = Some (root_node (cparent c) (graft nl np p ptr s)) /\
  (c <> CTop -> m' !! cparent c = Some (hole_node np c)) /\
  (forall z, z <> np -> z <> cparent c -> m' !! z = h_nodes h !! z) /\
  dom m' = dom (h_nodes h).

Lemma bt_insert_link_root : c = CTop ->
  linked (bt_insert_link cfg h (tnode s) np (root_node (cparent c) s) blk).
Proof using All.
  intros Hc. unfold bt_insert_link. rewrite Hc in Er |- *. simpl in Er.
  rewrite Er, Z.eqb_refl. node_step.
  rewrite root_node_addr, root_node_mask. fold (tprefix s).
  destruct Hwf as [ks Hwf']. rewrite mask_cpl by (done || by eapply prefix_range).
  node_step. eexists. rewrite root_graft, Hc. cbn [plug]. rewrite graft_tnode.
  split_and!; [done| |done| |node_dom].
  - cbn. by rewrite lookup_insert_eq.
  - intros z Hz _. cbn. by rewrite lookup_insert_ne.
Qed.

Lemma bt_insert_link_inner : c <> CTop ->
  rep_ctx (h_nodes h) c (tnode s) -> NoDup (tnodes s ++ cnodes c) ->
  np ∉ tnodes s ++ cnodes c -> nl ∉ tnodes s ++ cnodes c -> np <> nl ->
  rep (h_nodes h) np (Leaf nl p ptr) ->
  linked (bt_insert_link cfg h (tnode s) np (root_node (cparent c) s) blk).
Proof using All.
  intros Hct Hc Hnd Hnp Hnl Hne Hl. unfold bt_insert_link.
  destruct (rep_ctx_head _ _ _ Hc Hct) as [Hcp Ecp].
  assert (cparent c ∈ cnodes c) as Hcin by (destruct c; simpl; set_solver).
  pose proof Hnd as (_ & Hd & _)%NoDup_app.
  rewrite not_elem_of_app in Hnp, Hnl. destruct Hnp as [Hnp1 Hnp2], Hnl as [Hnl1 Hnl2].
  assert (cparent c <> np /\ cparent c <> nl) as [Hcnp Hcnl] by set_solver.
  rewrite (eqb_false (tnode s)).
  2:{ rewrite Er. intros E. apply (Hd (tnode s)); [auto with cdb|]. rewrite E. by apply plug_root_in. }
  pose proof (hole_node_replace c s np Hnd Hct) as Hrp. unfold set_left, set_right in Hrp.
  rewrite root_node_parent. node_step. rewrite Hrp.
  node_step. node_step. node_step. node_step.
  rewrite (graft_mask _ c s nl np p ptr); [..|done|done].
  2-3: (eapply rep_frame; [done|]); intros z Hz; cbn;
    rewrite !lookup_insert_ne; [done|set_solver..].
  node_step. eexists. rewrite root_graft. split_and!.
  - rewrite Er, (plug_root c), (plug_root c (graft _ _ _ _ _)). by destruct c.
  - by rewrite lookup_insert_eq.
  - intros _. node_lookup.
  - intros z Hz1 Hz2. by rewrite !lookup_insert_ne.
  - node_dom.
Qed.
End Link.

Lemma bt_insert_sibling_spec h s np par :
  rep (h_nodes h) par s -> NoDup (tnodes s) -> (exists ks, wf ks s) ->
  exists m', bt_insert_sibling cfg h (tnode s) np =
    Ret (mk_heap m' (h_blocks h) (h_bufs h) (bt_root h)) /\
    m' !! tnode s = Some (root_node np s) /\
    (forall z, z <> tnode s -> m' !! z = h_nodes h !! z) /\ dom m' = dom (h_nodes h).
Proof.
  intros Hs Hnd [ks Hwf]. unfold bt_insert_sibling.
  destruct (rep_root _ _ _ Hs) as [Hsn Es].
  node_step. node_step. node_step. fold (set_parent (root_node par s) np).
  rewrite root_node_set_parent, root_node_is_leaf.
  destruct s as [n a b|n a mk l r]; cbn [negb].
  - eexists. split_and!; [done| | |node_dom]; simpl; intros;
      [by rewrite lookup_insert_eq|by rewrite lookup_insert_ne].
  - destruct Hs as (_ & _ & Hl & Hr). simpl in Hnd. apply NoDup_cons in Hnd as [Hn _].
    rewrite (children_mask_eq _ _ l r n n); [..|done|done| |].
    2-3: (eapply rep_frame; [done|]); intros z Hz; cbn; rewrite lookup_insert_ne; set_solver.
    2-3: inversion Hwf; by eapply prefix_range.
    rewrite (children_cpl ks n a mk l r) by done. simpl in Es.
    node_step. eexists. split_and!; [done| | |node_dom]; simpl; intros;
      [by rewrite lookup_insert_eq|by rewrite !lookup_insert_ne].
Qed.

(** [linked] in both cases. *)
Lemma bt_insert_link_spec h c s nl np ptr x y blk :
  rep_ctx (h_nodes h) c (tnode s) -> rep (h_nodes h) (cparent c) s ->
  (exists ks, wf ks s) -> in_u W (bk_ptr blk) -> np <> NULL -> bt_root h = tnode (plug c s) ->
  NoDup (tnodes s ++ cnodes c) -> np ∉ tnodes s ++ cnodes c -> nl ∉ tnodes s ++ cnodes c ->
  np <> nl -> rep (h_nodes h) np (Leaf nl (bk_ptr blk) ptr) ->
  h_nodes h !! np = Some (mk_node 0 (Z.land (taddr s) (bk_ptr blk)) x
    (graft_children nl (bk_ptr blk) s).1 (graft_children nl (bk_ptr blk) s).2 y NULL) ->
  linked h c s nl np ptr blk (bt_insert_link cfg h (tnode s) np (root_node (cparent c) s) blk).
Proof.
  intros. destruct (decide (c = CTop)); [by eapply bt_insert_link_root|].
  by eapply bt_insert_link_inner.
Qed.

(** The part of [bt_insert] that follows the creation of the two nodes. *)
Lemma bt_insert_nodes h c s nl np ptr x y blk m :
  rep_ctx m c (tnode s) -> rep m (cparent c) s ->
  (exists ks, wf ks s) -> in_u W (bk_ptr blk) -> np <> NULL -> nl <> NULL ->
  bt_root h = tnode (plug c s) ->
  NoDup (tnodes s ++ cnodes c) -> np ∉ tnodes s ++ cnodes c -> nl ∉ tnodes s ++ cnodes c ->
  np <> nl -> h_nodes h !! nl = Some (root_node np (Leaf nl (bk_ptr blk) ptr)) ->
  h_nodes h !! np = Some (mk_node 0 (Z.land (taddr s) (bk_ptr blk)) x
    (graft_children nl (bk_ptr blk) s).1 (graft_children nl (bk_ptr blk) s).2 y NULL) ->
  (forall z, z <> nl -> z <> np -> h_nodes h !! z = m !! z) ->
  exists m',
    (let* h := bt_insert_link cfg h (tnode s) np (root_node (cparent c) s) blk in
     bt_insert_sibling cfg h (tnode s) np) =
      Ret (mk_heap m' (h_blocks h) (h_bufs h)
             (tnode (plug c (graft nl np (bk_ptr blk) ptr s)))) /\
    rep m' NULL (plug c (graft nl np (bk_ptr blk) ptr s)) /\
    m' !! np = Some (root_node (cparent c) (graft nl np (bk_ptr blk) ptr s)) /\
    dom m' = dom (h_nodes h).
Proof.
  intros Hc Hs Hwf Hp Hnp Hnl Er Hnd Fnp Fnl Hne El Enp Ho.
  assert (forall z, z ∈ tnodes s ++ cnodes c -> z <> nl /\ z <> np) as Hfr
    by (clear -Fnp Fnl; set_solver).
  assert (forall z, z ∈ tnodes s ++ cnodes c -> h_nodes h !! z = m !! z) as Ho'
    by (intros z Hz; apply Ho; by apply Hfr).
  setoid_rewrite elem_of_app in Hfr. setoid_rewrite elem_of_app in Ho'.
  assert (rep_ctx (h_nodes h) c (tnode s)) as Hc1 by (eapply rep_ctx_frame; eauto).
  assert (rep (h_nodes h) (cparent c) s) as Hs1 by (eapply rep_frame; eauto).
  destruct (bt_insert_link_spec h c s nl np ptr x y blk) as (m1 & -> & E1 & E2 & E3 & E4);
    [done..|].
  cbn [obind]. pose proof (cparent_notin _ _ Hnd) as Hcp.
  pose proof Hnd as (Hnds & Hd & _)%NoDup_app.
  destruct (Hfr (tnode s)) as [Hsnl Hsnp]; [left; apply tnode_in|].
  assert (forall z, z ∈ tnodes s -> m1 !! z = h_nodes h !! z) as Hm1.
  { intros z Hz. apply E3; [naive_solver|]. intros ->. destruct Hcp as [|Hcp]; [done|].
    by destruct (rep_nonnull _ _ _ _ Hs Hz). }
  destruct (bt_insert_sibling_spec (mk_heap m1 (h_blocks h) (h_bufs h)
    (tnode (plug c (graft nl np (bk_ptr blk) ptr s)))) s np (cparent c))
    as (m2 & -> & F1 & F2 & F3); [by eapply rep_frame|done..|].
  cbn [h_blocks h_bufs bt_root h_nodes] in *. exists m2.
  assert (c <> CTop -> cparent c ∈ cnodes c) as Hcin.
  { intros Hct. destruct c; simpl; set_solver. }
  split_and!; [done| |by rewrite F2|by rewrite F3].
  eapply graft_rep; [exact Hc|exact Hs|try done..].
  - rewrite F2, E3; [done|done| |done].
    destruct (decide (c = CTop)) as [->|Hct]; [done|].
    destruct (Hfr (cparent c)); [right; by apply Hcin|done].
  - by rewrite F2.
  - intros Hct. rewrite F2; [by apply E2|]. intros E. apply (Hd (tnode s) (tnode_in s)).
    rewrite <- E. by apply Hcin.
  - intros z Hz Hz1 Hz2. apply elem_of_app in Hz. destruct (Hfr z Hz).
    by rewrite F2, E3, Ho.
Qed.

Lemma graft_children_eq nl p s q :
  (if p <=? taddr s then (nl, tnode s) else (tnode s, nl)) = q -> q = graft_children nl p s.
Proof. by intros <-. Qed.

Lemma bt_insert_exec h t ptr blk :
  tree_inv h (Some t) -> ptr <> NULL -> h_blocks h !! ptr = Some blk -> in_u W (bk_ptr blk) ->
  exists nl np m',
    bt_insert cfg h ptr =
      Ret (mk_heap m' (h_blocks h) (h_bufs h) (tnode (t_insert nl np (bk_ptr blk) ptr t))) /\
    rep m' NULL (t_insert nl np (bk_ptr blk) ptr t) /\
    nl ∉ tnodes t /\ np ∉ tnodes t /\ nl <> np /\
    dom m' = {[nl; np]} ∪ dom (h_nodes h).
Proof using PAok.
  intros (Er & Hrep & [k Hwf] & Hnd & Hdom & Hb) Hp Eblk Hu. unfold bt_insert.
  rewrite DASSERT_true by (by apply neqb_true). cbn [obind].
  rewrite (load_block_eq h ptr blk) by done. cbn [obind].
  rewrite (tget_Tmasks tables64 (WORDBITS tables64)) by (cbn; lia).
  change (WORDBITS tables64) with W. cbn [obind].
  destruct (malloc_node_eq h (mk_node 1 (bk_ptr blk) (pmask W W) NULL NULL NULL ptr))
    as (nl & -> & Hnl & Hfl). cbn [obind].
  assert (nl ∉ tnodes t) as Fnl.
  { intros Hx. apply Hfl. unfold live. rewrite Hdom. set_solver. }
  assert (rep (<[nl:=mk_node 1 (bk_ptr blk) (pmask W W) NULL NULL NULL ptr]> (h_nodes h)) NULL t)
    as Hrep1 by (eapply rep_frame; [done|]; intros; rewrite lookup_insert_ne; set_solver).
  unfold bt_most_similar_node. cbn [bt_root set_nodes].
  rewrite Er, eqb_false by eauto using rep_tnode.
  rewrite !DASSERT_true by (done || by apply neqb_true). cbn [obind].
  rewrite (bt_most_similar_loop_spec _ _ bt_fuel NULL k t ptr blk CTop);
    [|done|done|by eapply wf_fuel|by apply load_block_eq|done].
  pose proof (t_similar_plug CTop t (bk_ptr blk)) as Hplug.
  pose proof (fun np => t_similar_insert nl np ptr CTop t (bk_ptr blk)) as Hins.
  destruct (t_similar CTop t (bk_ptr blk)) as [c s]. cbn [fst snd plug] in Hplug, Hins.
  rewrite <- Hplug in Hrep, Hrep1, Hnd, Fnl, Hwf, Hdom, Er |- *.
  apply rep_plug in Hrep as [Hc Hs]. apply rep_plug in Hrep1 as [Hc1 Hs1].
  destruct (wf_plug _ _ _ Hwf) as [ks Hwfs].
  pose proof (rep_tnode _ _ _ Hs) as Hsn. cbn [obind snd].
  rewrite DASSERT_true by (by apply neqb_true). cbn [obind].
  rewrite (load_root _ (cparent c) s) by done. cbn [obind]. node_step. rewrite root_node_addr.
  destruct (if _ <=? _ then _ else _) as [pl pr] eqn:Eg. apply graft_children_eq in Eg.
  match goal with |- context [malloc_node ?h1 ?nd] =>
    destruct (malloc_node_eq h1 nd) as (np & -> & Hnp & Hfp) end. cbn [obind].
  assert (np <> nl /\ np ∉ tnodes (plug c s)) as [Hne Fnp].
  { revert Hfp. unfold live. cbn [h_nodes set_nodes]. rewrite dom_insert, Hdom. set_solver. }
  node_step. rewrite plug_nodes in Hnd.
  assert (forall z, z ∉ tnodes (plug c s) -> z ∉ tnodes s ++ cnodes c) as Hpn
    by (intros z Hz; by rewrite <- plug_nodes).
  rewrite obind_assoc.
  edestruct (bt_insert_nodes) with (c := c) (nl := nl) (np := np) (ptr := ptr) (m := h_nodes h)
    as (m2 & -> & R1 & R2 & R3); [exact Hc|exact Hs|by eexists|done..|by apply Hpn|by apply Hpn|done| | | |].
  - cbn [h_nodes]. by rewrite lookup_insert_eq.
  - cbn [h_nodes]. rewrite lookup_insert_ne, lookup_insert_eq by done. by rewrite <- Eg.
  - intros z Hz1 Hz2. cbn [h_nodes]. by rewrite !lookup_insert_ne.
  - cbn [obind h_blocks h_bufs]. rewrite root_graft in R2. node_step.
    rewrite DASSERT_true by (unfold graft_children; destruct (_ <=? _); cbn [fst snd];
      rewrite !Z.eqb_refl, ?orb_true_r; done).
    cbn [obind]. exists nl, np, m2. rewrite <- Hplug in Hins. rewrite <- Hins.
    split_and!; try done. rewrite R3. cbn [h_nodes]. rewrite !dom_insert_L. set_solver.
Qed.
End InsertExec.

(** Insertion of a block that starts at a new address. *)
Definition leaves_of (ot : option tree) : list (Z * Z) :=
  match ot with None => [] | Some t => leaves t end.

Lemma graft_nodes nl np p b s : tnodes (graft nl np p b s) ≡ₚ nl :: np :: tnodes s.
Proof.
  unfold graft. destruct (_ <=? _); simpl; [by rewrite Permutation_swap|].
  rewrite <- Permutation_cons_append. by rewrite Permutation_swap.
Qed.

Lemma t_insert_nodes nl np p b t : tnodes (t_insert nl np p b t) ≡ₚ nl :: np :: tnodes t.
Proof.
  change (t_insert nl np p b t) with (plug CTop (t_insert nl np p b t)).
  rewrite <- (t_similar_insert nl np b CTop t p), plug_nodes, graft_nodes.
  simpl. by rewrite <- plug_nodes, t_similar_plug.
Qed.

Section InsertTree.
Context `{PA : !PrivateAlloc, PAok : !PrivateAllocOk} (cfg : config).

Lemma bt_insert_tree h ot ptr blk :
  tree_inv h ot -> ptr <> NULL -> h_blocks h !! ptr = Some blk -> in_u W (bk_ptr blk) ->
  bk_ptr blk ∉ map fst (leaves_of ot) ->
  exists h' t', bt_insert cfg h ptr = Ret h' /\ tree_inv h' (Some t') /\
    h_blocks h' = h_blocks h /\ h_bufs h' = h_bufs h /\
    exists l1 l2, leaves_of ot = l1 ++ l2 /\ leaves t' = l1 ++ (bk_ptr blk, ptr) :: l2.
Proof using PAok.
  intros Hinv Hp Eblk Hu Hnew. destruct ot as [t|].
  - destruct (bt_insert_exec cfg h t ptr blk Hinv Hp Eblk Hu)
      as (nl & np & m' & E & R & Fl & Fp & Hne & Hdm).
    destruct Hinv as (Er & Hrep & [k Hwf] & Hnd & Hdom & Hb).
    destruct (t_insert_wf k t nl np (bk_ptr blk) ptr Hwf Hu Hnew) as (k' & _ & Hwf' & _).
    destruct (t_insert_leaves nl np (bk_ptr blk) ptr t) as (l1 & l2 & El & El').
    eexists _, _. split_and!; [exact E| |done|done|by eauto].
    split_and!; [done|done|by eexists| | |].
    + rewrite t_insert_nodes. apply NoDup_cons; split; [|by apply NoDup_cons]. set_solver.
    + cbn [h_nodes]. rewrite Hdm, Hdom. apply set_eq. intros x.
      rewrite elem_of_list_to_set, t_insert_nodes. set_solver.
    + intros a b Hab. rewrite El' in Hab. cbn [h_blocks].
      destruct (decide ((a, b) = (bk_ptr blk, ptr))) as [[= -> ->]|Hn]; [by eauto|].
      apply Hb. rewrite El. set_solver.
  - destruct Hinv as [Er En]. unfold bt_insert.
    rewrite DASSERT_true by (by apply neqb_true). cbn [obind].
    rewrite (load_block_eq h ptr blk) by done. cbn [obind].
    rewrite (tget_Tmasks tables64 (WORDBITS tables64)) by (cbn; lia).
    change (WORDBITS tables64) with W. cbn [obind].
    destruct (malloc_node_eq h (mk_node 1 (bk_ptr blk) (pmask W W) NULL NULL NULL ptr))
      as (nl & -> & Hnl & _). cbn [obind bt_root set_nodes]. rewrite Er. cbn.
    exists (set_root (set_nodes h (<[nl := mk_node 1 (bk_ptr blk) (pmask W W) NULL NULL NULL ptr]>
      (h_nodes h))) nl), (Leaf nl (bk_ptr blk) ptr).
    refine (conj eq_refl (conj _ (conj eq_refl (conj eq_refl _)))); [|by exists [], []].
    unfold tree_inv. cbn. rewrite En. split_and!; [done|done|by rewrite lookup_insert_eq| | | |].
    + eexists. by constructor.
    + apply NoDup_singleton.
    + rewrite dom_insert_L, dom_empty_L. set_solver.
    + intros a b [= -> ->]%list_elem_of_singleton. eauto.
Qed.
End InsertTree.

(** ** Removal *)

Lemma relocate_root par n s : root_node par (relocate n s) = root_node par s.
Proof. by destruct s. Qed.
Lemma relocate_tnode n s : tnode (relocate n s) = n.
Proof. by destruct s. Qed.
Lemma relocate_nodes n s : tnode s :: tnodes (relocate n s) ≡ₚ n :: tnodes s.
Proof. destruct s; simpl; apply Permutation_swap. Qed.

Lemma heap_eta h : mk_heap (h_nodes h) (h_blocks h) (h_bufs h) (bt_root h) = h.
Proof. by destruct h. Qed.

Lemma bt_remove_adopt_spec h n s :
  rep (h_nodes h) n s -> NoDup (tnodes s) ->
  exists m', bt_remove_adopt h (tnode s) n =
      Ret (mk_heap m' (h_blocks h) (h_bufs h) (bt_root h)) /\
    match s with Leaf _ _ _ => True | Node _ _ _ l r => rep m' n l /\ rep m' n r end /\
    (forall z, z ∉ tnodes s \/ z = tnode s -> m' !! z = h_nodes h !! z) /\
    dom m' = dom (h_nodes h).
Proof.
  intros Hs Hnd. unfold bt_remove_adopt. rewrite (load_root _ _ _ Hs). cbn [obind].
  rewrite root_node_is_leaf. destruct s as [x a b|x a mk l r]; cbn [negb].
  { exists (h_nodes h). rewrite heap_eta. done. }
  destruct Hs as (Hx & Ex & Hl & Hr).
  destruct (rep_root _ _ _ Hl) as [Hln El], (rep_root _ _ _ Hr) as [Hrn Er].
  cbn [tnodes] in Hnd. apply NoDup_cons in Hnd as [Hxn (Hndl & Hd & Hndr)%NoDup_app].
  pose proof (tnode_in l) as Tl. pose proof (tnode_in r) as Tr.
  assert (tnode l <> tnode r) by (intros E; apply (Hd _ Tl); by rewrite E).
  assert (forall z, z ∈ tnodes l -> z <> tnode r) by (intros z Hz ->; by apply (Hd _ Hz)).
  assert (forall z, z ∈ tnodes r -> z <> tnode l) by (intros z Hz ->; by apply (Hd _ Tl)).
  cbn [root_node nd_left nd_right]. node_step. node_step. node_step. node_step.
  fold (set_parent (root_node x l) n). fold (set_parent (root_node x r) n).
  rewrite !root_node_set_parent.
  eexists. split; [done|]. split_and!.
  - eapply rep_reparent; [exact Hl|done|node_lookup|].
    intros z Hz Hne. by rewrite !lookup_insert_ne by (apply not_eq_sym; auto).
  - eapply rep_reparent; [exact Hr|done|by rewrite lookup_insert_eq|].
    intros z Hz Hne. by rewrite !lookup_insert_ne by (apply not_eq_sym; auto).
  - intros z Hz. cbn [tnodes tnode] in Hz.
    assert (z <> tnode l /\ z <> tnode r) as [] by set_solver. by rewrite !lookup_insert_ne.
  - node_dom.
Qed.

Lemma wf_children k n a mk l r : wf k (Node n a mk l r) ->
  in_u W (tprefix l) /\ in_u W (tprefix r).
Proof. intros H. inversion H; subst. split; by eapply prefix_range. Qed.

(** The mask above a subtree does not change when the tree is well formed. *)
Lemma bt_remove_remask_spec cfg h k c s :
  rep (h_nodes h) NULL (plug c s) -> wf k (plug c s) ->
  bt_remove_remask cfg h (tnode s) = Ret h.
Proof.
  intros [Hc Hs]%rep_plug Hwf. unfold bt_remove_remask. rewrite (load_root _ _ _ Hs). cbn [obind].
  rewrite root_node_parent. destruct c as [|n a mk c r|n a mk l c]; cbn [cparent]; [done| |];
    destruct Hc as (Hn & En & Hr & _); rewrite neqb_true by done;
    (destruct (wf_plug k c _ Hwf) as [j Hj]); node_step;
    rewrite (load_root _ _ _ Hs); cbn [obind]; rewrite (load_root _ _ _ Hr); cbn [obind];
    rewrite ?(load_root _ _ _ Hs); cbn [obind];
    rewrite !root_node_addr, !root_node_mask; fold (tprefix s); fold (tprefix (relocate n s)).
  - fold (tprefix r). pose proof (children_cpl _ _ _ _ _ _ Hj) as Emk. destruct (wf_children _ _ _ _ _ _ Hj).
    rewrite mask_cpl by done. rewrite Emk. node_step.
    rewrite insert_id by done. by rewrite heap_eta.
  - fold (tprefix l). pose proof (children_cpl _ _ _ _ _ _ Hj) as Emk. destruct (wf_children _ _ _ _ _ _ Hj).
    rewrite mask_cpl by done. rewrite Emk. node_step.
    rewrite insert_id by done. by rewrite heap_eta.
Qed.

Section Splice.
Context (cfg : config) (h : heap) (c : ctx) (s : tree) (leaf n k : Z) (pn : bt_node).
Context (Hn : n <> NULL) (En : h_nodes h !! n = Some pn) (Ep : nd_parent pn = cparent c).
Context (Esib : (if leaf =? nd_left pn then nd_right pn else nd_left pn) = tnode s).
Context (Hc : rep_ctx (h_nodes h) c n) (Hs : rep (h_nodes h) n s).
Context (Hnd : NoDup (n :: tnodes s ++ cnodes c)) (Hwf : wf k (plug c (relocate n s))).

(** The sibling is linked at the place of its parent. *)
Lemma splice_rep m1 m2 :
  m1 = <[n := root_node (cparent c) s]> (h_nodes h) ->
  match s with Leaf _ _ _ => True | Node _ _ _ l r => rep m2 n l /\ rep m2 n r end ->
  (forall z, z ∉ tnodes s \/ z = tnode s -> m2 !! z = m1 !! z) ->
  rep (delete (tnode s) m2) NULL (plug c (relocate n s)).
Proof using All.
  intros -> Hch Ho. apply NoDup_cons in Hnd as [Hnn (Hnds & Hd & Hndc)%NoDup_app].
  rewrite elem_of_app in Hnn. pose proof (tnode_in s) as Ts.
  apply rep_plug. rewrite relocate_tnode. split.
  - eapply rep_ctx_frame; [done|]. intros z Hz.
    rewrite lookup_delete_ne by (intros <-; by apply (Hd _ Ts)).
    rewrite Ho by (left; intros Hz'; by apply (Hd z)).
    rewrite lookup_insert_ne; [done|]. intros <-. auto.
  - assert (delete (tnode s) m2 !! n = Some (root_node (cparent c) s)) as E.
    { rewrite lookup_delete_ne by (intros <-; auto). rewrite Ho by auto.
      by rewrite lookup_insert_eq. }
    destruct s as [x a b|x a mk l r]; simpl in *; [done|]. destruct Hch as [Hl Hr].
    apply NoDup_cons in Hnds as [Hx _].
    split_and!; [done|done| |]; (eapply rep_frame; [done|]); intros z Hz;
      rewrite lookup_delete_ne; [done|set_solver|done|set_solver].
Qed.

Lemma bt_remove_splice_spec : exists m',
  bt_remove_splice cfg h leaf n = Ret (mk_heap m' (h_blocks h) (h_bufs h) (bt_root h)) /\
  rep m' NULL (plug c (relocate n s)) /\
  (forall z, z <> n -> z ∉ tnodes s -> m' !! z = h_nodes h !! z) /\
  dom m' = dom (h_nodes h) ∖ {[tnode s]}.
Proof using All.
  unfold bt_remove_splice. node_step. rewrite Esib.
  pose proof Hnd as [Hnn (Hnds & Hd & Hndc)%NoDup_app]%NoDup_cons.
  rewrite elem_of_app in Hnn. pose proof (tnode_in s) as Ts.
  rewrite DASSERT_true by (apply neqb_true; eauto using rep_tnode). cbn [obind].
  rewrite (load_root _ _ _ Hs), Ep. node_step.
  replace (mk_node _ _ _ _ _ _ _) with (root_node (cparent c) s) by (by destruct s).
  set (m1 := <[n := _]> _).
  destruct (bt_remove_adopt_spec (mk_heap m1 (h_blocks h) (h_bufs h) (bt_root h)) n s)
    as (m2 & -> & Hch & Ho & Hdm); [|done|].
  { eapply rep_frame; [done|]. intros z Hz. unfold m1. cbn. rewrite lookup_insert_ne; [done|].
    intros <-. auto. }
  destruct (rep_root _ _ _ Hs) as [Hsn Es].
  cbn [obind h_blocks h_bufs bt_root h_nodes] in *.
  rewrite free_node_eq; [|done|].
  2:{ cbn. rewrite Ho by auto. unfold m1. rewrite lookup_insert_ne by (intros ->; auto). eauto. }
  pose proof (splice_rep m1 m2 eq_refl Hch Ho) as Hrep. node_simpl.
  pose proof (fun h => bt_remove_remask_spec cfg h k c (relocate n s)) as Hmask.
  rewrite relocate_tnode in Hmask. rewrite Hmask by done.
  exists (delete (tnode s) m2). split_and!; [done|done| |].
  - intros z Hz1 Hz2. rewrite lookup_delete_ne by (intros <-; auto).
    rewrite Ho by auto. unfold m1. by rewrite lookup_insert_ne.
  - rewrite dom_delete_L, Hdm. unfold m1. by rewrite dom_insert_lookup_L by eauto.
Qed.

Lemma bt_remove_finish :
  leaf <> NULL -> NoDup (leaf :: n :: tnodes s ++ cnodes c) ->
  dom (h_nodes h) = list_to_set (leaf :: n :: tnodes s ++ cnodes c) ->
  exists m', (let* h := bt_remove_splice cfg h leaf n in free_node h leaf) =
      Ret (mk_heap m' (h_blocks h) (h_bufs h) (bt_root h)) /\
    rep m' NULL (plug c (relocate n s)) /\ NoDup (tnodes (plug c (relocate n s))) /\
    dom m' = list_to_set (tnodes (plug c (relocate n s))).
Proof using All.
  intros Hl Hnl Hdom. destruct bt_remove_splice_spec as (m & -> & Hrep & Ho & Hdm).
  apply NoDup_cons in Hnl as [Hleaf _]. cbn [obind].
  assert (tnode s :: tnodes (plug c (relocate n s)) ≡ₚ n :: tnodes s ++ cnodes c) as Hperm.
  { by rewrite plug_nodes, app_comm_cons, relocate_nodes. }
  assert (NoDup (tnode s :: tnodes (plug c (relocate n s)))) as Hnd' by (by rewrite Hperm).
  assert (leaf ∉ tnode s :: tnodes (plug c (relocate n s))) as Hlf by (by rewrite Hperm).
  apply NoDup_cons in Hnd' as [Hts Hnd'].
  rewrite free_node_eq; [|done|].
  2:{ cbn. rewrite Ho by set_solver. apply elem_of_dom. rewrite Hdom. set_solver. }
  node_simpl. eexists. split_and!; [done| |done|].
  - eapply rep_frame; [done|]. intros z Hz. rewrite lookup_delete_ne; [done|]. set_solver.
  - rewrite dom_delete_L, Hdm, Hdom.
    rewrite list_to_set_cons, <- (list_to_set_perm_L _ _ Hperm), list_to_set_cons.
    apply set_eq. intros z. rewrite elem_of_cons in Hlf. set_solver.
Qed.
End Splice.

(** Trees with the same leaves have the same blocks. *)
Lemma leaf_blocks_sub bs t t' : leaf_blocks bs t ->
  (forall x, x ∈ leaves t' -> x ∈ leaves t) -> leaf_blocks bs t'.
Proof. intros H Hs a b Hab. apply H, Hs, Hab. Qed.

Lemma plug_root_same c s s' : tnode s = tnode s' -> tnode (plug c s) = tnode (plug c s').
Proof. intros E. rewrite (plug_root c s), (plug_root c s'). by destruct c. Qed.

Lemma bt_remove_case cfg h t t' c s nl n k p b pn :
  tree_inv h (Some t) -> nl <> NULL -> n <> NULL -> plug c (relocate n s) = t' ->
  bt_root h = tnode t' -> NoDup (nl :: n :: tnodes s ++ cnodes c) ->
  dom (h_nodes h) = list_to_set (nl :: n :: tnodes s ++ cnodes c) ->
  rep_ctx (h_nodes h) c n -> rep (h_nodes h) n s ->
  h_nodes h !! n = Some pn -> nd_parent pn = cparent c ->
  (if nl =? nd_left pn then nd_right pn else nd_left pn) = tnode s ->
  (exists k', k <= k' /\ wf k' t' /\ hi W k (taddr t') = hi W k (taddr t) /\
    exists l1 l2, leaves t = l1 ++ (p, b) :: l2 /\ leaves t' = l1 ++ l2) ->
  exists h', (let* h := bt_remove_splice cfg h nl n in free_node h nl) = Ret h' /\
    tree_inv h' (Some t') /\ h_blocks h' = h_blocks h /\ h_bufs h' = h_bufs h.
Proof.
  intros (_ & _ & _ & _ & _ & Hb) Hnl Hn Et Hroot Hnd Hdom Hc Hs En Epar Esib
    (k' & _ & Hwf & _ & l1 & l2 & El1 & El2).
  rewrite <- Et in Hwf, Hroot, El2 |- *.
  destruct (bt_remove_finish cfg h c s nl n k' pn Hn En Epar Esib Hc Hs)
    as (m' & -> & R & N & D); [by apply NoDup_cons in Hnd as [_ ?]|done..|].
  eexists. split; [done|]. split; [|done]. split_and!; [done|done|by eexists|done|done|].
  eapply leaf_blocks_sub; [done|]. rewrite El1, El2. set_solver.
Qed.

Lemma bt_remove_tree cfg h t ptr blk :
  tree_inv h (Some t) -> h_blocks h !! ptr = Some blk -> (bk_ptr blk, ptr) ∈ leaves t ->
  exists h', bt_remove cfg h ptr = Ret h' /\ tree_inv h' (t_delete (bk_ptr blk) t) /\
    h_blocks h' = h_blocks h /\ h_bufs h' = h_bufs h.
Proof.
  intros Hinv Eblk Hin. pose proof Hinv as (Er & Hrep & [k Hwf] & Hnd & Hdom & Hb).
  pose proof (wf_keys k t _ _ Hwf Hin) as [Hu _]. unfold bt_remove.
  rewrite (bt_get_leaf_tree cfg h t ptr blk) by done. cbn [obind].
  destruct (t_get_leaf_leaf CTop k t _ _ Hwf Hin) as [nl Eleaf].
  pose proof (t_get_leaf_plug CTop t (bk_ptr blk)) as Hplug.
  pose proof (t_get_leaf_unhook CTop t (bk_ptr blk)) as Hun.
  pose proof (t_delete_spec k t _ _ Hwf Hin) as Hdel.
  destruct (t_get_leaf CTop t (bk_ptr blk)) as [c lf]. cbn [fst snd plug] in *. subst lf.
  rewrite <- Hplug in Hrep, Hnd. apply rep_plug in Hrep as [Hc Hl].
  rewrite plug_nodes in Hnd. rewrite (load_root _ _ _ Hl). cbn [obind].
  rewrite DASSERT_true by (cbn; apply Z.eqb_refl). cbn [obind].
  rewrite root_node_parent. cbn [tnode] in *.
  assert (dom (h_nodes h) = list_to_set (nl :: cnodes c)) as Hdom'.
  { rewrite Hdom, <- Hplug. apply list_to_set_perm_L. by rewrite plug_nodes. }
  destruct c as [|n a mk c r|n a mk l c]; cbn [cparent unhook] in *.
  - destruct (t_delete _ t); [done|]. rewrite Z.eqb_refl. cbn [obind].
    rewrite free_node_eq; [|apply Hl|apply rep_root in Hl; naive_solver].
    eexists. split; [done|]. split; [|done]. split; [done|]. node_simpl. apply dom_empty_inv_L.
    rewrite dom_delete_L, Hdom'. simpl. set_solver.
  - destruct Hc as (Hn & En & Hr & Hc). rewrite eqb_false by done.
    destruct (t_delete _ t) as [t'|] eqn:Edel; [|done]. injection Hun as Et.
    eapply (bt_remove_case cfg h t t' c r nl n k); eauto; [by apply Hl| |].
    + rewrite Er, <- Hplug, <- Et. simpl. apply plug_root_same. by rewrite relocate_tnode.
    + cbn. by rewrite Z.eqb_refl.
  - destruct Hc as (Hn & En & Hr & Hc). rewrite eqb_false by done.
    destruct (t_delete _ t) as [t'|] eqn:Edel; [|done]. injection Hun as Et.
    eapply (bt_remove_case cfg h t t' c l nl n k); eauto; [by apply Hl| |].
    + rewrite Er, <- Hplug, <- Et. simpl. apply plug_root_same. by rewrite relocate_tnode.
    + cbn. rewrite eqb_false; [done|]. intros ->. simpl in Hnd. pose proof (tnode_in l).
      apply NoDup_cons in Hnd as [Hnd _]. set_solver.
Qed.

(** ** Erasure *)

(** The buffer of a block, if it has one. *)
Definition block_buf (bs : gmap Z bt_block) (b : Z) : list Z :=
  match bs !! b with
  | Some blk => if bk_init_ptr blk =? NULL then [] else [bk_init_ptr blk]
  | None => []
  end.
Definition tree_bufs (bs : gmap Z bt_block) (t : tree) : list Z :=
  flat_map (fun x => block_buf bs x.2) (leaves t).

(** The buffers of the blocks of a tree are allocated and not shared. *)
Definition bufs_ok (h : heap) (t : tree) : Prop :=
  NoDup (tree_bufs (h_blocks h) t) /\
  forall p, p ∈ tree_bufs (h_blocks h) t -> is_Some (h_bufs h !! p).

Definition without {A} (m m' : gmap Z A) (l : list Z) : Prop :=
  forall z, m' !! z = if decide (z ∈ l) then None else m !! z.

Lemma without_nil {A} (m : gmap Z A) : without m m [].
Proof. intros z. rewrite decide_False; set_solver. Qed.
Lemma without_delete {A} (m : gmap Z A) x : without m (delete x m) [x].
Proof.
  intros z. destruct (decide (z = x)) as [->|].
  - rewrite decide_True by set_solver. apply lookup_delete_eq.
  - rewrite decide_False by set_solver. by apply lookup_delete_ne.
Qed.
Lemma without_app {A} (m1 m2 m3 : gmap Z A) l1 l2 :
  without m1 m2 l1 -> without m2 m3 l2 -> without m1 m3 (l1 ++ l2).
Proof.
  intros H1 H2 z. rewrite H2, H1.
  destruct (decide (z ∈ l1)), (decide (z ∈ l2)), (decide (z ∈ l1 ++ l2)); set_solver.
Qed.
Lemma without_lookup {A} (m m' : gmap Z A) l z : without m m' l -> z ∉ l -> m' !! z = m !! z.
Proof. intros H Hz. by rewrite H, decide_False. Qed.

Lemma bt_clean_block_spec h b blk :
  b <> NULL -> h_blocks h !! b = Some blk ->
  (forall p, p ∈ block_buf (h_blocks h) b -> is_Some (h_bufs h !! p)) ->
  exists bufs, bt_clean_block h b =
      Ret (mk_heap (h_nodes h) (delete b (h_blocks h)) bufs (bt_root h)) /\
    without (h_bufs h) bufs (block_buf (h_blocks h) b).
Proof.
  intros Hb Eb Hbuf. unfold block_buf in *. rewrite Eb in *.
  unfold bt_clean_block, bt_clean_block_init, free_buf, free_block, load_block, store_block_at.
  rewrite !(eqb_false b) by done. cbn [negb]. rewrite Eb. cbn [deref obind].
  destruct (Z.eqb_spec (bk_init_ptr blk) NULL) as [E|E]; cbn [negb].
  - do 3 (rewrite ?Eb, ?lookup_insert_eq; cbn).
    eexists. rewrite delete_insert_eq. split; [done|apply without_nil].
  - destruct (Hbuf (bk_init_ptr blk)) as [buf Ebuf]; [set_solver|]. rewrite Ebuf. cbn.
    do 4 (rewrite ?Eb, ?lookup_insert_eq; cbn).
    eexists. rewrite !insert_insert_eq, delete_insert_eq. split; [done|apply without_delete].
Qed.

(** The blocks of a subtree after the erasure of others. *)
Lemma tree_bufs_frame bs bs' t : (forall x, x ∈ map snd (leaves t) -> bs' !! x = bs !! x) ->
  tree_bufs bs' t = tree_bufs bs t.
Proof.
  unfold tree_bufs. induction (leaves t) as [|[a b] l IH]; simpl; intros H; [done|].
  rewrite IH by (intros; apply H; set_solver). unfold block_buf. rewrite H by set_solver. done.
Qed.

Lemma bt_clean_rec_spec fuel h par t :
  (height t < fuel)%nat -> rep (h_nodes h) par t -> NoDup (tnodes t) ->
  leaf_blocks (h_blocks h) t -> NoDup (map snd (leaves t)) -> bufs_ok h t ->
  exists ns bs bufs, bt_clean_rec fuel h (tnode t) = Ret (mk_heap ns bs bufs (bt_root h)) /\
    without (h_nodes h) ns (tnodes t) /\ without (h_blocks h) bs (map snd (leaves t)) /\
    without (h_bufs h) bufs (tree_bufs (h_blocks h) t).
Proof.
  revert h par t. induction fuel as [|fuel IH]; intros h par t Hf Hrep Hnd Hb Hndb Hbufs; [lia|].
  cbn [bt_clean_rec]. destruct (rep_root _ _ _ Hrep) as [Hnn En].
  rewrite eqb_false, (load_root _ _ _ Hrep) by done. cbn [obind]. rewrite root_node_is_leaf.
  destruct t as [n a b|n a mk l r]; cbn [root_node nd_leaf nd_left nd_right].
  - destruct (Hb a b) as (Hbn & blk & Eb & _); [simpl; set_solver|].
    unfold bufs_ok, tree_bufs in Hbufs |- *. simpl in Hbufs |- *. rewrite app_nil_r in *.
    destruct (bt_clean_block_spec h b blk) as (bufs & -> & Hbf); [done|done|apply Hbufs|].
    cbn [obind]. simpl in En, Hnn. node_step. eexists _, _, _. split; [done|].
    split_and!; [apply without_delete|apply without_delete|done].
  - destruct Hrep as (_ & _ & Hl & Hr). simpl in Hnd, Hndb, Hf, En.
    apply NoDup_cons in Hnd as [Hn (Hndl & Hdn & Hndr)%NoDup_app].
    rewrite map_app in Hndb. apply NoDup_app in Hndb as (Hnbl & Hdb & Hnbr).
    destruct Hbufs as [Hnf Hbufs]. unfold tree_bufs in Hnf, Hbufs. simpl in Hnf, Hbufs.
    rewrite flat_map_app in Hnf, Hbufs. apply NoDup_app in Hnf as (Hnfl & Hdf & Hnfr).
    fold (tree_bufs (h_blocks h) l) in *. fold (tree_bufs (h_blocks h) r) in *.
    destruct (IH h n l) as (ns1 & bs1 & bf1 & -> & W1 & W2 & W3);
      [lia|done|done|by eapply leaf_blocks_sub; [exact Hb|]; simpl; set_solver|done| |].
    { split; [done|]. intros; apply Hbufs. set_solver. }
    cbn [obind]. assert (tree_bufs bs1 r = tree_bufs (h_blocks h) r) as Er.
    { apply tree_bufs_frame. intros x Hx. apply (without_lookup _ _ _ _ W2). set_solver. }
    destruct (IH (mk_heap ns1 bs1 bf1 (bt_root h)) n r) as (ns2 & bs2 & bf2 & -> & V1 & V2 & V3);
      [lia| |done| |done| |].
    { eapply rep_frame; [exact Hr|]. intros z Hz. apply (without_lookup _ _ _ _ W1). set_solver. }
    { intros x y Hx. destruct (Hb x y) as (? & blk & E & ?); [simpl; set_solver|]. split; [done|].
      exists blk. cbn. rewrite (without_lookup _ _ _ _ W2); [done|].
      intros Hin. apply (Hdb y Hin). apply list_elem_of_fmap. by exists (x, y). }
    { split; cbn; rewrite Er; [done|]. intros p Hp. rewrite (without_lookup _ _ _ _ W3) by set_solver.
      apply Hbufs. set_solver. }
    cbn [obind h_nodes h_blocks h_bufs bt_root] in *. rewrite Er in V3.
    rewrite free_node_eq; [|done|].
    2:{ cbn. rewrite (without_lookup _ _ _ _ V1), (without_lookup _ _ _ _ W1) by set_solver. eauto. }
    eexists _, _, _. split; [done|]. unfold tree_bufs. simpl.
    rewrite map_app, flat_map_app. split_and!; [|by eapply without_app..].
    change (n :: tnodes l ++ tnodes r) with ([n] ++ (tnodes l ++ tnodes r)).
    intros z. rewrite (without_app _ _ _ _ _ (without_app _ _ _ _ _ W1 V1) (without_delete _ n) z).
    destruct (decide _), (decide _); set_solver.
Qed.

Lemma leaf_blocks_NoDup bs k t : wf k t -> leaf_blocks bs t -> NoDup (map snd (leaves t)).
Proof.
  intros Hwf Hb. apply wf_NoDup in Hwf. revert Hwf Hb. unfold leaf_blocks.
  induction (leaves t) as [|[a b] l IH]; simpl; intros Hnd Hb; [constructor|].
  apply NoDup_cons in Hnd as [Ha Hnd]. apply NoDup_cons. split; [|apply IH; set_solver].
  intros ([a' b'] & E & Hin)%list_elem_of_fmap. simpl in E. subst b'.
  destruct (Hb a b) as (_ & blk & E1 & E2); [set_solver|].
  destruct (Hb a' b) as (_ & blk' & E1' & E2'); [set_solver|].
  assert (a = a') as <- by congruence. apply Ha, list_elem_of_fmap. by exists (a, b).
Qed.

(** [bt_clean] frees every node of the tree, every block and every buffer. *)
Lemma bt_clean_tree h ot :
  tree_inv h ot -> match ot with None => True | Some t => bufs_ok h t end ->
  exists bs bufs, bt_clean h = Ret (mk_heap ∅ bs bufs NULL) /\
    without (h_blocks h) bs (map snd (leaves_of ot)) /\
    without (h_bufs h) bufs (match ot with None => [] | Some t => tree_bufs (h_blocks h) t end).
Proof.
  intros Hinv Hbufs. unfold bt_clean. destruct ot as [t|].
  - destruct Hinv as (Er & Hrep & [k Hwf] & Hnd & Hdom & Hb). rewrite Er.
    pose proof (wf_fuel _ _ Hwf).
    destruct (bt_clean_rec_spec (S bt_fuel) h NULL t) as (ns & bs & bufs & -> & W1 & W2 & W3);
      [lia|done..|by eapply leaf_blocks_NoDup|done|].
    cbn [obind]. exists bs, bufs. split_and!; [|done|done]. unfold set_root. cbn.
    do 2 f_equal. apply dom_empty_inv_L, set_eq. intros z. rewrite elem_of_dom, W1.
    destruct (decide _) as [|Hz]; [split; [by intros []|set_solver]|].
    rewrite <- elem_of_dom, Hdom. set_solver.
  - destruct Hinv as [Er En]. rewrite Er. cbn. exists (h_blocks h), (h_bufs h).
    unfold set_root. rewrite En. split_and!; [done|apply without_nil..].
Qed.
