(* ===== verification/BtModel.v ===== *)
(** * e_acsl_bittree_mmodel.c: the memory model over the Patricia trie

    The public operations of the run-time library in the trie model: recording
    and removal of blocks, initialization, the validity predicates, and the
    replacements of the allocation functions. *)

From S2P Require Import Prelude Alloc Temporal Bits Mask Trie Bittree.

(** ** Program state *)

Record state `{PublicAlloc} : Type := mk_state {
  st_heap : heap;                   (* private heap and [bt_root] *)
  st_stats : heap_stats;            (* e_acsl_leak.h *)
  temporal_timestamp : Z;           (* e_acsl_temporal_timestamp.h *)
  st_pub : pub;                     (* the application's allocator *)
  st_app : mem;                     (* memory of the application *)
  environ : Z
}.

(** The number of bits set in each byte. *)
Definition nbr_bits_to_1 : list Z := [
  0;1;1;2;1;2;2;3;1;2;2;3;2;3;3;4;1;2;2;3;2;3;3;4;2;3;3;4;3;4;4;5;1;2;2;3;2;3;
  3;4;2;3;3;4;3;4;4;5;2;3;3;4;3;4;4;5;3;4;4;5;4;5;5;6;1;2;2;3;2;3;3;4;2;3;3;4;
  3;4;4;5;2;3;3;4;3;4;4;5;3;4;4;5;4;5;5;6;2;3;3;4;3;4;4;5;3;4;4;5;4;5;5;6;3;4;
  4;5;4;5;5;6;4;5;5;6;5;6;6;7;1;2;2;3;2;3;3;4;2;3;3;4;3;4;4;5;2;3;3;4;3;4;4;5;
  3;4;4;5;4;5;5;6;2;3;3;4;3;4;4;5;3;4;4;5;4;5;5;6;3;4;4;5;4;5;5;6;4;5;5;6;5;6;
  6;7;2;3;3;4;3;4;4;5;3;4;4;5;4;5;5;6;3;4;4;5;4;5;5;6;4;5;5;6;5;6;6;7;3;4;4;5;
  4;5;5;6;4;5;5;6;5;6;6;7;4;5;5;6;5;6;6;7;5;6;6;7;6;7;7;8].

Definition needed_bytes (size : Z) : Z :=
  if size mod 8 =? 0 then size / 8 else size / 8 + 1.

(** Updates of the fields of a block. *)
Definition set_init (blk : bt_block) (init_ptr init_bytes : Z) : bt_block :=
  mk_block (bk_ptr blk) (bk_size blk) init_ptr init_bytes (bk_is_readonly blk)
    (bk_is_freeable blk) (bk_timestamp blk) (bk_temporal_shadow blk).
Definition set_readonly (blk : bt_block) (v : Z) : bt_block :=
  mk_block (bk_ptr blk) (bk_size blk) (bk_init_ptr blk) (bk_init_bytes blk) v
    (bk_is_freeable blk) (bk_timestamp blk) (bk_temporal_shadow blk).
Definition set_freeable (blk : bt_block) (v : Z) : bt_block :=
  mk_block (bk_ptr blk) (bk_size blk) (bk_init_ptr blk) (bk_init_bytes blk) (bk_is_readonly blk)
    v (bk_timestamp blk) (bk_temporal_shadow blk).
Definition set_temporal (blk : bt_block) (stamp shadow : Z) : bt_block :=
  mk_block (bk_ptr blk) (bk_size blk) (bk_init_ptr blk) (bk_init_bytes blk) (bk_is_readonly blk)
    (bk_is_freeable blk) stamp shadow.
Definition set_base (blk : bt_block) (p : Z) : bt_block :=
  mk_block p (bk_size blk) (bk_init_ptr blk) (bk_init_bytes blk) (bk_is_readonly blk)
    (bk_is_freeable blk) (bk_timestamp blk) (bk_temporal_shadow blk).
Definition set_size (blk : bt_block) (v : Z) : bt_block :=
  mk_block (bk_ptr blk) v (bk_init_ptr blk) (bk_init_bytes blk) (bk_is_readonly blk)
    (bk_is_freeable blk) (bk_timestamp blk) (bk_temporal_shadow blk).

Section Model.
Context `{PA : !PrivateAlloc, PB : !PublicAlloc} (cfg : config).

Definition set_heap (st : state) (h : heap) : state :=
  mk_state _ h (st_stats st) (temporal_timestamp st)
    (st_pub st) (st_app st) (environ st).
Definition set_pub (st : state) (p : pub) : state :=
  mk_state _ (st_heap st) (st_stats st) (temporal_timestamp st) p (st_app st) (environ st).
Definition set_app (st : state) (m : mem) : state :=
  mk_state _ (st_heap st) (st_stats st) (temporal_timestamp st) (st_pub st) m (environ st).
Definition set_environ (st : state) (p : Z) : state :=
  mk_state _ (st_heap st) (st_stats st) (temporal_timestamp st) (st_pub st) (st_app st) p.

(** ** Buffers of the private heap *)

(** [private_malloc]/[private_calloc] of [n] bytes of value [v], which the
    caller accesses at once. *)
Definition malloc_buf (h : heap) (n v : Z) : outcome (Z * heap) :=
  let p := private_malloc (live h) n in
  if p =? NULL then Fault
  else Ret (p, set_bufs h (<[p := mem_fill (Z.to_nat n) 0 v]> (h_bufs h))).

Definition load_buf (h : heap) (p : Z) : outcome mem :=
  if p =? NULL then Fault else deref (h_bufs h !! p).
Definition store_buf (h : heap) (p : Z) (b : mem) : outcome heap :=
  if p =? NULL then Fault
  else match h_bufs h !! p with
       | Some _ => Ret (set_bufs h (<[p := b]> (h_bufs h)))
       | None => Fault
       end.

(** [private_realloc] of a buffer: the object may move; the bytes that both
    sizes have are kept. *)
Definition realloc_buf (h : heap) (p n : Z) : outcome (Z * heap) :=
  let* b := load_buf h p in
  let h' := set_bufs h (delete p (h_bufs h)) in
  let p' := private_malloc (live h') n in
  if p' =? NULL then Fault
  else
    let b' := filter (fun x => x.1 < n) b ∪ mem_fill (Z.to_nat n) 0 junk in
    Ret (p', set_bufs h' (<[p' := b']> (h_bufs h'))).

(** The counters of the application's heap. *)
Definition account (st : state) (size : Z) : state :=
  mk_state _ (st_heap st) (update_heap_allocation (st_stats st) size)
    (temporal_timestamp st) (st_pub st) (st_app st) (environ st).

(** ** Initialization *)

(** The loop of [initialize] over the bytes [i .. size - 1] of the range; [i] is
    an [unsigned].  It returns the buffer and [init_bytes]. *)
Fixpoint initialize_loop (fuel : nat) (buf : mem) (base ptr size i init_bytes : Z)
  : outcome (mem * Z) :=
  if i <? size then
    match fuel with
    | O => NoFuel
    | S fuel =>
        let offset := u64 (u64 (ptr - base) + i) in
        let byte := s32 (offset / 8) in
        let bit := offset mod 8 in
        let* b := load8 buf byte in
        if negb (i2b (checkbit bit b)) then
          let* buf := store8 buf byte (setbit 8 bit b) in
          initialize_loop fuel buf base ptr size (u32 (i + 1)) (u64 (init_bytes + 1))
        else initialize_loop fuel buf base ptr size (u32 (i + 1)) init_bytes
    end
  else Ret (buf, init_bytes).

(** The part of [initialize] that follows the allocation of the buffer. *)
Definition initialize_mark (h : heap) (tmp ptr size : Z) : outcome heap :=
  let* blk := load_block h tmp in
  let* h :=
    if 0 <? size then
      let* buf := load_buf h (bk_init_ptr blk) in
      let* (buf, n) := initialize_loop (Z.to_nat size) buf (bk_ptr blk) ptr size 0
                         (bk_init_bytes blk) in
      let* h := store_buf h (bk_init_ptr blk) buf in
      store_block_at h tmp (set_init blk (bk_init_ptr blk) n)
    else Ret h in
  let* blk := load_block h tmp in
  (* now fully initialized *)
  if bk_init_bytes blk =? bk_size blk then
    let* h := free_buf h (bk_init_ptr blk) in
    store_block_at h tmp (set_init blk NULL (bk_init_bytes blk))
  else Ret h.

Definition initialize (h : heap) (ptr size : Z) : outcome heap :=
  if ptr =? NULL then Ret h
  else
    let* tmp := bt_find cfg h ptr in
    if tmp =? NULL then Ret h
    else
      let* blk := load_block h tmp in
      (* already fully initialized, do nothing *)
      if bk_init_bytes blk =? bk_size blk then Ret h
      else
        let* h :=
          (* fully uninitialized *)
          if bk_init_bytes blk =? 0 then
            let nb := s32 (needed_bytes (bk_size blk)) in
            let* (p, h) := malloc_buf h (u64 nb) 0 in
            store_block_at h tmp (set_init blk p (bk_init_bytes blk))
          else Ret h in
        initialize_mark h tmp ptr size.

Definition full_init (h : heap) (ptr : Z) : outcome heap :=
  if ptr =? NULL then Ret h
  else
    let* tmp := bt_lookup cfg h ptr in
    if tmp =? NULL then Ret h
    else
      let* blk := load_block h tmp in
      let* h :=
        if negb (bk_init_ptr blk =? NULL) then
          let* h := free_buf h (bk_init_ptr blk) in
          store_block_at h tmp (set_init blk NULL (bk_init_bytes blk))
        else Ret h in
      let* blk := load_block h tmp in
      store_block_at h tmp (set_init blk (bk_init_ptr blk) (bk_size blk)).

Definition mark_readonly (h : heap) (ptr : Z) : outcome heap :=
  if ptr =? NULL then Ret h
  else
    let* tmp := bt_lookup cfg h ptr in
    if tmp =? NULL then Ret h
    else
      let* blk := load_block h tmp in
      store_block_at h tmp (set_readonly blk 1).

(** ** Predicates *)

Definition freeable (h : heap) (ptr : Z) : outcome Z :=
  if ptr =? NULL then Ret 0
  else
    let* tmp := bt_lookup cfg h ptr in
    if tmp =? NULL then Ret 0
    else let* blk := load_block h tmp in Ret (bk_is_freeable blk).

(** The loop of [initialized]. *)
Fixpoint initialized_loop (fuel : nat) (buf : mem) (base ptr size i : Z) : outcome Z :=
  if i <? size then
    match fuel with
    | O => NoFuel
    | S fuel =>
        let offset := u64 (u64 (ptr - base) + i) in
        let byte := s32 (offset / 8) in
        let bit := offset mod 8 in
        let* b := load8 buf byte in
        if negb (i2b (checkbit bit b)) then Ret 0
        else initialized_loop fuel buf base ptr size (u32 (i + 1))
    end
  else Ret 1.

Definition initialized (h : heap) (ptr size : Z) : outcome Z :=
  let* tmp := bt_find cfg h ptr in
  if tmp =? NULL then Ret 0
  else
    let* blk := load_block h tmp in
    if bk_init_bytes blk =? 0 then Ret 0
    else if bk_init_bytes blk =? bk_size blk then Ret 1
    else if 0 <? size then
      let* buf := load_buf h (bk_init_ptr blk) in
      initialized_loop (Z.to_nat size) buf (bk_ptr blk) ptr size 0
    else Ret 1.

Definition block_length (h : heap) (ptr : Z) : outcome Z :=
  let* blk := bt_find cfg h ptr in
  let* _ := vassert (negb (blk =? NULL)) in
  let* b := load_block h blk in Ret (bk_size b).

Definition lookup_allocated (h : heap) (ptr size ptr_base : Z) : outcome Z :=
  let* blk := bt_find cfg h ptr in
  if blk =? NULL then Ret NULL
  else
    let* b := load_block h blk in
    let answer :=
      Ret (if size <=? u64 (bk_size b - u64 (ptr - bk_ptr b)) then blk else NULL) in
    if cfg_weak_validity cfg then answer
    else
      let* blk_base := bt_find cfg h ptr_base in
      if blk_base =? NULL then Ret NULL
      else
        let* bb := load_block h blk_base in
        if negb (bk_ptr b =? bk_ptr bb) then Ret NULL else answer.

Definition allocated (h : heap) (addr size base : Z) : outcome Z :=
  let* r := lookup_allocated h addr (u64 size) base in
  Ret (if r =? NULL then 0 else 1).

Definition readonly (h : heap) (ptr : Z) : outcome Z :=
  let* blk := bt_find cfg h ptr in
  let* _ := vassert (negb (blk =? NULL)) in
  let* b := load_block h blk in Ret (bk_is_readonly b).

Definition writeable (h : heap) (addr size base_ptr : Z) : outcome Z :=
  let* a := allocated h addr size base_ptr in
  if i2b a then
    let* r := readonly h addr in Ret (b2i (negb (i2b r)))
  else Ret 0.

Definition base_addr (h : heap) (ptr : Z) : outcome Z :=
  let* tmp := bt_find cfg h ptr in
  let* _ := vassert (negb (tmp =? NULL)) in
  let* b := load_block h tmp in Ret (bk_ptr b).

Definition offset (h : heap) (ptr : Z) : outcome Z :=
  let* tmp := bt_find cfg h ptr in
  let* _ := vassert (negb (tmp =? NULL)) in
  let* b := load_block h tmp in Ret (u64 (ptr - bk_ptr b)).

(** ** Temporal time stamps

    The pointer that [temporal_referent_shadow] returns is an object of the
    private heap and an offset in it. *)

Definition origin_timestamp (h : heap) (ptr : Z) : outcome Z :=
  let* blk := bt_find cfg h ptr in
  if negb (blk =? NULL) then let* b := load_block h blk in Ret (bk_timestamp b)
  else Ret INVALID_TEMPORAL_TIMESTAMP.

Definition temporal_referent_shadow (h : heap) (ptr : Z) : outcome (Z * Z) :=
  let* blk := bt_find cfg h ptr in
  let* _ := vassert (negb (blk =? NULL)) in
  let* b := load_block h blk in
  let* _ := vassert (negb (bk_temporal_shadow b =? NULL)) in
  let* off := offset h ptr in
  Ret (bk_temporal_shadow b, off).

Definition referent_timestamp (h : heap) (ptr : Z) : outcome Z :=
  let* blk := bt_find cfg h ptr in
  if negb (blk =? NULL) then
    let* (obj, off) := temporal_referent_shadow h ptr in
    let* m := load_buf h obj in load32 m off
  else Ret INVALID_TEMPORAL_TIMESTAMP.

Definition store_temporal_referent (h : heap) (ptr ref : Z) : outcome heap :=
  let* (obj, off) := temporal_referent_shadow h ptr in
  let* m := load_buf h obj in
  let* m := store32 m off ref in
  store_buf h obj m.

(** The temporal API of e_acsl_temporal.h on this model. *)
#[export] Instance bittree_temporal : TemporalModel heap := {
  shadow := Z * Z;
  tm_origin := origin_timestamp;
  tm_referent := referent_timestamp;
  tm_store := store_temporal_referent;
  tm_shadow := temporal_referent_shadow;
  tm_memcpy h dst src n :=
    let* d := load_buf h dst.1 in
    let* s := load_buf h src.1 in
    let* d := for_range 0 n (fun i d => let* b := load8 s (src.2 + i) in
                                        store8 d (dst.2 + i) b) d in
    store_buf h dst.1 d;
  tm_memset h dst v n :=
    let* d := load_buf h dst.1 in
    let* d := memset d dst.2 v n in
    store_buf h dst.1 d;
  tm_allocated := allocated;
  tm_writeable := writeable
}.

(** ** Validity *)

Definition valid (h : heap) (ptr size ptr_base addrof_base : Z) : outcome Z :=
  let* blk := lookup_allocated h ptr size ptr_base in
  if blk =? NULL then Ret 0
  else
    let* b := load_block h blk in
    if i2b (bk_is_readonly b) then Ret 0
    else if cfg_temporal cfg then
      let* t := temporal_valid h ptr_base addrof_base in Ret (b2i (i2b t))
    else Ret 1.

Definition valid_read (h : heap) (ptr size ptr_base addrof_base : Z) : outcome Z :=
  let* blk := lookup_allocated h ptr size ptr_base in
  if blk =? NULL then Ret 0
  else if cfg_temporal cfg then
    let* t := temporal_valid h ptr_base addrof_base in Ret (b2i (i2b t))
  else Ret 1.

(** ** Blocks on the stack and global blocks *)

(** A fresh block record. *)
Definition malloc_block (h : heap) (b : bt_block) : outcome (Z * heap) :=
  let p := private_malloc (live h) (sizeof_bt_block cfg) in
  if p =? NULL then Fault else Ret (p, set_blocks h (<[p := b]> (h_blocks h))).

(** The checks of [store_block] in debug mode. *)
Definition store_block_checks (h : heap) (ptr size : Z) : outcome unit :=
  if cfg_debug cfg then
    if ptr =? NULL then Abort
    else
      let* existing := bt_find cfg h ptr in
      if negb (existing =? NULL) then Abort
      else
        let check := u64 (ptr + u64 (size - 1)) in
        let* existing := bt_find cfg h check in
        if negb (existing =? NULL) then Abort else Ret tt
  else Ret tt.

(** The temporal fields of a new block. *)
Definition store_block_temporal (st : state) (tmp size : Z) : outcome state :=
  if cfg_temporal cfg then
    let stamp := NEW_TEMPORAL_TIMESTAMP (temporal_timestamp st) in
    let* blk := load_block (st_heap st) tmp in
    let* (shadow, h) :=
      if sizeof_ptr <=? size then malloc_buf (st_heap st) size junk
      else Ret (NULL, st_heap st) in
    let* h := store_block_at h tmp (set_temporal blk stamp shadow) in
    Ret (mk_state _ h (st_stats st) stamp
           (st_pub st) (st_app st) (environ st))
  else Ret st.

Definition store_block (st : state) (ptr size : Z) : outcome (Z * state) :=
  let* _ := store_block_checks (st_heap st) ptr size in
  if negb (ptr =? NULL) then
    let* (tmp, h) := malloc_block (st_heap st) (mk_block ptr size NULL 0 0 0 0 NULL) in
    let* h := bt_insert cfg h tmp in
    let* st := store_block_temporal (set_heap st h) tmp size in
    Ret (tmp, st)
  else Ret (NULL, st).

Definition store_freeable_block (st : state) (ptr size init_bytes : Z) : outcome (Z * state) :=
  if negb (ptr =? NULL) then
    let* (blk, st) := store_block st ptr size in
    let* b := load_block (st_heap st) blk in
    let* h := store_block_at (st_heap st) blk (set_freeable b 1) in
    let st := account (set_heap st h) (s64 size) in
    if i2b init_bytes then
      let* b := load_block (st_heap st) blk in
      let* h := store_block_at (st_heap st) blk (set_init b (bk_init_ptr b) size) in
      Ret (blk, set_heap st h)
    else Ret (blk, st)
  else Ret (NULL, st).

Definition delete_block (h : heap) (ptr : Z) : outcome heap :=
  let* _ := if cfg_debug cfg then vassert (negb (ptr =? NULL)) else Ret tt in
  if negb (ptr =? NULL) then
    let* tmp := bt_lookup cfg h ptr in
    let* _ := if cfg_debug cfg then vassert (negb (tmp =? NULL)) else Ret tt in
    if negb (tmp =? NULL) then
      let* h := bt_clean_block_init h tmp in
      let* h :=
        if cfg_temporal cfg then
          let* b := load_block h tmp in free_buf h (bk_temporal_shadow b)
        else Ret h in
      let* h := bt_remove cfg h tmp in
      free_block h tmp
    else Ret h
  else Ret h.

(** The block that the inner declaration of [tmp] designates is not the one
    that is returned. *)
Definition store_block_duplicate (st : state) (ptr size : Z) : outcome (Z * state) :=
  let tmp := NULL in
  if negb (ptr =? NULL) then
    let* tmp' := bt_lookup cfg (st_heap st) ptr in
    let* st :=
      if negb (tmp' =? NULL) then
        let* _ :=
          if cfg_debug cfg then
            let* b := load_block (st_heap st) tmp' in vassert (bk_size b =? size)
          else Ret tt in
        let* h := delete_block (st_heap st) ptr in
        Ret (set_heap st h)
      else Ret st in
    let* (_, st) := store_block st ptr size in
    Ret (tmp, st)
  else Ret (tmp, st).

(** ** Heap blocks *)

Definition malloc (st : state) (size : Z) : outcome (Z * state) :=
  if size =? 0 then Ret (NULL, st)
  else
    let (res, pb) := public_malloc (st_pub st) size in
    let* (_, st) := store_freeable_block (set_pub st pb) res size 0 in
    Ret (res, st).

Definition calloc (st : state) (nbr_block size_block : Z) : outcome (Z * state) :=
  let size := u64 (nbr_block * size_block) in
  if size =? 0 then Ret (NULL, st)
  else
    let (res, pb) := public_calloc (st_pub st) nbr_block size_block in
    let* (_, st) := store_freeable_block (set_pub st pb) res size 1 in
    Ret (res, st).

Definition aligned_alloc (st : state) (alignment size : Z) : outcome (Z * state) :=
  let* p2 := powof2 alignment in
  if (size =? 0) || (alignment =? 0) || negb (i2b p2) || negb (size mod alignment =? 0)
  then Ret (NULL, st)
  else
    let (res, pb) := public_aligned_alloc (st_pub st) alignment size in
    let* (_, st) := store_freeable_block (set_pub st pb) res size 0 in
    Ret (res, st).

Definition posix_memalign (st : state) (memptr alignment size : Z) : outcome (Z * state) :=
  let* p2 := powof2 alignment in
  if (size =? 0) || (alignment =? 0) || negb (i2b p2) || negb (alignment mod sizeof_ptr =? 0)
  then Ret (-1, st)
  else
    let* _ :=
      if cfg_debug cfg then
        let* w := writeable (st_heap st) memptr sizeof_ptr memptr in vassert (i2b w)
      else Ret tt in
    match public_posix_memalign (st_pub st) alignment size with
    | (res, p, pb) =>
        let st := set_pub st pb in
        if res =? 0 then
          (* the allocator has stored the address in [*memptr] *)
          let* app := store64 (st_app st) memptr p in
          let* (_, st) := store_freeable_block (set_app st app) p size 0 in
          Ret (res, st)
        else Ret (res, st)
    end.

Definition free (st : state) (ptr : Z) : outcome state :=
  if ptr =? NULL then
    if cfg_free_valid_address cfg then Abort else Ret st
  else
    let* res := bt_lookup cfg (st_heap st) ptr in
    if res =? NULL then Abort
    else
      let* b := load_block (st_heap st) res in
      let st := account st (s64 (u64 (- bk_size b))) in
      let st := set_pub st (public_free (st_pub st) ptr) in
      let* h := bt_clean_block_init (st_heap st) res in
      let* h := bt_remove cfg h res in
      Ret (set_heap st h).

(** Sum of [nbr_bits_to_1] over the first [nb] bytes of a buffer. *)
Definition count_bits (buf : mem) (nb : Z) : outcome Z :=
  for_range 0 nb (fun i n => let* b := load8 buf i in
                             let* k := tget nbr_bits_to_1 b in
                             Ret (u64 (n + k))) 0.

(** The initialization of a reallocated block: the part of [realloc] between
    the re-insertion and the assignment of [size]. *)
Definition realloc_init (h : heap) (tmp size : Z) : outcome heap :=
  let* blk := load_block h tmp in
  if bk_init_bytes blk =? 0 then Ret h
  else if bk_init_bytes blk =? bk_size blk then
    if size <=? bk_size blk then
      store_block_at h tmp (set_init blk (bk_init_ptr blk) size)
    else
      let nb := s32 (needed_bytes size) in
      let* (p, h) := malloc_buf h (u64 nb) 0 in
      let* h := store_block_at h tmp (set_init blk p (bk_init_bytes blk)) in
      let* buf := load_buf h p in
      let* buf := setbits (bk_size blk) buf 0 in
      store_buf h p buf
  else
    let nb := s32 (needed_bytes size) in
    let nb_old := s32 (needed_bytes (bk_size blk)) in
    let* (p, h) := realloc_buf h (bk_init_ptr blk) (u64 nb) in
    let* buf := load_buf h p in
    let* buf := for_range nb_old nb (fun i buf => store8 buf i 0) buf in
    let* n := count_bits buf nb in
    let* h := store_buf h p buf in
    if (n =? size) || (n =? 0) then
      let* h := free_buf h p in
      store_block_at h tmp (set_init blk NULL n)
    else store_block_at h tmp (set_init blk p n).

Definition realloc (st : state) (ptr size : Z) : outcome (Z * state) :=
  if ptr =? NULL then malloc st size
  else if size =? 0 then
    let* st := free st ptr in Ret (NULL, st)
  else
    let* tmp := bt_lookup cfg (st_heap st) ptr in
    let* _ := DASSERT cfg (negb (tmp =? NULL)) in
    let* blk := load_block (st_heap st) tmp in
    let (new_ptr, pb) := public_realloc (st_pub st) (bk_ptr blk) size in
    let st := set_pub st pb in
    if new_ptr =? NULL then Ret (NULL, st)
    else
      let st := account st (s64 size) in
      let st := account st (s64 (u64 (- bk_size blk))) in
      let* h :=
        (* realloc changes start address -- re-enter the element *)
        if negb (bk_ptr blk =? new_ptr) then
          let* h := bt_remove cfg (st_heap st) tmp in
          let* h := store_block_at h tmp (set_base blk new_ptr) in
          bt_insert cfg h tmp
        else Ret (st_heap st) in
      let* h := realloc_init h tmp size in
      let* blk := load_block h tmp in
      let* h := store_block_at h tmp (set_freeable (set_size blk size) 1) in
      Ret (bk_ptr blk, set_heap st h).

(** ** Program initialization and end *)

(** Without the report of leaks, which only prints. *)
Definition memory_clean (h : heap) : outcome heap := bt_clean h.

(** [store_block(p, len); initialize(p, len)]. *)
Definition track_initialized (st : state) (p len : Z) : outcome state :=
  let* (_, st) := store_block st p len in
  let* h := initialize (st_heap st) p len in
  Ret (set_heap st h).

(** [while ( *v ) { track the string *v; v++; }]; returns the last value of [v].
    [fuel] bounds the number of strings, and their lengths. *)
Fixpoint track_strings (fuel : nat) (st : state) (v : Z) : outcome (Z * state) :=
  match fuel with
  | O => NoFuel
  | S fuel' =>
      let* s := load64 (st_app st) v in
      if s =? NULL then Ret (v, st)
      else
        let* n := strlen_loop fuel (st_app st) s 0 in
        let* st := track_initialized st s (n + 1) in
        track_strings fuel' st (v + sizeof_ptr)
  end.

Definition argv_alloca (fuel : nat) (st : state) (argc_ref argv_ref : Z) : outcome state :=
  let* (_, st) := store_block st argc_ref 4 in
  let* (_, st) := store_block st argv_ref 8 in
  let* argc := load32 (st_app st) argc_ref in
  let argc := s32 argc in
  let* argv := load64 (st_app st) argv_ref in
  let argvlen := u64 (s32 (argc + 1) * sizeof_ptr) in
  let* st := track_initialized st argv argvlen in
  let* (_, st) := track_strings fuel st argv in
  let* st :=
    if cfg_temporal cfg then
      let* argv := load64 (st_app st) argv_ref in
      let* h := temporal_store_nblock (st_heap st) argv_ref argv in
      let* h := for_range 0 argc (fun i h =>
        let* s := load64 (st_app st) (argv + sizeof_ptr * i) in
        temporal_store_nblock h (argv + sizeof_ptr * i) s) h in
      Ret (set_heap st h)
    else Ret st in
  let* (e, st) := track_strings fuel st (environ st) in
  Ret (set_environ st e).
End Model.
