(* ===== verification/BtSpec.v ===== *)
(** * The contract of the trie model

    [models h M] says that the private heap [h] of the trie model represents the
    abstract memory [M] of AMem.v.  The queries of [BtModel] are shown to answer as the
    abstract state says. *)

From S2P Require Import Prelude AMem Alloc Temporal Bits Mask Trie Bittree BittreeRep BtModel.

(** Largest size of a block: the [int] arithmetic on the bytes of the
    initialization buffers does not overflow below it. *)
Definition max_size : Z := 2 ^ 33.

(** ** Abstraction of a block *)

(** The offsets whose bit is set in an initialization buffer. *)
Definition bits_set (buf : mem) (sz : Z) : gset Z :=
  list_to_set (filter (fun i => mbit buf 0 i = true) (seqZ 0 sz)).

Definition init_set (bufs : gmap Z mem) (blk : bt_block) : gset Z :=
  if bk_init_bytes blk =? 0 then ∅
  else if bk_init_bytes blk =? bk_size blk then all_offsets (bk_size blk)
  else match bufs !! bk_init_ptr blk with
       | Some buf => bits_set buf (bk_size blk)
       | None => ∅
       end.

Definition abs_block (bufs : gmap Z mem) (blk : bt_block) : ablock :=
  mk_ablock (bk_size blk) (init_set bufs blk) (i2b (bk_is_readonly blk))
    (i2b (bk_is_freeable blk)).

(** The shape of an initialization buffer: bits past the block are clear. *)
Definition buf_ok (buf : mem) (sz : Z) : Prop :=
  mem_ok buf /\ (forall i, is_Some (buf !! i) <-> 0 <= i < needed_bytes sz) /\
  (forall i, sz <= i -> mbit buf 0 i = false).

Record blk_ok (bufs : gmap Z mem) (blk : bt_block) : Prop := mk_blk_ok {
  ok_base : 0 < bk_ptr blk;
  ok_size : 0 <= bk_size blk < max_size;
  ok_end : bk_ptr blk + bk_size blk < 2 ^ 64;
  ok_buf : bk_init_ptr blk <> NULL ->
    exists buf, bufs !! bk_init_ptr blk = Some buf /\ buf_ok buf (bk_size blk);
  ok_bytes : 0 <= bk_init_bytes blk <= bk_size blk;
  ok_partial : 0 < bk_init_bytes blk < bk_size blk -> bk_init_ptr blk <> NULL;
  ok_full : bk_init_bytes blk = bk_size blk -> bk_init_bytes blk <> 0 -> bk_init_ptr blk = NULL;
  ok_count : Z.of_nat (size (init_set bufs blk)) = bk_init_bytes blk
}.

(** ** Invariant *)

(** The blocks that the trie holds. *)
Definition tracked (h : heap) (ot : option tree) (b : Z) (blk : bt_block) : Prop :=
  (bk_ptr blk, b) ∈ leaves_of ot /\ h_blocks h !! b = Some blk.

(** The buffers of a block: the initialization bits and the temporal shadow. *)
Definition owns (blk : bt_block) (q : Z) : Prop :=
  q <> NULL /\ (bk_init_ptr blk = q \/ bk_temporal_shadow blk = q).

Record own_ok (bufs : gmap Z mem) (blk : bt_block) : Prop := mk_own_ok {
  own_alloc : forall q, owns blk q -> is_Some (bufs !! q);
  own_distinct : bk_init_ptr blk <> NULL -> bk_init_ptr blk <> bk_temporal_shadow blk
}.

Record inv (h : heap) (ot : option tree) : Prop := mk_inv {
  inv_tree : tree_inv h ot;
  inv_ok : forall b blk, tracked h ot b blk -> blk_ok (h_bufs h) blk;
  inv_disj : forall b1 blk1 b2 blk2, tracked h ot b1 blk1 -> tracked h ot b2 blk2 ->
    bk_ptr blk1 < bk_ptr blk2 -> bk_ptr blk1 + bk_size blk1 <= bk_ptr blk2;
  inv_own : forall b blk, tracked h ot b blk -> own_ok (h_bufs h) blk;
  inv_bufs : forall b1 blk1 b2 blk2 q, tracked h ot b1 blk1 -> tracked h ot b2 blk2 ->
    b1 <> b2 -> owns blk1 q -> ~ owns blk2 q
}.

Definition abs_rel (h : heap) (ot : option tree) (M : amem) : Prop :=
  forall a ab, M !! a = Some ab <->
    exists b blk, tracked h ot b blk /\ bk_ptr blk = a /\ ab = abs_block (h_bufs h) blk.

Definition models (h : heap) (M : amem) : Prop := exists ot, inv h ot /\ abs_rel h ot M.

(** ** Tracked blocks *)

Lemma tree_wf h ot : tree_inv h ot ->
  match ot with None => True | Some t => exists k, wf k t end.
Proof. destruct ot; [intros (_ & _ & Hwf & _); exact Hwf|done]. Qed.

Lemma tracked_leaf h ot a b : tree_inv h ot -> (a, b) ∈ leaves_of ot ->
  exists blk, tracked h ot b blk /\ bk_ptr blk = a /\ b <> NULL.
Proof.
  destruct ot as [t|]; simpl; [|set_solver]. intros (_ & _ & _ & _ & _ & Hb) Hin.
  destruct (Hb a b Hin) as (Hn & blk & E & Ep). exists blk. unfold tracked. by rewrite Ep.
Qed.

Lemma tracked_nonnull h ot b blk : tree_inv h ot -> tracked h ot b blk -> b <> NULL.
Proof. intros Ht [Hin E]. by destruct (tracked_leaf h ot _ _ Ht Hin) as (? & _ & _ & ?). Qed.

(** A base address belongs to one block, and a block to one address. *)
Lemma tracked_base h ot b1 blk1 b2 blk2 : tree_inv h ot ->
  tracked h ot b1 blk1 -> tracked h ot b2 blk2 -> bk_ptr blk1 = bk_ptr blk2 ->
  b1 = b2 /\ blk1 = blk2.
Proof.
  intros Ht [H1 E1] [H2 E2] E. destruct ot as [t|]; [|simpl in H1; set_solver].
  apply tree_wf in Ht as [k Hk]. simpl in *. rewrite E in H1.
  pose proof (wf_functional k t _ _ _ Hk H1 H2) as <-. split; [done|congruence].
Qed.

Lemma tracked_fun h ot b blk1 blk2 : tracked h ot b blk1 -> tracked h ot b blk2 -> blk1 = blk2.
Proof. intros [_ E1] [_ E2]. congruence. Qed.

Lemma tracked_in_u h ot b blk : inv h ot -> tracked h ot b blk -> in_u W (bk_ptr blk).
Proof.
  intros Hi Ht. destruct (inv_ok _ _ Hi _ _ Ht). unfold in_u. lia.
Qed.

(** Two tracked blocks do not cover the same address. *)
Lemma covers_unique h ot b1 blk1 b2 blk2 p : inv h ot ->
  tracked h ot b1 blk1 -> tracked h ot b2 blk2 ->
  covers (bk_ptr blk1) (bk_size blk1) p -> covers (bk_ptr blk2) (bk_size blk2) p ->
  b1 = b2 /\ blk1 = blk2.
Proof.
  intros Hi H1 H2 C1 C2. eapply tracked_base; eauto using inv_tree.
  pose proof (inv_disj _ _ Hi _ _ _ _ H1 H2). pose proof (inv_disj _ _ Hi _ _ _ _ H2 H1).
  unfold covers in *. lia.
Qed.

(** ** Search of a block *)

Lemma pred_leaf_some k t p a b : wf k t -> pred_leaf t p = Some (a, b) ->
  (a, b) ∈ leaves t /\ a <= p /\ (forall x y, (x, y) ∈ leaves t -> x <= p -> x <= a).
Proof.
  intros Hwf. revert a b.
  induction Hwf as [n a0 b' Ha|n a0 k kl kr l r Hk Ha Hl IHl Hr IHr Hkl Hkr El Er]; intros a b.
  - unfold pred_leaf. simpl. rewrite filter_cons. destruct (decide _) as [Hle|]; [|done].
    simpl in *. intros [= <- <-]. split_and!; [set_solver|done|].
    intros x y [= -> ->]%list_elem_of_singleton. done.
  - assert (wf k (Node n a0 (pmask W k) l r)) as Hwf by (by econstructor).
    rewrite pred_leaf_node. simpl. destruct (pred_leaf r p) as [[a1 b1]|] eqn:E1.
    + intros [= <- <-]. destruct (IHr a1 b1 eq_refl) as (H1 & H2 & H3).
      split_and!; [set_solver|done|]. intros x y [Hx|Hx]%elem_of_app Hle; [|eauto].
      pose proof (wf_left_lt_right _ _ _ _ _ _ _ _ _ _ Hwf Hx H1). lia.
    + intros E2. destruct (IHl a b E2) as (H1 & H2 & H3). split_and!; [set_solver|done|].
      intros x y [Hx|Hx]%elem_of_app Hle; [eauto|]. exfalso.
      unfold pred_leaf in E1. apply last_None in E1.
      eapply (not_elem_of_nil (x, y)). rewrite <- E1. apply list_elem_of_filter. done.
Qed.

Lemma pred_leaf_none_inv t p : pred_leaf t p = None -> forall x y, (x, y) ∈ leaves t -> p < x.
Proof.
  unfold pred_leaf. intros E%last_None x y Hx. destruct (Z.ltb_spec p x); [done|].
  exfalso. eapply (not_elem_of_nil (x, y)). rewrite <- E. by apply list_elem_of_filter.
Qed.

(** What a search answers: the tracked block that covers [p], or [NULL]. *)
Definition found (h : heap) (ot : option tree) (p r : Z) : Prop :=
  r = NULL /\ (forall b blk, tracked h ot b blk -> ~ covers (bk_ptr blk) (bk_size blk) p) \/
  r <> NULL /\ exists blk, tracked h ot r blk /\ covers (bk_ptr blk) (bk_size blk) p.

Lemma find_test h ot b blk p : inv h ot -> tracked h ot b blk -> bk_ptr blk <= p ->
  (p <? u64 (bk_size blk + bk_ptr blk)) || (bk_size blk =? 0) && (p =? bk_ptr blk) = true <->
  covers (bk_ptr blk) (bk_size blk) p.
Proof.
  intros Hi Ht Hle. destruct (inv_ok _ _ Hi _ _ Ht).
  rewrite u64_small by (unfold in_u; lia).
  rewrite orb_true_iff, andb_true_iff, Z.ltb_lt, !Z.eqb_eq. unfold covers. lia.
Qed.

Lemma bt_find_spec cfg h ot p : inv h ot -> in_u W p ->
  exists r, bt_find cfg h p = Ret r /\ found h ot p r.
Proof.
  intros Hi Hp. pose proof (inv_tree _ _ Hi) as Ht.
  destruct (Z.eq_dec p NULL) as [->|Hnn].
  { unfold bt_find. rewrite orb_true_r. exists NULL. split; [done|]. left. split; [done|].
    intros b blk Htr. destruct (inv_ok _ _ Hi _ _ Htr). unfold covers, NULL. lia. }
  rewrite (bt_find_tree cfg h ot p) by done.
  destruct ot as [t|]; [|exists NULL; split; [done|]; left; split; [done|]; intros ? ? [Hx _];
    simpl in Hx; set_solver].
  pose proof (tree_wf _ _ Ht) as [k Hwf].
  destruct (pred_leaf t p) as [[a b]|] eqn:Epl; cbn [find_answer].
  - destruct (pred_leaf_some k t p a b Hwf Epl) as (Hin & Hle & Hmax).
    destruct (tracked_leaf h (Some t) a b Ht Hin) as (blk & Htr & <- & Hbn).
    rewrite (load_block_eq h b blk) by (done || apply Htr). cbn [obind].
    pose proof (find_test h (Some t) b blk p Hi Htr Hle) as Htest.
    destruct (_ || _).
    + exists b. split; [done|]. right. split; [done|]. exists blk. split; [done|]. by apply Htest.
    + exists NULL. split; [done|]. left. split; [done|]. intros b' blk' Htr' Hc.
      assert (bk_ptr blk' <= bk_ptr blk) as Hle' by
        (apply (Hmax _ b'); [apply Htr'|unfold covers in Hc; lia]).
      destruct (Z.eq_dec (bk_ptr blk') (bk_ptr blk)) as [E|E].
      * destruct (tracked_base _ _ _ _ _ _ Ht Htr' Htr E) as [-> ->].
        apply Htest in Hc. done.
      * pose proof (inv_disj _ _ Hi _ _ _ _ Htr' Htr). unfold covers in Hc. lia.
  - exists NULL. split; [done|]. left. split; [done|]. intros b blk Htr Hc.
    pose proof (pred_leaf_none_inv _ _ Epl (bk_ptr blk) b (proj1 Htr)). unfold covers in Hc. lia.
Qed.

(** The lookup by base address; it is undefined on the empty tree. *)
Lemma bt_lookup_spec cfg h ot p : inv h ot -> in_u W p -> p <> NULL -> ot <> None ->
  exists r, bt_lookup cfg h p = Ret r /\
    (r = NULL /\ (forall b blk, tracked h ot b blk -> bk_ptr blk <> p) \/
     r <> NULL /\ exists blk, tracked h ot r blk /\ bk_ptr blk = p).
Proof.
  intros Hi Hp Hnn Hne. pose proof (inv_tree _ _ Hi) as Ht. destruct ot as [t|]; [|done].
  pose proof (tree_wf _ _ Ht) as [k Hwf].
  rewrite (bt_lookup_tree cfg h t p) by done. eexists. split; [done|].
  destruct (t_lookup t p) as [b|] eqn:E.
  - apply (t_lookup_spec k) in E; [|done..]. right.
    destruct (tracked_leaf h (Some t) p b Ht E) as (blk & Htr & Ep & Hn). eauto.
  - left. split; [done|]. intros b blk [Hin _] Ep. rewrite Ep in Hin.
    apply (t_lookup_spec k) in Hin; [|done..]. congruence.
Qed.

(** ** Queries *)

Section Queries.
Context `{PA : !PrivateAlloc} (cfg : config) (h : heap) (M : amem) (HM : models h M).

Lemma tracked_abs ot b blk : abs_rel h ot M -> tracked h ot b blk ->
  M !! bk_ptr blk = Some (abs_block (h_bufs h) blk).
Proof. intros Ha Ht. apply Ha. eauto. Qed.

Lemma contains_tracked ot p a ab : abs_rel h ot M -> contains M p a ab ->
  exists b blk, tracked h ot b blk /\ bk_ptr blk = a /\ ab = abs_block (h_bufs h) blk /\
    covers (bk_ptr blk) (bk_size blk) p.
Proof.
  intros Ha [E Hc]. apply Ha in E as (b & blk & Ht & <- & ->). by exists b, blk.
Qed.

(** An address belongs to at most one block. *)
Lemma contains_unique p a ab a' ab' :
  contains M p a ab -> contains M p a' ab' -> a = a' /\ ab = ab'.
Proof using HM.
  destruct HM as (ot & Hi & Ha). intros H1 H2.
  destruct (contains_tracked _ _ _ _ Ha H1) as (b1 & blk1 & T1 & <- & -> & C1).
  destruct (contains_tracked _ _ _ _ Ha H2) as (b2 & blk2 & T2 & <- & -> & C2).
  by destruct (covers_unique _ _ _ _ _ _ _ Hi T1 T2 C1 C2) as [-> ->].
Qed.

(** The search in terms of the abstract state. *)
Inductive find_result (p : Z) : Prop :=
| find_none : bt_find cfg h p = Ret NULL -> (forall a ab, ~ contains M p a ab) -> find_result p
| find_some r blk : bt_find cfg h p = Ret r -> r <> NULL -> load_block h r = Ret blk ->
    blk_ok (h_bufs h) blk -> contains M p (bk_ptr blk) (abs_block (h_bufs h) blk) ->
    find_result p.

Lemma find_models p : in_u W p -> find_result p.
Proof using HM.
  intros Hp. destruct HM as (ot & Hi & Ha).
  destruct (bt_find_spec cfg h ot p Hi Hp) as (r & E & [[-> Hno]|(Hr & blk & Htr & Hc)]).
  - left; [done|]. intros a ab Hin.
    destruct (contains_tracked _ _ _ _ Ha Hin) as (b & blk & Ht & _ & _ & Hc).
    by apply (Hno b blk).
  - eright; [exact E|done|by apply load_block_eq, Htr|by eapply inv_ok|].
    split; [by eapply tracked_abs|done].
Qed.

(** [lookup_allocated] answers the block in which the range is allocated. *)
Lemma lookup_allocated_models ptr size base :
  in_u W ptr -> in_u W base -> in_u W size ->
  (lookup_allocated cfg h ptr size base = Ret NULL /\
   forall a ab, ~ allocated_in cfg M ptr size base a ab) \/
  (exists r blk, lookup_allocated cfg h ptr size base = Ret r /\ r <> NULL /\
    load_block h r = Ret blk /\
    allocated_in cfg M ptr size base (bk_ptr blk) (abs_block (h_bufs h) blk)).
Proof using HM.
  intros Hp Hb Hs. unfold lookup_allocated.
  destruct (find_models ptr Hp) as [E Hno|r blk E Hr El Hok Hc]; rewrite E; cbn [obind].
  { left. split; [done|]. intros a ab [Hin _]. by eapply Hno. }
  rewrite eqb_false, El by done. cbn [obind].
  assert (u64 (bk_size blk - u64 (ptr - bk_ptr blk)) = bk_ptr blk + bk_size blk - ptr) as ->.
  { destruct Hc as [_ Hc], Hok. unfold covers, in_u in *. simpl in Hc.
    unfold u64. rewrite (Z.mod_small (ptr - _)) by lia. rewrite Z.mod_small; lia. }
  assert (forall weak : Prop, weak \/ contains M base (bk_ptr blk) (abs_block (h_bufs h) blk) ->
    (cfg_weak_validity cfg = false -> ~ weak) ->
    let answer := Ret (if size <=? bk_ptr blk + bk_size blk - ptr then r else NULL) in
    (answer = Ret NULL /\ (forall a ab, ~ allocated_in cfg M ptr size base a ab)) \/
    (exists r' blk', answer = Ret r' /\ r' <> NULL /\ load_block h r' = Ret blk' /\
      allocated_in cfg M ptr size base (bk_ptr blk') (abs_block (h_bufs h) blk'))) as Hans.
  { intros weak Hw Hnw. simpl. destruct (Z.leb_spec size (bk_ptr blk + bk_size blk - ptr)).
    - right. exists r, blk. split_and!; try done. split_and!; [done| |simpl; lia].
      intros Ew. destruct Hw; [by destruct (Hnw Ew)|done].
    - left. split; [done|]. intros a ab (Hc' & _ & Hle).
      destruct (contains_unique _ _ _ _ _ Hc Hc') as [<- <-]. simpl in Hle. lia. }
  destruct (cfg_weak_validity cfg) eqn:Ew; [by apply (Hans True); [left|]|].
  destruct (find_models base Hb) as [E' Hno|r' blk' E' Hr' El' Hok' Hc']; rewrite E'; cbn [obind].
  { left. split; [done|]. intros a ab (_ & Hin & _). by eapply Hno, Hin. }
  rewrite eqb_false, El' by done. cbn [obind].
  destruct (Z.eqb_spec (bk_ptr blk) (bk_ptr blk')) as [Eb|Eb]; cbn [negb].
  - apply (Hans False); [right|tauto]. destruct Hc' as [Hm Hc']. rewrite <- Eb in Hm, Hc'.
    split; [apply Hc|]. destruct Hc as [Hm' _].
    assert (abs_block (h_bufs h) blk' = abs_block (h_bufs h) blk) as <- by congruence. done.
  - left. split; [done|]. intros a ab (Hc1 & Hc2 & _). apply Eb.
    destruct (contains_unique _ _ _ _ _ Hc Hc1) as [-> _].
    by destruct (contains_unique _ _ _ _ _ Hc' (Hc2 Ew)) as [-> _].
Qed.

(** What [valid] and [valid_read] answer for a range that is allocated: the verdict
    of the temporal analysis, if it is on. *)
Definition temporal_verdict (base addrof : Z) : outcome Z :=
  if cfg_temporal cfg then
    let* t := temporal_valid (TM := bittree_temporal cfg) h base addrof in Ret (b2i (i2b t))
  else Ret 1.

Lemma valid_read_answer ptr size base addrof : in_u W ptr -> in_u W base -> in_u W size ->
  let P := exists a ab, allocated_in cfg M ptr size base a ab in
  (P /\ valid_read cfg h ptr size base addrof = temporal_verdict base addrof) \/
  (~ P /\ valid_read cfg h ptr size base addrof = Ret 0).
Proof using HM.
  intros Hp Hb Hs. unfold valid_read.
  destruct (lookup_allocated_models ptr size base Hp Hb Hs)
    as [[-> Hno]|(r & blk & -> & Hr & El & Ha)]; cbn [obind].
  - right. split; [|done]. intros (a & ab & Ha). by eapply Hno in Ha.
  - left. split; [eauto|]. by rewrite eqb_false.
Qed.

Lemma valid_answer ptr size base addrof : in_u W ptr -> in_u W base -> in_u W size ->
  let P := exists a ab, allocated_in cfg M ptr size base a ab /\ ab_readonly ab = false in
  (P /\ valid cfg h ptr size base addrof = temporal_verdict base addrof) \/
  (~ P /\ valid cfg h ptr size base addrof = Ret 0).
Proof using HM.
  intros Hp Hb Hs. unfold valid.
  destruct (lookup_allocated_models ptr size base Hp Hb Hs)
    as [[-> Hno]|(r & blk & -> & Hr & El & Ha)]; cbn [obind].
  - right. split; [|done]. intros (a & ab & Ha & _). by eapply Hno in Ha.
  - rewrite eqb_false, El by done. cbn [obind].
    destruct (i2b (bk_is_readonly blk)) eqn:Ero; [right; split; [|done]|left; split; eauto].
    intros (a & ab & (Hc & _) & Hro). destruct Ha as (Hc' & _).
    destruct (contains_unique _ _ _ _ _ Hc' Hc) as [_ <-]. simpl in Hro. congruence.
Qed.

(** Without temporal analysis the answer is 1 or 0. *)
Lemma verdict_01 (P : Prop) o base addrof : cfg_temporal cfg = false ->
  (P /\ o = temporal_verdict base addrof) \/ (~ P /\ o = Ret 0) ->
  exists r, o = Ret r /\ (r = 0 \/ r = 1) /\ (r = 1 <-> P).
Proof.
  intros Et. unfold temporal_verdict. rewrite Et.
  intros [[HP ->]|[HP ->]]; [exists 1|exists 0]; split_and!; by auto.
Qed.

Lemma valid_read_models ptr size base addrof :
  cfg_temporal cfg = false -> in_u W ptr -> in_u W base -> in_u W size ->
  exists r, valid_read cfg h ptr size base addrof = Ret r /\ (r = 0 \/ r = 1) /\
    (r = 1 <-> exists a ab, allocated_in cfg M ptr size base a ab).
Proof using HM. intros Et Hp Hb Hs. by eapply verdict_01, valid_read_answer. Qed.

Lemma valid_models ptr size base addrof :
  cfg_temporal cfg = false -> in_u W ptr -> in_u W base -> in_u W size ->
  exists r, valid cfg h ptr size base addrof = Ret r /\ (r = 0 \/ r = 1) /\
    (r = 1 <-> exists a ab, allocated_in cfg M ptr size base a ab /\ ab_readonly ab = false).
Proof using HM. intros Et Hp Hb Hs. by eapply verdict_01, valid_answer. Qed.

(** The observers of the block that contains an address: the answer when there
    is one, the end of the program otherwise. *)
Definition block_query (p : Z) (q : outcome Z) (v : Z -> ablock -> Z) : Prop :=
  (forall a ab, contains M p a ab -> q = Ret (v a ab)) /\
  ((forall a ab, ~ contains M p a ab) -> q = Abort).

Lemma block_query_intro p (f : bt_block -> Z) v q : in_u W p ->
  q = (let* b := bt_find cfg h p in
       let* _ := vassert (negb (b =? NULL)) in
       let* blk := load_block h b in Ret (f blk)) ->
  (forall blk, blk_ok (h_bufs h) blk -> covers (bk_ptr blk) (bk_size blk) p ->
     f blk = v (bk_ptr blk) (abs_block (h_bufs h) blk)) ->
  block_query p q v.
Proof using HM.
  intros Hp -> Hf. destruct (find_models p Hp) as [-> Hno|r blk -> Hr El Hok Hc]; cbn [obind].
  - split; [intros a ab Hc; by apply Hno in Hc|done].
  - rewrite neqb_true by done. cbn [vassert obind]. rewrite El. cbn [obind]. split.
    + intros a ab Hc'. destruct (contains_unique _ _ _ _ _ Hc Hc') as [<- <-].
      rewrite Hf; [done|done|apply Hc].
    + intros Hno. by apply Hno in Hc.
Qed.

Lemma base_addr_models p : in_u W p -> block_query p (base_addr cfg h p) (fun a _ => a).
Proof using HM. intros Hp. by apply (block_query_intro p bk_ptr). Qed.

Lemma block_length_models p : in_u W p ->
  block_query p (block_length cfg h p) (fun _ ab => ab_size ab).
Proof using HM. intros Hp. by apply (block_query_intro p bk_size). Qed.

Lemma offset_models p : in_u W p -> block_query p (offset cfg h p) (fun a _ => p - a).
Proof using HM.
  intros Hp. apply (block_query_intro p (fun blk => u64 (p - bk_ptr blk))); [done|done|].
  intros blk [] Hc. apply u64_small. unfold covers, in_u in *. lia.
Qed.

(** [freeable], on a tree that is not empty. *)
Lemma freeable_models p : M <> ∅ -> in_u W p ->
  exists r, freeable cfg h p = Ret r /\
    (i2b r = true <-> exists ab, M !! p = Some ab /\ ab_freeable ab = true).
Proof using HM.
  intros Hne Hp. destruct HM as (ot & Hi & Ha). unfold freeable.
  destruct (Z.eqb_spec p NULL) as [->|Hnn].
  { exists 0. split; [done|]. split; [done|]. intros (ab & E & _).
    apply Ha in E as (b & blk & Ht & Eb & _). destruct (inv_ok _ _ Hi _ _ Ht).
    unfold NULL in *. lia. }
  assert (ot <> None) as Hot.
  { intros ->. apply Hne, map_empty. intros a. destruct (M !! a) as [ab|] eqn:E; [|done].
    apply Ha in E as (b & blk & [Hin _] & _). simpl in Hin. set_solver. }
  destruct (bt_lookup_spec cfg h ot p Hi Hp Hnn Hot) as (r & -> & [[-> Hno]|(Hr & blk & Ht & <-)]);
    cbn [obind].
  - exists 0. split; [done|]. split; [done|]. intros (ab & E & _).
    apply Ha in E as (b & blk & Ht & Eb & _). by destruct (Hno b blk Ht).
  - rewrite eqb_false by done. rewrite (load_block_eq h r blk) by (done || apply Ht). cbn [obind].
    eexists. split; [done|]. rewrite (tracked_abs ot r blk Ha Ht). split.
    + intros E. eexists. split; [done|]. exact E.
    + intros (ab & [= <-] & E). exact E.
Qed.

(** ** Initialization *)

Lemma elem_bits_set buf sz i : i ∈ bits_set buf sz <-> 0 <= i < sz /\ mbit buf 0 i = true.
Proof. unfold bits_set. rewrite elem_of_list_to_set, list_elem_of_filter, elem_of_seqZ. naive_solver lia. Qed.


Lemma needed_bytes_bound sz i : 0 <= i < sz -> 0 <= i / 8 < needed_bytes sz.
Proof. unfold needed_bytes. intros. destruct (Z.eqb_spec (sz mod 8) 0); dlia. Qed.

Lemma checkbit_testbit b i : 0 <= i -> i2b (checkbit i b) = Z.testbit b i.
Proof.
  intros Hi. unfold checkbit, i2b. change 1 with (Z.ones 1). rewrite Z.land_ones by lia.
  change (2 ^ 1) with 2. rewrite <- Z.bit0_mod, Z.shiftr_spec by lia.
  replace (0 + i) with i by lia. by destruct (Z.testbit b i).
Qed.

(** The byte and the bit of an offset, as the code computes them. *)
Lemma offset_byte buf sz o : buf_ok buf sz -> 0 <= o < sz -> sz < max_size ->
  exists b, load8 buf (s32 (o / 8)) = Ret b /\ s32 (o / 8) = o / 8 /\ in_u 8 b /\
    i2b (checkbit (o mod 8) b) = mbit buf 0 o.
Proof.
  intros (Hm & Hdom & _) Ho Hsz. pose proof (needed_bytes_bound sz o Ho).
  assert (s32 (o / 8) = o / 8) as Es.
  { apply s32_small. unfold max_size in Hsz. dlia. }
  destruct (proj2 (Hdom (o / 8))) as [b Eb]; [done|].
  exists b. rewrite Es. unfold load8, mbit. replace (0 + o / 8) with (o / 8) by lia.
  rewrite Eb. split_and!; [done|done|by eapply (Hm (o / 8))|]. apply checkbit_testbit. dlia.
Qed.

Lemma u32_next i size : 0 <= i < size -> size < 2 ^ 32 -> u32 (i + 1) = i + 1.
Proof. intros. apply u32_small. unfold in_u. lia. Qed.

Lemma initialized_loop_spec fuel buf base ptr size sz i :
  buf_ok buf sz -> sz < max_size -> in_u W base -> base <= ptr -> 0 <= i <= size ->
  size < 2 ^ 32 -> ptr - base + size <= sz -> size - i <= Z.of_nat fuel ->
  exists r, initialized_loop fuel buf base ptr size i = Ret r /\ (r = 0 \/ r = 1) /\
    (r = 1 <-> forall j, i <= j < size -> mbit buf 0 (ptr - base + j) = true).
Proof.
  intros Hb Hsz Hu Hle. revert i. induction fuel as [|fuel IH]; intros i Hi Hs Hr Hf;
    cbn [initialized_loop]; (destruct (Z.ltb_spec i size); [|
      eexists; split_and!; [done|auto|split; [intros _ j Hj; lia|done]]]); [lia|].
  unfold max_size, in_u in *.
  assert (u64 (u64 (ptr - base) + i) = ptr - base + i) as ->.
  { unfold u64. rewrite (Z.mod_small (ptr - base)) by lia. apply Z.mod_small. lia. }
  destruct (offset_byte buf sz (ptr - base + i)) as (b & -> & _ & _ & Ec); [done|lia|done|].
  cbn [obind]. rewrite Ec. destruct (mbit buf 0 (ptr - base + i)) eqn:Eb; cbn [negb].
  - rewrite (u32_next i size) by lia.
    destruct (IH (i + 1)) as (r & -> & H01 & Hiff); [lia..|]. exists r. split_and!; [done..|].
    rewrite Hiff. split; intros Hall j Hj; [|apply Hall; lia].
    destruct (Z.eq_dec j i) as [->|]; [done|apply Hall; lia].
  - eexists. split_and!; [done|auto|]. split; [done|]. intros Hall. rewrite Hall in Eb; [done|lia].
Qed.

(** [initialized(ptr, size)] on a range inside its block. *)
Lemma initialized_models p sz a ab :
  contains M p a ab -> in_u W p -> 0 < sz < 2 ^ 32 -> p + sz <= a + ab_size ab ->
  exists r, initialized cfg h p sz = Ret r /\ (r = 0 \/ r = 1) /\
    (r = 1 <-> forall i, p - a <= i < p - a + sz -> i ∈ ab_init ab).
Proof using HM.
  intros Hc Hp Hs Hr. unfold initialized.
  destruct (find_models p Hp) as [_ Hno|r blk -> Hnn El Hok Hc']; [by apply Hno in Hc|].
  destruct (contains_unique _ _ _ _ _ Hc Hc') as [-> ->]. cbn [obind].
  rewrite eqb_false, El by done. cbn [obind abs_block ab_init ab_size] in *. destruct Hc' as [_ Hcov].
  cbn [abs_block ab_size] in Hcov. unfold init_set.
  destruct (Z.eqb_spec (bk_init_bytes blk) 0) as [E0|E0].
  { exists 0. split_and!; [done|auto|]. split; [done|]. intros Hall.
    specialize (Hall (p - bk_ptr blk)). set_solver by lia. }
  destruct (Z.eqb_spec (bk_init_bytes blk) (bk_size blk)) as [E1|E1].
  { exists 1. split_and!; [done|auto|]. split; [|done]. intros _ i Hi.
    apply elem_all_offsets. unfold covers in Hcov. lia. }
  destruct Hok as [? ? ? Hbuf ? Hpart _ _]. rewrite (proj2 (Z.ltb_lt 0 sz)) by lia.
  destruct Hbuf as (buf & Ebuf & Hbok); [apply Hpart; lia|].
  unfold load_buf. rewrite eqb_false, Ebuf by (apply Hpart; lia). cbn [deref obind].
  destruct (initialized_loop_spec (Z.to_nat sz) buf (bk_ptr blk) p sz (bk_size blk) 0)
    as (r' & -> & H01 & Hiff); [done|lia|unfold in_u; lia|unfold covers in Hcov; lia|lia..|].
  exists r'. split_and!; [done|done|]. rewrite Hiff. split; intros Hall.
  - intros i Hi. apply elem_bits_set. unfold covers in Hcov. split; [lia|].
    replace i with (p - bk_ptr blk + (i - (p - bk_ptr blk))) by lia. apply Hall. lia.
  - intros j Hj. specialize (Hall (p - bk_ptr blk + j)). rewrite elem_bits_set in Hall.
    apply Hall. lia.
Qed.
End Queries.
