(* ===== verification/BtRefine.v ===== *)
(** * The operations of the trie model refine the abstract ones

    Every operation of [BtModel] that changes the state takes a private heap
    that represents [M] to one that represents the updated [M]. *)

From S2P Require Import Prelude AMem Alloc Temporal Bits Mask Trie Bittree BittreeRep BtModel BtSpec.

(** ** Update of one block *)

(** The buffers of the other blocks are the same in [bufs']. *)
Definition frames (h : heap) (ot : option tree) (b : Z) (bufs' : gmap Z mem) : Prop :=
  forall b2 blk2 q, tracked h ot b2 blk2 -> b2 <> b -> owns blk2 q -> bufs' !! q = h_bufs h !! q.

Section Update.
Context (h : heap) (ot : option tree) (b : Z) (blk blk' : bt_block) (bufs' : gmap Z mem).
Context (Hi : inv h ot) (Ht : tracked h ot b blk).

Definition updated : heap :=
  mk_heap (h_nodes h) (<[b := blk']> (h_blocks h)) bufs' (bt_root h).

Context (Eptr : bk_ptr blk' = bk_ptr blk).

Lemma updated_tree : tree_inv updated ot.
Proof using Hi Ht Eptr.
  pose proof (inv_tree _ _ Hi) as Htree. destruct ot as [t|]; [|exact Htree].
  destruct Htree as (? & ? & ? & ? & ? & Hb). split_and!; try done.
  intros x y Hxy. destruct (Hb x y Hxy) as (Hn & blk0 & E & Ep). split; [done|]. cbn.
  destruct (Z.eq_dec y b) as [->|Hne].
  - rewrite lookup_insert_eq. eexists. split; [done|]. destruct Ht as [_ E']. congruence.
  - rewrite lookup_insert_ne by done. eauto.
Qed.

Lemma updated_tracked b2 blk2 : tracked updated ot b2 blk2 <->
  b2 = b /\ blk2 = blk' \/ b2 <> b /\ tracked h ot b2 blk2.
Proof using Ht Eptr.
  unfold tracked, updated. cbn. destruct (Z.eq_dec b2 b) as [->|Hne].
  - rewrite lookup_insert_eq. split.
    + intros [_ [= <-]]. auto.
    + intros [[_ ->]|[? _]]; [|done]. rewrite Eptr. split; [apply Ht|done].
  - rewrite lookup_insert_ne by done. naive_solver.
Qed.

Context (Hok : blk_ok bufs' blk').
Context (Hdisj : forall b2 blk2, tracked h ot b2 blk2 -> bk_ptr blk < bk_ptr blk2 ->
  bk_ptr blk + bk_size blk' <= bk_ptr blk2).
Context (Hown : own_ok bufs' blk').
Context (Hframe : frames h ot b bufs').
Context (Hfresh : forall q, owns blk' q -> owns blk q \/ q ∉ dom (h_bufs h)).

Lemma frame_init_set blk2 : blk_ok (h_bufs h) blk2 ->
  (forall q, owns blk2 q -> bufs' !! q = h_bufs h !! q) ->
  init_set bufs' blk2 = init_set (h_bufs h) blk2.
Proof.
  intros H2 Hf. pose proof (ok_bytes _ _ H2). pose proof (ok_partial _ _ H2) as Hp.
  unfold init_set.
  destruct (Z.eqb_spec (bk_init_bytes blk2) 0), (Z.eqb_spec (bk_init_bytes blk2) (bk_size blk2));
    try done. rewrite Hf; [done|]. split; [apply Hp; lia|auto].
Qed.

Lemma frame_blk_ok blk2 : blk_ok (h_bufs h) blk2 ->
  (forall q, owns blk2 q -> bufs' !! q = h_bufs h !! q) ->
  blk_ok bufs' blk2.
Proof.
  intros H2 Hf. pose proof (frame_init_set _ H2 Hf) as Es. destruct H2. constructor; try done.
  - intros Hn. rewrite Hf by (split; auto). auto.
  - by rewrite Es.
Qed.

Lemma frame_own_ok blk2 : own_ok (h_bufs h) blk2 ->
  (forall q, owns blk2 q -> bufs' !! q = h_bufs h !! q) -> own_ok bufs' blk2.
Proof. intros [] Hf. constructor; [|done]. intros q Hq. rewrite Hf by done. auto. Qed.

Lemma updated_inv : inv updated ot.
Proof using All.
  constructor.
  - exact updated_tree.
  - intros b2 blk2 [[-> ->]|[Hne H2]]%updated_tracked; [done|]. cbn.
    apply frame_blk_ok; [by eapply inv_ok|]. intros q Hq. by eapply Hframe.
  - intros b1 k1 b2 k2 [[-> ->]|[N1 H1]]%updated_tracked [[-> ->]|[N2 H2]]%updated_tracked;
      rewrite ?Eptr; [lia|eauto| |]; eapply inv_disj; eauto.
  - intros b2 blk2 [[-> ->]|[Hne H2]]%updated_tracked; [done|]. cbn.
    apply frame_own_ok; [by eapply inv_own|]. intros q Hq. by eapply Hframe.
  - assert (forall b2 blk2 q, b2 <> b -> tracked h ot b2 blk2 -> owns blk' q -> ~ owns blk2 q) as Haux.
    { intros b2 blk2 q Hne H2 Hq Hq2. destruct (Hfresh q Hq) as [Hq'|Hf].
      - exact (inv_bufs _ _ Hi b blk b2 blk2 q Ht H2 (not_eq_sym Hne) Hq' Hq2).
      - by apply Hf, elem_of_dom, (own_alloc _ _ (inv_own _ _ Hi _ _ H2)). }
    intros b1 k1 b2 k2 q [[-> ->]|[N1 H1]]%updated_tracked [[-> ->]|[N2 H2]]%updated_tracked Hne Hq.
    + done.
    + exact (Haux _ _ _ N2 H2 Hq).
    + intros Hq'. exact (Haux _ _ _ N1 H1 Hq' Hq).
    + exact (inv_bufs _ _ Hi _ _ _ _ _ H1 H2 Hne Hq).
Qed.

Lemma updated_abs M : abs_rel h ot M ->
  abs_rel updated ot (<[bk_ptr blk := abs_block bufs' blk']> M).
Proof using All.
  intros Ha a ab. rewrite lookup_insert_Some. split.
  - intros [[<- <-]|[Hne E]].
    + exists b, blk'. split_and!; [|done|done]. apply updated_tracked. auto.
    + apply Ha in E as (b2 & blk2 & H2 & <- & ->). exists b2, blk2.
      assert (b2 <> b) by (intros ->; apply Hne; f_equal; eapply tracked_fun; eauto).
      split_and!; [apply updated_tracked; auto|done|]. unfold abs_block. f_equal. symmetry.
      apply frame_init_set; [by eapply inv_ok|]. intros q Hq. by eapply Hframe.
  - intros (b2 & blk2 & [[-> ->]|[Hne H2]]%updated_tracked & <- & ->); [auto|]. right.
    split.
    + intros E. apply Hne. eapply tracked_base; eauto using inv_tree.
    + apply Ha. exists b2, blk2. split_and!; [done|done|]. unfold abs_block. f_equal.
      apply frame_init_set; [by eapply inv_ok|]. intros q Hq. by eapply Hframe.
Qed.
End Update.

(** The block found by a search, with the invariant. *)
Record at_block (h : heap) (M : amem) (ot : option tree) (b : Z) (blk : bt_block) : Prop := {
  at_inv : inv h ot;
  at_abs : abs_rel h ot M;
  at_tracked : tracked h ot b blk;
  at_nonnull : b <> NULL
}.

Lemma at_load h M ot b blk : at_block h M ot b blk -> load_block h b = Ret blk.
Proof. intros [_ _ [_ E] Hn]. by apply load_block_eq. Qed.

Lemma at_store h M ot b blk blk' : at_block h M ot b blk ->
  store_block_at h b blk' = Ret (mk_heap (h_nodes h) (<[b := blk']> (h_blocks h)) (h_bufs h) (bt_root h)).
Proof.
  intros [_ _ [_ E] Hn]. unfold store_block_at. by rewrite eqb_false, E.
Qed.

Lemma at_ok h M ot b blk : at_block h M ot b blk -> blk_ok (h_bufs h) blk.
Proof. intros [Hi _ Ht _]. by eapply inv_ok. Qed.

Lemma at_disj h M ot b blk : at_block h M ot b blk -> forall b2 blk2, tracked h ot b2 blk2 ->
  bk_ptr blk < bk_ptr blk2 -> bk_ptr blk + bk_size blk <= bk_ptr blk2.
Proof. intros [Hi _ Ht _] b2 blk2 H2. eapply inv_disj; eauto. Qed.

(** The change of the buffers that an update of a block may come with. *)
Record buf_update (h : heap) (ot : option tree) (b : Z) (blk blk' : bt_block)
  (bufs' : gmap Z mem) : Prop := mk_buf_update {
  bu_own : own_ok bufs' blk';
  bu_frames : frames h ot b bufs';
  bu_fresh : forall q, owns blk' q -> owns blk q \/ q ∉ dom (h_bufs h)
}.

(** Any change of the contents of a buffer of the block, which still owns it. *)
Lemma frames_own h M ot b blk p f : at_block h M ot b blk -> p <> NULL ->
  bk_init_ptr blk = p \/ bk_temporal_shadow blk = p ->
  frames h ot b (partial_alter f p (h_bufs h)).
Proof.
  intros [Hi _ Ht _] Hp Ho b2 blk2 q H2 Hne Hq. apply lookup_partial_alter_ne. intros <-.
  by apply (inv_bufs _ _ Hi b blk b2 blk2 p Ht H2 (not_eq_sym Hne)).
Qed.

Lemma frames_fresh h ot b q v : inv h ot -> q ∉ dom (h_bufs h) ->
  frames h ot b (<[q := v]> (h_bufs h)).
Proof.
  intros Hi Hq b2 blk2 q2 H2 _ Ho. apply lookup_insert_ne. intros <-.
  by apply Hq, elem_of_dom, (own_alloc _ _ (inv_own _ _ Hi _ _ H2)).
Qed.

Lemma at_own h M ot b blk : at_block h M ot b blk -> own_ok (h_bufs h) blk.
Proof. intros [Hi _ Ht _]. by eapply inv_own. Qed.

(** The block keeps its buffers, also when one of them is written. *)
Lemma buf_update_write h M ot b blk blk' p f : at_block h M ot b blk ->
  bk_init_ptr blk' = bk_init_ptr blk -> bk_temporal_shadow blk' = bk_temporal_shadow blk ->
  (p <> NULL -> bk_init_ptr blk = p \/ bk_temporal_shadow blk = p) ->
  (p = NULL -> partial_alter f p (h_bufs h) = h_bufs h) ->
  (p <> NULL -> is_Some (f (h_bufs h !! p))) ->
  buf_update h ot b blk blk' (partial_alter f p (h_bufs h)).
Proof.
  intros Hat E1 E2 Ho Hnull Hf. pose proof (at_own _ _ _ _ _ Hat) as [Ha Hd].
  assert (forall q, owns blk' q <-> owns blk q) as Hiff by (unfold owns; by rewrite E1, E2).
  constructor; [constructor|..].
  - intros q Hq%Hiff. destruct (decide (p = NULL)) as [En|En]; [rewrite Hnull by done; auto|].
    destruct (decide (q = p)) as [->|Hne];
      [rewrite lookup_partial_alter_eq; auto|rewrite lookup_partial_alter_ne by done; auto].
  - by rewrite E1, E2.
  - destruct (decide (p = NULL)) as [En|En]; [by rewrite Hnull|]. eapply frames_own; eauto.
  - intros q Hq%Hiff. auto.
Qed.

Lemma buf_update_same h M ot b blk blk' : at_block h M ot b blk ->
  bk_init_ptr blk' = bk_init_ptr blk -> bk_temporal_shadow blk' = bk_temporal_shadow blk ->
  buf_update h ot b blk blk' (h_bufs h).
Proof.
  intros Hat E1 E2. pose proof (at_own _ _ _ _ _ Hat) as [Ha Hd].
  constructor; [constructor| |]; unfold owns in *; rewrite ?E1, ?E2; [done..| |]; auto. done.
Qed.

(** The initialization buffer is freed. *)
Lemma buf_update_drop h M ot b blk blk' : at_block h M ot b blk -> bk_init_ptr blk <> NULL ->
  bk_init_ptr blk' = NULL -> bk_temporal_shadow blk' = bk_temporal_shadow blk ->
  buf_update h ot b blk blk' (delete (bk_init_ptr blk) (h_bufs h)).
Proof.
  intros Hat Hn E1 E2. pose proof (at_own _ _ _ _ _ Hat) as [Ha Hd].
  assert (forall q, owns blk' q -> owns blk q /\ q <> bk_init_ptr blk) as Hiff.
  { intros q [Hq [<-|Eq]]; [done|]. rewrite E2 in Eq. subst q. unfold owns. split; [auto|].
    intros E. by apply Hd. }
  constructor; [constructor|..].
  - intros q [Hq Hne]%Hiff. rewrite lookup_delete_ne by done. auto.
  - by rewrite E1.
  - eapply frames_own; eauto.
  - intros q [Hq _]%Hiff. auto.
Qed.

(** One buffer of the block is replaced by a new one. *)
Lemma buf_update_fresh h M ot b blk blk' q v : at_block h M ot b blk -> q ∉ dom (h_bufs h) ->
  (bk_init_ptr blk' = q /\ bk_temporal_shadow blk' = bk_temporal_shadow blk \/
   bk_init_ptr blk' = bk_init_ptr blk /\ bk_temporal_shadow blk' = q) ->
  buf_update h ot b blk blk' (<[q := v]> (h_bufs h)).
Proof.
  intros Hat Hq Hc. pose proof (at_own _ _ _ _ _ Hat) as [Ha Hd].
  assert (forall x, owns blk x -> x <> q) as Hne.
  { intros x Hx ->. by apply Hq, elem_of_dom, Ha. }
  assert (forall x, owns blk' x -> owns blk x \/ x = q) as Hiff.
  { unfold owns. intros x [Hx Hx']. destruct Hc as [[E1 E2]|[E1 E2]]; rewrite E1, E2 in Hx';
      destruct Hx'; auto. }
  constructor; [constructor|..].
  - intros x [Hx| ->]%Hiff; [|rewrite lookup_insert_eq; eauto].
    rewrite lookup_insert_ne by (intros <-; by apply (Hne q)). auto.
  - intros Hn E. destruct Hc as [[E1 E2]|[E1 E2]]; rewrite E1, E2 in E; rewrite E1 in Hn.
    + apply (Hne q); [|done]. split; [done|auto].
    + apply (Hne q); [|done]. rewrite <- E. split; [done|auto].
  - apply frames_fresh; [by destruct Hat|done].
  - intros x [Hx| ->]%Hiff; auto.
Qed.

(** A tracked block is changed, and its buffers at most. *)
Lemma at_update h M ot b blk blk' bufs' :
  at_block h M ot b blk -> bk_ptr blk' = bk_ptr blk -> blk_ok bufs' blk' ->
  bk_size blk' = bk_size blk -> buf_update h ot b blk blk' bufs' ->
  at_block (updated h b blk' bufs') (<[bk_ptr blk := abs_block bufs' blk']> M) ot b blk'.
Proof.
  intros Hat Ep Hok Es [Hown Hf Hfr]. pose proof (at_disj _ _ _ _ _ Hat) as Hd. destruct Hat as [Hi Ha Ht Hn].
  split; [eapply updated_inv|eapply updated_abs| |]; eauto.
  - intros. rewrite Es. eauto.
  - intros. rewrite Es. eauto.
  - eapply updated_tracked; eauto.
Qed.

Lemma at_models h M ot b blk : at_block h M ot b blk -> models h M.
Proof. intros [Hi Ha _ _]. by exists ot. Qed.

Lemma lookup_at cfg h M p ab : models h M -> M !! p = Some ab ->
  exists ot b blk, bt_lookup cfg h p = Ret b /\ at_block h M ot b blk /\ bk_ptr blk = p /\
    ab = abs_block (h_bufs h) blk.
Proof.
  intros (ot & Hi & Ha) E. pose proof E as (b & blk & Ht & Ep & Eab)%Ha.
  pose proof (tracked_in_u _ _ _ _ Hi Ht) as Hu. rewrite Ep in Hu.
  pose proof (ok_base _ _ (inv_ok _ _ Hi _ _ Ht)) as Hpos. rewrite Ep in Hpos.
  destruct (bt_lookup_spec cfg h ot p Hi Hu) as (r & -> & [[-> Hno]|(Hr & blk' & Ht' & Ep')]).
  - unfold NULL. lia.
  - intros ->. destruct Ht as [Hin _]. simpl in Hin. set_solver.
  - by destruct (Hno b blk Ht).
  - exists ot, r, blk'. assert (blk' = blk) as ->.
    { eapply (tracked_base h ot); eauto using inv_tree. congruence. }
    done.
Qed.

Lemma lookup_absent cfg h M p : models h M -> M <> ∅ -> in_u W p -> p <> NULL -> M !! p = None ->
  bt_lookup cfg h p = Ret NULL.
Proof.
  intros (ot & Hi & Ha) Hne Hu Hn E.
  destruct (bt_lookup_spec cfg h ot p Hi Hu Hn) as (r & -> & [[-> _]|(Hr & blk & Ht & Ep)]); [|done|].
  - intros ->. apply Hne, map_empty. intros a. destruct (M !! a) as [ab|] eqn:E'; [|done].
    apply Ha in E' as (b & blk & [Hin _] & _). simpl in Hin. set_solver.
  - exfalso. assert (is_Some (M !! p)) as [? ?]; [|congruence]. eexists. apply Ha. eauto.
Qed.

Lemma find_at cfg h M p a ab : models h M -> in_u W p -> contains M p a ab ->
  exists ot b blk, bt_find cfg h p = Ret b /\ at_block h M ot b blk /\ bk_ptr blk = a /\
    ab = abs_block (h_bufs h) blk /\ covers (bk_ptr blk) (bk_size blk) p.
Proof.
  intros (ot & Hi & Ha) Hu Hc.
  destruct (contains_tracked h M ot p a ab Ha Hc) as (b & blk & Ht & Ep & Eab & Hcov).
  destruct (bt_find_spec cfg h ot p Hi Hu) as (r & -> & [[-> Hno]|(Hr & blk' & Ht' & Hcov')]).
  - by destruct (Hno b blk Ht).
  - destruct (covers_unique _ _ _ _ _ _ _ Hi Ht Ht' Hcov Hcov') as [-> ->].
    exists ot, r, blk'. done.
Qed.

(** ** Flags *)

Section Flags.
Context `{PA : !PrivateAlloc} (cfg : config) (h : heap) (M : amem) (HM : models h M).

Lemma blk_ok_same bufs blk blk' : blk_ok bufs blk ->
  bk_ptr blk' = bk_ptr blk -> bk_size blk' = bk_size blk ->
  bk_init_ptr blk' = bk_init_ptr blk -> bk_init_bytes blk' = bk_init_bytes blk ->
  blk_ok bufs blk' /\ init_set bufs blk' = init_set bufs blk.
Proof.
  intros H E1 E2 E3 E4. assert (init_set bufs blk' = init_set bufs blk) as Es
    by (unfold init_set; by rewrite E2, E3, E4).
  split; [|done]. destruct H. constructor; rewrite ?E1, ?E2, ?E3, ?E4, ?Es; auto.
Qed.

Lemma mark_readonly_refines p ab : M !! p = Some ab ->
  exists h', mark_readonly cfg h p = Ret h' /\
    models h' (<[p := mk_ablock (ab_size ab) (ab_init ab) true (ab_freeable ab)]> M).
Proof using HM.
  intros E. unfold mark_readonly.
  destruct (lookup_at cfg h M p ab HM E) as (ot & b & blk & Eb & Hat & Ep & ->).
  pose proof (ok_base _ _ (at_ok _ _ _ _ _ Hat)).
  rewrite eqb_false, Eb by (unfold NULL; lia). cbn [obind].
  rewrite eqb_false by (by eapply at_nonnull). rewrite (at_load _ _ _ _ _ Hat). cbn [obind].
  rewrite (at_store _ _ _ _ _ _ Hat). eexists. split; [done|].
  destruct (blk_ok_same _ _ (set_readonly blk 1) (at_ok _ _ _ _ _ Hat)) as [Hok Es]; [done..|].
  pose proof (at_update h M ot b blk (set_readonly blk 1) (h_bufs h) Hat) as Hup.
  eapply at_models. subst p. replace (mk_ablock _ _ _ _) with
    (abs_block (h_bufs h) (set_readonly blk 1)) by (unfold abs_block; by rewrite Es).
  apply Hup; eauto using buf_update_same.
Qed.
End Flags.

(** ** Initialization *)

Lemma size_all_offsets sz : 0 <= sz -> Z.of_nat (size (all_offsets sz)) = sz.
Proof.
  intros Hs. unfold all_offsets. rewrite size_list_to_set by apply NoDup_seqZ.
  rewrite length_seqZ. lia.
Qed.

Lemma init_set_full bufs blk : 0 <= bk_size blk -> bk_init_bytes blk = bk_size blk ->
  init_set bufs blk = all_offsets (bk_size blk).
Proof.
  intros Hs E. unfold init_set. rewrite E, Z.eqb_refl.
  destruct (Z.eqb_spec (bk_size blk) 0) as [->|]; [|done]. symmetry. apply set_eq. intros i.
  rewrite elem_all_offsets. set_solver by lia.
Qed.

(** A fully initialized block without a buffer. *)
Lemma blk_ok_full bufs bufs' blk : blk_ok bufs blk ->
  blk_ok bufs' (set_init blk NULL (bk_size blk)) /\
  init_set bufs' (set_init blk NULL (bk_size blk)) = all_offsets (bk_size blk).
Proof.
  intros [].
  assert (init_set bufs' (set_init blk NULL (bk_size blk)) = all_offsets (bk_size blk)) as E
    by (rewrite init_set_full; simpl; done || lia).
  split; [|done]. constructor; simpl; try done; try lia. rewrite E. apply size_all_offsets. lia.
Qed.

Lemma setbit_testbit b i j : 0 <= i < 8 -> 0 <= j < 8 ->
  Z.testbit (u8 (setbit 8 i b)) j = (i =? j) || Z.testbit b j.
Proof.
  intros Hi Hj. rewrite testbit_u8 by done. unfold setbit.
  rewrite Z.mod_pow2_bits_low, Z.lor_spec, Z.shiftl_spec by lia. rewrite orb_comm. f_equal.
  destruct (Z.eqb_spec i j) as [->|Hne].
  - by rewrite Z.sub_diag.
  - destruct (Z.ltb_spec j i); [rewrite Z.testbit_neg_r by lia; done|].
    apply (testbit_in_u 1); [unfold in_u; lia|lia].
Qed.

(** Setting the bit of an offset. *)
Lemma set_offset buf sz o : buf_ok buf sz -> 0 <= o < sz ->
  exists b, buf !! (o / 8) = Some b /\
  let buf' := <[o / 8 := u8 (setbit 8 (o mod 8) b)]> buf in
  buf_ok buf' sz /\ bits_set buf' sz = {[o]} ∪ bits_set buf sz.
Proof.
  intros (Hm & Hd & Hz) Ho. pose proof (needed_bytes_bound sz o Ho) as Hn.
  destruct (proj2 (Hd (o / 8)) Hn) as [b Eb]. exists b. split; [done|].
  set (v := u8 (setbit 8 (o mod 8) b)). intros buf'.
  assert (forall i, mbit buf' 0 i = bool_decide (i = o) || mbit buf 0 i) as Hbit.
  { intros i. unfold buf'. rewrite mbit_insert. destruct (decide (o / 8 = 0 + i / 8)) as [E|E].
    - unfold v. rewrite setbit_testbit by dlia. unfold mbit.
      replace (0 + i / 8) with (o / 8) by lia. rewrite Eb. f_equal.
      destruct (Z.eqb_spec (o mod 8) (i mod 8)); case_bool_decide; subst; try done; dlia.
    - case_bool_decide; [subst; lia|done]. }
  split.
  - split_and!.
    + apply mem_ok_insert; [done|apply u8_range].
    + intros i. unfold buf'. destruct (Z.eq_dec i (o / 8)) as [->|].
      * rewrite lookup_insert_eq. split; [intros; lia|eauto].
      * rewrite lookup_insert_ne by done. apply Hd.
    + intros i Hi. rewrite Hbit, Hz by done. case_bool_decide; [lia|done].
  - apply set_eq. intros i. rewrite elem_of_union, elem_of_singleton, !elem_bits_set, Hbit.
    case_bool_decide; naive_solver lia.
Qed.


Lemma size_bits_set buf sz : 0 <= sz -> Z.of_nat (size (bits_set buf sz)) <= sz.
Proof.
  intros Hs. rewrite <- (size_all_offsets sz) at 2 by done. apply inj_le, subseteq_size.
  intros i. rewrite elem_bits_set, elem_all_offsets. tauto.
Qed.

Lemma initialize_loop_spec fuel buf base ptr size sz i :
  buf_ok buf sz -> sz < max_size -> in_u W base -> base <= ptr -> 0 <= i <= size ->
  size < 2 ^ 32 -> ptr - base + size <= sz -> size - i <= Z.of_nat fuel ->
  exists buf', initialize_loop fuel buf base ptr size i (Z.of_nat (base.size (bits_set buf sz))) =
      Ret (buf', Z.of_nat (base.size (bits_set buf' sz))) /\ buf_ok buf' sz /\
    bits_set buf' sz = bits_set buf sz ∪ offsets (ptr - base + i) (ptr - base + size).
Proof.
  intros Hb Hsz Hu Hle. revert buf i Hb. induction fuel as [|fuel IH]; intros buf i Hb Hi Hs Hr Hf;
    cbn [initialize_loop]; (destruct (Z.ltb_spec i size); [|
      exists buf; split_and!; [done|done|apply set_eq; intros j;
        rewrite elem_of_union, elem_offsets; naive_solver lia]]); [lia|].
  unfold max_size, in_u in *.
  assert (u64 (u64 (ptr - base) + i) = ptr - base + i) as ->.
  { unfold u64. rewrite (Z.mod_small (ptr - base)) by lia. apply Z.mod_small. lia. }
  set (o := ptr - base + i). assert (0 <= o < sz) as Ho by (unfold o; lia).
  destruct (offset_byte buf sz o) as (b & El & Es32 & _ & Ec); [done..|].
  rewrite El. cbn [obind]. rewrite Es32 in El |- *. unfold load8 in El. apply deref_inv in El. rewrite Ec, (u32_next i size) by lia.
  destruct (set_offset buf sz o Hb Ho) as (b' & Eb' & Hb' & Es).
  assert (forall x, x ∈ offsets o (ptr - base + size) <->
    x = o \/ x ∈ offsets (ptr - base + (i + 1)) (ptr - base + size)) as Hoff
    by (intros x; rewrite !elem_offsets; unfold o; lia).
  destruct (mbit buf 0 o) eqn:Ebit; cbn [negb].
  - destruct (IH buf (i + 1)) as (buf' & -> & Hok & Eset); [done|lia..|].
    exists buf'. split_and!; [done..|]. rewrite Eset. apply set_eq. intros x.
    rewrite !elem_of_union, Hoff. assert (o ∈ bits_set buf sz) by (by apply elem_bits_set).
    naive_solver.
  - assert (b' = b) as -> by congruence. unfold store8. rewrite El. cbn [obind].
    set (buf1 := <[o / 8 := _]> buf) in *.
    assert (Z.of_nat (base.size (bits_set buf1 sz)) = Z.of_nat (base.size (bits_set buf sz)) + 1)
      as Ecnt.
    { rewrite Es, size_union, size_singleton; [lia|]. rewrite disjoint_singleton_l, elem_bits_set.
      intros [_ ?]. congruence. }
    pose proof (size_bits_set buf sz).
    rewrite (u64_small (_ + 1)) by (unfold in_u; lia). rewrite <- Ecnt.
    destruct (IH buf1 (i + 1)) as (buf' & -> & Hok & Eset); [done|lia..|].
    exists buf'. split_and!; [done..|]. rewrite Eset, Es. apply set_eq. intros x.
    rewrite !elem_of_union, elem_of_singleton, Hoff. tauto.
Qed.

(** A block whose buffer has recorded more offsets. *)
Lemma blk_ok_buf bufs0 bufs blk p buf : blk_ok bufs0 blk -> bufs !! p = Some buf -> p <> NULL ->
  buf_ok buf (bk_size blk) -> Z.of_nat (size (bits_set buf (bk_size blk))) <> bk_size blk ->
  blk_ok bufs (set_init blk p (Z.of_nat (size (bits_set buf (bk_size blk))))) /\
  init_set bufs (set_init blk p (Z.of_nat (size (bits_set buf (bk_size blk))))) =
    bits_set buf (bk_size blk).
Proof.
  intros [] Ep Hp Hb Hne. pose proof (size_bits_set buf (bk_size blk)).
  assert (init_set bufs (set_init blk p (Z.of_nat (size (bits_set buf (bk_size blk))))) =
    bits_set buf (bk_size blk)) as E.
  { unfold init_set. simpl. rewrite Ep. 
    destruct (Z.eqb_spec (Z.of_nat (size (bits_set buf (bk_size blk)))) 0) as [E0|E0].
    - symmetry. apply leibniz_equiv, size_empty_inv. lia.
    - by rewrite eqb_false. }
  split; [|done]. constructor; simpl; try done; try lia; [eauto|]. by rewrite E.
Qed.

Lemma full_bits buf sz : 0 <= sz -> Z.of_nat (size (bits_set buf sz)) = sz ->
  bits_set buf sz = all_offsets sz.
Proof.
  intros Hs E. apply set_subseteq_size_eq.
  - intros i. rewrite elem_bits_set, elem_all_offsets. tauto.
  - apply Nat2Z.inj_le. rewrite size_all_offsets; lia.
Qed.

(** A new buffer, all clear. *)
Lemma buf_ok_zero sz : 0 <= sz < max_size ->
  buf_ok (mem_fill (Z.to_nat (u64 (s32 (needed_bytes sz)))) 0 0) sz /\
  bits_set (mem_fill (Z.to_nat (u64 (s32 (needed_bytes sz)))) 0 0) sz = ∅.
Proof.
  intros Hs. assert (0 <= needed_bytes sz <= sz / 8 + 1) as Hn
    by (unfold needed_bytes; destruct (sz mod 8 =? 0); dlia).
  assert (needed_bytes sz < 2 ^ 31) by (unfold max_size in Hs; dlia).
  rewrite s32_small, u64_small by (unfold in_u; lia).
  assert (forall i, mbit (mem_fill (Z.to_nat (needed_bytes sz)) 0 0) 0 i = false) as Hz.
  { intros i. unfold mbit. rewrite mem_fill_lookup. case_decide; [apply Z.bits_0|done]. }
  unfold buf_ok. split_and!.
  - intros x v. rewrite mem_fill_lookup. case_decide; [|done]. intros [= <-]. unfold in_u. lia.
  - intros i. rewrite mem_fill_lookup. case_decide; [|split; [by intros []|lia]].
    split; [lia|eauto].
  - auto.
  - apply set_eq. intros i. rewrite elem_bits_set, Hz. set_solver.
Qed.

(** A block with a buffer that counts its initialized bytes. *)
Definition ready (h : heap) (blk : bt_block) (buf : mem) : Prop :=
  bk_init_ptr blk <> NULL /\ h_bufs h !! bk_init_ptr blk = Some buf /\
  buf_ok buf (bk_size blk) /\ bk_init_bytes blk <> bk_size blk /\
  bk_init_bytes blk = Z.of_nat (size (bits_set buf (bk_size blk))) /\
  init_set (h_bufs h) blk = bits_set buf (bk_size blk).

Lemma set_init_twice blk p n q k : set_init (set_init blk p n) q k = set_init blk q k.
Proof. done. Qed.

(** [at_update] as a refinement. *)
Lemma at_update_models h M ot b blk blk' bufs' ab :
  at_block h M ot b blk -> bk_ptr blk' = bk_ptr blk -> bk_size blk' = bk_size blk ->
  blk_ok bufs' blk' -> ab = abs_block bufs' blk' -> buf_update h ot b blk blk' bufs' ->
  models (updated h b blk' bufs') (<[bk_ptr blk := ab]> M).
Proof. intros Hat Ep Es Hok -> Hbu. eapply at_models, at_update; eauto. Qed.

Section Initialize.
Context `{PA : !PrivateAlloc, PAok : !PrivateAllocOk} (cfg : config).

Lemma initialize_mark_refines h M ot b blk buf p sz :
  at_block h M ot b blk -> ready h blk buf -> bk_ptr blk <= p -> 0 <= sz < 2 ^ 32 ->
  p + sz <= bk_ptr blk + bk_size blk ->
  exists h', initialize_mark h b p sz = Ret h' /\
    models h' (<[bk_ptr blk := mk_ablock (bk_size blk)
      (init_set (h_bufs h) blk ∪ offsets (p - bk_ptr blk) (p - bk_ptr blk + sz))
      (i2b (bk_is_readonly blk)) (i2b (bk_is_freeable blk))]> M).
Proof.
  intros Hat (Hn & Ebuf & Hbok & Hne & Ecnt & Eset) Hp Hs Hend.
  pose proof (at_ok _ _ _ _ _ Hat) as Hok. unfold initialize_mark.
  rewrite (at_load _ _ _ _ _ Hat). cbn [obind].
  destruct (Z.ltb_spec 0 sz) as [Hpos|Hz].
  - unfold load_buf. rewrite eqb_false, Ebuf by done. cbn [deref obind]. rewrite Ecnt.
    destruct (initialize_loop_spec (Z.to_nat sz) buf (bk_ptr blk) p sz (bk_size blk) 0)
      as (buf' & -> & Hbok' & Eset'); [done|apply Hok| |done|lia..|].
    { destruct Hok. unfold in_u. lia. }
    cbn [obind]. unfold store_buf. rewrite eqb_false, Ebuf by done. cbn [obind].
    unfold store_block_at, load_block. rewrite (eqb_false b) by (by eapply at_nonnull).
    cbn [set_bufs h_blocks]. rewrite (proj2 (at_tracked _ _ _ _ _ Hat)). cbn [obind set_blocks h_blocks].
    rewrite lookup_insert_eq. cbn [deref obind set_init bk_init_bytes bk_size bk_init_ptr].
    rewrite Eset, Z.add_0_r in *.
    destruct (Z.eqb_spec (Z.of_nat (size (bits_set buf' (bk_size blk)))) (bk_size blk)) as [Ef|Ef].
    + unfold free_buf. rewrite eqb_false by done. cbn. rewrite !lookup_insert_eq. cbn.
      rewrite lookup_insert_eq, insert_insert_eq. eexists. split; [done|].
      rewrite Ef, delete_insert_eq, set_init_twice.
      destruct (blk_ok_full _ (delete (bk_init_ptr blk) (h_bufs h)) blk Hok) as [Hok' Es'].
      eapply (at_update_models h M ot b blk (set_init blk NULL (bk_size blk))
        (delete (bk_init_ptr blk) (h_bufs h))); eauto using buf_update_drop.
      unfold abs_block. rewrite Es', <- (full_bits buf'), Eset' by (done || apply Hok). done.
    + eexists. split; [done|].
      destruct (blk_ok_buf (h_bufs h) (<[bk_init_ptr blk := buf']> (h_bufs h)) blk (bk_init_ptr blk)
        buf') as [Hok' Es']; [done|by rewrite lookup_insert_eq|done..|].
      eapply (at_update_models h M ot b blk (set_init blk (bk_init_ptr blk)
        (Z.of_nat (size (bits_set buf' (bk_size blk))))) (<[bk_init_ptr blk := buf']> (h_bufs h)));
        try done.
      * unfold abs_block. by rewrite Es', Eset'.
      * eapply buf_update_write; eauto; done.
  - cbn [obind]. rewrite (at_load _ _ _ _ _ Hat). cbn [obind].
    rewrite eqb_false by done. eexists. split; [done|].
    rewrite insert_id; [by eapply at_models|].
    rewrite (tracked_abs h M ot b blk) by (by destruct Hat). unfold abs_block. do 2 f_equal.
    apply set_eq. intros i. rewrite elem_of_union, elem_offsets. naive_solver lia.
Qed.

Lemma initialize_refines h M p sz a ab :
  models h M -> contains M p a ab -> in_u W p -> 0 <= sz < 2 ^ 32 -> p + sz <= a + ab_size ab ->
  exists h', initialize cfg h p sz = Ret h' /\
    models h' (<[a := mk_ablock (ab_size ab) (ab_init ab ∪ offsets (p - a) (p - a + sz))
                        (ab_readonly ab) (ab_freeable ab)]> M).
Proof using PAok.
  intros HM Hc Hu Hs Hend. unfold initialize.
  destruct (find_at cfg h M p a ab HM Hu Hc) as (ot & b & blk & Eb & Hat & <- & -> & Hcov).
  pose proof (at_ok _ _ _ _ _ Hat) as Hok. pose proof (ok_base _ _ Hok).
  assert (bk_ptr blk <= p) by (unfold covers in Hcov; lia).
  rewrite eqb_false, Eb by (unfold NULL; lia). cbn [obind].
  rewrite eqb_false by (by eapply at_nonnull). rewrite (at_load _ _ _ _ _ Hat). cbn [obind].
  cbn [abs_block ab_size ab_init ab_readonly ab_freeable] in *.
  destruct (Z.eqb_spec (bk_init_bytes blk) (bk_size blk)) as [Ef|Ef].
  { eexists. split; [done|]. rewrite insert_id; [done|].
    rewrite (tracked_abs h M ot b blk) by (by destruct Hat). unfold abs_block. do 2 f_equal.
    rewrite (init_set_full _ _ (proj1 (ok_size _ _ Hok)) Ef). apply set_eq. intros i.
    rewrite elem_of_union, elem_offsets, elem_all_offsets. lia. }
  destruct (Z.eqb_spec (bk_init_bytes blk) 0) as [E0|E0].
  - unfold malloc_buf. set (q := private_malloc _ _).
    assert (q <> NULL) as Hq by apply private_malloc_served.
    assert (q ∉ live h) as Hfresh by apply private_malloc_fresh.
    rewrite eqb_false by done. cbn [obind].
    destruct (buf_ok_zero (bk_size blk) (ok_size _ _ Hok)) as [Hz Ez].
    set (zbuf := mem_fill _ 0 0) in *.
    assert (q ∉ dom (h_bufs h)) as Hq' by (unfold live in Hfresh; set_solver).
    destruct (blk_ok_buf (h_bufs h) (<[q := zbuf]> (h_bufs h)) blk q zbuf) as [Hok1 Es1];
      [done|by rewrite lookup_insert_eq|done|done|rewrite Ez, size_empty; lia|].
    rewrite Ez, size_empty in Hok1, Es1. change (Z.of_nat 0) with 0 in Hok1, Es1.
    assert (at_block (updated h b (set_init blk q 0) (<[q := zbuf]> (h_bufs h)))
      (<[bk_ptr blk := abs_block (<[q := zbuf]> (h_bufs h)) (set_init blk q 0)]> M)
      ot b (set_init blk q 0)) as Hat1.
    { apply at_update; auto. eapply buf_update_fresh; eauto. }
    unfold store_block_at. rewrite (eqb_false b) by (by eapply at_nonnull).
    cbn [set_bufs h_blocks]. rewrite (proj2 (at_tracked _ _ _ _ _ Hat)). cbn [obind].
    rewrite E0.
    destruct (initialize_mark_refines _ _ ot b (set_init blk q 0) zbuf p sz Hat1)
      as (h' & E & HM'); [|done..|].
    { unfold ready. simpl. rewrite lookup_insert_eq, Ez, size_empty, Es1.
      split_and!; try done. congruence. }
    exists h'. split; [exact E|]. cbn [set_init bk_ptr bk_size] in HM'. rewrite insert_insert_eq in HM'.
    unfold init_set at 1. rewrite E0. cbn. cbn [updated h_bufs] in HM'. rewrite Es1 in HM'. exact HM'.
  - cbn [obind]. pose proof (ok_partial _ _ Hok) as Hpart. pose proof (ok_bytes _ _ Hok).
    destruct (ok_buf _ _ Hok) as (buf & Ebuf & Hbok); [apply Hpart; lia|].
    apply (initialize_mark_refines h M ot b blk buf); try done.
    assert (init_set (h_bufs h) blk = bits_set buf (bk_size blk)) as Es.
    { unfold init_set. by rewrite !eqb_false, Ebuf. }
    split_and!; try done; [apply Hpart; lia|]. rewrite <- Es. symmetry. apply (ok_count _ _ Hok).
Qed.
End Initialize.

(** Accesses to the block just written. *)
Lemma load_ins ns bs bufs rt b blk : b <> NULL ->
  load_block (mk_heap ns (<[b := blk]> bs) bufs rt) b = Ret blk.
Proof. intros. apply load_block_eq; [done|]. apply lookup_insert_eq. Qed.

Lemma store_ins ns bs bufs rt b blk blk' : b <> NULL ->
  store_block_at (mk_heap ns (<[b := blk]> bs) bufs rt) b blk' =
  Ret (mk_heap ns (<[b := blk']> bs) bufs rt).
Proof.
  intros. unfold store_block_at. rewrite eqb_false by done. cbn [h_blocks].
  rewrite lookup_insert_eq. unfold set_blocks. cbn. by rewrite insert_insert_eq.
Qed.

(** An uninitialized block without a buffer. *)
Lemma blk_ok_clear bufs bufs' blk : blk_ok bufs blk ->
  blk_ok bufs' (set_init blk NULL 0) /\ init_set bufs' (set_init blk NULL 0) = ∅.
Proof.
  intros []. split; [|done]. constructor; simpl; try done; lia.
Qed.

(** [if (tmp->init_ptr) free it]: the part that [full_init] and
    [bt_clean_block_init] share. *)
Lemma drop_buf h M ot b blk : at_block h M ot b blk ->
  exists bufs', (if negb (bk_init_ptr blk =? NULL)
     then let* h := free_buf h (bk_init_ptr blk) in
          store_block_at h b (set_init blk NULL (bk_init_bytes blk))
     else Ret h) =
    Ret (mk_heap (h_nodes h) (<[b := set_init blk NULL (bk_init_bytes blk)]> (h_blocks h)) bufs'
           (bt_root h)) /\
    (forall n, buf_update h ot b blk (set_init blk NULL n) bufs').
Proof.
  intros Hat. pose proof (at_ok _ _ _ _ _ Hat) as Hok.
  pose proof (proj2 (at_tracked _ _ _ _ _ Hat)) as Eb. pose proof (at_nonnull _ _ _ _ _ Hat) as Hb.
  destruct (Z.eqb_spec (bk_init_ptr blk) NULL) as [E|E]; cbn [negb].
  - exists (h_bufs h). split; [|intros n; by eapply buf_update_same].
    rewrite insert_id; [by destruct h|].
    rewrite Eb. f_equal. destruct blk; simpl in *. by subst.
  - destruct (ok_buf _ _ Hok E) as (buf & Ebuf & _).
    unfold free_buf, store_block_at. rewrite eqb_false, Ebuf by done. cbn [obind].
    rewrite eqb_false by done. cbn. rewrite Eb.
    exists (delete (bk_init_ptr blk) (h_bufs h)). split; [done|].
    intros n. by eapply buf_update_drop.
Qed.

Section Blocks.
Context `{PA : !PrivateAlloc, PAok : !PrivateAllocOk} (cfg : config).

Lemma full_init_refines h M p ab : models h M -> M !! p = Some ab ->
  exists h', full_init cfg h p = Ret h' /\
    models h' (<[p := mk_ablock (ab_size ab) (all_offsets (ab_size ab)) (ab_readonly ab)
                        (ab_freeable ab)]> M).
Proof.
  intros HM E. unfold full_init.
  destruct (lookup_at cfg h M p ab HM E) as (ot & b & blk & Eb & Hat & Ep & ->).
  pose proof (at_ok _ _ _ _ _ Hat) as Hok. pose proof (ok_base _ _ Hok).
  rewrite eqb_false, Eb by (unfold NULL; lia). cbn [obind].
  pose proof (at_nonnull _ _ _ _ _ Hat) as Hb.
  rewrite eqb_false by done. rewrite (at_load _ _ _ _ _ Hat). cbn [obind].
  destruct (drop_buf h M ot b blk Hat) as (bufs' & -> & Hf). cbn [obind].
  rewrite load_ins by done. cbn [obind]. rewrite store_ins by done. eexists. split; [done|].
  destruct (blk_ok_full _ bufs' blk Hok) as [Hok' Es']. subst p.
  eapply (at_update_models h M ot b blk (set_init blk NULL (bk_size blk)) bufs'); eauto.
  unfold abs_block. by rewrite Es'.
Qed.

(** [bt_clean_block_init] of a tracked block. *)
Lemma clean_init_at h M ot b blk : at_block h M ot b blk ->
  exists h', bt_clean_block_init h b = Ret h' /\
    at_block h' (<[bk_ptr blk := mk_ablock (bk_size blk) ∅ (i2b (bk_is_readonly blk))
                                  (i2b (bk_is_freeable blk))]> M) ot b (set_init blk NULL 0).
Proof.
  intros Hat. unfold bt_clean_block_init. rewrite (at_load _ _ _ _ _ Hat). cbn [obind].
  fold (set_init blk NULL (bk_init_bytes blk)).
  pose proof (at_ok _ _ _ _ _ Hat) as Hok. pose proof (at_nonnull _ _ _ _ _ Hat) as Hb.
  destruct (drop_buf h M ot b blk Hat) as (bufs' & -> & Hf). cbn [obind].
  rewrite load_ins by done. cbn [obind]. rewrite store_ins by done. eexists. split; [done|].
  destruct (blk_ok_clear _ bufs' blk Hok) as [Hok' Es'].
  pose proof (at_update h M ot b blk (set_init blk NULL 0) bufs' Hat eq_refl Hok' eq_refl (Hf 0))
    as Hup.
  unfold abs_block in Hup. rewrite Es' in Hup. exact Hup.
Qed.

(** ** Insertion in the trie *)

Lemma leaves_models h ot M a b : inv h ot -> abs_rel h ot M -> (a, b) ∈ leaves_of ot ->
  is_Some (M !! a).
Proof.
  intros Hi Ha Hin. destruct (tracked_leaf h ot a b (inv_tree _ _ Hi) Hin) as (blk & Ht & Ep & _).
  eexists. apply Ha. eauto.
Qed.

Lemma insert_at h M ot b blk :
  inv h ot -> abs_rel h ot M -> h_blocks h !! b = Some blk -> b <> NULL ->
  blk_ok (h_bufs h) blk -> fresh_range M (bk_ptr blk) (bk_size blk) ->
  own_ok (h_bufs h) blk ->
  (forall b2 blk2 q, tracked h ot b2 blk2 -> owns blk q -> ~ owns blk2 q) ->
  exists h' ot', bt_insert cfg h b = Ret h' /\ h_blocks h' = h_blocks h /\ h_bufs h' = h_bufs h /\
    at_block h' (<[bk_ptr blk := abs_block (h_bufs h) blk]> M) ot' b blk /\
    (forall b2 blk2, tracked h' ot' b2 blk2 <-> b2 = b /\ blk2 = blk \/ tracked h ot b2 blk2).
Proof using PAok.
  intros Hi Ha Eb Hb Hok Hfr Hown Hbuf. pose proof (inv_tree _ _ Hi) as Ht.
  assert (M !! bk_ptr blk = None) as Hnew.
  { destruct (M !! bk_ptr blk) as [ab|] eqn:E; [|done]. by destruct (Hfr _ _ E). }
  destruct (bt_insert_tree cfg h ot b blk Ht Hb Eb) as (h' & t' & E & Ht' & Ebs & Ebf & l1 & l2 & L1 & L2).
  { destruct Hok. unfold in_u. lia. }
  { intros ([a b'] & Ea & Hin)%list_elem_of_fmap. simpl in Ea. subst a.
    apply (leaves_models h ot M) in Hin as [? ?]; [congruence|done..]. }
  assert (forall b2 blk2, tracked h' (Some t') b2 blk2 <->
    b2 = b /\ blk2 = blk \/ tracked h ot b2 blk2) as Htr.
  { intros b2 blk2. unfold tracked. simpl. rewrite L1, L2, Ebs, elem_of_app, elem_of_cons, elem_of_app.
    split; [|naive_solver]. intros [[?|[[= -> ->]|?]] ?]; naive_solver. }
  exists h', (Some t'). split_and!; [done..| |done]. split; [constructor|..].
  - done.
  - intros b2 blk2 [[-> ->]|H2]%Htr; rewrite Ebf; [done|by eapply inv_ok].
  - assert (forall b2 blk2, tracked h ot b2 blk2 -> bk_ptr blk2 <> bk_ptr blk /\
      (bk_ptr blk2 + bk_size blk2 <= bk_ptr blk \/ bk_ptr blk + bk_size blk <= bk_ptr blk2)) as Hd.
    { intros b2 blk2 H2. apply (Hfr _ (abs_block (h_bufs h) blk2)). by eapply tracked_abs. }
    destruct Hok. intros b1 k1 b2 k2 [[-> ->]|H1]%Htr [[-> ->]|H2]%Htr Hlt; [lia| | |].
    + destruct (Hd _ _ H2), (inv_ok _ _ Hi _ _ H2). lia.
    + destruct (Hd _ _ H1), (inv_ok _ _ Hi _ _ H1). lia.
    + eapply inv_disj; eauto.
  - intros b2 blk2 [[-> ->]|H2]%Htr; rewrite Ebf; [done|by eapply inv_own].
  - intros b1 k1 b2 k2 q [[-> ->]|H1]%Htr [[-> ->]|H2]%Htr Hne Hq;
      [done|by apply (Hbuf b2 k2)| |by apply (inv_bufs _ _ Hi b1 k1 b2 k2)].
    intros Hq'. by apply (Hbuf b1 k1 q).
  - intros a ab. rewrite lookup_insert_Some, Ebf. split.
    + intros [[<- <-]|[Hne (b2 & blk2 & H2 & Ep & Eab)%Ha]].
      * exists b, blk. split_and!; [apply Htr; auto|done..].
      * exists b2, blk2. split_and!; [apply Htr; auto|done..].
    + intros (b2 & blk2 & [[-> ->]|H2]%Htr & <- & ->); [auto|]. right. split.
      * intros E'. pose proof (tracked_abs h M ot b2 blk2 Ha H2). congruence.
      * apply Ha. eauto.
  - apply Htr. auto.
  - done.
Qed.

(** ** Removal from the trie *)

Lemma remove_at_bufs h M ot b blk bufs' : at_block h M ot b blk -> frames h ot b bufs' ->
  exists h' ot', bt_remove cfg (set_bufs h bufs') b = Ret h' /\ h_blocks h' = h_blocks h /\
    inv h' ot' /\ abs_rel h' ot' (delete (bk_ptr blk) M) /\
    (forall b2 blk2, tracked h' ot' b2 blk2 -> tracked h ot b2 blk2 /\ b2 <> b).
Proof.
  intros [Hi Ha Htr Hb] Hf. pose proof (inv_tree _ _ Hi) as Ht.
  destruct ot as [t|]; [|destruct Htr as [Hin _]; simpl in Hin; set_solver].
  destruct (bt_remove_tree cfg (set_bufs h bufs') t b blk Ht (proj2 Htr) (proj1 Htr)) as (h' & E & Ht' & Ebs & Ebf).
  pose proof (tree_wf _ _ Ht) as [k Hwf].
  pose proof (t_delete_spec k t _ _ Hwf (proj1 Htr)) as Hdel.
  pose proof (leaf_blocks_NoDup (h_blocks h) k t Hwf) as Hnd.
  assert (leaf_blocks (h_blocks h) t) as Hlb by apply Ht. specialize (Hnd Hlb).
  set (ot' := t_delete (bk_ptr blk) t) in *.
  assert (exists l1 l2, leaves t = l1 ++ (bk_ptr blk, b) :: l2 /\ leaves_of ot' = l1 ++ l2)
    as (l1 & l2 & L1 & L2).
  { destruct ot' as [t'|]; [naive_solver|]. destruct Hdel as [n ->]. by exists [], []. }
  rewrite L1, map_app in Hnd. simpl in Hnd.
  apply NoDup_app in Hnd as (_ & Hd & [Hd2 _]%NoDup_cons).
  assert (forall b2 blk2, tracked h' ot' b2 blk2 <-> tracked h (Some t) b2 blk2 /\ b2 <> b) as Hiff.
  { intros b2 blk2. unfold tracked. simpl. rewrite L1, L2, Ebs, !elem_of_app, elem_of_cons. split.
    - intros [Hin E2]. split; [naive_solver|]. intros ->. destruct Hin as [Hin|Hin].
      + apply (Hd b); [apply list_elem_of_fmap; by exists (bk_ptr blk2, b)|set_solver].
      + apply Hd2, list_elem_of_fmap. by exists (bk_ptr blk2, b).
    - naive_solver. }
  cbn [h_bufs set_bufs] in Ebf.
  assert (forall b2 blk2, tracked h (Some t) b2 blk2 -> b2 <> b ->
    forall q, owns blk2 q -> bufs' !! q = h_bufs h !! q) as Hfr by (intros; by eapply Hf).
  exists h', ot'. split_and!; [done..| | |by intros; apply Hiff].
  - constructor; [done|..].
    + intros b2 blk2 [H2 Hne]%Hiff. rewrite Ebf. eapply frame_blk_ok; [by eapply inv_ok|eauto].
    + intros b1 k1 b2 k2 [H1 _]%Hiff [H2 _]%Hiff. eapply inv_disj; eauto.
    + intros b2 blk2 [H2 Hne]%Hiff. rewrite Ebf. eapply frame_own_ok; [by eapply inv_own|eauto].
    + intros b1 k1 b2 k2 q [H1 _]%Hiff [H2 _]%Hiff. by apply (inv_bufs _ _ Hi b1 k1 b2 k2).
  - intros a ab. rewrite lookup_delete_Some, Ebf.
    assert (forall b2 blk2, tracked h (Some t) b2 blk2 -> b2 <> b ->
      abs_block bufs' blk2 = abs_block (h_bufs h) blk2) as Eabs.
    { intros b2 blk2 H2 Hne. unfold abs_block. f_equal.
      eapply frame_init_set; [by eapply inv_ok|eauto]. }
    split.
    + intros [Hne (b2 & blk2 & H2 & Ep & Eab)%Ha]. exists b2, blk2.
      assert (b2 <> b).
      { intros ->. apply Hne. rewrite <- Ep. f_equal. eapply tracked_fun; eauto. }
      split_and!; [by apply Hiff|done|rewrite Eab; symmetry; by apply (Eabs b2)].
    + intros (b2 & blk2 & [H2 Hne]%Hiff & <- & ->). split.
      * intros E'. apply Hne. apply (tracked_base _ _ _ _ _ _ Ht H2 Htr (eq_sym E')).
      * apply Ha. exists b2, blk2. split_and!; [done..|by apply (Eabs b2)].
Qed.

Lemma remove_at h M ot b blk : at_block h M ot b blk ->
  exists h' ot', bt_remove cfg h b = Ret h' /\ h_blocks h' = h_blocks h /\
    inv h' ot' /\ abs_rel h' ot' (delete (bk_ptr blk) M) /\
    (forall b2 blk2, tracked h' ot' b2 blk2 -> tracked h ot b2 blk2 /\ b2 <> b).
Proof.
  intros Hat. pose proof (remove_at_bufs h M ot b blk (h_bufs h) Hat) as H.
  replace (set_bufs h (h_bufs h)) with h in H by (by destruct h). by apply H.
Qed.
End Blocks.

(** ** Recording and removal of blocks *)

Lemma inv_alloc h ot b blk : inv h ot -> b ∉ dom (h_blocks h) ->
  inv (set_blocks h (<[b := blk]> (h_blocks h))) ot /\
  forall b2 blk2, tracked (set_blocks h (<[b := blk]> (h_blocks h))) ot b2 blk2 <->
    tracked h ot b2 blk2.
Proof.
  intros Hi Hb.
  assert (forall b2 blk2, tracked (set_blocks h (<[b := blk]> (h_blocks h))) ot b2 blk2 <->
    tracked h ot b2 blk2) as Htr.
  { intros b2 blk2. unfold tracked. cbn. destruct (Z.eq_dec b2 b) as [->|Hne].
    - split; [|intros [_ E]; exfalso; apply Hb, elem_of_dom; eauto].
      intros [Hin _]. destruct (tracked_leaf h ot _ _ (inv_tree _ _ Hi) Hin) as (k & [_ E] & _).
      exfalso. apply Hb, elem_of_dom. eauto.
    - by rewrite lookup_insert_ne. }
  split; [|done]. constructor; [|setoid_rewrite Htr; apply Hi..].
  pose proof (inv_tree _ _ Hi) as Ht. destruct ot as [t|]; [|exact Ht].
  destruct Ht as (? & ? & ? & ? & ? & Hlb). split_and!; try done.
  intros x y Hxy. destruct (Hlb x y Hxy) as (Hn & k & E & Ep). split; [done|]. exists k. cbn.
  rewrite lookup_insert_ne; [done|]. intros ->. apply Hb, elem_of_dom. eauto.
Qed.

Lemma inv_dealloc h ot b : inv h ot -> (forall b2 blk2, tracked h ot b2 blk2 -> b2 <> b) ->
  inv (set_blocks h (delete b (h_blocks h))) ot /\
  forall b2 blk2, tracked (set_blocks h (delete b (h_blocks h))) ot b2 blk2 <->
    tracked h ot b2 blk2.
Proof.
  intros Hi Hb. pose proof (inv_tree _ _ Hi) as Ht.
  assert (forall a, (a, b) ∉ leaves_of ot) as Hnl.
  { intros a Hin. destruct (tracked_leaf h ot _ _ Ht Hin) as (k & Htr & _). by apply (Hb b k). }
  assert (forall b2 blk2, tracked (set_blocks h (delete b (h_blocks h))) ot b2 blk2 <->
    tracked h ot b2 blk2) as Htr.
  { intros b2 blk2. unfold tracked. cbn. destruct (Z.eq_dec b2 b) as [->|Hne].
    - split; intros [Hin _]; by destruct (Hnl (bk_ptr blk2)).
    - by rewrite lookup_delete_ne. }
  split; [|done]. constructor; [|setoid_rewrite Htr; apply Hi..].
  destruct ot as [t|]; [|exact Ht].
  destruct Ht as (? & ? & ? & ? & ? & Hlb). split_and!; try done.
  intros x y Hxy. destruct (Hlb x y Hxy) as (Hn & k & E & Ep). split; [done|]. exists k. cbn.
  rewrite lookup_delete_ne; [done|]. intros ->. by apply (Hnl x).
Qed.

Section StoreDelete.
Context `{PA : !PrivateAlloc, PAok : !PrivateAllocOk, PB : !PublicAlloc} (cfg : config).

(** A range that may become a block. *)
Definition new_range (M : amem) (p sz : Z) : Prop :=
  0 < p /\ 0 <= sz < max_size /\ p + sz < 2 ^ 64 /\ fresh_range M p sz /\
  (cfg_debug cfg = true -> 0 < sz).

Lemma fresh_not_contained M p sz q a ab : fresh_range M p sz -> p <= q < p + sz ->
  ~ contains M q a ab.
Proof. intros Hf Hq [E Hc]. destruct (Hf a ab E). unfold covers in Hc. lia. Qed.

Lemma store_block_checks_pass h M p sz : models h M -> new_range M p sz ->
  store_block_checks cfg h p sz = Ret tt.
Proof.
  intros HM (Hp & Hs & He & Hf & Hd). unfold store_block_checks.
  destruct (cfg_debug cfg); [|done]. specialize (Hd eq_refl).
  assert (forall q, p <= q < p + sz -> bt_find cfg h q = Ret NULL) as Hfind.
  { intros q Hq. destruct (find_models cfg h M HM q) as [E _|r blk _ _ _ _ Hc]; [|done|].
    - unfold in_u. lia.
    - by destruct (fresh_not_contained M p sz q _ _ Hf Hq Hc). }
  rewrite eqb_false by (unfold NULL; lia). rewrite Hfind by lia. cbn [obind].
  rewrite Z.eqb_refl. cbn [negb]. unfold max_size in Hs.
  rewrite (u64_small (sz - 1)), u64_small, Hfind by (unfold in_u; lia). done.
Qed.

(** The part of [store_block] that does not depend on temporal analysis. *)
Lemma store_block_insert st M p sz : models (st_heap st) M -> new_range M p sz ->
  exists b h' ot ot', let blk := mk_block p sz NULL 0 0 0 0 NULL in
    store_block cfg st p sz =
      (let* st := store_block_temporal cfg (set_heap st h') b sz in Ret (b, st)) /\
    at_block h' (<[p := mk_ablock sz ∅ false false]> M) ot' b blk /\
    inv (st_heap st) ot /\ h_bufs h' = h_bufs (st_heap st) /\ b ∉ dom (h_blocks (st_heap st)) /\
    h_blocks h' = <[b := blk]> (h_blocks (st_heap st)) /\
    (forall b2 blk2, tracked h' ot' b2 blk2 <-> b2 = b /\ blk2 = blk \/ tracked (st_heap st) ot b2 blk2).
Proof using PAok.
  intros HM Hnew. unfold store_block. rewrite (store_block_checks_pass _ M) by done. cbn [obind].
  destruct Hnew as (Hp & Hs & He & Hf & _). rewrite neqb_true by (unfold NULL; lia).
  unfold malloc_block. set (b := private_malloc _ _).
  assert (b <> NULL) as Hb by apply private_malloc_served.
  assert (b ∉ dom (h_blocks (st_heap st))) as Hfr.
  { pose proof (private_malloc_fresh (live (st_heap st)) (sizeof_bt_block cfg)) as H.
    unfold live in H. fold b in H. set_solver. }
  rewrite eqb_false by done. cbn [obind]. destruct HM as (ot & Hi & Ha).
  set (blk := mk_block p sz NULL 0 0 0 0 NULL). set (h1 := set_blocks _ _).
  destruct (inv_alloc _ ot b blk Hi Hfr) as [Hi1 Htr].
  destruct (insert_at cfg h1 M ot b blk) as (h' & ot' & -> & Ebs & Ebf & Hat & Htr');
    [done| |apply lookup_insert_eq|done| |done| | |].
  - intros a ab. rewrite (Ha a ab). unfold h1. setoid_rewrite Htr. done.
  - constructor; simpl; try done; lia.
  - constructor; [|done]. by intros q [Hq [<-|<-]].
  - by intros b2 blk2 q _ [Hq [<-|<-]].
  - cbn [obind]. exists b, h', ot, ot'. split_and!; [done..|]. intros b2 blk2. rewrite Htr'. unfold h1. by rewrite Htr.
Qed.

(** The state after [store_block] recorded [p, p + sz) as the block [b], whose
    temporal fields are [stamp] and [shadow]. *)
Record stored (st st' : state) (M : amem) (p sz b stamp shadow : Z) (ot ot' : option tree) : Prop :=
  mk_stored {
  sto_at : at_block (st_heap st') (<[p := mk_ablock sz ∅ false false]> M) ot' b
             (mk_block p sz NULL 0 0 0 stamp shadow);
  sto_inv : inv (st_heap st) ot;
  sto_fresh : b ∉ dom (h_blocks (st_heap st));
  sto_stamp : cfg_temporal cfg = true ->
    stamp = NEW_TEMPORAL_TIMESTAMP (temporal_timestamp st) /\ temporal_timestamp st' = stamp;
  sto_bufs : h_bufs (st_heap st) ⊆ h_bufs (st_heap st');
  sto_blocks : h_blocks (st_heap st) ⊆ h_blocks (st_heap st');
  sto_tracked : forall b2 blk2, tracked (st_heap st) ot b2 blk2 -> tracked (st_heap st') ot' b2 blk2;
  sto_stats : st_stats st' = st_stats st;
  sto_pub : st_pub st' = st_pub st
}.

(** The temporal shadow of a new block. *)
Lemma shadow_alloc h sz : exists shadow bufs',
  (if sizeof_ptr <=? sz then malloc_buf h sz junk else Ret (NULL, h)) =
    Ret (shadow, set_bufs h bufs') /\
  (shadow = NULL /\ bufs' = h_bufs h \/
   shadow ∉ dom (h_bufs h) /\ exists v, bufs' = <[shadow := v]> (h_bufs h)).
Proof using PAok.
  destruct (sizeof_ptr <=? sz).
  - unfold malloc_buf. set (q := private_malloc _ _).
    rewrite eqb_false by apply private_malloc_served. do 2 eexists. split; [done|]. right.
    split; [|eauto]. pose proof (private_malloc_fresh (live h) sz) as Hq. fold q in Hq.
    unfold live in Hq. set_solver.
  - exists NULL, (h_bufs h). split; [by destruct h|auto].
Qed.

Lemma store_block_stored st M p sz : models (st_heap st) M -> new_range M p sz ->
  exists b st' stamp shadow ot ot', store_block cfg st p sz = Ret (b, st') /\
    stored st st' M p sz b stamp shadow ot ot'.
Proof using PAok.
  intros HM Hn.
  destruct (store_block_insert st M p sz HM Hn) as (b & h & ot & ot' & -> & Hat & Hi & Ebf & Hfr & Ebl & Htr).
  unfold store_block_temporal. set (blk := mk_block p sz NULL 0 0 0 0 NULL) in *.
  assert (h_blocks (st_heap st) ⊆ h_blocks h) as Hsub by (rewrite Ebl; by apply insert_subseteq, not_elem_of_dom).
  destruct (cfg_temporal cfg) eqn:Et.
  2:{ do 6 eexists. split; [done|]. constructor; try done; [cbn; by rewrite Et|cbn; by rewrite Ebf|].
      intros. apply Htr. auto. }
  cbn [set_heap st_heap]. rewrite (at_load _ _ _ _ _ Hat). cbn [obind].
  set (stamp := NEW_TEMPORAL_TIMESTAMP _).
  destruct (shadow_alloc h sz) as (shadow & bufs' & -> & Hb). cbn [obind].
  unfold store_block_at. rewrite eqb_false by apply (at_nonnull _ _ _ _ _ Hat).
  cbn [h_blocks set_bufs]. rewrite (proj2 (at_tracked _ _ _ _ _ Hat)). cbn [obind].
  set (blk' := set_temporal blk stamp shadow).
  assert (buf_update h ot' b blk blk' bufs') as Hbu.
  { destruct Hb as [[-> ->]|(Hf & v & ->)]; [by eapply buf_update_same|].
    eapply buf_update_fresh; eauto. }
  pose proof (at_ok _ _ _ _ _ Hat) as Hok.
  assert (blk_ok bufs' blk') as Hok' by (destruct Hok; by constructor).
  pose proof (at_update h _ ot' b blk blk' bufs' Hat eq_refl Hok' eq_refl Hbu) as Hup.
  rewrite insert_insert_eq in Hup. exists b. eexists. exists stamp, shadow, ot, ot'. split; [done|].
  constructor; try done.
  - rewrite <- Ebf. cbn. destruct Hb as [[_ ->]|(Hf & v & ->)]; [done|].
    by apply insert_subseteq, not_elem_of_dom.
  - cbn. rewrite Ebl, insert_insert_eq. by apply insert_subseteq, not_elem_of_dom.
  - intros b2 blk2 H2. apply (updated_tracked h ot' b blk blk' bufs'); [by destruct Hat..|].
    right. split; [|by apply Htr; right]. intros ->. apply Hfr. destruct H2 as [_ E2].
    by apply elem_of_dom_2 in E2.
Qed.

(** The part of [delete_block] before the removal from the trie. *)
Lemma free_shadow_at h M ot b blk : at_block h M ot b blk -> bk_init_ptr blk = NULL ->
  exists bufs', (if cfg_temporal cfg then
      let* b := load_block h b in free_buf h (bk_temporal_shadow b) else Ret h) =
    Ret (set_bufs h bufs') /\ frames h ot b bufs'.
Proof.
  intros Hat Hn. destruct (cfg_temporal cfg); [|exists (h_bufs h); by destruct h].
  rewrite (at_load _ _ _ _ _ Hat). cbn [obind]. unfold free_buf.
  destruct (Z.eqb_spec (bk_temporal_shadow blk) NULL) as [E|E]; [exists (h_bufs h); by destruct h|].
  destruct (own_alloc _ _ (at_own _ _ _ _ _ Hat) (bk_temporal_shadow blk)) as [m ->]; [by split; auto|].
  eexists. split; [done|]. eapply frames_own; eauto.
Qed.

Lemma delete_block_refines h M p ab : models h M -> M !! p = Some ab ->
  exists h', delete_block cfg h p = Ret h' /\ models h' (delete p M).
Proof using PAok.
  intros HM E. destruct (lookup_at cfg h M p ab HM E) as (ot & b & blk & Eb & Hat & Ep & _).
  pose proof (ok_base _ _ (at_ok _ _ _ _ _ Hat)). pose proof (at_nonnull _ _ _ _ _ Hat) as Hb.
  unfold delete_block. rewrite !neqb_true by (unfold NULL; lia).
  replace (if cfg_debug cfg then vassert true else Ret tt) with (Ret tt) by (by destruct cfg_debug).
  cbn [obind]. rewrite Eb. cbn [obind]. rewrite !neqb_true by done.
  replace (if cfg_debug cfg then vassert true else Ret tt) with (Ret tt) by (by destruct cfg_debug).
  cbn [obind]. destruct (clean_init_at h M ot b blk Hat) as (h1 & -> & Hat1). cbn [obind].
  destruct (free_shadow_at _ _ _ _ _ Hat1 eq_refl) as (bufs' & -> & Hf). cbn [obind].
  destruct (remove_at_bufs cfg _ _ _ _ _ _ Hat1 Hf) as (h2 & ot2 & -> & Ebs & Hi2 & Ha2 & Hut). cbn [obind].
  unfold free_block. rewrite eqb_false, Ebs, (proj2 (at_tracked _ _ _ _ _ Hat1)) by done.
  rewrite <- Ebs. eexists. split; [done|].
  destruct (inv_dealloc h2 ot2 b Hi2) as [Hi3 Htr]; [intros; by eapply Hut|].
  exists ot2. split; [done|]. intros a ab'. cbn [set_init bk_ptr] in Ha2.
  rewrite delete_insert_eq, Ep in Ha2. rewrite (Ha2 a ab'). by setoid_rewrite Htr.
Qed.
End StoreDelete.

(** ** The heap of the application *)

Section HeapOps.
Context `{PA : !PrivateAlloc, PAok : !PrivateAllocOk, PB : !PublicAlloc} (cfg : config).

(** The state represents [M] and its counters are those of [M]. *)
Definition st_models (st : state) (M : amem) : Prop :=
  models (st_heap st) M /\ heap_allocation_size (st_stats st) = u64 (heap_bytes M) /\
  heap_allocated_blocks (st_stats st) = u64 (heap_count M).

Lemma new_range_absent M p sz : new_range cfg M p sz -> M !! p = None.
Proof.
  intros (_ & _ & _ & Hf & _). destruct (M !! p) as [ab|] eqn:E; [|done]. by destruct (Hf _ _ E).
Qed.

Lemma store_block_refines st M p sz : st_models st M -> new_range cfg M p sz ->
  exists b st', store_block cfg st p sz = Ret (b, st') /\ b <> NULL /\
    st_models st' (<[p := mk_ablock sz ∅ false false]> M) /\ st_pub st' = st_pub st.
Proof using PAok.
  intros (HM & Eb & Ec) Hn. pose proof (new_range_absent _ _ _ Hn) as Hab.
  destruct (store_block_stored cfg st M p sz HM Hn) as (b & st' & stamp & shadow & ot & ot' & -> & Hst).
  exists b, st'. pose proof (sto_at _ _ _ _ _ _ _ _ _ _ _ Hst) as Hat.
  split; [done|]. split; [by eapply at_nonnull|]. split; [|apply Hst].
  split_and!; [by eapply at_models|..]; rewrite (sto_stats _ _ _ _ _ _ _ _ _ _ _ Hst);
    [rewrite heap_bytes_insert|rewrite heap_count_insert]; try done; by rewrite Z.add_0_r.
Qed.

(** The counters after an update with the size of an object. *)
Lemma account_add st sz B C : 0 < sz < 2 ^ 63 -> heap_allocation_size (st_stats st) = u64 B ->
  heap_allocated_blocks (st_stats st) = u64 C ->
  heap_allocation_size (st_stats (account st (s64 sz))) = u64 (B + sz) /\
  heap_allocated_blocks (st_stats (account st (s64 sz))) = u64 (C + 1).
Proof.
  intros Hs E1 E2. rewrite s64_small by lia. unfold account, update_heap_allocation. cbn.
  rewrite (proj2 (Z.ltb_lt 0 sz)), E1, E2, !u64_add by lia. done.
Qed.

Lemma account_sub st sz B C : 0 < sz < 2 ^ 63 -> heap_allocation_size (st_stats st) = u64 B ->
  heap_allocated_blocks (st_stats st) = u64 C ->
  heap_allocation_size (st_stats (account st (s64 (u64 (- sz))))) = u64 (B - sz) /\
  heap_allocated_blocks (st_stats (account st (s64 (u64 (- sz))))) = u64 (C - 1).
Proof.
  intros Hs E1 E2. assert (s64 (u64 (- sz)) = - sz) as ->.
  { unfold s64, u64. rewrite Zplus_mod_idemp_l, Z.mod_small; lia. }
  unfold account, update_heap_allocation. cbn.
  rewrite (proj2 (Z.ltb_ge 0 (- sz))), (proj2 (Z.ltb_lt (- sz) 0)), E1, E2 by lia.
  replace (u64 C - 1) with (u64 C + -1) by lia. rewrite !u64_add. done.
Qed.

Lemma store_freeable_block_refines st M p sz (init : bool) :
  st_models st M -> new_range cfg M p sz -> 0 < sz ->
  exists b st', store_freeable_block cfg st p sz (b2i init) = Ret (b, st') /\
    st_models st' (<[p := mk_ablock sz (if init then all_offsets sz else ∅) false true]> M) /\
    st_pub st' = st_pub st.
Proof using PAok.
  intros (HM & Eb & Ec) Hn Hpos. pose proof (new_range_absent _ _ _ Hn) as Hab.
  assert (sz < 2 ^ 63) as Hlt by (destruct Hn as (_ & Hs & _); unfold max_size in Hs; lia).
  unfold store_freeable_block. rewrite neqb_true by (destruct Hn; unfold NULL; lia).
  destruct (store_block_stored cfg st M p sz HM Hn) as (b & st' & stamp & shadow & ot0 & ot & -> & Hst).
  cbn [obind]. pose proof (sto_at _ _ _ _ _ _ _ _ _ _ _ Hst) as Hat.
  pose proof (sto_pub _ _ _ _ _ _ _ _ _ _ _ Hst) as Epub.
  rewrite <- (sto_stats _ _ _ _ _ _ _ _ _ _ _ Hst) in Eb, Ec.
  pose proof (at_nonnull _ _ _ _ _ Hat) as Hb. set (h' := st_heap st') in *.
  rewrite (at_load _ _ _ _ _ Hat). cbn [obind]. rewrite (at_store _ _ _ _ _ _ Hat). cbn [obind].
  set (blk := mk_block p sz NULL 0 0 0 stamp shadow) in *. pose proof (at_ok _ _ _ _ _ Hat) as Hok.
  set (st1 := set_heap _ _).
  destruct (account_add st1 sz _ _ (conj Hpos Hlt) Eb Ec) as [A1 A2].
  assert (forall blk' I, bk_ptr blk' = p -> bk_size blk' = sz -> bk_init_ptr blk' = NULL ->
    bk_temporal_shadow blk' = shadow -> blk_ok (h_bufs h') blk' ->
    abs_block (h_bufs h') blk' = mk_ablock sz I false true ->
    models (updated h' b blk' (h_bufs h')) (<[p := mk_ablock sz I false true]> M)) as Hfin.
  { intros blk' I E1 E2 E3 E4 Hok' Eabs.
    rewrite <- (insert_insert_eq M p _ (mk_ablock sz ∅ false false)).
    change p with (bk_ptr blk) at 1.
    eapply at_update_models; eauto. by eapply buf_update_same. }
  rewrite b2i_i2b. destruct init.
  - cbn [st_heap account set_heap st1]. rewrite load_ins by done. cbn [obind].
    rewrite store_ins by done. cbn [obind]. eexists _, _. split; [done|]. split; [|done].
    destruct (blk_ok_full (h_bufs h') (h_bufs h') (set_freeable blk 1)) as [Hok' Es'];
      [by apply (blk_ok_same _ blk)|].
    split_and!; cbn [st_heap set_heap st_stats].
    + eapply (Hfin (set_init (set_freeable blk 1) NULL sz)); try done.
      unfold abs_block. simpl in Es' |- *. by rewrite Es'.
    + rewrite heap_bytes_insert by done. exact A1.
    + rewrite heap_count_insert by done. cbn [ab_freeable ab_size]. rewrite eqb_false by lia. exact A2.
  - eexists _, _. split; [done|]. split; [|done].
    split_and!.
    + eapply (Hfin (set_freeable blk 1)); try done. by apply (blk_ok_same _ blk).
    + rewrite heap_bytes_insert by done. exact A1.
    + rewrite heap_count_insert by done. cbn [ab_freeable ab_size]. rewrite eqb_false by lia. exact A2.
Qed.
End HeapOps.
