(* ===== verification/BtHeap.v ===== *)
(** * The allocation functions of the trie model

    [malloc], [calloc], [aligned_alloc], [posix_memalign], [free] and [realloc]
    against the abstract state, and the accounting of the application's heap. *)

From S2P Require Import Prelude AMem Alloc Temporal Bits Mask Trie Bittree BittreeRep BtModel BtSpec BtRefine.

(** ** Powers of two *)

Lemma powof2_loop_spec fuel x : 0 <= x < 2 ^ Z.of_nat fuel ->
  exists r, powof2_loop fuel x = Ret r /\ (r = 0 \/ r = 1) /\
    (r = 1 <-> exists k, 0 <= k /\ x = 2 ^ k).
Proof.
  revert x. induction fuel as [|fuel IH]; intros x Hx; cbn [powof2_loop].
  { assert (x = 0) as -> by (simpl in Hx; lia). simpl. exists 0. split_and!; [done|auto|].
    split; [done|]. intros (k & Hk & E). pose proof (Z.pow_pos_nonneg 2 k). lia. }
  assert (Z.land x 1 = x mod 2) as Hl.
  { change 1 with (Z.ones 1). rewrite Z.land_ones by lia. done. }
  rewrite Hl. rewrite Nat2Z.inj_succ, Z.pow_succ_r in Hx by lia.
  destruct (Z.eqb_spec (x mod 2) 0) as [E|E], (Z.ltb_spec 1 x); cbn [andb].
  - rewrite Z.shiftr_div_pow2 by lia. change (2 ^ 1) with 2.
    destruct (IH (x / 2)) as (r & -> & H01 & Hiff); [dlia|]. exists r. split_and!; [done..|].
    rewrite Hiff. split; intros (k & Hk & Ek).
    + exists (k + 1). split; [lia|]. rewrite Z.pow_add_r by lia. change (2 ^ 1) with 2. dlia.
    + destruct (Z.eq_dec k 0) as [->|]; [simpl in Ek; lia|]. exists (k - 1). split; [lia|].
      rewrite Ek. replace k with (k - 1 + 1) at 1 by lia. rewrite Z.pow_add_r by lia.
      change (2 ^ 1) with 2. apply Z.div_mul. lia.
  - assert (x = 0) as -> by dlia. exists 0. split_and!; [done|auto|]. split; [done|].
    intros (k & Hk & Ek). pose proof (Z.pow_pos_nonneg 2 k). lia.
  - exists (b2i (x =? 1)). split_and!; [done|destruct (x =? 1); auto|].
    rewrite eqb_false by lia. split; [done|]. intros (k & Hk & Ek). exfalso.
    destruct (Z.eq_dec k 0) as [->|]; [simpl in Ek; lia|].
    replace k with (k - 1 + 1) in Ek by lia. rewrite Z.pow_add_r in Ek by lia.
    change (2 ^ 1) with 2 in Ek. rewrite Ek, Z.mod_mul in E by lia. lia.
  - assert (x = 1) as -> by dlia. exists 1. split_and!; [done|auto|]. split; [|done].
    intros _. by exists 0.
Qed.

Lemma powof2_spec x : in_u 64 x -> exists r, powof2 x = Ret r /\ (r = 0 \/ r = 1) /\
  (r = 1 <-> exists k, 0 <= k /\ x = 2 ^ k).
Proof. intros Hx. by apply (powof2_loop_spec 64). Qed.

Section HeapFunctions.
Context `{PA : !PrivateAlloc, PAok : !PrivateAllocOk, PB : !PublicAlloc} (cfg : config).

(** What the allocator of the application promises for an answer [res] to a
    request of [sz] bytes: no memory, or a range that no block meets. *)
Definition good_answer (M : amem) (res sz : Z) : Prop := res = NULL \/ new_range cfg M res sz.

(** The abstract effect of a successful allocation. *)
Definition a_alloc (M : amem) (res sz : Z) (init : bool) : amem :=
  if res =? NULL then M
  else <[res := mk_ablock sz (if init then all_offsets sz else ∅) false true]> M.

Lemma set_pub_models st pb M : st_models st M -> st_models (set_pub st pb) M.
Proof. done. Qed.

Lemma store_answer st M res sz init : st_models st M -> good_answer M res sz -> 0 < sz ->
  exists b st', store_freeable_block cfg st res sz (b2i init) = Ret (b, st') /\
    st_models st' (a_alloc M res sz init) /\ st_pub st' = st_pub st.
Proof using PAok.
  intros HM Hg Hs. unfold a_alloc. destruct (Z.eqb_spec res NULL) as [->|Hn].
  - exists NULL, st. done.
  - destruct Hg as [|Hg]; [done|]. by apply store_freeable_block_refines.
Qed.

Lemma malloc_refines st M sz res pb : st_models st M -> 0 < sz ->
  public_malloc (st_pub st) sz = (res, pb) -> good_answer M res sz ->
  exists st', malloc cfg st sz = Ret (res, st') /\ st_models st' (a_alloc M res sz false) /\
    st_pub st' = pb.
Proof using PAok.
  intros HM Hs E Hg. unfold malloc. rewrite eqb_false, E by lia.
  destruct (store_answer (set_pub st pb) M res sz false) as (b & st' & E' & HM' & Ep); [done..|].
  change 0 with (b2i false) at 1. rewrite E'. cbn [obind]. eauto.
Qed.

Lemma calloc_refines st M n k res pb : st_models st M -> 0 < u64 (n * k) ->
  public_calloc (st_pub st) n k = (res, pb) -> good_answer M res (u64 (n * k)) ->
  exists st', calloc cfg st n k = Ret (res, st') /\
    st_models st' (a_alloc M res (u64 (n * k)) true) /\ st_pub st' = pb.
Proof using PAok.
  intros HM Hs E Hg. unfold calloc. rewrite eqb_false, E by lia.
  destruct (store_answer (set_pub st pb) M res (u64 (n * k)) true) as (b & st' & E' & HM' & Ep); [done..|].
  change 1 with (b2i true) at 1. rewrite E'. cbn [obind]. eauto.
Qed.

(** The argument checks of [aligned_alloc] and [posix_memalign]. *)
Definition good_alignment (alignment : Z) : Prop := exists k, 0 <= k /\ alignment = 2 ^ k.

Lemma aligned_alloc_refines st M al sz res pb : st_models st M -> in_u 64 al -> 0 <= sz ->
  public_aligned_alloc (st_pub st) al sz = (res, pb) -> good_answer M res sz ->
  (good_alignment al /\ 0 < sz /\ sz mod al = 0 /\ exists st',
     aligned_alloc cfg st al sz = Ret (res, st') /\ st_models st' (a_alloc M res sz false)) \/
  (~ (good_alignment al /\ 0 < sz /\ sz mod al = 0) /\ aligned_alloc cfg st al sz = Ret (NULL, st)).
Proof using PAok.
  intros HM Hal Hs E Hg. unfold aligned_alloc, good_alignment.
  destruct (powof2_spec al Hal) as (r & -> & H01 & Hiff). cbn [obind].
  destruct (Z.eqb_spec sz 0); [right; split; [naive_solver lia|done]|].
  destruct (Z.eqb_spec al 0); [right; split; [|done]|].
  { intros ((k & Hk & Ek) & _). pose proof (Z.pow_pos_nonneg 2 k). lia. }
  destruct H01 as [->| ->]; cbn [orb negb i2b Z.eqb]; [right; split; [|done]|].
  { intros (Hp & _). apply Hiff in Hp. done. }
  destruct (Z.eqb_spec (sz mod al) 0); cbn [negb]; [left|right; split; [naive_solver|done]].
  split_and!; [by apply Hiff|lia|done|]. rewrite E.
  destruct (store_answer (set_pub st pb) M res sz false) as (b & st' & E' & HM' & _); [done|done|lia|].
  change 0 with (b2i false) at 1. rewrite E'. cbn [obind]. eauto.
Qed.

(** [free] of a block of the heap. *)
Lemma free_refines st M p ab : st_models st M -> M !! p = Some ab ->
  ab_freeable ab = true -> 0 < ab_size ab ->
  exists st', free cfg st p = Ret st' /\ st_models st' (delete p M) /\
    st_pub st' = public_free (st_pub st) p.
Proof using PAok.
  intros (HM & Eb & Ec) E Hfr Hpos. unfold free.
  destruct (lookup_at cfg _ M p ab HM E) as (ot & b & blk & El & Hat & Ep & Eab).
  pose proof (at_ok _ _ _ _ _ Hat) as Hok. pose proof (ok_base _ _ Hok).
  pose proof (at_nonnull _ _ _ _ _ Hat) as Hb.
  rewrite eqb_false, El by (unfold NULL; lia). cbn [obind]. rewrite eqb_false by done.
  rewrite (at_load _ _ _ _ _ Hat). cbn [obind].
  assert (bk_size blk = ab_size ab) as Es by (by rewrite Eab).
  destruct (account_sub st (bk_size blk) (heap_bytes M) (heap_count M)) as [A1 A2]; [|done..|].
  { rewrite Es. split; [done|]. destruct (ok_size _ _ Hok). unfold max_size in *. lia. }
  cbn [st_heap set_pub account].
  destruct (clean_init_at _ M ot b blk Hat) as (h1 & -> & Hat1). cbn [obind].
  destruct (remove_at cfg _ _ _ _ _ Hat1) as (h2 & ot2 & -> & _ & Hi2 & Ha2 & _). cbn [obind].
  eexists. split; [done|]. split; [|done]. cbn [set_init bk_ptr] in Ha2.
  rewrite delete_insert_eq, Ep in Ha2. split_and!; [by exists ot2|..].
  - etransitivity; [exact A1|]. f_equal. rewrite (heap_bytes_delete M p ab), Hfr, Es by done. lia.
  - etransitivity; [exact A2|]. f_equal. rewrite (heap_count_delete M p ab), Hfr by done.
    rewrite eqb_false by lia. lia.
Qed.

(** [free] of an address where no block starts ends the program. *)
Lemma free_absent st M p : models (st_heap st) M -> M <> ∅ -> in_u W p -> p <> NULL ->
  M !! p = None -> free cfg st p = Abort.
Proof.
  intros HM Hne Hu Hn E. unfold free.
  by rewrite eqb_false, (lookup_absent cfg _ M).
Qed.
End HeapFunctions.
