(* ===== verification/BtTrace.v ===== *)
(** * Runs of the trie model

    Sequences of operations as the instrumented program issues them, their
    abstract steps, and the simulation: from a state that represents [M], a
    sequence that the abstract machine can perform runs to its end and reaches a
    state that represents the abstract result.  The section at the end holds a
    concrete instance of the two allocators. *)

From S2P Require Import Prelude AMem Alloc Temporal Bits Mask Trie Bittree BittreeRep BtModel BtSpec BtRefine BtHeap.

(** ** End of the program *)

Lemma tree_bufs_elem bs (l : list (Z * Z)) p : p ∈ flat_map (fun x => block_buf bs x.2) l <->
  exists a b blk, (a, b) ∈ l /\ bs !! b = Some blk /\ bk_init_ptr blk = p /\ p <> NULL.
Proof.
  induction l as [|[a b] l IH]; simpl; [set_solver|]. rewrite elem_of_app, IH.
  unfold block_buf at 1. simpl. split.
  - intros [Hp|(a' & b' & blk & ? & ? & ? & ?)]; [|exists a', b', blk; set_solver].
    destruct (bs !! b) as [blk|] eqn:E; [|set_solver].
    destruct (Z.eqb_spec (bk_init_ptr blk) NULL); [set_solver|].
    apply list_elem_of_singleton in Hp. exists a, b, blk. set_solver.
  - intros (a' & b' & blk & Hin & E & Ep & Hn). apply elem_of_cons in Hin as [[= -> ->]|Hin].
    + left. rewrite E. rewrite eqb_false by congruence. set_solver.
    + right. eauto 10.
Qed.

Lemma inv_bufs_ok h t : inv h (Some t) -> bufs_ok h t.
Proof.
  intros Hi. pose proof (inv_tree _ _ Hi) as Ht.
  assert (forall a b blk, (a, b) ∈ leaves t -> h_blocks h !! b = Some blk ->
    tracked h (Some t) b blk) as Htr.
  { intros a b blk Hin E. destruct (tracked_leaf h (Some t) a b Ht Hin) as (k & [Hk Ek] & _).
    assert (k = blk) as <- by congruence. by split. }
  pose proof (tree_wf _ _ Ht) as [k Hwf].
  assert (NoDup (map snd (leaves t))) as Hnd by (eapply leaf_blocks_NoDup; [exact Hwf|apply Ht]).
  split.
  - unfold tree_bufs. induction (leaves t) as [|[a b] l IH]; simpl; [constructor|].
    apply NoDup_cons in Hnd as [Hb Hnd].
    apply NoDup_app. split_and!.
    + unfold block_buf. destruct (h_blocks h !! b); [destruct (_ =? _)|];
        auto using NoDup_nil_2, NoDup_singleton.
    + intros p Hp1 Hp2. apply tree_bufs_elem in Hp2 as (a' & b' & blk' & Hin & E & Ep & Hn).
      unfold block_buf in Hp1. destruct (h_blocks h !! b) as [blk|] eqn:Eb; [|simpl in Hp1; set_solver].
      simpl in Hp1. destruct (Z.eqb_spec (bk_init_ptr blk) NULL); [set_solver|].
      apply list_elem_of_singleton in Hp1. subst p.
      assert (b <> b').
      { intros ->. apply Hb, list_elem_of_fmap. by exists (a', b'). }
      apply (inv_bufs _ _ Hi b blk b' blk' (bk_init_ptr blk')); 
        [| |done|split; [congruence|by left]|split; [congruence|by left]].
      * apply (Htr a); [set_solver|done].
      * apply (Htr a'); [set_solver|done].
    + apply IH; [|done]. intros a' b' blk Hin. apply (Htr a'). set_solver.
  - intros p Hp. apply tree_bufs_elem in Hp as (a & b & blk & Hin & E & <- & Hn).
    destruct (ok_buf _ _ (inv_ok _ _ Hi _ _ (Htr a b blk Hin E)) Hn) as (buf & -> & _). eauto.
Qed.

(** An empty trie represents the empty memory. *)
Lemma models_empty bs bufs : models (mk_heap ∅ bs bufs NULL) ∅.
Proof.
  exists None. assert (forall h b blk, ~ tracked h None b blk) as Hno.
  { intros h b blk [Hin _]. simpl in Hin. set_solver. }
  split.
  - constructor; [done|intros; exfalso; by eapply Hno..].
  - intros a ab. rewrite lookup_empty. split; [done|].
    intros (b & blk & [Hin _] & _). simpl in Hin. set_solver.
Qed.

Lemma memory_clean_refines h ot : inv h ot ->
  exists h', memory_clean h = Ret h' /\ models h' ∅ /\ h_nodes h' = ∅ /\
    forall b blk, tracked h ot b blk -> h_blocks h' !! b = None /\
      (bk_init_ptr blk <> NULL -> h_bufs h' !! bk_init_ptr blk = None).
Proof.
  intros Hi. destruct (bt_clean_tree h ot (inv_tree _ _ Hi)) as (bs & bufs & E & W1 & W2).
  { destruct ot; [by apply inv_bufs_ok|done]. }
  eexists. split; [exact E|]. split; [apply models_empty|]. split; [done|].
  intros b blk [Hin Eb]. cbn [h_blocks h_bufs]. split.
  - rewrite W1, decide_True; [done|]. apply list_elem_of_fmap. by exists (bk_ptr blk, b).
  - intros Hn. rewrite W2. destruct ot as [t|]; [|simpl in Hin; set_solver].
    rewrite decide_True; [done|]. apply tree_bufs_elem. eauto 10.
Qed.

(** ** Runs *)

Section Runs.
Context `{PA : !PrivateAlloc, PAok : !PrivateAllocOk, PB : !PublicAlloc} (cfg : config).

Definition on_heap (st : state) (o : outcome heap) : outcome state :=
  let* h := o in Ret (set_heap st h).

Definition run_op (st : state) (o : op) : outcome state :=
  match o with
  | OStore p sz => let* (_, st) := store_block cfg st p sz in Ret st
  | ODelete p => on_heap st (delete_block cfg (st_heap st) p)
  | OInitialize p sz => on_heap st (initialize cfg (st_heap st) p sz)
  | OFullInit p => on_heap st (full_init cfg (st_heap st) p)
  | OMarkReadonly p => on_heap st (mark_readonly cfg (st_heap st) p)
  | OMalloc sz => let* (_, st) := malloc cfg st sz in Ret st
  | OCalloc n k => let* (_, st) := calloc cfg st n k in Ret st
  | OFree p => free cfg st p
  end.

Fixpoint run (st : state) (ops : list op) : outcome state :=
  match ops with
  | [] => Ret st
  | o :: ops => let* st := run_op st o in run st ops
  end.

(** The abstract machine: the abstract memory and the application's allocator. *)
Inductive astep : amem * pub -> op -> amem * pub -> Prop :=
| AStore M a p sz : new_range cfg M p sz ->
    astep (M, a) (OStore p sz) (<[p := mk_ablock sz ∅ false false]> M, a)
| ADelete M a p ab : M !! p = Some ab -> ab_freeable ab = false ->
    astep (M, a) (ODelete p) (delete p M, a)
| AInitialize M a p sz b ab : contains M p b ab -> 0 <= p < 2 ^ 64 -> 0 <= sz < 2 ^ 32 ->
    p + sz <= b + ab_size ab ->
    astep (M, a) (OInitialize p sz)
      (<[b := mk_ablock (ab_size ab) (ab_init ab ∪ offsets (p - b) (p - b + sz))
                (ab_readonly ab) (ab_freeable ab)]> M, a)
| AFullInit M a p ab : M !! p = Some ab ->
    astep (M, a) (OFullInit p)
      (<[p := mk_ablock (ab_size ab) (all_offsets (ab_size ab)) (ab_readonly ab)
                (ab_freeable ab)]> M, a)
| AMarkReadonly M a p ab : M !! p = Some ab ->
    astep (M, a) (OMarkReadonly p)
      (<[p := mk_ablock (ab_size ab) (ab_init ab) true (ab_freeable ab)]> M, a)
| AMalloc M a sz res a' : 0 < sz -> public_malloc a sz = (res, a') -> good_answer cfg M res sz ->
    astep (M, a) (OMalloc sz) (a_alloc M res sz false, a')
| AMallocZero M a : astep (M, a) (OMalloc 0) (M, a)
| ACalloc M a n k res a' : 0 < u64 (n * k) -> public_calloc a n k = (res, a') ->
    good_answer cfg M res (u64 (n * k)) ->
    astep (M, a) (OCalloc n k) (a_alloc M res (u64 (n * k)) true, a')
| AFree M a p ab : M !! p = Some ab -> ab_freeable ab = true -> 0 < ab_size ab ->
    astep (M, a) (OFree p) (delete p M, public_free a p)
| AFreeNull M a : cfg_free_valid_address cfg = false -> astep (M, a) (OFree NULL) (M, a).

Inductive asteps : amem * pub -> list op -> amem * pub -> Prop :=
| asteps_nil s : asteps s [] s
| asteps_cons s1 o s2 ops s3 : astep s1 o s2 -> asteps s2 ops s3 -> asteps s1 (o :: ops) s3.

(** The simulation relation. *)
Definition simulates (st : state) (s : amem * pub) : Prop :=
  st_models st s.1 /\ st_pub st = s.2.

(** An operation on the private heap that changes neither sizes nor flags. *)
Lemma on_heap_same st M a h' p ab ab' : simulates st (M, a) -> M !! p = Some ab ->
  ab_size ab' = ab_size ab -> ab_freeable ab' = ab_freeable ab ->
  models h' (<[p := ab']> M) -> simulates (set_heap st h') (<[p := ab']> M, a).
Proof.
  intros [(_ & Eb & Ec) Ea] E Es Ef HM. destruct (heap_same_counters M p ab ab' E Es Ef) as [B C].
  split; [|done]. split_and!; [done|..]; cbn; by rewrite ?B, ?C.
Qed.

Lemma astep_simulated st s o s' : simulates st s -> astep s o s' ->
  exists st', run_op st o = Ret st' /\ simulates st' s'.
Proof using PAok.
  intros Hsim Hstep.
  destruct Hstep as [M a p sz Hn|M a p ab Hl Hf|M a p sz b ab Hc Hp Hs He|M a p ab Hl|M a p ab Hl
    |M a sz res a' Hs Hpub Hg|M a|M a n k res a' Hs Hpub Hg|M a p ab Hl Hf Hs|M a Hv];
    pose proof Hsim as [Hst Ea]; cbn [fst snd] in Hst, Ea;
    pose proof (proj1 Hst) as HM; cbn [run_op].
  - destruct (store_block_refines cfg st M p sz Hst Hn) as (b & st' & -> & _ & HM' & Ep).
    eexists. split; [done|]. split; [done|]. by rewrite Ep.
  - destruct (delete_block_refines cfg _ M p ab HM Hl) as (h' & -> & HM').
    eexists. split; [done|]. split; [|done]. destruct Hst as (_ & Eb & Ec).
    rewrite (heap_bytes_delete M p ab), Hf, Z.add_0_r in Eb by done.
    rewrite (heap_count_delete M p ab), Hf, Z.add_0_r in Ec by done. by split.
  - destruct (initialize_refines cfg _ M p sz b ab HM Hc Hp Hs He) as (h' & -> & HM').
    eexists. split; [done|]. apply (on_heap_same st M a h' b ab); [done|apply Hc|done..].
  - destruct (full_init_refines cfg _ M p ab HM Hl) as (h' & -> & HM').
    eexists. split; [done|]. by apply (on_heap_same st M a h' p ab).
  - destruct (mark_readonly_refines cfg _ M HM p ab Hl) as (h' & -> & HM').
    eexists. split; [done|]. by apply (on_heap_same st M a h' p ab).
  - rewrite <- Ea in Hpub.
    destruct (malloc_refines cfg st M sz res a' Hst Hs Hpub Hg) as (st' & -> & HM' & Ep).
    eexists. split; [done|]. by split.
  - eexists. split; [done|]. done.
  - rewrite <- Ea in Hpub.
    destruct (calloc_refines cfg st M n k res a' Hst Hs Hpub Hg) as (st' & -> & HM' & Ep).
    eexists. split; [done|]. by split.
  - destruct (free_refines cfg st M p ab Hst Hl Hf Hs) as (st' & -> & HM' & Ep).
    eexists. split; [done|]. split; [done|]. by rewrite Ep, Ea.
  - unfold free. rewrite Z.eqb_refl, Hv. eauto.
Qed.

Lemma run_simulated st s ops s' : simulates st s -> asteps s ops s' ->
  exists st', run st ops = Ret st' /\ simulates st' s'.
Proof using PAok.
  intros Hsim Hsteps. revert st Hsim.
  induction Hsteps as [s|s1 o s2 ops s3 Hstep Hsteps IH]; intros st Hsim; [by exists st|].
  destruct (astep_simulated st s1 o s2 Hsim Hstep) as (st1 & E & Hsim1). simpl. rewrite E.
  by apply IH.
Qed.
End Runs.

(** ** A concrete instance of the allocators

    Both allocators hand out increasing addresses; the witnesses of the
    theorems run on them. *)

Definition demo_private : PrivateAlloc :=
  {| private_malloc := fun used _ => set_fold Z.max 0 used + 16; junk := 205 |}.

Definition bump (a sz : Z) : Z * Z := (a, a + (sz / 16 + 1) * 16).
Definition demo_public : PublicAlloc :=
  {| pub := Z;
     public_malloc := bump;
     public_calloc := fun a n k => bump a (n * k);
     public_aligned_alloc := fun a al sz => bump (a - a mod al + al) sz;
     public_posix_memalign := fun a al sz => (0, a - a mod al + al, a - a mod al + al + sz);
     public_realloc := fun a _ sz => bump a sz;
     public_free := fun a _ => a;
     mspace_least_addr := fun _ => 65536 |}.

Lemma set_fold_max (X : gset Z) : 0 <= set_fold Z.max 0 X /\ forall x, x ∈ X -> x <= set_fold Z.max 0 X.
Proof.
  apply (set_fold_ind_L (fun r X => 0 <= r /\ forall x, x ∈ X -> x <= r)); [set_solver by lia|].
  intros x Y r _ [Hr HY]. split; [lia|]. intros y. rewrite elem_of_union, elem_of_singleton.
  intros [->|Hy]; [lia|]. specialize (HY y Hy). lia.
Qed.

Lemma demo_private_ok : @PrivateAllocOk demo_private.
Proof.
  constructor; cbn.
  - intros used sz. destruct (set_fold_max used). unfold NULL. lia.
  - intros used sz Hin. destruct (set_fold_max used) as [_ H]. specialize (H _ Hin). lia.
  - unfold in_u. lia.
Qed.

Section Demo.
#[local] Existing Instance demo_private.
#[local] Existing Instance demo_public.

Definition demo_st0 : state := mk_state _ (mk_heap ∅ ∅ ∅ NULL) (mk_stats 0 0) 2 65536 ∅ 0.

(** A stack block, partly initialized, a literal, and a heap block. *)
Definition demo_ops : list op :=
  [OStore 4096 16; OInitialize 4096 4; OStore 8192 6; OFullInit 8192; OMarkReadonly 8192; OMalloc 32].

Definition demo_mem : amem :=
  <[65536 := mk_ablock 32 ∅ false true]>
  (<[8192 := mk_ablock 6 (all_offsets 6) true false]>
   (<[4096 := mk_ablock 16 (offsets 0 4) false false]> ∅)).

Lemma demo_simulates0 : simulates demo_st0 (∅, 65536).
Proof. split; [|done]. split_and!; [apply models_empty|done..]. Qed.

Ltac concrete_range :=
  unfold new_range, max_size; split_and!; [lia|lia|lia|lia| |lia];
  intros a ab; rewrite ?lookup_insert_Some, ?lookup_empty; naive_solver lia.

Lemma demo_asteps cfg : asteps cfg (∅, 65536) demo_ops (demo_mem, 65584).
Proof.
  unfold demo_ops.
  eapply asteps_cons; [apply (@AStore demo_public); concrete_range|].
  eapply asteps_cons; [eapply (@AInitialize demo_public); [split; [by rewrite lookup_insert_eq|unfold covers; simpl; lia]|lia..|simpl; lia]|].
  eapply asteps_cons; [apply (@AStore demo_public); concrete_range|].
  eapply asteps_cons; [eapply (@AFullInit demo_public); by rewrite lookup_insert_eq|].
  eapply asteps_cons; [eapply (@AMarkReadonly demo_public); by rewrite lookup_insert_eq|].
  eapply asteps_cons; [eapply (@AMalloc demo_public); [lia|done|right; concrete_range]|].
  match goal with |- asteps _ ?s _ _ => assert (s = (demo_mem, 65584)) as -> end;
    [|constructor].
  unfold demo_mem, a_alloc. simpl. rewrite !insert_insert_eq. repeat f_equal; vm_compute; done.
Qed.

Definition demo_final : state :=
  match run default_config demo_st0 demo_ops with Ret st => st | _ => demo_st0 end.
Definition demo_heap : heap := st_heap demo_final.

Lemma demo_final_simulates : simulates demo_final (demo_mem, 65584).
Proof.
  pose proof demo_private_ok.
  destruct (run_simulated default_config demo_st0 (∅, 65536) demo_ops (demo_mem, 65584))
    as (st & E & Hsim); [apply demo_simulates0|apply demo_asteps|].
  unfold demo_final. by rewrite E.
Qed.

Lemma demo_models : models demo_heap demo_mem.
Proof. apply demo_final_simulates. Qed.
End Demo.
