(* ===== verification/BtTheorems.v ===== *)
(** * Properties of the trie model

    The properties of the trie and of e_acsl_bittree_mmodel.c, each with an instance,
    and what goes wrong in [realloc]. *)

From S2P Require Import Prelude AMem Alloc Temporal Bits Mask Trie Bittree BittreeRep BtModel BtSpec BtRefine BtHeap BtTrace.

(** C1.  Refinement.  Every sequence of operations (recording, deletion and
    initialization of blocks, read-only marks, [malloc], [calloc], [free]) that
    the abstract memory of disjoint blocks can perform runs to its end in the
    trie model, with no fault, no failed assertion and no exhausted loop, in
    every configuration (temporal analysis, debug mode, weak validity); the state
    it reaches represents the abstract result, and the counters of the leak report
    are the bytes and the number of its heap blocks. *)
Theorem trie_model_simulation `{PA : !PrivateAlloc, PAok : !PrivateAllocOk, PB : !PublicAlloc}
  (cfg : config) (st : state) (s : amem * pub) (ops : list op) (s' : amem * pub) :
  simulates st s -> asteps cfg s ops s' ->
  exists st', run cfg st ops = Ret st' /\ simulates st' s'.
Proof. by apply run_simulated. Qed.

Lemma trie_model_simulation_witness :
  exists st', @run demo_private demo_public (mk_config true false true false) demo_st0 demo_ops
      = Ret st' /\ @simulates demo_public st' (demo_mem, 65584).
Proof.
  exact (@trie_model_simulation demo_private demo_private_ok demo_public
    (mk_config true false true false) demo_st0 (∅, 65536) demo_ops (demo_mem, 65584)
    demo_simulates0 (demo_asteps (mk_config true false true false))).
Defined.

(** C2.  [bt_find] returns the tracked block that contains an address, and
    [NULL] when no tracked block does; it terminates within its fuel and no
    assertion fails. *)
Theorem bt_find_correct (cfg : config) (h : heap) (ot : option tree) (p : Z) :
  inv h ot -> in_u 64 p ->
  exists r, bt_find cfg h p = Ret r /\
    (forall b blk, b <> NULL -> tracked h ot b blk ->
       r = b <-> covers (bk_ptr blk) (bk_size blk) p) /\
    (r = NULL <-> forall b blk, tracked h ot b blk -> ~ covers (bk_ptr blk) (bk_size blk) p).
Proof.
  intros Hi Hp. destruct (bt_find_spec cfg h ot p Hi Hp) as (r & E & Hf). exists r.
  split; [done|]. destruct Hf as [[-> Hno]|(Hr & blk0 & H0 & C0)].
  - split; [|done]. intros b blk Hb Ht. split; [congruence|]. intros Hc. by destruct (Hno b blk Ht).
  - split.
    + intros b blk Hb Ht. split.
      * intros ->. by rewrite (tracked_fun _ _ _ _ _ Ht H0).
      * intros Hc. by destruct (covers_unique _ _ _ _ _ _ _ Hi H0 Ht C0 Hc).
    + split; [done|]. intros Hno. by destruct (Hno r blk0 H0).
Qed.

Lemma bt_find_correct_witness : exists r, bt_find default_config demo_heap 4099 = Ret r /\ r <> NULL.
Proof.
  destruct demo_models as (ot & Hi & Ha).
  destruct (bt_find_correct default_config demo_heap ot 4099 Hi) as (r & E & _ & Hn);
    [split; reflexivity || (vm_compute; discriminate)|].
  exists r. split; [exact E|]. intros ->.
  destruct (proj1 (Ha 4096 (mk_ablock 16 (offsets 0 4) false false))) as (b & blk & Ht & Ep & Eb).
  - vm_compute. reflexivity.
  - apply (proj1 Hn eq_refl b blk Ht). rewrite Ep. injection Eb as <- _ _ _. left. lia.
Defined.

(** C3.  [bt_insert] adds one block to the trie: the resulting linked structure
    is again a well-formed trie whose nodes are exactly the live ones, and its
    blocks are the old ones and the new one. *)
Theorem bt_insert_correct `{PA : !PrivateAlloc, PAok : !PrivateAllocOk} (cfg : config)
  (h : heap) (ot : option tree) (b : Z) (blk : bt_block) :
  tree_inv h ot -> b <> NULL -> h_blocks h !! b = Some blk -> in_u 64 (bk_ptr blk) ->
  bk_ptr blk ∉ map fst (leaves_of ot) ->
  exists h' t', bt_insert cfg h b = Ret h' /\ tree_inv h' (Some t') /\
    h_blocks h' = h_blocks h /\ h_bufs h' = h_bufs h /\
    leaves t' ≡ₚ (bk_ptr blk, b) :: leaves_of ot.
Proof.
  intros Hi Hb E Hu Hn.
  destruct (bt_insert_tree cfg h ot b blk Hi Hb E Hu Hn) as (h' & t' & Er & Ht & Ebs & Ebf & l1 & l2 & L1 & L2).
  exists h', t'. split_and!; [done..|]. rewrite L1, L2. symmetry. apply Permutation_middle.
Qed.

(** A heap with a block that is not in the trie. *)
Definition demo_heap' : heap :=
  set_blocks demo_heap (<[1000000 := mk_block 12288 8 NULL 0 0 0 0 NULL]> (h_blocks demo_heap)).

Lemma bt_insert_correct_witness :
  exists h', @bt_insert demo_private default_config demo_heap' 1000000 = Ret h'.
Proof.
  destruct demo_models as (ot & Hi & Ha).
  assert (1000000 ∉ dom (h_blocks demo_heap)) as Hf.
  { rewrite elem_of_dom. vm_compute. intros [? [=]]. }
  destruct (inv_alloc _ ot 1000000 (mk_block 12288 8 NULL 0 0 0 0 NULL) Hi Hf) as [Hi' Htr].
  destruct (@bt_insert_correct demo_private demo_private_ok default_config demo_heap' ot 1000000
    (mk_block 12288 8 NULL 0 0 0 0 NULL)) as (h' & t' & E & _).
  - apply (inv_tree _ _ Hi').
  - discriminate.
  - apply lookup_insert_eq.
  - split; [discriminate|reflexivity].
  - intros ([a b] & Ea & Hin)%list_elem_of_fmap. simpl in Ea. subst a.
    destruct (leaves_models demo_heap ot demo_mem 12288 b Hi Ha Hin) as [? [=]].
  - exists h'. exact E.
Defined.

(** C4.  [bt_remove] takes one block out of the trie, keeps the others, leaves
    a well-formed trie whose nodes are exactly the live ones (the leaf and the
    node merged with it are freed), and never reaches its unreachable case. *)
Theorem bt_remove_correct (cfg : config) (h : heap) (t : tree) (b : Z) (blk : bt_block) :
  tree_inv h (Some t) -> h_blocks h !! b = Some blk -> (bk_ptr blk, b) ∈ leaves t ->
  exists h' ot', bt_remove cfg h b = Ret h' /\ tree_inv h' ot' /\
    h_blocks h' = h_blocks h /\ h_bufs h' = h_bufs h /\
    leaves t ≡ₚ (bk_ptr blk, b) :: leaves_of ot'.
Proof.
  intros Hi E Hin. destruct (bt_remove_tree cfg h t b blk Hi E Hin) as (h' & Er & Ht & Ebs & Ebf).
  exists h', (t_delete (bk_ptr blk) t). split_and!; [done..|].
  destruct (tree_wf _ _ Hi) as [k Hwf]. pose proof (t_delete_spec k t _ _ Hwf Hin) as Hd.
  destruct (t_delete (bk_ptr blk) t) as [t'|]; simpl.
  - destruct Hd as (_ & _ & _ & _ & l1 & l2 & -> & ->). symmetry. apply Permutation_middle.
  - by destruct Hd as [n ->].
Qed.

Lemma bt_remove_correct_witness : exists b h' ot',
  bt_remove default_config demo_heap b = Ret h' /\ tree_inv h' ot'.
Proof.
  destruct demo_models as (ot & Hi & Ha).
  destruct (proj1 (Ha 4096 (mk_ablock 16 (offsets 0 4) false false))) as (b & blk & [Hin Eb] & Ep & _).
  - vm_compute. reflexivity.
  - destruct ot as [t|]; [|exfalso; apply not_elem_of_nil in Hin; exact Hin].
    destruct (bt_remove_correct default_config demo_heap t b blk (inv_tree _ _ Hi) Eb Hin)
      as (h' & ot' & E & Ht & _).
    exists b, h', ot'. split; [exact E|exact Ht].
Defined.

(** C5.  [initialize(p, sz)], for a range inside one block, marks exactly the
    bytes of the range: the block gains those offsets, every other block and
    every other attribute is unchanged. *)
Theorem initialize_exact `{PA : !PrivateAlloc, PAok : !PrivateAllocOk} (cfg : config)
  (h : heap) (M : amem) (p sz a : Z) (ab : ablock) :
  models h M -> contains M p a ab -> in_u 64 p -> 0 <= sz < 2 ^ 32 -> p + sz <= a + ab_size ab ->
  exists h', initialize cfg h p sz = Ret h' /\
    models h' (<[a := mk_ablock (ab_size ab) (ab_init ab ∪ offsets (p - a) (p - a + sz))
                        (ab_readonly ab) (ab_freeable ab)]> M).
Proof. apply initialize_refines. Qed.

Lemma initialize_exact_witness :
  exists h', @initialize demo_private default_config demo_heap 4106 3 = Ret h'.
Proof.
  destruct (@initialize_exact demo_private demo_private_ok default_config demo_heap demo_mem 4106 3
    4096 (mk_ablock 16 (offsets 0 4) false false) demo_models) as (h' & E & _).
  - split; [vm_compute; reflexivity|left; simpl; lia].
  - split; [discriminate|reflexivity].
  - lia.
  - simpl. lia.
  - exists h'. exact E.
Defined.

(** C6.  [initialized(p, sz)], for a non-empty range inside one block, is 1 if
    every byte of the range is initialized and 0 otherwise. *)
Theorem initialized_exact (cfg : config) (h : heap) (M : amem) (p sz a : Z) (ab : ablock) :
  models h M -> contains M p a ab -> in_u 64 p -> 0 < sz < 2 ^ 32 -> p + sz <= a + ab_size ab ->
  exists r, initialized cfg h p sz = Ret r /\ (r = 0 \/ r = 1) /\
    (r = 1 <-> forall i, p - a <= i < p - a + sz -> i ∈ ab_init ab).
Proof. intros HM. by apply initialized_models. Qed.

Lemma initialized_exact_witness :
  exists r, initialized default_config demo_heap 4096 6 = Ret r /\ r = 0.
Proof.
  destruct (initialized_exact default_config demo_heap demo_mem 4096 6 4096
    (mk_ablock 16 (offsets 0 4) false false) demo_models) as (r & E & H01 & Hiff).
  - split; [vm_compute; reflexivity|left; simpl; lia].
  - split; [discriminate|reflexivity].
  - lia.
  - simpl. lia.
  - exists r. split; [exact E|]. destruct H01 as [|H1]; [assumption|].
    pose proof (proj1 Hiff H1 5 ltac:(lia)) as H5. simpl in H5. apply elem_offsets in H5. lia.
Defined.

(** C7.  [valid(p, sz, base, addrof)] is 0 unless the [sz] bytes from [p] lie in
    one tracked block, which is not read-only and (unless weak validity is on)
    also contains [base]; when they do, it is 1 if temporal analysis is off, and
    the temporal validity of [base] for the pointer stored at [addrof] if it is on. *)
Theorem valid_exact (cfg : config) (h : heap) (M : amem) (p sz base addrof : Z) :
  models h M -> in_u 64 p -> in_u 64 base -> in_u 64 sz ->
  let ok := exists a ab, contains M p a ab /\
    (cfg_weak_validity cfg = false -> contains M base a ab) /\ p + sz <= a + ab_size ab /\
    ab_readonly ab = false in
  (ok /\ valid cfg h p sz base addrof =
     if cfg_temporal cfg then
       let* t := temporal_valid (TM := bittree_temporal cfg) h base addrof in Ret (b2i (i2b t))
     else Ret 1) \/
  (~ ok /\ valid cfg h p sz base addrof = Ret 0).
Proof.
  intros HM Hp Hb Hs ok.
  destruct (valid_answer cfg h M HM p sz base addrof Hp Hb Hs) as [[H E]|[H E]]; [left|right];
    (split; [|exact E]); subst ok; unfold allocated_in in H; naive_solver.
Qed.

Lemma valid_exact_witness : valid default_config demo_heap 4100 8 4096 0 = Ret 1.
Proof.
  destruct (valid_exact default_config demo_heap demo_mem 4100 8 4096 0 demo_models)
    as [[_ E]|[Hn _]].
  1-3: split; [discriminate|reflexivity].
  - exact E.
  - exfalso. apply Hn. exists 4096, (mk_ablock 16 (offsets 0 4) false false).
    split_and!; [split; [vm_compute; reflexivity|left; simpl; lia]|intros _|simpl; lia|reflexivity].
    split; [vm_compute; reflexivity|left; simpl; lia].
Defined.

(** [valid_read(p, sz, base, addrof)] is 0 unless the [sz] bytes from [p] lie
    in one tracked block that (unless weak validity is on) also contains [base];
    when they do, it is 1 or the temporal verdict, as for [valid]. *)
Theorem valid_read_exact (cfg : config) (h : heap) (M : amem) (p sz base addrof : Z) :
  models h M -> in_u 64 p -> in_u 64 base -> in_u 64 sz ->
  let ok := exists a ab, contains M p a ab /\
    (cfg_weak_validity cfg = false -> contains M base a ab) /\ p + sz <= a + ab_size ab in
  (ok /\ valid_read cfg h p sz base addrof =
     if cfg_temporal cfg then
       let* t := temporal_valid (TM := bittree_temporal cfg) h base addrof in Ret (b2i (i2b t))
     else Ret 1) \/
  (~ ok /\ valid_read cfg h p sz base addrof = Ret 0).
Proof. intros HM. by apply valid_read_answer. Qed.

Lemma valid_read_exact_witness : valid_read default_config demo_heap 8193 5 8192 0 = Ret 1.
Proof.
  destruct (valid_read_exact default_config demo_heap demo_mem 8193 5 8192 0 demo_models)
    as [[_ E]|[Hn _]].
  1-3: split; [discriminate|reflexivity].
  - exact E.
  - exfalso. apply Hn. exists 8192, (mk_ablock 6 (all_offsets 6) true false).
    split_and!; [split; [vm_compute; reflexivity|left; simpl; lia]|intros _|simpl; lia].
    split; [vm_compute; reflexivity|left; simpl; lia].
Defined.

(** [base_addr], [offset] and [block_length] return the base address of the
    block that contains [p], the distance from it to [p] and the size of the
    block; when no block contains [p] they end the program. *)
Theorem block_observers_exact (cfg : config) (h : heap) (M : amem) (p : Z) :
  models h M -> in_u 64 p ->
  (forall a ab, contains M p a ab -> base_addr cfg h p = Ret a /\ offset cfg h p = Ret (p - a) /\
     block_length cfg h p = Ret (ab_size ab)) /\
  ((forall a ab, ~ contains M p a ab) ->
     base_addr cfg h p = Abort /\ offset cfg h p = Abort /\ block_length cfg h p = Abort).
Proof.
  intros HM Hp. destruct (base_addr_models cfg h M HM p Hp) as [B1 B2].
  destruct (offset_models cfg h M HM p Hp) as [O1 O2].
  destruct (block_length_models cfg h M HM p Hp) as [L1 L2].
  split; [intros a ab Hc; by erewrite B1, O1, L1 by done|]. intros Hn. auto.
Qed.

Lemma block_observers_exact_witness :
  base_addr default_config demo_heap 65560 = Ret 65536 /\
  offset default_config demo_heap 65560 = Ret 24 /\
  block_length default_config demo_heap 65560 = Ret 32.
Proof.
  destruct (block_observers_exact default_config demo_heap demo_mem 65560 demo_models) as [H _].
  - split; [discriminate|reflexivity].
  - apply (H 65536 (mk_ablock 32 ∅ false true)).
    split; [vm_compute; reflexivity|left; simpl; lia].
Defined.

(** [memory_clean] frees every node of the trie, every tracked block and
    its initialization buffer, and leaves the empty memory. *)
Theorem memory_clean_frees_all (h : heap) (ot : option tree) : inv h ot ->
  exists h', memory_clean h = Ret h' /\ models h' ∅ /\ h_nodes h' = ∅ /\
    forall b blk, tracked h ot b blk -> h_blocks h' !! b = None /\
      (bk_init_ptr blk <> NULL -> h_bufs h' !! bk_init_ptr blk = None).
Proof. apply memory_clean_refines. Qed.

Lemma memory_clean_frees_all_witness : exists h', memory_clean demo_heap = Ret h' /\ models h' ∅.
Proof.
  destruct demo_models as (ot & Hi & _).
  destruct (memory_clean_frees_all demo_heap ot Hi) as (h' & E & HM & _).
  exists h'. split; [exact E|exact HM].
Defined.

(** [aligned_alloc] allocates and records a block exactly when the size is
    not zero, the alignment is a power of two and divides the size; otherwise
    it returns [NULL] and changes nothing. *)
Theorem aligned_alloc_exact `{PA : !PrivateAlloc, PAok : !PrivateAllocOk, PB : !PublicAlloc}
  (cfg : config) (st : state) (M : amem) (al sz res : Z) (pb : pub) :
  st_models st M -> in_u 64 al -> 0 <= sz ->
  public_aligned_alloc (st_pub st) al sz = (res, pb) -> good_answer cfg M res sz ->
  (good_alignment al /\ 0 < sz /\ sz mod al = 0 /\ exists st',
     aligned_alloc cfg st al sz = Ret (res, st') /\ st_models st' (a_alloc M res sz false)) \/
  (~ (good_alignment al /\ 0 < sz /\ sz mod al = 0) /\ aligned_alloc cfg st al sz = Ret (NULL, st)).
Proof. by apply aligned_alloc_refines. Qed.

Lemma aligned_alloc_exact_witness :
  exists st', @aligned_alloc demo_private demo_public default_config demo_final 64 128
    = Ret (65600, st').
Proof.
  destruct (@aligned_alloc_exact demo_private demo_private_ok demo_public default_config demo_final
    demo_mem 64 128 65600 65744) as [(_ & _ & _ & st' & E & _)|[Hn _]].
  - apply demo_final_simulates.
  - split; [discriminate|reflexivity].
  - lia.
  - vm_compute. reflexivity.
  - right. unfold new_range, max_size. split_and!; [lia|lia|lia|lia| |lia].
    intros a ab. unfold demo_mem. rewrite !lookup_insert_Some, lookup_empty. naive_solver lia.
  - exists st'. exact E.
  - exfalso. apply Hn. split_and!; [exists 6; split; [lia|reflexivity]|lia|reflexivity].
Defined.

(** [free] of an address other than [NULL] at which no tracked block
    starts ends the program, whatever else is tracked; [free(NULL)] does
    nothing unless null pointers are declared invalid. *)
Theorem free_invalid_aborts `{PB : !PublicAlloc} (cfg : config) (st : state) (M : amem) (p : Z) :
  models (st_heap st) M -> M <> ∅ -> in_u 64 p -> M !! p = None ->
  free cfg st p = if p =? NULL then (if cfg_free_valid_address cfg then Abort else Ret st)
                  else Abort.
Proof.
  intros HM Hne Hu E. destruct (Z.eqb_spec p NULL) as [->|Hn]; [done|]. by eapply free_absent.
Qed.

Lemma free_invalid_aborts_witness : @free demo_public default_config demo_final 65540 = Abort.
Proof.
  apply (free_invalid_aborts default_config demo_final demo_mem 65540).
  - apply demo_models.
  - intros E. apply (f_equal (fun M => M !! 4096)) in E. vm_compute in E. discriminate.
  - split; [discriminate|reflexivity].
  - vm_compute. reflexivity.
Defined.

(** [powof2] ends and is 1 on the powers of two, 0 on every other 64-bit
    value. *)
Theorem powof2_exact (x : Z) : in_u 64 x ->
  exists r, powof2 x = Ret r /\ (r = 0 \/ r = 1) /\ (r = 1 <-> exists k, 0 <= k /\ x = 2 ^ k).
Proof. apply powof2_spec. Qed.

Lemma powof2_exact_witness : exists r, powof2 4096 = Ret r /\ r = 1.
Proof.
  destruct (powof2_exact 4096) as (r & E & _ & Hiff); [split; [discriminate|reflexivity]|].
  exists r. split; [exact E|]. apply Hiff. exists 12. split; [lia|reflexivity].
Defined.

(** ** Defects of [realloc] *)

Section Defects.
#[local] Existing Instance demo_private.
#[local] Existing Instance demo_public.

(** Growing a fully initialized block: the buffer for the new size has
    [needed_bytes(8) = 1] byte, and [setbits] writes a whole 64-bit word. *)
Theorem realloc_grow_overflow :
  is_fault (let* st := run default_config demo_st0 [OMalloc 4; OInitialize 65536 4] in
            realloc default_config st 65536 8) = true.
Proof. vm_compute. reflexivity. Qed.

(** Shrinking a partly initialized block: the bits past the new size in its last
    byte are counted, so a block none of whose bytes was written is reported as
    fully initialized. *)
Theorem realloc_shrink_stale :
  (let* st := run default_config demo_st0 [OMalloc 16; OInitialize 65540 4] in
   let* before := initialized default_config (st_heap st) 65536 4 in
   let* (p, st) := realloc default_config st 65536 4 in
   let* after := initialized default_config (st_heap st) p 4 in
   Ret (before, after)) = Ret (0, 1).
Proof. vm_compute. reflexivity. Qed.
End Defects.
