(* ===== verification/BtTemporal.v ===== *)
(** * Temporal analysis in the trie model

    The trie model implements the interface of Temporal.v and satisfies its laws;
    the properties of the temporal API follow. *)

From S2P Require Import Prelude AMem Alloc Temporal Bits Mask Trie Bittree BittreeRep BtModel BtSpec BtRefine BtTrace.

(** ** The laws *)

(** The search does not read buffers. *)
Lemma bt_find_loop_bufs cfg fuel h bufs tmp other p :
  bt_find_loop cfg fuel (set_bufs h bufs) tmp other p = bt_find_loop cfg fuel h tmp other p.
Proof.
  revert tmp other. induction fuel as [|fuel IH]; intros tmp other; [done|]. cbn [bt_find_loop].
  change (load_node (set_bufs h bufs)) with (load_node h).
  change (load_block (set_bufs h bufs)) with (load_block h).
  destruct (load_node h tmp) as [nd| | |]; [|done..]. cbn [obind].
  destruct (i2b (nd_is_leaf nd)); [done|].
  destruct (DASSERT _ _); [|done..]. cbn [obind].
  destruct (load_node h (nd_right nd)); [|done..]. cbn [obind]. destruct (_ <=? _); [apply IH|].
  destruct (load_node h (nd_left nd)); [|done..]. cbn [obind]. destruct (_ <=? _); [apply IH|].
  destruct (other =? NULL); [done|apply IH].
Qed.

Lemma bt_find_bufs cfg h bufs p : bt_find cfg (set_bufs h bufs) p = bt_find cfg h p.
Proof. unfold bt_find. cbn [bt_root set_bufs]. case_match; [done|]. apply bt_find_loop_bufs. Qed.

Section Laws.
Context (cfg : config).

(** The trie is well formed, and time stamps and shadows hold values of their C
    types. *)
Definition stamps_ok (h : heap) : Prop :=
  (exists ot, tree_inv h ot) /\
  map_Forall (fun _ b => in_u 32 (bk_timestamp b)) (h_blocks h) /\
  map_Forall (fun _ m => mem_ok m) (h_bufs h).

(** [p] lies in a block whose temporal shadow has room for a time stamp there:
    the shadow and the offset in it. *)
Definition slot (h : heap) (p : Z) : Prop :=
  exists blk b m, bt_find cfg h p = Ret blk /\ blk <> NULL /\ load_block h blk = Ret b /\
    bk_temporal_shadow b <> NULL /\ h_bufs h !! bk_temporal_shadow b = Some m /\
    accessible m (u64 (p - bk_ptr b)) 4.

Lemma bt_find_total h ot p : tree_inv h ot -> in_u 64 p ->
  exists r, bt_find cfg h p = Ret r /\ (r = NULL \/ r <> NULL /\ exists b, load_block h r = Ret b).
Proof.
  intros Ht Hp. destruct (Z.eqb_spec p NULL) as [->|Hn].
  { exists NULL. unfold bt_find. rewrite Z.eqb_refl, orb_true_r. auto. }
  rewrite (bt_find_tree cfg h ot p Ht Hn Hp). destruct ot as [t|]; [|eauto].
  destruct (pred_leaf t p) as [[a b]|] eqn:E; [|by exists NULL; auto].
  destruct Ht as (_ & _ & _ & _ & _ & Hb).
  assert ((a, b) ∈ leaves t) as Hin.
  { unfold pred_leaf in E. apply last_Some_elem_of in E. by apply list_elem_of_filter in E as [_ ?]. }
  destruct (Hb a b Hin) as (Hne & blk & Eb & _). simpl.
  assert (load_block h b = Ret blk) as El
    by (unfold load_block; rewrite (proj2 (Z.eqb_neq _ _) Hne), Eb; done).
  rewrite El. cbn [obind]. destruct (_ || _); [exists b|exists NULL]; eauto.
Qed.

Lemma tree_inv_bufs h ot bufs : tree_inv h ot -> tree_inv (set_bufs h bufs) ot.
Proof. by destruct ot. Qed.

(** The shadow of a slot. *)
Lemma slot_shadow h p : slot h p -> exists b m,
  temporal_referent_shadow cfg h p = Ret (bk_temporal_shadow b, u64 (p - bk_ptr b)) /\
  load_buf h (bk_temporal_shadow b) = Ret m /\ h_bufs h !! bk_temporal_shadow b = Some m /\
  bk_temporal_shadow b <> NULL /\ accessible m (u64 (p - bk_ptr b)) 4 /\
  (let* blk := bt_find cfg h p in Ret (negb (blk =? NULL))) = Ret true.
Proof.
  intros (blk & b & m & Ef & Hn & Eb & Hs & Em & Ha). exists b, m.
  unfold temporal_referent_shadow, offset, load_buf. rewrite Ef. cbn [obind].
  rewrite (proj2 (Z.eqb_neq _ _) Hn). cbn [negb vassert obind]. rewrite Eb. cbn [obind].
  rewrite (proj2 (Z.eqb_neq _ _) Hs). cbn [negb vassert obind]. rewrite Em. by split_and!.
Qed.

Lemma slot_referent h p b m : slot h p ->
  temporal_referent_shadow cfg h p = Ret (bk_temporal_shadow b, u64 (p - bk_ptr b)) ->
  load_buf h (bk_temporal_shadow b) = Ret m ->
  referent_timestamp cfg h p = load32 m (u64 (p - bk_ptr b)).
Proof.
  intros (blk & b' & m' & Ef & Hn & _) Es Em. unfold referent_timestamp. rewrite Ef, Es. cbn [obind].
  rewrite (proj2 (Z.eqb_neq _ _) Hn). cbn [negb obind]. by rewrite Em.
Qed.

#[local] Existing Instance bittree_temporal.

#[export] Program Instance bittree_temporal_ok : TemporalModelOk heap (TM := bittree_temporal cfg) := {
  tm_ok := stamps_ok;
  tm_slot := slot;
  tm_target := fun _ p => in_u 64 p
}.
Next Obligation.
  intros h p ([ot Ht] & H1 & _) Hp. unfold tm_origin, bittree_temporal, origin_timestamp.
  destruct (bt_find_total h ot p Ht Hp) as (r & -> & [->|(Hn & b & Eb)]); cbn [obind].
  { exists INVALID_TEMPORAL_TIMESTAMP. split; [done|split; by vm_compute]. }
  rewrite (proj2 (Z.eqb_neq _ _) Hn), Eb. cbn [negb obind]. exists (bk_timestamp b). split; [done|].
  unfold load_block in Eb. rewrite (proj2 (Z.eqb_neq _ _) Hn) in Eb. apply deref_inv in Eb.
  by apply (H1 _ _ Eb).
Qed.
Next Obligation.
  intros h p (_ & _ & H2) Hs. destruct (slot_shadow h p Hs) as (b & m & Es & El & Em & _ & Ha & _).
  unfold tm_referent, bittree_temporal. rewrite (slot_referent h p b m Hs Es El).
  destruct (load_le_ret 4 m _ (H2 _ _ Em) Ha) as (w & E & Hw & _). by exists w.
Qed.
Next Obligation.
  intros h p t (Ht & H1 & H2) Hs. destruct (slot_shadow h p Hs) as (b & m & Es & El & Em & Hn & Ha & _).
  destruct (store_le_bytes 4 m (u64 (p - bk_ptr b)) t Ha) as (m' & Est & Hd & _).
  set (h' := set_bufs h (<[bk_temporal_shadow b := m']> (h_bufs h))).
  assert (forall q, slot h q -> slot h' q) as Hslots.
  { intros q (blk' & b' & n & Ef & Hnn & Eb & Hs' & En & Ha'). unfold slot, h'.
    rewrite bt_find_bufs. change (load_block (set_bufs h _)) with (load_block h). cbn [h_bufs set_bufs].
    destruct (decide (bk_temporal_shadow b' = bk_temporal_shadow b)) as [Eq|Hne].
    - exists blk', b', m'. rewrite Eq in *. split_and!; try done; [by rewrite lookup_insert_eq|].
      assert (n = m) as -> by congruence. by eapply accessible_dom.
    - exists blk', b', n. by rewrite lookup_insert_ne. }
  assert (store_temporal_referent cfg h p t = Ret h') as Estore.
  { unfold store_temporal_referent. rewrite Es. cbn [obind]. rewrite El.
    cbn [obind]. unfold store32. rewrite Est. cbn [obind]. unfold store_buf.
    by rewrite (proj2 (Z.eqb_neq _ _) Hn), Em. }
  exists h'. split; [done|]. split_and!.
  - destruct Ht as [ot Ht]. split_and!; [exists ot; by apply tree_inv_bufs|done|].
    unfold h'. cbn [h_bufs set_bufs]. apply map_Forall_insert_2; [|done].
    by eapply store_le_ok; [apply (H2 _ _ Em)|].
  - assert (temporal_referent_shadow cfg h' p = Ret (bk_temporal_shadow b, u64 (p - bk_ptr b))) as Es'.
    { rewrite <- Es. unfold temporal_referent_shadow, offset, h'. by rewrite bt_find_bufs. }
    unfold tm_referent, bittree_temporal. rewrite (slot_referent h' p b m' (Hslots p Hs) Es').
    + by apply (load_store_le 4) in Est.
    + unfold load_buf, h'. rewrite (proj2 (Z.eqb_neq _ _) Hn). cbn [h_bufs set_bufs].
      by rewrite lookup_insert_eq.
  - intros q _. unfold tm_origin, bittree_temporal, origin_timestamp, h'. by rewrite bt_find_bufs.
  - done.
Qed.
End Laws.

(** ** New blocks *)

Section NewBlock.
Context `{PA : !PrivateAlloc, PAok : !PrivateAllocOk, PB : !PublicAlloc} (cfg : config).

(** What a found block is in a heap that keeps it. *)
Lemma bt_find_kept h h' ot ot' p r blk : inv h ot -> inv h' ot' ->
  (forall b2 blk2, tracked h ot b2 blk2 -> tracked h' ot' b2 blk2) -> in_u 64 p ->
  bt_find cfg h p = Ret r -> r <> NULL -> load_block h r = Ret blk ->
  bt_find cfg h' p = Ret r /\ tracked h ot r blk /\ covers (bk_ptr blk) (bk_size blk) p.
Proof.
  intros Hi Hi' Hk Hp E Hr El.
  destruct (bt_find_spec cfg h ot p Hi Hp) as (r0 & E0 & Hf). assert (r0 = r) as -> by congruence.
  destruct Hf as [[? _]|(_ & blk0 & Ht & Hc)]; [done|].
  assert (blk0 = blk) as -> by (rewrite (load_block_eq _ _ _ Hr (proj2 Ht)) in El; congruence).
  split; [|done]. destruct (bt_find_spec cfg h' ot' p Hi' Hp) as (r1 & E1 & [[-> Hno]|(_ & blk1 & Ht1 & Hc1)]).
  - by destruct (Hno r blk (Hk _ _ Ht)).
  - by destruct (covers_unique _ _ _ _ _ _ _ Hi' Ht1 (Hk _ _ Ht) Hc1 Hc) as [-> ->].
Qed.
End NewBlock.

(** ** The temporal API on any model *)

(** C23.  Temporal metadata flows as pointers do, in every memory model that
    satisfies the laws: after [temporal_store_nblock], or after a parameter is
    saved by address and pulled by the callee, an access through the pointer to
    that block is temporally valid; a pointer that is copied, passed or returned
    keeps its referent. *)
Theorem temporal_flow_correct {S : Type} `{TM : !TemporalModel S, TMok : !TemporalModelOk S}
  (cfg : config) (s : S) (r : temporal_regs) (lhs rhs src i size : Z) :
  tm_ok s -> tm_slot s lhs -> tm_slot s src -> tm_target s rhs ->
  length (parameter_referents r) = Z.to_nat MAX_PARAMETERS -> 0 <= i < MAX_PARAMETERS ->
  (exists s', temporal_store_nblock s lhs rhs = Ret s' /\ temporal_valid s' rhs lhs = Ret 1) /\
  (exists s', temporal_store_nreferent s lhs src = Ret s' /\
    tm_referent s' lhs = tm_referent s src) /\
  (exists r' s', temporal_save_nblock_parameter r rhs i = Ret r' /\
    temporal_pull_parameter cfg r' s lhs i size = Ret s' /\ temporal_valid s' rhs lhs = Ret 1) /\
  (exists r' s', temporal_save_nreferent_parameter r src i = Ret r' /\
    temporal_pull_parameter cfg r' s lhs i size = Ret s' /\
    tm_referent s' lhs = tm_referent s src) /\
  (exists r' s', temporal_save_return r s src = Ret r' /\ temporal_pull_return r' s lhs = Ret s' /\
    tm_referent s' lhs = tm_referent s src).
Proof.
  intros Hok Hl Hs Hr Hlen Hi. split_and!.
  - by apply store_origin_valid.
  - by apply store_referent_same.
  - destruct (pull_saved cfg r s rhs lhs i size TBlockN Hlen Hi) as (r' & E & Ep).
    destruct (store_origin_valid s lhs rhs Hok Hl Hr) as (s' & Es & Hv).
    exists r', s'. by rewrite Ep.
  - destruct (pull_saved cfg r s src lhs i size TReferentN Hlen Hi) as (r' & E & Ep).
    destruct (store_referent_same s lhs src Hok Hl Hs) as (s' & Es & Hv).
    exists r', s'. by rewrite Ep.
  - by apply pull_return_same.
Qed.

(** C24.  Use after free through a stale pointer is detected by the trie model:
    [store_block] gives the new block a time stamp of its own, so that a pointer
    whose stored referent is older is temporally invalid for every address of the
    new block, also when the block takes the place of a deleted one. *)
Theorem stale_pointer_detected `{PA : !PrivateAlloc, PAok : !PrivateAllocOk, PB : !PublicAlloc}
  (cfg : config) (st : state) (M : amem) (p sz : Z) :
  cfg_temporal cfg = true -> models (st_heap st) M -> new_range cfg M p sz ->
  0 <= temporal_timestamp st -> temporal_timestamp st + 1 < 2 ^ 32 ->
  exists b st', store_block cfg st p sz = Ret (b, st') /\
    models (st_heap st') (<[p := mk_ablock sz ∅ false false]> M) /\
    (forall q, p <= q < p + sz ->
      origin_timestamp cfg (st_heap st') q = Ret (temporal_timestamp st + 1)) /\
    (forall lhs t q, in_u 64 lhs -> slot cfg (st_heap st) lhs ->
      referent_timestamp cfg (st_heap st) lhs = Ret t -> t <= temporal_timestamp st ->
      p <= q < p + sz ->
      temporal_valid (TM := bittree_temporal cfg) (st_heap st') q lhs = Ret 0).
Proof.
  intros Htemp HM Hn Hts Hlt.
  destruct (store_block_stored cfg st M p sz HM Hn) as (b & st' & stamp & shadow & ot & ot' & E & Hst).
  destruct Hst as [Hat Hi Hfr Hstamp Hbufs Hbl Htr _ _].
  destruct (Hstamp Htemp) as [-> _]. set (blk' := mk_block _ _ _ _ _ _ _ _) in Hat.
  exists b, st'. split; [done|]. split; [by eapply at_models|].
  pose proof (at_inv _ _ _ _ _ Hat) as Hi'. destruct Hn as (Hp & Hsz & Hend & _).
  assert (forall q, p <= q < p + sz ->
    origin_timestamp cfg (st_heap st') q = Ret (temporal_timestamp st + 1)) as Horig.
  { intros q Hq. destruct (bt_find_spec cfg _ ot' q Hi') as (r & Er & Hf).
    { unfold max_size in Hsz. unfold in_u. lia. }
    pose proof (at_tracked _ _ _ _ _ Hat) as Htb.
    assert (covers (bk_ptr blk') (bk_size blk') q) as Hc by (unfold covers; cbn; lia).
    destruct Hf as [[-> Hno]|(Hr & blk & Ht & Hc')]; [by destruct (Hno b blk')|].
    destruct (covers_unique _ _ _ _ _ _ _ Hi' Ht Htb Hc' Hc) as [-> ->].
    unfold origin_timestamp. rewrite Er. cbn [obind]. rewrite neqb_true by done.
    rewrite (at_load _ _ _ _ _ Hat). cbn [obind blk' bk_timestamp]. unfold NEW_TEMPORAL_TIMESTAMP.
    by rewrite u32_small by (unfold in_u; lia). }
  split; [exact Horig|]. intros lhs t q Hu Hslot Href Ht Hq.
  unfold temporal_valid. cbn [tm_referent tm_origin bittree_temporal].
  pose proof Hslot as (r & blk & m & Ef & Hrn & El & Hsn & Em & Ha).
  destruct (bt_find_kept cfg _ (st_heap st') ot ot' lhs r blk Hi Hi' Htr Hu Ef Hrn El) as (Ef' & Htk & Hck).
  assert (slot cfg (st_heap st') lhs) as Hslot'.
  { exists r, blk, m. split_and!; try done; [|by eapply lookup_weaken]. apply load_block_eq; [done|].
    eapply lookup_weaken; [apply Htk|done]. }
  pose proof (inv_ok _ _ Hi _ _ Htk) as Hbk.
  assert (q <> lhs) as Hql.
  { intros ->. assert (r = b) as ->; [|by apply Hfr, elem_of_dom; exists blk; apply Htk].
    eapply (covers_unique _ _ _ _ _ _ _ Hi' (Htr _ _ Htk) (at_tracked _ _ _ _ _ Hat) Hck).
    unfold covers. cbn. lia. }
  assert (lhs <> NULL) as Hl0.
  { destruct Hbk. unfold covers in Hck. unfold NULL. lia. }
  rewrite (neqb_true lhs NULL), (neqb_true q lhs) by done. cbn [andb].
  assert (referent_timestamp cfg (st_heap st') lhs = Ret t) as ->.
  { rewrite <- Href. destruct (slot_shadow cfg _ _ Hslot) as (b1 & m1 & S1 & L1 & M1 & _).
    destruct (slot_shadow cfg _ _ Hslot') as (b2 & m2 & S2 & L2 & M2 & _).
    rewrite (slot_referent cfg _ _ _ _ Hslot S1 L1), (slot_referent cfg _ _ _ _ Hslot' S2 L2).
    assert (temporal_referent_shadow cfg (st_heap st') lhs = temporal_referent_shadow cfg (st_heap st) lhs)
      as Esh.
    { unfold temporal_referent_shadow, offset. rewrite Ef, Ef'. cbn [obind].
      by rewrite El, (load_block_eq _ _ _ Hrn (lookup_weaken _ _ _ _ (proj2 Htk) Hbl)). }
    rewrite Esh, S1 in S2. injection S2 as S2 S3. apply (lookup_weaken _ _ _ _ M1) in Hbufs. rewrite S2, S3 in *. congruence. }
  cbn [obind]. rewrite Horig by done. cbn [obind]. by rewrite eqb_false by lia.
Qed.

(** ** Witnesses *)

Section Demo.
#[local] Existing Instance demo_private.
#[local] Existing Instance demo_public.

Definition temporal_config : config := mk_config true false true false.

(** A pointer-sized block at 8192, its shadow not yet written, and a counter
    above the bytes that the allocator leaves there. *)
Definition temporal_st0 : state :=
  mk_state _ (mk_heap ∅ ∅ ∅ NULL) (mk_stats 0 0) (2 ^ 32 - 4) 65536 ∅ 0.
Definition temporal_st1 : state :=
  match store_block temporal_config temporal_st0 8192 16 with Ret (_, st) => st | _ => temporal_st0 end.

Lemma temporal_range0 : new_range temporal_config ∅ 8192 16.
Proof. unfold new_range, max_size. split_and!; [lia..| |lia]. intros a ab. by rewrite lookup_empty. Qed.

Lemma temporal_models1 :
  models (st_heap temporal_st1) (<[8192 := mk_ablock 16 ∅ false false]> ∅).
Proof.
  pose proof demo_private_ok.
  destruct (store_block_stored temporal_config temporal_st0 ∅ 8192 16)
    as (b & st' & stamp & shadow & ot & ot' & E & Hst); [apply models_empty|apply temporal_range0|].
  unfold temporal_st1. rewrite E. eapply at_models, sto_at, Hst.
Qed.

Lemma temporal_range1 :
  new_range temporal_config (<[8192 := mk_ablock 16 ∅ false false]> ∅) 4096 32.
Proof.
  unfold new_range, max_size. split_and!; [lia..| |lia]. intros a ab.
  rewrite lookup_insert_Some, lookup_empty. naive_solver (simpl; lia).
Qed.

Lemma temporal_slot1 p : p = 8192 \/ p = 8200 -> slot temporal_config (st_heap temporal_st1) p.
Proof.
  intros [-> | ->]; eexists _, _, _; (split; [vm_compute; reflexivity|]; split; [by vm_compute|];
    split; [vm_compute; reflexivity|]; split; [by vm_compute|]; split; [vm_compute; reflexivity|]);
    intros x Hx;
    match type of Hx with ?a <= _ < _ => let v := eval vm_compute in a in change a with v in Hx end.
  - assert (x = 0 \/ x = 1 \/ x = 2 \/ x = 3) as [-> |[-> |[-> | ->]]] by lia; vm_compute; eauto.
  - assert (x = 8 \/ x = 9 \/ x = 10 \/ x = 11) as [-> |[-> |[-> | ->]]] by lia; vm_compute; eauto.
Qed.

Lemma temporal_stamps1 : stamps_ok (st_heap temporal_st1).
Proof.
  split; [|split].
  - destruct temporal_models1 as (ot & Hi & _). exists ot. by apply inv_tree.
  - intros a b E. vm_compute in E.
    destruct a as [|a|a]; try done. repeat (destruct a as [a|a|]; try done).
    injection E as <-. split; by vm_compute.
  - intros a m E.
    assert (map_Forall (fun _ m => map_Forall (fun _ b => 0 <= b < 256) m) (h_bufs (st_heap temporal_st1))) as H
      by (apply (bool_decide_unpack _); vm_compute; exact I).
    exact (H a m E).
Qed.

Lemma temporal_flow_correct_witness :
  let s := st_heap temporal_st1 in
  (exists s', @temporal_store_nblock heap (bittree_temporal temporal_config) s 8192 8200 = Ret s' /\
    @temporal_valid heap (bittree_temporal temporal_config) s' 8200 8192 = Ret 1).
Proof.
  refine (proj1 (@temporal_flow_correct heap (bittree_temporal temporal_config)
    (bittree_temporal_ok temporal_config) temporal_config (st_heap temporal_st1)
    (mk_regs no_parameters 0) 8192 8200 8200 3 8 _ _ _ _ _ _)).
  - exact temporal_stamps1.
  - apply temporal_slot1. auto.
  - apply temporal_slot1. auto.
  - change (in_u 64 8200). unfold in_u. lia.
  - reflexivity.
  - unfold MAX_PARAMETERS. lia.
Defined.

Lemma stale_pointer_detected_witness : exists b st',
  store_block temporal_config temporal_st1 4096 32 = Ret (b, st') /\
  @temporal_valid heap (bittree_temporal temporal_config) (st_heap st') 4100 8192 = Ret 0.
Proof.
  destruct (@stale_pointer_detected demo_private demo_private_ok demo_public temporal_config
    temporal_st1 _ 4096 32 eq_refl temporal_models1 temporal_range1) as (b & st' & E & _ & _ & H).
  - vm_compute. discriminate.
  - vm_compute. reflexivity.
  - exists b, st'. split; [exact E|]. eapply (H 8192 3452816845).
    + unfold in_u. lia.
    + apply temporal_slot1. auto.
    + vm_compute. reflexivity.
    + vm_compute. discriminate.
    + lia.
Defined.
End Demo.
