(* ===== verification/CString.v ===== *)
(** * e_acsl_string.h: strings of the run-time library

    The string functions of the run-time library over byte memory, and the
    functions of the C library that they call. *)

From S2P Require Import Prelude.

(** ** C library *)

(** The sign that [memcmp] returns stands for its value. *)
Fixpoint memcmp (n : nat) (m : mem) (p q : Z) : outcome Z :=
  match n with
  | O => Ret 0
  | S n => let* a := load8 m p in
           let* b := load8 m q in
           if a =? b then memcmp n m (p + 1) (q + 1) else Ret (if a <? b then -1 else 1)
  end.

(** [strncmp(p, q, n)]. *)
Fixpoint strncmp (n : nat) (m : mem) (p q : Z) : outcome Z :=
  match n with
  | O => Ret 0
  | S n => let* a := load8 m p in
           let* b := load8 m q in
           if negb (a =? b) then Ret (if a <? b then -1 else 1)
           else if a =? 0 then Ret 0
           else strncmp n m (p + 1) (q + 1)
  end.

(** [strchr(s, c)]; [fuel] exceeds the length of the string. *)
Fixpoint strchr (fuel : nat) (m : mem) (s c : Z) : outcome Z :=
  match fuel with
  | O => NoFuel
  | S fuel => let* b := load8 m s in
              if b =? c then Ret s
              else if b =? 0 then Ret NULL
              else strchr fuel m (s + 1) c
  end.

(** ** e_acsl_string.h *)

Section Strings.
(** [fuel] exceeds the length of every string. *)
Context (fuel : nat).
Let strlen (m : mem) (s : Z) : outcome Z := strlen_loop fuel m s 0.

Definition nstrcat (m : mem) (dest src : Z) : outcome (Z * mem) :=
  let* n := strlen m dest in
  let* k := strlen m src in
  let* m := memcpy m (dest + n) src (k + 1) in
  Ret (dest, m).

(** The private allocator on the memory: the address of a new object, or [NULL],
    and the memory with the object in it. *)
Context (private_malloc : mem -> Z -> Z * mem) (private_realloc : mem -> Z -> Z -> Z * mem).

Definition nstrdup (m : mem) (s : Z) : outcome (Z * mem) :=
  if negb (s =? NULL) then
    let* k := strlen m s in
    let len := u64 (k + 1) in
    let (n, m) := private_malloc m len in
    if n =? NULL then Ret (NULL, m)
    else let* m := memcpy m n s len in Ret (n, m)
  else Ret (NULL, m).

Definition sappend (m : mem) (dest src delim : Z) : outcome (Z * mem) :=
  if (dest =? NULL) && negb (src =? NULL) then nstrdup m src
  else if negb (src =? NULL) && negb (dest =? NULL) then
    let* ldelim := if negb (delim =? NULL) then strlen m delim else Ret 0 in
    let* ls := strlen m src in
    let* ld := strlen m dest in
    let len := u64 (ls + ld + 1) in
    let len := if i2b ldelim then u64 (len + ldelim) else len in
    let (dest, m) := private_realloc m dest len in
    let* (dest, m) := if i2b ldelim then nstrcat m dest delim else Ret (dest, m) in
    nstrcat m dest src
  else Ret (dest, m).

Definition endswith (m : mem) (str pat : Z) : outcome Z :=
  if negb (str =? NULL) && negb (pat =? NULL) then
    let* slen := strlen m str in
    let* plen := strlen m pat in
    if plen <=? slen then strncmp (Z.to_nat plen) m (str + (slen - plen)) pat
    else Ret 1
  else Ret 1.

(** The loop of [charcount]; [n] bounds its iterations. *)
Fixpoint charcount_loop (n : nat) (m : mem) (s c count : Z) : outcome Z :=
  match n with
  | O => NoFuel
  | S n => let* s := strchr fuel m s c in
           if negb (s =? NULL) then charcount_loop n m (s + 1) c (s32 (count + 1))
           else Ret count
  end.
Definition charcount (m : mem) (s c : Z) : outcome Z := charcount_loop fuel m s c 0.
End Strings.

Definition ZERO_BLOCK_SIZE : Z := 1024.

(** [memcmp(pc, &zeroblock, n)]: comparison with the static array of zeros, which
    is longer than [n]. *)
Fixpoint memcmp_zero (n : nat) (m : mem) (p : Z) : outcome Z :=
  match n with
  | O => Ret 0
  | S n => let* a := load8 m p in if a =? 0 then memcmp_zero n m (p + 1) else Ret 1
  end.

(** The loop of [zeroed_out] over the blocks of [ZERO_BLOCK_SIZE] bytes; returns
    the address after the last one, [None] if one is not zero. *)
Fixpoint zeroed_out_loop (lim : nat) (m : mem) (pc : Z) : outcome (option Z) :=
  match lim with
  | O => Ret (Some pc)
  | S lim => let* r := memcmp_zero (Z.to_nat ZERO_BLOCK_SIZE) m pc in
             if i2b r then Ret None else zeroed_out_loop lim m (pc + ZERO_BLOCK_SIZE)
  end.
Definition zeroed_out (m : mem) (p size : Z) : outcome Z :=
  let* r := zeroed_out_loop (Z.to_nat (size / ZERO_BLOCK_SIZE)) m p in
  match r with
  | None => Ret 0
  | Some pc => let* c := memcmp_zero (Z.to_nat (size mod ZERO_BLOCK_SIZE)) m pc in
               Ret (b2i (negb (i2b c)))
  end.

(** ** The test for zeros *)

Definition all_zero (m : mem) (p n : Z) : Prop := forall x, p <= x < p + n -> m !! x = Some 0.

Lemma memcmp_zero_spec n m p : accessible m p (Z.of_nat n) ->
  exists r, memcmp_zero n m p = Ret r /\ (i2b r = false <-> all_zero m p (Z.of_nat n)).
Proof.
  revert p. induction n as [|n IH]; intros p Ha; cbn [memcmp_zero].
  { exists 0. split; [done|]. split; [|done]. intros _ x Hx. lia. }
  destruct (Ha p) as [b Eb]; [lia|]. rewrite (load8_ok _ _ _ Eb). cbn [obind].
  destruct (Z.eqb_spec b 0) as [->|Hb].
  - destruct (IH (p + 1)) as (r & -> & Hr); [eapply accessible_sub; [exact Ha|lia..]|].
    exists r. split; [done|]. rewrite Hr. split; intros H x Hx; [|apply H; lia].
    destruct (decide (x = p)) as [->|]; [done|]. apply H. lia.
  - exists 1. split; [done|]. split; [done|]. intros H. specialize (H p ltac:(lia)). congruence.
Qed.

Lemma zeroed_out_loop_spec lim m p : accessible m p (Z.of_nat lim * ZERO_BLOCK_SIZE) ->
  (zeroed_out_loop lim m p = Ret (Some (p + Z.of_nat lim * ZERO_BLOCK_SIZE)) /\
   all_zero m p (Z.of_nat lim * ZERO_BLOCK_SIZE)) \/
  (zeroed_out_loop lim m p = Ret None /\ ~ all_zero m p (Z.of_nat lim * ZERO_BLOCK_SIZE)).
Proof.
  revert p. induction lim as [|lim IH]; intros p Ha; cbn [zeroed_out_loop].
  { left. split; [do 2 f_equal; lia|]. intros x Hx. lia. }
  unfold ZERO_BLOCK_SIZE in *.
  destruct (memcmp_zero_spec (Z.to_nat 1024) m p) as (r & -> & Hr);
    [eapply accessible_sub; [exact Ha|lia..]|].
  cbn [obind]. destruct (i2b r) eqn:Er.
  - right. split; [done|]. intros H. assert (true = false) as [=].
    apply Hr. intros x Hx. apply H. lia.
  - pose proof (proj1 Hr eq_refl) as H0.
    destruct (IH (p + 1024)) as [[-> H]|[-> H]]; [eapply accessible_sub; [exact Ha|lia..]|left|right].
    + split; [do 2 f_equal; lia|]. intros x Hx.
      destruct (Z.ltb_spec x (p + 1024)); [apply H0|apply H]; lia.
    + split; [done|]. intros H'. apply H. intros x Hx. apply H'. lia.
Qed.

Lemma zeroed_out_spec m p size : 0 <= size -> accessible m p size ->
  exists r, zeroed_out m p size = Ret r /\ (r = 0 \/ r = 1) /\ (r = 1 <-> all_zero m p size).
Proof.
  intros Hs Ha. unfold zeroed_out, ZERO_BLOCK_SIZE in *.
  pose proof (Z.div_mod size 1024 ltac:(lia)). pose proof (Z.mod_pos_bound size 1024 ltac:(lia)).
  pose proof (Z.div_pos size 1024 Hs ltac:(lia)).
  destruct (zeroed_out_loop_spec (Z.to_nat (size / 1024)) m p) as [[-> H']|[-> H']];
    unfold ZERO_BLOCK_SIZE in *; [eapply accessible_sub; [exact Ha|lia..]| |]; cbn [obind].
  - destruct (memcmp_zero_spec (Z.to_nat (size mod 1024)) m
      (p + Z.of_nat (Z.to_nat (size / 1024)) * 1024)) as (r & -> & Hr);
      [eapply accessible_sub; [exact Ha|lia..]|].
    cbn [obind]. eexists. split; [done|]. split; [destruct (i2b r); auto|].
    transitivity (i2b r = false); [destruct (i2b r); simpl; split; congruence|]. rewrite Hr.
    split; intros Hz x Hx; [|apply Hz; lia].
    destruct (Z.ltb_spec x (p + Z.of_nat (Z.to_nat (size / 1024)) * 1024)); [apply H'|apply Hz]; lia.
  - exists 0. split; [done|]. split; [auto|]. split; [done|]. intros Hz. exfalso. apply H'.
    intros x Hx. apply Hz. lia.
Qed.
