(* ===== verification/Shadow.v ===== *)
(** * e_acsl_shadow_layout.h: segments of the program and of its shadow

    The layout of the shadow memory model: the application segments (heap,
    stack, globals, thread-local storage), the shadow segments that track them,
    the address translations between both, and the validation of the layout in
    debug mode (e_acsl_segment_tracking.h).  Symbolic names and memory spaces,
    which only serve messages and deallocation, are left out. *)

From S2P Require Import Prelude Alloc.

Definition KB : Z := 1024.
Definition MB : Z := 1024 * KB.
Definition E_ACSL_HEAP_SIZE : Z := 512.
Definition E_ACSL_STACK_SIZE : Z := 64.
Definition PGM_HEAP_SIZE : Z := E_ACSL_HEAP_SIZE * MB.
Definition PGM_TLS_SIZE : Z := 64 * MB.
Definition ULONG_BITS : Z := 64.
Definition ULONG_BYTES : Z := 8.
Definition PTR_SZ : Z := 8.

(** ** Segments *)

Record memory_segment : Type := mk_segment {
  sg_size : Z;
  sg_start : Z;
  sg_end : Z;
  sg_shadow_ratio : Z;
  sg_shadow_offset : Z
}.

Record memory_partition : Type := mk_partition {
  application : memory_segment;
  primary : memory_segment;
  secondary : memory_segment;
  temporal_primary : memory_segment;
  temporal_secondary : memory_segment
}.

Record memory_layout : Type := mk_layout {
  ly_heap : memory_partition;
  ly_stack : memory_partition;
  ly_global : memory_partition;
  ly_tls : memory_partition;
  ly_is_initialized : bool
}.

(** A segment of the zero-initialized [mem_layout]. *)
Definition zero_segment : memory_segment := mk_segment 0 0 0 0 0.
Definition zero_partition : memory_partition :=
  mk_partition zero_segment zero_segment zero_segment zero_segment zero_segment.
Definition zero_layout : memory_layout :=
  mk_layout zero_partition zero_partition zero_partition zero_partition false.

(** [mem_partitions]. *)
Definition mem_partitions (l : memory_layout) : list memory_partition :=
  [ly_heap l; ly_stack l; ly_global l; ly_tls l].

Definition set_application_segment (start size : Z) : memory_segment :=
  mk_segment size start (u64 (start + size)) 0 0.

(** [start] is the address that [mspace_malloc] returns in the new memory space
    of the segment. *)
Definition set_shadow_segment (parent : memory_segment) (ratio start : Z) : memory_segment :=
  let size := sg_size parent / ratio in
  mk_segment size start (u64 (start + size)) ratio (s64 (u64 (sg_start parent - start))).

(** ** Bounds of the program's segments *)

(** What the linker, the kernel and the allocator determine. *)
Record program : Type := mk_program {
  pg_executable_start : Z;        (* & __executable_start *)
  pg_end : Z;                     (* & end *)
  pg_id_tdata : Z;                (* & id_tdata *)
  pg_id_tbss : Z;                 (* & id_tbss *)
  pg_environ : Z;
  pg_getrlimit : option (Z * Z);  (* soft and hard stack limits; None: error *)
  pg_setrlimit : bool;            (* whether setrlimit succeeds *)
  pg_mspace_start : Z -> Z        (* address of the i-th shadow segment *)
}.

Definition get_tls_size : Z := PGM_TLS_SIZE.
Definition get_heap_start (ms : memory_spaces) : Z := heap_start ms.
Definition get_heap_size : Z := PGM_HEAP_SIZE.
Definition get_heap_init_size : Z := get_heap_size / 8.
Definition get_global_start (pg : program) : Z := pg_executable_start pg.
Definition get_global_size (pg : program) : Z := u64 (pg_end pg - get_global_start pg).

(** The new stack size and the new soft limit. *)
Definition increase_stack_limit (pg : program) (size : Z) : outcome (Z * Z) :=
  match pg_getrlimit pg with
  | None => Abort
  | Some (cur, max) =>
      if cur <? size then
        let stacksz := if max <? size then max else size in
        if pg_setrlimit pg then Ret (stacksz, stacksz) else Abort
      else Ret (size, cur)
  end.

Definition get_default_stack_size (pg : program) : outcome Z :=
  match pg_getrlimit pg with None => Abort | Some (cur, _) => Ret cur end.

Definition get_stack_size (pg : program) : outcome Z :=
  let* (sz, _) := increase_stack_limit pg (E_ACSL_STACK_SIZE * MB) in Ret sz.

(** [while (env[1]) env++]. *)
Fixpoint last_env (fuel : nat) (m : mem) (env : Z) : outcome Z :=
  match fuel with
  | O => NoFuel
  | S fuel => let* next := load64 m (env + 8) in
              if next =? 0 then Ret env else last_env fuel m (env + 8)
  end.

Definition get_stack_start (fuel : nat) (m : mem) (pg : program) : outcome Z :=
  let* env := last_env fuel m (pg_environ pg) in
  let* s := load64 m env in
  let* n := strlen_loop fuel m s 0 in
  let addr := u64 (s + n) in
  let stack_end := u64 (addr + ULONG_BITS) in
  let* sz := get_stack_size pg in
  Ret (u64 (stack_end - sz)).

(** ** Construction of the layout *)

Definition init_shadow_layout_stack (fuel : nat) (m : mem) (pg : program) (l : memory_layout)
  : outcome memory_layout :=
  let* start := get_stack_start fuel m pg in
  let* size := get_stack_size pg in
  let app := set_application_segment start size in
  let pstack := mk_partition app
    (set_shadow_segment app 1 (pg_mspace_start pg 0)) (set_shadow_segment app 1 (pg_mspace_start pg 1))
    (set_shadow_segment app 1 (pg_mspace_start pg 2)) (set_shadow_segment app 1 (pg_mspace_start pg 3)) in
  Ret (mk_layout (ly_heap l) pstack (ly_global l) (ly_tls l) true).

Definition get_tls_start (pg : program) (pheap pglobal : memory_partition) : outcome Z :=
  let tls_size := get_tls_size in
  let data := pg_id_tdata pg in
  let bss := pg_id_tbss pg in
  let tls_start_half := u64 ((if bss <? data then bss else data) - tls_size / 2) in
  let max_shadow := sg_end (primary pheap) in
  let max_shadow := if max_shadow <? sg_end (secondary pheap)
                    then sg_end (secondary pheap) else max_shadow in
  let max_shadow := if max_shadow <? sg_end (primary pglobal)
                    then sg_end (primary pglobal) else max_shadow in
  let max_shadow := if max_shadow <? sg_end (secondary pglobal)
                    then sg_end (secondary pglobal) else max_shadow in
  let max_shadow := if max_shadow <? sg_end (application pheap)
                    then sg_end (application pheap) else max_shadow in
  let* stack_size := get_stack_size pg in
  let max_shadow := u64 (max_shadow + 2 * stack_size + 1) in
  Ret (if max_shadow <? tls_start_half then tls_start_half else max_shadow).

Definition init_shadow_layout_heap_global_tls (pg : program) (ms : memory_spaces) (l : memory_layout)
  : outcome memory_layout :=
  let app := set_application_segment (get_heap_start ms) get_heap_size in
  let pheap := mk_partition app
    (set_shadow_segment app 1 (pg_mspace_start pg 4)) (set_shadow_segment app 8 (pg_mspace_start pg 5))
    (set_shadow_segment app 1 (pg_mspace_start pg 6)) (set_shadow_segment app 1 (pg_mspace_start pg 7)) in
  let app := set_application_segment (get_global_start pg) (get_global_size pg) in
  let pglobal := mk_partition app
    (set_shadow_segment app 1 (pg_mspace_start pg 8)) (set_shadow_segment app 1 (pg_mspace_start pg 9))
    (set_shadow_segment app 1 (pg_mspace_start pg 10)) (set_shadow_segment app 1 (pg_mspace_start pg 11)) in
  let* tls_start := get_tls_start pg pheap pglobal in
  let app := set_application_segment tls_start get_tls_size in
  let ptls := mk_partition app
    (set_shadow_segment app 1 (pg_mspace_start pg 12)) (set_shadow_segment app 1 (pg_mspace_start pg 13))
    (set_shadow_segment app 1 (pg_mspace_start pg 14)) (set_shadow_segment app 1 (pg_mspace_start pg 15)) in
  Ret (mk_layout pheap (ly_stack l) pglobal ptls true).

(** ** Address translations *)

Definition SHADOW_ACCESS (addr offset : Z) : Z := u64 (addr - offset).
Definition SCALED_SHADOW_ACCESS (addr start offset scale : Z) : Z :=
  u64 (u64 (start - offset) + u64 (addr - start) / scale).

Definition HEAP_SHADOW (l : memory_layout) (addr : Z) : Z :=
  SHADOW_ACCESS addr (sg_shadow_offset (primary (ly_heap l))).
Definition HEAP_START (l : memory_layout) : Z := sg_start (application (ly_heap l)).
Definition HEAP_INIT_SHADOW (l : memory_layout) (addr : Z) : Z :=
  SCALED_SHADOW_ACCESS addr (HEAP_START l) (sg_shadow_offset (secondary (ly_heap l)))
    (sg_shadow_ratio (secondary (ly_heap l))).

Definition IS_ON (addr : Z) (sg : memory_segment) : bool :=
  (sg_start sg <=? addr) && (addr <=? sg_end sg).
Definition IS_ON_HEAP (l : memory_layout) (addr : Z) : bool := IS_ON addr (application (ly_heap l)).
Definition IS_ON_STACK (l : memory_layout) (addr : Z) : bool := IS_ON addr (application (ly_stack l)).
Definition IS_ON_GLOBAL (l : memory_layout) (addr : Z) : bool := IS_ON addr (application (ly_global l)).
Definition IS_ON_TLS (l : memory_layout) (addr : Z) : bool := IS_ON addr (application (ly_tls l)).
Definition IS_ON_STATIC (l : memory_layout) (addr : Z) : bool :=
  IS_ON_STACK l addr || IS_ON_GLOBAL l addr || IS_ON_TLS l addr.
Definition IS_ON_VALID (l : memory_layout) (addr : Z) : bool :=
  IS_ON_STACK l addr || IS_ON_HEAP l addr || IS_ON_GLOBAL l addr || IS_ON_TLS l addr.

(** [SHADOW_REGION_ADDRESS]: [region] selects the shadow segment. *)
Definition SHADOW_REGION_ADDRESS (l : memory_layout) (region : memory_partition -> memory_segment)
  (addr : Z) : Z :=
  if IS_ON_STACK l addr then SHADOW_ACCESS addr (sg_shadow_offset (region (ly_stack l)))
  else if IS_ON_GLOBAL l addr then SHADOW_ACCESS addr (sg_shadow_offset (region (ly_global l)))
  else if IS_ON_TLS l addr then SHADOW_ACCESS addr (sg_shadow_offset (region (ly_tls l)))
  else 0.
Definition PRIMARY_SHADOW (l : memory_layout) (addr : Z) : Z := SHADOW_REGION_ADDRESS l primary addr.
Definition SECONDARY_SHADOW (l : memory_layout) (addr : Z) : Z :=
  SHADOW_REGION_ADDRESS l secondary addr.
Definition PRIMARY_GLOBAL_SHADOW (l : memory_layout) (addr : Z) : Z :=
  SHADOW_ACCESS addr (sg_shadow_offset (primary (ly_global l))).
Definition TEMPORAL_HEAP_SHADOW (l : memory_layout) (addr : Z) : Z :=
  SHADOW_ACCESS addr (sg_shadow_offset (temporal_primary (ly_heap l))).
Definition TEMPORAL_PRIMARY_STATIC_SHADOW (l : memory_layout) (addr : Z) : Z :=
  SHADOW_REGION_ADDRESS l temporal_primary addr.
Definition TEMPORAL_SECONDARY_STATIC_SHADOW (l : memory_layout) (addr : Z) : Z :=
  SHADOW_REGION_ADDRESS l temporal_secondary addr.

(** ** Validation of the layout (debug mode) *)

(** The bounds of the segments of a partition, in the order of the table. *)
Definition partition_segments (cfg : config) (p : memory_partition) : list (Z * Z) :=
  map (fun sg => (sg_start sg, sg_end sg))
    ([application p; primary p; secondary p] ++
     if cfg_temporal cfg then [temporal_primary p; temporal_secondary p] else []).

(** The inner loop: [src] against every segment but itself. *)
Fixpoint validate_against (i : nat) (src : Z * Z) (j : nat) (segs : list (Z * Z)) : outcome unit :=
  match segs with
  | [] => Ret tt
  | dest :: segs =>
      let* _ := if Nat.eqb i j then Ret tt
                else vassert ((src.2 <? dest.1) || (dest.2 <? src.1)) in
      validate_against i src (S j) segs
  end.
Fixpoint validate_segments (i : nat) (rest all : list (Z * Z)) : outcome unit :=
  match rest with
  | [] => Ret tt
  | src :: rest =>
      let* _ := vassert (src.1 <? src.2) in
      let* _ := validate_against i src 0 all in
      validate_segments (S i) rest all
  end.

Definition validate_shadow_layout (cfg : config) (l : memory_layout) : outcome unit :=
  let* _ := vassert (ly_is_initialized l) in
  let segments := flat_map (partition_segments cfg) (mem_partitions l) in
  validate_segments 0 segments segments.

(** ** The validation is right *)

Lemma vassert_inv b u : vassert b = Ret u -> b = true.
Proof. by destruct b. Qed.

Lemma validate_against_spec i src j segs :
  validate_against i src j segs = Ret tt <->
  forall k dest, segs !! k = Some dest -> (j + k)%nat <> i ->
    src.2 < dest.1 \/ dest.2 < src.1.
Proof.
  revert j. induction segs as [|d segs IH]; intros j; simpl; [naive_solver|].
  transitivity ((i <> j -> src.2 < d.1 \/ d.2 < src.1) /\
    validate_against i src (S j) segs = Ret tt).
  - destruct (Nat.eqb_spec i j) as [->|Hne]; cbn [obind]; [naive_solver|].
    destruct ((src.2 <? d.1) || (d.2 <? src.1)) eqn:E; cbn [vassert obind].
    + apply orb_true_iff in E. rewrite !Z.ltb_lt in E. naive_solver.
    + apply orb_false_iff in E. rewrite !Z.ltb_ge in E. split; [done|]. intros [H _].
      specialize (H Hne). lia.
  - rewrite IH. split.
    + intros [H1 H2] [|k] dest; simpl; [intros [= <-] Hk; apply H1; lia|].
      intros Hd Hk. apply (H2 k); [done|lia].
    + intros H. split; [intros Hne; apply (H 0%nat); [done|lia]|].
      intros k dest Hd Hk. apply (H (S k)); [done|lia].
Qed.

Lemma validate_segments_spec i rest all :
  validate_segments i rest all = Ret tt <->
  forall k src, rest !! k = Some src -> src.1 < src.2 /\
    forall k' dest, all !! k' = Some dest -> k' <> (i + k)%nat -> src.2 < dest.1 \/ dest.2 < src.1.
Proof.
  revert i. induction rest as [|s rest IH]; intros i; simpl; [naive_solver|].
  transitivity ((s.1 < s.2 /\ validate_against i s 0 all = Ret tt) /\
    validate_segments (S i) rest all = Ret tt).
  - destruct (Z.ltb_spec s.1 s.2); cbn [vassert obind]; [|split; [done|lia]].
    destruct (validate_against i s 0 all) as [[]| | |] eqn:E; cbn [obind]; naive_solver.
  - rewrite IH, validate_against_spec. split.
    + intros [[H1 H2] H3] [|k] src; simpl.
      * intros [= <-]. split; [done|]. intros k' dest Hd Hk. apply (H2 k'); [done|lia].
      * intros Hs. destruct (H3 k src Hs) as [? H4]. split; [done|].
        intros k' dest Hd Hk. apply (H4 k'); [done|lia].
    + intros H. split.
      * destruct (H 0%nat s eq_refl) as [? H']. split; [done|]. intros k dest Hd Hk.
        apply (H' k); [done|lia].
      * intros k src Hs. destruct (H (S k) src Hs) as [? H']. split; [done|].
        intros k' dest Hd Hk. apply (H' k'); [done|lia].
Qed.

(** The two shadows that every analysis uses. *)
Inductive region : Type := Primary | Secondary.
#[export] Instance region_eq_dec : EqDecision region.
Proof. solve_decision. Defined.
Definition segment_of (r : region) (p : memory_partition) : memory_segment :=
  match r with Primary => primary p | Secondary => secondary p end.

(** Position of a shadow segment in the table of [validate_shadow_layout]. *)
Definition segment_index (cfg : config) (i : nat) (r : region) : nat :=
  (i * (if cfg_temporal cfg then 5 else 3) + match r with Primary => 1 | Secondary => 2 end)%nat.

Lemma segment_lookup cfg l i p r : mem_partitions l !! i = Some p ->
  flat_map (partition_segments cfg) (mem_partitions l) !! segment_index cfg i r =
  Some (sg_start (segment_of r p), sg_end (segment_of r p)).
Proof.
  intros E. unfold segment_index, partition_segments. destruct (cfg_temporal cfg), r;
    destruct i as [|[|[|[|i]]]]; simpl in E; simplify_eq; reflexivity.
Qed.

(** A shadow segment of ratio 1 whose addresses do not wrap around. *)
Definition shadows (app sh : memory_segment) : Prop :=
  exists start, sh = set_shadow_segment app 1 start /\
    0 <= start /\ start + sg_size app < 2 ^ 64 /\
    0 <= sg_start app /\ sg_end app = sg_start app + sg_size app /\ sg_end app < 2 ^ 64 /\
    0 <= sg_size app.

Lemma shadow_access_linear app sh a : shadows app sh -> IS_ON a app = true ->
  SHADOW_ACCESS a (sg_shadow_offset sh) = sg_start sh + (a - sg_start app) /\
  IS_ON (SHADOW_ACCESS a (sg_shadow_offset sh)) sh = true.
Proof.
  intros (start & -> & H0 & H1 & H2 & H3 & H4 & H5) Ha. unfold IS_ON in *.
  apply andb_true_iff in Ha. rewrite !Z.leb_le in Ha. cbn.
  assert (SHADOW_ACCESS a (s64 (u64 (sg_start app - start))) = start + (a - sg_start app)) as ->.
  { unfold SHADOW_ACCESS, s64, u64.
    rewrite <- (Z.mod_small (start + (a - sg_start app)) (2 ^ 64)) by lia.
    rewrite Zplus_mod_idemp_l.
    set (q := sg_start app - start + 2 ^ 63). pose proof (Z.div_mod q (2 ^ 64) ltac:(lia)).
    replace (a - (q mod 2 ^ 64 - 2 ^ 63)) with (start + (a - sg_start app) + (q / 2 ^ 64) * 2 ^ 64)
      by (unfold q in *; lia). apply Z_mod_plus_full. }
  split; [done|]. rewrite Z.div_1_r, u64_small by (unfold in_u; lia).
  apply andb_true_iff. rewrite !Z.leb_le. lia.
Qed.

(** Distinct segments of a valid layout are apart. *)
Lemma segments_apart cfg l x y s t : validate_shadow_layout cfg l = Ret tt ->
  flat_map (partition_segments cfg) (mem_partitions l) !! x = Some s ->
  flat_map (partition_segments cfg) (mem_partitions l) !! y = Some t -> x <> y ->
  s.2 < t.1 \/ t.2 < s.1.
Proof.
  unfold validate_shadow_layout. destruct (ly_is_initialized l); [|done]. cbn [vassert obind].
  rewrite validate_segments_spec. intros Hv Ex Ey Hne.
  destruct (Hv _ _ Ex) as [_ Hd]. apply (Hd _ _ Ey). simpl. auto.
Qed.

Lemma segment_index_inj cfg i j r s :
  segment_index cfg i r = segment_index cfg j s -> i = j /\ r = s.
Proof.
  unfold segment_index. intros E.
  destruct (cfg_temporal cfg), r, s; (split; [lia|done]) || lia.
Qed.

Lemma shadow_access_inj cfg l i j p q r s a b :
  validate_shadow_layout cfg l = Ret tt ->
  mem_partitions l !! i = Some p -> mem_partitions l !! j = Some q ->
  shadows (application p) (segment_of r p) -> shadows (application q) (segment_of s q) ->
  IS_ON a (application p) = true -> IS_ON b (application q) = true ->
  SHADOW_ACCESS a (sg_shadow_offset (segment_of r p)) =
  SHADOW_ACCESS b (sg_shadow_offset (segment_of s q)) -> i = j /\ r = s /\ a = b.
Proof.
  intros Hv Ei Ej Sp Sq Ha Hb E.
  destruct (shadow_access_linear _ _ _ Sp Ha) as [La Ra], (shadow_access_linear _ _ _ Sq Hb) as [Lb Rb].
  destruct (decide (segment_index cfg i r = segment_index cfg j s)) as [Eidx|Hne].
  - apply segment_index_inj in Eidx as [-> ->]. split_and!; [done..|].
    assert (p = q) as -> by congruence. rewrite La, Lb in E. lia.
  - exfalso. pose proof (segments_apart cfg l _ _ _ _ Hv (segment_lookup cfg l i p r Ei)
      (segment_lookup cfg l j q s Ej) Hne) as Hd.
    unfold IS_ON in Ra, Rb. rewrite E in Ra. rewrite andb_true_iff, !Z.leb_le in Ra, Rb.
    simpl in Hd. lia.
Qed.

(** The application segments of a valid layout are apart as well. *)
Lemma applications_apart cfg l i j p q a : validate_shadow_layout cfg l = Ret tt ->
  mem_partitions l !! i = Some p -> mem_partitions l !! j = Some q ->
  IS_ON a (application p) = true -> IS_ON a (application q) = true -> i = j.
Proof.
  intros Hv Ei Ej Ha Hb. destruct (decide (i = j)) as [|Hne]; [done|exfalso].
  set (k := (if cfg_temporal cfg then 5 else 3)%nat).
  assert (forall i p, mem_partitions l !! i = Some p ->
    flat_map (partition_segments cfg) (mem_partitions l) !! (i * k)%nat =
    Some (sg_start (application p), sg_end (application p))) as Hl.
  { intros x p' E. unfold k, partition_segments. destruct (cfg_temporal cfg);
      destruct x as [|[|[|[|x]]]]; simpl in E; simplify_eq; reflexivity. }
  pose proof (segments_apart cfg l _ _ _ _ Hv (Hl i p Ei) (Hl j q Ej)) as Hd. simpl in Hd.
  unfold IS_ON in Ha, Hb. rewrite andb_true_iff, !Z.leb_le in Ha, Hb.
  assert ((i * k)%nat <> (j * k)%nat) by (unfold k; destruct (cfg_temporal cfg); lia). lia.
Qed.

(** ** The layout that the code builds *)

Inductive kind : Type := KApplication | KPrimary | KSecondary | KTemporalPrimary | KTemporalSecondary.
Definition kind_segment (k : kind) (p : memory_partition) : memory_segment :=
  match k with
  | KApplication => application p | KPrimary => primary p | KSecondary => secondary p
  | KTemporalPrimary => temporal_primary p | KTemporalSecondary => temporal_secondary p
  end.
Definition kind_index (k : kind) : nat :=
  match k with
  | KApplication => 0 | KPrimary => 1 | KSecondary => 2 | KTemporalPrimary => 3 | KTemporalSecondary => 4
  end%nat.

(** The address of the shadow of kind [k] of an address, as the code computes it. *)
Definition shadow_of (l : memory_layout) (k : kind) (a : Z) : Z :=
  match k with
  | KPrimary => if IS_ON_HEAP l a then HEAP_SHADOW l a else PRIMARY_SHADOW l a
  | KSecondary => if IS_ON_HEAP l a then HEAP_INIT_SHADOW l a else SECONDARY_SHADOW l a
  | KTemporalPrimary => if IS_ON_HEAP l a then TEMPORAL_HEAP_SHADOW l a else TEMPORAL_PRIMARY_STATIC_SHADOW l a
  | KTemporalSecondary => TEMPORAL_SECONDARY_STATIC_SHADOW l a
  | KApplication => a
  end.
(** The shadows that an address has: temporal ones only with temporal analysis, and only
    one of them on the heap. *)
Definition has_shadow (cfg : config) (l : memory_layout) (k : kind) (a : Z) : bool :=
  match k with
  | KApplication => false
  | KPrimary | KSecondary => true
  | KTemporalPrimary => cfg_temporal cfg
  | KTemporalSecondary => cfg_temporal cfg && negb (IS_ON_HEAP l a)
  end.
(** The bytes of the program that share a shadow address. *)
Definition shadow_scale (l : memory_layout) (k : kind) (a : Z) : Z :=
  match k with KSecondary => if IS_ON_HEAP l a then 8 else 1 | _ => 1 end.

(** What the system provides are addresses and sizes. *)
Record program_words (pg : program) (ms : memory_spaces) : Prop := {
  pw_heap : in_u 64 (heap_start ms);
  pw_executable : in_u 64 (pg_executable_start pg);
  pw_limits : forall cur max, pg_getrlimit pg = Some (cur, max) -> in_u 64 cur /\ in_u 64 max;
  pw_shadows : forall i, in_u 64 (pg_mspace_start pg i)
}.

Definition shadowed (app sg : memory_segment) (ratio : Z) : Prop :=
  exists start, sg = set_shadow_segment app ratio start /\ in_u 64 start.
Record built (p : memory_partition) (scale : Z) : Prop := {
  bu_application : exists start size, application p = set_application_segment start size /\
    in_u 64 start /\ in_u 64 size;
  bu_shadows : forall k, k <> KApplication ->
    shadowed (application p) (kind_segment k p) (match k with KSecondary => scale | _ => 1 end)
}.

Lemma set_application_built start size scale s1 s2 s3 s4 (app := set_application_segment start size) :
  in_u 64 start -> in_u 64 size -> in_u 64 s1 -> in_u 64 s2 -> in_u 64 s3 -> in_u 64 s4 ->
  built (mk_partition app (set_shadow_segment app 1 s1) (set_shadow_segment app scale s2)
    (set_shadow_segment app 1 s3) (set_shadow_segment app 1 s4)) scale.
Proof. intros. constructor; [by exists start, size|]. intros [] Hk; [done|eexists..]; (split; [reflexivity|done]). Qed.

Lemma get_stack_size_word pg ms n : program_words pg ms -> get_stack_size pg = Ret n -> in_u 64 n.
Proof.
  intros Hw. unfold get_stack_size, increase_stack_limit.
  destruct (pg_getrlimit pg) as [[cur max]|] eqn:E; [|done].
  destruct (pw_limits _ _ Hw _ _ E) as [Hc Hm].
  assert (in_u 64 (E_ACSL_STACK_SIZE * MB)) by (split; [discriminate|reflexivity]).
  destruct (cur <? _); [|cbn; by intros [= <-]].
  destruct (pg_setrlimit pg); [|done]. destruct (max <? _); cbn; by intros [= <-].
Qed.

Lemma get_tls_start_word pg ph pglob x : get_tls_start pg ph pglob = Ret x -> in_u 64 x.
Proof.
  unfold get_tls_start. destruct (get_stack_size pg); try done. cbn [obind]. intros [= <-].
  case_match; apply u64_range.
Qed.

(** All partitions are built, with the shadow of the initialization of the heap of one
    byte for eight. *)
Lemma init_built fuel m pg ms l0 l1 l : program_words pg ms ->
  init_shadow_layout_heap_global_tls pg ms l0 = Ret l1 -> init_shadow_layout_stack fuel m pg l1 = Ret l ->
  forall i p, mem_partitions l !! i = Some p -> built p (if Nat.eqb i 0 then 8 else 1).
Proof.
  intros Hw. pose proof (pw_shadows _ _ Hw) as Hs.
  unfold init_shadow_layout_heap_global_tls, init_shadow_layout_stack, get_stack_start. cbv zeta.
  intros E1 E2 i p Ep. obind_split. simplify_eq.
  match goal with H : get_stack_size pg = Ret _ |- _ => apply (get_stack_size_word _ ms) in H; [|done] end.
  destruct i as [|[|[|[|i]]]]; cbn in Ep; simplify_eq; apply set_application_built; try done.
  - apply (pw_heap _ _ Hw).
  - apply u64_range.
  - apply (pw_executable _ _ Hw).
  - apply u64_range.
  - by eapply get_tls_start_word.
Qed.

(** A segment of the table of a valid layout does not wrap around. *)
Lemma application_bounds p scale : built p scale -> sg_start (application p) < sg_end (application p) ->
  sg_end (application p) = sg_start (application p) + sg_size (application p) /\
  in_u 64 (sg_start (application p)) /\ in_u 64 (sg_end (application p)) /\ 0 < sg_size (application p).
Proof.
  intros [(start & size & -> & H1 & H2) _]. cbn. unfold in_u in *. intros Hlt.
  assert (start + size < 2 ^ 64) as Hs.
  { destruct (Z.lt_ge_cases (start + size) (2 ^ 64)); [done|exfalso]. revert Hlt. unfold u64.
    replace (start + size) with (start + size - 2 ^ 64 + 1 * 2 ^ 64) by lia. rewrite Z_mod_plus_full.
    rewrite Z.mod_small; lia. }
  rewrite u64_small in Hlt |- * by (unfold in_u; lia). lia.
Qed.

(** The address of a shadow of ratio [scale]. *)
Lemma scaled_access app sg scale a : shadowed app sg scale -> sg_start sg < sg_end sg -> 0 < scale ->
  in_u 64 (sg_start app) -> sg_start app <= a <= sg_start app + sg_size app ->
  0 <= sg_size app < 2 ^ 64 ->
  SCALED_SHADOW_ACCESS a (sg_start app) (sg_shadow_offset sg) scale =
    sg_start sg + (a - sg_start app) / scale /\
  IS_ON (sg_start sg + (a - sg_start app) / scale) sg = true.
Proof.
  intros (start & -> & Hw) Hlt Hsc Happ Ha Hsz. cbn in *. unfold in_u in *.
  assert (0 <= (a - sg_start app) / scale <= sg_size app / scale) as Hq.
  { split; [apply Z.div_pos; lia|apply Z.div_le_mono; lia]. }
  assert (sg_size app / scale < 2 ^ 64) as Hs by (apply Z.div_lt_upper_bound; nia).
  assert (start + sg_size app / scale < 2 ^ 64) as Hend.
  { destruct (Z.lt_ge_cases (start + sg_size app / scale) (2 ^ 64)); [done|exfalso]. revert Hlt. unfold u64.
    replace (start + sg_size app / scale) with (start + sg_size app / scale - 2 ^ 64 + 1 * 2 ^ 64) by lia.
    rewrite Z_mod_plus_full, Z.mod_small; lia. }
  split.
  - unfold SCALED_SHADOW_ACCESS. rewrite (u64_small (a - _)) by (unfold in_u; lia).
    assert (u64 (sg_start app - s64 (u64 (sg_start app - start))) = start) as ->.
    { unfold s64, u64. set (q := (sg_start app - start) mod 2 ^ 64 + 2 ^ 63).
      pose proof (Z.div_mod q (2 ^ 64) ltac:(lia)). pose proof (Z.div_mod (sg_start app - start) (2 ^ 64) ltac:(lia)).
      replace (sg_start app - (q mod 2 ^ 64 - 2 ^ 63)) with
        (start + (q / 2 ^ 64 + (sg_start app - start) / 2 ^ 64) * 2 ^ 64) by (unfold q in *; lia).
      rewrite Z_mod_plus_full. by apply Z.mod_small. }
    apply u64_small. unfold in_u. lia.
  - unfold IS_ON. cbn. rewrite u64_small by (unfold in_u; lia). lia.
Qed.

(** Position of a segment in the table of [validate_shadow_layout]. *)
Definition table_index (cfg : config) (i : nat) (k : kind) : nat :=
  (i * (if cfg_temporal cfg then 5 else 3) + kind_index k)%nat.
Definition checked (cfg : config) (k : kind) : bool :=
  match k with KTemporalPrimary | KTemporalSecondary => cfg_temporal cfg | _ => true end.

Lemma table_lookup cfg l i k p : mem_partitions l !! i = Some p -> checked cfg k = true ->
  flat_map (partition_segments cfg) (mem_partitions l) !! table_index cfg i k =
  Some (sg_start (kind_segment k p), sg_end (kind_segment k p)).
Proof.
  intros E Hk. unfold table_index, partition_segments, checked in *.
  destruct (cfg_temporal cfg), k; try discriminate Hk; destruct i as [|[|[|[|i]]]]; simpl in E; simplify_eq; reflexivity.
Qed.

Lemma table_index_inj cfg i k j k' : checked cfg k = true -> checked cfg k' = true ->
  table_index cfg i k = table_index cfg j k' -> i = j /\ k = k'.
Proof.
  unfold table_index, checked. destruct (cfg_temporal cfg), k, k'; cbn [kind_index]; intros H1 H2 E;
    try discriminate; (split; [lia|done]) || lia.
Qed.

Section Built.
Context (cfg : config) (l : memory_layout).
Context (Hv : validate_shadow_layout cfg l = Ret tt).
Context (Hb : forall i p, mem_partitions l !! i = Some p -> built p (if Nat.eqb i 0 then 8 else 1)).

(** [y] is an address of the segment of kind [k] of the [i]-th partition. *)
Definition placed (i : nat) (k : kind) (y : Z) : Prop :=
  checked cfg k = true /\ exists p, mem_partitions l !! i = Some p /\ IS_ON y (kind_segment k p) = true.

Lemma placed_unique i k j k' y : placed i k y -> placed j k' y -> i = j /\ k = k'.
Proof using Hv.
  intros (Hk & p & Ep & Hp) (Hk' & q & Eq & Hq).
  destruct (decide (table_index cfg i k = table_index cfg j k')) as [E|Hne]; [by apply (table_index_inj cfg)|exfalso].
  pose proof (segments_apart cfg l _ _ _ _ Hv (table_lookup cfg l i k p Ep Hk) (table_lookup cfg l j k' q Eq Hk') Hne) as Hd.
  unfold IS_ON in *. rewrite andb_true_iff, !Z.leb_le in *. simpl in Hd. lia.
Qed.

Lemma segment_ordered i k p : mem_partitions l !! i = Some p -> checked cfg k = true ->
  sg_start (kind_segment k p) < sg_end (kind_segment k p).
Proof using Hv.
  intros Ep Hk. pose proof (table_lookup cfg l i k p Ep Hk) as E. revert Hv. unfold validate_shadow_layout.
  destruct (ly_is_initialized l); [|done]. cbn [vassert obind]. rewrite validate_segments_spec. intros H.
  by apply H in E as [E _].
Qed.

(** The partition of a tracked address. *)
Lemma tracked_partition a : IS_ON_VALID l a = true ->
  exists i p, placed i KApplication a /\ mem_partitions l !! i = Some p /\ IS_ON_HEAP l a = Nat.eqb i 0.
Proof using Hv.
  intros Ha. assert (exists i, placed i KApplication a) as (i & Hp).
  { unfold IS_ON_VALID in Ha. rewrite !orb_true_iff in Ha. destruct Ha as [[[H|H]|H]|H];
      [exists 1%nat|exists 0%nat|exists 2%nat|exists 3%nat]; (split; [done|]); eexists; (split; [reflexivity|exact H]). }
  destruct Hp as (Hk & p & Ep & Hon). exists i, p. split; [split; eauto|]. split; [done|].
  destruct (IS_ON_HEAP l a) eqn:Eh.
  - assert (placed 0 KApplication a) as H0 by (split; [done|]; eexists; split; [reflexivity|exact Eh]).
    destruct (placed_unique i KApplication 0 KApplication a) as [-> _]; [split; eauto|done|done].
  - symmetry. apply Nat.eqb_neq. intros ->. cbn in Ep. simplify_eq. cbn in Hon. unfold IS_ON_HEAP in Eh. congruence.
Qed.

Lemma unscaled a start off : SHADOW_ACCESS a off = SCALED_SHADOW_ACCESS a start off 1.
Proof.
  unfold SHADOW_ACCESS, SCALED_SHADOW_ACCESS. rewrite Z.div_1_r. unfold u64. rewrite <- Zplus_mod. f_equal. lia.
Qed.

(** The address that the code computes, by the partition of the address. *)
Lemma shadow_of_access i p k a : mem_partitions l !! i = Some p -> placed i KApplication a ->
  IS_ON_HEAP l a = Nat.eqb i 0 -> has_shadow cfg l k a = true ->
  shadow_of l k a = SCALED_SHADOW_ACCESS a (sg_start (application p)) (sg_shadow_offset (kind_segment k p))
    (if Nat.eqb i 0 then match k with KSecondary => sg_shadow_ratio (secondary p) | _ => 1 end else 1).
Proof using Hv.
  intros Ep Hp Hh Hk.
  assert (forall j q, mem_partitions l !! j = Some q -> IS_ON a (application q) = Nat.eqb i j) as Hon.
  { intros j q Eq. destruct (IS_ON a (application q)) eqn:E.
    - destruct (placed_unique i KApplication j KApplication a) as [-> _]; [done|split; eauto|by rewrite Nat.eqb_refl].
    - symmetry. apply Nat.eqb_neq. intros ->. destruct Hp as (_ & p' & Ep' & H). cbn [kind_segment] in H. congruence. }
  assert (forall r, i <> 0%nat -> SHADOW_REGION_ADDRESS l r a = SHADOW_ACCESS a (sg_shadow_offset (r p))) as Hr.
  { intros r Hi. unfold SHADOW_REGION_ADDRESS, IS_ON_STACK, IS_ON_GLOBAL, IS_ON_TLS.
    rewrite (Hon 1%nat _ eq_refl), (Hon 2%nat _ eq_refl), (Hon 3%nat _ eq_refl).
    destruct i as [|[|[|[|i]]]]; cbn in Ep; simplify_eq; done. }
  unfold shadow_of, has_shadow in *. rewrite Hh in *. destruct i as [|i].
  - cbn in Ep. simplify_eq. cbn [Nat.eqb negb] in *. rewrite andb_false_r in Hk.
    destruct k; try discriminate Hk; cbn [kind_segment]; [apply unscaled|reflexivity|apply unscaled].
  - cbn [Nat.eqb]. unfold PRIMARY_SHADOW, SECONDARY_SHADOW, TEMPORAL_PRIMARY_STATIC_SHADOW, TEMPORAL_SECONDARY_STATIC_SHADOW.
    destruct k; try discriminate Hk; rewrite Hr by done; apply unscaled.
Qed.

(** A shadow is in its segment, at the scaled distance from its start. *)
Lemma shadow_of_placed k a : IS_ON_VALID l a = true -> has_shadow cfg l k a = true ->
  exists i p, mem_partitions l !! i = Some p /\ IS_ON_HEAP l a = Nat.eqb i 0 /\ placed i k (shadow_of l k a) /\
    shadow_of l k a = sg_start (kind_segment k p) + (a - sg_start (application p)) / shadow_scale l k a.
Proof using Hv Hb.
  intros Ha Hk. destruct (tracked_partition a Ha) as (i & p & Hp & Ep & Hh). exists i, p. split; [done|]. split; [done|].
  assert (checked cfg k = true /\ k <> KApplication) as [Hc Hna].
  { unfold has_shadow in Hk. destruct k; try done. cbn. by apply andb_true_iff in Hk as [-> _]. }
  pose proof (Hb i p Ep) as Hbp. destruct (application_bounds p _ Hbp (segment_ordered i KApplication p Ep eq_refl)) as (E1 & E2 & E3 & E4).
  pose proof (bu_shadows _ _ Hbp k Hna) as Hs.
  assert ((if Nat.eqb i 0 then match k with KSecondary => sg_shadow_ratio (secondary p) | _ => 1 end else 1) = shadow_scale l k a) as Hsc.
  { unfold shadow_scale. rewrite Hh. destruct (Nat.eqb i 0), k; try done. destruct Hs as (st & E & _). cbn in E. by rewrite E. }
  assert (match k with KSecondary => if Nat.eqb i 0 then 8 else 1 | _ => 1 end = shadow_scale l k a) as Hsc'.
  { unfold shadow_scale. rewrite Hh. by destruct k. }
  rewrite (shadow_of_access i p k a Ep Hp Hh Hk), Hsc. rewrite Hsc' in Hs.
  assert (0 < shadow_scale l k a) as Hpos by (unfold shadow_scale; destruct k, (IS_ON_HEAP l a); lia).
  destruct Hp as (_ & p' & Ep' & Hon). assert (p' = p) as -> by congruence. cbn [kind_segment] in Hon.
  unfold IS_ON in Hon. rewrite andb_true_iff, !Z.leb_le in Hon. unfold in_u in *.
  destruct (scaled_access _ _ _ a Hs (segment_ordered i k p Ep Hc) Hpos E2) as [-> H]; [lia..|].
  split; [|done]. split; [done|]. exists p. by split.
Qed.
End Built.

(** C17.  In the layout that the code builds, for every program whose addresses and limits
    are 64-bit numbers, if [validate_shadow_layout] accepts it: the shadow address of a
    tracked address is not tracked itself, and no two shadow addresses are the same,
    unless they are of the same kind and of the same tracked address or, for the
    initialization shadow of the heap, of two addresses of the same eight bytes.  This
    is about all shadows that are used: the primary and the secondary ones of the heap,
    the stack, the globals and the thread-local storage and, with temporal analysis,
    their temporal ones. *)
Theorem shadow_injective (cfg : config) (fuel : nat) (m : mem) (pg : program) (ms : memory_spaces)
  (l0 l1 l : memory_layout) (k k' : kind) (a b : Z) :
  program_words pg ms ->
  init_shadow_layout_heap_global_tls pg ms l0 = Ret l1 -> init_shadow_layout_stack fuel m pg l1 = Ret l ->
  validate_shadow_layout cfg l = Ret tt ->
  IS_ON_VALID l a = true -> IS_ON_VALID l b = true ->
  has_shadow cfg l k a = true -> has_shadow cfg l k' b = true ->
  IS_ON_VALID l (shadow_of l k a) = false /\
  (shadow_of l k a = shadow_of l k' b ->
     k = k' /\
     (a = b \/ k = KSecondary /\ IS_ON_HEAP l a = true /\ IS_ON_HEAP l b = true /\
               (a - HEAP_START l) / 8 = (b - HEAP_START l) / 8)).
Proof.
  intros Hw E1 E2 Hv Ha Hb Hk Hk'. pose proof (init_built fuel m pg ms l0 l1 l Hw E1 E2) as Hbu.
  destruct (shadow_of_placed cfg l Hv Hbu k a Ha Hk) as (i & p & Ep & Hh & Hp & Ea). split.
  - apply not_true_iff_false. intros Ht. destruct (tracked_partition cfg l Hv _ Ht) as (j & q & Hq & _).
    destruct (placed_unique cfg l Hv _ _ _ _ _ Hp Hq) as [_ ->]. discriminate Hk.
  - intros E. destruct (shadow_of_placed cfg l Hv Hbu k' b Hb Hk') as (j & q & Eq & Hh' & Hq & Eb).
    rewrite E in Hp. destruct (placed_unique cfg l Hv _ _ _ _ _ Hp Hq) as [-> ->].
    rewrite Ep in Eq. injection Eq as <-. split; [done|].
    rewrite Ea, Eb in E. unfold shadow_scale in E. rewrite Hh, Hh' in *.
    destruct j as [|j]; cbn [Nat.eqb] in *; [|left; destruct k'; rewrite ?Z.div_1_r in E; lia].
    cbn in Ep. simplify_eq. unfold HEAP_START.
    destruct k'; rewrite ?Z.div_1_r in E; [left; lia..| |left; lia|left; lia].
    right. split_and!; [done..|]. lia.
Qed.

(** A program with a heap, a stack, globals and thread-local storage of its own. *)
Definition demo_program : program :=
  mk_program (2 ^ 30) (2 ^ 30 + 4096) (2 ^ 45) (2 ^ 45 + 4096) 65536 (Some (2 ^ 33, 2 ^ 40)) true
    (fun i => 2 ^ 41 + (i mod 16) * 2 ^ 34).
(** The environment: one string, which is empty and above the stack. *)
Definition demo_environment : mem :=
  mem_fill 16 65536 0 ∪ <[2 ^ 46 := 0]> ∅.
Definition demo_process : outcome mem := store64 demo_environment 65536 (2 ^ 46).
Definition demo_start : outcome (mem * memory_layout * memory_layout) :=
  let* m := demo_process in
  let* l1 := init_shadow_layout_heap_global_tls demo_program (mk_spaces (2 ^ 40) 0 0) zero_layout in
  let* l := init_shadow_layout_stack 2 m demo_program l1 in
  Ret (m, l1, l).

Lemma demo_program_words ms : in_u 64 (heap_start ms) -> program_words demo_program ms.
Proof.
  intros H. constructor; [done|split; [discriminate|reflexivity]|..].
  - intros cur max [= <- <-]. repeat split; discriminate || reflexivity.
  - intros i. cbn. pose proof (Z.mod_pos_bound i 16 ltac:(lia)). unfold in_u. lia.
Qed.

Definition demo_accepted (l : memory_layout) : bool :=
  match validate_shadow_layout default_config l with Ret tt => true | _ => false end.
Lemma demo_accepted_valid l : demo_accepted l = true -> validate_shadow_layout default_config l = Ret tt.
Proof. unfold demo_accepted. by destruct (validate_shadow_layout default_config l) as [[]| | |]. Qed.

Lemma shadow_injective_witness : exists m l1 l,
  demo_start = Ret (m, l1, l) /\ IS_ON_HEAP l (2 ^ 40 + 16) = true /\
  IS_ON_VALID l (shadow_of l KSecondary (2 ^ 40 + 16)) = false /\
  forall a, IS_ON_VALID l a = true -> shadow_of l KPrimary a <> shadow_of l KSecondary (2 ^ 40 + 16).
Proof.
  destruct demo_start as [[[m l1] l]| | |] eqn:E; [|exfalso; revert E; vm_compute; discriminate..].
  exists m, l1, l. split; [done|].
  assert (IS_ON_HEAP l (2 ^ 40 + 16) && demo_accepted l &&
    IS_ON_VALID l (2 ^ 40 + 16) = true) as Hc.
  { transitivity (match demo_start with
      | Ret (_, _, l) => IS_ON_HEAP l (2 ^ 40 + 16) && demo_accepted l &&
          IS_ON_VALID l (2 ^ 40 + 16)
      | _ => false end); [by rewrite E|by vm_compute]. }
  rewrite !andb_true_iff in Hc. destruct Hc as [[Hh Hv%demo_accepted_valid] Ht].
  unfold demo_start in E. destruct demo_process as [m0| | |]; try discriminate E. cbn [obind] in E.
  destruct (init_shadow_layout_heap_global_tls demo_program (mk_spaces (2 ^ 40) 0 0) zero_layout) as [l1'| | |] eqn:E1; try discriminate E.
  cbn [obind] in E. destruct (init_shadow_layout_stack 2 m0 demo_program l1') as [l'| | |] eqn:E2; try discriminate E.
  cbn [obind] in E. injection E as -> -> ->.
  pose proof (demo_program_words (mk_spaces (2 ^ 40) 0 0) ltac:(split; [discriminate|reflexivity])) as Hw.
  split; [done|]. split.
  - apply (shadow_injective default_config 2 m demo_program (mk_spaces (2 ^ 40) 0 0) zero_layout l1 l KSecondary KSecondary
      (2 ^ 40 + 16) (2 ^ 40 + 16)); done.
  - intros a Ha Heq. destruct (shadow_injective default_config 2 m demo_program (mk_spaces (2 ^ 40) 0 0) zero_layout l1 l
      KPrimary KSecondary a (2 ^ 40 + 16)) as [_ H]; try done. destruct (H Heq) as [Hk _]. discriminate Hk.
Defined.
