(* ===== verification/Segment.v ===== *)
(** * e_acsl_segment_tracking.h and e_acsl_segment_mmodel.c: shadow memory

    The memory model over shadow memory.  A state has the memory of the process,
    the application's segments as well as their shadows, in one byte memory: a
    shadow access is an access at the translated address.

    Blocks of the stack, of the globals and of thread-local storage have the
    offset-based encoding: a primary shadow byte per byte, with an
    initialization bit, a read-only bit and a 6-bit code; and a secondary shadow
    with length and offset in blocks of more than 8 bytes.  Heap blocks have the
    segment-based encoding: the base address in each 32-byte segment of the
    shadow, the length in the first one, initialization in a bit shadow. *)

From S2P Require Import Prelude Alloc Temporal Bits Mask CString Shadow.

(** ** Encoding *)

Definition HEAP_SEGMENT : Z := 32.
Definition LONG_BLOCK : Z := 8.
Definition INIT_BIT : Z := 0.
Definition READONLY_BIT : Z := 1.
Definition IS_LONG_BLOCK (size : Z) : bool := LONG_BLOCK <? size.
Definition LONG_BLOCK_BOUNDARY (size : Z) : Z := size - size mod LONG_BLOCK.
Definition LONG_BLOCK_MASK : Z := 15913703276567643328.
Definition LONG_BLOCK_INDEX_START : Z := 48.

Definition ALIGN_LEFT (n m : Z) : Z := n - n mod m.
Definition ALIGN_RIGHT (n m : Z) : Z := n + (if negb (n mod m =? 0) then m - n mod m else 0).
Definition SIZE_MAX : Z := 2 ^ 64 - 1.
Definition max_allocated : Z := ALIGN_LEFT SIZE_MAX HEAP_SEGMENT.
Definition ALLOC_SIZE (s : Z) : Z := if s <? max_allocated then ALIGN_RIGHT s HEAP_SEGMENT else 0.
Definition BELONGS (addr base length : Z) : bool := (base <=? addr) && (addr <? u64 (base + length)).

Definition short_lengths : list Z := [
  0;
  1;
  2;2;
  3;3;3;
  4;4;4;4;
  5;5;5;5;5;
  6;6;6;6;6;6;
  7;7;7;7;7;7;7;
  8;8;8;8;8;8;8;8].

Definition short_offsets : list Z := [
  0;
  0;
  0;1;
  0;1;2;
  0;1;2;3;
  0;1;2;3;4;
  0;1;2;3;4;5;
  0;1;2;3;4;5;6;
  0;1;2;3;4;5;6;7].

Definition short_offsets_base : list Z := [0; 1; 2; 4; 7; 11; 16; 22; 29].

Definition static_init_masks : list Z := [
  0;
  1;
  257;
  65793;
  16843009;
  4311810305;
  1103823438081;
  282578800148737;
  72340172838076673].

Definition static_readonly_masks : list Z := [
  0;
  2;
  514;
  131586;
  33686018;
  8623620610;
  2207646876162;
  565157600297474;
  144680345676153346].

(** Types of queries: characters. *)
Definition qB : Z := 66.
Definition qO : Z := 79.
Definition qL : Z := 76.

Section Tracking.
Context (cfg : config) (l : memory_layout).

Definition ALIGNED_HEAP_SHADOW (addr : Z) : Z := HEAP_SHADOW l (ALIGN_LEFT addr HEAP_SEGMENT).

(** A check of debug mode whose condition reads memory. *)
Definition dcheck (c : outcome bool) : outcome unit :=
  if cfg_debug cfg then let* b := c in vassert b else Ret tt.

(** [if (IS_ON_HEAP) heap; else if (IS_ON_STATIC) static; else other]. *)
Definition try_segment {A : Type} (addr : Z) (heap static other : A) : A :=
  if IS_ON_HEAP l addr then heap else if IS_ON_STATIC l addr then static else other.

(** ** Queries of the shadows *)

Definition static_allocated_one (m : mem) (addr : Z) : outcome Z := load8 m (PRIMARY_SHADOW l addr).

(** Length and offset that the shadow of [addr], whose code is [code], gives. *)
Definition static_code (m : mem) (addr code : Z) : outcome (Z * Z) :=
  if LONG_BLOCK_INDEX_START <=? code then
    let offset := code - LONG_BLOCK_INDEX_START in
    let sec_shadow := SECONDARY_SHADOW l (u64 (addr - offset)) in
    let* length := load32 m sec_shadow in
    let* o := load32 m (sec_shadow + 4) in
    Ret (length, u64 (o + offset))
  else
    let* offset := tget short_offsets code in
    let* length := tget short_lengths code in
    Ret (length, offset).

Definition static_allocated (m : mem) (addr size base_ptr : Z) : outcome Z :=
  let* b := load8 m (PRIMARY_SHADOW l addr) in
  if negb (b =? 0) then
    let* (length, offset) := static_code m addr (Z.shiftr b 2) in
    let fits := u64 (offset + size) <=? length in
    if negb (cfg_weak_validity cfg) && negb (addr =? base_ptr) then
      Ret (b2i (BELONGS base_ptr (u64 (addr - offset)) length && fits))
    else Ret (b2i fits)
  else Ret 0.

Definition heap_allocated (m : mem) (addr size base_ptr : Z) : outcome Z :=
  let shadow := HEAP_SHADOW l (addr - addr mod HEAP_SEGMENT) in
  let* base := load64 m shadow in
  if negb (base =? 0) then
    let base_shadow := HEAP_SHADOW l (base_ptr - base_ptr mod HEAP_SEGMENT) in
    let first_segment := HEAP_SHADOW l base in
    let fits := let* length := load64 m (first_segment + 8) in
                Ret (b2i (u64 (u64 (addr - base) + size) <=? length)) in
    if cfg_weak_validity cfg then fits
    else
      let* base' := load64 m base_shadow in
      if base' =? base then fits else Ret 0
  else Ret 0.

(** Debug checks. *)
Definition DVALIDATE_STATIC_LOCATION (m : mem) (addr : Z) : outcome unit :=
  let* _ := DASSERT cfg (IS_ON_STATIC l addr) in
  dcheck (let* b := static_allocated_one m addr in Ret (i2b b)).
Definition DVALIDATE_STATIC_ACCESS (m : mem) (addr size : Z) : outcome unit :=
  let* _ := DASSERT cfg (IS_ON_STATIC l addr) in
  dcheck (let* b := static_allocated m addr size addr in Ret (i2b b)).
Definition DVALIDATE_HEAP_ACCESS (m : mem) (addr size : Z) : outcome unit :=
  let* _ := DASSERT cfg (IS_ON_HEAP l addr) in
  dcheck (let* b := heap_allocated m addr (u64 size) addr in Ret (i2b b)).
Definition DVALIDATE_NULLIFIED (m : mem) (addr size : Z) : outcome unit :=
  dcheck (let* b := zeroed_out m addr size in Ret (i2b b)).
Definition DVALIDATE_ALIGNMENT (addr : Z) : outcome unit :=
  DASSERT cfg (addr mod HEAP_SEGMENT =? 0).

Definition static_info (m : mem) (addr type : Z) : outcome Z :=
  let* _ := DVALIDATE_STATIC_LOCATION m addr in
  let* b := load8 m (PRIMARY_SHADOW l addr) in
  if negb (b =? 0) then
    let code := Z.shiftr b 2 in
    if LONG_BLOCK_INDEX_START <=? code then
      let offset := code - LONG_BLOCK_INDEX_START in
      let sec_shadow := SECONDARY_SHADOW l (u64 (addr - offset)) in
      if type =? qB then let* o := load32 m (sec_shadow + 4) in Ret (u64 (addr - offset - o))
      else if type =? qO then let* o := load32 m (sec_shadow + 4) in Ret (u32 (o + offset))
      else if type =? qL then load32 m sec_shadow
      else let* _ := DASSERT cfg false in Ret 0
    else
      if type =? qB then let* o := tget short_offsets code in Ret (u64 (addr - o))
      else if type =? qO then tget short_offsets code
      else if type =? qL then tget short_lengths code
      else let* _ := DASSERT cfg false in Ret 0
  else Ret 0.

Definition heap_info (m : mem) (addr type : Z) : outcome Z :=
  let* _ := DVALIDATE_HEAP_ACCESS m addr 1 in
  let aligned_shadow := ALIGNED_HEAP_SHADOW addr in
  if type =? qB then load64 m aligned_shadow
  else if type =? qL then
    let* base := load64 m aligned_shadow in
    let base_segment := HEAP_SHADOW l base in
    load64 m (base_segment + 8)
  else if type =? qO then
    let* base := load64 m aligned_shadow in
    Ret (u64 (addr - base))
  else let* _ := DASSERT cfg false in Ret 0.

Definition predicate (m : mem) (addr p : Z) : outcome Z :=
  try_segment addr (heap_info m addr p) (static_info m addr p) Abort.

Definition _block_length (m : mem) (addr : Z) : outcome Z := predicate m addr qL.
Definition _base_addr (m : mem) (addr : Z) : outcome Z := predicate m addr qB.

Definition freeable (m : mem) (addr : Z) : outcome Z :=
  if negb (IS_ON_HEAP l addr) then Ret 0
  else
    let shadow := ALIGNED_HEAP_SHADOW addr in
    let* base := load64 m shadow in
    if negb (base =? 0) then Ret (b2i (base =? addr)) else Ret 0.

(** The loop of [static_initialized]; [size] is a [long]. *)
Fixpoint static_initialized_loop (fuel : nat) (m : mem) (shadow size result : Z) : outcome Z :=
  if 0 <? size then
    match fuel with
    | O => NoFuel
    | S fuel =>
        let rem := if ULONG_BYTES <=? size then ULONG_BYTES else size in
        let* mask := tget static_init_masks rem in
        let size := size - ULONG_BYTES in
        let* result :=
          if i2b result then
            let* w := load64 m shadow in Ret (b2i (Z.land w mask =? mask))
          else Ret 0 in
        static_initialized_loop fuel m (shadow + 8) size result
    end
  else Ret result.

Definition static_initialized (m : mem) (addr size : Z) : outcome Z :=
  let* a := static_allocated m addr size addr in
  if negb (i2b a) then Ret 0
  else
    let* _ := DVALIDATE_STATIC_ACCESS m addr size in
    static_initialized_loop (Z.to_nat size) m (PRIMARY_SHADOW l addr) size 1.

Definition global_readonly (m : mem) (addr : Z) : outcome Z :=
  let* b := load8 m (PRIMARY_GLOBAL_SHADOW l addr) in Ret (checkbit READONLY_BIT b).

(** The bits of a byte that [setbits64_skip(set, mask, skip)] sets; a shift by a
    negative amount or by the width of the type is undefined. *)
Definition mask_skip (set number skip : Z) : outcome Z :=
  if (0 <=? set) && (set <? 64) then Ret (setbits64_skip 8 set number skip) else Fault.

Definition heap_initialized (m : mem) (addr len : Z) : outcome Z :=
  let shadow := HEAP_INIT_SHADOW l addr in
  let skip := u64 (addr - HEAP_START l) mod 8 in
  let* r :=
    if negb (skip =? 0) then
      let set := 8 - skip in
      let set := u32 (if set <? len then set else len) in
      let len := len - set in
      let* mask := mask_skip set 0 skip in
      let* b := load8 m shadow in
      Ret (if negb (b =? mask) then None else Some len)
    else Ret (Some len) in
  match r with
  | None => Ret 0
  | Some len => if 0 <? len then checkbits (u64 len) m shadow else Ret 1
  end.

Definition allocated (m : mem) (addr size base : Z) : outcome Z :=
  try_segment addr (heap_allocated m addr (u64 size) base) (static_allocated m addr size base)
    (Ret 0).

Definition readonly (m : mem) (addr : Z) : outcome Z :=
  if IS_ON_GLOBAL l addr then
    let* r := global_readonly m addr in Ret (if i2b r then 1 else 0)
  else Ret 0.

Definition writeable (m : mem) (addr size base_ptr : Z) : outcome Z :=
  let* a := allocated m addr size base_ptr in
  if i2b a then let* r := readonly m addr in Ret (b2i (negb (i2b r))) else Ret 0.

(** ** Temporal queries *)

Definition static_temporal_info (m : mem) (addr origin : Z) : outcome Z :=
  if i2b origin then
    let* a := static_allocated_one m addr in
    if i2b a && negb (IS_ON_GLOBAL l addr) then
      let* base := static_info m addr qB in
      load32 m (TEMPORAL_PRIMARY_STATIC_SHADOW l base)
    else if i2b a && IS_ON_GLOBAL l addr then Ret GLOBAL_TEMPORAL_TIMESTAMP
    else Ret INVALID_TEMPORAL_TIMESTAMP
  else load32 m (TEMPORAL_SECONDARY_STATIC_SHADOW l addr).

Definition heap_temporal_info (m : mem) (addr origin : Z) : outcome Z :=
  if i2b origin then
    let* base := load64 m (ALIGNED_HEAP_SHADOW addr) in
    let* t := load64 m (HEAP_SHADOW l base + 16) in
    Ret (u32 t)
  else load32 m (TEMPORAL_HEAP_SHADOW l addr).

Definition static_store_temporal_referent (m : mem) (addr ref : Z) : outcome mem :=
  let* _ := DVALIDATE_STATIC_ACCESS m addr PTR_SZ in
  store32 m (TEMPORAL_SECONDARY_STATIC_SHADOW l addr) ref.

Definition heap_store_temporal_referent (m : mem) (addr ref : Z) : outcome mem :=
  let* _ := DVALIDATE_HEAP_ACCESS m addr PTR_SZ in
  store32 m (TEMPORAL_HEAP_SHADOW l addr) ref.

Definition temporal_referent_shadow (m : mem) (addr : Z) : outcome Z :=
  try_segment addr (Ret (TEMPORAL_HEAP_SHADOW l addr))
    (Ret (TEMPORAL_SECONDARY_STATIC_SHADOW l addr)) Abort.

Definition origin_timestamp (m : mem) (ptr : Z) : outcome Z :=
  try_segment ptr (heap_temporal_info m ptr 1) (static_temporal_info m ptr 1)
    (Ret INVALID_TEMPORAL_TIMESTAMP).

Definition referent_timestamp (m : mem) (ptr : Z) : outcome Z :=
  try_segment ptr (heap_temporal_info m ptr 0) (static_temporal_info m ptr 0) Abort.

Definition store_temporal_referent (m : mem) (ptr ref : Z) : outcome mem :=
  try_segment ptr (heap_store_temporal_referent m ptr ref)
    (static_store_temporal_referent m ptr ref) Abort.

(** The temporal API of e_acsl_temporal.h on this model. *)
#[export] Instance segment_temporal : TemporalModel mem := {
  shadow := Z;
  tm_origin := origin_timestamp;
  tm_referent := referent_timestamp;
  tm_store := store_temporal_referent;
  tm_shadow := temporal_referent_shadow;
  tm_memcpy := memcpy;
  tm_memset := memset;
  tm_allocated := allocated;
  tm_writeable := writeable
}.

(** ** Static blocks *)

Definition DVALIDATE_IS_ON_STATIC (addr size : Z) : outcome unit :=
  let* _ := DASSERT cfg (IS_ON_STATIC l addr) in
  DASSERT cfg (IS_ON_STATIC l (u64 (addr + size))).
Definition DVALIDATE_IS_ON_HEAP (addr size : Z) : outcome unit :=
  let* _ := DASSERT cfg (IS_ON_HEAP l addr) in
  DASSERT cfg (IS_ON_HEAP l (u64 (addr + size))).

Definition DVALIDATE_STATIC_SUFFICIENTLY_ALIGNED (m : mem) (addr len : Z) : outcome unit :=
  if cfg_debug cfg then
    for_range 0 len (fun i _ =>
      let prev := u64 (addr - i) in
      let* a := static_allocated_one m prev in
      let* _ := if i2b a then let* base := _base_addr m prev in vassert (negb (base =? prev))
                else Ret tt in
      let next := u64 (addr + i) in
      let* a := static_allocated_one m next in
      vassert (negb (i2b a))) tt
  else Ret tt.

(** The first loop on a long block: [i] and the indices are [unsigned], and
    [i] goes up to [boundary] by steps of [LONG_BLOCK]. *)
Definition alloca_segments (m : mem) (prim sec size boundary : Z) : outcome mem :=
  for_range 0 (u32 boundary / LONG_BLOCK) (fun k m =>
    let i := k * LONG_BLOCK in
    let* m := store32 m (sec + 4 * (2 * k)) (u32 size) in
    let* m := store32 m (sec + 4 * (2 * k + 1)) i in
    store64 m (prim + 8 * k) LONG_BLOCK_MASK) m.

(** The second one; [i] is an [unsigned] compared to a [size_t]. *)
Fixpoint alloca_remainder (fuel : nat) (m : mem) (prim size i : Z) : outcome mem :=
  if i <? size then
    match fuel with
    | O => NoFuel
    | S fuel =>
        let offset := u8 (i mod LONG_BLOCK + LONG_BLOCK_INDEX_START + LONG_BLOCK) in
        let* m := store8 m (prim + i) (Z.shiftl offset 2) in
        alloca_remainder fuel m prim size (u32 (i + 1))
    end
  else Ret m.

(** Returns the memory and the new value of [temporal_timestamp]. *)
Definition shadow_alloca (m : mem) (ts ptr size : Z) : outcome (mem * Z) :=
  let* _ := DVALIDATE_IS_ON_STATIC ptr size in
  let* _ := if cfg_temporal cfg && negb (IS_ON_GLOBAL l ptr)
            then DVALIDATE_STATIC_SUFFICIENTLY_ALIGNED m ptr 4 else Ret tt in
  let prim_shadow := PRIMARY_SHADOW l ptr in
  let sec_shadow := SECONDARY_SHADOW l ptr in
  let* _ := DVALIDATE_NULLIFIED m prim_shadow size in
  let* _ := DVALIDATE_NULLIFIED m sec_shadow size in
  let* m :=
    if size =? 0 then
      let* b := load8 m prim_shadow in store8 m prim_shadow (setbit 8 READONLY_BIT b)
    else Ret m in
  let* m :=
    if IS_LONG_BLOCK size then
      let boundary := s32 (LONG_BLOCK_BOUNDARY size) in
      let* m := alloca_segments m prim_shadow sec_shadow size boundary in
      alloca_remainder 8 m prim_shadow size (u32 boundary)
    else
      for_range 0 size (fun i m =>
        let* base := tget short_offsets_base size in
        let code := u8 (base + i) in
        store8 m (prim_shadow + i) (Z.shiftl code 2)) m in
  if cfg_temporal cfg && negb (IS_ON_GLOBAL l ptr) then
    let ts := NEW_TEMPORAL_TIMESTAMP ts in
    let* m := store32 m (TEMPORAL_PRIMARY_STATIC_SHADOW l ptr) ts in
    Ret (m, ts)
  else Ret (m, ts).

Definition shadow_freea (m : mem) (ptr : Z) : outcome mem :=
  let* _ := DVALIDATE_STATIC_LOCATION m ptr in
  let* _ := dcheck (let* b := _base_addr m ptr in Ret (ptr =? b)) in
  let* size := _block_length m ptr in
  let* m := memset m (PRIMARY_SHADOW l ptr) 0 size in
  let* m := memset m (SECONDARY_SHADOW l ptr) 0 size in
  if cfg_temporal cfg then
    let* m := memset m (TEMPORAL_PRIMARY_STATIC_SHADOW l ptr) 0 size in
    memset m (TEMPORAL_SECONDARY_STATIC_SHADOW l ptr) 0 size
  else Ret m.

(** The loop of [initialize_static_region] and of [mark_readonly_region]. *)
Fixpoint or_masks (fuel : nat) (masks : list Z) (m : mem) (shadow size : Z) : outcome mem :=
  if 0 <? size then
    match fuel with
    | O => NoFuel
    | S fuel =>
        let rem := if ULONG_BYTES <=? size then ULONG_BYTES else size in
        let size := size - ULONG_BYTES in
        let* mask := tget masks rem in
        let* w := load64 m shadow in
        let* m := store64 m shadow (Z.lor w mask) in
        or_masks fuel masks m (shadow + 8) size
    end
  else Ret m.

(** [DVASSERT(!(addr - base + size > length))]. *)
Definition DVALIDATE_BOUNDS (m : mem) (addr size : Z) : outcome unit :=
  dcheck (let* base := _base_addr m addr in
          let* length := _block_length m addr in
          Ret (negb (length <? u64 (addr - base + size)))).

Definition initialize_static_region (m : mem) (addr size : Z) : outcome mem :=
  let* _ := DVALIDATE_STATIC_ACCESS m addr size in
  let* _ := DVALIDATE_BOUNDS m addr size in
  or_masks (Z.to_nat size) static_init_masks m (PRIMARY_SHADOW l addr) size.

Definition mark_readonly_region (m : mem) (addr size : Z) : outcome mem :=
  let* _ := DASSERT cfg (IS_ON_GLOBAL l addr) in
  let* _ := dcheck (let* b := static_allocated_one m addr in Ret (i2b b)) in
  let* _ := DVALIDATE_BOUNDS m addr size in
  or_masks (Z.to_nat size) static_readonly_masks m (PRIMARY_GLOBAL_SHADOW l addr) size.

(** ** Initialization of heap blocks *)

Definition initialize_heap_region (m : mem) (addr len : Z) : outcome mem :=
  let* _ := DVALIDATE_HEAP_ACCESS m addr len in
  let* _ := DVALIDATE_BOUNDS m addr len in
  let shadow := HEAP_INIT_SHADOW l addr in
  let skip := u64 (addr - HEAP_START l) mod 8 in
  let* (len, shadow, m) :=
    if negb (skip =? 0) then
      let set := 8 - skip in
      let set := s16 (if set <? len then set else len) in
      let len := len - set in
      let* b := load8 m shadow in
      let* b := mask_skip set b skip in
      let* m := store8 m shadow b in
      Ret (len, shadow + 1, m)
    else Ret (len, shadow, m) in
  if 0 <? len then setbits (u64 len) m shadow else Ret m.
End Tracking.
