(* ===== verification/SegModel.v ===== *)
(** * The public operations of the shadow memory model

    The replacements of the allocation functions (e_acsl_segment_tracking.h), the
    public API and the initialization of the model (e_acsl_segment_mmodel.c). *)

From S2P Require Import Prelude Alloc Temporal Bits Mask CString Shadow Segment.

Record state `{PublicAlloc} : Type := mk_state {
  st_mem : mem;                     (* memory of the process, shadows included *)
  st_layout : memory_layout;        (* mem_layout *)
  st_spaces : memory_spaces;        (* mem_spaces *)
  st_stats : heap_stats;            (* e_acsl_leak.h *)
  temporal_timestamp : Z;
  st_pub : pub;                     (* the application's allocator *)
  environ : Z;
  mspaces_ready : bool;             (* already_run of mspaces_init *)
  memory_ready : bool               (* already_run of memory_init *)
}.

Section Model.
Context `{PB : !PublicAlloc} (cfg : config).

Definition set_mem (st : state) (m : mem) : state :=
  mk_state _ m (st_layout st) (st_spaces st) (st_stats st) (temporal_timestamp st) (st_pub st)
    (environ st) (mspaces_ready st) (memory_ready st).
Definition set_timestamp (st : state) (ts : Z) : state :=
  mk_state _ (st_mem st) (st_layout st) (st_spaces st) (st_stats st) ts (st_pub st)
    (environ st) (mspaces_ready st) (memory_ready st).
Definition set_pub (st : state) (p : pub) : state :=
  mk_state _ (st_mem st) (st_layout st) (st_spaces st) (st_stats st) (temporal_timestamp st) p
    (environ st) (mspaces_ready st) (memory_ready st).
Definition set_stats (st : state) (s : heap_stats) : state :=
  mk_state _ (st_mem st) (st_layout st) (st_spaces st) s (temporal_timestamp st) (st_pub st)
    (environ st) (mspaces_ready st) (memory_ready st).
Definition set_layout (st : state) (l : memory_layout) : state :=
  mk_state _ (st_mem st) l (st_spaces st) (st_stats st) (temporal_timestamp st) (st_pub st)
    (environ st) (mspaces_ready st) (memory_ready st).
Definition set_environ (st : state) (p : Z) : state :=
  mk_state _ (st_mem st) (st_layout st) (st_spaces st) (st_stats st) (temporal_timestamp st)
    (st_pub st) p (mspaces_ready st) (memory_ready st).

(** A function on the memory, as an operation of the model. *)
Definition on_mem (f : memory_layout -> mem -> outcome mem) (st : state) : outcome state :=
  let* m := f (st_layout st) (st_mem st) in Ret (set_mem st m).

(** ** Heap blocks *)

Definition DVALIDATE_MEMORY_INIT (st : state) : outcome unit :=
  DASSERT cfg (ly_is_initialized (st_layout st)).

Definition set_heap_segment (st : state) (ptr size alloc_size init : Z) : outcome state :=
  let l := st_layout st in
  let* _ := vassert (heap_mspace_least (st_spaces st) =? mspace_least_addr (st_pub st)) in
  let max_addr := u64 (ptr + alloc_size) in
  let* _ := vassert (max_addr <? heap_end (st_spaces st)) in
  let* _ := DVALIDATE_MEMORY_INIT st in
  let* _ := DVALIDATE_IS_ON_HEAP cfg l (u64 (ptr - HEAP_SEGMENT)) size in
  let* _ := DVALIDATE_ALIGNMENT cfg ptr in
  let st := set_stats st (update_heap_allocation (st_stats st) (s64 size)) in
  let shadow := HEAP_SHADOW l ptr in
  let* _ := DVALIDATE_NULLIFIED cfg (st_mem st) shadow alloc_size in
  let segments := alloc_size / HEAP_SEGMENT in
  let* m := store64 (st_mem st) (shadow + 8) size in
  let st := set_mem st m in
  let* st :=
    if cfg_temporal cfg then
      let ts := NEW_TEMPORAL_TIMESTAMP (temporal_timestamp st) in
      let* m := store64 (st_mem st) (shadow + 16) ts in
      Ret (set_timestamp (set_mem st m) ts)
    else Ret st in
  let* m := for_range 0 segments (fun i m => store64 m (shadow + i * HEAP_SEGMENT) ptr)
              (st_mem st) in
  let* m := if i2b init then memset m (HEAP_INIT_SHADOW l ptr) (u32 ONE) (alloc_size / 8)
            else Ret m in
  Ret (set_mem st m).

(** What the linker, the kernel and the allocator determine. *)
Context (pg : program).

(** [mspaces_init], without [describe_run], which prints. *)
Definition mspaces_init (st : state) : outcome state :=
  if negb (mspaces_ready st) then
    let (ms, p) := make_memory_spaces (st_pub st) get_heap_size in
    let* l := init_shadow_layout_heap_global_tls pg ms (st_layout st) in
    Ret (mk_state _ (st_mem st) l ms (st_stats st) (temporal_timestamp st) p (environ st) true
           (memory_ready st))
  else Ret st.

Definition malloc (st : state) (size : Z) : outcome (Z * state) :=
  let alloc_size := ALLOC_SIZE size in
  let* (res, st) :=
    if negb (alloc_size =? 0) then
      let* st := mspaces_init st in
      let (res, p) := public_malloc (st_pub st) alloc_size in
      Ret (res, set_pub st p)
    else Ret (NULL, st) in
  if negb (res =? NULL) then
    let* st := set_heap_segment st res size alloc_size 0 in Ret (res, st)
  else Ret (res, st).

Definition calloc (st : state) (nmemb size : Z) : outcome (Z * state) :=
  let size := if negb (size =? 0) && (SIZE_MAX / size <? nmemb) then 0 else u64 (nmemb * size) in
  let alloc_size := ALLOC_SIZE size in
  let* (res, st) :=
    if negb (size =? 0) then
      let* st := mspaces_init st in
      let (res, p) := public_malloc (st_pub st) alloc_size in
      Ret (res, set_pub st p)
    else Ret (NULL, st) in
  if negb (res =? NULL) then
    let* m := memset (st_mem st) res 0 size in
    let* st := set_heap_segment (set_mem st m) res size alloc_size 1 in
    Ret (res, st)
  else Ret (res, st).

Definition shadow_copy (st : state) (ptr size init : Z) : outcome (Z * state) :=
  let* (ret, st) := if i2b init then calloc st 1 size else malloc st size in
  let* _ := vassert (negb (ret =? NULL)) in
  let st := set_stats st (update_heap_allocation (st_stats st) (s64 (u64 (- size)))) in
  let* m := memcpy (st_mem st) ret ptr size in
  Ret (ret, set_mem st m).

Definition DVALIDATE_FREEABLE (st : state) (addr : Z) : outcome unit :=
  let* _ := DASSERT cfg (IS_ON_HEAP (st_layout st) addr) in
  dcheck cfg (let* b := _base_addr cfg (st_layout st) (st_mem st) addr in Ret (addr =? b)).

Definition unset_heap_segment (st : state) (ptr init : Z) : outcome state :=
  let l := st_layout st in
  let* _ := DVALIDATE_MEMORY_INIT st in
  let* _ := DVALIDATE_FREEABLE st ptr in
  let base_shadow := HEAP_SHADOW l ptr in
  let* length := load64 (st_mem st) (base_shadow + 8) in
  let alloc_size := ALLOC_SIZE length in
  let* m := memset (st_mem st) base_shadow ZERO alloc_size in
  let s := st_stats st in
  let st := set_stats st (mk_stats (u64 (heap_allocation_size s - length))
                            (heap_allocated_blocks s)) in
  let* m := if cfg_temporal cfg then memset m (TEMPORAL_HEAP_SHADOW l ptr) ZERO alloc_size
            else Ret m in
  let* m := if i2b init then memset m (HEAP_INIT_SHADOW l ptr) 0 (alloc_size / 8) else Ret m in
  Ret (set_mem st m).

Definition free (st : state) (ptr : Z) : outcome state :=
  if ptr =? NULL then
    if cfg_free_valid_address cfg then Abort else Ret st
  else
    let* f := freeable (st_layout st) (st_mem st) ptr in
    if i2b f then
      let* st := unset_heap_segment st ptr 1 in
      Ret (set_pub st (public_free (st_pub st) ptr))
    else Abort.

(** The move of the init shadow in [realloc]. *)
Definition realloc_init (l : memory_layout) (m : mem) (ptr res size old_size : Z) : outcome mem :=
  let alloc_size := ALLOC_SIZE size in
  let old_alloc_size := ALLOC_SIZE old_size in
  let old_init_shadow := HEAP_INIT_SHADOW l ptr in
  let new_init_shadow := HEAP_INIT_SHADOW l res in
  let* m := if size <? old_size
            then clearbits_right (u64 (old_alloc_size - size)) m
                   (old_init_shadow + old_alloc_size / 8)
            else Ret m in
  if negb (res =? ptr) then
    let copy_size := if size <? old_size then alloc_size else old_alloc_size in
    let* m := memcpy m new_init_shadow old_init_shadow copy_size in
    memset m old_init_shadow 0 copy_size
  else Ret m.

Definition realloc (st : state) (ptr size : Z) : outcome (Z * state) :=
  if ptr =? NULL then malloc st size
  else if size =? 0 then let* st := free st ptr in Ret (NULL, st)
  else
    let* f := freeable (st_layout st) (st_mem st) ptr in
    if i2b f then
      let alloc_size := ALLOC_SIZE size in
      let (res, p) := public_realloc (st_pub st) ptr alloc_size in
      let st := set_pub st p in
      let* _ := DVALIDATE_ALIGNMENT cfg res in
      if negb (res =? NULL) then
        let* old_size := _block_length cfg (st_layout st) (st_mem st) ptr in
        let* st := unset_heap_segment st ptr 0 in
        let* st := set_heap_segment st res size alloc_size 0 in
        let* st := on_mem (fun l m => realloc_init l m ptr res size old_size) st in
        Ret (res, st)
      else Ret (res, st)
    else Abort.

Definition aligned_alloc (st : state) (alignment size : Z) : outcome (Z * state) :=
  let* p2 := powof2 alignment in
  if (size =? 0) || (alignment =? 0) || negb (i2b p2) || negb (size mod alignment =? 0)
  then Ret (NULL, st)
  else
    let (res, p) := public_aligned_alloc (st_pub st) alignment size in
    let st := set_pub st p in
    if negb (res =? NULL) then
      let* st := set_heap_segment st res size (ALLOC_SIZE size) 0 in Ret (res, st)
    else Ret (res, st).

Definition posix_memalign (st : state) (memptr alignment size : Z) : outcome (Z * state) :=
  let* p2 := powof2 alignment in
  if (size =? 0) || (alignment =? 0) || negb (i2b p2) || negb (alignment mod sizeof_ptr =? 0)
  then Ret (-1, st)
  else
    let* a := allocated cfg (st_layout st) (st_mem st) memptr sizeof_ptr memptr in
    let* _ := vassert (i2b a) in
    match public_posix_memalign (st_pub st) alignment size with
    | (res, p, pb) =>
        let st := set_pub st pb in
        if res =? 0 then
          (* the allocator has stored the address in [*memptr] *)
          let* m := store64 (st_mem st) memptr p in
          let* st := set_heap_segment (set_mem st m) p size (ALLOC_SIZE size) 0 in
          Ret (res, st)
        else Ret (res, st)
    end.

(** ** Public API *)

(** [shadow_alloca] on a state. *)
Definition alloca (st : state) (ptr size : Z) : outcome state :=
  let* (m, ts) := shadow_alloca cfg (st_layout st) (st_mem st) (temporal_timestamp st) ptr size in
  Ret (set_timestamp (set_mem st m) ts).

Definition store_block (st : state) (ptr size : Z) : outcome (Z * state) :=
  let* st := alloca st ptr size in Ret (ptr, st).

Definition delete_block (st : state) (ptr : Z) : outcome state :=
  on_mem (fun l m => shadow_freea cfg l m ptr) st.

Definition store_block_duplicate (st : state) (ptr size : Z) : outcome (Z * state) :=
  let* a := allocated cfg (st_layout st) (st_mem st) ptr (s64 size) ptr in
  let* st := if i2b a then delete_block st ptr else Ret st in
  let* st := alloca st ptr size in
  Ret (ptr, st).

Definition initialize (st : state) (ptr n : Z) : outcome state :=
  try_segment (st_layout st) ptr
    (on_mem (fun l m => initialize_heap_region cfg l m ptr (s64 n)) st)
    (on_mem (fun l m => initialize_static_region cfg l m ptr (s64 n)) st)
    Abort.

Definition full_init (st : state) (ptr : Z) : outcome state :=
  let* n := _block_length cfg (st_layout st) (st_mem st) ptr in initialize st ptr n.

Definition mark_readonly (st : state) (ptr : Z) : outcome state :=
  let* n := _block_length cfg (st_layout st) (st_mem st) ptr in
  on_mem (fun l m => mark_readonly_region cfg l m ptr (s64 n)) st.

(** [temporal_valid] of e_acsl_temporal.h on this model. *)
Definition valid_in_time (st : state) (ptr_base addrof_base : Z) : outcome Z :=
  temporal_valid (TM := segment_temporal cfg (st_layout st)) (st_mem st) ptr_base addrof_base.

Definition valid (st : state) (ptr size ptr_base addrof_base : Z) : outcome Z :=
  let* a := allocated cfg (st_layout st) (st_mem st) ptr (s64 size) ptr_base in
  if i2b a then
    let* r := readonly (st_layout st) (st_mem st) ptr in
    if negb (i2b r) then
      if cfg_temporal cfg then
        let* t := valid_in_time st ptr_base addrof_base in Ret (b2i (i2b t))
      else Ret 1
    else Ret 0
  else Ret 0.

Definition valid_read (st : state) (ptr size ptr_base addrof_base : Z) : outcome Z :=
  let* a := allocated cfg (st_layout st) (st_mem st) ptr (s64 size) ptr_base in
  if cfg_temporal cfg then
    if i2b a then let* t := valid_in_time st ptr_base addrof_base in Ret (b2i (i2b t))
    else Ret 0
  else Ret a.

Definition base_addr (st : state) (ptr : Z) : outcome Z :=
  try_segment (st_layout st) ptr (heap_info cfg (st_layout st) (st_mem st) ptr qB)
    (static_info cfg (st_layout st) (st_mem st) ptr qB) Abort.

Definition block_length (st : state) (ptr : Z) : outcome Z :=
  try_segment (st_layout st) ptr (heap_info cfg (st_layout st) (st_mem st) ptr qL)
    (static_info cfg (st_layout st) (st_mem st) ptr qL) Abort.

Definition offset (st : state) (ptr : Z) : outcome Z :=
  try_segment (st_layout st) ptr (heap_info cfg (st_layout st) (st_mem st) ptr qO)
    (static_info cfg (st_layout st) (st_mem st) ptr qO) Abort.

Definition initialized (st : state) (ptr size : Z) : outcome Z :=
  try_segment (st_layout st) ptr (heap_initialized (st_layout st) (st_mem st) ptr (s64 size))
    (static_initialized cfg (st_layout st) (st_mem st) ptr (s64 size)) (Ret 0).

(** ** Program arguments *)

(** [shadow_alloca(p, len); initialize_static_region(p, len)]. *)
Definition track_initialized (st : state) (p len : Z) : outcome state :=
  let* st := alloca st p len in
  on_mem (fun l m => initialize_static_region cfg l m p (s64 len)) st.

(** [while ( *v ) { track the string *v; v++; }]; returns the last value of [v].
    In temporal analysis the strings are copied to the heap. *)
Fixpoint track_strings (fuel : nat) (st : state) (v : Z) : outcome (Z * state) :=
  match fuel with
  | O => NoFuel
  | S fuel' =>
      let* s := load64 (st_mem st) v in
      if s =? NULL then Ret (v, st)
      else
        let* n := strlen_loop fuel (st_mem st) s 0 in
        let* st :=
          if cfg_temporal cfg then
            let* (c, st) := shadow_copy st s (n + 1) 1 in
            let* m := store64 (st_mem st) v c in
            Ret (set_mem st m)
          else track_initialized st s (n + 1) in
        track_strings fuel' st (v + sizeof_ptr)
  end.

(** [temporal_store_nblock] on a state. *)
Definition store_nblock (st : state) (lhs rhs : Z) : outcome state :=
  let* m := temporal_store_nblock (TM := segment_temporal cfg (st_layout st)) (st_mem st) lhs rhs in
  Ret (set_mem st m).

Definition argv_alloca (fuel : nat) (st : state) (argc_ref argv_ref : Z) : outcome state :=
  let* st := alloca st argc_ref 4 in
  let* st := alloca st argv_ref 8 in
  let* argc := load32 (st_mem st) argc_ref in
  let argc := s32 argc in
  let* argv := load64 (st_mem st) argv_ref in
  let argvlen := u64 (s32 (argc + 1) * sizeof_ptr) in
  let* st := track_initialized st argv argvlen in
  let* (_, st) := track_strings fuel st argv in
  let* st :=
    if cfg_temporal cfg then
      let* argv := load64 (st_mem st) argv_ref in
      let* st := store_nblock st argv_ref argv in
      for_range 0 argc (fun i st =>
        let* s := load64 (st_mem st) (argv + sizeof_ptr * i) in
        store_nblock st (argv + sizeof_ptr * i) s) st
    else Ret st in
  let* (e, st) := track_strings fuel st (environ st) in
  Ret (set_environ st e).

(** ** Program initialization *)

(** Addresses of [main], of [errno] and of the standard streams; size of a
    stream.  A location that [add_safe_location] records keeps the initial
    [is_initialized] of the static array, 0. *)
Record locations : Type := mk_locations {
  lc_main : Z;
  lc_errno : Z;
  lc_stdout : Z;
  lc_stderr : Z;
  lc_stdin : Z;
  lc_FILE : Z
}.

(** Address, length and [is_initialized]. *)
Definition collect_safe_locations (lc : locations) : list (Z * Z * Z) :=
  [(lc_errno lc, 4, 0); (lc_stdout lc, lc_FILE lc, 0);
   (lc_stderr lc, lc_FILE lc, 0); (lc_stdin lc, lc_FILE lc, 0)].

Fixpoint track_safe_locations (st : state) (locs : list (Z * Z * Z)) : outcome state :=
  match locs with
  | [] => Ret st
  | (addr, len, init) :: locs =>
      let* st := alloca st addr len in
      let* st := if i2b init then initialize st addr len else Ret st in
      track_safe_locations st locs
  end.

(** [memory_init], without the report file of debug mode. *)
Definition memory_init (fuel : nat) (lc : locations) (st : state) (argc_ref argv_ref ptr_size : Z)
  : outcome state :=
  if negb (memory_ready st) then
    let* st := mspaces_init st in
    let* _ := vassert (ptr_size =? sizeof_ptr) in
    let* sz := get_stack_size pg in
    let* _ := increase_stack_limit pg (u64 (sz * 2)) in
    let* l := init_shadow_layout_stack fuel (st_mem st) pg (st_layout st) in
    let st := set_layout st l in
    let* _ := if cfg_debug cfg then validate_shadow_layout cfg l else Ret tt in
    let* st := if negb (argc_ref =? NULL) && negb (argv_ref =? NULL)
               then argv_alloca fuel st argc_ref argv_ref else Ret st in
    let* st := track_initialized st (lc_main lc) sizeof_ptr in
    let* st := track_safe_locations st (collect_safe_locations lc) in
    Ret (mk_state _ (st_mem st) (st_layout st) (st_spaces st) (st_stats st) (temporal_timestamp st)
           (st_pub st) (environ st) (mspaces_ready st) true)
  else Ret st.
End Model.
