(* ===== verification/SegStatic.v ===== *)
(** * Static blocks of the shadow memory model

    The offset-based encoding represents the abstract memory of AMem.v: every
    operation on blocks of the stack, of the globals and of thread-local storage
    preserves the representation, and the queries read it back. *)

From S2P Require Import Prelude AMem Alloc Temporal Bits Mask CString Shadow Segment.

(** ** Static segments of a layout *)

Inductive sseg : Type := SStack | SGlobal | STls.
#[export] Instance sseg_eq_dec : EqDecision sseg.
Proof. solve_decision. Defined.

Definition part (l : memory_layout) (s : sseg) : memory_partition :=
  match s with SStack => ly_stack l | SGlobal => ly_global l | STls => ly_tls l end.
Definition part_index (s : sseg) : nat :=
  match s with SStack => 1 | SGlobal => 2 | STls => 3 end%nat.

(** A layout whose segments are apart, and whose static shadows have ratio 1. *)
Record layout_ok (l : memory_layout) : Prop := mk_layout_ok {
  lk_valid : validate_shadow_layout default_config l = Ret tt;
  lk_shadows : forall r s, shadows (application (part l s)) (segment_of r (part l s))
}.

(** The address [a] is in the application segment [s]. *)
Definition on (l : memory_layout) (s : sseg) (a : Z) : Prop :=
  sg_start (application (part l s)) <= a <= sg_end (application (part l s)).

(** Its shadow address in the region [r]. *)
Definition sh (l : memory_layout) (r : region) (s : sseg) (a : Z) : Z :=
  sg_start (segment_of r (part l s)) + (a - sg_start (application (part l s))).

Lemma on_IS_ON l s a : on l s a <-> IS_ON a (application (part l s)) = true.
Proof. unfold on, IS_ON. by rewrite andb_true_iff, !Z.leb_le. Qed.

Lemma part_lookup l s : mem_partitions l !! part_index s = Some (part l s).
Proof. by destruct s. Qed.

Section Layout.
Context (l : memory_layout) (Hl : layout_ok l).

Lemma on_unique s s' a : on l s a -> on l s' a -> s = s'.
Proof using Hl.
  rewrite !on_IS_ON. intros H H'.
  pose proof (applications_apart _ l _ _ _ _ a (lk_valid l Hl) (part_lookup l s) (part_lookup l s') H H').
  by destruct s, s'.
Qed.

Lemma on_bool s s' a : on l s a -> IS_ON a (application (part l s')) = bool_decide (s = s').
Proof using Hl.
  intros H. destruct (IS_ON a (application (part l s'))) eqn:E; symmetry.
  - apply bool_decide_eq_true. apply (on_unique s s' a H). by apply on_IS_ON.
  - apply bool_decide_eq_false. intros <-. apply on_IS_ON in H. congruence.
Qed.

Lemma on_static s a : on l s a -> IS_ON_STATIC l a = true.
Proof using Hl.
  intros H. unfold IS_ON_STATIC, IS_ON_STACK, IS_ON_GLOBAL, IS_ON_TLS.
  pose proof (on_bool s SStack a H) as H1. pose proof (on_bool s SGlobal a H) as H2.
  pose proof (on_bool s STls a H) as H3. simpl in *. rewrite H1, H2, H3. by destruct s.
Qed.

Lemma on_global s a : on l s a -> IS_ON_GLOBAL l a = bool_decide (s = SGlobal).
Proof using Hl. intros H. exact (on_bool s SGlobal a H). Qed.

Lemma on_not_heap s a : on l s a -> IS_ON_HEAP l a = false.
Proof using Hl.
  intros H%on_IS_ON. destruct (IS_ON_HEAP l a) eqn:E; [|done].
  pose proof (applications_apart _ l 0 _ _ _ a (lk_valid l Hl) eq_refl (part_lookup l s) E H).
  by destruct s.
Qed.

Lemma region_address r s a : on l s a -> SHADOW_REGION_ADDRESS l (segment_of r) a = sh l r s a.
Proof using Hl.
  intros H. pose proof (proj1 (on_IS_ON l s a) H) as Hon.
  destruct (shadow_access_linear _ _ _ (lk_shadows l Hl r s) Hon) as [E _].
  unfold sh. rewrite <- E. unfold SHADOW_REGION_ADDRESS, IS_ON_STACK, IS_ON_GLOBAL, IS_ON_TLS.
  pose proof (on_bool s SStack a H) as H1. pose proof (on_bool s SGlobal a H) as H2.
  pose proof (on_bool s STls a H) as H3. simpl in *. rewrite H1, H2, H3. by destruct s.
Qed.

Lemma primary_address s a : on l s a -> PRIMARY_SHADOW l a = sh l Primary s a.
Proof using Hl. apply (region_address Primary). Qed.
Lemma secondary_address s a : on l s a -> SECONDARY_SHADOW l a = sh l Secondary s a.
Proof using Hl. apply (region_address Secondary). Qed.

Lemma global_address a : on l SGlobal a -> PRIMARY_GLOBAL_SHADOW l a = sh l Primary SGlobal a.
Proof using Hl.
  intros H%on_IS_ON. by destruct (shadow_access_linear _ _ _ (lk_shadows l Hl Primary SGlobal) H).
Qed.

(** Shadow addresses do not collide. *)
Lemma sh_inj r s a r' s' a' : on l s a -> on l s' a' -> sh l r s a = sh l r' s' a' ->
  r = r' /\ s = s' /\ a = a'.
Proof using Hl.
  rewrite !on_IS_ON. intros H H' E.
  destruct (shadow_access_linear _ _ _ (lk_shadows l Hl r s) H) as [E1 _].
  destruct (shadow_access_linear _ _ _ (lk_shadows l Hl r' s') H') as [E2 _].
  destruct (shadow_access_inj _ l _ _ _ _ _ _ _ _ (lk_valid l Hl) (part_lookup l s)
    (part_lookup l s') (lk_shadows l Hl r s) (lk_shadows l Hl r' s') H H') as (Ei & -> & ->).
  { rewrite E1, E2. exact E. }
  split_and!; [done| |done]. by destruct s, s'.
Qed.

Lemma on_range s a : on l s a -> 0 <= a < 2 ^ 64.
Proof using Hl.
  destruct (lk_shadows l Hl Primary s) as (start & _ & H). unfold on. lia.
Qed.

Lemma sh_plus r s a i : sh l r s (a + i) = sh l r s a + i.
Proof. unfold sh. lia. Qed.

(** The block of [n] bytes at [a] is in the segment [s]. *)
Definition home (s : sseg) (a n : Z) : Prop :=
  0 < n /\ sg_start (application (part l s)) <= a /\ a + n <= sg_end (application (part l s)).

Lemma home_on s a n i : home s a n -> 0 <= i <= n -> on l s (a + i).
Proof. unfold home, on. lia. Qed.

Lemma home_on0 s a n : home s a n -> on l s a.
Proof. unfold home, on. lia. Qed.

(** A shadow of a block is apart from the shadows of the addresses outside it. *)
Lemma sh_outside r s a n r' s' b : home s a n -> on l s' b ->
  ~ (r = r' /\ a <= b < a + n) -> ~ (sh l r s a <= sh l r' s' b < sh l r s a + n).
Proof using Hl.
  intros Hh Hb Hne Hin.
  destruct (sh_inj r s (a + (sh l r' s' b - sh l r s a)) r' s' b) as (-> & -> & E).
  - apply (home_on s a n _ Hh). lia.
  - done.
  - rewrite sh_plus. lia.
  - apply Hne. split; [done|lia].
Qed.
End Layout.

(** ** Codes of the primary shadow *)

(** The 6-bit code of the byte at offset [i] of a block of [n] bytes. *)
Definition code (n i : Z) : Z :=
  if n <=? 8 then n * (n - 1) / 2 + 1 + i
  else 48 + (if i <? n - n mod 8 then i mod 8 else 8 + i mod 8).

(** The primary shadow byte: code, read-only bit and initialization bit. *)
Definition prim_byte (n i : Z) (ro init : bool) : Z := 4 * code n i + 2 * b2i ro + b2i init.

(** Case analysis on a small number. *)
Ltac small_cases n :=
  let rec go k :=
    (assert (n = k) as -> by lia) ||
    (destruct (Z.eq_dec n k) as [->|?]; [|let k' := eval vm_compute in (k + 1) in go k']) in
  go 0.

Lemma short_code n i : 0 < n <= 8 -> 0 <= i < n ->
  tget short_offsets (code n i) = Ret i /\ tget short_lengths (code n i) = Ret n /\
  0 < code n i < 37.
Proof.
  intros Hn Hi. small_cases n; try lia; small_cases i; try lia; vm_compute; auto.
Qed.

Lemma short_base n : 0 < n <= 8 -> tget short_offsets_base n = Ret (n * (n - 1) / 2 + 1).
Proof. intros Hn. small_cases n; try lia; reflexivity. Qed.

Lemma long_code n i : 8 < n -> 0 <= i < n -> 48 <= code n i < 64 /\
  i - (code n i - 48) = 8 * (if i <? n - n mod 8 then i / 8 else n / 8 - 1).
Proof.
  intros Hn Hi. unfold code. destruct (Z.leb_spec n 8); [lia|].
  destruct (Z.ltb_spec i (n - n mod 8)); dlia.
Qed.

Lemma code_range n i : 0 < n -> 0 <= i < n -> 0 < code n i < 64.
Proof.
  intros Hn Hi. destruct (Z.leb_spec n 8).
  - destruct (short_code n i) as (_ & _ & ?); lia.
  - destruct (long_code n i); lia.
Qed.

Lemma prim_byte_range n i ro init : 0 < n -> 0 <= i < n -> in_u 8 (prim_byte n i ro init) /\
  prim_byte n i ro init <> 0 /\ Z.shiftr (prim_byte n i ro init) 2 = code n i.
Proof.
  intros Hn Hi. pose proof (code_range n i Hn Hi). unfold prim_byte, in_u.
  rewrite Z.shiftr_div_pow2 by lia. change (2 ^ 8) with 256. change (2 ^ 2) with 4.
  destruct ro, init; cbn [b2i]; dlia.
Qed.

(** The bits of a primary shadow byte. *)
Lemma prim_byte_bits n i ro init : 0 < n -> 0 <= i < n ->
  Z.lor (prim_byte n i ro init) 1 = prim_byte n i ro true /\
  Z.lor (prim_byte n i ro init) 2 = prim_byte n i true init /\
  Z.land (prim_byte n i ro init) 1 = b2i init /\
  checkbit READONLY_BIT (prim_byte n i ro init) = b2i ro.
Proof.
  intros Hn Hi. pose proof (code_range n i Hn Hi) as Hc. unfold prim_byte.
  set (check := fun c => forallb (fun ro => forallb (fun init =>
    (Z.lor (4 * c + 2 * b2i ro + b2i init) 1 =? 4 * c + 2 * b2i ro + 1) &&
    (Z.lor (4 * c + 2 * b2i ro + b2i init) 2 =? 4 * c + 2 * 1 + b2i init) &&
    (Z.land (4 * c + 2 * b2i ro + b2i init) 1 =? b2i init) &&
    (checkbit READONLY_BIT (4 * c + 2 * b2i ro + b2i init) =? b2i ro))
    [true; false]) [true; false]).
  assert (check (code n i) = true) as H.
  { assert (forallb check (seqZ 0 64) = true) as Ha by reflexivity.
    rewrite forallb_forall in Ha. apply Ha, list_elem_of_In, elem_of_seqZ. lia. }
  revert H. generalize (code n i). intros c. unfold check. clear. simpl.
  rewrite !andb_true_iff, !Z.eqb_eq. destruct ro, init; simpl; tauto.
Qed.

(** ** Loops over the primary shadow *)

(** [masks] sets the bits [v] of the first bytes of a word. *)
Definition mask_table (masks : list Z) (v : Z) : Prop :=
  forall r, 0 <= r <= 8 -> exists mk, tget masks r = Ret mk /\ in_u 64 mk /\
    forall j, 0 <= j < 8 -> byte_of mk j = if j <? r then v else 0.

Lemma mask_table_check masks v :
  forallb (fun r => match tget masks r with
    | Ret mk => (0 <=? mk) && (mk <? 2 ^ 64) &&
                forallb (fun j => byte_of mk j =? if j <? r then v else 0) (seqZ 0 8)
    | _ => false
    end) (seqZ 0 9) = true -> mask_table masks v.
Proof.
  rewrite forallb_forall. intros H r Hr. specialize (H r).
  destruct (tget masks r) as [mk| | |];
    try (discriminate H; apply list_elem_of_In, elem_of_seqZ; lia).
  exists mk. split; [done|].
  rewrite !andb_true_iff, forallb_forall, Z.leb_le, Z.ltb_lt in H.
  destruct H as [Hu Hj]; [apply list_elem_of_In, elem_of_seqZ; lia|]. split; [done|].
  intros j Hj'. apply Z.eqb_eq, Hj, list_elem_of_In, elem_of_seqZ. lia.
Qed.

Lemma init_masks_ok : mask_table static_init_masks 1.
Proof. apply mask_table_check. reflexivity. Qed.
Lemma readonly_masks_ok : mask_table static_readonly_masks 2.
Proof. apply mask_table_check. reflexivity. Qed.

(** The bytes of [[p, p + n)] changed by [f], the others kept. *)
Definition maps_bytes (f : Z -> Z) (m m' : mem) (p n : Z) : Prop :=
  forall x, m' !! x = if decide (p <= x < p + n) then f <$> m !! x else m !! x.

Lemma or_word m p mk v r : mem_ok m -> accessible m p 8 -> 0 <= r <= 8 -> in_u 8 v ->
  in_u 64 mk -> (forall j, 0 <= j < 8 -> byte_of mk j = if j <? r then v else 0) ->
  exists m', (let* w := load64 m p in store64 m p (Z.lor w mk)) = Ret m' /\ mem_ok m' /\
    dom m' = dom m /\ maps_bytes (fun b => Z.lor b v) m m' p r.
Proof.
  intros Hm Ha Hr Hv Hmk Hb. destruct (load_le_ret 8 m p Hm Ha) as (w & E & Hw & Hwb).
  unfold load64, store64. rewrite E. cbn [obind].
  destruct (store_le_bytes 8 m p (Z.lor w mk) Ha) as (m' & -> & Hd & Hx). exists m'.
  assert (mem_ok m') as Hm'.
  { eapply mem_ok_pointwise; [exact Hm|]. intros x b. rewrite Hx. case_decide; [|auto].
    intros [= <-]. left. apply byte_of_range. }
  split_and!; [done..|]. intros x. rewrite Hx. change (Z.of_nat 8) with 8 in *.
  destruct (decide (p <= x < p + 8)) as [Hin|Hin]; [|by rewrite decide_False by lia].
  specialize (Hwb (x - p) ltac:(lia)). replace (p + (x - p)) with x in Hwb by lia.
  rewrite byte_of_lor, Hb, Hwb by lia.
  destruct (Z.ltb_spec (x - p) r).
  - by rewrite decide_True by lia.
  - by rewrite decide_False, Z.lor_0_r by lia.
Qed.

Lemma or_masks_spec fuel masks v m p n : mask_table masks v -> in_u 8 v -> mem_ok m ->
  n <= 8 * Z.of_nat fuel -> accessible m p (n + 7) ->
  exists m', or_masks fuel masks m p n = Ret m' /\ mem_ok m' /\ dom m' = dom m /\
    maps_bytes (fun b => Z.lor b v) m m' p n.
Proof.
  intros Ht Hv. revert m p n. induction fuel as [|fuel IH]; intros m p n Hm Hf Ha;
    cbn [or_masks]; destruct (Z.ltb_spec 0 n).
  1: lia. 1,3: exists m; split_and!; [done..|]; intros x; by rewrite decide_False by lia.
  set (r := if ULONG_BYTES <=? n then ULONG_BYTES else n). unfold ULONG_BYTES in *.
  assert (0 <= r <= 8 /\ r <= n /\ (n <= 8 -> r = n) /\ (8 <= n -> r = 8)) as Hr
    by (unfold r; destruct (Z.leb_spec 8 n); lia).
  destruct (Ht r) as (mk & -> & Hmk & Hb); [lia|]. cbn [obind].
  destruct (or_word m p mk v r) as (m1 & E & Hm1 & Hd1 & Hx1); try done; [|lia|].
  { eapply accessible_sub; [exact Ha|lia..]. }
  rewrite obind_assoc, E. cbn [obind].
  destruct (IH m1 (p + 8) (n - 8)) as (m2 & -> & Hm2 & Hd2 & Hx2); [done|lia| |].
  { eapply accessible_dom; [exact Hd1|]. eapply accessible_sub; [exact Ha|lia..]. }
  exists m2. split_and!; [done..|congruence|]. intros x. rewrite Hx2, Hx1.
  repeat case_decide; done || lia.
Qed.

(** The checks of [static_initialized]. *)
Definition bytes_init (m : mem) (p n : Z) : Prop :=
  forall x b, p <= x < p + n -> m !! x = Some b -> Z.land b 1 = 1.

Lemma check_word m p mk r : mem_ok m -> accessible m p 8 -> 0 <= r <= 8 -> in_u 64 mk ->
  (forall j, 0 <= j < 8 -> byte_of mk j = if j <? r then 1 else 0) ->
  exists w, load64 m p = Ret w /\ ((Z.land w mk =? mk) = true <-> bytes_init m p r).
Proof.
  intros Hm Ha Hr Hmk Hb. destruct (load_le_ret 8 m p Hm Ha) as (w & E & Hw & Hwb).
  exists w. split; [exact E|]. rewrite Z.eqb_eq. change (Z.of_nat 8) with 8 in *. split.
  - intros Ew x b Hx Eb. specialize (Hwb (x - p) ltac:(lia)).
    replace (p + (x - p)) with x in Hwb by lia. rewrite Hwb in Eb. injection Eb as <-.
    pose proof (byte_of_and w mk (x - p) ltac:(lia)) as Hx1. rewrite Ew, Hb in Hx1 by lia.
    destruct (Z.ltb_spec (x - p) r); [done|lia].
  - intros Hi. apply (bytes_ext 8); [|done|].
    { apply in_u_testbit; [lia|apply Z.land_nonneg; left; apply Hw|]. intros i Hi64.
      rewrite Z.land_spec, (testbit_in_u 64 mk) by done. apply andb_false_r. }
    intros j Hj. rewrite byte_of_and, Hb by lia. destruct (Z.ltb_spec j r); [|apply Z.land_0_r].
    apply (Hi (p + j)); [lia|]. apply Hwb. lia.
Qed.

Lemma static_initialized_loop_spec fuel m p n res : mem_ok m -> n <= 8 * Z.of_nat fuel ->
  accessible m p (n + 7) -> res = 0 \/ res = 1 ->
  exists r, static_initialized_loop fuel m p n res = Ret r /\ (r = 0 \/ r = 1) /\
    (r = 1 <-> res = 1 /\ bytes_init m p n).
Proof.
  intros Hm. revert p n res. induction fuel as [|fuel IH]; intros p n res Hf Ha Hres;
    cbn [static_initialized_loop]; destruct (Z.ltb_spec 0 n).
  1: lia. 1,3: exists res; split_and!; [done..|]; unfold bytes_init; naive_solver lia.
  set (r := if ULONG_BYTES <=? n then ULONG_BYTES else n). unfold ULONG_BYTES in *.
  assert (0 <= r <= 8 /\ r <= n /\ (n <= 8 -> r = n) /\ (8 <= n -> r = 8)) as Hr
    by (unfold r; destruct (Z.leb_spec 8 n); lia).
  destruct (init_masks_ok r) as (mk & -> & Hmk & Hb); [lia|]. cbn [obind].
  destruct (check_word m p mk r) as (w & E & Hw); try done; [|lia|].
  { eapply accessible_sub; [exact Ha|lia..]. }
  set (res' := if i2b res then b2i (Z.land w mk =? mk) else 0).
  assert ((if i2b res then let* w := load64 m p in Ret (b2i (Z.land w mk =? mk)) else Ret 0) = Ret res')
    as -> by (unfold res'; destruct (i2b res); [by rewrite E|done]). cbn [obind].
  assert ((res' = 0 \/ res' = 1) /\ (res' = 1 <-> res = 1 /\ bytes_init m p r)) as [H01 Hiff].
  { unfold res'. destruct Hres as [-> | ->]; cbn [i2b Z.eqb negb]; [naive_solver|].
    destruct (Z.land w mk =? mk); cbn [b2i]; naive_solver. }
  destruct (IH (p + 8) (n - 8) res') as (r' & -> & H01' & Hiff'); [lia| |done|].
  { eapply accessible_sub; [exact Ha|lia..]. }
  exists r'. split_and!; [done..|]. rewrite Hiff', Hiff. unfold bytes_init. split.
  - intros [[? H1] H2]. split; [done|]. intros x b Hx. destruct (Z.ltb_spec x (p + r)); [apply H1|apply H2]; lia.
  - intros [? H1]. split_and!; [done| |]; intros x b Hx; apply H1; lia.
Qed.

(** ** Recording of a block *)

Lemma u32_s32 z : in_u 32 z -> u32 (s32 z) = z.
Proof.
  unfold in_u, u32, s32. intros Hz. rewrite <- (Z.mod_small z (2 ^ 32)) at 2 by lia.
  rewrite Zminus_mod_idemp_l. f_equal. lia.
Qed.

(** The byte [j] of the secondary shadow of a long block of [n] bytes. *)
Definition sec_byte (n j : Z) : Z :=
  if j mod 8 <? 4 then byte_of n (j mod 8) else byte_of (8 * (j / 8)) (j mod 8 - 4).

Lemma long_mask_byte j : 0 <= j < 8 -> byte_of LONG_BLOCK_MASK j = 4 * (48 + j).
Proof. intros Hj. small_cases j; try lia; reflexivity. Qed.

(** The memory after [k] segments of a long block have been set up. *)
Definition segments_set (m m' : mem) (prim sec size k : Z) : Prop :=
  dom m' = dom m /\ forall x, m' !! x =
    if decide (prim <= x < prim + 8 * k) then Some (4 * (48 + (x - prim) mod 8))
    else if decide (sec <= x < sec + 8 * k) then Some (sec_byte size (x - sec))
    else m !! x.

Lemma segments_set_step m m1 prim sec size k B : 0 <= k -> 8 * k + 8 <= B -> in_u 32 size ->
  accessible m prim B -> accessible m sec B -> prim + B <= sec \/ sec + B <= prim ->
  segments_set m m1 prim sec size k ->
  exists m2, (let* m := store32 m1 (sec + 4 * (2 * k)) (u32 size) in
              let* m := store32 m (sec + 4 * (2 * k + 1)) (k * LONG_BLOCK) in
              store64 m (prim + 8 * k) LONG_BLOCK_MASK) = Ret m2 /\
    segments_set m m2 prim sec size (k + 1).
Proof.
  intros Hk HB Hs Hp Hc Hd [Hdom Hx]. unfold store32, store64, LONG_BLOCK.
  rewrite u32_small by done.
  assert (forall m', dom m' = dom m -> accessible m' prim B /\ accessible m' sec B) as Hacc
    by (intros m' E; split; by apply (accessible_dom m)).
  destruct (Hacc m1 Hdom) as [_ Hc1].
  destruct (store_le_bytes 4 m1 (sec + 4 * (2 * k)) size) as (a & -> & Da & Xa);
    [eapply accessible_sub; [exact Hc1|lia..]|]. cbn [obind].
  destruct (Hacc a) as [_ Hca]; [congruence|].
  destruct (store_le_bytes 4 a (sec + 4 * (2 * k + 1)) (k * 8)) as (b & -> & Db & Xb);
    [eapply accessible_sub; [exact Hca|lia..]|]. cbn [obind].
  destruct (Hacc b) as [Hpb _]; [congruence|].
  destruct (store_le_bytes 8 b (prim + 8 * k) LONG_BLOCK_MASK) as (c & -> & Dc & Xc);
    [eapply accessible_sub; [exact Hpb|lia..]|].
  exists c. split; [done|]. split; [congruence|]. intros x. rewrite Xc, Xb, Xa, Hx.
  unfold sec_byte. repeat case_decide; try lia; try done.
  - rewrite long_mask_byte by lia. f_equal. dlia.
  - destruct (Z.ltb_spec ((x - sec) mod 8) 4); [dlia|]. do 2 f_equal; dlia.
  - destruct (Z.ltb_spec ((x - sec) mod 8) 4); [|dlia]. do 2 f_equal; dlia.
Qed.

Lemma alloca_segments_spec m prim sec size boundary : in_u 32 size -> in_u 32 (u32 boundary) ->
  u32 boundary mod 8 = 0 -> accessible m prim (u32 boundary) -> accessible m sec (u32 boundary) ->
  prim + u32 boundary <= sec \/ sec + u32 boundary <= prim ->
  exists m', alloca_segments m prim sec size boundary = Ret m' /\
    segments_set m m' prim sec size (u32 boundary / 8).
Proof.
  intros Hs Hb H8 Hp Hc Hd. unfold alloca_segments, LONG_BLOCK.
  apply (for_range_inv _ (fun k m' => segments_set m m' prim sec size k)).
  - apply Z.div_pos; [apply Hb|lia].
  - split; [done|]. intros x. by rewrite !decide_False by lia.
  - intros k m1 Hk Hm1. apply (segments_set_step m m1 prim sec size k (u32 boundary)); try done; dlia.
Qed.

(** The bytes [lo .. hi - 1] past [p] are given by [f]; the others are kept. *)
Definition writes (m m' : mem) (p lo hi : Z) (f : Z -> Z) : Prop :=
  dom m' = dom m /\
  forall x, m' !! x = if decide (p + lo <= x < p + hi) then Some (f (x - p)) else m !! x.

Lemma alloca_remainder_spec fuel m prim size i : 0 <= i -> size < 2 ^ 32 ->
  size - i <= Z.of_nat fuel -> accessible m prim size ->
  exists m', alloca_remainder fuel m prim size i = Ret m' /\
    writes m m' prim i size (fun j => 4 * (56 + j mod 8)).
Proof.
  revert m i. induction fuel as [|fuel IH]; intros m i Hi Hs Hf Ha; cbn [alloca_remainder];
    destruct (Z.ltb_spec i size).
  1: lia. 1,3: exists m; split; [done|]; split; [done|]; intros x; by rewrite decide_False by lia.
  unfold LONG_BLOCK, LONG_BLOCK_INDEX_START. rewrite store8_spec by (apply Ha; lia). cbn [obind].
  rewrite u32_small by (unfold in_u; lia).
  assert (u8 (Z.shiftl (u8 (i mod 8 + 48 + 8)) 2) = 4 * (56 + i mod 8)) as ->.
  { pose proof (Z.mod_pos_bound i 8 ltac:(lia)).
    rewrite (u8_small (i mod 8 + 48 + 8)) by (unfold in_u; lia).
    rewrite Z.shiftl_mul_pow2 by lia. change (2 ^ 2) with 4.
    rewrite u8_small by (unfold in_u; lia). lia. }
  destruct (IH (<[prim + i := 4 * (56 + i mod 8)]> m) (i + 1)) as (m' & -> & Hd & Hx);
    [lia|lia|lia|by apply accessible_insert|].
  exists m'. split; [done|]. split; [rewrite Hd; apply dom_insert_lookup_L, Ha; lia|].
  intros x. rewrite Hx. destruct (decide (prim + i = x)) as [<-|Hne].
  - rewrite decide_False, lookup_insert_eq, decide_True by lia. do 3 f_equal. f_equal. lia.
  - rewrite lookup_insert_ne by done. do 2 case_decide; done || lia.
Qed.

Lemma alloca_short_spec m prim size : 0 < size <= 8 -> accessible m prim size ->
  exists m', for_range 0 size (fun i m =>
      let* base := tget short_offsets_base size in
      let code := u8 (base + i) in
      store8 m (prim + i) (Z.shiftl code 2)) m = Ret m' /\
    writes m m' prim 0 size (fun j => 4 * code size j).
Proof.
  intros Hs Ha. apply (for_range_inv _ (fun i m' => writes m m' prim 0 i (fun j => 4 * code size j)));
    [lia|..].
  { split; [done|]. intros x. by rewrite decide_False by lia. }
  intros i m1 Hi [Hd Hx]. rewrite short_base by lia. cbn [obind].
  assert (is_Some (m1 !! (prim + i))) as Hsome
    by (apply (accessible_dom m m1 prim size Hd Ha); lia).
  rewrite store8_spec by done. eexists. split; [done|].
  split; [rewrite <- Hd; by apply dom_insert_lookup_L|]. intros x.
  destruct (short_code size i Hs Hi) as (_ & _ & Hc).
  destruct (decide (prim + i = x)) as [<-|Hne].
  - rewrite lookup_insert_eq, decide_True by lia. f_equal.
    replace (prim + i - prim) with i by lia.
    assert (code size i = size * (size - 1) / 2 + 1 + i) as Ec
      by (unfold code; destruct (Z.leb_spec size 8); lia).
    rewrite <- Ec, (u8_small (code size i)) by (unfold in_u; lia).
    rewrite Z.shiftl_mul_pow2 by lia. change (2 ^ 2) with 4. rewrite u8_small; [lia|unfold in_u; lia].
  - rewrite lookup_insert_ne, Hx by done. do 2 case_decide; done || lia.
Qed.

(** The shadows at [p] and [q] encode a block of [n] bytes. *)
Definition encoded (m : mem) (p q n : Z) (init : gset Z) (ro : bool) : Prop :=
  (forall i, 0 <= i < n -> m !! (p + i) = Some (prim_byte n i ro (bool_decide (i ∈ init)))) /\
  (8 < n -> forall k, 0 <= k < n / 8 ->
     load32 m (q + 8 * k) = Ret n /\ load32 m (q + 8 * k + 4) = Ret (8 * k)).

Lemma encoded_frame m m' p q n init ro :
  (forall x, p <= x < p + n \/ q <= x < q + n -> m' !! x = m !! x) ->
  encoded m p q n init ro -> encoded m' p q n init ro.
Proof.
  intros Hf [H1 H2]. split.
  - intros i Hi. rewrite Hf by lia. by apply H1.
  - intros Hn k Hk. destruct (H2 Hn k Hk) as [E1 E2]. rewrite <- E1, <- E2.
    split; apply load_le_frame; intros x Hx; apply Hf; dlia.
Qed.

(** The same memory outside two ranges. *)
Definition same_outside (m m' : mem) (p q n : Z) : Prop :=
  forall x, ~ (p <= x < p + n) -> ~ (q <= x < q + n) -> m' !! x = m !! x.

Lemma segments_set_load m m' prim sec n : in_u 32 n ->
  segments_set m m' prim sec n (n / 8) -> prim + n <= sec \/ sec + n <= prim ->
  forall k, 0 <= k < n / 8 ->
    load32 m' (sec + 8 * k) = Ret n /\ load32 m' (sec + 8 * k + 4) = Ret (8 * k).
Proof.
  intros Hn [_ Hx] Hd k Hk. unfold load32, in_u in *. split.
  - rewrite (load_le_bytes 4 m' _ n); [f_equal; apply Z.mod_small; lia|].
    intros j Hj. rewrite Hx. rewrite decide_False, decide_True by dlia. unfold sec_byte.
    replace ((sec + 8 * k + j - sec) mod 8) with j by dlia.
    destruct (Z.ltb_spec j 4); [done|lia].
  - rewrite (load_le_bytes 4 m' _ (8 * k)); [f_equal; apply Z.mod_small; dlia|].
    intros j Hj. rewrite Hx. rewrite decide_False, decide_True by dlia. unfold sec_byte.
    replace ((sec + 8 * k + 4 + j - sec) mod 8) with (4 + j) by dlia.
    destruct (Z.ltb_spec (4 + j) 4); [lia|]. do 2 f_equal; dlia.
Qed.

(** What [shadow_alloca] writes for a block of at least one byte. *)
Definition alloca_body (m : mem) (prim sec size : Z) : outcome mem :=
  if IS_LONG_BLOCK size then
    let boundary := s32 (LONG_BLOCK_BOUNDARY size) in
    let* m := alloca_segments m prim sec size boundary in
    alloca_remainder 8 m prim size (u32 boundary)
  else
    for_range 0 size (fun i m =>
      let* base := tget short_offsets_base size in
      let code := u8 (base + i) in
      store8 m (prim + i) (Z.shiftl code 2)) m.

Lemma alloca_long m prim sec size : 8 < size < 2 ^ 32 -> mem_ok m ->
  accessible m prim size -> accessible m sec size -> prim + size <= sec \/ sec + size <= prim ->
  exists m', alloca_body m prim sec size = Ret m' /\ dom m' = dom m /\ mem_ok m' /\
    encoded m' prim sec size ∅ false /\ same_outside m m' prim sec size.
Proof.
  intros Hs Hm Hp Hq Hd. unfold alloca_body, IS_LONG_BLOCK, LONG_BLOCK_BOUNDARY, LONG_BLOCK.
  destruct (Z.ltb_spec 8 size); [|lia]. set (B := size - size mod 8).
  assert (u32 (s32 B) = B) as EB by (apply u32_s32; unfold B, in_u; dlia). cbv zeta.
  assert (0 <= B <= size /\ B / 8 = size / 8 /\ B mod 8 = 0 /\ size - B < 8 /\ B = 8 * (size / 8)) as HB
    by (unfold B; dlia).
  destruct (alloca_segments_spec m prim sec size (s32 B)) as (m1 & -> & H1);
    rewrite ?EB; try (unfold in_u; lia); try (apply (accessible_sub m prim size); [done|lia..]);
    try (apply (accessible_sub m sec size); [done|lia..]).
  rewrite EB in H1. cbn [obind]. pose proof H1 as [D1 X1]. rewrite (proj1 (proj2 HB)) in H1.
  destruct (alloca_remainder_spec 8 m1 prim size B) as (m2 & -> & D2 & X2);
    [lia..|by apply (accessible_dom m)|].
  exists m2. split; [done|]. split; [congruence|]. split_and!.
  - eapply mem_ok_pointwise; [exact Hm|]. intros x b. rewrite X2, X1.
    repeat case_decide; [intros [= <-]; left; unfold in_u; dlia..| |auto].
    intros [= <-]. left. unfold sec_byte. case_match; apply byte_of_range.
  - split.
    + intros i Hi. rewrite X2, X1. unfold prim_byte, code. rewrite bool_decide_false by set_solver.
      cbn [b2i]. destruct (Z.leb_spec size 8); [lia|]. fold B.
      destruct (Z.ltb_spec i B); repeat case_decide; try lia; f_equal;
        replace (prim + i - prim) with i by lia; lia.
    + intros _ k Hk.
      destruct (segments_set_load m m1 prim sec size ltac:(unfold in_u; lia) H1 Hd k Hk) as [E1 E2].
      rewrite <- E1, <- E2. split; apply load_le_frame; intros x Hx; rewrite X2;
        by rewrite decide_False by dlia.
  - intros x Hx1 Hx2. rewrite X2, X1. rewrite !decide_False by lia. done.
Qed.

Lemma alloca_body_spec m prim sec size : 0 < size < 2 ^ 32 -> mem_ok m ->
  accessible m prim size -> accessible m sec size -> prim + size <= sec \/ sec + size <= prim ->
  exists m', alloca_body m prim sec size = Ret m' /\ dom m' = dom m /\ mem_ok m' /\
    encoded m' prim sec size ∅ false /\ same_outside m m' prim sec size.
Proof.
  intros Hs Hm Hp Hq Hd. destruct (Z.ltb_spec 8 size); [apply alloca_long; done || lia|].
  unfold alloca_body, IS_LONG_BLOCK, LONG_BLOCK. destruct (Z.ltb_spec 8 size); [lia|].
  destruct (alloca_short_spec m prim size) as (m' & E & D & X); [lia|done|].
  exists m'. split; [exact E|]. split; [done|]. split_and!.
  - eapply mem_ok_pointwise; [exact Hm|]. intros x b. rewrite X. case_decide; [|auto].
    intros [= <-]. left. destruct (short_code size (x - prim)) as (_ & _ & ?); [lia..|].
    unfold in_u. lia.
  - split; [|lia]. intros i Hi. rewrite X, decide_True by lia. f_equal. unfold prim_byte.
    rewrite bool_decide_false by set_solver. cbn [b2i]. replace (prim + i - prim) with i by lia. lia.
  - intros x Hx1 Hx2. rewrite X. by rewrite decide_False by lia.
Qed.

(** ** Decoding *)

(** The secondary shadow that a byte of a long block refers to. *)
Lemma static_long l m s a n init ro i : layout_ok l -> 8 < n -> home l s a n -> 0 <= i < n ->
  encoded m (sh l Primary s a) (sh l Secondary s a) n init ro ->
  let sec := SECONDARY_SHADOW l (u64 (a + i - (code n i - 48))) in
  load32 m sec = Ret n /\ load32 m (sec + 4) = Ret (i - (code n i - 48)) /\
  0 <= i - (code n i - 48) /\ 48 <= code n i.
Proof.
  intros Hl Hn Hh Hi [_ He]. destruct (long_code n i Hn Hi) as [Hc Ek].
  set (k := if i <? n - n mod 8 then i / 8 else n / 8 - 1) in Ek.
  assert (0 <= k < n / 8 /\ 8 * k <= i) as Hk
    by (unfold k; destruct (Z.ltb_spec i (n - n mod 8)); dlia).
  replace (a + i - (code n i - 48)) with (a + 8 * k) by lia.
  assert (on l s (a + 8 * k)) as Hon by (apply (home_on l s a n); [done|lia]).
  pose proof (on_range l Hl s _ Hon). cbv zeta. rewrite u64_small by done.
  rewrite (secondary_address l Hl s) by done. rewrite sh_plus, Ek.
  destruct (He ltac:(lia) k ltac:(lia)) as [E1 E2]. split_and!; [done|done|lia|lia].
Qed.

Lemma static_code_spec l m s a n init ro i : layout_ok l -> 0 <= n < 2 ^ 32 ->
  home l s a n -> 0 <= i < n -> encoded m (sh l Primary s a) (sh l Secondary s a) n init ro ->
  static_code l m (a + i) (code n i) = Ret (n, i).
Proof.
  intros Hl Hn Hh Hi He. unfold static_code, LONG_BLOCK_INDEX_START.
  destruct (Z.leb_spec n 8).
  - destruct (short_code n i) as (E1 & E2 & ?); [unfold home in Hh; lia|done|].
    destruct (Z.leb_spec 48 (code n i)); [lia|]. rewrite E1, E2. done.
  - destruct (static_long l m s a n init ro i) as (E1 & E2 & ? & Hc); try done.
    destruct (Z.leb_spec 48 (code n i)); [|lia]. cbv zeta. rewrite E1, E2. cbn [obind].
    rewrite u64_small by (unfold in_u; lia). do 2 f_equal. lia.
Qed.

(** ** Representation of the abstract memory *)

(** The shadows of the static segments are accessible, with the padding that
    word-wise accesses need. *)
Definition mapped (l : memory_layout) (m : mem) : Prop :=
  forall r s, accessible m (sg_start (segment_of r (part l s)))
                (sg_size (application (part l s)) + 8).

(** The block [ab] at [a] is encoded in the shadows. *)
Definition sblock (l : memory_layout) (m : mem) (a : Z) (ab : ablock) : Prop :=
  exists s, home l s a (ab_size ab) /\ ab_size ab < 2 ^ 32 /\ ab_freeable ab = false /\
    (ab_readonly ab = true -> s = SGlobal) /\
    encoded m (sh l Primary s a) (sh l Secondary s a) (ab_size ab) (ab_init ab) (ab_readonly ab).

Record smodels (l : memory_layout) (m : mem) (M : amem) : Prop := mk_smodels {
  sm_ok : mem_ok m;
  sm_mapped : mapped l m;
  sm_block : forall a ab, M !! a = Some ab -> sblock l m a ab;
  sm_disj : forall a ab a' ab', M !! a = Some ab -> M !! a' = Some ab' ->
    a < a' -> a + ab_size ab <= a';
  sm_free : forall r s x, on l s x -> (forall a ab, ~ contains M x a ab) ->
    m !! sh l r s x = Some 0
}.

Section Frame.
Context (l : memory_layout) (Hl : layout_ok l).

Lemma mapped_accessible m r s a n : mapped l m -> home l s a n -> accessible m (sh l r s a) (n + 7).
Proof using Hl.
  intros Hm (Hn & H1 & H2). eapply accessible_sub; [exact (Hm r s)|unfold sh; lia|].
  destruct (lk_shadows l Hl r s) as (start & _ & _ & _ & _ & He & _). unfold sh. lia.
Qed.

(** The memories agree outside the shadows of the block of [n] bytes at [a]. *)
Definition agree_outside (m m' : mem) (s : sseg) (a n : Z) : Prop :=
  same_outside m m' (sh l Primary s a) (sh l Secondary s a) n.

(** The memory has changed in the shadows of a static block only. *)
Definition static_touch (m m' : mem) : Prop :=
  dom m' = dom m /\ exists s a n, home l s a n /\ agree_outside m m' s a n.

Lemma agree_shadow m m' s a n r s' x : agree_outside m m' s a n -> home l s a n -> on l s' x ->
  ~ (a <= x < a + n) -> m' !! sh l r s' x = m !! sh l r s' x.
Proof using Hl.
  intros Ho Hh Hx Hne. apply Ho; apply (sh_outside l Hl); [done|done|tauto|done|done|tauto].
Qed.

Lemma agree_sblock m m' s a n a' ab : agree_outside m m' s a n -> home l s a n ->
  a + n <= a' \/ a' + ab_size ab <= a -> sblock l m a' ab -> sblock l m' a' ab.
Proof using Hl.
  intros Ho Hh Hd (s' & Hh' & Hs & Hf & Hr & He). exists s'. split_and!; [done..|].
  eapply encoded_frame; [|exact He]. intros x [Hx|Hx].
  - replace x with (sh l Primary s' (a' + (x - sh l Primary s' a'))) by (rewrite sh_plus; lia).
    apply (agree_shadow m m' s a n); [done|done|apply (home_on l s' a' (ab_size ab)); [done|lia]|lia].
  - replace x with (sh l Secondary s' (a' + (x - sh l Secondary s' a'))) by (rewrite sh_plus; lia).
    apply (agree_shadow m m' s a n); [done|done|apply (home_on l s' a' (ab_size ab)); [done|lia]|lia].
Qed.

Lemma shadows_apart s a n : home l s a n ->
  sh l Primary s a + n <= sh l Secondary s a \/ sh l Secondary s a + n <= sh l Primary s a.
Proof using Hl.
  intros Hh. destruct (Z.ltb_spec (sh l Secondary s a) (sh l Primary s a + n)) as [H1|]; [|lia].
  destruct (Z.ltb_spec (sh l Primary s a) (sh l Secondary s a + n)) as [H2|]; [|lia]. exfalso.
  destruct (Z.leb_spec (sh l Primary s a) (sh l Secondary s a)).
  - by apply (sh_outside l Hl Primary s a n Secondary s a Hh (home_on0 l s a n Hh)); [intros [? _]|lia].
  - by apply (sh_outside l Hl Secondary s a n Primary s a Hh (home_on0 l s a n Hh)); [intros [? _]|lia].
Qed.

(** The abstract memory changes at [a] only, and the memory in the shadows of
    the block there only. *)
Lemma smodels_insert m m' M s a ab : smodels l m M -> home l s a (ab_size ab) ->
  mem_ok m' -> dom m' = dom m -> agree_outside m m' s a (ab_size ab) -> sblock l m' a ab ->
  (forall a' ab', M !! a' = Some ab' -> a' <> a -> a + ab_size ab <= a' \/ a' + ab_size ab' <= a) ->
  (forall ab', M !! a = Some ab' -> ab_size ab' = ab_size ab) ->
  smodels l m' (<[a := ab]> M).
Proof using Hl.
  intros HM Hh Hm' Hd Ho Hb Hdis Hsz. constructor.
  - done.
  - intros r s'. eapply accessible_dom; [exact Hd|]. apply (sm_mapped _ _ _ HM).
  - intros a' ab'. rewrite lookup_insert_Some. intros [[<- <-]|[Hne E]]; [done|].
    eapply agree_sblock; [exact Ho|done|by apply Hdis|by apply (sm_block _ _ _ HM)].
  - intros a1 ab1 a2 ab2. rewrite !lookup_insert_Some.
    intros [[<- <-]|[Hne1 E1]] [[<- <-]|[Hne2 E2]] Hlt; [lia| | |by eapply (sm_disj _ _ _ HM)].
    + destruct (Hdis a2 ab2 E2) as [|]; [done|lia|].
      destruct (sm_block _ _ _ HM _ _ E2) as (s2 & (? & _) & _). lia.
    + destruct (Hdis a1 ab1 E1) as [|]; [done| |lia]. destruct Hh. lia.
  - intros r s' x Hx Hno.
    assert (~ (a <= x < a + ab_size ab)) as Hout.
    { intros Hin. apply (Hno a ab). split; [apply lookup_insert_eq|by left]. }
    rewrite (agree_shadow m m' s a (ab_size ab)) by done. apply (sm_free _ _ _ HM); [done|].
    intros a' ab' [E Hc]. destruct (decide (a' = a)) as [->|Hne].
    + rewrite (Hsz ab' E) in Hc. unfold covers in Hc. destruct Hh. lia.
    + apply (Hno a' ab'). split; [by rewrite lookup_insert_ne|done].
Qed.

Lemma smodels_delete m m' M s a ab : smodels l m M -> M !! a = Some ab -> home l s a (ab_size ab) ->
  mem_ok m' -> dom m' = dom m -> agree_outside m m' s a (ab_size ab) ->
  (forall r i, 0 <= i < ab_size ab -> m' !! (sh l r s a + i) = Some 0) ->
  smodels l m' (delete a M).
Proof using Hl.
  intros HM E Hh Hm' Hd Ho Hz. constructor.
  - done.
  - intros r s'. eapply accessible_dom; [exact Hd|]. apply (sm_mapped _ _ _ HM).
  - intros a' ab'. rewrite lookup_delete_Some. intros [Hne E'].
    eapply agree_sblock; [exact Ho|done| |by apply (sm_block _ _ _ HM)].
    destruct (Z.lt_ge_cases a a'); [left|right].
    + by apply (sm_disj _ _ _ HM a ab a' ab').
    + apply (sm_disj _ _ _ HM a' ab' a ab); [done..|lia].
  - intros a1 ab1 a2 ab2. rewrite !lookup_delete_Some. intros [_ E1] [_ E2].
    by apply (sm_disj _ _ _ HM a1 ab1 a2 ab2).
  - intros r s' x Hx Hno. destruct (decide (a <= x < a + ab_size ab)) as [Hin|Hout].
    + assert (s' = s) as ->.
      { apply (on_unique l Hl s' s x); [done|]. replace x with (a + (x - a)) by lia.
        apply (home_on l s a (ab_size ab)); [done|lia]. }
      replace x with (a + (x - a)) by lia. rewrite sh_plus. apply Hz. lia.
    + rewrite (agree_shadow m m' s a (ab_size ab)) by done. apply (sm_free _ _ _ HM); [done|].
      intros a' ab' [E' Hc]. destruct (decide (a' = a)) as [->|Hne].
      * assert (ab' = ab) as -> by congruence. unfold covers in Hc. destruct Hh. lia.
      * apply (Hno a' ab'). split; [by rewrite lookup_delete_ne|done].
Qed.
End Frame.

(** ** Queries *)

Section Queries.
Context (cfg : config) (l : memory_layout) (Hl : layout_ok l) (m : mem) (M : amem).
Context (HM : smodels l m M).

(** What the primary shadow says of an address. *)
Inductive sfind_result (s : sseg) (x : Z) : Prop :=
| sfind_none : (forall a ab, ~ contains M x a ab) -> load8 m (PRIMARY_SHADOW l x) = Ret 0 ->
    sfind_result s x
| sfind_some a ab : contains M x a ab -> home l s a (ab_size ab) -> 0 <= x - a < ab_size ab ->
    load8 m (PRIMARY_SHADOW l x) =
      Ret (prim_byte (ab_size ab) (x - a) (ab_readonly ab) (bool_decide (x - a ∈ ab_init ab))) ->
    encoded m (sh l Primary s a) (sh l Secondary s a) (ab_size ab) (ab_init ab) (ab_readonly ab) ->
    sfind_result s x.

Lemma sblock_covers a ab x : M !! a = Some ab -> covers a (ab_size ab) x -> 0 <= x - a < ab_size ab.
Proof using HM.
  intros E Hc. destruct (sm_block _ _ _ HM _ _ E) as (s & (? & _) & _). unfold covers in Hc. lia.
Qed.

Lemma sfind s x : on l s x -> sfind_result s x.
Proof using HM Hl.
  intros Hon. destruct (contains_dec M x) as [(a & ab & Hin)|Hno].
  - destruct Hin as [E Hc]. pose proof (sblock_covers a ab x E Hc) as Hi.
    destruct (sm_block _ _ _ HM _ _ E) as (s' & Hh & Hs & _ & _ & He).
    assert (s' = s) as ->.
    { apply (on_unique l Hl s' s x); [|done]. replace x with (a + (x - a)) by lia.
      apply (home_on l s' a (ab_size ab)); [done|lia]. }
    apply (sfind_some s x a ab); [done|done|done| |done].
    rewrite (primary_address l Hl s x Hon). apply load8_ok.
    replace x with (a + (x - a)) at 1 by lia. rewrite sh_plus. by apply (proj1 He).
  - apply sfind_none; [done|]. rewrite (primary_address l Hl s x Hon). apply load8_ok.
    by apply (sm_free _ _ _ HM).
Qed.

Lemma static_contains_unique x a ab a' ab' : contains M x a ab -> contains M x a' ab' -> a = a' /\ ab = ab'.
Proof using HM.
  intros [E Hc] [E' Hc']. pose proof (sblock_covers _ _ _ E Hc).
  pose proof (sblock_covers _ _ _ E' Hc').
  assert (a = a') as ->.
  { destruct (Z.lt_trichotomy a a') as [Hlt|[|Hlt]]; [|done|].
    - pose proof (sm_disj _ _ _ HM _ _ _ _ E E' Hlt). lia.
    - pose proof (sm_disj _ _ _ HM _ _ _ _ E' E Hlt). lia. }
  split; [done|congruence].
Qed.

Lemma prim_byte_nonzero n i ro init : 0 <= i < n ->
  (prim_byte n i ro init =? 0) = false /\ i2b (prim_byte n i ro init) = true.
Proof.
  intros Hi. destruct (prim_byte_range n i ro init ltac:(lia) Hi) as (_ & Hz & _).
  unfold i2b. by rewrite (proj2 (Z.eqb_neq _ _) Hz).
Qed.

Lemma home_bounds s a n : home l s a n -> 0 <= a /\ a + n < 2 ^ 64.
Proof using Hl.
  intros (Hn & H1 & H2). destruct (lk_shadows l Hl Primary s) as (start & _ & ?). lia.
Qed.

(** [static_allocated] is exact. *)
Lemma static_allocated_exact s x size base : on l s x -> 0 <= size < 2 ^ 63 ->
  exists r, static_allocated cfg l m x size base = Ret r /\ (r = 0 \/ r = 1) /\
    (r = 1 <-> exists a ab, allocated_in cfg M x size base a ab).
Proof using HM Hl.
  intros Hon Hs. unfold static_allocated.
  destruct (sfind s x Hon) as [Hno E|a ab Hin Hh Hi E He]; rewrite E; cbn [obind].
  { exists 0. split_and!; [done|auto|]. split; [done|]. intros (a & ab & Hc & _). by apply Hno in Hc. }
  destruct (prim_byte_nonzero (ab_size ab) (x - a) (ab_readonly ab)
    (bool_decide (x - a ∈ ab_init ab))) as [-> _]; [lia..|]. cbn [negb].
  rewrite (proj2 (proj2 (prim_byte_range (ab_size ab) (x - a) (ab_readonly ab)
    (bool_decide (x - a ∈ ab_init ab)) ltac:(lia) Hi))).
  pose proof (home_bounds s a _ Hh). destruct (sm_block _ _ _ HM _ _ (proj1 Hin)) as (_ & _ & Hsz & _).
  replace (static_code l m x) with (static_code l m (a + (x - a)))
    by (replace (a + (x - a)) with x by lia; done).
  rewrite (static_code_spec l m s a (ab_size ab) _ _ (x - a) Hl ltac:(lia) Hh Hi He). cbn [obind].
  rewrite (u64_small (x - a + size)) by (unfold in_u; lia).
  replace (x - (x - a)) with a by lia. rewrite (u64_small a) by (unfold in_u; lia).
  assert (forall P : Prop, (P <-> (cfg_weak_validity cfg = false -> contains M base a ab)) ->
    ((exists a ab, allocated_in cfg M x size base a ab) <-> P /\ x - a + size <= ab_size ab)) as Hex.
  { intros P HP. split.
    - intros (a' & ab' & Hc & Hb & Hle). destruct (static_contains_unique x a ab a' ab' Hin Hc) as [<- <-].
      split; [by apply HP|lia].
    - intros [Hb Hle]. exists a, ab. split_and!; [done|by apply HP|lia]. }
  assert (forall b : bool, exists r, Ret (b2i b) = Ret r /\ (r = 0 \/ r = 1) /\ (r = 1 <-> b = true))
    as Hret by (intros []; eexists; split_and!; eauto; done).
  destruct (cfg_weak_validity cfg) eqn:Ew; cbn [negb andb];
    [|destruct (Z.eqb_spec x base) as [<-|Hne]; cbn [negb]].
  - destruct (Hret (x - a + size <=? ab_size ab)) as (r & Er & H01 & Hr). exists r.
    split_and!; [done..|]. rewrite Hr, (Hex True), Z.leb_le by (split; done). tauto.
  - destruct (Hret (x - a + size <=? ab_size ab)) as (r & Er & H01 & Hr). exists r.
    split_and!; [done..|]. rewrite Hr, (Hex True), Z.leb_le by (split; done). tauto.
  - destruct (Hret (BELONGS base a (ab_size ab) && (x - a + size <=? ab_size ab))) as (r & Er & H01 & Hr).
    exists r. split_and!; [done..|]. rewrite Hr, (Hex (a <= base < a + ab_size ab)).
    + unfold BELONGS. rewrite u64_small by (unfold in_u; lia).
      rewrite !andb_true_iff, !Z.leb_le, Z.ltb_lt. tauto.
    + split; [intros Hb _; split; [apply Hin|by left]|]. intros Hb.
      destruct (Hb eq_refl) as [_ Hc]. pose proof (sblock_covers a ab base (proj1 Hin) Hc). lia.
Qed.

(** The check of debug mode on a location of a block. *)
Lemma static_location_passes s x a ab : on l s x -> contains M x a ab ->
  DVALIDATE_STATIC_LOCATION cfg l m x = Ret tt.
Proof using HM Hl.
  intros Hon Hin. unfold DVALIDATE_STATIC_LOCATION, DASSERT, dcheck, static_allocated_one.
  destruct (cfg_debug cfg); [|done]. rewrite (on_static l Hl s x Hon). cbn [vassert obind].
  destruct (sfind s x Hon) as [Hno E|a' ab' Hin' Hh Hi E He]; [by apply Hno in Hin|].
  rewrite E. cbn [obind]. by rewrite (proj2 (prim_byte_nonzero _ _ _ _ Hi)).
Qed.

(** The answers of [static_info] in a block. *)
Lemma static_info_exact s x a ab : on l s x -> contains M x a ab ->
  static_info cfg l m x qB = Ret a /\ static_info cfg l m x qO = Ret (x - a) /\
  static_info cfg l m x qL = Ret (ab_size ab).
Proof using HM Hl.
  intros Hon Hin. unfold static_info. rewrite (static_location_passes s x a ab) by done.
  destruct (sfind s x Hon) as [Hno E|a' ab' Hin' Hh Hi E He]; [by apply Hno in Hin|].
  destruct (static_contains_unique x a ab a' ab' Hin Hin') as [<- <-]. cbn [obind]. rewrite E.
  destruct (sm_block _ _ _ HM _ _ (proj1 Hin)) as (_ & _ & Hsz & _).
  pose proof (home_bounds s a _ Hh) as Hb. cbn [obind].
  rewrite (proj1 (prim_byte_nonzero _ _ _ _ Hi)). cbn [negb].
  rewrite (proj2 (proj2 (prim_byte_range (ab_size ab) (x - a) (ab_readonly ab)
    (bool_decide (x - a ∈ ab_init ab)) ltac:(lia) Hi))). unfold LONG_BLOCK_INDEX_START.
  cbn [qB qO qL Z.eqb Pos.eqb]. destruct (Z.leb_spec (ab_size ab) 8).
  - destruct (short_code (ab_size ab) (x - a)) as (E1 & E2 & ?); [lia|done|].
    destruct (Z.leb_spec 48 (code (ab_size ab) (x - a))); [lia|]. rewrite E1, E2. cbn [obind].
    replace (x - (x - a)) with a by lia. by rewrite u64_small by (unfold in_u; lia).
  - destruct (static_long l m s a (ab_size ab) _ _ (x - a) Hl ltac:(lia) Hh Hi He) as (E1 & E2 & ? & ?).
    replace (a + (x - a)) with x in E1, E2 by lia.
    destruct (Z.leb_spec 48 (code (ab_size ab) (x - a))); [|lia]. cbv zeta. rewrite E1, E2.
    cbn [obind]. rewrite u64_small, u32_small by (unfold in_u; lia). split_and!; f_equal; lia.
Qed.

Lemma predicate_static s x t : on l s x -> predicate cfg l m x t = static_info cfg l m x t.
Proof using Hl.
  intros Hon. unfold predicate, try_segment.
  by rewrite (on_not_heap l Hl s x Hon), (on_static l Hl s x Hon).
Qed.

(** [static_initialized] is exact. *)
Lemma static_initialized_exact s x size : on l s x -> 0 < size < 2 ^ 63 ->
  exists r, static_initialized cfg l m x size = Ret r /\ (r = 0 \/ r = 1) /\
    (r = 1 <-> exists a ab, contains M x a ab /\ x + size <= a + ab_size ab /\
       forall i, x - a <= i < x - a + size -> i ∈ ab_init ab).
Proof using HM Hl.
  intros Hon Hs. unfold static_initialized.
  destruct (static_allocated_exact s x size x Hon ltac:(lia)) as (r & E & H01 & Hiff).
  rewrite E. cbn [obind]. destruct H01 as [-> | ->]; cbn [i2b Z.eqb negb].
  { exists 0. split_and!; [done|auto|]. split; [done|]. intros (a & ab & Hin & Hle & _).
    apply Hiff. exists a, ab. by split_and!. }
  destruct (proj1 Hiff eq_refl) as (a & ab & Hin & _ & Hle).
  assert (DVALIDATE_STATIC_ACCESS cfg l m x size = Ret tt) as ->.
  { unfold DVALIDATE_STATIC_ACCESS, DASSERT, dcheck. rewrite E. destruct (cfg_debug cfg); [|done].
    by rewrite (on_static l Hl s x Hon). }
  cbn [obind]. destruct (sfind s x Hon) as [Hno _|a' ab' Hin' Hh Hi _ He]; [by apply Hno in Hin|].
  destruct (static_contains_unique x a ab a' ab' Hin Hin') as [<- <-].
  rewrite (primary_address l Hl s x Hon).
  assert (sh l Primary s x = sh l Primary s a + (x - a)) as Ex by (rewrite <- sh_plus; f_equal; lia).
  destruct (static_initialized_loop_spec (Z.to_nat size) m (sh l Primary s x) size 1)
    as (r & -> & H01 & Hr).
  { apply (sm_ok _ _ _ HM). } { lia. }
  { eapply accessible_sub; [exact (mapped_accessible l Hl m Primary s a _ (sm_mapped _ _ _ HM) Hh)|lia..]. }
  { auto. }
  exists r. split_and!; [done..|]. rewrite Hr. split.
  - intros [_ Hb]. exists a, ab. split_and!; [done..|]. intros i Hii.
    specialize (Hb (sh l Primary s a + i) _ ltac:(lia) (proj1 He i ltac:(lia))).
    destruct (prim_byte_bits (ab_size ab) i (ab_readonly ab) (bool_decide (i ∈ ab_init ab)))
      as (_ & _ & Hbit & _); [lia..|]. rewrite Hbit in Hb.
    destruct (bool_decide_reflect (i ∈ ab_init ab)); [done|discriminate].
  - intros (a' & ab' & Hin2 & _ & Hinit). destruct (static_contains_unique x a ab a' ab' Hin Hin2) as [<- <-].
    split; [done|]. intros y b Hy Eb. replace y with (sh l Primary s a + (y - sh l Primary s a)) in Eb by lia.
    rewrite (proj1 He) in Eb by lia. injection Eb as <-.
    destruct (prim_byte_bits (ab_size ab) (y - sh l Primary s a) (ab_readonly ab)
      (bool_decide (y - sh l Primary s a ∈ ab_init ab))) as (_ & _ & -> & _); [lia..|].
    by rewrite bool_decide_true by (apply Hinit; lia).
Qed.

(** [readonly] of an address of a block. *)
Lemma static_readonly_exact s x a ab : on l s x -> contains M x a ab ->
  readonly l m x = Ret (b2i (ab_readonly ab)).
Proof using HM Hl.
  intros Hon Hin. unfold readonly. rewrite (on_global l Hl s x Hon).
  destruct (sm_block _ _ _ HM _ _ (proj1 Hin)) as (s' & Hh & Hsz & _ & Hro & He).
  assert (s' = s) as ->.
  { pose proof (sblock_covers a ab x (proj1 Hin) (proj2 Hin)).
    apply (on_unique l Hl s' s x); [|done]. replace x with (a + (x - a)) by lia.
    apply (home_on l s' a (ab_size ab)); [done|lia]. }
  destruct (bool_decide_reflect (s = SGlobal)) as [->|Hne].
  - unfold global_readonly. rewrite (global_address l Hl x Hon).
    rewrite <- (primary_address l Hl SGlobal x Hon).
    destruct (sfind SGlobal x Hon) as [Hno _|a' ab' Hin' _ Hi E _]; [by apply Hno in Hin|].
    destruct (static_contains_unique x a ab a' ab' Hin Hin') as [<- <-]. rewrite E. cbn [obind].
    destruct (prim_byte_bits (ab_size ab) (x - a) (ab_readonly ab)
      (bool_decide (x - a ∈ ab_init ab))) as (_ & _ & _ & ->); [lia..|].
    by destruct (ab_readonly ab).
  - destruct (ab_readonly ab); [|done]. by specialize (Hro eq_refl).
Qed.
End Queries.

(** ** Operations *)

Section Operations.
Context (cfg : config) (l : memory_layout) (Hl : layout_ok l) (Htemp : cfg_temporal cfg = false).

(** The check that a free range is zero. *)
Lemma nullified_passes m M r s p n : smodels l m M -> home l s p n -> fresh_range M p n ->
  DVALIDATE_NULLIFIED cfg m (sh l r s p) n = Ret tt.
Proof using Hl.
  intros HM Hh Hf. unfold DVALIDATE_NULLIFIED, dcheck. destruct (cfg_debug cfg); [|done].
  destruct Hh as (Hn & Hh). destruct (zeroed_out_spec m (sh l r s p) n) as (z & E & _ & Hz); [lia| |].
  { eapply accessible_sub; [exact (mapped_accessible l Hl m r s p n (sm_mapped _ _ _ HM) (conj Hn Hh))|lia..]. }
  rewrite E. cbn [obind].
  assert (z = 1) as ->; [|done]. apply Hz. intros x Hx.
  replace x with (sh l r s (p + (x - sh l r s p))) by (rewrite sh_plus; lia).
  apply (sm_free _ _ _ HM); [apply (home_on l s p n); [by split|lia]|].
  intros a ab [E' Hc]. destruct (Hf a ab E') as [? Hd].
  destruct (sm_block _ _ _ HM _ _ E') as (s' & (? & _) & _). unfold covers in Hc. lia.
Qed.

Lemma shadow_alloca_refines m M ts s p n : smodels l m M -> home l s p n -> n < 2 ^ 32 ->
  fresh_range M p n ->
  exists m', shadow_alloca cfg l m ts p n = Ret (m', ts) /\
    smodels l m' (<[p := mk_ablock n ∅ false false]> M) /\ static_touch l m m'.
Proof using Hl Htemp.
  intros HM Hh Hn Hf. pose proof (home_on0 l s p n Hh) as Hon. pose proof Hh as (Hn0 & _).
  pose proof (on_range l Hl s _ (home_on l s p n n Hh ltac:(lia))).
  unfold shadow_alloca, DVALIDATE_IS_ON_STATIC, DASSERT. rewrite Htemp. cbn [andb].
  rewrite (on_static l Hl s p Hon), u64_small by (unfold in_u; lia).
  rewrite (on_static l Hl s (p + n)) by (apply (home_on l s p n); [done|lia]).
  rewrite (primary_address l Hl s p Hon), (secondary_address l Hl s p Hon).
  assert (forall A (k : outcome A), (let* _ := if cfg_debug cfg then vassert true else Ret tt in k) = k)
    as Hskip by (intros; by destruct (cfg_debug cfg)).
  rewrite !Hskip. cbn [obind]. rewrite !(nullified_passes m M _ s p n) by done. cbn [obind].
  rewrite (proj2 (Z.eqb_neq n 0)) by lia. cbn [obind].
  pose proof (mapped_accessible l Hl m Primary s p n (sm_mapped _ _ _ HM) Hh) as A1.
  pose proof (mapped_accessible l Hl m Secondary s p n (sm_mapped _ _ _ HM) Hh) as A2.
  destruct (alloca_body_spec m (sh l Primary s p) (sh l Secondary s p) n)
    as (m' & E & Hd & Hok & He & Ho).
  { lia. } { apply (sm_ok _ _ _ HM). } { eapply accessible_sub; [exact A1|lia..]. }
  { eapply accessible_sub; [exact A2|lia..]. } { by apply shadows_apart. }
  unfold alloca_body in E. rewrite E. cbn [obind]. exists m'. split; [done|].
  split; [|by split; [|exists s, p, n]].
  apply (smodels_insert l Hl m m' M s); try done.
  - exists s. by split_and!.
  - intros a ab E' _. cbn [ab_size]. destruct (Hf a ab E') as [_ Hd']. lia.
  - intros ab E'. by destruct (Hf p ab E').
Qed.

Lemma shadow_freea_refines m M p ab : smodels l m M -> M !! p = Some ab ->
  exists m', shadow_freea cfg l m p = Ret m' /\ smodels l m' (delete p M) /\ static_touch l m m'.
Proof using Hl Htemp.
  intros HM E. destruct (sm_block _ _ _ HM _ _ E) as (s & Hh & Hsz & _).
  pose proof (home_on0 l s p _ Hh) as Hon. pose proof Hh as (Hn & _).
  assert (contains M p p ab) as Hin by (split; [done|left; lia]).
  unfold shadow_freea, _base_addr, _block_length, dcheck.
  rewrite (static_location_passes cfg l Hl m M HM s p p ab) by done. cbn [obind].
  rewrite !(predicate_static cfg l Hl m s p) by done.
  destruct (static_info_exact cfg l Hl m M HM s p p ab) as (E1 & _ & E3); [done..|].
  rewrite E1, E3. cbn [obind]. rewrite Z.eqb_refl.
  assert ((if cfg_debug cfg then vassert true else Ret tt) = Ret tt) as -> by by destruct (cfg_debug cfg).
  cbn [obind]. rewrite Htemp, (primary_address l Hl s p Hon), (secondary_address l Hl s p Hon).
  pose proof (mapped_accessible l Hl m Primary s p _ (sm_mapped _ _ _ HM) Hh) as A1.
  pose proof (mapped_accessible l Hl m Secondary s p _ (sm_mapped _ _ _ HM) Hh) as A2.
  destruct (memset_spec m (sh l Primary s p) 0 (ab_size ab)) as (m1 & -> & D1 & X1);
    [lia|eapply accessible_sub; [exact A1|lia..]|]. cbn [obind].
  destruct (memset_spec m1 (sh l Secondary s p) 0 (ab_size ab)) as (m2 & -> & D2 & X2);
    [lia|eapply accessible_dom; [exact D1|]; eapply accessible_sub; [exact A2|lia..]|]. cbn [obind].
  assert (agree_outside l m m2 s p (ab_size ab)) as Ho.
  { intros x Hx1 Hx2. rewrite X2, X1. by rewrite !decide_False by lia. }
  exists m2. split; [done|]. split; [|split; [congruence|by exists s, p, (ab_size ab)]].
  apply (smodels_delete l Hl m m2 M s p ab); try done.
  - eapply mem_ok_pointwise; [apply (sm_ok _ _ _ HM)|]. intros x b. rewrite X2, X1.
    repeat case_decide; [intros [= <-]; left; split; by vm_compute..|auto].
  - congruence.
  - intros r i Hi. rewrite X2, X1. destruct r; cbn [sh].
    + case_decide; [done|]. rewrite decide_True by lia. done.
    + by rewrite decide_True by lia.
Qed.

(** The debug check of the bounds of an access. *)
Lemma bounds_pass m M s x a ab size : smodels l m M -> on l s x -> contains M x a ab ->
  0 <= size -> x + size <= a + ab_size ab -> DVALIDATE_BOUNDS cfg l m x size = Ret tt.
Proof using Hl.
  intros HM Hon Hin Hs Hle. unfold DVALIDATE_BOUNDS, dcheck, _base_addr, _block_length.
  destruct (cfg_debug cfg); [|done]. rewrite !(predicate_static cfg l Hl m s x) by done.
  destruct (static_info_exact cfg l Hl m M HM s x a ab) as (-> & _ & ->); [done..|]. cbn [obind].
  destruct (sm_block _ _ _ HM _ _ (proj1 Hin)) as (s' & (? & _) & Hsz & _).
  pose proof (sblock_covers l m M HM a ab x (proj1 Hin) (proj2 Hin)).
  rewrite u64_small by (unfold in_u; lia).
  by rewrite (proj2 (Z.ltb_ge (ab_size ab) (x - a + size))) by lia.
Qed.

(** Setting bits of a part of a block. *)
Lemma or_masks_refines m M s x a ab masks v size ab' : smodels l m M -> on l s x ->
  contains M x a ab -> 0 <= size -> x + size <= a + ab_size ab ->
  mask_table masks v -> in_u 8 v -> ab_size ab' = ab_size ab -> ab_freeable ab' = false ->
  (ab_readonly ab' = true -> s = SGlobal) ->
  (forall i, 0 <= i < ab_size ab -> prim_byte (ab_size ab) i (ab_readonly ab') (bool_decide (i ∈ ab_init ab')) =
     let b := prim_byte (ab_size ab) i (ab_readonly ab) (bool_decide (i ∈ ab_init ab)) in
     if decide (x - a <= i < x - a + size) then Z.lor b v else b) ->
  exists m', or_masks (Z.to_nat size) masks m (sh l Primary s x) size = Ret m' /\
    smodels l m' (<[a := ab']> M) /\ static_touch l m m'.
Proof using Hl.
  intros HM Hon Hin Hs Hle Ht Hv Esz Hf Hro Hb.
  destruct (sfind l Hl m M HM s x Hon) as [Hno _|a1 ab1 Hin1 Hh Hi _ He]; [by apply Hno in Hin|].
  destruct (static_contains_unique l m M HM x a ab a1 ab1 Hin Hin1) as [<- <-].
  assert (sh l Primary s x = sh l Primary s a + (x - a)) as Ex by (rewrite <- sh_plus; f_equal; lia).
  destruct (sm_block _ _ _ HM _ _ (proj1 Hin)) as (_ & _ & Hsz & _).
  destruct (or_masks_spec (Z.to_nat size) masks v m (sh l Primary s x) size)
    as (m' & E & Hok & Hd & Hx); [done|done|apply (sm_ok _ _ _ HM)|lia| |].
  { eapply accessible_sub; [exact (mapped_accessible l Hl m Primary s a _ (sm_mapped _ _ _ HM) Hh)|lia..]. }
  exists m'. split; [done|].
  assert (agree_outside l m m' s a (ab_size ab)) as Ho.
  { intros y Hy1 Hy2. rewrite Hx. by rewrite decide_False by lia. }
  pose proof (shadows_apart l Hl s a _ Hh) as Hap.
  split; [|by split; [|exists s, a, (ab_size ab)]].
  apply (smodels_insert l Hl m m' M s); rewrite ?Esz; try done.
  - exists s. rewrite Esz. split_and!; [done..|]. split.
    + intros i Hii. rewrite Hx, (proj1 He i Hii), Hb by done. cbv zeta.
      case_decide; case_decide; done || lia.
    + intros H8 k Hk. destruct (proj2 He H8 k Hk) as [E1 E2]. rewrite <- E1, <- E2.
      split; apply load_le_frame; intros y Hy; rewrite Hx; rewrite decide_False; try done; dlia.
  - intros a' ab2 E' Hne. destruct (Z.lt_ge_cases a a').
    + left. by apply (sm_disj _ _ _ HM a ab a' ab2 (proj1 Hin)).
    + right. apply (sm_disj _ _ _ HM a' ab2 a ab); [done|apply Hin|lia].
  - intros ab2 E'. destruct Hin as [Hin _]. congruence.
Qed.

Lemma initialize_static_refines m M s x a ab size : smodels l m M -> on l s x ->
  contains M x a ab -> 0 <= size < 2 ^ 63 -> x + size <= a + ab_size ab ->
  exists m', initialize_static_region cfg l m x size = Ret m' /\
    smodels l m' (<[a := mk_ablock (ab_size ab) (ab_init ab ∪ offsets (x - a) (x - a + size))
                          (ab_readonly ab) false]> M) /\ static_touch l m m'.
Proof using Hl.
  intros HM Hon Hin Hs Hle. unfold initialize_static_region.
  assert (DVALIDATE_STATIC_ACCESS cfg l m x size = Ret tt) as ->.
  { unfold DVALIDATE_STATIC_ACCESS, DASSERT, dcheck. destruct (cfg_debug cfg); [|done].
    rewrite (on_static l Hl s x Hon). cbn [vassert obind].
    destruct (static_allocated_exact cfg l Hl m M HM s x size x Hon Hs) as (r & -> & _ & Hr).
    cbn [obind]. assert (r = 1) as ->; [|done]. apply Hr. exists a, ab. by split_and!. }
  cbn [obind]. rewrite (bounds_pass m M s x a ab) by (done || lia). cbn [obind].
  rewrite (primary_address l Hl s x Hon).
  destruct (sm_block _ _ _ HM _ _ (proj1 Hin)) as (s' & Hh & Hsz & _ & Hro & _).
  pose proof (sblock_covers l m M HM a ab x (proj1 Hin) (proj2 Hin)) as Hi.
  apply (or_masks_refines m M s x a ab static_init_masks 1); try done; try lia.
  - apply init_masks_ok.
  - intros Er. rewrite <- (Hro Er). apply (on_unique l Hl s s' x); [done|].
    replace x with (a + (x - a)) by lia. apply (home_on l s' a (ab_size ab)); [done|lia].
  - intros i Hii. cbn [ab_init ab_readonly]. cbv zeta. case_decide as Hin2.
    + rewrite (proj1 (prim_byte_bits (ab_size ab) i _ _ ltac:(lia) Hii)).
      by rewrite bool_decide_true by (rewrite elem_of_union, elem_offsets; auto).
    + f_equal. apply bool_decide_ext. rewrite elem_of_union, elem_offsets. tauto.
Qed.

Lemma mark_readonly_static m M a ab : smodels l m M -> M !! a = Some ab -> on l SGlobal a ->
  exists m', mark_readonly_region cfg l m a (ab_size ab) = Ret m' /\
    smodels l m' (<[a := mk_ablock (ab_size ab) (ab_init ab) true false]> M) /\
    static_touch l m m'.
Proof using Hl.
  intros HM E Hon. destruct (sm_block _ _ _ HM _ _ E) as (s' & Hh & Hsz & _).
  pose proof Hh as (Hn & _). assert (contains M a a ab) as Hin by (split; [done|left; lia]).
  unfold mark_readonly_region, DASSERT.
  pose proof (static_location_passes cfg l Hl m M HM SGlobal a a ab Hon Hin) as Hloc.
  unfold DVALIDATE_STATIC_LOCATION, DASSERT in Hloc. rewrite (on_global l Hl SGlobal a Hon).
  rewrite (on_static l Hl SGlobal a Hon) in Hloc. rewrite bool_decide_true by done.
  destruct (if cfg_debug cfg then vassert true else Ret tt); try done. cbn [obind] in Hloc |- *.
  rewrite Hloc. cbn [obind]. rewrite (bounds_pass m M SGlobal a a ab) by (done || lia). cbn [obind].
  rewrite (global_address l Hl a Hon).
  apply (or_masks_refines m M SGlobal a a ab static_readonly_masks 2); try done; try lia.
  - apply readonly_masks_ok.
  - intros i Hi. cbn [ab_init ab_readonly]. cbv zeta. rewrite decide_True by lia.
    by rewrite (proj1 (proj2 (prim_byte_bits (ab_size ab) i _ _ ltac:(lia) Hi))).
Qed.
End Operations.
