(* ===== verification/SegHeap.v ===== *)
(** * Heap blocks of the shadow memory model

    The segment-based encoding represents the heap blocks of the abstract
    memory: allocation and release keep the representation, and the queries read
    it back. *)

From S2P Require Import Prelude AMem Alloc Temporal Bits Mask CString Shadow Segment SegModel SegStatic.

(** ** The heap of a layout *)

Definition hstart (l : memory_layout) : Z := sg_start (application (ly_heap l)).
Definition hend (l : memory_layout) : Z := sg_end (application (ly_heap l)).

(** Shadow address of a heap address, and address of the init shadow. *)
Definition hs (l : memory_layout) (x : Z) : Z := sg_start (primary (ly_heap l)) + (x - hstart l).
Definition hinit (l : memory_layout) : Z := sg_start (secondary (ly_heap l)).

(** The initialization bit of a heap address. *)
Definition ibit (l : memory_layout) (m : mem) (x : Z) : bool := mbit m (hinit l) (x - hstart l).

Record heap_ok (l : memory_layout) : Prop := mk_heap_ok {
  hk_primary : shadows (application (ly_heap l)) (primary (ly_heap l));
  hk_secondary : exists start, secondary (ly_heap l) = set_shadow_segment (application (ly_heap l)) 8 start /\
    0 <= start /\ start + sg_size (application (ly_heap l)) < 2 ^ 64;
  hk_align : hstart l mod 32 = 0 /\ hend l mod 32 = 0;
  hk_nonnull : 0 < hstart l /\ hend l < 2 ^ 63
}.

Lemma alloc_size_spec n : 0 <= n < max_allocated ->
  ALLOC_SIZE n mod 32 = 0 /\ n <= ALLOC_SIZE n < n + 32 /\ ALLOC_SIZE n < 2 ^ 64.
Proof.
  intros Hn. unfold ALLOC_SIZE, ALIGN_RIGHT, HEAP_SEGMENT. destruct (Z.ltb_spec n max_allocated); [|lia].
  change max_allocated with (2 ^ 64 - 32) in *. destruct (Z.eqb_spec (n mod 32) 0); cbn [negb]; dlia.
Qed.

Section Layout.
Context (l : memory_layout) (Hl : layout_ok l) (Hh : heap_ok l).

(** [x] is in the tracked heap. *)
Definition hon (x : Z) : Prop := hstart l <= x < hend l.

Lemma heap_bounds : 0 <= hstart l /\ hend l < 2 ^ 64 /\
  hend l = hstart l + sg_size (application (ly_heap l)) /\ 0 <= sg_size (application (ly_heap l)).
Proof using Hh. destruct (hk_primary l Hh) as (start & _ & ?). unfold hstart, hend. lia. Qed.

Lemma hon_IS_ON x : hon x -> IS_ON_HEAP l x = true.
Proof. unfold hon, IS_ON_HEAP, IS_ON, hstart, hend. rewrite andb_true_iff, !Z.leb_le. lia. Qed.

Lemma hon_not_static x : hon x -> IS_ON_STATIC l x = false.
Proof using Hl.
  intros Hx. apply hon_IS_ON in Hx. unfold IS_ON_STATIC.
  assert (forall s, IS_ON x (application (part l s)) = false) as Hs.
  { intros s. destruct (IS_ON x (application (part l s))) eqn:E; [|done].
    apply on_IS_ON in E. rewrite (on_not_heap l Hl s x E) in Hx. done. }
  pose proof (Hs SStack). pose proof (Hs SGlobal). pose proof (Hs STls). simpl in *.
  unfold IS_ON_STACK, IS_ON_GLOBAL, IS_ON_TLS. by rewrite H, H0, H1.
Qed.

Lemma hon_not_global x : hon x -> IS_ON_GLOBAL l x = false.
Proof using Hl.
  intros Hx%hon_not_static. unfold IS_ON_STATIC in Hx. by destruct (IS_ON_STACK l x), (IS_ON_GLOBAL l x).
Qed.

Lemma heap_shadow_address x : hon x -> HEAP_SHADOW l x = hs l x.
Proof using Hh.
  intros Hx%hon_IS_ON. destruct (shadow_access_linear _ _ x (hk_primary l Hh) Hx) as [E _]. exact E.
Qed.

Lemma hon_align x : hon x -> hon (x - x mod 32) /\ (x - x mod 32) mod 32 = 0.
Proof using Hh.
  unfold hon. intros Hx. pose proof (hk_align l Hh). dlia.
Qed.

Lemma aligned_heap_shadow x : hon x -> ALIGNED_HEAP_SHADOW l x = hs l (x - x mod 32).
Proof using Hh. intros Hx. apply heap_shadow_address, hon_align, Hx. Qed.

Lemma heap_init_address x : hon x -> HEAP_INIT_SHADOW l x = hinit l + (x - hstart l) / 8.
Proof using Hh.
  intros Hx. unfold HEAP_INIT_SHADOW, SCALED_SHADOW_ACCESS, HEAP_START. fold (hstart l).
  pose proof heap_bounds as (H0 & H1 & H2 & H3). unfold hon in Hx.
  destruct (hk_secondary l Hh) as (start & E & Hs0 & Hs1). unfold hinit. rewrite E. cbn.
  fold (hstart l). rewrite (u64_small (x - hstart l)) by (unfold in_u; lia).
  assert (u64 (hstart l - s64 (u64 (hstart l - start))) = start) as ->.
  { unfold s64, u64. rewrite Zplus_mod_idemp_l. set (q := hstart l - start + 2 ^ 63).
    pose proof (Z.div_mod q (2 ^ 64) ltac:(lia)).
    replace (hstart l - (q mod 2 ^ 64 - 2 ^ 63)) with (start + q / 2 ^ 64 * 2 ^ 64) by (unfold q in *; lia).
    rewrite Z_mod_plus_full. apply Z.mod_small. lia. }
  apply u64_small. unfold in_u. split; [dlia|].
  assert ((x - hstart l) / 8 <= x - hstart l) by dlia. lia.
Qed.

(** The segments of the heap are apart from one another and from the static
    shadows. *)
Inductive hregion : Type := HApp | HPrimary | HSecondary.
Definition hsegment (r : hregion) : memory_segment :=
  match r with
  | HApp => application (ly_heap l)
  | HPrimary => primary (ly_heap l)
  | HSecondary => secondary (ly_heap l)
  end.
Definition in_hseg (r : hregion) (y : Z) : Prop := sg_start (hsegment r) <= y <= sg_end (hsegment r).

Definition hindex (r : hregion) : nat :=
  match r with HApp => 0 | HPrimary => 1 | HSecondary => 2 end%nat.

Lemma hsegment_lookup r :
  flat_map (partition_segments default_config) (mem_partitions l) !! hindex r =
  Some (sg_start (hsegment r), sg_end (hsegment r)).
Proof. by destruct r. Qed.

Lemma hsegments_apart r r' y : in_hseg r y -> in_hseg r' y -> r = r'.
Proof using Hl.
  intros H H'. destruct (decide (hindex r = hindex r')) as [E|Hne]; [by destruct r, r'|exfalso].
  pose proof (segments_apart default_config l _ _ _ _ (lk_valid l Hl) (hsegment_lookup r)
    (hsegment_lookup r') Hne) as Hd. unfold in_hseg in *. simpl in Hd. lia.
Qed.

Lemma hsegment_static r r' s a y : in_hseg r y -> on l s a -> y <> sh l r' s a.
Proof using Hl.
  intros Hy Ha ->.
  assert (hindex r <> segment_index default_config (part_index s) r') as Hne
    by (unfold segment_index; destruct r, r', s; simpl; lia).
  pose proof (segments_apart default_config l _ _ _ _ (lk_valid l Hl) (hsegment_lookup r)
    (segment_lookup default_config l _ _ r' (part_lookup l s)) Hne) as Hd.
  apply on_IS_ON in Ha. destruct (shadow_access_linear _ _ _ (lk_shadows l Hl r' s) Ha) as [E Hin].
  rewrite E in Hin. unfold IS_ON in Hin. rewrite andb_true_iff, !Z.leb_le in Hin.
  unfold in_hseg, sh in *. simpl in Hd. lia.
Qed.
End Layout.

(** ** Representation *)

(** [x] is in the segments of the block [ab] at [a], which include its padding. *)
Definition in_alloc (a : Z) (ab : ablock) (x : Z) : Prop := a <= x < a + ALLOC_SIZE (ab_size ab).

Record hblock (l : memory_layout) (m : mem) (a : Z) (ab : ablock) : Prop := mk_hblock {
  hb_size : 0 < ab_size ab < max_allocated;
  hb_align : a mod 32 = 0;
  hb_home : hstart l <= a /\ a + ALLOC_SIZE (ab_size ab) <= hend l;
  hb_freeable : ab_freeable ab = true;
  hb_readonly : ab_readonly ab = false;
  hb_base : forall j, 0 <= j < ALLOC_SIZE (ab_size ab) / 32 -> load64 m (hs l a + 32 * j) = Ret a;
  hb_length : load64 m (hs l a + 8) = Ret (ab_size ab);
  hb_init : forall i, 0 <= i < ab_size ab -> ibit l m (a + i) = bool_decide (i ∈ ab_init ab)
}.

Definition hmapped (l : memory_layout) (m : mem) : Prop :=
  accessible m (hstart l) (hend l - hstart l) /\
  accessible m (sg_start (primary (ly_heap l))) (hend l - hstart l) /\
  accessible m (hinit l) ((hend l - hstart l) / 8 + 8).

Record hmodels (l : memory_layout) (m : mem) (M : amem) : Prop := mk_hmodels {
  hm_ok : mem_ok m;
  hm_mapped : hmapped l m;
  hm_block : forall a ab, M !! a = Some ab -> hblock l m a ab;
  hm_disj : forall a ab a' ab', M !! a = Some ab -> M !! a' = Some ab' ->
    a < a' -> a + ALLOC_SIZE (ab_size ab) <= a';
  hm_free : forall x, hon l x -> (forall a ab, M !! a = Some ab -> ~ in_alloc a ab x) ->
    m !! hs l x = Some 0 /\ ibit l m x = false
}.

Section Heap.
Context (l : memory_layout) (Hl : layout_ok l) (Hh : heap_ok l).

Lemma hs_plus x i : hs l (x + i) = hs l x + i.
Proof. unfold hs. lia. Qed.

Lemma hs_in x : hon l x -> in_hseg l HPrimary (hs l x).
Proof using Hh.
  unfold hon, in_hseg, hs. simpl. intros Hx. pose proof (heap_bounds l Hh) as (? & ? & ? & ?).
  destruct (hk_primary l Hh) as (start & E & ? & ? & _). rewrite E. cbn.
  rewrite Z.div_1_r, u64_small by (unfold in_u; lia). lia.
Qed.

Lemma hinit_in x : hon l x -> in_hseg l HSecondary (hinit l + (x - hstart l) / 8).
Proof using Hh.
  unfold hon, in_hseg, hinit. simpl. intros Hx. pose proof (heap_bounds l Hh) as (? & ? & ? & ?).
  destruct (hk_secondary l Hh) as (start & E & H3 & H4). rewrite E. cbn.
  assert (sg_size (application (ly_heap l)) / 8 <= sg_size (application (ly_heap l))) by dlia.
  rewrite u64_small by (unfold in_u; dlia). dlia.
Qed.

(** A memory that agrees on the shadows of the heap. *)
Definition hagree (m m' : mem) (P : Z -> Prop) : Prop :=
  (forall x, hon l x -> P x -> m' !! hs l x = m !! hs l x) /\
  (forall x, hon l x -> P x -> ibit l m' x = ibit l m x).

Lemma hblock_words m m' a ab : (forall x, hon l x -> in_alloc a ab x -> m' !! hs l x = m !! hs l x) ->
  hblock l m a ab ->
  (forall j, 0 <= j < ALLOC_SIZE (ab_size ab) / 32 -> load64 m' (hs l a + 32 * j) = Ret a) /\
  load64 m' (hs l a + 8) = Ret (ab_size ab).
Proof using Hh.
  intros H1 Hb. pose proof (hb_home _ _ _ _ Hb) as Hhome.
  pose proof (alloc_size_spec (ab_size ab) ltac:(pose proof (hb_size _ _ _ _ Hb); lia)) as (Ha & Hn & _).
  assert (forall x, a <= x < a + ALLOC_SIZE (ab_size ab) -> m' !! hs l x = m !! hs l x) as Hx
    by (intros x Hx; apply H1; [unfold hon; lia|done]).
  pose proof (hb_size _ _ _ _ Hb). split.
  - intros j Hj. rewrite <- (hb_base _ _ _ _ Hb j Hj). apply load_le_frame. intros y Hy.
    replace y with (hs l (a + (y - hs l a))) by (rewrite hs_plus; lia). apply Hx. dlia.
  - rewrite <- (hb_length _ _ _ _ Hb). apply load_le_frame. intros y Hy.
    replace y with (hs l (a + (y - hs l a))) by (rewrite hs_plus; lia). apply Hx. dlia.
Qed.

Lemma hblock_frame m m' a ab : hagree m m' (in_alloc a ab) -> hblock l m a ab -> hblock l m' a ab.
Proof using Hh.
  intros [H1 H2] Hb. destruct (hblock_words m m' a ab H1 Hb) as [Hw1 Hw2].
  pose proof (alloc_size_spec (ab_size ab) ltac:(pose proof (hb_size _ _ _ _ Hb); lia)) as (_ & Hn & _).
  destruct Hb as [? ? ? ? ? _ _ Hinit]. constructor; try done.
  intros i Hi. rewrite <- (Hinit i Hi). apply H2; [unfold hon; lia|unfold in_alloc; lia].
Qed.

Lemma hmodels_frame m m' M : mem_ok m' -> dom m' = dom m -> hagree m m' (fun _ => True) ->
  hmodels l m M -> hmodels l m' M.
Proof using Hh.
  intros Hok Hd [H1 H2] HM. constructor.
  - done.
  - destruct (hm_mapped _ _ _ HM) as (? & ? & ?). split_and!; by eapply accessible_dom.
  - intros a ab E. eapply hblock_frame; [|by apply (hm_block _ _ _ HM)].
    split; intros x Hx _; [by apply H1|by apply H2].
  - apply (hm_disj _ _ _ HM).
  - intros x Hx Hno. rewrite H1, H2 by done. by apply (hm_free _ _ _ HM).
Qed.

(** ** Queries *)

Section HeapQueries.
Context (cfg : config) (m : mem) (M : amem) (HM : hmodels l m M).

Lemma alloc_dec x : (exists a ab, M !! a = Some ab /\ in_alloc a ab x) \/
  (forall a ab, M !! a = Some ab -> ~ in_alloc a ab x).
Proof.
  assert (forall a ab, Decision (in_alloc a ab x)) as Hdec by (unfold in_alloc; apply _).
  destruct (decide (map_Exists (fun a ab => in_alloc a ab x) M)) as [(a & ab & E & H)|Hn].
  - left. by exists a, ab.
  - right. intros a ab E H. apply Hn. by exists a, ab.
Qed.

Lemma block_facts a ab : M !! a = Some ab ->
  0 < ab_size ab /\ a mod 32 = 0 /\ hstart l <= a /\ a + ALLOC_SIZE (ab_size ab) <= hend l /\
  ALLOC_SIZE (ab_size ab) mod 32 = 0 /\ ab_size ab <= ALLOC_SIZE (ab_size ab) < ab_size ab + 32 /\
  0 < a + ALLOC_SIZE (ab_size ab) < 2 ^ 64 /\ 0 <= a.
Proof using HM Hh.
  intros E. destruct (hm_block _ _ _ HM _ _ E) as [Hs Ha [H1 H2] _ _ _ _ _].
  destruct (alloc_size_spec (ab_size ab) ltac:(lia)) as (? & ? & ?).
  pose proof (heap_bounds l Hh). lia.
Qed.

(** A block is the only one whose segments contain an address. *)
Lemma alloc_unique x a ab a' ab' : M !! a = Some ab -> M !! a' = Some ab' ->
  in_alloc a ab x -> in_alloc a' ab' x -> a = a' /\ ab = ab'.
Proof using HM.
  unfold in_alloc. intros E E' H H'.
  assert (a = a') as ->.
  { destruct (Z.lt_trichotomy a a') as [Hlt|[|Hlt]]; [|done|].
    - pose proof (hm_disj _ _ _ HM _ _ _ _ E E' Hlt). lia.
    - pose proof (hm_disj _ _ _ HM _ _ _ _ E' E Hlt). lia. }
  split; [done|congruence].
Qed.

(** The base address that the segment of an address stores. *)
Lemma segment_base x : hon l x ->
  (load64 m (hs l (x - x mod 32)) = Ret 0 /\ forall a ab, M !! a = Some ab -> ~ in_alloc a ab x) \/
  (exists a ab, load64 m (hs l (x - x mod 32)) = Ret a /\ M !! a = Some ab /\ in_alloc a ab x).
Proof using HM Hh.
  intros Hx. destruct (alloc_dec x) as [(a & ab & E & Hin)|Hno].
  - right. exists a, ab. split_and!; [|done..].
    destruct (block_facts a ab E) as (? & Ha & ? & ? & H32 & ? & _). unfold in_alloc in Hin.
    replace (x - x mod 32) with (a + 32 * ((x - a) / 32)) by dlia. rewrite hs_plus.
    apply (hb_base _ _ _ _ (hm_block _ _ _ HM _ _ E)). dlia.
  - left. split; [|done]. destruct (hon_align l Hh x Hx) as [Hx' H32].
    unfold load64. rewrite (load_le_bytes 8 m _ 0); [done|]. intros j Hj. rewrite <- hs_plus.
    replace (byte_of 0 j) with 0 by (unfold byte_of; by rewrite Z.div_0_l by lia).
    assert (hon l (x - x mod 32 + j)) as Hon.
    { unfold hon in *. pose proof (hk_align l Hh). dlia. }
    apply (hm_free _ _ _ HM); [done|]. intros a ab E Hin. apply (Hno a ab E).
    destruct (block_facts a ab E) as (? & Ha & ? & ? & H32' & ? & _). unfold in_alloc in *. dlia.
Qed.

(** [heap_allocated] is exact, up to the padding of the block of the base. *)
Lemma heap_allocated_exact x size base : hon l x -> hon l base -> 0 < size < 2 ^ 63 ->
  exists r, heap_allocated cfg l m x size base = Ret r /\ (r = 0 \/ r = 1) /\
    (r = 1 <-> exists a ab, contains M x a ab /\
       (cfg_weak_validity cfg = false -> in_alloc a ab base) /\ x + size <= a + ab_size ab).
Proof using HM Hh.
  intros Hx Hb Hs. unfold heap_allocated, HEAP_SEGMENT.
  rewrite (heap_shadow_address l Hh (x - x mod 32)) by (by apply hon_align).
  rewrite (heap_shadow_address l Hh (base - base mod 32)) by (by apply hon_align).
  destruct (segment_base x Hx) as [[-> Hno]|(a & ab & -> & E & Hin)]; cbn [obind].
  { exists 0. split_and!; [done|auto|]. split; [done|]. intros (a & ab & [E Hc] & _).
    destruct (Hno a ab E). pose proof (block_facts a ab E). unfold in_alloc, covers in *. lia. }
  pose proof (block_facts a ab E) as (Hn & Ha & H1 & H2 & _ & Hal & Hu & H0).
  assert (0 < a) as Hpos by (pose proof (hk_nonnull l Hh); lia).
  rewrite (proj2 (Z.eqb_neq a 0)) by lia. cbn [negb].
  rewrite (heap_shadow_address l Hh a) by (unfold hon; lia).
  rewrite (hb_length _ _ _ _ (hm_block _ _ _ HM _ _ E)). cbn [obind].
  unfold in_alloc in Hin. rewrite (u64_small (x - a)) by (unfold in_u; lia).
  rewrite u64_small by (unfold in_u; pose proof (hk_nonnull l Hh); lia).
  assert (forall a' ab', contains M x a' ab' -> a' = a /\ ab' = ab) as Huniq.
  { intros a' ab' [E' Hc]. pose proof (block_facts a' ab' E').
    destruct (alloc_unique x a ab a' ab' E E'); [done|unfold in_alloc, covers in *; lia|done]. }
  assert (forall P : Prop, (P <-> (cfg_weak_validity cfg = false -> in_alloc a ab base)) ->
    ((exists a ab, contains M x a ab /\ (cfg_weak_validity cfg = false -> in_alloc a ab base) /\
       x + size <= a + ab_size ab) <-> P /\ x - a + size <= ab_size ab)) as Hex.
  { intros P HP. split.
    - intros (a' & ab' & Hc & Hb' & Hle). destruct (Huniq a' ab' Hc) as [-> ->].
      split; [by apply HP|lia].
    - intros [Hb' Hle]. exists a, ab. split_and!; [split; [done|left; lia]|by apply HP|lia]. }
  assert (exists r, Ret (b2i (x - a + size <=? ab_size ab)) = Ret r /\ (r = 0 \/ r = 1) /\
    (r = 1 <-> x - a + size <= ab_size ab)) as (r & -> & H01 & Hr).
  { destruct (Z.leb_spec (x - a + size) (ab_size ab)); eexists; (split_and!; [done|auto|]); simpl; lia. }
  destruct (cfg_weak_validity cfg) eqn:Ew.
  { exists r. split_and!; [done..|]. rewrite Hr, (Hex True) by (split; done). tauto. }
  destruct (segment_base base Hb) as [[-> Hno]|(a' & ab' & -> & E' & Hin')]; cbn [obind].
  - rewrite (proj2 (Z.eqb_neq 0 a)) by lia. exists 0. split_and!; [done|auto|].
    rewrite (Hex False); [split; [done|tauto]|]. split; [done|]. intros H. by apply (Hno a ab E), H.
  - destruct (Z.eqb_spec a' a) as [->|Hne].
    + assert (ab' = ab) as -> by congruence. exists r. split_and!; [done..|].
      rewrite Hr, (Hex True) by (split; done). tauto.
    + exists 0. split_and!; [done|auto|]. rewrite (Hex False); [split; [done|tauto]|].
      split; [done|]. intros H. apply Hne.
      by destruct (alloc_unique base a' ab' a ab E' E Hin' (H eq_refl)).
Qed.

(** [freeable] holds of the base addresses of the blocks. *)
Lemma freeable_exact x : hon l x ->
  exists r, freeable l m x = Ret r /\ (r = 0 \/ r = 1) /\ (r = 1 <-> exists ab, M !! x = Some ab).
Proof using HM Hh.
  intros Hx. unfold freeable. rewrite (hon_IS_ON l x Hx), (aligned_heap_shadow l Hh x Hx). cbn [negb].
  destruct (segment_base x Hx) as [[-> Hno]|(a & ab & -> & E & Hin)]; cbn [obind].
  - exists 0. split_and!; [done|auto|]. split; [done|]. intros [ab E].
    destruct (Hno x ab E). pose proof (block_facts x ab E). unfold in_alloc. lia.
  - pose proof (block_facts a ab E) as (? & Ha & ? & _). pose proof (hk_nonnull l Hh).
    rewrite (proj2 (Z.eqb_neq a 0)) by lia. cbn [negb].
    destruct (Z.eqb_spec a x) as [->|Hne].
    + exists 1. split_and!; [done|auto|]. split; eauto.
    + exists 0. split_and!; [done|auto|]. split; [done|]. intros [ab' E'].
      destruct (alloc_unique x a ab x ab' E E' Hin) as [? _]; [|done].
      pose proof (block_facts x ab' E'). unfold in_alloc. lia.
Qed.

Lemma heap_access_passes x a ab size : hon l x -> contains M x a ab -> 0 < size < 2 ^ 63 ->
  x + size <= a + ab_size ab -> DVALIDATE_HEAP_ACCESS cfg l m x size = Ret tt.
Proof using HM Hh.
  intros Hx Hin Hs Hle. unfold DVALIDATE_HEAP_ACCESS, DASSERT, dcheck.
  destruct (cfg_debug cfg); [|done]. rewrite (hon_IS_ON l x Hx). cbn [vassert obind].
  rewrite u64_small by (unfold in_u; lia).
  destruct (heap_allocated_exact x size x Hx Hx Hs) as (r & -> & _ & Hr). cbn [obind].
  assert (r = 1) as ->; [|done]. apply Hr. exists a, ab. split_and!; [done| |done]. intros _.
  destruct Hin as [E Hc]. pose proof (block_facts a ab E). unfold in_alloc, covers in *. lia.
Qed.

(** The answers of [heap_info] in a block. *)
Lemma heap_info_exact x a ab : hon l x -> contains M x a ab ->
  heap_info cfg l m x qB = Ret a /\ heap_info cfg l m x qO = Ret (x - a) /\
  heap_info cfg l m x qL = Ret (ab_size ab).
Proof using HM Hh.
  intros Hx Hin. pose proof Hin as [E Hc].
  pose proof (block_facts a ab E) as (Hn & Ha & H1 & H2 & _ & Hal & Hu & H0).
  unfold covers in Hc. unfold heap_info.
  rewrite (heap_access_passes x a ab 1 Hx Hin) by lia. cbn [obind].
  rewrite (aligned_heap_shadow l Hh x Hx). cbn [qB qO qL Z.eqb Pos.eqb].
  destruct (segment_base x Hx) as [[-> Hno]|(a' & ab' & -> & E' & Hin')]; cbn [obind].
  { destruct (Hno a ab E). unfold in_alloc. lia. }
  destruct (alloc_unique x a ab a' ab' E E') as [<- <-]; [unfold in_alloc; lia|done|].
  split; [done|]. rewrite u64_small by (unfold in_u; lia). split; [done|].
  rewrite (heap_shadow_address l Hh a) by (unfold hon; lia).
  apply (hb_length _ _ _ _ (hm_block _ _ _ HM _ _ E)).
Qed.

(** [heap_initialized] is exact at addresses that start a byte of the init
    shadow. *)
Lemma heap_initialized_aligned x a ab size : hon l x -> contains M x a ab -> x mod 8 = 0 ->
  0 < size -> x + size <= a + ab_size ab ->
  exists r, heap_initialized l m x size = Ret r /\ (r = 0 \/ r = 1) /\
    (r = 1 <-> forall i, x - a <= i < x - a + size -> i ∈ ab_init ab).
Proof using HM Hh.
  intros Hx Hin H8 Hs Hle. pose proof Hin as [E Hc].
  pose proof (block_facts a ab E) as (Hn & Ha & H1 & H2 & _ & Hal & Hu & H0).
  unfold covers in Hc. unfold heap_initialized, HEAP_START. fold (hstart l).
  pose proof (heap_bounds l Hh) as (Hb0 & Hb1 & _). pose proof (hk_align l Hh) as [Hal1 _].
  rewrite (u64_small (x - hstart l)) by (unfold in_u; lia).
  replace ((x - hstart l) mod 8) with 0 by dlia. cbn [Z.eqb negb obind].
  destruct (Z.ltb_spec 0 size); [|lia]. rewrite (u64_small size) by (unfold in_u; lia).
  rewrite (heap_init_address l Hh x Hx).
  destruct (checkbits_spec size m (hinit l + (x - hstart l) / 8)) as (r & -> & H01 & Hr).
  { apply (hm_ok _ _ _ HM). } { lia. }
  { destruct (hm_mapped _ _ _ HM) as (_ & _ & Hm). eapply accessible_sub; [exact Hm|dlia|dlia]. }
  exists r. split_and!; [done..|]. rewrite Hr. unfold all_bits.
  assert (forall i, 0 <= i < size -> mbit m (hinit l + (x - hstart l) / 8) i =
    bool_decide (x - a + i ∈ ab_init ab)) as Hbit.
  { intros i Hi. rewrite mbit_shift. replace (8 * ((x - hstart l) / 8) + i) with (a + (x - a + i) - hstart l) by dlia.
    apply (hb_init _ _ _ _ (hm_block _ _ _ HM _ _ E)). lia. }
  split.
  - intros Hi1 i Hi. specialize (Hi1 (i - (x - a)) ltac:(lia)). rewrite Hbit in Hi1 by lia.
    apply bool_decide_eq_true in Hi1. by replace (x - a + (i - (x - a))) with i in Hi1 by lia.
  - intros Hi1 i Hi. rewrite Hbit by done. apply bool_decide_eq_true, Hi1. lia.
Qed.
End HeapQueries.

(** ** Changes of the representation *)

(** The memory has changed in the segments of the heap only. *)
Definition heap_touch (m m' : mem) : Prop :=
  dom m' = dom m /\ forall y, (forall r, ~ in_hseg l r y) -> m' !! y = m !! y.

Lemma heap_touch_trans m1 m2 m3 : heap_touch m1 m2 -> heap_touch m2 m3 -> heap_touch m1 m3.
Proof. intros [D1 H1] [D2 H2]. split; [congruence|]. intros y Hy. rewrite H2, H1; done. Qed.

Lemma hmodels_insert m m' M a ab : hmodels l m M -> hblock l m' a ab -> mem_ok m' ->
  dom m' = dom m -> hagree m m' (fun x => ~ in_alloc a ab x) ->
  (forall a' ab', M !! a' = Some ab' -> a' <> a ->
     a + ALLOC_SIZE (ab_size ab) <= a' \/ a' + ALLOC_SIZE (ab_size ab') <= a) ->
  (forall ab', M !! a = Some ab' -> ab_size ab' = ab_size ab) ->
  hmodels l m' (<[a := ab]> M).
Proof using Hh.
  intros HM Hb Hok Hd [Ha1 Ha2] Hdis Hsz.
  assert (forall x a' ab', M !! a' = Some ab' -> a' <> a -> in_alloc a' ab' x -> ~ in_alloc a ab x) as Hout.
  { intros x a' ab' E Hne Hin. destruct (Hdis a' ab' E Hne); unfold in_alloc in *; lia. }
  constructor.
  - done.
  - destruct (hm_mapped _ _ _ HM) as (? & ? & ?). split_and!; by eapply accessible_dom.
  - intros a' ab'. rewrite lookup_insert_Some. intros [[<- <-]|[Hne E]]; [done|].
    eapply hblock_frame; [|by apply (hm_block _ _ _ HM)].
    split; intros x Hx Hin; [apply Ha1|apply Ha2]; [done|by eapply Hout|done|by eapply Hout].
  - intros a1 ab1 a2 ab2. rewrite !lookup_insert_Some.
    pose proof (alloc_size_spec (ab_size ab) ltac:(pose proof (hb_size _ _ _ _ Hb); lia)) as (_ & Hal & _).
    pose proof (hb_size _ _ _ _ Hb).
    intros [[<- <-]|[Hne1 E1]] [[<- <-]|[Hne2 E2]] Hlt; [lia| | |by eapply (hm_disj _ _ _ HM)].
    + destruct (Hdis a2 ab2 E2) as [|]; [done|lia|]. pose proof (block_facts m M HM a2 ab2 E2). lia.
    + destruct (Hdis a1 ab1 E1) as [|]; [done|lia|lia].
  - intros x Hx Hno.
    assert (~ in_alloc a ab x) as Hx1 by (apply Hno; apply lookup_insert_eq).
    rewrite Ha1, Ha2 by done. apply (hm_free _ _ _ HM); [done|]. intros a' ab' E Hin.
    destruct (decide (a' = a)) as [->|Hne].
    + unfold in_alloc in *. rewrite (Hsz ab' E) in Hin. done.
    + apply (Hno a' ab'); [by rewrite lookup_insert_ne|done].
Qed.

Lemma hmodels_delete m m' M a ab : hmodels l m M -> M !! a = Some ab -> mem_ok m' ->
  dom m' = dom m -> hagree m m' (fun x => ~ in_alloc a ab x) ->
  (forall x, in_alloc a ab x -> m' !! hs l x = Some 0 /\ ibit l m' x = false) ->
  hmodels l m' (delete a M).
Proof using Hh.
  intros HM E Hok Hd [Ha1 Ha2] Hz. constructor.
  - done.
  - destruct (hm_mapped _ _ _ HM) as (? & ? & ?). split_and!; by eapply accessible_dom.
  - intros a' ab'. rewrite lookup_delete_Some. intros [Hne E'].
    assert (forall x, in_alloc a' ab' x -> ~ in_alloc a ab x) as Hout.
    { intros x Hin Hin'. by destruct (alloc_unique m M HM x a ab a' ab' E E' Hin' Hin). }
    eapply hblock_frame; [|by apply (hm_block _ _ _ HM)].
    split; intros x Hx Hin; [apply Ha1|apply Ha2]; auto.
  - intros a1 ab1 a2 ab2. rewrite !lookup_delete_Some. intros [_ E1] [_ E2].
    by apply (hm_disj _ _ _ HM a1 ab1 a2 ab2).
  - intros x Hx Hno. destruct (decide (a <= x < a + ALLOC_SIZE (ab_size ab))) as [Hin|Hout].
    + by apply Hz.
    + rewrite Ha1, Ha2 by done. apply (hm_free _ _ _ HM); [done|]. intros a' ab' E' Hin.
      destruct (decide (a' = a)) as [->|Hne].
      * assert (ab' = ab) as -> by congruence. done.
      * apply (Hno a' ab'); [by rewrite lookup_delete_ne|done].
Qed.

(** Base addresses written in the segments. *)
Lemma write_bases m p v k : mem_ok m -> in_u 64 v -> 0 <= k -> accessible m p (32 * k) ->
  exists m', for_range 0 k (fun i m => store64 m (p + i * HEAP_SEGMENT) v) m = Ret m' /\
    dom m' = dom m /\ mem_ok m' /\
    (forall j, 0 <= j < k -> load64 m' (p + 32 * j) = Ret v) /\
    (forall y, ~ (p <= y < p + 32 * k) \/ 8 <= (y - p) mod 32 -> m' !! y = m !! y).
Proof.
  intros Hm Hv Hk Ha. unfold HEAP_SEGMENT.
  apply (for_range_inv _ (fun i m' => dom m' = dom m /\ mem_ok m' /\
    (forall j, 0 <= j < i -> load64 m' (p + 32 * j) = Ret v) /\
    (forall y, ~ (p <= y < p + 32 * i) \/ 8 <= (y - p) mod 32 -> m' !! y = m !! y))); [done| |].
  { split_and!; [done|done|lia|done]. }
  intros i m1 Hi (Hd & Hok & Hj & Hy). unfold store64.
  destruct (store_le_bytes 8 m1 (p + i * 32) v) as (m2 & -> & D2 & X2).
  { eapply accessible_dom; [exact Hd|]. eapply accessible_sub; [exact Ha|lia..]. }
  change (Z.of_nat 8) with 8 in X2. exists m2. split_and!; [done|congruence| | |].
  - eapply mem_ok_pointwise; [exact Hok|]. intros x b. rewrite X2. case_decide; [|auto].
    intros [= <-]. left. apply byte_of_range.
  - intros j Hj'. destruct (decide (j = i)) as [->|Hne].
    + unfold load64. rewrite (load_le_bytes 8 m2 _ v).
      * f_equal. apply Z.mod_small. exact Hv.
      * intros b Hb. rewrite X2, decide_True by lia. do 2 f_equal. lia.
    + rewrite <- (Hj j) by lia. apply load_le_frame. intros x Hx. rewrite X2.
      by rewrite decide_False by lia.
  - intros y Hy'. rewrite X2. rewrite decide_False by dlia. apply Hy. dlia.
Qed.

(** The init shadow of the segments of a block, after [memset]. *)
Lemma init_memset m a n v : mem_ok m -> a mod 32 = 0 -> n mod 32 = 0 -> 0 <= n ->
  hstart l <= a -> a + n <= hend l -> hmapped l m -> v = 0 \/ v = 255 ->
  exists m', memset m (HEAP_INIT_SHADOW l a) v (n / 8) = Ret m' /\ dom m' = dom m /\ mem_ok m' /\
    (forall y, ~ in_hseg l HSecondary y -> m' !! y = m !! y) /\
    (forall x, hstart l <= x -> ibit l m' x = if decide (a <= x < a + n) then v =? 255 else ibit l m x).
Proof using Hh.
  intros Hm Ha Hn Hn0 H1 H2 Hmap Hv. destruct (Z.eqb_spec n 0) as [->|Hnz].
  { exists m. split_and!; [done..|]. intros x Hx. by rewrite decide_False by lia. }
  pose proof (hk_align l Hh) as [Hal _]. pose proof (heap_bounds l Hh) as (Hb0 & Hb1 & Hb2 & _).
  rewrite (heap_init_address l Hh a) by (unfold hon; lia).
  destruct (memset_spec m (hinit l + (a - hstart l) / 8) v (n / 8)) as (m' & -> & Hd & Hx); [dlia| |].
  { destruct Hmap as (_ & _ & Hmap). eapply accessible_sub; [exact Hmap|dlia|dlia]. }
  assert (u8 v = v) as Ev by (destruct Hv as [-> | ->]; done).
  exists m'. split_and!; [done|done| | |].
  - eapply mem_ok_pointwise; [exact Hm|]. intros x b. rewrite Hx. case_decide; [|auto].
    intros [= <-]. left. rewrite Ev. destruct Hv as [-> | ->]; split; by vm_compute.
  - intros y Hy. rewrite Hx. case_decide as Hin; [|done]. exfalso. apply Hy.
    pose proof (hinit_in (hstart l + 8 * (y - hinit l)) ltac:(unfold hon; dlia)) as Hi.
    replace (hinit l + (hstart l + 8 * (y - hinit l) - hstart l) / 8) with y in Hi by dlia. done.
  - intros x Hxs. unfold ibit, mbit. rewrite Hx. do 2 case_decide; try dlia; [|done].
    rewrite Ev. pose proof (Z.mod_pos_bound (x - hstart l) 8 ltac:(lia)).
    destruct Hv as [-> | ->]; cbn [Z.eqb Pos.eqb]; [apply Z.testbit_0_l|].
    change 255 with (Z.ones 8). apply Z.ones_spec_low. lia.
Qed.

Lemma ibit_frame m m' : (forall y, in_hseg l HSecondary y -> m' !! y = m !! y) ->
  forall x, hon l x -> ibit l m' x = ibit l m x.
Proof using Hh.
  intros H x Hx. unfold ibit, mbit. rewrite H; [done|]. by apply hinit_in.
Qed.
End Heap.

(** ** Operations *)

(** The segments of a new block of [n] bytes at [p] are in the heap, past its
    first segment, and meet no other block. *)
Definition new_alloc (l : memory_layout) (M : amem) (p n : Z) : Prop :=
  0 < n < max_allocated /\ p mod 32 = 0 /\ hstart l + 32 <= p /\ p + ALLOC_SIZE n < hend l /\
  forall a ab, M !! a = Some ab -> p + ALLOC_SIZE n <= a \/ a + ALLOC_SIZE (ab_size ab) <= p.

(** The time stamp that [set_heap_segment] stores with temporal analysis. *)
Definition store_stamp (cfg : config) (m : mem) (a t : Z) : outcome mem :=
  if cfg_temporal cfg then store64 m a t else Ret m.

Lemma stamp_stored cfg m a t : mem_ok m -> in_u 64 t -> accessible m a 8 ->
  exists m', store_stamp cfg m a t = Ret m' /\ dom m' = dom m /\ mem_ok m' /\
    (forall y, ~ (a <= y < a + 8) -> m' !! y = m !! y) /\
    (cfg_temporal cfg = true -> load64 m' a = Ret t).
Proof.
  intros Hm Ht Ha. unfold store_stamp. destruct (cfg_temporal cfg); [|by exists m].
  destruct (store_le_bytes 8 m a t) as (m' & E & D & X); [done|]. change (Z.of_nat 8) with 8 in X.
  exists m'. split_and!; [done|done|by eapply store_le_ok| |].
  - intros y Hy. rewrite X. by rewrite decide_False.
  - intros _. unfold load64. rewrite (load_store_le 8 m a t m' E). f_equal. by apply Z.mod_small.
Qed.

(** The shadows that [set_heap_segment] writes. *)
Lemma segment_written cfg l m M p n t : layout_ok l -> heap_ok l -> hmodels l m M -> new_alloc l M p n ->
  in_u 64 t ->
  exists m', (let* m := store64 m (hs l p + 8) n in
              let* m := store_stamp cfg m (hs l p + 16) t in
              for_range 0 (ALLOC_SIZE n / 32) (fun i m => store64 m (hs l p + i * HEAP_SEGMENT) p) m)
             = Ret m' /\ dom m' = dom m /\ mem_ok m' /\
    (forall j, 0 <= j < ALLOC_SIZE n / 32 -> load64 m' (hs l p + 32 * j) = Ret p) /\
    load64 m' (hs l p + 8) = Ret n /\
    (forall y, ~ (hs l p <= y < hs l p + ALLOC_SIZE n) -> m' !! y = m !! y) /\
    (cfg_temporal cfg = true -> load64 m' (hs l p + 16) = Ret t).
Proof.
  intros Hl Hh HM (Hn & Hp & H1 & H2 & _) Ht. destruct (alloc_size_spec n ltac:(lia)) as (Ha & Hb & Hc).
  pose proof (heap_bounds l Hh) as (Hb0 & Hb1 & Hb2 & _).
  assert (accessible m (hs l p) (ALLOC_SIZE n)) as Hacc.
  { destruct (hm_mapped _ _ _ HM) as (_ & Hm & _). eapply accessible_sub; [exact Hm|unfold hs; lia..]. }
  unfold store64 at 1. destruct (store_le_bytes 8 m (hs l p + 8) n) as (m1 & E1 & D1 & X1).
  { eapply accessible_sub; [exact Hacc|dlia|dlia]. }
  rewrite E1. cbn [obind]. change (Z.of_nat 8) with 8 in X1.
  assert (mem_ok m1) as Ok1 by (eapply store_le_ok; [apply (hm_ok _ _ _ HM)|exact E1]).
  destruct (stamp_stored cfg m1 (hs l p + 16) t) as (m1' & -> & D1' & Ok1' & Hy1 & Hst); [done|done| |].
  { eapply accessible_dom; [exact D1|]. eapply accessible_sub; [exact Hacc|dlia|dlia]. }
  cbn [obind].
  destruct (write_bases m1' (hs l p) p (ALLOC_SIZE n / 32)) as (m2 & E & D2 & Hok2 & Hj & Hy).
  { done. } { unfold in_u. lia. } { dlia. }
  { eapply accessible_dom; [rewrite D1'; exact D1|]. eapply accessible_sub; [exact Hacc|lia|dlia]. }
  exists m2. split_and!; [done|congruence|done|done| | |].
  - unfold load64. rewrite (load_le_bytes 8 m2 _ n).
    + f_equal. apply Z.mod_small. change max_allocated with (2 ^ 64 - 32) in Hn. simpl. lia.
    + intros j Hj'. rewrite Hy, Hy1, X1, decide_True by (lia || dlia || (right; dlia)). do 2 f_equal. lia.
  - intros y Hy'. rewrite Hy, Hy1, X1, decide_False; [done|dlia|dlia|left; dlia].
  - intros E'. rewrite <- (Hst E'). apply load_le_frame. intros y Hy'. change (Z.of_nat 8) with 8 in Hy'.
    apply Hy. right. dlia.
Qed.

Section Model.
Context `{PB : !PublicAlloc} (cfg : config) (Htemp : cfg_temporal cfg = false).

(** The parts of a state that the operations on the heap rely on. *)
Record state_ok (st : state) : Prop := mk_state_ok {
  so_layout : layout_ok (st_layout st);
  so_heap : heap_ok (st_layout st);
  so_init : ly_is_initialized (st_layout st) = true;
  so_ready : mspaces_ready st = true;
  so_end : heap_end (st_spaces st) = hend (st_layout st);
  so_least : heap_mspace_least (st_spaces st) = mspace_least_addr (st_pub st)
}.

Lemma debug_pass b A (k : outcome A) : b = true -> (let* _ := DASSERT cfg b in k) = k.
Proof. intros ->. unfold DASSERT. by destruct (cfg_debug cfg). Qed.

Lemma heap_nullified l m M p n : heap_ok l -> hmodels l m M -> new_alloc l M p n ->
  DVALIDATE_NULLIFIED cfg m (hs l p) (ALLOC_SIZE n) = Ret tt.
Proof.
  intros Hh HM (Hn & Hp & H1 & H2 & Hf). unfold DVALIDATE_NULLIFIED, dcheck.
  destruct (alloc_size_spec n ltac:(lia)) as (Ha & Hb & Hc).
  pose proof (heap_bounds l Hh) as (Hb0 & Hb1 & Hb2 & _).
  destruct (cfg_debug cfg); [|done].
  destruct (zeroed_out_spec m (hs l p) (ALLOC_SIZE n)) as (z & -> & _ & Hz); [lia| |].
  { destruct (hm_mapped _ _ _ HM) as (_ & Hm & _). eapply accessible_sub; [exact Hm|unfold hs; lia..]. }
  cbn [obind]. assert (z = 1) as ->; [|done]. apply Hz. intros y Hy.
  replace y with (hs l (p + (y - hs l p))) by (rewrite hs_plus; lia).
  apply (hm_free _ _ _ HM); [unfold hon; lia|]. intros a ab E Hin.
  destruct (Hf a ab E); unfold in_alloc in Hin; lia.
Qed.

Definition new_heap_block (n init : Z) : ablock :=
  mk_ablock n (if i2b init then all_offsets n else ∅) false true.

(** The memory of a block that is set up, with or without initialization. *)
Lemma heap_block_created l m m1 M p n init : layout_ok l -> heap_ok l -> hmodels l m M ->
  new_alloc l M p n -> dom m1 = dom m -> mem_ok m1 ->
  (forall j, 0 <= j < ALLOC_SIZE n / 32 -> load64 m1 (hs l p + 32 * j) = Ret p) ->
  load64 m1 (hs l p + 8) = Ret n ->
  (forall y, ~ (hs l p <= y < hs l p + ALLOC_SIZE n) -> m1 !! y = m !! y) ->
  exists m2, (if i2b init then memset m1 (HEAP_INIT_SHADOW l p) (u32 ONE) (ALLOC_SIZE n / 8)
              else Ret m1) = Ret m2 /\
    hmodels l m2 (<[p := new_heap_block n init]> M) /\ heap_touch l m m2 /\
    (forall y, in_hseg l HPrimary y -> m2 !! y = m1 !! y).
Proof.
  clear Htemp. intros Hl Hh HM (Hn & Hp & H1 & H2 & Hf) D1 Ok1 Hj Hlen Hout.
  destruct (alloc_size_spec n ltac:(lia)) as (Ha & Hb & Hc).
  assert (hmapped l m1) as Hmap1.
  { destruct (hm_mapped _ _ _ HM) as (? & ? & ?). split_and!; by eapply accessible_dom. }
  assert (forall y, ~ in_hseg l HPrimary y -> m1 !! y = m !! y) as Hout1.
  { intros y Hy. apply Hout. intros Hin. apply Hy.
    replace y with (hs l (p + (y - hs l p))) by (rewrite hs_plus; lia).
    apply hs_in; [done|]. unfold hon. lia. }
  assert (exists m2, (if i2b init then memset m1 (HEAP_INIT_SHADOW l p) (u32 ONE) (ALLOC_SIZE n / 8)
              else Ret m1) = Ret m2 /\ dom m2 = dom m1 /\ mem_ok m2 /\
    (forall y, ~ in_hseg l HSecondary y -> m2 !! y = m1 !! y) /\
    (forall x, hon l x -> ibit l m2 x = if decide (p <= x < p + ALLOC_SIZE n) then i2b init else ibit l m x))
    as (m2 & E2 & D2 & Ok2 & X2 & I2).
  { assert (forall x, hon l x -> ibit l m1 x = ibit l m x) as Hi1.
    { apply ibit_frame; [done|]. intros y Hy. apply Hout1. intros Hy'.
      by pose proof (hsegments_apart l Hl _ _ _ Hy Hy'). }
    destruct (i2b init).
    - destruct (init_memset l Hh m1 p (ALLOC_SIZE n) 255) as (m2 & E2 & D2 & Ok2 & X2 & I2);
        [done|done|done|lia|lia|lia|done|auto|].
      exists m2. split_and!; [exact E2|done..|]. intros x Hx. rewrite I2 by apply Hx.
      case_decide; [done|by apply Hi1].
    - exists m1. split_and!; [done..|]. intros x Hx. rewrite Hi1 by done. case_decide as Hin; [|done].
      apply (hm_free _ _ _ HM); [done|]. intros a ab E Hin'. destruct (Hf a ab E); unfold in_alloc in Hin'; lia. }
  exists m2. split; [done|].
  assert (forall y, in_hseg l HPrimary y -> m2 !! y = m1 !! y) as Hprim.
  { intros y Hy. apply X2. intros Hy'. by pose proof (hsegments_apart l Hl _ _ _ Hy Hy'). }
  split; [|split; [split; [congruence|intros y Hy; by rewrite X2, Hout1 by apply Hy]|done]].
  apply (hmodels_insert l Hh m m2 M p); cbn [ab_size new_heap_block]; try done.
  - constructor; cbn [ab_size ab_freeable ab_readonly new_heap_block]; try done; [lia| | |].
    + intros j Hj'. rewrite <- (Hj j Hj'). apply load_le_frame. intros y Hy. apply Hprim.
      replace y with (hs l (p + (y - hs l p))) by (rewrite hs_plus; lia).
      apply hs_in; [done|]. unfold hon. dlia.
    + rewrite <- Hlen. apply load_le_frame. intros y Hy. apply Hprim.
      replace y with (hs l (p + (y - hs l p))) by (rewrite hs_plus; lia).
      apply hs_in; [done|]. unfold hon. dlia.
    + intros i Hi. rewrite I2 by (unfold hon; lia). rewrite decide_True by lia.
      cbn [ab_init new_heap_block]. symmetry. destruct (i2b init).
      * apply bool_decide_eq_true, elem_all_offsets. lia.
      * apply bool_decide_eq_false. set_solver.
  - congruence.
  - unfold in_alloc. cbn [ab_size new_heap_block]. split; intros x Hx Hno.
    + rewrite Hprim by (by apply hs_in). apply Hout. unfold hs. lia.
    + rewrite I2 by done. by rewrite decide_False by done.
  - intros a ab E _. apply (Hf a ab E).
  - intros ab E. destruct (Hf p ab E); pose proof (block_facts l Hh m M HM p ab E); lia.
Qed.

(** The time stamp after an allocation. *)
Definition next_stamp (ts : Z) : Z := if cfg_temporal cfg then NEW_TEMPORAL_TIMESTAMP ts else ts.

Lemma set_heap_segment_refines st M p n init : state_ok st ->
  hmodels (st_layout st) (st_mem st) M -> new_alloc (st_layout st) M p n ->
  exists m', set_heap_segment cfg st p n (ALLOC_SIZE n) init =
      Ret (set_timestamp (set_mem (set_stats st (update_heap_allocation (st_stats st) (s64 n))) m')
             (next_stamp (temporal_timestamp st))) /\
    hmodels (st_layout st) m' (<[p := new_heap_block n init]> M) /\
    heap_touch (st_layout st) (st_mem st) m' /\
    (forall x, hon (st_layout st) x -> ~ (p <= x < p + ALLOC_SIZE n) ->
       m' !! hs (st_layout st) x = st_mem st !! hs (st_layout st) x) /\
    (cfg_temporal cfg = true ->
       load64 m' (hs (st_layout st) p + 16) = Ret (NEW_TEMPORAL_TIMESTAMP (temporal_timestamp st))).
Proof.
  clear Htemp. intros Hst HM Hnew. pose proof (so_layout _ Hst) as Hl. pose proof (so_heap _ Hst) as Hh.
  pose proof Hnew as (Hn & Hp & H1 & H2 & _). destruct (alloc_size_spec n ltac:(lia)) as (Ha & Hb & Hc).
  pose proof (heap_bounds _ Hh) as (Hb0 & Hb1 & Hb2 & _).
  assert (hon (st_layout st) p) as Hon by (unfold hon; lia).
  unfold set_heap_segment, DVALIDATE_MEMORY_INIT, DVALIDATE_IS_ON_HEAP, DVALIDATE_ALIGNMENT.
  rewrite (so_least _ Hst), Z.eqb_refl, (so_end _ Hst). cbn [vassert obind].
  rewrite (u64_small (p + ALLOC_SIZE n)) by (unfold in_u; lia).
  rewrite (proj2 (Z.ltb_lt (p + ALLOC_SIZE n) _)) by lia. cbn [vassert obind].
  rewrite debug_pass by apply (so_init _ Hst). unfold HEAP_SEGMENT.
  rewrite (u64_small (p - 32)) by (unfold in_u; lia).
  rewrite (u64_small (p - 32 + n)) by (unfold in_u; lia).
  rewrite (debug_pass (IS_ON_HEAP (st_layout st) (p - 32))) by (apply hon_IS_ON; unfold hon; lia).
  rewrite (debug_pass (IS_ON_HEAP (st_layout st) (p - 32 + n))) by (apply hon_IS_ON; unfold hon; lia).
  rewrite (debug_pass (p mod 32 =? 0)) by (by rewrite Hp).
  cbn [st_mem set_stats st_layout]. rewrite (heap_shadow_address _ Hh p Hon).
  rewrite (heap_nullified _ _ M p n Hh HM Hnew). cbn [obind].
  set (t := NEW_TEMPORAL_TIMESTAMP (temporal_timestamp st)).
  assert (in_u 64 t) as Hu.
  { assert (in_u 32 t) by (apply Z.mod_pos_bound; lia). unfold in_u in *. lia. }
  destruct (segment_written cfg _ _ M p n t Hl Hh HM Hnew Hu) as (m1 & E1 & D1 & Ok1 & Hj & Hlen & Hout & Hstamp).
  unfold HEAP_SEGMENT in E1.
  destruct (heap_block_created _ _ m1 M p n init Hl Hh HM Hnew D1 Ok1 Hj Hlen Hout)
    as (m2 & E2 & HM2 & Htouch & Hprim).
  exists m2. split; [|split_and!; [done|done| |]].
  - destruct (store64 (st_mem st) (hs (st_layout st) p + 8) n) as [m0| | |] eqn:E0; try done.
    cbn [obind] in E1 |- *. cbn [st_mem set_mem set_stats]. unfold next_stamp. unfold store_stamp in E1.
    destruct (cfg_temporal cfg).
    + cbn [temporal_timestamp set_mem set_stats]. fold t.
      destruct (store64 m0 (hs (st_layout st) p + 16) t); try done. cbn [obind st_mem set_timestamp set_mem] in E1 |- *.
      rewrite E1. cbn [obind]. by rewrite E2.
    + cbn [obind st_mem set_mem] in E1 |- *. rewrite E1. cbn [obind]. by rewrite E2.
  - intros x Hx Hno. rewrite Hprim by (by apply hs_in). apply Hout. unfold hs. lia.
  - intros E. rewrite <- (Hstamp E). apply load_le_frame. intros y Hy. change (Z.of_nat 8) with 8 in Hy.
    apply Hprim. replace y with (hs (st_layout st) (p + (y - hs (st_layout st) p))) by (rewrite hs_plus; lia).
    apply hs_in; [done|]. unfold hon. dlia.
Qed.

Lemma predicate_heap l m x t : hon l x -> predicate cfg l m x t = heap_info cfg l m x t.
Proof. intros Hx. unfold predicate, try_segment. by rewrite (hon_IS_ON l x Hx). Qed.

(** The debug check of a block that is freed. *)
Lemma freeable_passes st M p ab : heap_ok (st_layout st) -> hmodels (st_layout st) (st_mem st) M ->
  M !! p = Some ab -> DVALIDATE_FREEABLE cfg st p = Ret tt.
Proof.
  clear Htemp. intros Hh HM E. set (l := st_layout st) in *.
  pose proof (block_facts l Hh (st_mem st) M HM p ab E) as (Hn & Hp & H1 & H2 & Ha & Hb & Hu & _).
  assert (hon l p) as Hon by (unfold hon; lia).
  assert (contains M p p ab) as Hin by (split; [done|left; lia]).
  unfold DVALIDATE_FREEABLE, _base_addr, dcheck. fold l. rewrite debug_pass by (by apply hon_IS_ON).
  destruct (cfg_debug cfg); [|done]. rewrite predicate_heap by done.
  destruct (heap_info_exact l Hh cfg _ M HM p p ab Hon Hin) as (-> & _). cbn [obind]. by rewrite Z.eqb_refl.
Qed.

Lemma unset_heap_segment_refines st M p ab : state_ok st ->
  hmodels (st_layout st) (st_mem st) M -> M !! p = Some ab ->
  exists m', unset_heap_segment cfg st p 1 =
      Ret (set_mem (set_stats st (mk_stats (u64 (heap_allocation_size (st_stats st) - ab_size ab))
                                    (heap_allocated_blocks (st_stats st)))) m') /\
    hmodels (st_layout st) m' (delete p M) /\ heap_touch (st_layout st) (st_mem st) m' /\
    (forall x, hon (st_layout st) x -> ~ in_alloc p ab x ->
       m' !! hs (st_layout st) x = st_mem st !! hs (st_layout st) x).
Proof using Htemp.
  intros Hst HM E. pose proof (so_layout _ Hst) as Hl. pose proof (so_heap _ Hst) as Hh.
  set (l := st_layout st) in *. set (m := st_mem st) in *.
  pose proof (block_facts l Hh m M HM p ab E) as (Hn & Hp & H1 & H2 & Ha & Hb & Hu & _).
  assert (hon l p) as Hon by (unfold hon; lia).
  unfold unset_heap_segment, DVALIDATE_MEMORY_INIT. fold l m.
  rewrite debug_pass by apply (so_init _ Hst).
  rewrite (freeable_passes st M p ab) by done. cbn [obind]. rewrite (heap_shadow_address l Hh p Hon).
  rewrite (hb_length _ _ _ _ (hm_block _ _ _ HM _ _ E)). cbn [obind].
  destruct (memset_spec m (hs l p) ZERO (ALLOC_SIZE (ab_size ab))) as (m1 & -> & D1 & X1); [lia| |].
  { destruct (hm_mapped _ _ _ HM) as (_ & Hm & _). eapply accessible_sub; [exact Hm|unfold hs; lia..]. }
  cbn [obind]. rewrite Htemp. cbn [obind i2b Z.eqb negb].
  assert (mem_ok m1) as Ok1.
  { eapply mem_ok_pointwise; [apply (hm_ok _ _ _ HM)|]. intros x b. rewrite X1. case_decide; [|auto].
    intros [= <-]. left. split; by vm_compute. }
  assert (hmapped l m1) as Hmap1.
  { destruct (hm_mapped _ _ _ HM) as (? & ? & ?). split_and!; by eapply accessible_dom. }
  destruct (init_memset l Hh m1 p (ALLOC_SIZE (ab_size ab)) 0) as (m2 & -> & D2 & Ok2 & X2 & I2);
    [done|done|done|lia|lia|lia|done|auto|]. cbn [obind].
  assert (forall y, in_hseg l HPrimary y -> m2 !! y = m1 !! y) as Hprim.
  { intros y Hy. apply X2. intros Hy'. by pose proof (hsegments_apart l Hl _ _ _ Hy Hy'). }
  assert (forall y, ~ in_hseg l HPrimary y -> m1 !! y = m !! y) as Hout1.
  { intros y Hy. rewrite X1. case_decide as Hin'; [|done]. exfalso. apply Hy.
    replace y with (hs l (p + (y - hs l p))) by (rewrite hs_plus; lia).
    apply hs_in; [done|]. unfold hon. lia. }
  assert (forall x, hon l x -> ~ in_alloc p ab x -> m2 !! hs l x = m !! hs l x) as Hrest.
  { unfold in_alloc. intros x Hx Hno. rewrite Hprim by (by apply hs_in). rewrite X1.
    by rewrite decide_False by (unfold hs; lia). }
  exists m2. split; [done|]. split; [|split; [|done]].
  - apply (hmodels_delete l Hh m m2 M p ab); [done|done|done|congruence| |].
    + split; [by intros x Hx Hno; apply Hrest|unfold in_alloc; intros x Hx Hno].
      * rewrite I2 by apply Hx. rewrite decide_False by done. apply ibit_frame; [done| |done].
        intros y Hy. apply Hout1. intros Hy'. by pose proof (hsegments_apart l Hl _ _ _ Hy Hy').
    + unfold in_alloc. intros x Hx. split.
      * rewrite Hprim by (apply hs_in; [done|unfold hon; lia]). rewrite X1.
        by rewrite decide_True by (unfold hs; lia).
      * rewrite I2 by lia. by rewrite decide_True by done.
  - split; [congruence|]. intros y Hy. by rewrite X2, Hout1 by apply Hy.
Qed.

(** ** Initialization *)

(** The bits [lo .. hi - 1] of the init shadow have been set. *)
Definition bits_or (p : Z) (m m' : mem) (lo hi : Z) : Prop :=
  mem_ok m' /\ dom m' = dom m /\
  forall i, mbit m' p i = mbit m p i || bool_decide (lo <= i < hi).

Lemma mask_skip_spec set v skip : 0 <= set < 64 -> 0 <= skip < 8 -> in_u 8 v ->
  exists b, mask_skip set v skip = Ret b /\ in_u 8 b /\
    forall j, 0 <= j < 8 -> Z.testbit b j = Z.testbit v j || bool_decide (skip <= j < skip + set).
Proof.
  intros Hs Hk Hv. unfold mask_skip. rewrite (proj2 (Z.leb_le 0 set)), (proj2 (Z.ltb_lt set 64)) by lia.
  eexists. split; [done|]. unfold setbits64_skip. split; [apply Z.mod_pos_bound; lia|].
  intros j Hj. rewrite Z.mod_pow2_bits_low, Z.lor_spec by lia. f_equal.
  unfold shl64 at 1. rewrite testbit_u64, Z.shiftl_spec by lia.
  destruct (Z.ltb_spec (j - skip) 0) as [Hneg|Hpos].
  - rewrite Z.testbit_neg_r by lia. symmetry. apply bool_decide_eq_false. lia.
  - rewrite testbit_not64, testbit_shl64_ONE by lia.
    destruct (Z.leb_spec set (j - skip)); simpl; symmetry;
      [apply bool_decide_eq_false|apply bool_decide_eq_true]; lia.
Qed.

(** Setting the bits of one byte. *)
Lemma or_byte p m a b b' lo hi : mem_ok m -> m !! a = Some b -> in_u 8 b' ->
  (forall j, 0 <= j < 8 ->
     Z.testbit b' j = Z.testbit b j || bool_decide (lo <= 8 * (a - p) + j < hi)) ->
  8 * (a - p) <= lo -> hi <= 8 * (a - p) + 8 -> bits_or p m (<[a := b']> m) lo hi.
Proof.
  intros Hm Ea Hb Hj Hlo Hhi. split_and!.
  - by apply mem_ok_insert.
  - by apply dom_insert_lookup_L.
  - intros i. rewrite mbit_insert. case_decide as Ei.
    + pose proof (Z.mod_pos_bound i 8 ltac:(lia)). rewrite Hj by lia. unfold mbit. rewrite <- Ei, Ea.
      replace (8 * (a - p) + i mod 8) with i by dlia. done.
    + rewrite bool_decide_false by dlia. by rewrite orb_false_r.
Qed.

Lemma setbits_or p m k n : mem_ok m -> 0 < n -> in_u 64 n -> accessible m (p + k) (8 * (n / 64 + 1)) ->
  exists m', setbits (u64 n) m (p + k) = Ret m' /\ bits_or p m m' (8 * k) (8 * k + n).
Proof.
  intros Hm Hn Hu Ha. rewrite u64_small by done.
  destruct (setbits_spec n m (p + k)) as (m' & -> & Hok & Hd & Hb); [done|lia|done|].
  exists m'. split; [done|]. split_and!; [done..|]. intros i.
  specialize (Hb (i - 8 * k)). rewrite !mbit_shift in Hb.
  replace (8 * k + (i - 8 * k)) with i in Hb by lia. rewrite Hb.
  case_decide; [rewrite bool_decide_true by lia; by rewrite orb_true_r|].
  rewrite bool_decide_false by lia. by rewrite orb_false_r.
Qed.

Lemma bits_or_trans p m1 m2 m3 lo mid hi : lo <= mid <= hi ->
  bits_or p m1 m2 lo mid -> bits_or p m2 m3 mid hi -> bits_or p m1 m3 lo hi.
Proof.
  intros Hle (_ & D1 & H1) (Ok & D2 & H2). split_and!; [done|congruence|]. intros i.
  rewrite H2, H1, <- orb_assoc. f_equal.
  do 3 case_bool_decide; done || lia.
Qed.

(** The writes of [initialize_heap_region]. *)
Lemma init_region_bits l m x len : heap_ok l -> mem_ok m -> hmapped l m -> hon l x -> 0 < len ->
  x + len <= hend l ->
  let skip := u64 (x - HEAP_START l) mod 8 in
  exists m', (let* (len, shadow, m) :=
      if negb (skip =? 0) then
        let set := 8 - skip in
        let set := s16 (if set <? len then set else len) in
        let len := len - set in
        let* b := load8 m (HEAP_INIT_SHADOW l x) in
        let* b := mask_skip set b skip in
        let* m := store8 m (HEAP_INIT_SHADOW l x) b in
        Ret (len, HEAP_INIT_SHADOW l x + 1, m)
      else Ret (len, HEAP_INIT_SHADOW l x, m) in
    if 0 <? len then setbits (u64 len) m shadow else Ret m) = Ret m' /\
    bits_or (hinit l) m m' (x - hstart l) (x - hstart l + len).
Proof.
  intros Hh Hm Hmap Hx Hlen Hle skip. pose proof (heap_bounds l Hh) as (Hb0 & Hb1 & _).
  pose proof Hx as [Hx0 Hx1]. unfold HEAP_START in skip. fold (hstart l) in skip.
  rewrite (heap_init_address l Hh x Hx). set (k := x - hstart l) in *.
  assert (skip = k mod 8) as -> by (unfold skip, k; rewrite u64_small by (unfold in_u; lia); done).
  destruct Hmap as (_ & _ & Hacc).
  destruct (Z.eqb_spec (k mod 8) 0) as [Hk|Hk]; cbn [negb obind].
  - rewrite (proj2 (Z.ltb_lt 0 len)) by lia.
    destruct (setbits_or (hinit l) m (k / 8) len) as (m' & -> & H); [done|done|unfold in_u; lia| |].
    { eapply accessible_sub; [exact Hacc|unfold k; dlia|unfold k; dlia]. }
    exists m'. split; [done|]. by replace (8 * (k / 8)) with k in H by dlia.
  - pose proof (Z.mod_pos_bound k 8 ltac:(lia)) as Hk8.
    set (set := if 8 - k mod 8 <? len then 8 - k mod 8 else len). cbv zeta.
    assert (0 < set <= 8 - k mod 8 /\ set <= len /\ (len - set <= 0 -> set = len) /\
      (0 < len - set -> set = 8 - k mod 8)) as Hset
      by (unfold set; destruct (Z.ltb_spec (8 - k mod 8) len); lia).
    assert (s16 set = set) as -> by (unfold s16; rewrite Z.mod_small; lia).
    destruct (Hacc (hinit l + k / 8)) as [b Eb]; [unfold k; dlia|].
    rewrite (load8_ok _ _ _ Eb). cbn [obind].
    destruct (mask_skip_spec set b (k mod 8)) as (b' & -> & Hb' & Hj); [lia|lia|by eapply mem_ok_lookup|].
    cbn [obind]. rewrite store8_spec by eauto. cbn [obind]. rewrite u8_small by done.
    assert (bits_or (hinit l) m (<[hinit l + k / 8 := b']> m) k (k + set)) as H1.
    { apply (or_byte _ _ _ b); [done|done|done| |dlia|dlia]. intros j Hj'. rewrite Hj by done.
      f_equal. apply bool_decide_ext. dlia. }
    destruct (Z.ltb_spec 0 (len - set)).
    + pose proof H1 as (Ok1 & D1 & _).
      destruct (setbits_or (hinit l) (<[hinit l + k / 8 := b']> m) (k / 8 + 1) (len - set)) as (m' & E & H2);
        [done|lia|unfold in_u; lia| |].
      { eapply accessible_dom; [exact D1|]. eapply accessible_sub; [exact Hacc|unfold k; dlia|unfold k; dlia]. }
      replace (hinit l + (k / 8 + 1)) with (hinit l + k / 8 + 1) in E by lia. rewrite E.
      exists m'. split; [done|]. eapply (bits_or_trans _ _ _ _ k (k + set)); [lia|exact H1|].
      replace (8 * (k / 8 + 1)) with (k + set) in H2 by dlia.
      by replace (k + set + (len - set)) with (k + len) in H2 by lia.
    + eexists. split; [done|]. by replace (k + len) with (k + set) by lia.
Qed.

Lemma bits_or_outside l m m' lo hi y : heap_ok l -> mem_ok m -> bits_or (hinit l) m m' lo hi ->
  0 <= lo -> hi <= hend l - hstart l -> ~ in_hseg l HSecondary y -> m' !! y = m !! y.
Proof.
  intros Hh Hm (Ok & D & Hb) Hlo Hhi Hy. apply (byte_ext m m' (hinit l)); [done..|]. intros i Hi.
  rewrite Hb, bool_decide_false; [by rewrite orb_false_r|]. intros Hin. apply Hy.
  pose proof (heap_bounds l Hh) as (Hb0 & _ & _).
  pose proof (hinit_in l Hh (hstart l + (8 * (y - hinit l) + i)) ltac:(unfold hon; lia)) as Hs.
  by replace (hinit l + (hstart l + (8 * (y - hinit l) + i) - hstart l) / 8) with y in Hs by dlia.
Qed.

Lemma heap_bounds_pass l m M x a ab size : heap_ok l -> hmodels l m M -> hon l x ->
  contains M x a ab -> 0 <= size -> x + size <= a + ab_size ab ->
  DVALIDATE_BOUNDS cfg l m x size = Ret tt.
Proof.
  intros Hh HM Hx Hin Hs Hle. unfold DVALIDATE_BOUNDS, dcheck, _base_addr, _block_length.
  destruct (cfg_debug cfg); [|done]. rewrite !predicate_heap by done.
  destruct (heap_info_exact l Hh cfg m M HM x a ab Hx Hin) as (-> & _ & ->). cbn [obind].
  pose proof (block_facts l Hh m M HM a ab (proj1 Hin)). destruct Hin as [_ Hc]. unfold covers in Hc.
  rewrite u64_small by (unfold in_u; lia).
  by rewrite (proj2 (Z.ltb_ge (ab_size ab) (x - a + size))) by lia.
Qed.

Lemma initialize_heap_refines l m M x a ab len : layout_ok l -> heap_ok l -> hmodels l m M ->
  hon l x -> contains M x a ab -> 0 < len < 2 ^ 63 -> x + len <= a + ab_size ab ->
  exists m', initialize_heap_region cfg l m x len = Ret m' /\
    hmodels l m' (<[a := mk_ablock (ab_size ab) (ab_init ab ∪ offsets (x - a) (x - a + len))
                          (ab_readonly ab) true]> M) /\ heap_touch l m m' /\
    (forall x', hon l x' -> m' !! hs l x' = m !! hs l x').
Proof.
  intros Hl Hh HM Hx Hin Hlen Hle. pose proof Hin as [E Hc].
  pose proof (block_facts l Hh m M HM a ab E) as (Hn & Ha & H1 & H2 & _ & Hal & Hu & _).
  unfold covers in Hc. unfold initialize_heap_region.
  rewrite (heap_access_passes l Hh cfg m M HM x a ab) by (done || lia). cbn [obind].
  rewrite (heap_bounds_pass l m M x a ab) by (done || lia). cbn [obind].
  destruct (init_region_bits l m x len Hh (hm_ok _ _ _ HM) (hm_mapped _ _ _ HM) Hx) as (m' & E1 & Hor);
    [lia|lia|].
  assert (forall y, ~ in_hseg l HSecondary y -> m' !! y = m !! y) as Hout.
  { intros y. apply (bits_or_outside l m m' _ _ y Hh (hm_ok _ _ _ HM) Hor); lia. }
  destruct Hor as (Ok & D & Hor). exists m'. split; [exact E1|].
  assert (forall x', hon l x' -> m' !! hs l x' = m !! hs l x') as Hprim.
  { intros x' Hx'. apply Hout. intros Hy. pose proof (hs_in l Hh x' Hx') as Hy'.
    by pose proof (hsegments_apart l Hl _ _ _ Hy Hy'). }
  assert (forall x', ibit l m' x' = ibit l m x' || bool_decide (x <= x' < x + len)) as Hi.
  { intros x'. unfold ibit. rewrite Hor. f_equal. apply bool_decide_ext. lia. }
  pose proof (hm_block _ _ _ HM _ _ E) as Hb.
  split; [|split; [split; [done|intros y Hy; apply Hout, Hy]|done]].
  apply (hmodels_insert l Hh m m' M a); cbn [ab_size]; try done.
  - destruct (hblock_words l Hh m m' a ab) as [Hw1 Hw2]; [intros x' Hx' _; by apply Hprim|done|].
    destruct Hb as [Hb1 Hb2 Hb3 Hb4 Hb5 _ _ Hb6].
    constructor; cbn [ab_size ab_freeable ab_readonly ab_init]; try done.
    intros i Hi'. rewrite Hi, (Hb6 i Hi').
    rewrite <- bool_decide_or. apply bool_decide_ext. rewrite elem_of_union, elem_offsets.
    split; intros [|]; auto; right; lia.
  - unfold in_alloc. cbn [ab_size]. split; [intros x' Hx' _; by apply Hprim|].
    intros x' Hx' Hno. rewrite Hi, bool_decide_false by lia. by rewrite orb_false_r.
  - intros a' ab' E' Hne. destruct (Z.lt_ge_cases a a').
    + left. by apply (hm_disj _ _ _ HM a ab a' ab').
    + right. apply (hm_disj _ _ _ HM a' ab' a ab); [done..|lia].
  - intros ab' E'. congruence.
Qed.
End Model.
