(* ===== verification/SegTrace.v ===== *)
(** * The shadow memory model refines the abstract memory

    A state of the shadow memory model represents an abstract memory when its
    static shadows represent the blocks that are not freeable, and its heap
    shadows the others.  Every operation of the model is a step of the abstract
    memory. *)

From S2P Require Import Prelude AMem Alloc Temporal Bits Mask CString Shadow Segment SegModel SegStatic SegHeap.

(** ** The representation of an abstract memory *)

Definition static_part (M : amem) : amem := filter (fun x => ab_freeable x.2 = false) M.
Definition heap_part (M : amem) : amem := filter (fun x => ab_freeable x.2 = true) M.

Lemma static_part_lookup M a ab : static_part M !! a = Some ab <->
  M !! a = Some ab /\ ab_freeable ab = false.
Proof. unfold static_part. by rewrite map_lookup_filter_Some. Qed.
Lemma heap_part_lookup M a ab : heap_part M !! a = Some ab <->
  M !! a = Some ab /\ ab_freeable ab = true.
Proof. unfold heap_part. by rewrite map_lookup_filter_Some. Qed.

(** Changing a block of one part leaves the other one alone. *)
Lemma static_part_insert M a ab : ab_freeable ab = false ->
  static_part (<[a := ab]> M) = <[a := ab]> (static_part M).
Proof. intros H. unfold static_part. by apply map_filter_insert_True. Qed.
Lemma heap_part_insert M a ab : ab_freeable ab = true ->
  heap_part (<[a := ab]> M) = <[a := ab]> (heap_part M).
Proof. intros H. unfold heap_part. by apply map_filter_insert_True. Qed.
Lemma static_part_other M a ab : ab_freeable ab = true ->
  (forall ab', M !! a = Some ab' -> ab_freeable ab' = true) ->
  static_part (<[a := ab]> M) = static_part M.
Proof.
  intros H H'. unfold static_part. rewrite map_filter_insert_False by (simpl; congruence).
  rewrite map_filter_delete_not; [done|]. intros ab' E. simpl. rewrite (H' ab' E). done.
Qed.
Lemma heap_part_other M a ab : ab_freeable ab = false ->
  (forall ab', M !! a = Some ab' -> ab_freeable ab' = false) ->
  heap_part (<[a := ab]> M) = heap_part M.
Proof.
  intros H H'. unfold heap_part. rewrite map_filter_insert_False by (simpl; congruence).
  rewrite map_filter_delete_not; [done|]. intros ab' E. simpl. rewrite (H' ab' E). done.
Qed.
Lemma static_part_delete M a : static_part (delete a M) = delete a (static_part M).
Proof. apply map_filter_delete. Qed.
Lemma heap_part_delete M a : heap_part (delete a M) = delete a (heap_part M).
Proof. apply map_filter_delete. Qed.

(** A block that is not in a part. *)
Lemma static_part_absent M a ab : M !! a = Some ab -> ab_freeable ab = true -> static_part M !! a = None.
Proof. intros E H. apply map_lookup_filter_None. right. intros ab' E'. simpl. naive_solver congruence. Qed.
Lemma heap_part_absent M a ab : M !! a = Some ab -> ab_freeable ab = false -> heap_part M !! a = None.
Proof. intros E H. apply map_lookup_filter_None. right. intros ab' E'. simpl. naive_solver congruence. Qed.

Section Frame.
Context (l : memory_layout) (Hl : layout_ok l) (Hh : heap_ok l).

(** Operations on static blocks leave the heap shadows alone, and conversely. *)
Lemma hmodels_static_touch m m' M : static_touch l m m' -> mem_ok m' -> hmodels l m M -> hmodels l m' M.
Proof using Hl Hh.
  intros [Hd (s & a & n & Hn & Ho)] Hok HM.
  assert (forall r y, in_hseg l r y -> m' !! y = m !! y) as Hy.
  { intros r y Hy. assert (forall r', ~ (sh l r' s a <= y < sh l r' s a + n)) as Hne.
    { intros r' Hin. apply (hsegment_static l Hl r r' s (a + (y - sh l r' s a)) y Hy).
      - apply (home_on l s a n); [done|lia].
      - rewrite sh_plus. lia. }
    apply Ho; apply Hne. }
  eapply (hmodels_frame l Hh); [done|exact Hd| |done]. split; intros x Hx _.
  - apply (Hy HPrimary). by apply hs_in.
  - apply (ibit_frame l Hh); [|done]. intros y. apply (Hy HSecondary).
Qed.

Lemma smodels_frame m m' M : dom m' = dom m -> mem_ok m' ->
  (forall r s x, on l s x -> m' !! sh l r s x = m !! sh l r s x) -> smodels l m M -> smodels l m' M.
Proof.
  intros Hd Hok Hy HM. constructor.
  - done.
  - intros r s. eapply accessible_dom; [exact Hd|]. apply (sm_mapped _ _ _ HM).
  - intros a ab E. destruct (sm_block _ _ _ HM _ _ E) as (s & Hn & Hs & Hf & Hr & He).
    exists s. split_and!; [done..|]. eapply encoded_frame; [|exact He]. intros x [Hx|Hx].
    + replace x with (sh l Primary s (a + (x - sh l Primary s a))) by (rewrite sh_plus; lia).
      apply Hy, (home_on l s a (ab_size ab)); [done|lia].
    + replace x with (sh l Secondary s (a + (x - sh l Secondary s a))) by (rewrite sh_plus; lia).
      apply Hy, (home_on l s a (ab_size ab)); [done|lia].
  - apply (sm_disj _ _ _ HM).
  - intros r s x Hx Hno. rewrite Hy by done. by apply (sm_free _ _ _ HM).
Qed.

Lemma smodels_heap_touch m m' M : heap_touch l m m' -> mem_ok m' -> smodels l m M -> smodels l m' M.
Proof using Hl.
  intros [Hd Hy] Hok. apply smodels_frame; [done..|]. intros r s x Hx. apply Hy. intros r' Hin.
  by apply (hsegment_static l Hl r' r s x _ Hin Hx).
Qed.
End Frame.

(** ** Runs *)

Section Runs.
Context `{PB : !PublicAlloc} (cfg : config) (pg : program) (Htemp : cfg_temporal cfg = false).

Record seg_models (st : state) (M : amem) : Prop := mk_seg_models {
  gm_state : state_ok st;
  gm_static : smodels (st_layout st) (st_mem st) (static_part M);
  gm_heap : hmodels (st_layout st) (st_mem st) (heap_part M);
  gm_bytes : heap_allocation_size (st_stats st) = u64 (heap_bytes M)
}.

Definition run_op (st : state) (o : op) : outcome state :=
  match o with
  | OStore p sz => let* (_, st) := store_block cfg st p sz in Ret st
  | ODelete p => delete_block cfg st p
  | OInitialize p sz => initialize cfg st p sz
  | OFullInit p => full_init cfg st p
  | OMarkReadonly p => mark_readonly cfg st p
  | OMalloc sz => let* (_, st) := malloc cfg pg st sz in Ret st
  | OCalloc n k => let* (_, st) := calloc cfg pg st n k in Ret st
  | OFree p => free cfg st p
  end.

Fixpoint run (st : state) (ops : list op) : outcome state :=
  match ops with
  | [] => Ret st
  | o :: ops => let* st := run_op st o in run st ops
  end.

(** The new state differs in its memory, its counters and its allocator only. *)
Definition kept (st st' : state) (p : pub) : Prop :=
  st_pub st' = p /\ st_layout st' = st_layout st /\ st_spaces st' = st_spaces st.

(** What the operations change in the shadows.  Those on initialization leave the base
    addresses and the time stamps of the heap alone, as well as the last time stamp. *)
Definition metadata_touch (l : memory_layout) (m m' : mem) : Prop :=
  static_touch l m m' \/ heap_touch l m m' /\ forall x, hon l x -> m' !! hs l x = m !! hs l x.

Definition quiet (st st' : state) : Prop :=
  metadata_touch (st_layout st) (st_mem st) (st_mem st') /\
  temporal_timestamp st' = temporal_timestamp st.

(** A heap block of [n] bytes has been recorded at [p]: the shadows of its segments have
    changed, and with temporal analysis they hold a new time stamp. *)
Definition recorded (st st' : state) (p n : Z) : Prop :=
  let l := st_layout st in
  heap_touch l (st_mem st) (st_mem st') /\
  (forall x, hon l x -> ~ (p <= x < p + ALLOC_SIZE n) -> st_mem st' !! hs l x = st_mem st !! hs l x) /\
  temporal_timestamp st' = next_stamp cfg (temporal_timestamp st) /\
  (cfg_temporal cfg = true ->
     load64 (st_mem st') (hs l p + 16) = Ret (NEW_TEMPORAL_TIMESTAMP (temporal_timestamp st))).

Definition alloc_effect (st st' : state) (res n : Z) : Prop :=
  if res =? NULL then st_mem st' = st_mem st /\ temporal_timestamp st' = temporal_timestamp st
  else recorded st st' res n.

(** A new memory of a state, and new counters. *)
Lemma state_ok_timestamp st t : state_ok st -> state_ok (set_timestamp st t).
Proof. intros []. by constructor. Qed.
Lemma state_ok_mem st m : state_ok st -> state_ok (set_mem st m).
Proof. intros []. by constructor. Qed.
Lemma state_ok_stats st s : state_ok st -> state_ok (set_stats st s).
Proof. intros []. by constructor. Qed.

Lemma seg_models_static st M M' m' : seg_models st M -> static_touch (st_layout st) (st_mem st) m' ->
  smodels (st_layout st) m' (static_part M') -> heap_part M' = heap_part M ->
  heap_bytes M' = heap_bytes M -> seg_models (set_mem st m') M'.
Proof.
  intros [Hst Hs Hh Hb] Ht Hs' Eh Eb. constructor.
  - by apply state_ok_mem.
  - done.
  - cbn. rewrite Eh. eapply hmodels_static_touch; [apply Hst|apply Hst|exact Ht|apply Hs'|done].
  - cbn. by rewrite Eb.
Qed.

(** An update of a block that keeps its size and its kind does not change the
    counters. *)
Lemma heap_bytes_update M a ab ab' : M !! a = Some ab -> ab_size ab' = ab_size ab ->
  ab_freeable ab' = ab_freeable ab -> heap_bytes (<[a := ab']> M) = heap_bytes M.
Proof. intros E Es Ef. by destruct (heap_same_counters M a ab ab' E Es Ef). Qed.

Lemma seg_store_block_refines st M s p n : seg_models st M -> home (st_layout st) s p n -> n < 2 ^ 32 ->
  fresh_range M p n ->
  exists st', store_block cfg st p n = Ret (p, st') /\ kept st st' (st_pub st) /\
    seg_models st' (<[p := mk_ablock n ∅ false false]> M).
Proof using Htemp.
  intros HM Hn Hlt Hf. unfold store_block, alloca.
  destruct (shadow_alloca_refines cfg (st_layout st) (so_layout _ (gm_state _ _ HM)) Htemp (st_mem st)
    (static_part M) (temporal_timestamp st) s p n) as (m' & -> & Hs' & Ht); try done.
  { apply HM. } { intros a ab [E _]%static_part_lookup. by apply Hf. }
  cbn [obind]. eexists. split; [done|]. split; [done|].
  assert (M !! p = None) as Hnone by (destruct (M !! p) eqn:E; [by destruct (Hf p a E)|done]).
  replace (set_timestamp (set_mem st m') (temporal_timestamp st)) with (set_mem st m')
    by (destruct st; done).
  apply (seg_models_static st M); try done.
  - by rewrite static_part_insert.
  - apply heap_part_other; [done|congruence].
  - rewrite heap_bytes_insert by done. simpl. lia.
Qed.

Lemma seg_delete_block_refines st M p ab : seg_models st M -> M !! p = Some ab -> ab_freeable ab = false ->
  exists st', delete_block cfg st p = Ret st' /\ kept st st' (st_pub st) /\ seg_models st' (delete p M).
Proof using Htemp.
  intros HM E Ef. unfold delete_block, on_mem.
  destruct (shadow_freea_refines cfg (st_layout st) (so_layout _ (gm_state _ _ HM)) Htemp (st_mem st)
    (static_part M) p ab) as (m' & -> & Hs' & Ht); [apply HM|by apply static_part_lookup|].
  cbn [obind]. eexists. split; [done|]. split; [done|]. apply (seg_models_static st M); try done.
  - by rewrite static_part_delete.
  - rewrite heap_part_delete. apply delete_id. by eapply heap_part_absent.
  - rewrite (heap_bytes_delete M p ab), Ef by done. lia.
Qed.

(** Blocks lie in the segment of their kind. *)
Lemma static_block_on st M x a ab : seg_models st M -> contains M x a ab -> ab_freeable ab = false ->
  exists s, on (st_layout st) s x /\ contains (static_part M) x a ab.
Proof.
  intros HM [E Hc] Ef. assert (static_part M !! a = Some ab) as E' by (by apply static_part_lookup).
  destruct (sm_block _ _ _ (gm_static _ _ HM) _ _ E') as (s & Hn & _). exists s. split; [|by split].
  pose proof (sblock_covers _ _ _ (gm_static _ _ HM) a ab x E' Hc).
  replace x with (a + (x - a)) by lia. apply (home_on _ s a (ab_size ab)); [done|lia].
Qed.

Lemma heap_block_on st M x a ab : seg_models st M -> contains M x a ab -> ab_freeable ab = true ->
  hon (st_layout st) x /\ contains (heap_part M) x a ab.
Proof.
  intros HM [E Hc] Ef. assert (heap_part M !! a = Some ab) as E' by (by apply heap_part_lookup).
  pose proof (block_facts _ (so_heap _ (gm_state _ _ HM)) _ _ (gm_heap _ _ HM) a ab E').
  split; [|by split]. unfold hon, covers in *. lia.
Qed.

Lemma block_size_pos st M a ab : seg_models st M -> M !! a = Some ab -> 0 < ab_size ab < 2 ^ 63.
Proof.
  intros HM E. destruct (ab_freeable ab) eqn:Ef.
  - assert (heap_part M !! a = Some ab) as E' by (by apply heap_part_lookup).
    pose proof (block_facts _ (so_heap _ (gm_state _ _ HM)) _ _ (gm_heap _ _ HM) a ab E').
    pose proof (hk_nonnull _ (so_heap _ (gm_state _ _ HM))). lia.
  - assert (static_part M !! a = Some ab) as E' by (by apply static_part_lookup).
    destruct (sm_block _ _ _ (gm_static _ _ HM) _ _ E') as (s & (? & _) & ? & _). lia.
Qed.

Lemma seg_models_heap st M M' m' : seg_models st M -> heap_touch (st_layout st) (st_mem st) m' ->
  hmodels (st_layout st) m' (heap_part M') -> static_part M' = static_part M ->
  heap_bytes M' = heap_bytes M -> seg_models (set_mem st m') M'.
Proof.
  intros [Hst Hs Hh Hb] Ht Hh' Es Eb. constructor.
  - by apply state_ok_mem.
  - cbn. rewrite Es. eapply smodels_heap_touch; [apply Hst|exact Ht|apply Hh'|done].
  - done.
  - cbn. by rewrite Eb.
Qed.

Lemma seg_initialize_refines st M x a ab n : seg_models st M -> contains M x a ab -> 0 < n < 2 ^ 63 ->
  x + n <= a + ab_size ab ->
  exists st', initialize cfg st x n = Ret st' /\ kept st st' (st_pub st) /\
    seg_models st' (<[a := mk_ablock (ab_size ab) (ab_init ab ∪ offsets (x - a) (x - a + n))
                            (ab_readonly ab) (ab_freeable ab)]> M) /\ quiet st st'.
Proof.
  clear Htemp. intros HM Hin Hn Hle. unfold initialize, try_segment, on_mem. rewrite s64_small by lia.
  pose proof (so_layout _ (gm_state _ _ HM)) as Hl. pose proof (so_heap _ (gm_state _ _ HM)) as Hh.
  destruct (ab_freeable ab) eqn:Ef.
  - destruct (heap_block_on st M x a ab HM Hin Ef) as [Hon Hin']. rewrite (hon_IS_ON _ _ Hon).
    destruct (initialize_heap_refines cfg _ _ _ x a ab n Hl Hh (gm_heap _ _ HM) Hon Hin' Hn Hle)
      as (m' & -> & HM' & Ht & Hprim). cbn [obind]. eexists. split; [done|]. split; [done|].
    split; [|by split; [right|]]. apply (seg_models_heap st M); try done.
    + by rewrite heap_part_insert.
    + apply static_part_other; [done|]. intros ab' E. destruct Hin as [E' _]. congruence.
    + apply (heap_bytes_update M a ab); [apply Hin|done|done].
  - destruct (static_block_on st M x a ab HM Hin Ef) as (s & Hon & Hin').
    rewrite (on_not_heap _ Hl s x Hon), (on_static _ Hl s x Hon).
    destruct (initialize_static_refines cfg _ Hl _ _ s x a ab n (gm_static _ _ HM) Hon Hin')
      as (m' & -> & HM' & Ht); [lia|done|]. cbn [obind]. eexists. split; [done|]. split; [done|].
    split; [|by split; [left|]]. apply (seg_models_static st M); try done.
    + by rewrite static_part_insert.
    + apply heap_part_other; [done|]. intros ab' E. destruct Hin as [E' _]. congruence.
    + apply (heap_bytes_update M a ab); [apply Hin|done|done].
Qed.

(** The length of a block, at any of its addresses. *)
Lemma block_length_exact st M x a ab : seg_models st M -> contains M x a ab ->
  _block_length cfg (st_layout st) (st_mem st) x = Ret (ab_size ab).
Proof.
  intros HM Hin. unfold _block_length.
  pose proof (so_layout _ (gm_state _ _ HM)) as Hl. pose proof (so_heap _ (gm_state _ _ HM)) as Hh.
  destruct (ab_freeable ab) eqn:Ef.
  - destruct (heap_block_on st M x a ab HM Hin Ef) as [Hon Hin']. rewrite predicate_heap by done.
    apply (heap_info_exact _ Hh cfg _ _ (gm_heap _ _ HM) x a ab Hon Hin').
  - destruct (static_block_on st M x a ab HM Hin Ef) as (s & Hon & Hin').
    rewrite (predicate_static cfg _ Hl _ s) by done.
    apply (static_info_exact cfg _ Hl _ _ (gm_static _ _ HM) s x a ab Hon Hin').
Qed.

Lemma contains_base st M a ab : seg_models st M -> M !! a = Some ab -> contains M a a ab.
Proof. intros HM E. split; [done|]. left. pose proof (block_size_pos st M a ab HM E). lia. Qed.

Lemma seg_full_init_refines st M a ab : seg_models st M -> M !! a = Some ab ->
  exists st', full_init cfg st a = Ret st' /\ kept st st' (st_pub st) /\
    seg_models st' (<[a := mk_ablock (ab_size ab) (ab_init ab ∪ all_offsets (ab_size ab))
                            (ab_readonly ab) (ab_freeable ab)]> M) /\ quiet st st'.
Proof.
  clear Htemp. intros HM E. pose proof (block_size_pos st M a ab HM E). pose proof (contains_base st M a ab HM E) as Hin.
  unfold full_init. rewrite (block_length_exact st M a a ab HM Hin). cbn [obind].
  destruct (seg_initialize_refines st M a a ab (ab_size ab) HM Hin) as (st' & E' & Ep & HM' & Hq); [lia|lia|].
  exists st'. split_and!; [done|done| |done].
  replace (all_offsets (ab_size ab)) with (offsets (a - a) (a - a + ab_size ab)); [done|].
  apply set_eq. intros i. rewrite elem_offsets, elem_all_offsets. lia.
Qed.

Lemma seg_mark_readonly_refines st M a ab : seg_models st M -> M !! a = Some ab ->
  ab_freeable ab = false -> on (st_layout st) SGlobal a ->
  exists st', mark_readonly cfg st a = Ret st' /\ kept st st' (st_pub st) /\
    seg_models st' (<[a := mk_ablock (ab_size ab) (ab_init ab) true false]> M) /\ quiet st st'.
Proof.
  clear Htemp. intros HM E Ef Hon. pose proof (block_size_pos st M a ab HM E).
  pose proof (contains_base st M a ab HM E) as Hin. unfold mark_readonly, on_mem.
  rewrite (block_length_exact st M a a ab HM Hin). cbn [obind]. rewrite s64_small by lia.
  destruct (mark_readonly_static cfg _ (so_layout _ (gm_state _ _ HM)) _ _ a ab
    (gm_static _ _ HM)) as (m' & -> & HM' & Ht); [by apply static_part_lookup|done|].
  cbn [obind]. eexists. split; [done|]. split; [done|]. split; [|by split; [left|]].
  apply (seg_models_static st M); try done.
  - by rewrite static_part_insert.
  - apply heap_part_other; [done|]. intros ab' E'. congruence.
  - by apply (heap_bytes_update M a ab).
Qed.

(** ** Allocation *)

(** An answer [res] of the application's allocator to a request for [n] bytes,
    which leaves it in the state [p]. *)
Definition good_answer (st : state) (M : amem) (res n : Z) (p : pub) : Prop :=
  mspace_least_addr p = heap_mspace_least (st_spaces st) /\
  (res = NULL \/ new_alloc (st_layout st) (heap_part M) res n /\ M !! res = None).

Definition a_alloc (M : amem) (res n : Z) (init : bool) : amem :=
  if res =? NULL then M
  else <[res := mk_ablock n (if init then all_offsets n else ∅) false true]> M.

Lemma seg_models_pub st M p : seg_models st M ->
  mspace_least_addr p = heap_mspace_least (st_spaces st) -> seg_models (set_pub st p) M.
Proof.
  intros [Hst Hs Hh Hb] Hp. constructor; [|done..]. destruct Hst. by constructor.
Qed.

(** [set_heap_segment] records a heap block. *)
Lemma record_heap_block st M res n init : seg_models st M -> new_alloc (st_layout st) (heap_part M) res n ->
  M !! res = None ->
  exists st', set_heap_segment cfg st res n (ALLOC_SIZE n) init = Ret st' /\ kept st st' (st_pub st) /\
    seg_models st' (<[res := mk_ablock n (if i2b init then all_offsets n else ∅) false true]> M) /\
    recorded st st' res n.
Proof.
  clear Htemp. intros HM Hnew Hnone. pose proof HM as [Hst Hs Hh Hb].
  destruct (set_heap_segment_refines cfg st (heap_part M) res n init Hst Hh Hnew)
    as (m' & -> & HM' & Ht & Hrest & Hstamp).
  eexists. split; [done|]. split; [done|]. split; [|by split_and!]. constructor.
  - by apply state_ok_timestamp, state_ok_mem, state_ok_stats.
  - cbn. rewrite static_part_other; [|done|congruence].
    eapply smodels_heap_touch; [apply Hst|exact Ht|apply HM'|done].
  - cbn. by rewrite heap_part_insert.
  - cbn. rewrite heap_bytes_insert, Hb by done. cbn [ab_freeable ab_size].
    destruct Hnew as (Hn & Hp & H1 & H2 & _). destruct (alloc_size_spec n ltac:(lia)) as (_ & Hal & _).
    pose proof (hk_nonnull _ (so_heap _ Hst)). by rewrite u64_add, s64_small by lia.
Qed.

Lemma seg_malloc_refines st M n res p : seg_models st M -> 0 < n < max_allocated ->
  public_malloc (st_pub st) (ALLOC_SIZE n) = (res, p) -> good_answer st M res n p ->
  exists st', malloc cfg pg st n = Ret (res, st') /\ kept st st' p /\
    seg_models st' (a_alloc M res n false) /\ alloc_effect st st' res n.
Proof.
  clear Htemp. intros HM Hn E [Hp Hres]. destruct (alloc_size_spec n ltac:(lia)) as (_ & Hal & _).
  unfold malloc, mspaces_init. rewrite (so_ready _ (gm_state _ _ HM)).
  rewrite (proj2 (Z.eqb_neq (ALLOC_SIZE n) 0)) by lia. cbn [negb obind]. rewrite E. cbn [obind].
  unfold a_alloc, alloc_effect. pose proof (seg_models_pub st M p HM Hp) as HMp.
  destruct (Z.eqb_spec res NULL) as [->|Hne]; cbn [negb]; [by eexists|].
  destruct Hres as [|[Hnew Hnone]]; [done|].
  destruct (record_heap_block (set_pub st p) M res n 0 HMp Hnew Hnone) as (st' & -> & Ep & HM' & Hr).
  by exists st'.
Qed.

(** The memory of a new block is cleared. *)
Lemma heap_memset st M res n : seg_models st M -> new_alloc (st_layout st) (heap_part M) res n ->
  exists m', memset (st_mem st) res 0 n = Ret m' /\ seg_models (set_mem st m') M /\
    heap_touch (st_layout st) (st_mem st) m' /\
    (forall x, hon (st_layout st) x -> m' !! hs (st_layout st) x = st_mem st !! hs (st_layout st) x).
Proof.
  clear Htemp. intros HM (Hn & Hp & H1 & H2 & _). destruct (alloc_size_spec n ltac:(lia)) as (_ & Hal & _).
  pose proof (so_layout _ (gm_state _ _ HM)) as Hl. pose proof (so_heap _ (gm_state _ _ HM)) as Hh.
  destruct (memset_spec (st_mem st) res 0 n) as (m' & -> & Hd & Hx); [lia| |].
  { destruct (hm_mapped _ _ _ (gm_heap _ _ HM)) as (Ha & _). eapply accessible_sub; [exact Ha|lia|lia]. }
  exists m'. split; [done|].
  assert (mem_ok m') as Hok.
  { eapply mem_ok_pointwise; [apply (gm_heap _ _ HM)|]. intros x b. rewrite Hx. case_decide; [|auto].
    intros [= <-]. left. split; by vm_compute. }
  assert (forall y, ~ in_hseg (st_layout st) HApp y -> m' !! y = st_mem st !! y) as Hout.
  { intros y Hy. rewrite Hx. case_decide as Hin; [|done]. exfalso. apply Hy.
    unfold in_hseg. cbn [hsegment]. fold (hstart (st_layout st)) (hend (st_layout st)). lia. }
  assert (heap_touch (st_layout st) (st_mem st) m') as Ht
    by (split; [done|]; intros y Hy; apply Hout, Hy).
  assert (forall x, hon (st_layout st) x -> m' !! hs (st_layout st) x = st_mem st !! hs (st_layout st) x) as Hprim.
  { intros x Hxx. apply Hout. intros Hy. pose proof (hs_in _ Hh x Hxx) as Hy'.
    by pose proof (hsegments_apart _ Hl _ _ _ Hy Hy'). }
  split; [|done]. apply (seg_models_heap st M); try done.
  - eapply (hmodels_frame _ Hh); [done|exact Hd| |apply HM]. split; intros x Hxx _.
    + by apply Hprim.
    + apply (ibit_frame _ Hh); [|done]. intros y Hy. apply Hout. intros Hy'.
      by pose proof (hsegments_apart _ Hl _ _ _ Hy Hy').
Qed.

Lemma seg_calloc_refines st M n k res p : seg_models st M -> 0 < n -> 0 < k -> n * k < max_allocated ->
  public_malloc (st_pub st) (ALLOC_SIZE (n * k)) = (res, p) -> good_answer st M res (n * k) p ->
  exists st', calloc cfg pg st n k = Ret (res, st') /\ kept st st' p /\
    seg_models st' (a_alloc M res (n * k) true) /\ alloc_effect st st' res (n * k).
Proof.
  clear Htemp. intros HM Hn Hk Hlt E [Hp Hres]. unfold calloc, mspaces_init. rewrite (so_ready _ (gm_state _ _ HM)).
  change max_allocated with (2 ^ 64 - 32) in Hlt.
  assert (SIZE_MAX / k <? n = false) as Hov.
  { apply Z.ltb_ge. apply Z.div_le_lower_bound; [lia|]. unfold SIZE_MAX. lia. }
  rewrite Hov, andb_false_r, (u64_small (n * k)) by (unfold in_u; lia).
  rewrite (proj2 (Z.eqb_neq (n * k) 0)) by lia. cbn [negb obind]. rewrite E. cbn [obind].
  unfold a_alloc, alloc_effect. pose proof (seg_models_pub st M p HM Hp) as HMp.
  destruct (Z.eqb_spec res NULL) as [->|Hne]; cbn [negb]; [by eexists|].
  destruct Hres as [|[Hnew Hnone]]; [done|].
  destruct (heap_memset (set_pub st p) M res (n * k) HMp Hnew) as (m1 & -> & HM1 & Ht & Hprim). cbn [obind].
  destruct (record_heap_block (set_mem (set_pub st p) m1) M res (n * k) 1 HM1 Hnew Hnone)
    as (st' & -> & Ep & HM' & Ht' & Hrest & Hr). exists st'. split_and!; [done..|].
  split; [eapply heap_touch_trans; [exact Ht|exact Ht']|]. split; [|exact Hr].
  intros x Hx Hno. etransitivity; [by apply Hrest|by apply Hprim].
Qed.

Lemma seg_free_refines st M q ab : seg_models st M -> M !! q = Some ab -> ab_freeable ab = true ->
  mspace_least_addr (public_free (st_pub st) q) = heap_mspace_least (st_spaces st) ->
  exists st', free cfg st q = Ret st' /\ kept st st' (public_free (st_pub st) q) /\
    seg_models st' (delete q M).
Proof using Htemp.
  intros HM E Ef Hp. pose proof HM as [Hst Hs Hh Hb]. pose proof (contains_base st M q ab HM E) as Hin.
  destruct (heap_block_on st M q q ab HM Hin Ef) as [Hon Hin'].
  pose proof (hk_nonnull _ (so_heap _ Hst)). unfold free.
  rewrite (proj2 (Z.eqb_neq q NULL)) by (unfold hon, NULL in *; lia).
  destruct (freeable_exact _ (so_heap _ Hst) _ _ Hh q Hon) as (r & -> & _ & Hr). cbn [obind].
  assert (r = 1) as -> by (apply Hr; exists ab; apply Hin'). cbn [i2b Z.eqb negb].
  destruct (unset_heap_segment_refines cfg Htemp st (heap_part M) q ab Hst Hh (proj1 Hin'))
    as (m' & -> & HM' & Ht & _). cbn [obind].
  eexists. split; [done|]. split; [done|]. apply seg_models_pub; [|done]. constructor.
  - by apply state_ok_mem, state_ok_stats.
  - cbn. rewrite static_part_delete, delete_id by (by eapply static_part_absent).
    eapply smodels_heap_touch; [apply Hst|exact Ht|apply HM'|done].
  - cbn. by rewrite heap_part_delete.
  - cbn. rewrite Hb, (heap_bytes_delete M q ab), Ef by done. unfold u64.
    rewrite Zminus_mod_idemp_l. f_equal. lia.
Qed.

(** ** The abstract machine *)

(** The steps of the abstract memory in the layout [l], whose application's
    memory space has the least address [least]. *)
Inductive gstep (l : memory_layout) (least : Z) : amem * pub -> op -> amem * pub -> Prop :=
| GStore M a s p n : home l s p n -> n < 2 ^ 32 -> fresh_range M p n ->
    gstep l least (M, a) (OStore p n) (<[p := mk_ablock n ∅ false false]> M, a)
| GDelete M a p ab : M !! p = Some ab -> ab_freeable ab = false ->
    gstep l least (M, a) (ODelete p) (delete p M, a)
| GInitialize M a x n b ab : contains M x b ab -> 0 < n < 2 ^ 63 -> x + n <= b + ab_size ab ->
    gstep l least (M, a) (OInitialize x n)
      (<[b := mk_ablock (ab_size ab) (ab_init ab ∪ offsets (x - b) (x - b + n))
                (ab_readonly ab) (ab_freeable ab)]> M, a)
| GFullInit M a p ab : M !! p = Some ab ->
    gstep l least (M, a) (OFullInit p)
      (<[p := mk_ablock (ab_size ab) (ab_init ab ∪ all_offsets (ab_size ab)) (ab_readonly ab)
                (ab_freeable ab)]> M, a)
| GMarkReadonly M a p ab : M !! p = Some ab -> ab_freeable ab = false -> on l SGlobal p ->
    gstep l least (M, a) (OMarkReadonly p)
      (<[p := mk_ablock (ab_size ab) (ab_init ab) true false]> M, a)
| GMalloc M a n res a' : 0 < n < max_allocated -> public_malloc a (ALLOC_SIZE n) = (res, a') ->
    mspace_least_addr a' = least ->
    (res = NULL \/ new_alloc l (heap_part M) res n /\ M !! res = None) ->
    gstep l least (M, a) (OMalloc n) (a_alloc M res n false, a')
| GCalloc M a n k res a' : 0 < n -> 0 < k -> n * k < max_allocated ->
    public_malloc a (ALLOC_SIZE (n * k)) = (res, a') -> mspace_least_addr a' = least ->
    (res = NULL \/ new_alloc l (heap_part M) res (n * k) /\ M !! res = None) ->
    gstep l least (M, a) (OCalloc n k) (a_alloc M res (n * k) true, a')
| GFree M a p ab : M !! p = Some ab -> ab_freeable ab = true ->
    mspace_least_addr (public_free a p) = least ->
    gstep l least (M, a) (OFree p) (delete p M, public_free a p)
| GFreeNull M a : cfg_free_valid_address cfg = false -> gstep l least (M, a) (OFree NULL) (M, a).

Inductive gsteps (l : memory_layout) (least : Z) : amem * pub -> list op -> amem * pub -> Prop :=
| gsteps_nil s : gsteps l least s [] s
| gsteps_cons s1 o s2 ops s3 : gstep l least s1 o s2 -> gsteps l least s2 ops s3 ->
    gsteps l least s1 (o :: ops) s3.

(** The simulation relation. *)
Definition seg_simulates (l : memory_layout) (least : Z) (st : state) (s : amem * pub) : Prop :=
  seg_models st s.1 /\ st_pub st = s.2 /\ st_layout st = l /\ heap_mspace_least (st_spaces st) = least.

Lemma simulates_kept l least st st' M M' p : seg_simulates l least st (M, st_pub st) ->
  kept st st' p -> seg_models st' M' -> seg_simulates l least st' (M', p).
Proof.
  intros (_ & _ & El & Es) (Ep & El' & Es') HM. split_and!; [done|done|congruence|congruence].
Qed.

Lemma gstep_simulated l least st s o s' : seg_simulates l least st s -> gstep l least s o s' ->
  exists st', run_op st o = Ret st' /\ seg_simulates l least st' s'.
Proof using Htemp.
  intros Hsim Hstep.
  assert (seg_simulates l least st (s.1, st_pub st)) as Hsim' by (destruct Hsim as (? & ? & ?); by split).
  pose proof Hsim as (HM & Ea & El & Es).
  destruct Hstep as [M a s p n Hh Hn Hf|M a p ab E Ef|M a x n b ab Hin Hn Hle|M a p ab E
    |M a p ab E Ef Hon|M a n res a' Hn Hpub Hl' Hg|M a n k res a' Hn Hk Hlt Hpub Hl' Hg|M a p ab E Ef Hl'
    |M a Hv]; cbn [fst snd] in *; subst a; cbn [run_op].
  - rewrite <- El in Hh.
    destruct (seg_store_block_refines st M s p n HM Hh Hn Hf) as (st' & -> & Hk & HM').
    exists st'. split; [done|]. by eapply simulates_kept.
  - destruct (seg_delete_block_refines st M p ab HM E Ef) as (st' & -> & Hk & HM').
    exists st'. split; [done|]. by eapply simulates_kept.
  - destruct (seg_initialize_refines st M x b ab n HM Hin Hn Hle) as (st' & -> & Hk & HM' & _).
    exists st'. split; [done|]. by eapply simulates_kept.
  - destruct (seg_full_init_refines st M p ab HM E) as (st' & -> & Hk & HM' & _).
    exists st'. split; [done|]. by eapply simulates_kept.
  - rewrite <- El in Hon.
    destruct (seg_mark_readonly_refines st M p ab HM E Ef Hon) as (st' & -> & Hk & HM' & _).
    exists st'. split; [done|]. by eapply simulates_kept.
  - rewrite <- El in Hg.
    destruct (seg_malloc_refines st M n res a' HM Hn Hpub) as (st' & -> & Hk & HM' & _); [split; [congruence|done]|].
    exists st'. split; [done|]. by eapply simulates_kept.
  - rewrite <- El in Hg.
    destruct (seg_calloc_refines st M n k res a' HM Hn Hk Hlt Hpub) as (st' & -> & Hkp & HM' & _); [split; [congruence|done]|].
    exists st'. split; [done|]. by eapply simulates_kept.
  - destruct (seg_free_refines st M p ab HM E Ef) as (st' & -> & Hk & HM'); [congruence|].
    exists st'. split; [done|]. by eapply simulates_kept.
  - unfold free. rewrite Z.eqb_refl, Hv. by exists st.
Qed.

Lemma grun_simulated l least st s ops s' : seg_simulates l least st s -> gsteps l least s ops s' ->
  exists st', run st ops = Ret st' /\ seg_simulates l least st' s'.
Proof using Htemp.
  intros Hsim Hsteps. revert st Hsim.
  induction Hsteps as [s|s1 o s2 ops s3 Hstep Hsteps IH]; intros st Hsim; [by exists st|].
  destruct (gstep_simulated l least st s1 o s2 Hsim Hstep) as (st1 & E & Hsim1). simpl. rewrite E.
  by apply IH.
Qed.

(** ** Queries *)

(** The base of a pointer to the heap is in the heap, and, unless it is the pointer
    itself, not in the padding of a block. *)
Definition base_ok (l : memory_layout) (M : amem) (x base : Z) : Prop :=
  hon l x -> hon l base /\
    forall a ab, M !! a = Some ab -> ab_freeable ab = true -> in_alloc a ab base ->
      base = x \/ base < a + ab_size ab.

Lemma base_ok_self l M x : base_ok l M x x.
Proof. split; [done|]. by left. Qed.

(** [x] is not the address past the heap, which [IS_ON_HEAP] accepts. *)
Lemma allocated_exact st M x n base : seg_models st M -> 0 < n < 2 ^ 63 -> x <> hend (st_layout st) ->
  base_ok (st_layout st) M x base ->
  exists r, allocated cfg (st_layout st) (st_mem st) x n base = Ret r /\ (r = 0 \/ r = 1) /\
    (r = 1 <-> exists a ab, allocated_in cfg M x n base a ab).
Proof.
  intros HM Hn Hne Hbase. unfold allocated, try_segment.
  pose proof (so_layout _ (gm_state _ _ HM)) as Hl. pose proof (so_heap _ (gm_state _ _ HM)) as Hh.
  set (l := st_layout st) in *.
  destruct (IS_ON_HEAP l x) eqn:Eh.
  - assert (hon l x) as Hx.
    { unfold IS_ON_HEAP, IS_ON in Eh. rewrite andb_true_iff, !Z.leb_le in Eh.
      unfold hon, hstart, hend in *. lia. }
    destruct (Hbase Hx) as [Hb Hpad]. rewrite u64_small by (unfold in_u; lia).
    destruct (heap_allocated_exact l Hh cfg _ _ (gm_heap _ _ HM) x n base Hx Hb Hn) as (r & -> & H01 & Hr).
    exists r. split_and!; [done..|]. rewrite Hr. unfold allocated_in. split.
    + intros (a & ab & [E Hc] & Hb' & Hle). pose proof E as [E' Ef]%heap_part_lookup.
      exists a, ab. split_and!; [by split| |done]. intros Hw. split; [done|].
      specialize (Hb' Hw). unfold in_alloc in Hb'. left.
      destruct (Hpad a ab E' Ef Hb'); lia.
    + intros (a & ab & [E Hc] & Hb' & Hle).
      assert (ab_freeable ab = true) as Ef.
      { destruct (ab_freeable ab) eqn:Ef; [done|].
        destruct (static_block_on st M x a ab HM (conj E Hc) Ef) as (s & Hon & _).
        fold l in Hon. rewrite (on_not_heap l Hl s x Hon) in Eh. done. }
      assert (heap_part M !! a = Some ab) as E' by (by apply heap_part_lookup).
      exists a, ab. split_and!; [by split| |done]. intros Hw. destruct (Hb' Hw) as [_ Hc'].
      pose proof (block_facts l Hh _ _ (gm_heap _ _ HM) a ab E'). unfold in_alloc, covers in *. lia.
  - assert (forall a ab, contains M x a ab -> ab_freeable ab = false) as Hst.
    { intros a ab Hin. destruct (ab_freeable ab) eqn:Ef; [|done].
      destruct (heap_block_on st M x a ab HM Hin Ef) as [Hx _]. fold l in Hx.
      by rewrite (hon_IS_ON l x Hx) in Eh. }
    assert (forall r : Z, (r = 1 <-> exists a ab, allocated_in cfg (static_part M) x n base a ab) ->
      (r = 1 <-> exists a ab, allocated_in cfg M x n base a ab)) as Hpart.
    { intros r ->. unfold allocated_in. split.
      - intros (a & ab & [E Hc] & Hb & Hle). pose proof E as [E' Ef]%static_part_lookup.
        exists a, ab. split_and!; [by split| |done]. intros Hw. split; [done|]. apply (Hb Hw).
      - intros (a & ab & [E Hc] & Hb & Hle). specialize (Hst a ab (conj E Hc)).
        assert (static_part M !! a = Some ab) as E' by (by apply static_part_lookup).
        exists a, ab. split_and!; [by split| |done]. intros Hw. split; [done|]. apply (Hb Hw). }
    destruct (IS_ON_STATIC l x) eqn:Es.
    + assert (exists s, on l s x) as [s Hon].
      { unfold IS_ON_STATIC in Es. apply orb_true_iff in Es as [Es|Es]; [apply orb_true_iff in Es as [Es|Es]|].
        - exists SStack. by apply on_IS_ON.
        - exists SGlobal. by apply on_IS_ON.
        - exists STls. by apply on_IS_ON. }
      destruct (static_allocated_exact cfg l Hl _ _ (gm_static _ _ HM) s x n base Hon ltac:(lia))
        as (r & -> & H01 & Hr). exists r. split_and!; [done..|]. by apply Hpart.
    + exists 0. split_and!; [done|auto|]. split; [done|]. intros (a & ab & Hin & _).
      destruct (static_block_on st M x a ab HM Hin (Hst a ab Hin)) as (s & Hon & _). fold l in Hon.
      rewrite (on_static l Hl s x Hon) in Es. done.
Qed.

Lemma seg_readonly_exact st M x a ab : seg_models st M -> contains M x a ab ->
  readonly (st_layout st) (st_mem st) x = Ret (b2i (ab_readonly ab)).
Proof.
  intros HM Hin. pose proof (so_layout _ (gm_state _ _ HM)) as Hl.
  destruct (ab_freeable ab) eqn:Ef.
  - destruct (heap_block_on st M x a ab HM Hin Ef) as [Hon [E _]].
    unfold readonly. rewrite (hon_not_global _ Hl x Hon).
    by rewrite (hb_readonly _ _ _ _ (hm_block _ _ _ (gm_heap _ _ HM) _ _ E)).
  - destruct (static_block_on st M x a ab HM Hin Ef) as (s & Hon & Hin').
    by apply (static_readonly_exact _ Hl _ _ (gm_static _ _ HM) s x a ab).
Qed.

(** Two blocks do not contain the same address. *)
Lemma seg_contains_unique st M x a ab a' ab' : seg_models st M -> contains M x a ab ->
  contains M x a' ab' -> a = a' /\ ab = ab'.
Proof.
  intros HM Hin Hin'. pose proof (so_layout _ (gm_state _ _ HM)) as Hl.
  pose proof (so_heap _ (gm_state _ _ HM)) as Hh.
  destruct (ab_freeable ab) eqn:Ef, (ab_freeable ab') eqn:Ef'.
  - destruct (heap_block_on st M x a ab HM Hin Ef) as [_ [E Hc]].
    destruct (heap_block_on st M x a' ab' HM Hin' Ef') as [_ [E' Hc']].
    pose proof (block_facts _ Hh _ _ (gm_heap _ _ HM) a ab E).
    pose proof (block_facts _ Hh _ _ (gm_heap _ _ HM) a' ab' E').
    apply (alloc_unique _ _ _ (gm_heap _ _ HM) x); [done|done|unfold in_alloc, covers in *; lia..].
  - destruct (heap_block_on st M x a ab HM Hin Ef) as [Hon _].
    destruct (static_block_on st M x a' ab' HM Hin' Ef') as (s & Hon' & _).
    pose proof (on_static _ Hl s x Hon') as Hs. by rewrite (hon_not_static _ Hl x Hon) in Hs.
  - destruct (heap_block_on st M x a' ab' HM Hin' Ef') as [Hon _].
    destruct (static_block_on st M x a ab HM Hin Ef) as (s & Hon' & _).
    pose proof (on_static _ Hl s x Hon') as Hs. by rewrite (hon_not_static _ Hl x Hon) in Hs.
  - destruct (static_block_on st M x a ab HM Hin Ef) as (s & _ & Hc).
    destruct (static_block_on st M x a' ab' HM Hin' Ef') as (s' & _ & Hc').
    by apply (static_contains_unique _ _ _ (gm_static _ _ HM) x).
Qed.

Lemma seg_valid_exact st M x n base addrof : seg_models st M -> 0 < n < 2 ^ 63 ->
  x <> hend (st_layout st) -> base_ok (st_layout st) M x base ->
  exists r, valid cfg st x n base addrof = Ret r /\ (r = 0 \/ r = 1) /\
    (r = 1 <-> exists a ab, allocated_in cfg M x n base a ab /\ ab_readonly ab = false).
Proof using Htemp.
  intros HM Hn Hne Hb. unfold valid. rewrite s64_small by lia.
  destruct (allocated_exact st M x n base HM Hn Hne Hb) as (r & -> & H01 & Hr). cbn [obind].
  destruct H01 as [-> | ->]; cbn [i2b Z.eqb negb].
  { exists 0. split_and!; [done|auto|]. split; [done|]. intros (a & ab & Hin & _). apply Hr. eauto. }
  destruct (proj1 Hr eq_refl) as (a & ab & Hin & Hb' & Hle).
  rewrite (seg_readonly_exact st M x a ab HM Hin), Htemp. cbn [obind]. rewrite b2i_i2b.
  destruct (ab_readonly ab) eqn:Er; cbn [negb]; eexists; (split; [done|split; [auto|]]).
  - split; [done|]. intros (a' & ab' & [Hin' _] & Er').
    destruct (seg_contains_unique st M x a ab a' ab' HM Hin Hin') as [<- <-]. congruence.
  - split; [|done]. intros _. exists a, ab. by split_and!.
Qed.

Lemma seg_valid_read_exact st M x n base addrof : seg_models st M -> 0 < n < 2 ^ 63 ->
  x <> hend (st_layout st) -> base_ok (st_layout st) M x base ->
  exists r, valid_read cfg st x n base addrof = Ret r /\ (r = 0 \/ r = 1) /\
    (r = 1 <-> exists a ab, allocated_in cfg M x n base a ab).
Proof using Htemp.
  intros HM Hn Hne Hb. unfold valid_read. rewrite s64_small, Htemp by lia.
  destruct (allocated_exact st M x n base HM Hn Hne Hb) as (r & -> & H01 & Hr). by exists r.
Qed.

Lemma observers_exact st M x a ab : seg_models st M -> contains M x a ab ->
  base_addr cfg st x = Ret a /\ block_length cfg st x = Ret (ab_size ab) /\ offset cfg st x = Ret (x - a).
Proof.
  intros HM Hin. pose proof (so_layout _ (gm_state _ _ HM)) as Hl.
  pose proof (so_heap _ (gm_state _ _ HM)) as Hh. unfold base_addr, block_length, offset, try_segment.
  destruct (ab_freeable ab) eqn:Ef.
  - destruct (heap_block_on st M x a ab HM Hin Ef) as [Hon Hin']. rewrite !(hon_IS_ON _ _ Hon).
    by destruct (heap_info_exact _ Hh cfg _ _ (gm_heap _ _ HM) x a ab Hon Hin') as (-> & -> & ->).
  - destruct (static_block_on st M x a ab HM Hin Ef) as (s & Hon & Hin').
    rewrite !(on_not_heap _ Hl s x Hon), !(on_static _ Hl s x Hon).
    by destruct (static_info_exact cfg _ Hl _ _ (gm_static _ _ HM) s x a ab Hon Hin') as (-> & -> & ->).
Qed.

(** [initialized], for static blocks and for the heap addresses that start a
    byte of the init shadow. *)
Lemma seg_initialized_exact st M x a ab n : seg_models st M -> contains M x a ab -> 0 < n < 2 ^ 63 ->
  x + n <= a + ab_size ab -> (ab_freeable ab = true -> x mod 8 = 0) ->
  exists r, initialized cfg st x n = Ret r /\ (r = 0 \/ r = 1) /\
    (r = 1 <-> forall i, x - a <= i < x - a + n -> i ∈ ab_init ab).
Proof.
  intros HM Hin Hn Hle H8. pose proof (so_layout _ (gm_state _ _ HM)) as Hl.
  pose proof (so_heap _ (gm_state _ _ HM)) as Hh. unfold initialized, try_segment.
  rewrite s64_small by lia. destruct (ab_freeable ab) eqn:Ef.
  - destruct (heap_block_on st M x a ab HM Hin Ef) as [Hon Hin']. rewrite (hon_IS_ON _ _ Hon).
    apply (heap_initialized_aligned _ Hh _ _ (gm_heap _ _ HM) x a ab); try done; [by apply H8|lia].
  - destruct (static_block_on st M x a ab HM Hin Ef) as (s & Hon & Hin').
    rewrite (on_not_heap _ Hl s x Hon), (on_static _ Hl s x Hon).
    destruct (static_initialized_exact cfg _ Hl _ _ (gm_static _ _ HM) s x n Hon Hn) as (r & -> & H01 & Hr).
    exists r. split_and!; [done..|]. rewrite Hr. split.
    + intros (a' & ab' & Hin2 & _ & Hi).
      by destruct (static_contains_unique _ _ _ (gm_static _ _ HM) x a ab a' ab' Hin' Hin2) as [<- <-].
    + intros Hi. exists a, ab. by split_and!.
Qed.
End Runs.
