(* ===== verification/SegTheorems.v ===== *)
(** * Properties of the shadow memory model *)

From S2P Require Import Prelude AMem Alloc Temporal Bits Mask CString Shadow Segment SegModel SegStatic SegHeap SegTrace.

(** ** A concrete state

    Four partitions of 256 bytes, all shadows zero, and an application's
    allocator that hands out consecutive segments. *)

Definition tiny_partition (k ratio : Z) : memory_partition :=
  let app := set_application_segment (4096 * (5 * k + 1)) 256 in
  mk_partition app (set_shadow_segment app 1 (4096 * (5 * k + 2)))
    (set_shadow_segment app ratio (4096 * (5 * k + 3)))
    (set_shadow_segment app 1 (4096 * (5 * k + 4))) (set_shadow_segment app 1 (4096 * (5 * k + 5))).
Definition tiny_layout : memory_layout :=
  mk_layout (tiny_partition 0 8) (tiny_partition 1 1) (tiny_partition 2 1) (tiny_partition 3 1) true.

(** The accessible memory. *)
Definition tiny_segments : list Z :=
  [4096; 8192; 12288] ++ flat_map (fun k => [4096 * (5 * k + 2); 4096 * (5 * k + 3)]) [1; 2; 3].
Definition tiny_mem : mem := foldr (fun a m => mem_fill 264 a 0 ∪ m) ∅ tiny_segments.

Definition tiny_public : PublicAlloc :=
  {| pub := Z;
     public_malloc := fun a n => (a, a + n);
     public_calloc := fun a n k => (a, a + n * k);
     public_aligned_alloc := fun a al n => (a, a + n);
     public_posix_memalign := fun a al n => (0, a, a + n);
     public_realloc := fun a _ n => (a, a + n);
     public_free := fun a _ => a;
     mspace_least_addr := fun _ => 4096 |}.

Definition tiny_program : program := mk_program 0 0 0 0 0 None false (fun _ => 0).
Definition tiny_st0 : @state tiny_public :=
  @mk_state tiny_public tiny_mem tiny_layout (mk_spaces 4096 4352 4096) (mk_stats 0 0) 2 4128 0 true true.

Lemma fill_lookup segs x (m := foldr (fun a m => mem_fill 264 a 0 ∪ m) ∅ segs) :
  is_Some (m !! x) -> m !! x = Some 0.
Proof.
  unfold m. induction segs as [|a segs IH]; cbn [foldr]; [rewrite lookup_empty; by intros [? ?]|].
  rewrite lookup_union, mem_fill_lookup. case_decide.
  - by destruct (foldr _ _ _ !! x).
  - revert IH. destruct (foldr _ _ _ !! x); intros IH H1; by apply IH.
Qed.

Lemma tiny_mem_lookup x : is_Some (tiny_mem !! x) -> tiny_mem !! x = Some 0.
Proof. apply fill_lookup. Qed.

Lemma fill_accessible segs a n (m := foldr (fun a m => mem_fill 264 a 0 ∪ m) ∅ segs) :
  existsb (fun b => (b <=? a) && (a + n <=? b + 264)) segs = true -> accessible m a n.
Proof.
  unfold m. intros H x Hx. induction segs as [|b segs IH]; [done|].
  cbn [foldr existsb] in *. rewrite lookup_union_is_Some.
  apply orb_true_iff in H as [H|H]; [left|right; by apply IH].
  rewrite andb_true_iff, !Z.leb_le in H. rewrite mem_fill_lookup, decide_True by lia. eauto.
Qed.

Lemma tiny_accessible a n : existsb (fun b => (b <=? a) && (a + n <=? b + 264)) tiny_segments = true ->
  accessible tiny_mem a n.
Proof. apply fill_accessible. Qed.

Lemma tiny_zero x n a : accessible tiny_mem a n -> a <= x < a + n -> tiny_mem !! x = Some 0.
Proof. intros Ha Hx. apply tiny_mem_lookup, Ha, Hx. Qed.

Lemma tiny_layout_ok : layout_ok tiny_layout.
Proof.
  constructor; [reflexivity|]. intros r s.
  destruct r, s; eexists; (split; [reflexivity|]); split_and!; vm_compute; done || discriminate.
Qed.

Lemma tiny_heap_ok : heap_ok tiny_layout.
Proof.
  constructor.
  - eexists. split; [reflexivity|]. split_and!; vm_compute; done || discriminate.
  - eexists. split; [reflexivity|]. split_and!; vm_compute; done || discriminate.
  - by vm_compute.
  - by vm_compute.
Qed.

Lemma tiny_models : @seg_models tiny_public tiny_st0 ∅.
Proof.
  assert (mem_ok tiny_mem) as Hok.
  { intros x b E. rewrite tiny_mem_lookup in E by eauto. injection E as <-. split; by vm_compute. }
  assert (mapped tiny_layout tiny_mem) as Hm.
  { intros r s. destruct r, s; apply tiny_accessible; reflexivity. }
  assert (hmapped tiny_layout tiny_mem) as Hhm.
  { split_and!; apply tiny_accessible; reflexivity. }
  constructor.
  - constructor; [apply tiny_layout_ok|apply tiny_heap_ok|done..].
  - constructor; [done|done|done|done|]. intros r s x Hx _.
    change (on tiny_layout s x) in Hx. change (tiny_mem !! sh tiny_layout r s x = Some 0).
    apply (tiny_zero _ _ _ (Hm r s)). unfold on, sh in *.
    assert (sg_end (application (part tiny_layout s)) = sg_start (application (part tiny_layout s)) + 256 /\
      sg_size (application (part tiny_layout s)) = 256) as [E1 E2] by (destruct s; done).
    rewrite E1 in Hx. rewrite E2. lia.
  - constructor; [done|done|done|done|]. intros x Hx _.
    change (hon tiny_layout x) in Hx.
    change (tiny_mem !! hs tiny_layout x = Some 0 /\ ibit tiny_layout tiny_mem x = false). split.
    + apply (tiny_zero _ _ _ (proj1 (proj2 Hhm))). unfold hon, hs in *. lia.
    + unfold ibit, mbit. rewrite (tiny_zero _ _ _ (proj2 (proj2 Hhm))).
      * apply Z.testbit_0_l.
      * unfold hon in Hx. dlia.
  - done.
Qed.

(** Decision of the side conditions of a step. *)
Lemma fresh_check (M : amem) p n :
  bool_decide (map_Forall (fun a ab => a <> p /\ (a + ab_size ab <= p \/ p + n <= a)) M) = true ->
  fresh_range M p n.
Proof. intros H%bool_decide_eq_true a ab E. exact (H a ab E). Qed.

Lemma new_alloc_check l (M : amem) p n :
  bool_decide ((0 < n < max_allocated /\ p mod 32 = 0) /\ hstart l + 32 <= p /\ p + ALLOC_SIZE n < hend l /\
    map_Forall (fun a ab => p + ALLOC_SIZE n <= a \/ a + ALLOC_SIZE (ab_size ab) <= p) M) = true ->
  new_alloc l M p n.
Proof. intros H%bool_decide_eq_true. destruct H as ([H1 H2] & H3 & H4 & H5). exact (conj H1 (conj H2 (conj H3 (conj H4 H5)))). Qed.

(** A stack block, a literal, and two heap blocks. *)
Definition tiny_ops : list op :=
  [OStore 24580 20; OInitialize 24584 8; OStore 45056 5; OFullInit 45056; OMarkReadonly 45056;
   OMalloc 40; OInitialize 4131 11; OCalloc 4 4; OFree 4128].
Definition tiny_final : amem :=
  <[4192 := mk_ablock 16 (all_offsets 16) false true]>
  (<[45056 := mk_ablock 5 (all_offsets 5) true false]>
   (<[24580 := mk_ablock 20 (offsets 4 12) false false]> ∅)).

Lemma tiny_gsteps : @gsteps tiny_public default_config tiny_layout 4096 (∅, 4128) tiny_ops (tiny_final, 4224).
Proof.
  unfold tiny_ops.
  eapply gsteps_cons; [apply (@GStore tiny_public) with (s := SStack);
    [split_and!; by vm_compute|by vm_compute|apply fresh_check; reflexivity]|].
  eapply gsteps_cons; [eapply (@GInitialize tiny_public);
    [split; [by rewrite lookup_insert_eq|unfold covers; simpl; lia]|lia|simpl; lia]|].
  eapply gsteps_cons; [apply (@GStore tiny_public) with (s := SGlobal);
    [split_and!; by vm_compute|by vm_compute|apply fresh_check; reflexivity]|].
  eapply gsteps_cons; [eapply (@GFullInit tiny_public); by rewrite lookup_insert_eq|].
  eapply gsteps_cons; [eapply (@GMarkReadonly tiny_public);
    [by rewrite lookup_insert_eq|done|split; by vm_compute]|].
  eapply gsteps_cons; [eapply (@GMalloc tiny_public);
    [by vm_compute|done|done|right; split; [apply new_alloc_check; reflexivity|reflexivity]]|].
  eapply gsteps_cons; [eapply (@GInitialize tiny_public) with (b := 4128);
    [split; [reflexivity|unfold covers; simpl; lia]|lia|simpl; lia]|].
  eapply gsteps_cons; [eapply (@GCalloc tiny_public);
    [lia|lia|by vm_compute|done|done|right; split; [apply new_alloc_check; reflexivity|reflexivity]]|].
  eapply gsteps_cons; [eapply (@GFree tiny_public); [reflexivity|done|done]|].
  match goal with |- gsteps _ _ _ ?s _ _ => assert (s = (tiny_final, 4224)) as -> end;
    [|constructor].
  vm_compute. done.
Qed.

Lemma tiny_simulates0 : @seg_simulates tiny_public tiny_layout 4096 tiny_st0 (∅, 4128).
Proof. split; [apply tiny_models|done]. Qed.

(** C18.  Refinement.  Every sequence of operations (recording, deletion,
    initialization and read-only marks of blocks of the stack, of the globals and
    of thread-local storage; [malloc], [calloc], [free] and initialization of
    heap blocks) that the abstract memory of disjoint blocks can perform runs to
    its end in the shadow memory model, with no access outside the shadows, no
    failed assertion (debug checks included) and no exhausted loop, in every
    configuration without temporal analysis; the shadows it reaches encode the
    abstract result, and [heap_allocation_size] is the number of bytes of its
    heap blocks. *)
Theorem shadow_model_simulation `{PB : !PublicAlloc} (cfg : config) (pg : program) (l : memory_layout)
  (least : Z) (st : state) (s : amem * pub) (ops : list op) (s' : amem * pub) :
  cfg_temporal cfg = false -> seg_simulates l least st s -> gsteps cfg l least s ops s' ->
  exists st', run cfg pg st ops = Ret st' /\ seg_simulates l least st' s'.
Proof. intros Ht. by apply grun_simulated. Qed.

Lemma shadow_model_simulation_witness :
  exists st', @run tiny_public default_config tiny_program tiny_st0 tiny_ops = Ret st' /\
    @seg_simulates tiny_public tiny_layout 4096 st' (tiny_final, 4224).
Proof.
  exact (@shadow_model_simulation tiny_public default_config tiny_program tiny_layout 4096 tiny_st0
    (∅, 4128) tiny_ops (tiny_final, 4224) eq_refl tiny_simulates0 tiny_gsteps).
Defined.

(** The state at the end. *)
Definition tiny_st : @state tiny_public :=
  match @run tiny_public default_config tiny_program tiny_st0 tiny_ops with Ret st => st | _ => tiny_st0 end.
Lemma tiny_st_models : @seg_models tiny_public tiny_st tiny_final.
Proof.
  destruct (grun_simulated default_config tiny_program eq_refl tiny_layout 4096 tiny_st0
    (∅, 4128) tiny_ops (tiny_final, 4224) tiny_simulates0 tiny_gsteps) as (st & E & Hsim).
  unfold tiny_st. rewrite E. apply Hsim.
Qed.
Lemma tiny_st_layout : @st_layout tiny_public tiny_st = tiny_layout.
Proof. vm_compute. reflexivity. Qed.

(** C19.  [valid] and [valid_read] of the shadow memory model without temporal analysis, for
    a range of 0 < n < 2^63 bytes: they are 1 exactly when the range lies in one tracked
    block that (unless weak validity is on) also contains the base of the pointer
    and, for [valid], is not read-only; otherwise they are 0.  The address may be
    anywhere except at the end of the heap segment, which the code takes for a part of
    it; the base of a heap pointer is in the heap and not in the padding of a block.
    [temporal_valid_exact] is the property with temporal analysis. *)
Theorem shadow_valid_exact `{PB : !PublicAlloc} (cfg : config) (st : state) (M : amem)
  (x n base addrof : Z) :
  cfg_temporal cfg = false -> seg_models st M -> 0 < n < 2 ^ 63 -> x <> hend (st_layout st) ->
  base_ok (st_layout st) M x base ->
  (exists r, valid cfg st x n base addrof = Ret r /\ (r = 0 \/ r = 1) /\
     (r = 1 <-> exists a ab, allocated_in cfg M x n base a ab /\ ab_readonly ab = false)) /\
  (exists r, valid_read cfg st x n base addrof = Ret r /\ (r = 0 \/ r = 1) /\
     (r = 1 <-> exists a ab, allocated_in cfg M x n base a ab)).
Proof. intros Ht HM Hn Hne Hb. split; [by apply seg_valid_exact|by apply seg_valid_read_exact]. Qed.

Lemma shadow_valid_exact_witness :
  @valid tiny_public default_config tiny_st 45057 4 45056 0 = Ret 0 /\
  @valid_read tiny_public default_config tiny_st 45057 4 45056 0 = Ret 1.
Proof.
  destruct (@shadow_valid_exact tiny_public default_config tiny_st tiny_final 45057 4 45056 0)
    as [(r & E & H01 & Hr) (r' & E' & H01' & Hr')].
  - reflexivity.
  - exact tiny_st_models.
  - split; reflexivity.
  - rewrite tiny_st_layout. vm_compute. discriminate.
  - rewrite tiny_st_layout. intros [_ H]. vm_compute in H. discriminate.
  - assert (tiny_final !! 45056 = Some (mk_ablock 5 (all_offsets 5) true false)) as El by reflexivity.
    split.
    + rewrite E. f_equal. destruct H01 as [|H1]; [assumption|]. exfalso.
      destruct (proj1 Hr H1) as (a & ab & (Hin & _) & Ero).
      destruct (seg_contains_unique tiny_st tiny_final 45057 45056 (mk_ablock 5 (all_offsets 5) true false)
        a ab tiny_st_models) as [_ <-]; [split; [exact El|left; simpl; lia]|exact Hin|discriminate Ero].
    + rewrite E'. f_equal. apply Hr'. exists 45056, (mk_ablock 5 (all_offsets 5) true false).
      split; [split; [exact El|left; simpl; lia]|].
      split; [intros _; split; [exact El|left; simpl; lia]|simpl; lia].
Defined.

(** [base_addr], [block_length] and [offset] of an address inside a tracked
    block, static or on the heap, short or long, are the base and the size of the
    block and the distance from the base. *)
Theorem shadow_observers_exact `{PB : !PublicAlloc} (cfg : config) (st : state) (M : amem)
  (x a : Z) (ab : ablock) :
  seg_models st M -> contains M x a ab ->
  base_addr cfg st x = Ret a /\ block_length cfg st x = Ret (ab_size ab) /\
  offset cfg st x = Ret (x - a).
Proof. apply observers_exact. Qed.

Lemma shadow_observers_exact_witness :
  @base_addr tiny_public default_config tiny_st 24599 = Ret 24580 /\
  @block_length tiny_public default_config tiny_st 24599 = Ret 20.
Proof.
  destruct (@shadow_observers_exact tiny_public default_config tiny_st tiny_final 24599 24580
    (mk_ablock 20 (offsets 4 12) false false) tiny_st_models) as (E1 & E2 & _).
  - split; [reflexivity|left; simpl; lia].
  - split; [exact E1|exact E2].
Defined.

(** [initialized] of a non-empty range inside a block is 1 if every byte of
    the range is initialized and 0 otherwise: for all static blocks, and for the
    addresses of the heap that are multiples of 8. *)
Theorem shadow_initialized_exact `{PB : !PublicAlloc} (cfg : config) (st : state) (M : amem)
  (x a : Z) (ab : ablock) (n : Z) :
  seg_models st M -> contains M x a ab -> 0 < n < 2 ^ 63 -> x + n <= a + ab_size ab ->
  (ab_freeable ab = true -> x mod 8 = 0) ->
  exists r, initialized cfg st x n = Ret r /\ (r = 0 \/ r = 1) /\
    (r = 1 <-> forall i, x - a <= i < x - a + n -> i ∈ ab_init ab).
Proof. apply seg_initialized_exact. Qed.

Lemma shadow_initialized_exact_witness :
  exists r, @initialized tiny_public default_config tiny_st 24585 7 = Ret r /\ r = 1.
Proof.
  destruct (@shadow_initialized_exact tiny_public default_config tiny_st tiny_final 24585 24580
    (mk_ablock 20 (offsets 4 12) false false) 7 tiny_st_models) as (r & E & _ & Hr).
  - split; [reflexivity|left; simpl; lia].
  - lia.
  - simpl. lia.
  - discriminate.
  - exists r. split; [exact E|]. apply Hr. intros i Hi. apply elem_offsets. lia.
Defined.

(** ** Defects *)

Section Defects.
#[local] Existing Instance tiny_public.

(** The test of the first byte of the init shadow is an equality with the mask,
    and the rest is checked from the same byte: four initialized bytes in the
    middle of a fully initialized block are reported as uninitialized. *)
Theorem heap_initialized_unaligned :
  (let* st := run default_config tiny_program tiny_st0 [OCalloc 16 1] in
   let* whole := initialized default_config st 4128 16 in
   let* middle := initialized default_config st 4132 4 in
   Ret (whole, middle)) = Ret (1, 0).
Proof. vm_compute. reflexivity. Qed.

(** [free] does not decrease the number of blocks of the leak report. *)
Theorem free_keeps_block_count :
  (let* st := run default_config tiny_program tiny_st0 [OMalloc 16; OFree 4128] in
   Ret (heap_allocation_size (st_stats st), heap_allocated_blocks (st_stats st))) = Ret (0, 1).
Proof. vm_compute. reflexivity. Qed.

(** [realloc] moves the init shadow by numbers of bytes of the application, eight
    times too many: the initialization of the next block is lost. *)
Theorem realloc_clears_neighbour :
  (let* st := run default_config tiny_program tiny_st0 [OMalloc 32; OCalloc 32 1] in
   let* before := initialized default_config st 4160 32 in
   let* (p, st) := realloc default_config tiny_program st 4128 40 in
   let* after := initialized default_config st 4160 32 in
   Ret (before, p, after)) = Ret (1, 4192, 0).
Proof. vm_compute. reflexivity. Qed.
End Defects.
