(* ===== verification/SegTemporal.v ===== *)
(** * Temporal analysis in the shadow memory model

    The shadow memory model implements the interface of Temporal.v: with the temporal
    shadows apart from the others and from one another, it satisfies the laws, so that
    the flow of referents is right in it; and a pointer that is older than the block at
    its target is detected. *)

From S2P Require Import Prelude AMem Alloc Temporal Bits Mask CString Shadow Segment SegModel SegStatic SegHeap SegTrace SegTheorems.

(** ** The segments of a layout with temporal shadows *)

(** The temporal shadows of a partition. *)
Inductive tregion : Type := TPrimary | TSecondary.
Definition tsegment (r : tregion) (p : memory_partition) : memory_segment :=
  match r with TPrimary => temporal_primary p | TSecondary => temporal_secondary p end.

(** The layout is valid with the temporal shadows. *)
Definition checked_config : config := mk_config true true true false.

Record temporal_layout_ok (l : memory_layout) : Prop := mk_temporal_layout_ok {
  tl_layout : layout_ok l;
  tl_heap : heap_ok l;
  tl_valid : validate_shadow_layout checked_config l = Ret tt;
  tl_static : forall r s, shadows (application (part l s)) (tsegment r (part l s));
  tl_dynamic : shadows (application (ly_heap l)) (temporal_primary (ly_heap l))
}.

(** [y] is an address of the segment of kind [k] in the [i]-th partition. *)
Definition in_segment (l : memory_layout) (i : nat) (k : kind) (y : Z) : Prop :=
  exists p, mem_partitions l !! i = Some p /\ IS_ON y (kind_segment k p) = true.

(** Temporal shadow addresses of an address of a static segment, and of the heap. *)
Definition tsh (l : memory_layout) (r : tregion) (s : sseg) (a : Z) : Z :=
  sg_start (tsegment r (part l s)) + (a - sg_start (application (part l s))).
Definition ths (l : memory_layout) (x : Z) : Z := sg_start (temporal_primary (ly_heap l)) + (x - hstart l).

(** The shadows that hold referents. *)
Definition referent_shadow (l : memory_layout) (y : Z) : Prop :=
  in_segment l 0 KTemporalPrimary y \/ exists s, in_segment l (part_index s) KTemporalSecondary y.

Lemma kind_lookup l i k p : mem_partitions l !! i = Some p ->
  flat_map (partition_segments checked_config) (mem_partitions l) !! (i * 5 + kind_index k)%nat =
  Some (sg_start (kind_segment k p), sg_end (kind_segment k p)).
Proof.
  intros E. unfold partition_segments. cbn [cfg_temporal checked_config].
  destruct i as [|[|[|[|i]]]]; simpl in E; simplify_eq; by destruct k.
Qed.

Section Layout.
Context (l : memory_layout) (Ht : temporal_layout_ok l).

Lemma in_segment_unique i k j k' y : in_segment l i k y -> in_segment l j k' y -> i = j /\ k = k'.
Proof using Ht.
  intros (p & Ep & Hp) (q & Eq & Hq).
  destruct (decide (i * 5 + kind_index k = j * 5 + kind_index k')%nat) as [E|Hne].
  - assert (i = j) as -> by (destruct k, k'; simpl in E; lia). split; [done|].
    destruct k, k'; simpl in E; done || lia.
  - exfalso. pose proof (segments_apart checked_config l _ _ _ _ (tl_valid l Ht)
      (kind_lookup l i k p Ep) (kind_lookup l j k' q Eq) Hne) as Hd.
    unfold IS_ON in *. rewrite andb_true_iff, !Z.leb_le in *. simpl in Hd. lia.
Qed.

Lemma tsh_plus r s a i : tsh l r s (a + i) = tsh l r s a + i.
Proof. unfold tsh. lia. Qed.
Lemma ths_plus x i : ths l (x + i) = ths l x + i.
Proof. unfold ths. lia. Qed.

(** Where the shadows of the models are. *)
Lemma sh_segment r s a : on l s a ->
  in_segment l (part_index s) (match r with Primary => KPrimary | Secondary => KSecondary end) (sh l r s a).
Proof using Ht.
  intros Ha%on_IS_ON. exists (part l s). split; [apply part_lookup|].
  destruct (shadow_access_linear _ _ _ (lk_shadows l (tl_layout l Ht) r s) Ha) as [E Hin].
  unfold sh. rewrite <- E. by destruct r.
Qed.

Lemma tsh_segment r s a : on l s a ->
  in_segment l (part_index s) (match r with TPrimary => KTemporalPrimary | TSecondary => KTemporalSecondary end)
    (tsh l r s a).
Proof using Ht.
  intros Ha%on_IS_ON. exists (part l s). split; [apply part_lookup|].
  destruct (shadow_access_linear _ _ _ (tl_static l Ht r s) Ha) as [E Hin].
  unfold tsh. rewrite <- E. by destruct r.
Qed.

Lemma hseg_segment r y : in_hseg l r y ->
  in_segment l 0 (match r with HApp => KApplication | HPrimary => KPrimary | HSecondary => KSecondary end) y.
Proof.
  intros Hy. exists (ly_heap l). split; [done|]. unfold in_hseg, IS_ON in *.
  rewrite andb_true_iff, !Z.leb_le. by destruct r.
Qed.

Lemma ths_segment x : hon l x -> in_segment l 0 KTemporalPrimary (ths l x).
Proof using Ht.
  intros Hx%hon_IS_ON. exists (ly_heap l). split; [done|].
  destruct (shadow_access_linear _ _ _ (tl_dynamic l Ht) Hx) as [E Hin].
  unfold ths, hstart. rewrite <- E. done.
Qed.

Lemma temporal_address r s a : on l s a -> SHADOW_REGION_ADDRESS l (tsegment r) a = tsh l r s a.
Proof using Ht.
  intros H. pose proof (proj1 (on_IS_ON l s a) H) as Hon. pose proof (tl_layout l Ht) as Hl.
  destruct (shadow_access_linear _ _ _ (tl_static l Ht r s) Hon) as [E _].
  unfold tsh. rewrite <- E. unfold SHADOW_REGION_ADDRESS, IS_ON_STACK, IS_ON_GLOBAL, IS_ON_TLS.
  pose proof (on_bool l Hl s SStack a H) as H1. pose proof (on_bool l Hl s SGlobal a H) as H2.
  pose proof (on_bool l Hl s STls a H) as H3. simpl in *. rewrite H1, H2, H3. by destruct s.
Qed.

Lemma temporal_heap_address x : hon l x -> TEMPORAL_HEAP_SHADOW l x = ths l x.
Proof using Ht.
  intros Hx%hon_IS_ON. by destruct (shadow_access_linear _ _ _ (tl_dynamic l Ht) Hx).
Qed.

(** The shadows of referents are apart from the others. *)
Lemma referents_apart i k y : referent_shadow l y -> in_segment l i k y ->
  (i = 0%nat /\ k = KTemporalPrimary) \/ k = KTemporalSecondary.
Proof using Ht.
  intros [Hy|[s Hy]] H; destruct (in_segment_unique _ _ _ _ _ H Hy) as [-> ->]; auto.
Qed.

Lemma not_referent_sh r s a : on l s a -> ~ referent_shadow l (sh l r s a).
Proof using Ht.
  intros Ha H. destruct (referents_apart _ _ _ H (sh_segment r s a Ha)) as [[_ E]|E]; by destruct r.
Qed.
Lemma not_referent_stamp s a : on l s a -> ~ referent_shadow l (tsh l TPrimary s a).
Proof using Ht.
  intros Ha H. destruct (referents_apart _ _ _ H (tsh_segment TPrimary s a Ha)) as [[E _]|E]; by destruct s.
Qed.
Lemma not_referent_hseg r y : in_hseg l r y -> ~ referent_shadow l y.
Proof using Ht.
  intros Hy H. destruct (referents_apart _ _ _ H (hseg_segment r y Hy)) as [[_ E]|E]; by destruct r.
Qed.
End Layout.

(** ** Memories with temporal shadows *)

(** The memory represents [M], its temporal shadows are accessible, and the time stamp
    of a block that is not global, which takes four bytes whatever its size, is in the
    shadow. *)
Record tmodels (l : memory_layout) (m : mem) (M : amem) : Prop := mk_tmodels {
  tt_static : smodels l m (static_part M);
  tt_heap : hmodels l m (heap_part M);
  tt_mapped : forall r s, accessible m (sg_start (tsegment r (part l s))) (sg_size (application (part l s)));
  tt_hmapped : accessible m (sg_start (temporal_primary (ly_heap l))) (hend l - hstart l);
  tt_room : forall a ab s, static_part M !! a = Some ab -> s <> SGlobal -> on l s a ->
    a + 4 <= sg_end (application (part l s))
}.

(** A pointer fits in the block at [p]. *)
Definition room (M : amem) (p : Z) : Prop := exists a ab, contains M p a ab /\ p + 8 <= a + ab_size ab.

(** The addresses that have an origin: every one but those of the heap that are in no
    block. *)
Definition target (l : memory_layout) (M : amem) (p : Z) : Prop :=
  IS_ON_HEAP l p = true -> exists a ab, contains (heap_part M) p a ab.

Section Origins.
Context (cfg : config) (l : memory_layout) (Ht : temporal_layout_ok l).
Notation Hl := (tl_layout l Ht).
Notation Hh := (tl_heap l Ht).

Lemma static_size s : sg_end (application (part l s)) =
  sg_start (application (part l s)) + sg_size (application (part l s)).
Proof using Ht. destruct (lk_shadows l Hl Primary s) as (start & _ & ?). lia. Qed.

(** Accesses to the temporal shadows of a range of application addresses. *)
Lemma tsh_accessible m M r s a n : tmodels l m M -> on l s a -> a + n <= sg_end (application (part l s)) ->
  accessible m (tsh l r s a) n.
Proof using Ht.
  intros HM Ha Hn. pose proof (static_size s). unfold on in Ha.
  eapply accessible_sub; [exact (tt_mapped _ _ _ HM r s)|unfold tsh; lia..].
Qed.

Lemma ths_accessible m M x n : tmodels l m M -> hon l x -> x + n <= hend l -> accessible m (ths l x) n.
Proof using Ht.
  intros HM Hx Hn. unfold hon in Hx.
  eapply accessible_sub; [exact (tt_hmapped _ _ _ HM)|unfold ths; lia..].
Qed.

(** The origin of an address of a static segment. *)
Lemma origin_static m M s x : tmodels l m M -> on l s x ->
  (exists a ab, contains (static_part M) x a ab /\ on l s a /\
     origin_timestamp cfg l m x = if decide (s = SGlobal) then Ret GLOBAL_TEMPORAL_TIMESTAMP
                                  else load32 m (tsh l TPrimary s a)) \/
  (forall a ab, ~ contains (static_part M) x a ab) /\
    origin_timestamp cfg l m x = Ret INVALID_TEMPORAL_TIMESTAMP.
Proof using Ht.
  intros HM Hx. unfold origin_timestamp, try_segment.
  rewrite (on_not_heap l Hl s x Hx), (on_static l Hl s x Hx). unfold static_temporal_info, static_allocated_one.
  rewrite (on_global l Hl s x Hx).
  change (i2b 1) with true. cbv iota.
  destruct (sfind l Hl m _ (tt_static _ _ _ HM) s x Hx) as [Hno E|a ab Hin Hhome Hi E _]; rewrite E;
    cbn [obind]; [by right|left]. exists a, ab. split; [done|].
  rewrite (proj2 (prim_byte_nonzero _ _ _ _ Hi)). cbn [andb].
  split; [by eapply home_on0|].
  destruct (decide (s = SGlobal)) as [->|Hne].
  - by rewrite bool_decide_true.
  - rewrite bool_decide_false by done. cbn [negb andb].
    destruct (static_info_exact cfg l Hl m _ (tt_static _ _ _ HM) s x a ab Hx Hin) as (-> & _). cbn [obind].
    unfold TEMPORAL_PRIMARY_STATIC_SHADOW. f_equal.
    apply (temporal_address l Ht TPrimary s). by eapply home_on0.
Qed.

(** The origin of an address of a heap block. *)
Lemma origin_heap m M x a ab : tmodels l m M -> hon l x -> contains (heap_part M) x a ab ->
  hon l (a + 23) /\ hon l a /\
  origin_timestamp cfg l m x = (let* t := load64 m (hs l a + 16) in Ret (u32 t)).
Proof using Ht.
  intros HM Hx Hin. pose proof (block_facts l Hh m _ (tt_heap _ _ _ HM) a ab (proj1 Hin)) as Hf.
  assert (32 <= ALLOC_SIZE (ab_size ab)) by dlia. assert (hon l a /\ hon l (a + 23)) as [Ha Ha'] by (unfold hon; lia).
  split_and!; [done..|]. unfold origin_timestamp, try_segment. rewrite (hon_IS_ON l x Hx).
  unfold heap_temporal_info. change (i2b 1) with true. cbv iota. rewrite (aligned_heap_shadow l Hh x Hx).
  destruct Hin as [E Hc].
  destruct (segment_base l Hh m _ (tt_heap _ _ _ HM) x Hx) as [[_ Hno]|(a' & ab' & -> & E' & Hin')].
  { destruct (Hno a ab E). unfold in_alloc, covers in *. lia. }
  destruct (alloc_unique l m _ (tt_heap _ _ _ HM) x a ab a' ab' E E') as [<- <-];
    [unfold in_alloc, covers in *; lia|done|]. cbn [obind].
  by rewrite (heap_shadow_address l Hh a Ha).
Qed.

Lemma origin_outside m x : IS_ON_HEAP l x = false -> IS_ON_STATIC l x = false ->
  origin_timestamp cfg l m x = Ret INVALID_TEMPORAL_TIMESTAMP.
Proof. intros H1 H2. unfold origin_timestamp, try_segment. by rewrite H1, H2. Qed.

(** The three kinds of targets. *)
Lemma target_cases m M p : tmodels l m M -> target l M p ->
  (exists s, on l s p) \/ (exists a ab, hon l p /\ contains (heap_part M) p a ab) \/
  (IS_ON_HEAP l p = false /\ IS_ON_STATIC l p = false).
Proof using Ht.
  intros HM Hp. destruct (IS_ON_STATIC l p) eqn:Es.
  - left. unfold IS_ON_STATIC, IS_ON_STACK, IS_ON_GLOBAL, IS_ON_TLS in Es. rewrite !orb_true_iff in Es.
    destruct Es as [[E|E]|E]; [exists SStack|exists SGlobal|exists STls]; by apply on_IS_ON.
  - right. destruct (IS_ON_HEAP l p) eqn:Eh; [left|by right]. destruct (Hp Eh) as (a & ab & Hin).
    exists a, ab. split; [|done]. pose proof (block_facts l Hh m _ (tt_heap _ _ _ HM) a ab (proj1 Hin)).
    destruct Hin as [_ Hc]. unfold hon, covers in *. lia.
Qed.

(** A change of referents only. *)
Lemma referents_frame m m' M : tmodels l m M -> mem_ok m' -> dom m' = dom m ->
  (forall y, ~ referent_shadow l y -> m' !! y = m !! y) ->
  tmodels l m' M /\ forall p, target l M p -> origin_timestamp cfg l m' p = origin_timestamp cfg l m p.
Proof using Ht.
  intros HM Hok Hd Hy.
  assert (forall r y, in_hseg l r y -> m' !! y = m !! y) as Hhy
    by (intros r y Hr; by apply Hy, (not_referent_hseg l Ht r)).
  assert (tmodels l m' M) as HM'.
  { constructor.
    - eapply (smodels_frame l); [exact Hd|done| |apply HM]. intros r s x Hx. by apply Hy, (not_referent_sh l Ht).
    - eapply (hmodels_frame l Hh); [done|exact Hd| |apply HM]. split; intros x Hx _.
      + apply (Hhy HPrimary). by apply (hs_in l Hh).
      + apply (ibit_frame l Hh); [|done]. intros y. apply (Hhy HSecondary).
    - intros r s. eapply accessible_dom; [exact Hd|]. apply (tt_mapped _ _ _ HM).
    - eapply accessible_dom; [exact Hd|]. apply (tt_hmapped _ _ _ HM).
    - apply (tt_room _ _ _ HM). }
  split; [done|]. intros p Hp.
  destruct (target_cases m M p HM Hp) as [[s Hon]|[(a & ab & Hon & Hin)|[H1 H2]]].
  - destruct (origin_static m M s p HM Hon) as [(a & ab & Hin & Ha & ->)|[Hno ->]],
      (origin_static m' M s p HM' Hon) as [(a' & ab' & Hin' & _ & ->)|[Hno' ->]].
    + destruct (static_contains_unique l m _ (tt_static _ _ _ HM) p a ab a' ab' Hin Hin') as [<- <-].
      case_decide as Hs; [done|]. apply load_le_frame. intros y Hy4. change (Z.of_nat 4) with 4 in Hy4. apply Hy.
      replace y with (tsh l TPrimary s (a + (y - tsh l TPrimary s a))) by (rewrite tsh_plus; lia).
      apply (not_referent_stamp l Ht). pose proof (tt_room _ _ _ HM a ab s (proj1 Hin) Hs Ha).
      unfold on in *. lia.
    + by destruct (Hno' a ab).
    + by destruct (Hno a' ab').
    + done.
  - destruct (origin_heap m M p a ab HM Hon Hin) as (Ha1 & Ha & ->), (origin_heap m' M p a ab HM' Hon Hin) as (_ & _ & ->).
    unfold load64. rewrite (load_le_frame 8 m m'); [done|]. intros y Hy8. change (Z.of_nat 8) with 8 in Hy8.
    apply (Hhy HPrimary). replace y with (hs l (a + (y - hs l a))) by (rewrite hs_plus; lia).
    apply (hs_in l Hh). unfold hon in *. lia.
  - by rewrite !origin_outside.
Qed.
End Origins.

(** ** Referents, and the laws *)

Section Laws.
Context (cfg : config) (l : memory_layout) (Ht : temporal_layout_ok l).

(** The shadow of the pointer at [p], of four bytes. *)
Definition slot_cell (p y : Z) : Prop :=
  (forall i, 0 <= i < 4 -> hon l (p + i)) /\ y = ths l p \/
  exists s, (forall i, 0 <= i < 4 -> on l s (p + i)) /\ y = tsh l TSecondary s p.

Lemma slot_address m M p : tmodels l m M -> room M p ->
  exists y, accessible m y 4 /\ (forall i, 0 <= i < 4 -> referent_shadow l (y + i)) /\
    (forall m, referent_timestamp cfg l m p = load32 m y) /\
    (forall t, store_temporal_referent cfg l m p t = store32 m y t) /\ slot_cell p y.
Proof using Ht.
  intros HM (a & ab & Hin & Hle). unfold referent_timestamp, store_temporal_referent, try_segment.
  pose proof (tl_layout l Ht) as Hl. pose proof (tl_heap l Ht) as Hh.
  destruct (ab_freeable ab) eqn:Ef.
  - assert (contains (heap_part M) p a ab) as Hin' by (split; [apply heap_part_lookup; by split; [apply Hin|]|apply Hin]).
    pose proof (block_facts l Hh m _ (tt_heap _ _ _ HM) a ab (proj1 Hin')) as Hf.
    assert (a <= p < a + ab_size ab) as Hp by (destruct Hin as [_ Hc]; unfold covers in Hc; lia).
    assert (hon l p) as Hon by (unfold hon; lia). exists (ths l p). split_and!.
    + eapply (ths_accessible l Ht m M); [done|done|lia].
    + intros i Hi. left. rewrite <- ths_plus. apply (ths_segment l Ht). unfold hon in *. lia.
    + intros m1. rewrite (hon_IS_ON l p Hon). unfold heap_temporal_info. change (i2b 0) with false. cbv iota.
      by rewrite (temporal_heap_address l Ht p Hon).
    + intros t. rewrite (hon_IS_ON l p Hon). unfold heap_store_temporal_referent, PTR_SZ.
      rewrite (heap_access_passes l Hh cfg m _ (tt_heap _ _ _ HM) p a ab 8 Hon Hin') by lia. cbn [obind].
      by rewrite (temporal_heap_address l Ht p Hon).
    + left. split; [|done]. intros i Hi. unfold hon in *. lia.
  - assert (contains (static_part M) p a ab) as Hin' by (split; [apply static_part_lookup; by split; [apply Hin|]|apply Hin]).
    destruct (sm_block _ _ _ (tt_static _ _ _ HM) _ _ (proj1 Hin')) as (s & Hn & Hsz & _).
    pose proof (sblock_covers l m _ (tt_static _ _ _ HM) a ab p (proj1 Hin') (proj2 Hin')) as Hp.
    assert (on l s p) as Hon by (replace p with (a + (p - a)) by lia; apply (home_on l s a (ab_size ab)); [done|lia]).
    exists (tsh l TSecondary s p). split_and!.
    + apply (tsh_accessible l Ht m M); [done|done|]. unfold home in Hn. lia.
    + intros i Hi. right. exists s. rewrite <- tsh_plus. apply (tsh_segment l Ht TSecondary).
      unfold on, home in *. lia.
    + intros m1. rewrite (on_not_heap l Hl s p Hon), (on_static l Hl s p Hon).
      unfold static_temporal_info. change (i2b 0) with false. cbv iota. unfold TEMPORAL_SECONDARY_STATIC_SHADOW.
      f_equal. by apply (temporal_address l Ht TSecondary).
    + intros t. rewrite (on_not_heap l Hl s p Hon), (on_static l Hl s p Hon).
      unfold static_store_temporal_referent, DVALIDATE_STATIC_ACCESS, DASSERT, dcheck, PTR_SZ.
      rewrite (on_static l Hl s p Hon).
      destruct (static_allocated_exact cfg l Hl m _ (tt_static _ _ _ HM) s p 8 p Hon ltac:(lia)) as (r & Er & _ & Hr).
      assert (r = 1) as -> by (apply Hr; exists a, ab; by split_and!). rewrite Er.
      destruct (cfg_debug cfg); cbn [vassert obind i2b Z.eqb negb]; unfold TEMPORAL_SECONDARY_STATIC_SHADOW;
        f_equal; by apply (temporal_address l Ht TSecondary).
    + right. exists s. split; [|done]. intros i Hi. unfold on, home in *. lia.
Qed.

Lemma mem_load32 m y : mem_ok m -> accessible m y 4 -> exists t, load32 m y = Ret t /\ in_u 32 t.
Proof. intros Hok Ha. destruct (load_le_ret 4 m y Hok Ha) as (w & E & Hw & _). by exists w. Qed.

#[local] Existing Instance segment_temporal.

Program Definition segment_temporal_ok (M : amem) : TemporalModelOk mem (TM := segment_temporal cfg l) := {|
  tm_ok := fun m => tmodels l m M;
  tm_slot := fun _ p => room M p;
  tm_target := fun _ p => target l M p
|}.
Next Obligation.
  intros M m p HM Hp. pose proof (sm_ok _ _ _ (tt_static _ _ _ HM)) as Hok. cbn [tm_origin segment_temporal].
  destruct (target_cases l Ht m M p HM Hp) as [[s Hon]|[(a & ab & Hon & Hin)|[H1 H2]]].
  - destruct (origin_static cfg l Ht m M s p HM Hon) as [(a & ab & Hin & Ha & ->)|[_ ->]].
    + case_decide as Hs; [eexists; split; [done|split; by vm_compute]|]. apply mem_load32; [done|].
      apply (tsh_accessible l Ht m M); [done|done|]. apply (tt_room _ _ _ HM a ab s (proj1 Hin) Hs Ha).
    + eexists. split; [done|split; by vm_compute].
  - destruct (origin_heap cfg l Ht m M p a ab HM Hon Hin) as (Ha1 & Ha & ->).
    destruct (load_le_ret 8 m (hs l a + 16) Hok) as (w & E & _ & _).
    { destruct (hm_mapped _ _ _ (tt_heap _ _ _ HM)) as (_ & Hm & _). unfold hon in *.
      eapply accessible_sub; [exact Hm|unfold hs; lia..]. }
    unfold load64. rewrite E. cbn [obind]. exists (u32 w). split; [done|]. unfold u32, in_u.
    by apply Z.mod_pos_bound.
  - rewrite (origin_outside cfg l) by done. eexists. split; [done|split; by vm_compute].
Qed.
Next Obligation.
  intros M m p HM Hr. cbn [tm_referent segment_temporal].
  destruct (slot_address m M p HM Hr) as (y & Ha & _ & -> & _ & _).
  apply mem_load32; [apply (sm_ok _ _ _ (tt_static _ _ _ HM))|done].
Qed.
Next Obligation.
  intros M m p t HM Hr. cbn [tm_store tm_referent tm_origin segment_temporal].
  destruct (slot_address m M p HM Hr) as (y & Ha & Hy & Eref & -> & _).
  destruct (store_le_bytes 4 m y t Ha) as (m' & Est & Hd & Hx). exists m'. unfold store32.
  split; [done|]. pose proof (sm_ok _ _ _ (tt_static _ _ _ HM)) as Hok.
  destruct (referents_frame cfg l Ht m m' M HM) as [HM' Ho].
  { by eapply store_le_ok. } { done. }
  { intros z Hz. rewrite Hx, decide_False; [done|]. change (Z.of_nat 4) with 4. intros Hin. apply Hz.
    replace z with (y + (z - y)) by lia. apply Hy. lia. }
  split_and!; [done| |done|done]. rewrite Eref. by apply (load_store_le 4) in Est.
Qed.
End Laws.

(** ** New blocks *)

Definition without_temporal (cfg : config) : config :=
  mk_config (cfg_debug cfg) (cfg_weak_validity cfg) false (cfg_free_valid_address cfg).

(** The four bytes of the time stamp of a block at [p] are free, and no block starts
    in the three bytes before it. *)
Definition spaced (l : memory_layout) (M : amem) (s : sseg) (p : Z) : Prop :=
  home l s p 4 /\ on l s (p - 3) /\
  forall a ab, static_part M !! a = Some ab -> a < p - 3 /\ a + ab_size ab <= p \/ p + 4 <= a.

Section NewBlock.
Context (cfg : config) (l : memory_layout) (Ht : temporal_layout_ok l) (Htemp : cfg_temporal cfg = true).
Notation Hl := (tl_layout l Ht).
Notation Hh := (tl_heap l Ht).

Lemma aligned_passes m M s p : smodels l m (static_part M) -> spaced l M s p ->
  DVALIDATE_STATIC_SUFFICIENTLY_ALIGNED cfg l m p 4 = Ret tt.
Proof using Ht.
  intros HM (Hhome & Hon & Hsp). unfold DVALIDATE_STATIC_SUFFICIENTLY_ALIGNED.
  destruct (cfg_debug cfg); [|done].
  destruct (for_range_inv (fun i _ =>
      let prev := u64 (p - i) in
      let* a := static_allocated_one l m prev in
      let* _ := if i2b a then let* base := _base_addr cfg l m prev in vassert (negb (base =? prev))
                else Ret tt in
      let next := u64 (p + i) in
      let* a := static_allocated_one l m next in
      vassert (negb (i2b a))) (fun _ _ => True) 0 4 tt) as ([] & E & _); [lia|done| |exact E].
  intros i [] Hi _. exists tt. split; [|done]. cbv zeta.
  assert (on l s (p - i) /\ on l s (p + i)) as [H1 H2] by (unfold on, home in *; lia).
  pose proof (on_range l Hl s _ H1). pose proof (on_range l Hl s _ H2).
  rewrite !u64_small by done. unfold static_allocated_one.
  assert (forall a ab, ~ contains (static_part M) (p + i) a ab) as Hnext.
  { intros a ab [E Hc]. pose proof (sblock_covers l m _ HM a ab _ E Hc). destruct (Hsp a ab E); lia. }
  assert (load8 m (PRIMARY_SHADOW l (p + i)) = Ret 0) as Enext.
  { destruct (sfind l Hl m _ HM s (p + i) H2) as [_ E|a ab Hin]; [done|by destruct (Hnext a ab)]. }
  destruct (sfind l Hl m _ HM s (p - i) H1) as [Hno E|a ab Hin Hn Hi' E _]; rewrite E; cbn [obind].
  - change (i2b 0) with false. cbv iota. cbn [obind]. by rewrite Enext.
  - rewrite (proj2 (prim_byte_nonzero _ _ _ _ Hi')). unfold _base_addr.
    rewrite (predicate_static cfg l Hl m s) by done.
    destruct (static_info_exact cfg l Hl m _ HM s (p - i) a ab H1 Hin) as (-> & _). cbn [obind].
    destruct (Hsp a ab (proj1 Hin)); [|destruct Hn; lia].
    rewrite (proj2 (Z.eqb_neq a (p - i))) by lia. cbn [negb vassert obind]. by rewrite Enext.
Qed.

(** With temporal analysis, [shadow_alloca] also stamps the block. *)
Lemma shadow_alloca_stamp m ts p n : IS_ON_GLOBAL l p = false ->
  DVALIDATE_STATIC_SUFFICIENTLY_ALIGNED cfg l m p 4 = Ret tt ->
  shadow_alloca cfg l m ts p n =
  (let* (m, ts) := shadow_alloca (without_temporal cfg) l m ts p n in
   let* m := store32 m (TEMPORAL_PRIMARY_STATIC_SHADOW l p) (NEW_TEMPORAL_TIMESTAMP ts) in
   Ret (m, NEW_TEMPORAL_TIMESTAMP ts)).
Proof using Htemp.
  intros Hg Hc. unfold shadow_alloca. rewrite Htemp, Hg, Hc. cbn [andb negb without_temporal cfg_temporal obind].
  change (DVALIDATE_IS_ON_STATIC (without_temporal cfg)) with (DVALIDATE_IS_ON_STATIC cfg).
  change (DVALIDATE_NULLIFIED (without_temporal cfg)) with (DVALIDATE_NULLIFIED cfg).
  destruct (DVALIDATE_IS_ON_STATIC cfg l p n); try done. cbn [obind].
  destruct (DVALIDATE_NULLIFIED cfg m (PRIMARY_SHADOW l p) n); try done. cbn [obind].
  destruct (DVALIDATE_NULLIFIED cfg m (SECONDARY_SHADOW l p) n); try done. cbn [obind].
  match goal with |- (let* m := ?c in _) = _ => destruct c as [m1| | |] end; try done. cbn [obind].
  match goal with |- (let* m := ?c in _) = _ => destruct c as [m2| | |] end; done.
Qed.

(** The stamp of a new block of the stack or of thread-local storage: the block is
    recorded, its addresses have the new time stamp as origin, and referents are kept. *)
Lemma shadow_alloca_stamped m M ts s p n : tmodels l m M -> s <> SGlobal -> home l s p n -> n < 2 ^ 32 ->
  fresh_range M p n -> spaced l M s p -> 0 <= ts -> ts + 1 < 2 ^ 32 ->
  exists m', shadow_alloca cfg l m ts p n = Ret (m', ts + 1) /\
    tmodels l m' (<[p := mk_ablock n ∅ false false]> M) /\
    (forall q, p <= q < p + n -> origin_timestamp cfg l m' q = Ret (ts + 1)) /\
    (forall lhs, room M lhs -> referent_timestamp cfg l m' lhs = referent_timestamp cfg l m lhs).
Proof using Ht Htemp.
  intros HM Hs Hhome Hn Hf Hsp Hts Hlt. pose proof (home_on0 l s p n Hhome) as Hon.
  pose proof Hsp as (Hhome4 & _ & Hblocks).
  rewrite shadow_alloca_stamp.
  2: { rewrite (on_global l Hl s p Hon). by apply bool_decide_false. }
  2: { apply (aligned_passes m M s p); [apply HM|done]. }
  destruct (shadow_alloca_refines (without_temporal cfg) l Hl eq_refl m (static_part M) ts s p n)
    as (m1 & -> & HM1 & Htouch); [apply HM|done|done| |].
  { intros a ab [E _]%static_part_lookup. by apply Hf. }
  cbn [obind]. unfold NEW_TEMPORAL_TIMESTAMP. rewrite u32_small by (unfold in_u; lia).
  change (TEMPORAL_PRIMARY_STATIC_SHADOW l p) with (SHADOW_REGION_ADDRESS l (tsegment TPrimary) p).
  rewrite (temporal_address l Ht TPrimary s p Hon).
  pose proof Htouch as [Hd1 _].
  destruct (store_le_bytes 4 m1 (tsh l TPrimary s p) (ts + 1)) as (m2 & Est & Hd2 & Hx2).
  { eapply accessible_dom; [exact Hd1|]. apply (tsh_accessible l Ht m M); [done|done|]. unfold home in Hhome4. lia. }
  change (Z.of_nat 4) with 4 in Hx2.
  assert (forall k, 0 <= k < 4 -> on l s (p + k)) as Hon4 by (intros k Hk; unfold on, home in *; lia).
  assert (forall i k y, in_segment l i k y -> i <> part_index s \/ k <> KTemporalPrimary ->
    m2 !! y = m1 !! y) as Hy2.
  { intros i k y Hy Hne. rewrite Hx2, decide_False; [done|]. intros Hin.
    destruct (in_segment_unique l Ht i k (part_index s) KTemporalPrimary y Hy) as [-> ->].
    - replace y with (tsh l TPrimary s (p + (y - tsh l TPrimary s p))) by (rewrite tsh_plus; lia).
      apply (tsh_segment l Ht TPrimary). apply Hon4. lia.
    - by destruct Hne. }
  assert (mem_ok m2) as Hok2 by (eapply store_le_ok; [apply (sm_ok _ _ _ HM1)|exact Est]).
  assert (hmodels l m1 (heap_part M)) as HH1
    by (eapply hmodels_static_touch; [apply Hl|apply Hh|exact Htouch|apply (sm_ok _ _ _ HM1)|apply HM]).
  assert (M !! p = None) as Hnone by (destruct (M !! p) eqn:E; [by destruct (Hf p a E)|done]).
  assert (static_part (<[p := mk_ablock n ∅ false false]> M) = <[p := mk_ablock n ∅ false false]> (static_part M)) as Eins
    by by apply static_part_insert.
  assert (tmodels l m2 (<[p := mk_ablock n ∅ false false]> M)) as HM2.
  { constructor.
    - rewrite Eins. eapply (smodels_frame l); [exact Hd2|done| |exact HM1].
      intros r s' x Hx. eapply Hy2; [by apply (sh_segment l Ht r)|right; by destruct r].
    - rewrite heap_part_other by (done || congruence).
      assert (forall r y, in_hseg l r y -> m2 !! y = m1 !! y) as Hhy.
      { intros r y Hr. eapply Hy2; [by apply (hseg_segment l)|right; by destruct r]. }
      eapply (hmodels_frame l Hh); [done|exact Hd2| |exact HH1]. split; intros x Hx _.
      + apply (Hhy HPrimary). by apply (hs_in l Hh).
      + apply (ibit_frame l Hh); [|done]. intros y. apply (Hhy HSecondary).
    - intros r s'. eapply accessible_dom; [rewrite Hd2; exact Hd1|]. apply (tt_mapped _ _ _ HM).
    - eapply accessible_dom; [rewrite Hd2; exact Hd1|]. apply (tt_hmapped _ _ _ HM).
    - intros a ab s'. rewrite Eins, lookup_insert_Some. intros [[<- <-]|[_ E]] Hns Ha.
      + assert (s' = s) as -> by (by apply (on_unique l Hl s' s p)). unfold home in Hhome4. lia.
      + by apply (tt_room _ _ _ HM a ab s'). }
  exists m2. unfold store32. rewrite Est. split; [done|]. split; [done|]. split.
  - intros q Hq. assert (on l s q) as Hq'.
    { replace q with (p + (q - p)) by lia. apply (home_on l s p n); [done|lia]. }
    assert (contains (static_part (<[p := mk_ablock n ∅ false false]> M)) q p (mk_ablock n ∅ false false)) as Hin.
    { split; [rewrite Eins; by rewrite lookup_insert_eq|left; simpl; lia]. }
    destruct (origin_static cfg l Ht m2 _ s q HM2 Hq') as [(a & ab & Hin' & _ & ->)|[Hno _]]; [|by destruct (Hno _ _ Hin)].
    destruct (static_contains_unique l m2 _ (tt_static _ _ _ HM2) q _ _ _ _ Hin Hin') as [<- <-].
    rewrite decide_False by done. unfold load32. rewrite (load_store_le 4 m1 _ (ts + 1) m2 Est).
    f_equal. apply Z.mod_small. change (2 ^ (8 * Z.of_nat 4)) with (2 ^ 32). lia.
  - intros lhs Hr. destruct (slot_address cfg l Ht m M lhs HM Hr) as (y & _ & Hy & Eref & _).
    rewrite !Eref. apply load_le_frame. intros z Hz. change (Z.of_nat 4) with 4 in Hz.
    assert (referent_shadow l z) as Hrz by (replace z with (y + (z - y)) by lia; apply Hy; lia).
    transitivity (m1 !! z).
    + rewrite Hx2, decide_False; [done|]. intros Hin.
      apply (not_referent_stamp l Ht s (p + (z - tsh l TPrimary s p))); [apply Hon4; lia|].
      rewrite tsh_plus. by replace (tsh l TPrimary s p + (z - tsh l TPrimary s p)) with z by lia.
    + destruct Htouch as [_ (s0 & a0 & n0 & Hh0 & Ho)]. apply Ho; intros Hin.
      * apply (not_referent_sh l Ht Primary s0 (a0 + (z - sh l Primary s0 a0)));
          [apply (home_on l s0 a0 n0); [done|lia]|].
        rewrite sh_plus. by replace (sh l Primary s0 a0 + (z - sh l Primary s0 a0)) with z by lia.
      * apply (not_referent_sh l Ht Secondary s0 (a0 + (z - sh l Secondary s0 a0)));
          [apply (home_on l s0 a0 n0); [done|lia]|].
        rewrite sh_plus. by replace (sh l Secondary s0 a0 + (z - sh l Secondary s0 a0)) with z by lia.
Qed.
End NewBlock.

(** Use after free through a stale pointer is detected by the shadow memory model,
    as it is by the trie model: [store_block] of a block of the stack or of thread-local
    storage stamps it, all its addresses have the new time stamp as origin, stored
    referents are kept, and an access to the block through a pointer whose stored
    referent is older is temporally invalid, in debug mode and out of it. *)
Theorem shadow_stale_pointer_detected `{PB : !PublicAlloc} (cfg : config) (st : state) (M : amem)
  (s : sseg) (p n : Z) :
  cfg_temporal cfg = true -> temporal_layout_ok (st_layout st) ->
  tmodels (st_layout st) (st_mem st) M -> s <> SGlobal -> home (st_layout st) s p n -> n < 2 ^ 32 ->
  fresh_range M p n -> spaced (st_layout st) M s p ->
  0 <= temporal_timestamp st -> temporal_timestamp st + 1 < 2 ^ 32 ->
  exists st', store_block cfg st p n = Ret (p, st') /\
    tmodels (st_layout st) (st_mem st') (<[p := mk_ablock n ∅ false false]> M) /\
    (forall q, p <= q < p + n ->
      origin_timestamp cfg (st_layout st) (st_mem st') q = Ret (temporal_timestamp st + 1)) /\
    (forall lhs t q, lhs <> NULL -> room M lhs ->
      referent_timestamp cfg (st_layout st) (st_mem st) lhs = Ret t -> t <= temporal_timestamp st ->
      p <= q < p + n ->
      temporal_valid (TM := segment_temporal cfg (st_layout st)) (st_mem st') q lhs = Ret 0).
Proof.
  intros Htemp Ht HM Hs Hhome Hn Hf Hsp Hts Hlt.
  destruct (shadow_alloca_stamped cfg (st_layout st) Ht Htemp (st_mem st) M (temporal_timestamp st) s p n)
    as (m' & E & HM' & Ho & Hr); try done.
  unfold store_block, alloca. rewrite E. cbn [obind]. eexists. split; [done|]. split; [exact HM'|].
  split; [exact Ho|]. intros lhs t q Hl0 Hroom Href Ht' Hq. unfold temporal_valid.
  cbn [tm_referent tm_origin segment_temporal set_timestamp set_mem st_mem].
  rewrite (proj2 (Z.eqb_neq lhs NULL)) by done. rewrite (proj2 (Z.eqb_neq q lhs)).
  - cbn [andb negb]. rewrite Hr, Href, Ho by done. cbn [obind]. by rewrite (proj2 (Z.eqb_neq _ _)) by lia.
  - destruct Hroom as (a & ab & [E' Hc] & Hle). destruct (Hf a ab E') as [_ Hd]. unfold covers in Hc. lia.
Qed.

(** An address of the heap that is in no block: the base address that its shadow gives is
    null, and the shadow of the null pointer is read. *)
Theorem origin_of_freed_heap_faults (cfg : config) (l : memory_layout) (m : mem) (M : amem) (p : Z) :
  temporal_layout_ok l -> tmodels l m M -> hon l p -> (forall a ab, heap_part M !! a = Some ab -> ~ in_alloc a ab p) ->
  m !! (HEAP_SHADOW l 0 + 16) = None -> origin_timestamp cfg l m p = Fault.
Proof.
  intros Ht HM Hp Hno Hm. unfold origin_timestamp, try_segment. rewrite (hon_IS_ON l p Hp).
  unfold heap_temporal_info. change (i2b 1) with true. cbv iota.
  rewrite (aligned_heap_shadow l (tl_heap l Ht) p Hp).
  destruct (segment_base l (tl_heap l Ht) m _ (tt_heap _ _ _ HM) p Hp) as [[-> _]|(a & ab & _ & E & Hin)];
    [|by destruct (Hno a ab E)].
  cbn [obind]. unfold load64. cbn [load_le]. unfold load8. by rewrite Hm.
Qed.

(** ** Instances *)

(** The layout of SegTheorems.v with its temporal shadows. *)
Definition stamped_segments : list Z :=
  tiny_segments ++ 16384 :: flat_map (fun k => [4096 * (5 * k + 4); 4096 * (5 * k + 5)]) [1; 2; 3].
Definition stamped_mem : mem := foldr (fun a m => mem_fill 264 a 0 ∪ m) ∅ stamped_segments.
Definition stamping_config : config := mk_config true false true false.
Definition stamped_st0 : @state tiny_public :=
  @mk_state tiny_public stamped_mem tiny_layout (mk_spaces 4096 4352 4096) (mk_stats 0 0) 2 4128 0 true true.

Lemma stamped_accessible a n : existsb (fun b => (b <=? a) && (a + n <=? b + 264)) stamped_segments = true ->
  accessible stamped_mem a n.
Proof. apply fill_accessible. Qed.

Lemma stamped_zero x n a : accessible stamped_mem a n -> a <= x < a + n -> stamped_mem !! x = Some 0.
Proof. intros Ha Hx. apply (fill_lookup stamped_segments), Ha, Hx. Qed.

Lemma tiny_temporal_layout_ok : temporal_layout_ok tiny_layout.
Proof.
  constructor; [apply tiny_layout_ok|apply tiny_heap_ok|reflexivity| |].
  - intros r s. destruct r, s; eexists; (split; [reflexivity|]); split_and!; vm_compute; done || discriminate.
  - eexists. split; [reflexivity|]. split_and!; vm_compute; done || discriminate.
Qed.

Lemma stamped_models : tmodels tiny_layout stamped_mem ∅.
Proof.
  assert (mem_ok stamped_mem) as Hok.
  { intros x b E. assert (stamped_mem !! x = Some 0) as E0 by (apply (fill_lookup stamped_segments); eauto).
    rewrite E0 in E. injection E as <-. split; by vm_compute. }
  assert (mapped tiny_layout stamped_mem) as Hm.
  { intros r s. destruct r, s; apply stamped_accessible; reflexivity. }
  assert (hmapped tiny_layout stamped_mem) as Hhm.
  { split_and!; apply stamped_accessible; reflexivity. }
  constructor.
  - constructor; [done|done|done|done|]. intros r s x Hx _.
    apply (stamped_zero _ _ _ (Hm r s)). unfold on, sh in *.
    assert (sg_end (application (part tiny_layout s)) = sg_start (application (part tiny_layout s)) + 256 /\
      sg_size (application (part tiny_layout s)) = 256) as [E1 E2] by (destruct s; done).
    rewrite E1 in Hx. rewrite E2. lia.
  - constructor; [done|done|done|done|]. intros x Hx _. split.
    + apply (stamped_zero _ _ _ (proj1 (proj2 Hhm))). unfold hon, hs in *. lia.
    + unfold ibit, mbit. rewrite (stamped_zero _ _ _ (proj2 (proj2 Hhm))); [apply Z.testbit_0_l|].
      unfold hon in Hx. dlia.
  - intros r s. destruct r, s; apply stamped_accessible; reflexivity.
  - apply stamped_accessible. reflexivity.
  - done.
Qed.

(** A pointer at 24592, of the stack. *)
Definition stamped_st1 : @state tiny_public :=
  match @store_block tiny_public stamping_config stamped_st0 24592 8 with Ret (_, st) => st | _ => stamped_st0 end.
Definition stamped_blocks : amem := <[24592 := mk_ablock 8 ∅ false false]> ∅.

Lemma stamped_models1 : tmodels tiny_layout (st_mem stamped_st1) stamped_blocks.
Proof.
  assert (home tiny_layout SStack 24592 8) as H1 by (split_and!; by vm_compute).
  assert (spaced tiny_layout ∅ SStack 24592) as H2.
  { split; [split_and!; by vm_compute|]. split; [split; by vm_compute|]. intros a ab [E _]%static_part_lookup. done. }
  destruct (shadow_alloca_stamped stamping_config tiny_layout tiny_temporal_layout_ok eq_refl stamped_mem ∅ 2
    SStack 24592 8 stamped_models ltac:(discriminate) H1 ltac:(lia) ltac:(intros a ab E; done) H2 ltac:(lia) ltac:(lia))
    as (m' & E & HM & _).
  unfold stamped_st1, store_block, alloca.
  change (shadow_alloca stamping_config (st_layout stamped_st0) (st_mem stamped_st0) (temporal_timestamp stamped_st0))
    with (shadow_alloca stamping_config tiny_layout stamped_mem 2). rewrite E. exact HM.
Qed.

Lemma stamped_stamp1 : temporal_timestamp stamped_st1 = 3 /\ st_layout stamped_st1 = tiny_layout /\
  referent_timestamp stamping_config tiny_layout (st_mem stamped_st1) 24592 = Ret 0.
Proof. split_and!; vm_compute; reflexivity. Qed.

Lemma shadow_stale_pointer_detected_witness : exists st',
  @store_block tiny_public stamping_config stamped_st1 24608 16 = Ret (24608, st') /\
  @temporal_valid mem (segment_temporal stamping_config tiny_layout) (st_mem st') 24610 24592 = Ret 0.
Proof.
  destruct stamped_stamp1 as (Ets & El & Eref).
  assert (home tiny_layout SStack 24608 16) as H1 by (split_and!; by vm_compute).
  assert (spaced tiny_layout stamped_blocks SStack 24608) as H2.
  { split; [split_and!; by vm_compute|]. split; [split; by vm_compute|].
    intros a ab Hin%static_part_lookup. destruct Hin as [Hin _]. unfold stamped_blocks in Hin.
    apply lookup_insert_Some in Hin as [[<- <-]|[_ Hin]]; [|done]. left. simpl. lia. }
  assert (fresh_range stamped_blocks 24608 16) as H3 by (apply fresh_check; reflexivity).
  pose proof (@shadow_stale_pointer_detected tiny_public stamping_config stamped_st1 stamped_blocks SStack 24608 16)
    as H. rewrite Ets, El in H.
  destruct (H eq_refl tiny_temporal_layout_ok stamped_models1 ltac:(discriminate) H1 ltac:(lia)
    H3 H2 ltac:(lia) ltac:(lia)) as (st' & E & _ & _ & Hv).
  exists st'. split; [exact E|]. apply (Hv 24592 0 24610); [discriminate| |exact Eref|lia|lia].
  exists 24592, (mk_ablock 8 ∅ false false). split; [split; [reflexivity|left; simpl; lia]|simpl; lia].
Defined.
