(* ===== verification/SegStamps.v ===== *)
(** * Time stamps in the shadow memory model

    With temporal analysis the blocks of the shadow model carry time stamps and the
    pointers the time stamps of their referents.  The shadows represent two maps, and
    every operation on memory, and every store of a referent, changes them as it should. *)

From S2P Require Import Prelude AMem Alloc Temporal Bits Mask CString Shadow Segment SegModel SegStatic SegHeap SegTrace SegTheorems SegTemporal.

(** ** Places

    The shadows that the representation of memory and stamps reads: the bytes of the
    shadows of the static segments, of the primary shadow of the heap, and of the
    temporal ones, each for an address of the application. *)

Inductive place : Type :=
| PShadow (r : region) (s : sseg)
| PStamp (r : tregion) (s : sseg)
| PHeap
| PHeapStamp.

Definition place_on (l : memory_layout) (c : place) (x : Z) : Prop :=
  match c with PShadow _ s | PStamp _ s => on l s x | PHeap | PHeapStamp => hon l x end.
Definition place_addr (l : memory_layout) (c : place) (x : Z) : Z :=
  match c with
  | PShadow r s => sh l r s x | PStamp r s => tsh l r s x | PHeap => hs l x | PHeapStamp => ths l x
  end.
Definition place_index (c : place) : nat :=
  match c with PShadow _ s | PStamp _ s => part_index s | PHeap | PHeapStamp => 0%nat end.
Definition place_kind (c : place) : kind :=
  match c with
  | PShadow Primary _ | PHeap => KPrimary
  | PShadow Secondary _ => KSecondary
  | PStamp TPrimary _ | PHeapStamp => KTemporalPrimary
  | PStamp TSecondary _ => KTemporalSecondary
  end.

(** The temporal shadows. *)
Definition temporal_kind (k : kind) : bool :=
  match k with KTemporalPrimary | KTemporalSecondary => true | _ => false end.

(** The memory has changed, among the places, at those of [P] only. *)
Definition changed (l : memory_layout) (m m' : mem) (P : place -> Z -> Prop) : Prop :=
  dom m' = dom m /\
  forall c x, place_on l c x -> ~ P c x -> m' !! place_addr l c x = m !! place_addr l c x.

(** The memory has changed in the temporal shadows only. *)
Definition stamps_touch (l : memory_layout) (m m' : mem) : Prop :=
  dom m' = dom m /\
  forall i k y, in_segment l i k y -> temporal_kind k = false -> m' !! y = m !! y.

Section Places.
Context (l : memory_layout) (Ht : temporal_layout_ok l).
Notation Hl := (tl_layout l Ht).
Notation Hh := (tl_heap l Ht).

Lemma place_plus c x i : place_addr l c (x + i) = place_addr l c x + i.
Proof. destruct c; [apply sh_plus|apply tsh_plus|apply hs_plus|apply ths_plus]. Qed.

Lemma place_segment c x : place_on l c x -> in_segment l (place_index c) (place_kind c) (place_addr l c x).
Proof using Ht.
  destruct c as [r s|r s| |]; cbn [place_on place_index place_addr]; intros Hx.
  - pose proof (sh_segment l Ht r s x Hx). by destruct r.
  - pose proof (tsh_segment l Ht r s x Hx). by destruct r.
  - apply (hseg_segment l HPrimary), hs_in; [apply Hh|done].
  - by apply (ths_segment l Ht).
Qed.

Lemma place_inj c x c' x' : place_on l c x -> place_on l c' x' ->
  place_addr l c x = place_addr l c' x' -> c = c' /\ x = x'.
Proof using Ht.
  intros Hx Hx' E. pose proof (place_segment c x Hx) as H. rewrite E in H.
  destruct (in_segment_unique l Ht _ _ _ _ _ H (place_segment c' x' Hx')) as [Ei Ek].
  assert (c = c') as <-.
  { destruct c as [[] []|[] []| |], c' as [[] []|[] []| |]; cbn in Ei, Ek; done. }
  split; [done|]. replace x' with (x + (x' - x)) in E by lia. rewrite place_plus in E. lia.
Qed.

Lemma changed_refl m P : changed l m m P.
Proof. done. Qed.

Lemma changed_trans m1 m2 m3 P Q : changed l m1 m2 P -> changed l m2 m3 Q ->
  changed l m1 m3 (fun c x => P c x \/ Q c x).
Proof. intros [D1 H1] [D2 H2]. split; [congruence|]. intros c x Hx Hn. rewrite H2, H1; tauto. Qed.

Lemma changed_weaken m m' P Q : (forall c x, P c x -> Q c x) -> changed l m m' P -> changed l m m' Q.
Proof. intros HPQ [D H]. split; [done|]. intros c x Hx Hn. apply H; [done|]. intros HP. by apply Hn, HPQ. Qed.

(** Changes of the two models. *)
Lemma changed_static m m' : static_touch l m m' -> changed l m m' (fun c _ => exists r s, c = PShadow r s).
Proof using Ht.
  intros [D (s & a & n & Hn & Ho)]. split; [done|]. intros c x Hx Hc.
  assert (forall r, ~ (sh l r s a <= place_addr l c x < sh l r s a + n)) as Hout.
  { intros r Hin. apply Hc. exists r, s.
    refine (proj1 (place_inj c x (PShadow r s) (a + (place_addr l c x - sh l r s a)) Hx _ _)).
    - apply (home_on l s a n); [done|lia].
    - rewrite place_plus. cbn [place_addr]. lia. }
  apply Ho; apply Hout.
Qed.

Lemma changed_heap m m' P : heap_touch l m m' ->
  (forall x, hon l x -> ~ P x -> m' !! hs l x = m !! hs l x) ->
  changed l m m' (fun c x => c = PHeap /\ P x).
Proof using Ht.
  intros [D Ho] Hp. split; [done|]. intros c x Hx Hc. pose proof (place_segment c x Hx) as Hs.
  assert (c = PHeap \/ c <> PHeap) as [->|Hne] by (destruct c; auto; by right).
  - apply Hp; [done|]. intros Hx'. by apply Hc.
  - apply Ho. intros r Hr. destruct (in_segment_unique l Ht _ _ _ _ _ Hs (hseg_segment l r _ Hr)) as [Ei Ek].
    destruct c as [[] []|[] []| |], r; try done; by apply Hne.
Qed.

Lemma changed_metadata m m' : metadata_touch l m m' -> changed l m m' (fun c _ => exists r s, c = PShadow r s).
Proof using Ht.
  intros [H|[H Hp]]; [by apply changed_static|].
  apply (changed_weaken m m' (fun c x => c = PHeap /\ False)); [tauto|].
  apply changed_heap; [done|]. intros x Hx _. by apply Hp.
Qed.

(** A change of [n] bytes in one place. *)
Lemma changed_range c p n m m' : dom m' = dom m ->
  (forall y, ~ (place_addr l c p <= y < place_addr l c p + n) -> m' !! y = m !! y) ->
  (forall x, p <= x < p + n -> place_on l c x) ->
  changed l m m' (fun c' x => c' = c /\ p <= x < p + n).
Proof using Ht.
  intros D Ho Hr. split; [done|]. intros c' x Hx Hc. apply Ho. intros Hin. apply Hc.
  destruct (place_inj c' x c (p + (place_addr l c' x - place_addr l c p)) Hx) as [-> E];
    [apply Hr; lia|rewrite place_plus; lia|]. split; [done|lia].
Qed.

Lemma stamps_touch_range c p n m m' : temporal_kind (place_kind c) = true -> dom m' = dom m ->
  (forall y, ~ (place_addr l c p <= y < place_addr l c p + n) -> m' !! y = m !! y) ->
  (forall x, p <= x < p + n -> place_on l c x) -> stamps_touch l m m'.
Proof using Ht.
  intros Hc D Ho Hr. split; [done|]. intros i k y Hy Hk. apply Ho. intros Hin.
  pose proof (place_segment c (p + (y - place_addr l c p)) ltac:(apply Hr; lia)) as Hs.
  rewrite place_plus in Hs. replace (place_addr l c p + (y - place_addr l c p)) with y in Hs by lia.
  destruct (in_segment_unique l Ht _ _ _ _ _ Hy Hs) as [_ ->]. congruence.
Qed.

Lemma stamps_touch_trans m1 m2 m3 : stamps_touch l m1 m2 -> stamps_touch l m2 m3 -> stamps_touch l m1 m3.
Proof. intros [D1 H1] [D2 H2]. split; [congruence|]. intros i k y Hy Hk. rewrite (H2 i k), (H1 i k); done. Qed.

(** The representation of memory does not read the temporal shadows. *)
Lemma stamps_touch_models m m' M M' : mem_ok m' -> stamps_touch l m m' ->
  smodels l m M -> hmodels l m M' -> smodels l m' M /\ hmodels l m' M'.
Proof using Ht.
  intros Hok [D H] Hs HM.
  assert (forall r y, in_hseg l r y -> m' !! y = m !! y) as Hhy
    by (intros r y Hr; apply (H _ _ y (hseg_segment l r y Hr)); by destruct r).
  split.
  - eapply (smodels_frame l); [exact D|done| |done]. intros r s x Hx.
    apply (H _ _ _ (sh_segment l Ht r s x Hx)). by destruct r.
  - eapply (hmodels_frame l Hh); [done|exact D| |done]. split; intros x Hx _.
    + apply (Hhy HPrimary). by apply (hs_in l Hh).
    + apply (ibit_frame l Hh); [|done]. intros y. apply (Hhy HSecondary).
Qed.
End Places.

(** ** Stamps and referents *)

(** The time stamp of a block at [a], of the heap or not. *)
Definition stamp_of (l : memory_layout) (m : mem) (a : Z) (heap : bool) (t : Z) : Prop :=
  if heap then load64 m (hs l a + 16) = Ret t /\ in_u 32 t
  else forall s, on l s a ->
    if decide (s = SGlobal) then t = GLOBAL_TEMPORAL_TIMESTAMP else load32 m (tsh l TPrimary s a) = Ret t.

(** The places that hold it, and those of the referent of a pointer. *)
Definition stamp_cell (l : memory_layout) (a : Z) (heap : bool) (c : place) (x : Z) : Prop :=
  if heap then c = PHeap /\ a + 16 <= x < a + 24
  else exists s, s <> SGlobal /\ on l s a /\ c = PStamp TPrimary s /\ a <= x < a + 4.
Definition referent_cell (lhs : Z) (c : place) (x : Z) : Prop :=
  (c = PHeapStamp \/ exists s, c = PStamp TSecondary s) /\ lhs <= x < lhs + 4.

(** What the shadows say of the time stamps of the blocks and of pointers. *)
Record tracks (cfg : config) (l : memory_layout) (m : mem) (M : amem) (T R : gmap Z Z) : Prop := mk_tracks {
  tk_models : tmodels l m M;
  tk_apart : forall a ab a' ab' s, static_part M !! a = Some ab -> static_part M !! a' = Some ab' ->
    a < a' -> s <> SGlobal -> on l s a -> on l s a' -> a + 4 <= a';
  tk_stamps : forall a ab, M !! a = Some ab -> exists t, T !! a = Some t /\ stamp_of l m a (ab_freeable ab) t;
  tk_referents : forall lhs t, R !! lhs = Some t -> room M lhs /\ referent_timestamp cfg l m lhs = Ret t
}.

(** The origin of an address: the time stamp of its block, or the invalid one outside
    of the blocks and of the heap. *)
Definition origin_is (l : memory_layout) (M : amem) (T : gmap Z Z) (q t : Z) : Prop :=
  (exists a ab, contains M q a ab /\ T !! a = Some t) \/
  ((forall a ab, ~ contains M q a ab) /\ IS_ON_HEAP l q = false /\ t = INVALID_TEMPORAL_TIMESTAMP).

Section Tracks.
Context (cfg : config) (l : memory_layout) (Ht : temporal_layout_ok l).
Notation Hl := (tl_layout l Ht).
Notation Hh := (tl_heap l Ht).

(** The cells of a block are places. *)
Lemma stamp_cell_on m M a ab c x : tmodels l m M -> M !! a = Some ab ->
  stamp_cell l a (ab_freeable ab) c x -> place_on l c x.
Proof using Ht.
  intros HM E. unfold stamp_cell. destruct (ab_freeable ab) eqn:Ef.
  - intros [-> Hx]. change (hon l x). assert (heap_part M !! a = Some ab) as E' by (by apply heap_part_lookup).
    pose proof (block_facts l Hh m _ (tt_heap _ _ _ HM) a ab E'). unfold hon.
    assert (32 <= ALLOC_SIZE (ab_size ab)) by dlia. lia.
  - intros (s & Hs & Ha & -> & Hx). change (on l s x).
    assert (static_part M !! a = Some ab) as E' by (by apply static_part_lookup).
    pose proof (tt_room _ _ _ HM a ab s E' Hs Ha). unfold on in *. lia.
Qed.

Lemma stamp_frame m m' P M a ab t : tmodels l m M -> M !! a = Some ab -> changed l m m' P ->
  (forall c x, stamp_cell l a (ab_freeable ab) c x -> ~ P c x) ->
  stamp_of l m a (ab_freeable ab) t -> stamp_of l m' a (ab_freeable ab) t.
Proof using Ht.
  intros HM E [D H] Hc.
  assert (forall c x, stamp_cell l a (ab_freeable ab) c x -> m' !! place_addr l c x = m !! place_addr l c x) as Hx.
  { intros c x Hin. apply H; [by apply (stamp_cell_on m M a ab)|by apply Hc]. }
  unfold stamp_of, stamp_cell in *. destruct (ab_freeable ab).
  - intros [E1 Hu]. split; [|done]. rewrite <- E1. apply load_le_frame. intros y Hy.
    change (Z.of_nat 8) with 8 in Hy. replace y with (place_addr l PHeap (a + (y - hs l a))).
    + apply Hx. split; [done|lia].
    + rewrite place_plus. cbn [place_addr]. lia.
  - intros Hs s Ha. specialize (Hs s Ha). case_decide as Hne; [done|]. rewrite <- Hs.
    apply load_le_frame. intros y Hy. change (Z.of_nat 4) with 4 in Hy.
    replace y with (place_addr l (PStamp TPrimary s) (a + (y - tsh l TPrimary s a))).
    + apply Hx. exists s. split_and!; [done..|lia|lia].
    + rewrite place_plus. cbn [place_addr]. lia.
Qed.

Lemma referent_frame m m' P M lhs : tmodels l m M -> room M lhs -> changed l m m' P ->
  (forall c x, referent_cell lhs c x -> place_on l c x -> ~ P c x) ->
  referent_timestamp cfg l m' lhs = referent_timestamp cfg l m lhs.
Proof using Ht.
  intros HM Hr [D H] Hc. destruct (slot_address cfg l Ht m M lhs HM Hr) as (y & _ & _ & E & _ & Hy).
  rewrite !E. apply load_le_frame. intros z Hz. change (Z.of_nat 4) with 4 in Hz.
  destruct Hy as [[Hon ->]|(s & Hon & ->)].
  - replace z with (place_addr l PHeapStamp (lhs + (z - ths l lhs))) by (rewrite place_plus; cbn [place_addr]; lia).
    apply H; [apply Hon; lia|]. apply Hc; [|apply Hon; lia]. split; [by left|lia].
  - replace z with (place_addr l (PStamp TSecondary s) (lhs + (z - tsh l TSecondary s lhs)))
      by (rewrite place_plus; cbn [place_addr]; lia).
    apply H; [apply Hon; lia|]. apply Hc; [|apply Hon; lia]. split; [right; by exists s|lia].
Qed.

(** The origins that the shadows give. *)
Lemma origin_exact m M T R q t : tracks cfg l m M T R -> origin_is l M T q t ->
  origin_timestamp cfg l m q = Ret t.
Proof using Ht.
  intros [HM _ HT _] [(a & ab & [E Hc] & Et)|(Hno & Hheap & ->)].
  - destruct (HT a ab E) as (t' & Et' & Hst). assert (t' = t) as -> by congruence.
    unfold stamp_of in Hst. destruct (ab_freeable ab) eqn:Ef.
    + assert (contains (heap_part M) q a ab) as Hin by (split; [by apply heap_part_lookup|done]).
      pose proof (block_facts l Hh m _ (tt_heap _ _ _ HM) a ab (proj1 Hin)).
      destruct (origin_heap cfg l Ht m M q a ab HM ltac:(unfold hon, covers in *; lia) Hin) as (_ & _ & ->).
      destruct Hst as [-> Hu]. cbn [obind]. by rewrite u32_small.
    + assert (contains (static_part M) q a ab) as Hin by (split; [by apply static_part_lookup|done]).
      destruct (sm_block _ _ _ (tt_static _ _ _ HM) _ _ (proj1 Hin)) as (s & Hn & _).
      pose proof (sblock_covers l m _ (tt_static _ _ _ HM) a ab q (proj1 Hin) Hc) as Hi.
      assert (on l s q) as Hq by (replace q with (a + (q - a)) by lia; apply (home_on l s a (ab_size ab)); [done|lia]).
      destruct (origin_static cfg l Ht m M s q HM Hq) as [(a' & ab' & Hin' & Ha' & ->)|[Hno _]]; [|by destruct (Hno a ab)].
      destruct (static_contains_unique l m _ (tt_static _ _ _ HM) q a ab a' ab' Hin Hin') as [<- <-].
      specialize (Hst s Ha'). case_decide; [by subst|done].
  - destruct (target_cases l Ht m M q HM) as [[s Hon]|[(a & ab & Hon & Hin)|[H1 H2]]].
    + unfold target. by rewrite Hheap.
    + destruct (origin_static cfg l Ht m M s q HM Hon) as [(a & ab & Hin & _)|[_ ->]]; [|done].
      destruct Hin as [[E _]%static_part_lookup Hc]. by destruct (Hno a ab).
    + destruct Hin as [[E _]%heap_part_lookup Hc]. by destruct (Hno a ab).
    + by apply origin_outside.
Qed.

(** Tracking is kept when the stamps and referents that remain are not written. *)
Lemma tracks_frame m m' M M' T T' R R' P : tracks cfg l m M T R -> changed l m m' P -> tmodels l m' M' ->
  (forall a ab a' ab' s, static_part M' !! a = Some ab -> static_part M' !! a' = Some ab' ->
    a < a' -> s <> SGlobal -> on l s a -> on l s a' -> a + 4 <= a') ->
  (forall a ab, M' !! a = Some ab ->
     (exists ab0, M !! a = Some ab0 /\ ab_freeable ab0 = ab_freeable ab /\ T' !! a = T !! a /\
        forall c x, stamp_cell l a (ab_freeable ab) c x -> ~ P c x) \/
     (exists t, T' !! a = Some t /\ stamp_of l m' a (ab_freeable ab) t)) ->
  (forall lhs t, R' !! lhs = Some t -> room M' lhs /\
     (R !! lhs = Some t /\ (forall c x, referent_cell lhs c x -> place_on l c x -> ~ P c x) \/
      referent_timestamp cfg l m' lhs = Ret t)) ->
  tracks cfg l m' M' T' R'.
Proof using Ht.
  intros [HM Hap HT HR] Hch HM' Hap' HT' HR'. constructor; [done|done| |].
  - intros a ab E. destruct (HT' a ab E) as [(ab0 & E0 & Ef & Et & Hc)|Hnew]; [|done].
    destruct (HT a ab0 E0) as (t & Et0 & Hst). exists t. split; [congruence|]. rewrite <- Ef in Hc |- *.
    by apply (stamp_frame m m' P M a ab0 t).
  - intros lhs t E. destruct (HR' lhs t E) as [Hroom [[E0 Hc]|Hnew]]; [|done]. split; [done|].
    destruct (HR lhs t E0) as [Hroom0 <-]. by apply (referent_frame m m' P M lhs).
Qed.
End Tracks.

(** ** Changes of the blocks *)

Section Blocks.
Context (cfg : config) (l : memory_layout) (Ht : temporal_layout_ok l).
Notation Hl := (tl_layout l Ht).
Notation Hh := (tl_heap l Ht).

(** The shadows of the static segments, which hold neither stamps nor referents. *)
Definition in_shadow (c : place) (x : Z) : Prop := exists r s, c = PShadow r s.

Lemma shadow_not_stamp a heap c x : stamp_cell l a heap c x -> ~ in_shadow c x.
Proof. unfold stamp_cell. intros H (r & s & ->). destruct heap; naive_solver. Qed.
Lemma shadow_not_referent lhs c x : referent_cell lhs c x -> ~ in_shadow c x.
Proof. intros [[-> |[s ->]] _] (r & s' & E); discriminate E. Qed.

Lemma tmodels_next m m' M M' : tmodels l m M -> dom m' = dom m ->
  smodels l m' (static_part M') -> hmodels l m' (heap_part M') ->
  (forall a ab s, static_part M' !! a = Some ab -> s <> SGlobal -> on l s a ->
    a + 4 <= sg_end (application (part l s))) -> tmodels l m' M'.
Proof.
  intros HM D Hs Hm Hr. constructor; [done|done| | |done].
  - intros r s. eapply accessible_dom; [exact D|]. apply (tt_mapped _ _ _ HM).
  - eapply accessible_dom; [exact D|]. apply (tt_hmapped _ _ _ HM).
Qed.

(** The parts after an update that keeps the size and the kind of a block. *)
Lemma part_update M a ab ab' x ab1 : M !! a = Some ab -> ab_freeable ab' = ab_freeable ab ->
  static_part (<[a := ab']> M) !! x = Some ab1 -> exists ab0, static_part M !! x = Some ab0.
Proof.
  intros E Ef [Ex Es]%static_part_lookup. apply lookup_insert_Some in Ex as [[<- <-]|[Hne Ex]].
  - exists ab. apply static_part_lookup. split; [done|congruence].
  - exists ab1. by apply static_part_lookup.
Qed.

Lemma room_update M a ab ab' lhs : M !! a = Some ab -> ab_size ab' = ab_size ab ->
  room M lhs -> room (<[a := ab']> M) lhs.
Proof.
  intros E Es (b & bb & [Eb Hc] & Hle). destruct (decide (b = a)) as [->|Hne].
  - assert (bb = ab) as -> by congruence. exists a, ab'. rewrite Es. split; [|done].
    split; [apply lookup_insert_eq|by rewrite Es].
  - exists b, bb. split; [|done]. split; [by rewrite lookup_insert_ne|done].
Qed.

Lemma tracks_update m m' M T R a ab ab' : tracks cfg l m M T R -> M !! a = Some ab ->
  ab_size ab' = ab_size ab -> ab_freeable ab' = ab_freeable ab -> changed l m m' in_shadow ->
  smodels l m' (static_part (<[a := ab']> M)) -> hmodels l m' (heap_part (<[a := ab']> M)) ->
  tracks cfg l m' (<[a := ab']> M) T R.
Proof using Ht.
  intros HT E Es Ef Hch Hs Hm. pose proof HT as [HM Hap HTs HR].
  apply (tracks_frame cfg l Ht m m' M _ T T R R in_shadow); [done|done| | | |].
  - apply (tmodels_next m m' M); [done|apply Hch|done|done|].
    intros x ab1 s Hx. destruct (part_update M a ab ab' x ab1 E Ef Hx) as [ab0 H0]. by apply (tt_room _ _ _ HM x ab0).
  - intros x ab1 y ab2 s Hx Hy. destruct (part_update M a ab ab' x ab1 E Ef Hx) as [ab3 H3].
    destruct (part_update M a ab ab' y ab2 E Ef Hy) as [ab4 H4]. by apply (Hap x ab3 y ab4).
  - intros x ab1 Hx. left. apply lookup_insert_Some in Hx as [[<- <-]|[Hne Hx]].
    + exists ab. split_and!; [done..|]. intros c y. apply shadow_not_stamp.
    + exists ab1. split_and!; [done..|]. intros c y. apply shadow_not_stamp.
  - intros lhs t Hx. destruct (HR lhs t Hx) as [Hr _]. split; [by apply (room_update M a ab)|].
    left. split; [done|]. intros c x Hc _. by apply (shadow_not_referent lhs).
Qed.

(** A new block. *)
Lemma room_insert M p ab lhs : M !! p = None -> room M lhs -> room (<[p := ab]> M) lhs.
Proof.
  intros Hnone (b & bb & [Eb Hc] & Hle). exists b, bb. split; [|done].
  split; [|done]. rewrite lookup_insert_ne; [done|]. intros ->. congruence.
Qed.

Lemma tracks_insert m m' M T R p ab t P : tracks cfg l m M T R -> M !! p = None ->
  changed l m m' P -> smodels l m' (static_part (<[p := ab]> M)) -> hmodels l m' (heap_part (<[p := ab]> M)) ->
  (forall s, ab_freeable ab = false -> s <> SGlobal -> on l s p -> spaced l M s p) ->
  stamp_of l m' p (ab_freeable ab) t ->
  (forall a ab0 c x, M !! a = Some ab0 -> stamp_cell l a (ab_freeable ab0) c x -> ~ P c x) ->
  (forall lhs c x, referent_cell lhs c x -> ~ P c x) ->
  tracks cfg l m' (<[p := ab]> M) (<[p := t]> T) R.
Proof using Ht.
  intros HT Hnone Hch Hs Hm Hsp Hst Hstamps Hrefs. pose proof HT as [HM Hap HTs HR].
  assert (forall a ab0, static_part (<[p := ab]> M) !! a = Some ab0 ->
    (a = p /\ ab_freeable ab = false) \/ static_part M !! a = Some ab0) as Hpart.
  { intros a ab0 [Ea Ef]%static_part_lookup. apply lookup_insert_Some in Ea as [[<- <-]|[Hne Ea]]; [by left|].
    right. by apply static_part_lookup. }
  apply (tracks_frame cfg l Ht m m' M _ T _ R R P); [done|done| | | |].
  - apply (tmodels_next m m' M); [done|apply Hch|done|done|].
    intros a ab0 s Ha Hg Hon. destruct (Hpart a ab0 Ha) as [[-> Ef]|H0]; [|by apply (tt_room _ _ _ HM a ab0)].
    destruct (Hsp s Ef Hg Hon) as ((_ & _ & ?) & _). lia.
  - intros a ab1 a' ab2 s Ha Ha' Hlt Hg Hon Hon'.
    destruct (Hpart a ab1 Ha) as [[-> Ef]|H1], (Hpart a' ab2 Ha') as [[-> Ef']|H2].
    + lia.
    + destruct (Hsp s Ef Hg Hon) as (_ & _ & Hb). destruct (Hb a' ab2 H2); lia.
    + destruct (Hsp s Ef' Hg Hon') as (_ & _ & Hb). destruct (Hb a ab1 H1); lia.
    + by apply (Hap a ab1 a' ab2 s).
  - intros a ab0 Ha. apply lookup_insert_Some in Ha as [[<- <-]|[Hne Ha]].
    + right. exists t. by rewrite lookup_insert_eq.
    + left. exists ab0. rewrite lookup_insert_ne by done. split_and!; [done..|].
      intros c x. by apply (Hstamps a ab0).
  - intros lhs t0 E. destruct (HR lhs t0 E) as [Hr _]. split; [by apply room_insert|].
    left. split; [done|]. intros c x Hc _. by apply (Hrefs lhs).
Qed.

(** A block that is removed takes the referents of its pointers with it. *)
Definition outside_block (p n : Z) (R : gmap Z Z) : gmap Z Z :=
  filter (fun x => x.1 < p \/ p + n <= x.1) R.

Lemma tracks_delete m m' M T R p ab P : tracks cfg l m M T R -> M !! p = Some ab -> 0 < ab_size ab ->
  changed l m m' P -> smodels l m' (static_part (delete p M)) -> hmodels l m' (heap_part (delete p M)) ->
  (forall a ab0 c x, M !! a = Some ab0 -> a <> p -> stamp_cell l a (ab_freeable ab0) c x -> ~ P c x) ->
  (forall lhs a ab0 c x, contains M lhs a ab0 -> a <> p -> lhs + 8 <= a + ab_size ab0 ->
     referent_cell lhs c x -> place_on l c x -> ~ P c x) ->
  tracks cfg l m' (delete p M) (delete p T) (outside_block p (ab_size ab) R).
Proof using Ht.
  intros HT E Hpos Hch Hs Hm Hstamps Hrefs. pose proof HT as [HM Hap HTs HR].
  assert (forall a ab0, static_part (delete p M) !! a = Some ab0 -> static_part M !! a = Some ab0) as Hpart.
  { intros a ab0 [Ea Ef]%static_part_lookup. apply lookup_delete_Some in Ea as [_ Ea].
    by apply static_part_lookup. }
  apply (tracks_frame cfg l Ht m m' M _ T _ R _ P); [done|done| | | |].
  - apply (tmodels_next m m' M); [done|apply Hch|done|done|].
    intros a ab0 s Ha. by apply (tt_room _ _ _ HM a ab0), Hpart.
  - intros a ab1 a' ab2 s Ha Ha'. by apply (Hap a ab1 a' ab2 s); apply Hpart.
  - intros a ab0 Ha. apply lookup_delete_Some in Ha as [Hne Ha].
    left. exists ab0. rewrite lookup_delete_ne by done. split_and!; [done..|].
    intros c x. by apply (Hstamps a ab0).
  - intros lhs t Hlhs. apply map_lookup_filter_Some in Hlhs as [Hlhs Hout]. cbn in Hout.
    destruct (HR lhs t Hlhs) as [(a & ab0 & [Ea Hc] & Hle) _].
    assert (a <> p) as Hne.
    { intros ->. assert (ab0 = ab) as -> by congruence. unfold covers in Hc. lia. }
    split.
    + exists a, ab0. split; [|done]. split; [by rewrite lookup_delete_ne|done].
    + left. split; [done|]. intros c x Hcell Hon. by apply (Hrefs lhs a ab0).
Qed.
End Blocks.

(** ** The abstract stamps *)

(** The time stamps of the blocks, the referents that have been stored for pointers, and
    the last time stamp. *)
Record stamps : Type := mk_stamps {
  s_time : gmap Z Z;
  s_referents : gmap Z Z;
  s_last : Z
}.

Definition set_stamp (p t : Z) (S : stamps) : stamps :=
  mk_stamps (<[p := t]> (s_time S)) (s_referents S) (s_last S).
Definition new_stamp (p : Z) (S : stamps) : stamps :=
  mk_stamps (<[p := s_last S + 1]> (s_time S)) (s_referents S) (s_last S + 1).
Definition forget_block (p n : Z) (S : stamps) : stamps :=
  mk_stamps (delete p (s_time S)) (outside_block p n (s_referents S)) (s_last S).

(** A stored referent replaces those of the pointers that overlap. *)
Definition set_referent (lhs t : Z) (S : stamps) : stamps :=
  mk_stamps (s_time S)
    (<[lhs := t]> (filter (fun x => x.1 + 4 <= lhs \/ lhs + 4 <= x.1) (s_referents S))) (s_last S).

(** Clearing two ranges. *)
Lemma memset_swap {A} m a n b k v (f : mem -> outcome A) : 0 <= n -> 0 <= k ->
  accessible m a n -> accessible m b k ->
  (let* m := memset m a v n in let* m := memset m b v k in f m) =
  (let* m := memset m b v k in let* m := memset m a v n in f m).
Proof.
  intros Hn Hk Ha Hb.
  destruct (memset_spec m a v n Hn Ha) as (m1 & -> & D1 & X1), (memset_spec m b v k Hk Hb) as (m2 & -> & D2 & X2).
  cbn [obind].
  destruct (memset_spec m1 b v k Hk) as (m3 & -> & _ & X3); [by eapply accessible_dom|].
  destruct (memset_spec m2 a v n Hn) as (m4 & -> & _ & X4); [by eapply accessible_dom|].
  cbn [obind]. f_equal. apply map_eq. intros x. rewrite X3, X4, X1, X2. by repeat case_decide.
Qed.

Section Operations.
Context `{PB : !PublicAlloc} (cfg : config) (pg : program) (Htemp : cfg_temporal cfg = true).

Record tracked (st : state) (M : amem) (S : stamps) : Prop := mk_tracked {
  td_models : seg_models st M;
  td_layout : temporal_layout_ok (st_layout st);
  td_tracks : tracks cfg (st_layout st) (st_mem st) M (s_time S) (s_referents S);
  td_last : temporal_timestamp st = s_last S;
  td_pos : 0 <= s_last S
}.

Lemma seg_models_next st M' m' t : state_ok st -> smodels (st_layout st) m' (static_part M') ->
  hmodels (st_layout st) m' (heap_part M') -> heap_allocation_size (st_stats st) = u64 (heap_bytes M') ->
  seg_models (set_timestamp (set_mem st m') t) M'.
Proof. intros Hst Hs Hh Hb. constructor; [|done..]. by apply state_ok_timestamp, state_ok_mem. Qed.

(** Initialization and marks. *)
Lemma tracked_quiet st st' M S a ab ab' : tracked st M S -> kept st st' (st_pub st) -> quiet st st' ->
  seg_models st' (<[a := ab']> M) -> M !! a = Some ab -> ab_size ab' = ab_size ab ->
  ab_freeable ab' = ab_freeable ab -> tracked st' (<[a := ab']> M) S.
Proof.
  intros [HM Hl HT Hts Hpos] (_ & El & _) [Hm Et] HM' E Es Ef. pose proof HM' as [_ Hs Hh _].
  rewrite El in Hs, Hh. constructor; rewrite ?El; try done; [|congruence].
  apply (tracks_update cfg _ Hl (st_mem st) _ M _ _ a ab); try done. by apply changed_metadata.
Qed.

(** [store_block]. *)
Lemma shadow_alloca_global l m ts p n : IS_ON_GLOBAL l p = true ->
  shadow_alloca cfg l m ts p n = shadow_alloca (without_temporal cfg) l m ts p n.
Proof using Type. intros Hg. unfold shadow_alloca. rewrite Hg. cbn [negb]. by rewrite !andb_false_r. Qed.

Lemma store_global_tracked st M S p n : tracked st M S -> home (st_layout st) SGlobal p n -> n < 2 ^ 32 ->
  fresh_range M p n ->
  exists st', store_block cfg st p n = Ret (p, st') /\ kept st st' (st_pub st) /\
    tracked st' (<[p := mk_ablock n ∅ false false]> M) (set_stamp p GLOBAL_TEMPORAL_TIMESTAMP S).
Proof.
  intros [HM Hl HT Hts Hpos] Hn Hlt Hf. pose proof (home_on0 _ _ _ _ Hn) as Hon.
  destruct (seg_store_block_refines (without_temporal cfg) eq_refl st M SGlobal p n HM Hn Hlt Hf)
    as (st' & E & Hk & HM').
  exists st'. split; [|split; [done|]].
  - rewrite <- E. unfold store_block, alloca. rewrite shadow_alloca_global; [done|].
    rewrite (on_global _ (tl_layout _ Hl) SGlobal p Hon). by apply bool_decide_true.
  - assert (M !! p = None) as Hnone by (destruct (M !! p) eqn:E0; [by destruct (Hf p a E0)|done]).
    unfold store_block, alloca in E.
    destruct (shadow_alloca_refines (without_temporal cfg) _ (tl_layout _ Hl) eq_refl (st_mem st) (static_part M)
      (temporal_timestamp st) SGlobal p n (gm_static _ _ HM) Hn Hlt) as (m' & E1 & _ & Ht).
    { intros a ab [E0 _]%static_part_lookup. by apply Hf. }
    rewrite E1 in E. cbn [obind] in E. injection E as <-. pose proof HM' as [_ Hs Hh _].
    constructor; try done.
    apply (tracks_insert cfg _ Hl (st_mem st) _ M _ _ p _ _ in_shadow); try done.
    + by apply (changed_static _ Hl).
    + intros s _ Hne Hs'. destruct Hne. by apply (on_unique _ (tl_layout _ Hl) s SGlobal p).
    + intros s Hs'. rewrite decide_True; [done|]. by apply (on_unique _ (tl_layout _ Hl) s SGlobal p).
    + intros a ab c x _. apply shadow_not_stamp.
    + intros lhs c x. apply shadow_not_referent.
Qed.

(** The time stamp of a block of the stack or of thread-local storage is written. *)
Lemma write_stamp l m M m1 s p t : temporal_layout_ok l -> tmodels l m M -> dom m1 = dom m -> mem_ok m1 ->
  home l s p 4 -> in_u 32 t ->
  exists m2, store32 m1 (TEMPORAL_PRIMARY_STATIC_SHADOW l p) t = Ret m2 /\ mem_ok m2 /\
    stamps_touch l m1 m2 /\ changed l m1 m2 (fun c x => c = PStamp TPrimary s /\ p <= x < p + 4) /\
    load32 m2 (tsh l TPrimary s p) = Ret t.
Proof.
  intros Hl HM D1 Ok1 Hn Hu. pose proof (home_on0 _ _ _ _ Hn) as Hon.
  change (TEMPORAL_PRIMARY_STATIC_SHADOW l p) with (SHADOW_REGION_ADDRESS l (tsegment TPrimary) p).
  rewrite (temporal_address l Hl TPrimary s p Hon).
  destruct (store_le_bytes 4 m1 (tsh l TPrimary s p) t) as (m2 & Est & D2 & X2).
  { eapply accessible_dom; [exact D1|]. apply (tsh_accessible l Hl m M); [done|done|]. unfold home in Hn. lia. }
  change (Z.of_nat 4) with 4 in X2. exists m2. unfold store32.
  assert (forall x, p <= x < p + 4 -> place_on l (PStamp TPrimary s) x) as Hon4
    by (intros x Hx; change (on l s x); unfold on, home in *; lia).
  assert (forall y, ~ (place_addr l (PStamp TPrimary s) p <= y < place_addr l (PStamp TPrimary s) p + 4) ->
    m2 !! y = m1 !! y) as Hout by (intros y Hy; rewrite X2; by rewrite decide_False).
  split; [done|]. split; [by eapply store_le_ok|]. split; [|split].
  - by apply (stamps_touch_range l Hl (PStamp TPrimary s) p 4 m1 m2).
  - by apply (changed_range l Hl (PStamp TPrimary s) p 4 m1 m2).
  - unfold load32. rewrite (load_store_le 4 m1 _ _ m2 Est). f_equal. apply Z.mod_small. exact Hu.
Qed.

(** A block of the stack or of thread-local storage is stamped. *)
Lemma store_stamped_tracked st M S s p n : tracked st M S -> s <> SGlobal -> home (st_layout st) s p n ->
  n < 2 ^ 32 -> fresh_range M p n -> spaced (st_layout st) M s p -> s_last S + 1 < 2 ^ 32 ->
  exists st', store_block cfg st p n = Ret (p, st') /\ kept st st' (st_pub st) /\
    tracked st' (<[p := mk_ablock n ∅ false false]> M) (new_stamp p S).
Proof using Htemp.
  intros [HM Hl HT Hts Hpos] Hs Hn Hlt Hf Hsp Hlast. set (l := st_layout st) in *.
  pose proof (tl_layout l Hl) as Hl'. pose proof (home_on0 _ _ _ _ Hn) as Hon.
  pose proof (tk_models _ _ _ _ _ _ HT) as HMt. pose proof Hsp as (Hhome4 & _ & Hblocks).
  assert (M !! p = None) as Hnone by (destruct (M !! p) eqn:E0; [by destruct (Hf p a E0)|done]).
  unfold store_block, alloca. fold l. rewrite (shadow_alloca_stamp cfg l Htemp).
  2: { rewrite (on_global l Hl' s p Hon). by apply bool_decide_false. }
  2: { apply (aligned_passes cfg l Hl (st_mem st) M s p); [apply HMt|done]. }
  destruct (shadow_alloca_refines (without_temporal cfg) l Hl' eq_refl (st_mem st) (static_part M)
    (temporal_timestamp st) s p n (gm_static _ _ HM) Hn Hlt) as (m1 & -> & HM1 & Htouch).
  { intros a ab [E _]%static_part_lookup. by apply Hf. }
  cbn [obind]. unfold NEW_TEMPORAL_TIMESTAMP. rewrite Hts, u32_small by (unfold in_u; lia).
  destruct (write_stamp l (st_mem st) M m1 s p (s_last S + 1) Hl HMt (proj1 Htouch) (sm_ok _ _ _ HM1) Hhome4)
    as (m2 & -> & Ok2 & Ht2 & Hc2 & Est); [unfold in_u; lia|]. cbn [obind].
  assert (hmodels l m1 (heap_part M)) as HH1
    by (eapply hmodels_static_touch; [apply Hl|apply Hl|exact Htouch|apply (sm_ok _ _ _ HM1)|apply HM]).
  destruct (stamps_touch_models l Hl m1 m2 _ _ Ok2 Ht2 HM1 HH1) as [HM2 HH2].
  pose proof (changed_trans l _ _ _ _ _ (changed_static l Hl _ _ Htouch) Hc2) as Hch.
  rewrite <- static_part_insert in HM2 by done.
  rewrite <- (heap_part_other M p (mk_ablock n ∅ false false)) in HH2 by (done || congruence).
  eexists. split; [done|]. split; [done|]. constructor; [|done| |done|cbn; lia].
  - apply seg_models_next; [apply HM|done|done|]. rewrite heap_bytes_insert by done. cbn [ab_freeable].
    rewrite (gm_bytes _ _ HM). f_equal. lia.
  - cbn [st_layout st_mem set_timestamp set_mem s_time s_referents new_stamp]. fold l.
    apply (tracks_insert cfg l Hl (st_mem st) m2 M _ _ p _ _ _ HT Hnone Hch HM2 HH2).
    + intros s' _ _ Hs'. by rewrite (on_unique l Hl' s' s p).
    + intros s' Hs'. assert (s' = s) as -> by (by apply (on_unique l Hl' s' s p)). by rewrite decide_False by done.
    + intros a ab c x Ea Hc [Hsh|[-> Hx]]; [by eapply shadow_not_stamp|].
      unfold stamp_cell in Hc. destruct (ab_freeable ab) eqn:Ef; [by destruct Hc|].
      destruct Hc as (s' & _ & _ & _ & Hx'). destruct (Hblocks a ab); [by apply static_part_lookup|lia..].
    + intros lhs c x Hc [Hsh|[-> Hx]]; [by eapply shadow_not_referent|].
      destruct Hc as [[?|[? ?]] _]; discriminate.
Qed.

Lemma store_block_tracked st M S s p n : tracked st M S -> home (st_layout st) s p n ->
  n < 2 ^ 32 -> fresh_range M p n ->
  (s <> SGlobal -> spaced (st_layout st) M s p /\ s_last S + 1 < 2 ^ 32) ->
  exists st', store_block cfg st p n = Ret (p, st') /\ kept st st' (st_pub st) /\
    tracked st' (<[p := mk_ablock n ∅ false false]> M)
      (if decide (s = SGlobal) then set_stamp p GLOBAL_TEMPORAL_TIMESTAMP S else new_stamp p S).
Proof using Htemp.
  intros HT Hn Hlt Hf Hsp. destruct (decide (s = SGlobal)) as [->|Hne].
  - by apply store_global_tracked.
  - destruct (Hsp Hne) as [H1 H2]. by apply (store_stamped_tracked st M S s).
Qed.

(** [delete_block]. *)
Lemma shadow_freea_stamped l m p n m1 : _block_length cfg l m p = Ret n ->
  shadow_freea (without_temporal cfg) l m p = Ret m1 ->
  shadow_freea cfg l m p = (let* m := memset m1 (TEMPORAL_PRIMARY_STATIC_SHADOW l p) 0 n in
                            memset m (TEMPORAL_SECONDARY_STATIC_SHADOW l p) 0 n).
Proof using Htemp.
  intros En. unfold shadow_freea.
  change (DVALIDATE_STATIC_LOCATION (without_temporal cfg)) with (DVALIDATE_STATIC_LOCATION cfg).
  change (_base_addr (without_temporal cfg)) with (_base_addr cfg).
  change (_block_length (without_temporal cfg)) with (_block_length cfg).
  change (@dcheck (without_temporal cfg)) with (@dcheck cfg). rewrite En, Htemp.
  destruct (DVALIDATE_STATIC_LOCATION cfg l m p); try done. cbn [obind].
  destruct (dcheck cfg _); try done. cbn [obind without_temporal cfg_temporal].
  destruct (memset m (PRIMARY_SHADOW l p) 0 n); try done. cbn [obind].
  destruct (memset _ (SECONDARY_SHADOW l p) 0 n); try done. cbn [obind]. by intros [= ->].
Qed.

(** The bytes of a static block that is deleted are written in four shadows. *)
Definition freed_static (s : sseg) (p n : Z) (c : place) (x : Z) : Prop :=
  (in_shadow c x \/ c = PStamp TPrimary s /\ p <= x < p + n) \/ c = PStamp TSecondary s /\ p <= x < p + n.

Lemma clear_stamps l m M m1 s p n : temporal_layout_ok l -> tmodels l m M -> dom m1 = dom m -> mem_ok m1 ->
  home l s p n ->
  exists m3, (let* m := memset m1 (TEMPORAL_PRIMARY_STATIC_SHADOW l p) 0 n in
              memset m (TEMPORAL_SECONDARY_STATIC_SHADOW l p) 0 n) = Ret m3 /\ mem_ok m3 /\
    stamps_touch l m1 m3 /\
    changed l m1 m3 (fun c x => c = PStamp TPrimary s /\ p <= x < p + n \/ c = PStamp TSecondary s /\ p <= x < p + n).
Proof.
  intros Hl HM D1 Ok1 Hn. pose proof (home_on0 _ _ _ _ Hn) as Hon. pose proof Hn as (Hn0 & _).
  change (TEMPORAL_PRIMARY_STATIC_SHADOW l p) with (SHADOW_REGION_ADDRESS l (tsegment TPrimary) p).
  change (TEMPORAL_SECONDARY_STATIC_SHADOW l p) with (SHADOW_REGION_ADDRESS l (tsegment TSecondary) p).
  rewrite (temporal_address l Hl TPrimary s p Hon), (temporal_address l Hl TSecondary s p Hon).
  assert (forall r, accessible m1 (tsh l r s p) n) as Ha.
  { intros r. eapply accessible_dom; [exact D1|]. apply (tsh_accessible l Hl m M); [done|done|].
    unfold home in Hn. lia. }
  assert (forall x, p <= x < p + n -> on l s x) as Hrange.
  { intros x Hx. replace x with (p + (x - p)) by lia. apply (home_on l s p n); [done|lia]. }
  destruct (memset_spec m1 (tsh l TPrimary s p) 0 n) as (m2 & -> & D2 & X2); [lia|done|]. cbn [obind].
  destruct (memset_spec m2 (tsh l TSecondary s p) 0 n) as (m3 & -> & D3 & X3);
    [lia|by eapply accessible_dom|].
  assert (forall y, ~ (place_addr l (PStamp TPrimary s) p <= y < place_addr l (PStamp TPrimary s) p + n) ->
    m2 !! y = m1 !! y) as H2 by (intros y Hy; rewrite X2; by rewrite decide_False).
  assert (forall y, ~ (place_addr l (PStamp TSecondary s) p <= y < place_addr l (PStamp TSecondary s) p + n) ->
    m3 !! y = m2 !! y) as H3 by (intros y Hy; rewrite X3; by rewrite decide_False).
  exists m3. split; [done|]. split; [|split].
  - eapply mem_ok_pointwise; [exact Ok1|]. intros x b. rewrite X3, X2.
    repeat case_decide; [intros [= <-]; left; split; by vm_compute..|auto].
  - eapply stamps_touch_trans;
      [by apply (stamps_touch_range l Hl (PStamp TPrimary s) p n)|by apply (stamps_touch_range l Hl (PStamp TSecondary s) p n)].
  - eapply (changed_trans l); [by apply (changed_range l Hl (PStamp TPrimary s))|
      by apply (changed_range l Hl (PStamp TSecondary s))].
Qed.

Lemma delete_block_tracked st M S p ab : tracked st M S -> M !! p = Some ab -> ab_freeable ab = false ->
  exists st', delete_block cfg st p = Ret st' /\ kept st st' (st_pub st) /\
    tracked st' (delete p M) (forget_block p (ab_size ab) S).
Proof using Htemp.
  intros [HM Hl HT Hts Hpos] E Ef. set (l := st_layout st) in *. pose proof (tl_layout l Hl) as Hl'.
  pose proof (tk_models _ _ _ _ _ _ HT) as HMt.
  assert (static_part M !! p = Some ab) as E' by (by apply static_part_lookup).
  destruct (sm_block _ _ _ (gm_static _ _ HM) _ _ E') as (s & Hn & _). fold l in Hn.
  pose proof (home_on0 _ _ _ _ Hn) as Hon. pose proof (block_size_pos st M p ab HM E) as Hsz.
  destruct (shadow_freea_refines (without_temporal cfg) l Hl' eq_refl (st_mem st) (static_part M) p ab
    (gm_static _ _ HM) E') as (m1 & E1 & HM1 & Htouch).
  destruct (clear_stamps l (st_mem st) M m1 s p (ab_size ab) Hl HMt (proj1 Htouch) (sm_ok _ _ _ HM1) Hn)
    as (m3 & E3 & Ok3 & Ht3 & Hc3).
  assert (hmodels l m1 (heap_part M)) as HH1
    by (eapply hmodels_static_touch; [apply Hl|apply Hl|exact Htouch|apply (sm_ok _ _ _ HM1)|apply HM]).
  destruct (stamps_touch_models l Hl m1 m3 _ _ Ok3 Ht3 HM1 HH1) as [HM3 HH3].
  pose proof (changed_trans l _ _ _ _ _ (changed_static l Hl _ _ Htouch) Hc3) as Hch.
  rewrite <- static_part_delete in HM3.
  assert (hmodels l m3 (heap_part (delete p M))) as HH3'
    by (rewrite heap_part_delete, delete_id by (by eapply heap_part_absent); done).
  unfold delete_block, on_mem. fold l.
  rewrite (shadow_freea_stamped l (st_mem st) p (ab_size ab) m1), E3; [cbn [obind]| |done].
  2: { apply (block_length_exact cfg st M p p ab HM). by apply (contains_base st). }
  eexists. split; [done|]. split; [done|]. constructor; [|done| |done|done].
  - constructor; [by apply state_ok_mem, HM|done|done|].
    cbn. rewrite (gm_bytes _ _ HM), (heap_bytes_delete M p ab), Ef by done. f_equal. lia.
  - cbn [st_layout st_mem set_mem s_time s_referents forget_block]. fold l.
    apply (tracks_delete cfg l Hl (st_mem st) m3 M _ _ p ab _ HT E (proj1 Hsz) Hch HM3 HH3').
    + intros a ab0 c x Ea Hne Hc [Hsh|[[-> Hx]|[-> Hx]]]; [by eapply shadow_not_stamp| |].
      * unfold stamp_cell in Hc. destruct (ab_freeable ab0) eqn:Ef0; [by destruct Hc|].
        destruct Hc as (s' & Hg & Ha & [= <-] & Hx').
        assert (static_part M !! a = Some ab0) as Ea' by (by apply static_part_lookup).
        destruct (Z.lt_trichotomy a p) as [Hlt|[->|Hlt]]; [|done|].
        -- pose proof (tk_apart _ _ _ _ _ _ HT a ab0 p ab s Ea' E' Hlt Hg Ha Hon). lia.
        -- pose proof (sm_disj _ _ _ (gm_static _ _ HM) p ab a ab0 E' Ea' Hlt). lia.
      * unfold stamp_cell in Hc. destruct (ab_freeable ab0); [by destruct Hc|].
        by destruct Hc as (? & _ & _ & ? & _).
    + intros lhs a ab0 c x [Ea Hc0] Hne Hle Hc Hx [Hsh|Hx'];
        [by eapply shadow_not_referent|].
      assert (p <= x < p + ab_size ab) as Hin by tauto. destruct Hc as [_ Hcx].
      pose proof (block_size_pos st M a ab0 HM Ea). unfold covers in Hc0.
      destruct (seg_contains_unique st M x a ab0 p ab HM) as [? _]; [| |done];
        (split; [done|left; lia]).
Qed.

(** Allocation. *)
Lemma alloc_tracked st st' M S res n init p : tracked st M S -> kept st st' p ->
  (res = NULL \/ new_alloc (st_layout st) (heap_part M) res n /\ M !! res = None) ->
  seg_models st' (a_alloc M res n init) -> alloc_effect cfg st st' res n -> s_last S + 1 < 2 ^ 32 ->
  tracked st' (a_alloc M res n init) (if res =? NULL then S else new_stamp res S).
Proof using Htemp.
  intros [HM Hl HT Hts Hpos] (_ & El & _) Hres HM' Heff Hlast. unfold a_alloc, alloc_effect in *.
  destruct (Z.eqb_spec res NULL) as [->|Hne].
  - destruct Heff as [Em Et]. constructor; rewrite ?El, ?Em; try done. congruence.
  - destruct Hres as [|[Hnew Hnone]]; [done|]. destruct Heff as (Ht & Hrest & Et & Hstamp).
    unfold next_stamp in Et. rewrite Htemp in Et. specialize (Hstamp Htemp). unfold NEW_TEMPORAL_TIMESTAMP in *.
    rewrite Hts, u32_small in Et, Hstamp by (unfold in_u; lia).
    pose proof HM' as [_ Hs Hh _]. rewrite El in Hs, Hh. set (l := st_layout st) in *.
    pose proof (changed_heap l Hl _ _ _ Ht Hrest) as Hch.
    constructor; rewrite ?El; try done; [|cbn; lia].
    apply (tracks_insert cfg l Hl _ _ M _ _ res _ _ _ HT Hnone Hch Hs Hh).
    + done.
    + split; [done|]. unfold in_u. lia.
    + intros a ab c x Ea Hc [-> Hx]. unfold stamp_cell in Hc. destruct (ab_freeable ab) eqn:Ef.
      * assert (heap_part M !! a = Some ab) as Ea' by (by apply heap_part_lookup).
        pose proof (block_facts l (tl_heap l Hl) _ _ (gm_heap _ _ HM) a ab Ea').
        assert (32 <= ALLOC_SIZE (ab_size ab)) by dlia.
        destruct Hnew as (_ & _ & _ & _ & Hd). destruct (Hd a ab Ea'); lia.
      * by destruct Hc as (? & _ & _ & ? & _).
    + intros lhs c x [[->|[s ->]] _] [? _]; discriminate.
Qed.

Lemma clear_heap_stamps l m M p n : temporal_layout_ok l -> tmodels l m M -> hon l p -> 0 <= n ->
  p + n <= hend l ->
  exists mt, memset m (ths l p) ZERO n = Ret mt /\ smodels l mt (static_part M) /\ hmodels l mt (heap_part M) /\
    changed l m mt (fun c x => c = PHeapStamp /\ p <= x < p + n).
Proof.
  intros Hl HM Hon Hn Hend.
  destruct (memset_spec m (ths l p) ZERO n Hn) as (mt & Et & Dt & Xt); [by apply (ths_accessible l Hl m M)|].
  assert (forall y, ~ (place_addr l PHeapStamp p <= y < place_addr l PHeapStamp p + n) -> mt !! y = m !! y) as Hout
    by (intros y Hy; rewrite Xt; by rewrite decide_False).
  assert (forall x, p <= x < p + n -> place_on l PHeapStamp x) as Hrange
    by (intros x Hx; change (hon l x); unfold hon in *; lia).
  assert (mem_ok mt) as Okt.
  { eapply mem_ok_pointwise; [apply (hm_ok _ _ _ (tt_heap _ _ _ HM))|]. intros x b. rewrite Xt. case_decide; [|auto].
    intros [= <-]. left. split; by vm_compute. }
  exists mt. split; [done|]. rewrite (assoc and). split.
  - apply (stamps_touch_models l Hl m mt _ _ Okt (stamps_touch_range l Hl PHeapStamp p n m mt eq_refl Dt Hout Hrange));
      apply HM.
  - by apply (changed_range l Hl PHeapStamp p n m mt).
Qed.

(** Release: the temporal shadow may as well be cleared first. *)
Lemma unset_heap_segment_stamped st M p ab : seg_models st M -> temporal_layout_ok (st_layout st) ->
  tmodels (st_layout st) (st_mem st) M -> heap_part M !! p = Some ab ->
  exists m', unset_heap_segment cfg st p 1 =
      Ret (set_mem (set_stats st (mk_stats (u64 (heap_allocation_size (st_stats st) - ab_size ab))
                                    (heap_allocated_blocks (st_stats st)))) m') /\
    smodels (st_layout st) m' (static_part M) /\ hmodels (st_layout st) m' (delete p (heap_part M)) /\
    changed (st_layout st) (st_mem st) m' (fun c x => (c = PHeap \/ c = PHeapStamp) /\ in_alloc p ab x).
Proof using Htemp.
  intros HM Hl HMt E. set (l := st_layout st) in *. set (m := st_mem st) in *.
  pose proof (tl_layout l Hl) as Hl'. pose proof (tl_heap l Hl) as Hh. pose proof HM as [Hst Hs HH _]. fold l m in Hs, HH.
  pose proof (block_facts l Hh m _ HH p ab E) as (Hn & Hp & H1 & H2 & Ha & Hb & Hu & _).
  assert (hon l p) as Hon by (unfold hon; lia). set (n := ALLOC_SIZE (ab_size ab)) in *.
  destruct (clear_heap_stamps l m M p n Hl HMt Hon) as (mt & Et & HMt1 & HHt & Hct); [lia|lia|].
  destruct (unset_heap_segment_refines (without_temporal cfg) eq_refl (set_mem st mt) (heap_part M) p ab
    (state_ok_mem st mt Hst) HHt E) as (m' & E' & HM' & Ht' & Hrest).
  exists m'. split; [|split; [|split; [done|]]].
  - change (Ret (set_mem (set_stats st (mk_stats (u64 (heap_allocation_size (st_stats st) - ab_size ab))
      (heap_allocated_blocks (st_stats st)))) m')) with (Ret (set_mem (set_stats (set_mem st mt)
      (mk_stats (u64 (heap_allocation_size (st_stats (set_mem st mt)) - ab_size ab))
        (heap_allocated_blocks (st_stats (set_mem st mt))))) m')).
    rewrite <- E'. unfold unset_heap_segment, DVALIDATE_MEMORY_INIT.
    cbn [st_layout st_mem set_mem]. fold l m.
    rewrite !debug_pass by apply (so_init _ Hst).
    rewrite (freeable_passes cfg st (heap_part M) p ab) by done.
    rewrite (freeable_passes (without_temporal cfg) (set_mem st mt) (heap_part M) p ab) by done.
    cbn [obind]. rewrite (heap_shadow_address l Hh p Hon).
    rewrite (hb_length _ _ _ _ (hm_block _ _ _ HH _ _ E)), (hb_length _ _ _ _ (hm_block _ _ _ HHt _ _ E)).
    cbn [obind]. fold n. rewrite Htemp. cbn [without_temporal cfg_temporal].
    rewrite (temporal_heap_address l Hl p Hon).
    rewrite (memset_swap m (hs l p) n (ths l p) n ZERO); [|lia|lia| |apply (ths_accessible l Hl m M); [done|done|lia]].
    2: { destruct (hm_mapped _ _ _ HH) as (_ & Hm & _). eapply accessible_sub; [exact Hm|unfold hs; lia..]. }
    by rewrite Et.
  - eapply smodels_heap_touch; [apply Hl'|exact Ht'|apply HM'|done].
  - apply (changed_weaken l m m' (fun c x => (c = PHeapStamp /\ p <= x < p + n) \/ (c = PHeap /\ in_alloc p ab x))).
    { unfold in_alloc. fold n. tauto. }
    apply (changed_trans l m mt m' (fun c x => c = PHeapStamp /\ p <= x < p + n)).
    + exact Hct.
    + by apply (changed_heap l Hl mt m' (in_alloc p ab)).
Qed.

Lemma free_tracked st M S q ab : tracked st M S -> M !! q = Some ab -> ab_freeable ab = true ->
  mspace_least_addr (public_free (st_pub st) q) = heap_mspace_least (st_spaces st) ->
  exists st', free cfg st q = Ret st' /\ kept st st' (public_free (st_pub st) q) /\
    tracked st' (delete q M) (forget_block q (ab_size ab) S).
Proof using Htemp.
  intros [HM Hl HT Hts Hpos] E Ef Hp. pose proof HM as [Hst Hs Hh Hb].
  pose proof (contains_base st M q ab HM E) as Hin.
  destruct (heap_block_on st M q q ab HM Hin Ef) as [Hon Hin'].
  pose proof (hk_nonnull _ (so_heap _ Hst)). pose proof (block_size_pos st M q ab HM E) as Hsz. unfold free.
  rewrite (proj2 (Z.eqb_neq q NULL)) by (unfold hon, NULL in *; lia).
  destruct (freeable_exact _ (so_heap _ Hst) _ _ Hh q Hon) as (r & -> & _ & Hr). cbn [obind].
  assert (r = 1) as -> by (apply Hr; exists ab; apply Hin'). cbn [i2b Z.eqb negb].
  destruct (unset_heap_segment_stamped st M q ab HM Hl (tk_models _ _ _ _ _ _ HT) (proj1 Hin'))
    as (m' & -> & Hs' & Hh' & Hch). cbn [obind].
  rewrite <- heap_part_delete in Hh'.
  assert (smodels (st_layout st) m' (static_part (delete q M))) as Hs''
    by (rewrite static_part_delete, delete_id by (by eapply static_part_absent); done).
  eexists. split; [done|]. split; [done|]. constructor; [|done| |done|done].
  - apply seg_models_pub; [|done]. constructor; [by apply state_ok_mem, state_ok_stats|done|done|].
    cbn. rewrite Hb, (heap_bytes_delete M q ab), Ef by done. unfold u64.
    rewrite Zminus_mod_idemp_l. f_equal. lia.
  - cbn [st_layout st_mem set_mem set_pub set_stats s_time s_referents forget_block].
    assert (forall x a ab0, heap_part M !! a = Some ab0 -> a <> q -> in_alloc a ab0 x -> ~ in_alloc q ab x) as Hd.
    { intros x a ab0 Ea Hne H1 H2. by destruct (alloc_unique _ _ _ Hh x a ab0 q ab Ea (proj1 Hin') H1 H2). }
    apply (tracks_delete cfg _ Hl _ _ M _ _ q ab _ HT E (proj1 Hsz) Hch Hs'' Hh').
    + intros a ab0 c x Ea Hne Hc [Hcase Hx]. unfold stamp_cell in Hc. destruct (ab_freeable ab0) eqn:Ef0.
      * assert (heap_part M !! a = Some ab0) as Ea' by (by apply heap_part_lookup).
        pose proof (block_facts _ (tl_heap _ Hl) _ _ Hh a ab0 Ea').
        apply (Hd x a ab0); [done|done| |done]. unfold in_alloc. dlia.
      * destruct Hc as (? & _ & _ & -> & _). by destruct Hcase.
    + intros lhs a ab0 c x [Ea Hc0] Hne Hle [Hcell Hcx] Hx [Hcase Hinq].
      pose proof (block_size_pos st M a ab0 HM Ea). unfold covers in Hc0.
      assert (contains M x a ab0) as Hxa by (split; [done|left; lia]).
      assert (hon (st_layout st) x) as Hhx by (destruct Hcase as [-> | ->]; exact Hx).
      assert (ab_freeable ab0 = true) as Ef0.
      { destruct (ab_freeable ab0) eqn:Ef0; [done|].
        destruct (static_block_on st M x a ab0 HM Hxa Ef0) as (s & Hon' & _).
        pose proof (on_not_heap _ (tl_layout _ Hl) s x Hon') as Hno. by rewrite (hon_IS_ON _ _ Hhx) in Hno. }
      assert (heap_part M !! a = Some ab0) as Ea' by (by apply heap_part_lookup).
      pose proof (block_facts _ (tl_heap _ Hl) _ _ Hh a ab0 Ea').
      apply (Hd x a ab0); [done|done| |done]. unfold in_alloc. lia.
Qed.

(** Stores of referents. *)
Definition store_nreferent (st : state) (lhs rhs : Z) : outcome state :=
  let* m := temporal_store_nreferent (TM := segment_temporal cfg (st_layout st)) (st_mem st) lhs rhs in
  Ret (set_mem st m).

Lemma referent_cell_place l lhs y c x : slot_cell l lhs y -> referent_cell lhs c x -> place_on l c x ->
  temporal_layout_ok l -> place_addr l c lhs = y.
Proof.
  intros Hy [Hc Hx] Hon Hl. destruct Hy as [[Hr ->]|(s & Hr & ->)].
  - pose proof (Hr (x - lhs) ltac:(lia)) as Hx'. replace (lhs + (x - lhs)) with x in Hx' by lia.
    destruct Hc as [->|[s ->]]; [done|]. cbn in Hon.
    pose proof (on_not_heap _ (tl_layout _ Hl) s x Hon) as Hno. by rewrite (hon_IS_ON _ _ Hx') in Hno.
  - pose proof (Hr (x - lhs) ltac:(lia)) as Hx'. replace (lhs + (x - lhs)) with x in Hx' by lia.
    destruct Hc as [->|[s' ->]].
    + change (hon l x) in Hon. pose proof (on_not_heap _ (tl_layout _ Hl) s x Hx') as Hno.
      by rewrite (hon_IS_ON _ _ Hon) in Hno.
    + cbn in Hon. by rewrite (on_unique _ (tl_layout _ Hl) s' s x Hon Hx').
Qed.

Lemma referent_stored st M S lhs t : tracked st M S -> room M lhs -> in_u 32 t ->
  exists m', store_temporal_referent cfg (st_layout st) (st_mem st) lhs t = Ret m' /\
    tracked (set_mem st m') M (set_referent lhs t S).
Proof.
  intros [HM Hl HT Hts Hpos] Hroom Hu. set (l := st_layout st) in *. pose proof HT as [HMt Hap HTs HR].
  destruct (slot_address cfg l Hl (st_mem st) M lhs HMt Hroom) as (y & Ha & _ & Eref & -> & Hy).
  destruct (store_le_bytes 4 (st_mem st) y t Ha) as (m' & Est & D & X). change (Z.of_nat 4) with 4 in X.
  exists m'. unfold store32. split; [done|].
  assert (exists c, temporal_kind (place_kind c) = true /\ place_addr l c lhs = y /\
    (c = PHeapStamp \/ exists s, c = PStamp TSecondary s) /\
    (forall x, lhs <= x < lhs + 4 -> place_on l c x)) as (c & Hk & Ec & Hc & Hon).
  { destruct Hy as [[Hr ->]|(s & Hr & ->)]; [exists PHeapStamp|exists (PStamp TSecondary s)];
      (split; [done|]; split; [done|]; split; [eauto|]); intros x Hx;
      replace x with (lhs + (x - lhs)) by lia; apply Hr; lia. }
  assert (forall z, ~ (place_addr l c lhs <= z < place_addr l c lhs + 4) -> m' !! z = st_mem st !! z) as Hout
    by (intros z Hz; rewrite Ec in Hz; rewrite X; by rewrite decide_False).
  assert (mem_ok m') as Ok by (eapply store_le_ok; [apply (sm_ok _ _ _ (gm_static _ _ HM))|exact Est]).
  destruct (stamps_touch_models l Hl _ m' _ _ Ok
    (stamps_touch_range l Hl c lhs 4 _ m' Hk D Hout Hon) (gm_static _ _ HM) (gm_heap _ _ HM)) as [Hs' Hh'].
  constructor; try done.
  { destruct HM as [Hst _ _ Hb]. constructor; [by apply state_ok_mem|done..]. }
  cbn [st_layout st_mem set_mem s_time s_referents set_referent]. fold l.
  apply (tracks_frame cfg l Hl _ m' M M _ _ _ _ _ HT (changed_range l Hl c lhs 4 _ m' D Hout Hon)); [|done| |].
  - apply (tmodels_next l (st_mem st) m' M M); try done. intros a ab s. apply (tt_room _ _ _ HMt).
  - intros a ab E. left. exists ab. split_and!; [done..|]. intros c' x Hst [-> _].
    unfold stamp_cell in Hst. destruct (ab_freeable ab).
    + destruct Hst as [-> _]. destruct Hc as [?|[? ?]]; discriminate.
    + destruct Hst as (? & _ & _ & -> & _). destruct Hc as [?|[? ?]]; discriminate.
  - intros lhs' t' E. apply lookup_insert_Some in E as [[<- <-]|[Hne E]].
    + split; [done|]. right. rewrite Eref. unfold load32. rewrite (load_store_le 4 _ y t m' Est).
      f_equal. apply Z.mod_small. exact Hu.
    + apply map_lookup_filter_Some in E as [E Hapart]. cbn in Hapart. destruct (HR lhs' t' E) as [Hr _].
      split; [done|]. left. split; [done|]. intros c' x [_ Hx'] _ [_ Hx]. lia.
Qed.
End Operations.
