(* ===== verification/SegStampRuns.v ===== *)
(** * Runs of the shadow memory model with temporal analysis

    The abstract machine of SegTrace.v is extended by time stamps and referents, and by
    the operations of the temporal API; the shadow memory model performs its runs, and
    detects stale pointers in them. *)

From S2P Require Import Prelude AMem Alloc Temporal Bits Mask CString Shadow Segment SegModel SegStatic SegHeap SegTrace SegTheorems SegTemporal SegStamps.

(** ** The abstract machine

    The steps are those of the abstract memory, with the time stamps that the
    allocations take, and those of the temporal API, with its registers. *)

Section Machine.
Context `{PB : !PublicAlloc} (cfg : config) (pg : program) (Htemp : cfg_temporal cfg = true).

Inductive top : Type :=
| TOp (o : op)
| TNblock (lhs rhs : Z)          (* __e_acsl_temporal_store_nblock *)
| TNreferent (lhs rhs : Z)       (* __e_acsl_temporal_store_nreferent *)
| TSaveNblock (ptr i : Z)        (* __e_acsl_temporal_save_nblock_parameter *)
| TSaveNreferent (ptr i : Z)     (* __e_acsl_temporal_save_nreferent_parameter *)
| TPull (ptr i size : Z)         (* __e_acsl_temporal_pull_parameter *)
| TResetParameters               (* __e_acsl_temporal_reset_parameters *)
| TSaveReturn (ptr : Z)          (* __e_acsl_temporal_save_return *)
| TPullReturn (ptr : Z)          (* __e_acsl_temporal_pull_return *)
| TResetReturn.                  (* __e_acsl_temporal_reset_return *)

(** An operation of the temporal API that stores a referent. *)
Definition on_temporal (st : state) (f : mem -> outcome mem) : outcome state :=
  let* m := f (st_mem st) in Ret (set_mem st m).

Definition trun_op (st : state) (r : temporal_regs) (o : top) : outcome (state * temporal_regs) :=
  let TM := segment_temporal cfg (st_layout st) in
  match o with
  | TOp o => let* st := run_op cfg pg st o in Ret (st, r)
  | TNblock lhs rhs => let* st := store_nblock cfg st lhs rhs in Ret (st, r)
  | TNreferent lhs rhs => let* st := store_nreferent cfg st lhs rhs in Ret (st, r)
  | TSaveNblock ptr i => let* r := temporal_save_nblock_parameter r ptr i in Ret (st, r)
  | TSaveNreferent ptr i => let* r := temporal_save_nreferent_parameter r ptr i in Ret (st, r)
  | TPull ptr i size =>
      let* st := on_temporal st (fun m => temporal_pull_parameter (TM := TM) cfg r m ptr i size) in Ret (st, r)
  | TResetParameters => Ret (st, temporal_reset_parameters r)
  | TSaveReturn ptr => let* r := temporal_save_return (TM := TM) r (st_mem st) ptr in Ret (st, r)
  | TPullReturn ptr =>
      let* st := on_temporal st (fun m => temporal_pull_return (TM := TM) r m ptr) in Ret (st, r)
  | TResetReturn => Ret (st, temporal_reset_return r)
  end.

Fixpoint trun (st : state) (r : temporal_regs) (ops : list top) : outcome (state * temporal_regs) :=
  match ops with
  | [] => Ret (st, r)
  | o :: ops => let* (st, r) := trun_op st r o in trun st r ops
  end.

Record tstate : Type := mk_tstate {
  t_mem : amem;
  t_pub : pub;
  t_stamps : stamps;
  t_regs : temporal_regs
}.

(** The stamps after an operation on memory. *)
Definition stamp_new (res : Z) (S : stamps) : stamps := if res =? NULL then S else new_stamp res S.
Definition stamp_remove (M : amem) (p : Z) (S : stamps) : stamps :=
  match M !! p with Some ab => forget_block p (ab_size ab) S | None => S end.

Definition stamp_op (l : memory_layout) (M : amem) (a : pub) (o : op) (S : stamps) : stamps :=
  match o with
  | OStore p _ => if IS_ON_GLOBAL l p then set_stamp p GLOBAL_TEMPORAL_TIMESTAMP S else new_stamp p S
  | OMalloc n => stamp_new (public_malloc a (ALLOC_SIZE n)).1 S
  | OCalloc n k => stamp_new (public_malloc a (ALLOC_SIZE (n * k))).1 S
  | ODelete p => stamp_remove M p S
  | OFree p => if p =? NULL then S else stamp_remove M p S
  | OInitialize _ _ | OFullInit _ | OMarkReadonly _ => S
  end.

(** There is room for the time stamp of a new block, and there are time stamps left. *)
Definition stamp_ok (l : memory_layout) (M : amem) (o : op) (S : stamps) : Prop :=
  match o with
  | OStore p _ => IS_ON_GLOBAL l p = false ->
      s_last S + 1 < 2 ^ 32 /\ exists s, spaced l M s p
  | OMalloc _ | OCalloc _ _ => s_last S + 1 < 2 ^ 32
  | _ => True
  end.

(** The time stamp that a saved parameter stands for. *)
Definition saved_stamp (l : memory_layout) (M : amem) (S : stamps) (r : temporal_regs) (i t : Z) : Prop :=
  exists ptr flow, parameter_referents r !! Z.to_nat i = Some (mk_parameter ptr flow) /\
    match flow with
    | TBlockN => origin_is l M (s_time S) ptr t
    | TReferentN => s_referents S !! ptr = Some t
    | TNone | TCopy => False
    end.

Definition with_stamps (s : tstate) (S : stamps) : tstate := mk_tstate (t_mem s) (t_pub s) S (t_regs s).
Definition with_regs (s : tstate) (r : temporal_regs) : tstate := mk_tstate (t_mem s) (t_pub s) (t_stamps s) r.
Definition with_referent (s : tstate) (lhs t : Z) : tstate := with_stamps s (set_referent lhs t (t_stamps s)).

Inductive tstep (l : memory_layout) (least : Z) : tstate -> top -> tstate -> Prop :=
| TS_op s o M' a' : gstep cfg l least (t_mem s, t_pub s) o (M', a') ->
    stamp_ok l (t_mem s) o (t_stamps s) ->
    tstep l least s (TOp o) (mk_tstate M' a' (stamp_op l (t_mem s) (t_pub s) o (t_stamps s)) (t_regs s))
| TS_nblock s lhs rhs t : room (t_mem s) lhs -> origin_is l (t_mem s) (s_time (t_stamps s)) rhs t ->
    tstep l least s (TNblock lhs rhs) (with_referent s lhs t)
| TS_nreferent s lhs rhs t : room (t_mem s) lhs -> s_referents (t_stamps s) !! rhs = Some t ->
    tstep l least s (TNreferent lhs rhs) (with_referent s lhs t)
| TS_save_nblock s ptr i r : temporal_save_nblock_parameter (t_regs s) ptr i = Ret r ->
    tstep l least s (TSaveNblock ptr i) (with_regs s r)
| TS_save_nreferent s ptr i r : temporal_save_nreferent_parameter (t_regs s) ptr i = Ret r ->
    tstep l least s (TSaveNreferent ptr i) (with_regs s r)
| TS_pull s ptr i size t : room (t_mem s) ptr -> 0 <= i < MAX_PARAMETERS ->
    saved_stamp l (t_mem s) (t_stamps s) (t_regs s) i t ->
    tstep l least s (TPull ptr i size) (with_referent s ptr t)
| TS_reset_parameters s :
    tstep l least s TResetParameters (with_regs s (temporal_reset_parameters (t_regs s)))
| TS_save_return s ptr t : s_referents (t_stamps s) !! ptr = Some t ->
    tstep l least s (TSaveReturn ptr) (with_regs s (mk_regs (parameter_referents (t_regs s)) t))
| TS_pull_return s ptr : room (t_mem s) ptr ->
    tstep l least s (TPullReturn ptr) (with_referent s ptr (return_referent (t_regs s)))
| TS_reset_return s :
    tstep l least s TResetReturn (with_regs s (temporal_reset_return (t_regs s))).

Inductive tsteps (l : memory_layout) (least : Z) : tstate -> list top -> tstate -> Prop :=
| tsteps_nil s : tsteps l least s [] s
| tsteps_cons s1 o s2 ops s3 : tstep l least s1 o s2 -> tsteps l least s2 ops s3 ->
    tsteps l least s1 (o :: ops) s3.

Lemma tsteps_snoc l least s1 ops s2 o s3 : tsteps l least s1 ops s2 -> tstep l least s2 o s3 ->
  tsteps l least s1 (ops ++ [o]) s3.
Proof using Type.
  intros Hs Ho. induction Hs as [s|s1 o1 s2 ops s4 H1 _ IH]; simpl.
  - by eapply tsteps_cons; [|apply tsteps_nil].
  - by eapply tsteps_cons; [exact H1|apply IH].
Qed.

(** The simulation relation. *)
Record tsimulates (l : memory_layout) (least : Z) (st : state) (s : tstate) : Prop := mk_tsimulates {
  sim_tracked : tracked cfg st (t_mem s) (t_stamps s);
  sim_pub : st_pub st = t_pub s;
  sim_layout : st_layout st = l;
  sim_least : heap_mspace_least (st_spaces st) = least;
  sim_return : in_u 32 (return_referent (t_regs s))
}.

Lemma tsimulates_kept l least st st' s M' a' S' : tsimulates l least st s -> kept st st' a' ->
  tracked cfg st' M' S' -> tsimulates l least st' (mk_tstate M' a' S' (t_regs s)).
Proof using Type. intros [] (Ep & El & Es) HT. constructor; cbn; congruence || done. Qed.

Lemma gstep_tracked l least st s o M' a' : tsimulates l least st s ->
  gstep cfg l least (t_mem s, t_pub s) o (M', a') -> stamp_ok l (t_mem s) o (t_stamps s) ->
  exists st', run_op cfg pg st o = Ret st' /\
    tsimulates l least st' (mk_tstate M' a' (stamp_op l (t_mem s) (t_pub s) o (t_stamps s)) (t_regs s)).
Proof using Htemp.
  intros Hsim Hstep Hok. pose proof Hsim as [HT Ea El Es _]. pose proof (td_models _ _ _ _ HT) as HM.
  remember (t_mem s, t_pub s) as s0 eqn:E0. remember (M', a') as s1 eqn:E1.
  destruct Hstep as [M a g p n Hh Hn Hf|M a p ab E Ef|M a x n b ab Hin Hn Hle|M a p ab E
    |M a p ab E Ef Hon|M a n res a1 Hn Hpub Hl' Hg|M a n k res a1 Hn Hk Hlt Hpub Hl' Hg|M a p ab E Ef Hl'
    |M a Hv]; injection E0 as -> ->; injection E1 as <- <-; rewrite <- ?Ea in *; cbn [run_op stamp_op stamp_ok] in *.
  - rewrite <- El in *. pose proof (tl_layout _ (td_layout _ _ _ _ HT)) as Hl.
    pose proof (on_global _ Hl g p (home_on0 _ _ _ _ Hh)) as Eg.
    destruct (store_block_tracked cfg Htemp st _ _ g p n HT Hh Hn Hf) as (st' & -> & Hkp & HT').
    { intros Hne. rewrite bool_decide_false in Eg by done. destruct (Hok Eg) as (Hlast & g' & Hsp).
      split; [|done]. assert (g' = g) as ->; [|done].
      apply (on_unique _ Hl g' g p); [exact (home_on0 _ _ _ _ (proj1 Hsp))|exact (home_on0 _ _ _ _ Hh)]. }
    exists st'. split; [done|]. eapply tsimulates_kept; [exact Hsim|done|]. rewrite Eg.
    by destruct (decide (g = SGlobal)) as [->|Hne]; [rewrite bool_decide_true|rewrite bool_decide_false].
  - unfold stamp_remove. rewrite E.
    destruct (delete_block_tracked cfg Htemp st _ _ p ab HT E Ef) as (st' & -> & Hk & HT').
    exists st'. split; [done|]. by eapply tsimulates_kept.
  - destruct (seg_initialize_refines cfg st _ x b ab n HM Hin Hn Hle) as (st' & -> & Hk & HM' & Hq).
    exists st'. split; [done|]. eapply tsimulates_kept; [exact Hsim|done|].
    apply (tracked_quiet cfg st st' _ _ b ab); try done. apply Hin.
  - destruct (seg_full_init_refines cfg st _ p ab HM E) as (st' & -> & Hk & HM' & Hq).
    exists st'. split; [done|]. eapply tsimulates_kept; [exact Hsim|done|].
    by apply (tracked_quiet cfg st st' _ _ p ab).
  - rewrite <- El in Hon.
    destruct (seg_mark_readonly_refines cfg st _ p ab HM E Ef Hon) as (st' & -> & Hk & HM' & Hq).
    exists st'. split; [done|]. eapply tsimulates_kept; [exact Hsim|done|].
    by apply (tracked_quiet cfg st st' _ _ p ab).
  - rewrite <- El in Hg. destruct (seg_malloc_refines cfg pg st _ n res a1 HM Hn Hpub)
      as (st' & -> & Hk & HM' & Heff); [split; [congruence|done]|].
    exists st'. split; [done|]. eapply tsimulates_kept; [exact Hsim|done|]. rewrite Hpub.
    by apply (alloc_tracked cfg Htemp st st' _ _ res n false a1).
  - rewrite <- El in Hg. destruct (seg_calloc_refines cfg pg st _ n k res a1 HM Hn Hk Hlt Hpub)
      as (st' & -> & Hkp & HM' & Heff); [split; [congruence|done]|].
    exists st'. split; [done|]. eapply tsimulates_kept; [exact Hsim|done|]. rewrite Hpub.
    by apply (alloc_tracked cfg Htemp st st' _ _ res (n * k) true a1).
  - assert (p <> NULL) as Hnull.
    { destruct (heap_block_on st _ p p ab HM (contains_base st _ p ab HM E) Ef) as [Hon _].
      pose proof (hk_nonnull _ (so_heap _ (gm_state _ _ HM))). unfold hon, NULL in *. lia. }
    rewrite (proj2 (Z.eqb_neq p NULL) Hnull). unfold stamp_remove. rewrite E.
    destruct (free_tracked cfg Htemp st _ _ p ab HT E Ef) as (st' & -> & Hk & HT'); [congruence|].
    exists st'. split; [done|]. by eapply tsimulates_kept.
  - unfold free. rewrite Z.eqb_refl, Hv. exists st. split; [done|].
    by eapply tsimulates_kept; [exact Hsim| |].
Qed.

(** The values of the temporal queries. *)
Lemma origin_value l least st s q t : tsimulates l least st s ->
  origin_is l (t_mem s) (s_time (t_stamps s)) q t ->
  origin_timestamp cfg l (st_mem st) q = Ret t /\ in_u 32 t.
Proof using Type.
  intros [[HM Hl HT _ _] _ El _ _] Ho. subst l. set (l := st_layout st) in *.
  assert (origin_timestamp cfg l (st_mem st) q = Ret t) as E by (by eapply (origin_exact cfg l Hl)).
  split; [done|]. pose proof HT as [HMt _ _ _].
  destruct (@tm_origin_total _ _ (segment_temporal_ok cfg l Hl (t_mem s)) (st_mem st) q HMt) as (t' & E' & Hu).
  - change (target l (t_mem s) q). intros Hheap. destruct Ho as [(a & ab & [Ea Hc] & _)|(_ & Hno & _)]; [|congruence].
    destruct (ab_freeable ab) eqn:Ef; [exists a, ab; split; [by apply heap_part_lookup|done]|exfalso].
    destruct (static_block_on st _ q a ab HM (conj Ea Hc) Ef) as (s' & Hon & _).
    pose proof (on_not_heap l (tl_layout l Hl) s' q Hon). congruence.
  - change (origin_timestamp cfg l (st_mem st) q = Ret t') in E'. congruence.
Qed.

Lemma referent_value l least st s lhs t : tsimulates l least st s ->
  s_referents (t_stamps s) !! lhs = Some t ->
  referent_timestamp cfg l (st_mem st) lhs = Ret t /\ in_u 32 t.
Proof using Type.
  intros [[HM Hl HT _ _] _ El _ _] E. subst l. set (l := st_layout st) in *.
  destruct (tk_referents _ _ _ _ _ _ HT lhs t E) as [Hr Er]. split; [done|]. pose proof HT as [HMt _ _ _].
  destruct (@tm_referent_total _ _ (segment_temporal_ok cfg l Hl (t_mem s)) (st_mem st) lhs HMt Hr) as (t' & E' & Hu).
  change (referent_timestamp cfg l (st_mem st) lhs = Ret t') in E'. congruence.
Qed.

Lemma store_simulated l least st s lhs t : tsimulates l least st s -> room (t_mem s) lhs -> in_u 32 t ->
  exists m', store_temporal_referent cfg l (st_mem st) lhs t = Ret m' /\
    tsimulates l least (set_mem st m') (with_referent s lhs t).
Proof using Type.
  intros [HT Ea El Es Hr] Hroom Hu. subst l.
  destruct (referent_stored cfg st _ _ lhs t HT Hroom Hu) as (m' & E & HT'). exists m'. split; [done|].
  by constructor.
Qed.

Lemma regs_simulated l least st s r : tsimulates l least st s -> in_u 32 (return_referent r) ->
  tsimulates l least st (with_regs s r).
Proof using Type. intros [] Hr. by constructor. Qed.

Lemma saved_return r ptr i flow r' : save_parameter r ptr i flow = Ret r' -> return_referent r' = return_referent r.
Proof using Type. unfold save_parameter. destruct (_ && _); [|done]. by intros [= <-]. Qed.

Lemma tstep_simulated l least st s o s' : tsimulates l least st s -> tstep l least s o s' ->
  exists st', trun_op st (t_regs s) o = Ret (st', t_regs s') /\ tsimulates l least st' s'.
Proof using Htemp.
  intros Hsim Hstep. pose proof Hsim as [_ _ El _ Hret].
  destruct Hstep as [s o M' a' Hg Hok|s lhs rhs t Hr Ho|s lhs rhs t Hr Ho|s ptr i r E|s ptr i r E
    |s ptr i size t Hr Hi Hs|s|s ptr t E|s ptr Hr|s];
    cbn [trun_op t_regs with_regs with_referent with_stamps]; rewrite ?El.
  - destruct (gstep_tracked l least st s o M' a' Hsim Hg Hok) as (st' & -> & Hsim'). by exists st'.
  - destruct (origin_value l least st s rhs t Hsim Ho) as [E Hu].
    destruct (store_simulated l least st s lhs t Hsim Hr Hu) as (m' & E' & Hsim'). exists (set_mem st m').
    split; [|done]. unfold store_nblock, temporal_store_nblock. rewrite El. cbn [tm_origin tm_store segment_temporal].
    rewrite E. cbn [obind]. by rewrite E'.
  - destruct (referent_value l least st s rhs t Hsim Ho) as [E Hu].
    destruct (store_simulated l least st s lhs t Hsim Hr Hu) as (m' & E' & Hsim'). exists (set_mem st m').
    split; [|done]. unfold store_nreferent, temporal_store_nreferent. rewrite El.
    cbn [tm_referent tm_store segment_temporal]. rewrite E. cbn [obind]. by rewrite E'.
  - rewrite E. exists st. split; [done|]. apply regs_simulated; [done|]. by rewrite (saved_return _ _ _ _ _ E).
  - rewrite E. exists st. split; [done|]. apply regs_simulated; [done|]. by rewrite (saved_return _ _ _ _ _ E).
  - destruct Hs as (p & flow & Ep & Hf).
    assert (exists (c : outcome Z), c = Ret t /\ in_u 32 t /\
      temporal_pull_parameter (TM := segment_temporal cfg l) cfg (t_regs s) (st_mem st) ptr i size =
      (let* t := c in store_temporal_referent cfg l (st_mem st) ptr t)) as (c & -> & Hu & Epull).
    { unfold temporal_pull_parameter. rewrite (proj2 (Z.leb_le 0 i)), (proj2 (Z.ltb_lt i _)) by lia.
      cbn [andb]. rewrite Ep. cbn [deref obind tp_flow tp_ptr tm_origin tm_referent tm_store segment_temporal].
      destruct flow; try done.
      - destruct (origin_value l least st s p t Hsim Hf). by eexists.
      - destruct (referent_value l least st s p t Hsim Hf). by eexists. }
    destruct (store_simulated l least st s ptr t Hsim Hr Hu) as (m' & E' & Hsim'). exists (set_mem st m').
    split; [|done]. unfold on_temporal. rewrite Epull. cbn [obind]. by rewrite E'.
  - exists st. split; [done|]. by apply regs_simulated.
  - destruct (referent_value l least st s ptr t Hsim E) as [E' Hu]. exists st.
    unfold temporal_save_return. change (i2b sizeof_ptr) with true. cbv iota.
    cbn [tm_referent segment_temporal]. rewrite E'. cbn [obind]. split; [done|]. by apply regs_simulated.
  - destruct (store_simulated l least st s ptr _ Hsim Hr Hret) as (m' & E' & Hsim'). exists (set_mem st m').
    split; [|done]. unfold on_temporal, temporal_pull_return. cbn [tm_store segment_temporal]. by rewrite E'.
  - exists st. split; [done|]. apply regs_simulated; [done|]. split; by vm_compute.
Qed.

Lemma trun_simulated l least st s ops s' : tsimulates l least st s -> tsteps l least s ops s' ->
  exists st', trun st (t_regs s) ops = Ret (st', t_regs s') /\ tsimulates l least st' s'.
Proof using Htemp.
  intros Hsim Hsteps. revert st Hsim.
  induction Hsteps as [s|s1 o s2 ops s3 Hstep Hsteps IH]; intros st Hsim; [by exists st|].
  destruct (tstep_simulated l least st s1 o s2 Hsim Hstep) as (st1 & E & Hsim1). cbn [trun]. rewrite E.
  by apply IH.
Qed.

(** Temporal validity compares the stored referent with the time stamp of the target. *)
Lemma valid_in_time_exact l least st s lhs q t o : tsimulates l least st s ->
  s_referents (t_stamps s) !! lhs = Some t -> origin_is l (t_mem s) (s_time (t_stamps s)) q o ->
  lhs <> NULL -> q <> lhs -> valid_in_time cfg st q lhs = Ret (b2i (t =? o)).
Proof using Type.
  intros Hsim Et Ho Hnull Hne. destruct (referent_value l least st s lhs t Hsim Et) as [E1 _].
  destruct (origin_value l least st s q o Hsim Ho) as [E2 _]. pose proof Hsim as [_ _ El _ _].
  unfold valid_in_time, temporal_valid. rewrite El. cbn [tm_referent tm_origin segment_temporal].
  rewrite (proj2 (Z.eqb_neq lhs NULL)), (proj2 (Z.eqb_neq q lhs)) by done. cbn [andb negb].
  rewrite E1, E2. done.
Qed.
End Machine.

(** ** Time stamps of a run *)

Section Fresh.
Context `{PB : !PublicAlloc} (cfg : config).

(** The time stamps that a state holds are not newer than the last one, and no two
    blocks share one, but the global ones. *)
Record fresh_stamps (s : tstate) : Prop := mk_fresh_stamps {
  fr_last : GLOBAL_TEMPORAL_TIMESTAMP <= s_last (t_stamps s);
  fr_time : forall a t, s_time (t_stamps s) !! a = Some t -> t <= s_last (t_stamps s);
  fr_referents : forall lhs t, s_referents (t_stamps s) !! lhs = Some t -> t <= s_last (t_stamps s);
  fr_return : return_referent (t_regs s) <= s_last (t_stamps s);
  fr_distinct : forall a a' t, s_time (t_stamps s) !! a = Some t -> s_time (t_stamps s) !! a' = Some t ->
    GLOBAL_TEMPORAL_TIMESTAMP < t -> a = a'
}.

(** Operations on the stamps. *)
Definition keeps_stamps (S S' : stamps) : Prop :=
  s_last S <= s_last S' /\
  (forall lhs t, s_referents S' !! lhs = Some t -> s_referents S !! lhs = Some t) /\
  forall a t, s_time S' !! a = Some t ->
    s_time S !! a = Some t \/ t = GLOBAL_TEMPORAL_TIMESTAMP \/
    (t = s_last S' /\ s_last S < s_last S' /\ forall a', s_time S' !! a' = Some t -> a' = a \/ s_time S !! a' = Some t).

Lemma keeps_same S : keeps_stamps S S.
Proof. split_and!; [lia|done|by left]. Qed.

Lemma keeps_set_global p S : keeps_stamps S (set_stamp p GLOBAL_TEMPORAL_TIMESTAMP S).
Proof.
  split_and!; cbn; [lia|done|]. intros a t [[_ <-]|[_ E]]%lookup_insert_Some; [by right; left|by left].
Qed.

Lemma keeps_new p S : keeps_stamps S (new_stamp p S).
Proof.
  split_and!; cbn; [lia|done|]. intros a t [[<- <-]|[_ E]]%lookup_insert_Some; [|by left].
  right. right. split_and!; [done|lia|]. intros a' [[<- _]|[_ E]]%lookup_insert_Some; auto.
Qed.

Lemma keeps_forget p n S : keeps_stamps S (forget_block p n S).
Proof.
  split_and!; cbn; [lia| |].
  - intros lhs t [E _]%map_lookup_filter_Some. done.
  - intros a t [_ E]%lookup_delete_Some. by left.
Qed.

Lemma keeps_op l M a o S : keeps_stamps S (stamp_op l M a o S).
Proof.
  destruct o; cbn [stamp_op]; unfold stamp_new, stamp_remove; repeat case_match;
    auto using keeps_same, keeps_set_global, keeps_new, keeps_forget.
Qed.

Lemma fresh_kept s M a S : fresh_stamps s -> keeps_stamps (t_stamps s) S ->
  fresh_stamps (mk_tstate M a S (t_regs s)).
Proof.
  intros [F1 F2 F3 F4 F5] (Hl & Hr & Ht). constructor; cbn; [lia| | |lia|].
  - intros b t E. destruct (Ht b t E) as [E'|[->|(-> & _)]]; [apply F2 in E'; lia|lia|lia].
  - intros lhs t E%Hr%F3. lia.
  - intros b b' t E E' Hg. destruct (Ht b t E) as [E1|[->|(-> & Hlt & Hu)]]; [|lia|].
    + destruct (Ht b' t E') as [E2|[->|(-> & Hlt & Hu)]]; [by apply (F5 b b' t)|lia|].
      apply F2 in E1. lia.
    + destruct (Hu b' E') as [->|E2]; [done|]. apply F2 in E2. lia.
Qed.

Lemma fresh_origin l s q t : fresh_stamps s -> origin_is l (t_mem s) (s_time (t_stamps s)) q t ->
  t <= s_last (t_stamps s).
Proof.
  intros HF [(a & ab & _ & E)|(_ & _ & ->)]; [by apply (fr_time s HF a)|].
  pose proof (fr_last s HF). unfold INVALID_TEMPORAL_TIMESTAMP, GLOBAL_TEMPORAL_TIMESTAMP in *. lia.
Qed.

Lemma fresh_referent s lhs t : fresh_stamps s -> t <= s_last (t_stamps s) ->
  fresh_stamps (with_referent s lhs t).
Proof.
  intros [F1 F2 F3 F4 F5] Ht. constructor; cbn; [done|done| |done|done].
  intros lhs' t' [[_ <-]|[_ E]]%lookup_insert_Some; [done|].
  apply map_lookup_filter_Some in E as [E _]. by apply (F3 lhs').
Qed.

Lemma fresh_regs s r : fresh_stamps s -> return_referent r <= s_last (t_stamps s) ->
  fresh_stamps (with_regs s r).
Proof. intros [] Hr. by constructor. Qed.

Lemma tstep_fresh l least s o s' : fresh_stamps s -> tstep cfg l least s o s' -> fresh_stamps s'.
Proof.
  intros HF Hstep. destruct Hstep as [s o M' a' Hg Hok|s lhs rhs t Hr Ho|s lhs rhs t Hr Ho|s ptr i r E|s ptr i r E
    |s ptr i size t Hr Hi Hs|s|s ptr t E|s ptr Hr|s].
  - apply fresh_kept; [done|apply keeps_op].
  - apply fresh_referent; [done|by apply (fresh_origin l s rhs)].
  - apply fresh_referent; [done|by apply (fr_referents s HF rhs)].
  - apply fresh_regs; [done|]. rewrite (saved_return _ _ _ _ _ E). apply HF.
  - apply fresh_regs; [done|]. rewrite (saved_return _ _ _ _ _ E). apply HF.
  - apply fresh_referent; [done|]. destruct Hs as (p & [] & _ & Hf); try done.
    + by apply (fresh_origin l s p).
    + by apply (fr_referents s HF p).
  - apply fresh_regs; [done|]. apply HF.
  - apply fresh_regs; [done|]. by apply (fr_referents s HF ptr).
  - apply fresh_referent; [done|]. apply HF.
  - apply fresh_regs; [done|]. pose proof (fr_last s HF). cbn. unfold GLOBAL_TEMPORAL_TIMESTAMP in *. lia.
Qed.

Lemma tsteps_fresh l least s ops s' : fresh_stamps s -> tsteps cfg l least s ops s' -> fresh_stamps s'.
Proof. intros HF Hs. induction Hs as [|s1 o s2 ops s3 Hstep _ IH]; [done|]. by apply IH, (tstep_fresh l least s1 o). Qed.

(** A block that an operation creates has a new time stamp. *)
Lemma created_stamp l least s o s' p ab : tstep cfg l least s (TOp o) s' -> t_mem s !! p = None ->
  t_mem s' !! p = Some ab -> IS_ON_GLOBAL l p = false ->
  s_time (t_stamps s') !! p = Some (s_last (t_stamps s) + 1) /\
  s_referents (t_stamps s') = s_referents (t_stamps s) /\ t_mem s' = <[p := ab]> (t_mem s).
Proof.
  intros Hstep Hnone Hsome Hg. inversion Hstep as [s0 o0 M' a' Hgs Hok E1 E2 E3| | | | | | | | |]; subst. clear Hstep.
  cbn [t_mem t_stamps] in *.
  remember (t_mem s, t_pub s) as s0 eqn:E0. remember (M', a') as s1 eqn:E1.
  destruct Hgs as [M a g x n Hh Hn Hf|M a x ab1 E Ef|M a x n b ab1 Hin Hn Hle|M a x ab1 E
    |M a x ab1 E Ef Hon|M a n res a1 Hn Hpub Hl' Hgood|M a n k res a1 Hn Hk Hlt Hpub Hl' Hgood|M a x ab1 E Ef Hl'
    |M a Hv]; injection E0 as -> ->; injection E1 as <- <-; cbn [stamp_op];
    try (apply lookup_insert_Some in Hsome as [[<- <-]|[_ Hsome]]; [|congruence]).
  - rewrite Hg. cbn. by rewrite lookup_insert_eq.
  - apply lookup_delete_Some in Hsome as [_ Hsome]. congruence.
  - destruct Hin as [Hin _]. congruence.
  - congruence.
  - congruence.
  - rewrite Hpub. unfold stamp_new, a_alloc in *. cbn [fst]. destruct (res =? NULL); [congruence|].
    apply lookup_insert_Some in Hsome as [[<- <-]|[_ Hsome]]; [|congruence]. cbn. by rewrite lookup_insert_eq.
  - rewrite Hpub. unfold stamp_new, a_alloc in *. cbn [fst]. destruct (res =? NULL); [congruence|].
    apply lookup_insert_Some in Hsome as [[<- <-]|[_ Hsome]]; [|congruence]. cbn. by rewrite lookup_insert_eq.
  - apply lookup_delete_Some in Hsome as [_ Hsome]. congruence.
  - congruence.
Qed.
End Fresh.

(** ** Properties *)

(** C20.  Refinement, with temporal analysis.  Every sequence of operations on memory
    (those of [shadow_model_simulation]) and of the temporal API (stores of referents,
    parameters and return values) that the abstract machine can perform, in which the
    blocks of the stack and of thread-local storage are spaced by their time stamps and
    the time stamps do not run out, runs to its end in the shadow memory model with
    temporal analysis, debug checks included.  The shadows it reaches encode the abstract
    memory, the time stamps of its blocks and the referents of its pointers: temporal
    validity of a pointer that is stored at [lhs] and of an address [q] is the equality
    of the referent of [lhs] and of the origin of [q]. *)
Theorem shadow_temporal_simulation `{PB : !PublicAlloc} (cfg : config) (pg : program)
  (l : memory_layout) (least : Z) (st : state) (s : tstate) (ops : list top) (s' : tstate) :
  cfg_temporal cfg = true -> tsimulates cfg l least st s -> tsteps cfg l least s ops s' ->
  exists st', trun cfg pg st (t_regs s) ops = Ret (st', t_regs s') /\ tsimulates cfg l least st' s' /\
    forall lhs q t o, s_referents (t_stamps s') !! lhs = Some t ->
      origin_is l (t_mem s') (s_time (t_stamps s')) q o -> lhs <> NULL -> q <> lhs ->
      valid_in_time cfg st' q lhs = Ret (b2i (t =? o)).
Proof.
  intros Ht Hsim Hs. destruct (trun_simulated cfg pg Ht l least st s ops s' Hsim Hs) as (st' & E & Hsim').
  exists st'. split_and!; [done|done|]. intros lhs q t o. by apply (valid_in_time_exact cfg l least st' s').
Qed.

(** C13.  A stale pointer is detected in every run of the shadow memory model with
    temporal analysis: after any run, an operation that creates a block at [p], on the
    stack, in thread-local storage or on the heap, also in the place of a block that is
    gone, gives it a time stamp that no pointer holds, so that each pointer whose referent
    has been stored before, and has not been replaced since, is temporally invalid for
    every address of the new block. *)
Theorem stale_pointers_detected `{PB : !PublicAlloc} (cfg : config) (pg : program)
  (l : memory_layout) (least : Z) (st : state) (s : tstate) (ops : list top) (s1 : tstate) (o : op)
  (s2 : tstate) (p : Z) (ab : ablock) :
  cfg_temporal cfg = true -> tsimulates cfg l least st s -> fresh_stamps s ->
  tsteps cfg l least s ops s1 -> tstep cfg l least s1 (TOp o) s2 ->
  t_mem s1 !! p = None -> t_mem s2 !! p = Some ab -> IS_ON_GLOBAL l p = false ->
  exists st', trun cfg pg st (t_regs s) (ops ++ [TOp o]) = Ret (st', t_regs s2) /\
    forall lhs t q, s_referents (t_stamps s1) !! lhs = Some t -> lhs <> NULL -> contains (t_mem s2) q p ab ->
      valid_in_time cfg st' q lhs = Ret 0.
Proof.
  intros Ht Hsim HF Hs Hstep Hnone Hsome Hg.
  destruct (trun_simulated cfg pg Ht l least st s (ops ++ [TOp o]) s2 Hsim) as (st' & E & Hsim');
    [by eapply tsteps_snoc|].
  pose proof (tsteps_fresh cfg l least s ops s1 HF Hs) as HF1.
  destruct (created_stamp cfg l least s1 o s2 p ab Hstep Hnone Hsome Hg) as (Et & Er & EM).
  exists st'. split; [done|]. intros lhs t q Elhs Hnull Hin. pose proof (fr_referents s1 HF1 lhs t Elhs) as Hle.
  assert (q <> lhs) as Hne.
  { intros ->. destruct (trun_simulated cfg pg Ht l least st s ops s1 Hsim Hs) as (st1 & _ & Hsim1).
    pose proof (td_tracks _ _ _ _ (sim_tracked _ _ _ _ _ Hsim1)) as HT1.
    destruct (tk_referents _ _ _ _ _ _ HT1 lhs t Elhs) as [(a & ab' & [E' Hc] & _) _].
    assert (p <> a) as Hpa by congruence.
    destruct (seg_contains_unique st' (t_mem s2) lhs p ab a ab' (td_models _ _ _ _ (sim_tracked _ _ _ _ _ Hsim')));
      [done|split; [by rewrite EM, lookup_insert_ne|done]|done]. }
  rewrite <- Er in Elhs.
  rewrite (valid_in_time_exact cfg l least st' s2 lhs q t (s_last (t_stamps s1) + 1)); try done.
  - by rewrite (proj2 (Z.eqb_neq _ _)) by lia.
  - left. by exists p, ab.
Qed.

(** The answer of temporal analysis for the base of a pointer that is stored at
    [addrof]: true when the pointer is not stored, or is its own base. *)
Definition temporal_answer `{PB : !PublicAlloc} (l : memory_layout) (s : tstate) (base addrof : Z) (v : bool) : Prop :=
  if (addrof =? NULL) || (base =? addrof) then v = true
  else exists t o, s_referents (t_stamps s) !! addrof = Some t /\
    origin_is l (t_mem s) (s_time (t_stamps s)) base o /\ v = (t =? o).

(** [valid] and [valid_read] with temporal analysis: a range is valid when it is so
    without the analysis (see [shadow_valid_exact]) and the pointer is temporally valid. *)
Theorem temporal_valid_exact `{PB : !PublicAlloc} (cfg : config) (l : memory_layout) (least : Z)
  (st : state) (s : tstate) (x n base addrof : Z) (v : bool) :
  cfg_temporal cfg = true -> tsimulates cfg l least st s -> 0 < n < 2 ^ 63 -> x <> hend l ->
  base_ok l (t_mem s) x base -> temporal_answer l s base addrof v ->
  (exists r, valid cfg st x n base addrof = Ret r /\ (r = 0 \/ r = 1) /\
     (r = 1 <-> v = true /\ exists a ab, allocated_in cfg (t_mem s) x n base a ab /\ ab_readonly ab = false)) /\
  (exists r, valid_read cfg st x n base addrof = Ret r /\ (r = 0 \/ r = 1) /\
     (r = 1 <-> v = true /\ exists a ab, allocated_in cfg (t_mem s) x n base a ab)).
Proof.
  intros Ht Hsim Hn Hend Hb Hv. pose proof (td_models _ _ _ _ (sim_tracked _ _ _ _ _ Hsim)) as HM.
  pose proof (sim_layout _ _ _ _ _ Hsim) as El.
  assert (valid_in_time cfg st base addrof = Ret (b2i v)) as Ev.
  { unfold temporal_answer in Hv. destruct (Z.eqb_spec addrof NULL) as [->|Hnull]; cbn [orb] in Hv; [by rewrite Hv|].
    destruct (Z.eqb_spec base addrof) as [->|Hne]; cbn [orb] in Hv.
    - subst. unfold valid_in_time, temporal_valid. by rewrite Z.eqb_refl, andb_false_r.
    - destruct Hv as (t & o & Et & Ho & ->). by apply (valid_in_time_exact cfg l least st s). }
  rewrite <- El in Hend, Hb.
  assert (forall P : Prop, forall r, (r = 0 \/ r = 1) -> (r = 1 <-> P) ->
    exists r', (if i2b r then Ret (b2i v) else Ret 0) = Ret r' /\ (r' = 0 \/ r' = 1) /\ (r' = 1 <-> v = true /\ P)) as Hand.
  { intros P r H01 Hr. destruct v; [exists r|exists 0].
    - destruct H01 as [-> | ->]; (split; [done|]); (split; [by auto|]); tauto.
    - destruct H01 as [-> | ->]; (split; [done|]); (split; [by auto|]); split; [done|by intros [? _]|done|by intros [? _]]. }
  unfold valid, valid_read. rewrite Ht, Ev. cbn [obind]. rewrite b2i_i2b.
  destruct (seg_valid_exact (without_temporal cfg) eq_refl st _ x n base addrof HM Hn Hend Hb) as (r & E & H01 & Hr).
  destruct (seg_valid_read_exact (without_temporal cfg) eq_refl st _ x n base addrof HM Hn Hend Hb) as (r' & E' & H01' & Hr').
  unfold valid in E. unfold valid_read in E'. cbn [without_temporal cfg_temporal] in E, E'.
  change (allocated (without_temporal cfg)) with (allocated cfg) in E, E'.
  split; [destruct (Hand _ r H01 Hr) as (r2 & E2 & H2)|destruct (Hand _ r' H01' Hr') as (r2 & E2 & H2)];
    exists r2; (split; [|exact H2]); rewrite <- E2; clear E2 H2.
  - destruct (allocated cfg (st_layout st) (st_mem st) x (s64 n) base) as [a| | |]; try done. cbn [obind] in E |- *.
    destruct (i2b a); [|by injection E as <-].
    destruct (readonly (st_layout st) (st_mem st) x) as [ro| | |]; try done. cbn [obind] in E |- *.
    by destruct (i2b ro); injection E as <-.
  - destruct (allocated cfg (st_layout st) (st_mem st) x (s64 n) base) as [a| | |]; try done. cbn [obind] in E' |- *.
    injection E' as ->. by destruct (i2b r').
Qed.

(** ** Instances *)

Definition stamped_s0 : @tstate tiny_public :=
  @mk_tstate tiny_public ∅ 4128 (mk_stamps ∅ ∅ 2) (mk_regs no_parameters 0).

Lemma stamped_simulates0 : @tsimulates tiny_public stamping_config tiny_layout 4096 stamped_st0 stamped_s0.
Proof.
  pose proof stamped_models as HM. constructor; [|done|done|done|split; by vm_compute]. constructor.
  - constructor; [|apply HM|apply HM|done].
    constructor; [apply tiny_layout_ok|apply tiny_heap_ok|done..].
  - apply tiny_temporal_layout_ok.
  - constructor; [exact HM|done|done|done].
  - done.
  - cbn. lia.
Qed.

Lemma stamped_fresh0 : @fresh_stamps tiny_public stamped_s0.
Proof. constructor; cbn; try done. Qed.

Lemma spaced_check l (M : amem) s p :
  bool_decide (sg_start (application (part l s)) <= p /\ p + 4 <= sg_end (application (part l s))) = true ->
  bool_decide (on l s (p - 3)) = true ->
  bool_decide (map_Forall (fun a ab => ab_freeable ab = true \/ (a < p - 3 /\ a + ab_size ab <= p) \/ p + 4 <= a) M) = true ->
  spaced l M s p.
Proof.
  intros H1%bool_decide_eq_true H2%bool_decide_eq_true H3%bool_decide_eq_true. split; [|split; [done|]].
  - unfold home. lia.
  - intros a ab [E Ef]%static_part_lookup. destruct (H3 a ab E) as [?|?]; [congruence|done].
Qed.

(** A pointer on the stack to a heap block is passed as a parameter, and the parameter
    returned to a global variable; the heap block is freed. *)
Definition stamped_ops : list top :=
  [TOp (OStore 24592 8); TOp (OMalloc 40); TNblock 24592 4130; TSaveNreferent 24592 3;
   TOp (OStore 24608 8); TPull 24608 3 8; TSaveReturn 24608; TOp (OFree 4128);
   TOp (OStore 45056 8); TPullReturn 45056; TResetReturn].

(** A pointer at the start of a static block, and an address of a block. *)
Lemma in_room p n (M : amem) : bool_decide (8 <= n) = true ->
  M !! p = Some (mk_ablock n ∅ false false) -> room M p.
Proof. intros Hn%bool_decide_eq_true E. exists p, (mk_ablock n ∅ false false). split; [split; [done|left; simpl; lia]|simpl; lia]. Qed.

Lemma in_block a ab l (M : amem) T q t : M !! a = Some ab -> bool_decide (a <= q < a + ab_size ab) = true ->
  T !! a = Some t -> origin_is l M T q t.
Proof. intros E Hq%bool_decide_eq_true Et. left. exists a, ab. split; [split; [done|by left]|done]. Qed.

Lemma stamped_store s p n r : home tiny_layout s p n -> n < 2 ^ 32 ->
  @fresh_range (t_mem r) p n -> @stamp_ok tiny_layout (t_mem r) (OStore p n) (t_stamps r) ->
  @tstep tiny_public stamping_config tiny_layout 4096 r (TOp (OStore p n))
    (@mk_tstate tiny_public (<[p := mk_ablock n ∅ false false]> (t_mem r)) (t_pub r)
       (@stamp_op tiny_public tiny_layout (t_mem r) (t_pub r) (OStore p n) (t_stamps r)) (t_regs r)).
Proof. intros H1 H2 H3 H4. apply TS_op; [by apply (@GStore tiny_public) with (s := s)|exact H4]. Qed.

(** The next state of a run is computed. *)
Ltac computed :=
  match goal with
  | |- tsteps _ _ _ ?s _ _ => let v := eval vm_compute in s in replace s with v by (vm_compute; reflexivity)
  end.
Ltac trun_next tac := eapply tsteps_cons; [tac|computed].

Lemma stamped_run : exists s', @tsteps tiny_public stamping_config tiny_layout 4096 stamped_s0 stamped_ops s' /\
  s_referents (t_stamps s') !! 24592 = Some 4 /\
  origin_is tiny_layout (t_mem s') (s_time (t_stamps s')) 24608 5.
Proof.
  eexists. split; [|split].
  - unfold stamped_ops.
    trun_next ltac:(apply (stamped_store SStack); [split_and!; by vm_compute|done|apply fresh_check; reflexivity|
      intros _; split; [by vm_compute|exists SStack; apply spaced_check; reflexivity]]).
    trun_next ltac:(apply TS_op; [eapply (@GMalloc tiny_public);
      [by vm_compute|done|done|right; split; [apply new_alloc_check; reflexivity|reflexivity]]|by vm_compute]).
    trun_next ltac:(apply (@TS_nblock tiny_public) with (t := 4); [by apply (in_room 24592 8)|
      by apply (in_block 4128 (mk_ablock 40 ∅ false true))]).
    trun_next ltac:(apply (@TS_save_nreferent tiny_public); reflexivity).
    trun_next ltac:(apply (stamped_store SStack); [split_and!; by vm_compute|done|apply fresh_check; reflexivity|
      intros _; split; [by vm_compute|exists SStack; apply spaced_check; reflexivity]]).
    trun_next ltac:(apply (@TS_pull tiny_public) with (t := 4); [by apply (in_room 24608 8)|done|
      exists 24592, TReferentN; split; reflexivity]).
    trun_next ltac:(apply (@TS_save_return tiny_public) with (t := 4); reflexivity).
    trun_next ltac:(apply TS_op; [eapply (@GFree tiny_public); [reflexivity|done|done]|done]).
    trun_next ltac:(apply (stamped_store SGlobal);
      [split_and!; by vm_compute|done|apply fresh_check; reflexivity|intros Hg; by vm_compute in Hg]).
    trun_next ltac:(apply (@TS_pull_return tiny_public); by apply (in_room 45056 8)).
    trun_next ltac:(apply (@TS_reset_return tiny_public)). apply tsteps_nil.
  - reflexivity.
  - by apply (in_block 24608 (mk_ablock 8 ∅ false false)).
Qed.

(** The pointer at 24592 is not valid for the other block. *)
Lemma shadow_temporal_simulation_witness : exists st' r,
  @trun tiny_public stamping_config tiny_program stamped_st0 (mk_regs no_parameters 0) stamped_ops = Ret (st', r) /\
  @valid_in_time tiny_public stamping_config st' 24608 24592 = Ret 0.
Proof.
  destruct stamped_run as (s' & Hs & Et & Ho).
  destruct (@shadow_temporal_simulation tiny_public stamping_config tiny_program tiny_layout 4096 stamped_st0
    stamped_s0 stamped_ops s' eq_refl stamped_simulates0 Hs) as (st' & E & _ & Hv).
  exists st', (t_regs s'). split; [exact E|]. apply (Hv 24592 24608 4 5 Et Ho); discriminate.
Defined.

(** A block of the stack is deleted and another recorded at its address. *)
Definition reuse_ops : list top :=
  [TOp (OStore 24592 8); TOp (OStore 24608 8); TNblock 24592 24608; TOp (ODelete 24608)].

Lemma reuse_run : exists s1 s2, @tsteps tiny_public stamping_config tiny_layout 4096 stamped_s0 reuse_ops s1 /\
  @tstep tiny_public stamping_config tiny_layout 4096 s1 (TOp (OStore 24608 16)) s2 /\
  t_mem s1 !! 24608 = None /\ t_mem s2 !! 24608 = Some (mk_ablock 16 ∅ false false) /\
  s_referents (t_stamps s1) !! 24592 = Some 4.
Proof.
  eexists _, _. split; [|split; [|split_and!]].
  - unfold reuse_ops.
    trun_next ltac:(apply (stamped_store SStack); [split_and!; by vm_compute|done|apply fresh_check; reflexivity|
      intros _; split; [by vm_compute|exists SStack; apply spaced_check; reflexivity]]).
    trun_next ltac:(apply (stamped_store SStack); [split_and!; by vm_compute|done|apply fresh_check; reflexivity|
      intros _; split; [by vm_compute|exists SStack; apply spaced_check; reflexivity]]).
    trun_next ltac:(apply (@TS_nblock tiny_public) with (t := 4); [by apply (in_room 24592 8)|
      by apply (in_block 24608 (mk_ablock 8 ∅ false false))]).
    trun_next ltac:(apply TS_op; [eapply (@GDelete tiny_public); [reflexivity|done]|done]).
    apply tsteps_nil.
  - apply (stamped_store SStack); [split_and!; by vm_compute|done|apply fresh_check; reflexivity|].
    intros _. split; [by vm_compute|]. exists SStack. apply spaced_check; reflexivity.
  - reflexivity.
  - reflexivity.
  - reflexivity.
Qed.

Lemma stale_pointers_detected_witness : exists st' r,
  @trun tiny_public stamping_config tiny_program stamped_st0 (mk_regs no_parameters 0)
    (reuse_ops ++ [TOp (OStore 24608 16)]) = Ret (st', r) /\
  @valid_in_time tiny_public stamping_config st' 24610 24592 = Ret 0.
Proof.
  destruct reuse_run as (s1 & s2 & Hs & Ho & E1 & E2 & Et).
  destruct (@stale_pointers_detected tiny_public stamping_config tiny_program tiny_layout 4096 stamped_st0
    stamped_s0 reuse_ops s1 (OStore 24608 16) s2 24608 (mk_ablock 16 ∅ false false) eq_refl stamped_simulates0
    stamped_fresh0 Hs Ho E1 E2 eq_refl) as (st' & E & Hv).
  exists st', (t_regs s2). split; [exact E|]. apply (Hv 24592 4 24610 Et); [discriminate|].
  split; [exact E2|left; simpl; lia].
Defined.
