(* ===== verification/Agree.v ===== *)
(** * The two memory models agree

    The trie model and the shadow memory model implement the same contract: in
    states that represent the same abstract memory, their queries give the same
    answers. *)

From S2P Require Import Prelude AMem Alloc Temporal Bits Mask Trie Bittree BittreeRep BtModel BtSpec BtRefine BtHeap BtTrace CString Shadow Segment SegModel SegStatic SegHeap SegTrace SegTheorems.

(** Two answers that are 0 or 1 and hold of the same condition are equal. *)
Lemma same_answer (o1 o2 : outcome Z) (P : Prop) :
  (exists r, o1 = Ret r /\ (r = 0 \/ r = 1) /\ (r = 1 <-> P)) ->
  (exists r, o2 = Ret r /\ (r = 0 \/ r = 1) /\ (r = 1 <-> P)) -> o1 = o2.
Proof.
  intros (r & -> & H01 & Hr) (r' & -> & H01' & Hr'). f_equal.
  destruct H01 as [-> | ->], H01' as [-> | ->]; try done; exfalso; [assert (0 = 1)|assert (0 = 1)];
    try done; tauto.
Qed.

(** C22.  Equivalence of the memory models without temporal analysis: when a state of the
    trie model and a state of the shadow memory model represent the same blocks, [valid]
    and [valid_read] of a range of 0 < n < 2^32 bytes, whose address is not the end of
    the heap segment and whose base, if it is in the heap, is not in the padding of a
    block; [base_addr], [block_length] and [offset] of an address of a block; and
    [initialized] of a range within a block, which in the heap starts at a multiple of 8,
    have the same value in both. *)
Theorem models_agree `{PB : !PublicAlloc} (cfg : config) (h : heap) (st : SegModel.state) (M : amem)
  (x n base addrof : Z) :
  cfg_temporal cfg = false -> models h M -> seg_models st M ->
  in_u 64 x -> in_u 64 base -> 0 < n < 2 ^ 32 ->
  (x <> hend (st_layout st) -> base_ok (st_layout st) M x base ->
     BtModel.valid cfg h x n base addrof = SegModel.valid cfg st x n base addrof /\
     BtModel.valid_read cfg h x n base addrof = SegModel.valid_read cfg st x n base addrof) /\
  (forall a ab, contains M x a ab ->
     BtModel.base_addr cfg h x = SegModel.base_addr cfg st x /\
     BtModel.block_length cfg h x = SegModel.block_length cfg st x /\
     BtModel.offset cfg h x = SegModel.offset cfg st x /\
     (x + n <= a + ab_size ab -> (ab_freeable ab = true -> x mod 8 = 0) ->
      BtModel.initialized cfg h x n = SegModel.initialized cfg st x n)).
Proof.
  intros Ht HM HS Hx Hb Hn. split.
  - intros Hne Hbase. split.
    + eapply same_answer; [apply (valid_models cfg h M HM); try done; unfold in_u; lia|].
      apply (seg_valid_exact cfg Ht st M); try done; lia.
    + eapply same_answer; [apply (valid_read_models cfg h M HM); try done; unfold in_u; lia|].
      apply (seg_valid_read_exact cfg Ht st M); try done; lia.
  - intros a ab Hin. destruct (observers_exact cfg st M x a ab HS Hin) as (-> & -> & ->).
    destruct (base_addr_models cfg h M HM x Hx) as [B _]. rewrite (B a ab Hin).
    destruct (offset_models cfg h M HM x Hx) as [O _]. rewrite (O a ab Hin).
    destruct (block_length_models cfg h M HM x Hx) as [L _]. rewrite (L a ab Hin).
    split_and!; [done..|]. intros Hle H8. eapply same_answer.
    + apply (initialized_models cfg h M HM x n a ab Hin Hx Hn Hle).
    + apply (seg_initialized_exact cfg st M x a ab n); try done. lia.
Qed.

(** A state of the trie model with the blocks of [tiny_final]. *)
Section Demo.
#[local] Existing Instance demo_private.
#[local] Existing Instance demo_public.

Definition tiny_bt_ops : list op :=
  [OStore 24580 20; OInitialize 24584 8; OStore 45056 5; OFullInit 45056; OMarkReadonly 45056;
   OCalloc 4 4].
Definition tiny_bt0 : BtModel.state :=
  BtModel.mk_state _ (mk_heap ∅ ∅ ∅ NULL) (mk_stats 0 0) 2 4192 ∅ 0.

Lemma tiny_new_range M p sz : bool_decide (0 < p /\ 0 < sz < max_size /\ p + sz < 2 ^ 64) = true ->
  bool_decide (map_Forall (fun a ab => a <> p /\ (a + ab_size ab <= p \/ p + sz <= a)) M) = true ->
  new_range default_config M p sz.
Proof.
  intros H%bool_decide_eq_true Hf. destruct H as (H1 & H2 & H3).
  split; [done|]. split; [lia|]. split; [done|]. split; [by apply fresh_check|]. done.
Qed.

Lemma tiny_asteps : asteps default_config (∅, 4192) tiny_bt_ops (tiny_final, 4224).
Proof.
  unfold tiny_bt_ops.
  eapply asteps_cons; [apply (@AStore demo_public); apply tiny_new_range; reflexivity|].
  eapply asteps_cons; [eapply (@AInitialize demo_public);
    [split; [by rewrite lookup_insert_eq|unfold covers; simpl; lia]|lia..|simpl; lia]|].
  eapply asteps_cons; [apply (@AStore demo_public); apply tiny_new_range; reflexivity|].
  eapply asteps_cons; [eapply (@AFullInit demo_public); by rewrite lookup_insert_eq|].
  eapply asteps_cons; [eapply (@AMarkReadonly demo_public); by rewrite lookup_insert_eq|].
  eapply asteps_cons; [eapply (@ACalloc demo_public); [by vm_compute|done|right; apply tiny_new_range; reflexivity]|].
  match goal with |- asteps _ ?s _ _ => assert (s = (tiny_final, 4224)) as -> end; [|constructor].
  vm_compute. done.
Qed.

Lemma tiny_bt_models : exists h, models h tiny_final.
Proof.
  pose proof demo_private_ok.
  destruct (run_simulated default_config tiny_bt0 (∅, 4192) tiny_bt_ops (tiny_final, 4224))
    as (st & E & Hsim); [split; [split_and!; [apply models_empty|done..]|done]|apply tiny_asteps|].
  exists (BtModel.st_heap st). apply Hsim.
Qed.
End Demo.

Lemma models_agree_witness : exists h, models h tiny_final /\
  BtModel.valid default_config h 24590 4 24580 0 =
  @SegModel.valid tiny_public default_config tiny_st 24590 4 24580 0.
Proof.
  destruct tiny_bt_models as [h HM]. exists h. split; [exact HM|].
  destruct (@models_agree tiny_public default_config h tiny_st tiny_final 24590 4 24580 0 eq_refl HM
    tiny_st_models) as [[E _] _].
  - split; [discriminate|reflexivity].
  - split; [discriminate|reflexivity].
  - lia.
  - rewrite tiny_st_layout. vm_compute. discriminate.
  - rewrite tiny_st_layout. intros [_ H]. vm_compute in H. discriminate.
  - exact E.
Defined.
