(* ===== verification/LibcString.v ===== *)
(** * share/libc/string.c: the string functions of the C library

    The functions over byte memory, loop by loop.  A [char] is the byte that
    represents it; a comparison of two [char] for equality is the comparison of
    their bytes.  [cstr m s l]: the string at [s] is [l]. *)

From S2P Require Import Prelude.

(** ** Contents of memory *)

(** The bytes [l] are stored at [a]. *)
Definition bytes (m : mem) (a : Z) (l : list Z) : Prop :=
  forall (i : nat) b, l !! i = Some b -> m !! (a + Z.of_nat i) = Some b.

(** A string and its terminator. *)
Definition cstr (m : mem) (a : Z) (l : list Z) : Prop :=
  bytes m a (l ++ [0]) /\ Forall (fun b => 0 < b < 256) l.

(** The memory after the bytes [l] are written at [a]. *)
Fixpoint write (m : mem) (a : Z) (l : list Z) : mem :=
  match l with
  | [] => m
  | b :: l => write (<[a := b]> m) (a + 1) l
  end.

(** Iterations of a loop that reads a new address in each of them. *)
Definition steps (m : mem) : nat := S (size m).

(** ** Blocks of bytes *)

Definition memcpy (m : mem) (dest src n : Z) : outcome (Z * mem) :=
  let* m := for_range 0 n (fun i m =>
    let* c := load8 m (src + i) in store8 m (dest + i) c) m in
  Ret (dest, m).

Definition memoverlap (p q n : Z) : Z :=
  let p1 := p in let p2 := u64 (p + n) in
  let q1 := q in let q2 := u64 (q + n) in
  if (p1 <=? q1) && (q1 <? p2) then -1
  else if (q1 <=? p1) && (p1 <? q2) then 1
  else 0.

(** [for (i = n - 1; i > 0; i--) d[i] = s[i]]. *)
Fixpoint memmove_down (n : nat) (m : mem) (d s : Z) : outcome mem :=
  match n with
  | O => Ret m
  | S k =>
      let i := Z.of_nat n in
      let* c := load8 m (s + i) in
      let* m := store8 m (d + i) c in
      memmove_down k m d s
  end.

Definition memmove (m : mem) (dest src n : Z) : outcome (Z * mem) :=
  if n =? 0 then Ret (dest, m)
  else if memoverlap dest src n <=? 0 then
    let* m := for_range 0 n (fun i m =>
      let* c := load8 m (src + i) in store8 m (dest + i) c) m in
    Ret (dest, m)
  else
    let* m := memmove_down (Z.to_nat (n - 1)) m dest src in
    let* c := load8 m src in
    let* m := store8 m dest c in
    Ret (dest, m).

Definition memset (m : mem) (s c n : Z) : outcome (Z * mem) :=
  let* m := for_range 0 n (fun i m => store8 m (s + i) c) m in
  Ret (s, m).

Fixpoint memcmp_loop (n : nat) (m : mem) (p1 p2 i : Z) : outcome Z :=
  match n with
  | O => Ret 0
  | S n =>
      let* a := load8 m (p1 + i) in
      let* b := load8 m (p2 + i) in
      if negb (a =? b) then Ret (a - b) else memcmp_loop n m p1 p2 (i + 1)
  end.
Definition memcmp (m : mem) (s1 s2 n : Z) : outcome Z := memcmp_loop (Z.to_nat n) m s1 s2 0.

Fixpoint memchr_loop (n : nat) (m : mem) (s ch i : Z) : outcome Z :=
  match n with
  | O => Ret NULL
  | S n => let* b := load8 m (s + i) in
           if b =? ch then Ret (s + i) else memchr_loop n m s ch (i + 1)
  end.
Definition memchr (m : mem) (s c n : Z) : outcome Z := memchr_loop (Z.to_nat n) m s (u8 c) 0.

(** [for (i = n; i > 0; i--) if (s[i-1] == ch) return &s[i-1]]. *)
Fixpoint memrchr_loop (n : nat) (m : mem) (s ch : Z) : outcome Z :=
  match n with
  | O => Ret NULL
  | S k => let i := Z.of_nat n in
           let* b := load8 m (s + (i - 1)) in
           if b =? ch then Ret (s + (i - 1)) else memrchr_loop k m s ch
  end.
Definition memrchr (m : mem) (s c n : Z) : outcome Z := memrchr_loop (Z.to_nat n) m s (u8 c).

(** ** Strings *)

Definition strlen (m : mem) (s : Z) : outcome Z := strlen_loop (steps m) m s 0.

Fixpoint strnlen_loop (n : nat) (m : mem) (s i : Z) : outcome Z :=
  match n with
  | O => Ret i
  | S n => let* c := load8 m (s + i) in
           if c =? 0 then Ret i else strnlen_loop n m s (i + 1)
  end.
Definition strnlen (m : mem) (s maxlen : Z) : outcome Z := strnlen_loop (Z.to_nat maxlen) m s 0.

Fixpoint strcmp_loop (fuel : nat) (m : mem) (s1 s2 i : Z) : outcome Z :=
  match fuel with
  | O => NoFuel
  | S fuel =>
      let* a := load8 m (s1 + i) in
      let* b := load8 m (s2 + i) in
      if a =? b then if a =? 0 then Ret 0 else strcmp_loop fuel m s1 s2 (i + 1)
      else Ret (a - b)
  end.
Definition strcmp (m : mem) (s1 s2 : Z) : outcome Z := strcmp_loop (steps m) m s1 s2 0.

Fixpoint strncmp_loop (n : nat) (m : mem) (s1 s2 i : Z) : outcome Z :=
  match n with
  | O => Ret 0
  | S n =>
      let* a := load8 m (s1 + i) in
      let* b := load8 m (s2 + i) in
      if negb (a =? b) then Ret (a - b)
      else if a =? 0 then Ret 0
      else strncmp_loop n m s1 s2 (i + 1)
  end.
Definition strncmp (m : mem) (s1 s2 n : Z) : outcome Z := strncmp_loop (Z.to_nat n) m s1 s2 0.

(** The arguments are [char]: signed values. *)
Definition char_equal_ignore_case (c1 c2 : Z) : Z :=
  let c1 := if (65 <=? c1) && (c1 <=? 90) then s8 (c1 - (65 - 97)) else c1 in
  let c2 := if (65 <=? c2) && (c2 <=? 90) then s8 (c2 - (65 - 97)) else c2 in
  if c1 =? c2 then 0 else u8 c2 - u8 c1.

Fixpoint strcasecmp_loop (fuel : nat) (m : mem) (s1 s2 i : Z) : outcome Z :=
  match fuel with
  | O => NoFuel
  | S fuel =>
      let* a := load8 m (s1 + i) in
      let* b := if negb (a =? 0) then load8 m (s2 + i) else Ret 0 in
      if negb (a =? 0) && negb (b =? 0) then
        let res := char_equal_ignore_case (s8 a) (s8 b) in
        if negb (res =? 0) then Ret res else strcasecmp_loop fuel m s1 s2 (i + 1)
      else
        let* b := load8 m (s2 + i) in
        if (a =? 0) && (b =? 0) then Ret 0 else if a =? 0 then Ret (-1) else Ret 1
  end.
Definition strcasecmp (m : mem) (s1 s2 : Z) : outcome Z := strcasecmp_loop (steps m) m s1 s2 0.

(** [for (i = 0; src[i] != 0; i++) dest[i] = src[i]]: the final [i] and the
    memory. *)
Fixpoint copy_loop (fuel : nat) (m : mem) (dest src i : Z) : outcome (Z * mem) :=
  match fuel with
  | O => NoFuel
  | S fuel =>
      let* c := load8 m (src + i) in
      if c =? 0 then Ret (i, m)
      else let* m := store8 m (dest + i) c in copy_loop fuel m dest src (i + 1)
  end.

Definition strcpy (m : mem) (dest src : Z) : outcome (Z * mem) :=
  let* (i, m) := copy_loop (steps m) m dest src 0 in
  let* m := store8 m (dest + i) 0 in
  Ret (dest, m).

Definition strcat (m : mem) (dest src : Z) : outcome (Z * mem) :=
  let* n := strlen m dest in
  let* (i, m) := copy_loop (steps m) m (dest + n) src 0 in
  let* m := store8 m (dest + n + i) 0 in
  Ret (dest, m).

(** The copy of at most [n] characters, which stops before the terminator. *)
Fixpoint strncat_loop (n : nat) (m : mem) (dest src i : Z) : outcome (Z * mem) :=
  match n with
  | O => Ret (i, m)
  | S n =>
      let* c := load8 m (src + i) in
      if c =? 0 then Ret (i, m)
      else let* m := store8 m (dest + i) c in strncat_loop n m dest src (i + 1)
  end.
Definition strncat (m : mem) (dest src n : Z) : outcome (Z * mem) :=
  let* dest_len := strlen m dest in
  let* (i, m) := strncat_loop (Z.to_nat n) m (dest + dest_len) src 0 in
  let* m := store8 m (dest + dest_len + i) 0 in
  Ret (dest, m).

(** The copy of at most [n] characters, which stops after the terminator is
    copied, at its index. *)
Fixpoint strncpy_loop (n : nat) (m : mem) (dest src i : Z) : outcome (Z * mem) :=
  match n with
  | O => Ret (i, m)
  | S n =>
      let* c := load8 m (src + i) in
      let* m := store8 m (dest + i) c in
      let* c := load8 m (src + i) in
      if c =? 0 then Ret (i, m) else strncpy_loop n m dest src (i + 1)
  end.
Definition strncpy (m : mem) (dest src n : Z) : outcome (Z * mem) :=
  let* (i, m) := strncpy_loop (Z.to_nat n) m dest src 0 in
  let* m := for_range i n (fun i m => store8 m (dest + i) 0) m in
  Ret (dest, m).

Fixpoint strchr_loop (fuel : nat) (m : mem) (s ch i : Z) : outcome Z :=
  match fuel with
  | O => NoFuel
  | S fuel =>
      let* b := load8 m (s + i) in
      if negb (b =? ch) then if b =? 0 then Ret NULL else strchr_loop fuel m s ch (i + 1)
      else Ret (s + i)
  end.
Definition strchr (m : mem) (s c : Z) : outcome Z := strchr_loop (steps m) m s (u8 c) 0.

Definition strrchr (m : mem) (s c : Z) : outcome Z :=
  let* n := strlen m s in
  memrchr_loop (Z.to_nat (n + 1)) m s (u8 c).

(** The inner loop of [strstr]: the final [j]. *)
Fixpoint strstr_match (fuel : nat) (m : mem) (haystack needle i j : Z) : outcome Z :=
  match fuel with
  | O => NoFuel
  | S fuel =>
      let* h := load8 m (haystack + i + j) in
      if h =? 0 then Ret j
      else
        let* c := load8 m (needle + j) in
        if negb (h =? c) then Ret j else strstr_match fuel m haystack needle i (j + 1)
  end.
Fixpoint strstr_loop (fuel : nat) (m : mem) (haystack needle i : Z) : outcome Z :=
  match fuel with
  | O => NoFuel
  | S fuel =>
      let* h := load8 m (haystack + i) in
      if h =? 0 then Ret NULL
      else
        let* j := strstr_match (steps m) m haystack needle i 0 in
        let* c := load8 m (needle + j) in
        if c =? 0 then Ret (haystack + i) else strstr_loop fuel m haystack needle (i + 1)
  end.
Definition strstr (m : mem) (haystack needle : Z) : outcome Z :=
  let* c := load8 m needle in
  if c =? 0 then Ret haystack else strstr_loop (steps m) m haystack needle 0.

(** ** Copies on the heap

    [malloc] gives an address, [NULL] if there is no room, and the memory with
    the new object; the functions return the copy, the memory and the value that
    [errno] has at the end. *)

Definition ENOMEM : Z := 12.

Section Dup.
Context (malloc : mem -> Z -> Z * mem).

Definition strdup (m : mem) (errno s : Z) : outcome (Z * mem * Z) :=
  let* n := strlen m s in
  let l := u64 (n + 1) in
  let (p, m) := malloc m l in
  if p =? NULL then Ret (NULL, m, ENOMEM)
  else let* (_, m) := memcpy m p s l in Ret (p, m, errno).

Definition strndup (m : mem) (errno s n : Z) : outcome (Z * mem * Z) :=
  let* l := strnlen m s n in
  let (p, m) := malloc m (u64 (l + 1)) in
  if p =? NULL then Ret (NULL, m, ENOMEM)
  else
    let* (_, m) := memcpy m p s l in
    let* m := store8 m (p + l) 0 in
    Ret (p, m, errno).
End Dup.
