(* ===== verification/LibcStringSpec.v ===== *)
(** * What the string functions of the C library compute

    The loops of LibcString.v in terms of the lists of bytes that the strings are,
    and the contracts of the functions. *)

From S2P Require Import Prelude LibcString.

(** ** Contents of memory *)

Lemma bytes_nil m a : bytes m a [].
Proof. intros i b. by rewrite lookup_nil. Qed.

Lemma bytes_cons m a b l : bytes m a (b :: l) <-> m !! a = Some b /\ bytes m (a + 1) l.
Proof.
  split.
  - intros H. split; [specialize (H 0%nat b eq_refl); by rewrite Z.add_0_r in H|].
    intros i c E. specialize (H (S i) c E). replace (a + 1 + Z.of_nat i) with (a + Z.of_nat (S i)) by lia. done.
  - intros [E H] [|i] c Ec; simpl in Ec.
    + injection Ec as <-. by rewrite Z.add_0_r.
    + replace (a + Z.of_nat (S i)) with (a + 1 + Z.of_nat i) by lia. by apply H.
Qed.

Lemma bytes_app m a l1 l2 : bytes m a (l1 ++ l2) <->
  bytes m a l1 /\ bytes m (a + Z.of_nat (length l1)) l2.
Proof.
  revert a. induction l1 as [|b l1 IH]; intros a; simpl.
  - rewrite Z.add_0_r. split; [|tauto]. split; [apply bytes_nil|done].
  - rewrite !bytes_cons, IH. replace (a + 1 + Z.of_nat (length l1)) with (a + Z.of_nat (S (length l1))) by lia.
    tauto.
Qed.

Lemma bytes_accessible m a l : bytes m a l -> accessible m a (Z.of_nat (length l)).
Proof.
  intros H x Hx. destruct (lookup_lt_is_Some_2 l (Z.to_nat (x - a))) as [b E]; [lia|].
  exists b. replace x with (a + Z.of_nat (Z.to_nat (x - a))) by lia. by apply H.
Qed.

Lemma bytes_frame m m' a l : bytes m a l ->
  (forall x, a <= x < a + Z.of_nat (length l) -> m' !! x = m !! x) -> bytes m' a l.
Proof. intros H E i b Hi. rewrite E; [by apply H|]. apply lookup_lt_Some in Hi. lia. Qed.

Lemma cstr_nil m a : cstr m a [] <-> m !! a = Some 0.
Proof.
  unfold cstr. simpl. rewrite bytes_cons. split; [tauto|]. intros H. split; [|done].
  split; [done|apply bytes_nil].
Qed.

Lemma cstr_cons m a b l : cstr m a (b :: l) <-> m !! a = Some b /\ 0 < b < 256 /\ cstr m (a + 1) l.
Proof. unfold cstr. simpl. rewrite bytes_cons, Forall_cons. tauto. Qed.

(** A concrete string is found by evaluation. *)
Lemma cstr_check m p l : bool_decide (Forall (fun b => 0 < b < 256) l) = true ->
  bool_decide (Forall (fun x => m !! (p + Z.of_nat x.1) = Some x.2) (imap pair (l ++ [0]))) = true ->
  cstr m p l.
Proof.
  intros H1%bool_decide_eq_true H2%bool_decide_eq_true. split; [|done].
  intros i b E. rewrite Forall_forall in H2. apply (H2 (i, b)). apply elem_of_lookup_imap. by exists i, b.
Qed.

Lemma cstr_frame m m' a l : cstr m a l ->
  (forall x, a <= x <= a + Z.of_nat (length l) -> m' !! x = m !! x) -> cstr m' a l.
Proof.
  intros [H Hl] E. split; [|done]. eapply bytes_frame; [done|]. intros x Hx. apply E.
  rewrite length_app in Hx. simpl in Hx. lia.
Qed.

Lemma cstr_accessible m a l : cstr m a l -> accessible m a (Z.of_nat (length l) + 1).
Proof.
  intros [H _]. apply bytes_accessible in H. rewrite length_app in H. simpl in H.
  by replace (Z.of_nat (length l) + 1) with (Z.of_nat (length l + 1)) by lia.
Qed.

(** The string at an address is unique. *)
Lemma cstr_inj m a l1 l2 : cstr m a l1 -> cstr m a l2 -> l1 = l2.
Proof.
  revert a l2. induction l1 as [|b l1 IH]; intros a [|c l2]; rewrite ?cstr_nil, ?cstr_cons; try done.
  - intros E (E' & ? & _). rewrite E in E'. injection E'. lia.
  - intros (E' & ? & _) E. rewrite E in E'. injection E'. lia.
  - intros (E & _ & H1) (E' & _ & H2). f_equal; [congruence|by eapply IH].
Qed.

Lemma accessible_size m a n : accessible m a n -> (Z.to_nat n <= size m)%nat.
Proof.
  intros H. assert (list_to_set (seqZ a n) ⊆ dom m) as Hs.
  { intros x Hx. rewrite elem_of_list_to_set, elem_of_seqZ in Hx. apply elem_of_dom, H. lia. }
  apply subseteq_size in Hs. rewrite size_list_to_set, length_seqZ, size_dom in Hs by apply NoDup_seqZ.
  done.
Qed.

Lemma cstr_steps m a l : cstr m a l -> (length l < steps m)%nat.
Proof. intros H%cstr_accessible%accessible_size. unfold steps. lia. Qed.

(** ** Writing *)

Lemma write_lookup m a l x : write m a l !! x =
  if decide (a <= x < a + Z.of_nat (length l)) then l !! Z.to_nat (x - a) else m !! x.
Proof.
  revert m a. induction l as [|b l IH]; intros m a; simpl.
  - by rewrite decide_False by lia.
  - rewrite IH. destruct (decide (x = a)) as [->|Hne].
    + rewrite decide_False, decide_True, lookup_insert_eq by lia.
      by replace (Z.to_nat (a - a)) with 0%nat by lia.
    + rewrite lookup_insert_ne by done. do 2 case_decide; try lia; [|done].
      by replace (Z.to_nat (x - a)) with (S (Z.to_nat (x - (a + 1)))) by lia.
Qed.

Lemma write_app m a l1 l2 : write m a (l1 ++ l2) = write (write m a l1) (a + Z.of_nat (length l1)) l2.
Proof.
  revert m a. induction l1 as [|b l1 IH]; intros m a; simpl; [by rewrite Z.add_0_r|].
  rewrite IH. f_equal. lia.
Qed.

Lemma write_bytes m a l : bytes (write m a l) a l.
Proof.
  intros i b E. pose proof (lookup_lt_Some _ _ _ E). rewrite write_lookup, decide_True by lia.
  by replace (Z.to_nat (a + Z.of_nat i - a)) with i by lia.
Qed.

Lemma write_dom m a l : accessible m a (Z.of_nat (length l)) -> dom (write m a l) = dom m.
Proof.
  revert m a. induction l as [|b l IH]; intros m a Ha; simpl; [done|].
  rewrite IH.
  - apply dom_insert_lookup_L, Ha. simpl. lia.
  - intros x Hx. destruct (decide (x = a)) as [->|Hne]; [rewrite lookup_insert_eq; eauto|].
    rewrite lookup_insert_ne by done. apply Ha. simpl. lia.
Qed.

Lemma write_frame m a l x : x < a \/ a + Z.of_nat (length l) <= x -> write m a l !! x = m !! x.
Proof. intros H. by rewrite write_lookup, decide_False by lia. Qed.

Lemma steps_dom m m' : dom m' = dom m -> steps m' = steps m.
Proof. intros E. unfold steps. by rewrite <- !size_dom, E. Qed.

(** ** Loops over one string *)

Lemma strlen_loop_cstr fuel m s i l : cstr m (s + i) l -> (length l < fuel)%nat ->
  strlen_loop fuel m s i = Ret (i + Z.of_nat (length l)).
Proof.
  revert i l. induction fuel as [|fuel IH]; intros i l H Hf; [lia|]. cbn [strlen_loop].
  destruct l as [|b l]; rewrite ?cstr_nil, ?cstr_cons in H.
  - rewrite (load8_ok _ _ _ H). cbn. f_equal. lia.
  - destruct H as (E & Hb & H). rewrite (load8_ok _ _ _ E). cbn [obind].
    rewrite (proj2 (Z.eqb_neq b 0)) by lia. rewrite (IH (i + 1) l); [f_equal; simpl; lia| |simpl in Hf; lia].
    by replace (s + (i + 1)) with (s + i + 1) by lia.
Qed.

Lemma strlen_cstr m s l : cstr m s l -> strlen m s = Ret (Z.of_nat (length l)).
Proof.
  intros H. unfold strlen. rewrite (strlen_loop_cstr _ m s 0 l); [done| |by eapply cstr_steps].
  by rewrite Z.add_0_r.
Qed.

(** A terminated copy that does not overlap its source. *)
Lemma copy_loop_cstr fuel m dest src i l : cstr m (src + i) l -> (length l < fuel)%nat ->
  accessible m (dest + i) (Z.of_nat (length l)) ->
  dest + Z.of_nat (length l) <= src \/ src + Z.of_nat (length l) < dest ->
  copy_loop fuel m dest src i = Ret (i + Z.of_nat (length l), write m (dest + i) l).
Proof.
  revert m i l. induction fuel as [|fuel IH]; intros m i l H Hf Ha Hd; [lia|]. cbn [copy_loop].
  destruct l as [|b l]; rewrite ?cstr_nil, ?cstr_cons in H.
  - rewrite (load8_ok _ _ _ H). cbn. do 2 f_equal. lia.
  - destruct H as (E & Hb & H). simpl in Ha, Hd. rewrite (load8_ok _ _ _ E). cbn [obind].
    rewrite (proj2 (Z.eqb_neq b 0)) by lia. rewrite store8_spec by (apply Ha; lia). cbn [obind].
    rewrite u8_small by (unfold in_u; lia). cbn [write].
    rewrite (IH _ (i + 1) l); [| |simpl in Hf; lia| |lia].
    + do 2 f_equal; [simpl; lia|]. f_equal; lia.
    + eapply cstr_frame; [by replace (src + (i + 1)) with (src + i + 1) by lia|].
      intros x Hx. rewrite lookup_insert_ne by lia. done.
    + apply accessible_insert. eapply accessible_sub; [exact Ha|lia..].
Qed.

(** The bounded copies: at most [n] characters. *)
Lemma strncat_loop_cstr n m dest src i l : cstr m (src + i) l ->
  accessible m (dest + i) (Z.of_nat (n `min` length l)) ->
  dest + Z.of_nat (length l) <= src \/ src + Z.of_nat (length l) < dest ->
  strncat_loop n m dest src i =
    Ret (i + Z.of_nat (n `min` length l), write m (dest + i) (take n l)).
Proof.
  revert m i l. induction n as [|n IH]; intros m i l H Ha Hd; cbn [strncat_loop].
  { simpl. do 2 f_equal. lia. }
  destruct l as [|b l]; rewrite ?cstr_nil, ?cstr_cons in H.
  - rewrite (load8_ok _ _ _ H). cbn. do 2 f_equal. lia.
  - destruct H as (E & Hb & H). simpl in Ha, Hd. rewrite (load8_ok _ _ _ E). cbn [obind].
    rewrite (proj2 (Z.eqb_neq b 0)) by lia. rewrite store8_spec by (apply Ha; lia). cbn [obind].
    rewrite u8_small by (unfold in_u; lia). cbn [write take].
    rewrite (IH _ (i + 1) l); [| | |lia].
    + do 2 f_equal; [simpl; lia|]. f_equal; lia.
    + eapply cstr_frame; [by replace (src + (i + 1)) with (src + i + 1) by lia|].
      intros x Hx. by rewrite lookup_insert_ne by lia.
    + apply accessible_insert. eapply accessible_sub; [exact Ha|lia..].
Qed.

Lemma strncpy_loop_cstr n m dest src i l : cstr m (src + i) l ->
  accessible m (dest + i) (Z.of_nat (n `min` (length l + 1))) ->
  dest + Z.of_nat (length l) < src \/ src + Z.of_nat (length l) < dest ->
  strncpy_loop n m dest src i =
    Ret (i + Z.of_nat (n `min` length l), write m (dest + i) (take n (l ++ [0]))).
Proof.
  revert m i l. induction n as [|n IH]; intros m i l H Ha Hd; cbn [strncpy_loop].
  { simpl. do 2 f_equal. lia. }
  destruct l as [|b l]; rewrite ?cstr_nil, ?cstr_cons in H.
  - rewrite (load8_ok _ _ _ H). cbn [obind]. rewrite store8_spec by (apply Ha; simpl; lia). cbn [obind].
    simpl in Hd. rewrite (load8_ok (<[_ := _]> m) (src + i) 0) by (by rewrite lookup_insert_ne by lia).
    cbn. rewrite take_nil. cbn. do 2 f_equal. lia.
  - destruct H as (E & Hb & H). simpl in Ha, Hd. rewrite (load8_ok _ _ _ E). cbn [obind].
    rewrite store8_spec by (apply Ha; lia). cbn [obind]. rewrite u8_small by (unfold in_u; lia).
    rewrite (load8_ok (<[_ := _]> m) (src + i) b) by (by rewrite lookup_insert_ne by lia). cbn [obind].
    rewrite (proj2 (Z.eqb_neq b 0)) by lia.
    cbn [app write take]. rewrite (IH _ (i + 1) l); [| | |lia].
    + do 2 f_equal; [simpl; lia|]. f_equal; lia.
    + eapply cstr_frame; [by replace (src + (i + 1)) with (src + i + 1) by lia|].
      intros x Hx. by rewrite lookup_insert_ne by lia.
    + apply accessible_insert. eapply accessible_sub; [exact Ha|lia..].
Qed.

(** ** Comparison *)

(** Lexicographic order of strings of bytes. *)
Inductive lex_lt : list Z -> list Z -> Prop :=
| lex_nil b l : lex_lt [] (b :: l)
| lex_head a b l1 l2 : a < b -> lex_lt (a :: l1) (b :: l2)
| lex_tail a l1 l2 : lex_lt l1 l2 -> lex_lt (a :: l1) (a :: l2).

Lemma lex_irrefl l : ~ lex_lt l l.
Proof. induction l; inversion 1; subst; [lia|done]. Qed.

Lemma lex_asym l1 l2 : lex_lt l1 l2 -> ~ lex_lt l2 l1.
Proof. induction 1; inversion 1; subst; done || lia. Qed.

(** [r] tells how [l1] and [l2] compare. *)
Definition compares (r : Z) (l1 l2 : list Z) : Prop :=
  (r = 0 <-> l1 = l2) /\ (r < 0 <-> lex_lt l1 l2) /\ (0 < r <-> lex_lt l2 l1).

Lemma compares_eq l : compares 0 l l.
Proof. unfold compares. pose proof (lex_irrefl l). split; [|split]; split; done || lia. Qed.

Lemma compares_lt r l1 l2 : r < 0 -> lex_lt l1 l2 -> compares r l1 l2.
Proof.
  intros Hr H. pose proof (lex_asym _ _ H). unfold compares. split; [|split]; split; try done; try lia.
  intros ->. by destruct (lex_irrefl l2).
Qed.

Lemma compares_gt r l1 l2 : 0 < r -> lex_lt l2 l1 -> compares r l1 l2.
Proof.
  intros Hr H. pose proof (lex_asym _ _ H). unfold compares. split; [|split]; split; try done; try lia.
  intros ->. by destruct (lex_irrefl l2).
Qed.

Lemma compares_cons r b l1 l2 : compares r l1 l2 -> compares r (b :: l1) (b :: l2).
Proof.
  intros (H1 & H2 & H3). unfold compares. split; [|split].
  - rewrite H1. split; congruence.
  - rewrite H2. split; [by constructor|]. inversion 1; subst; [lia|done].
  - rewrite H3. split; [by constructor|]. inversion 1; subst; [lia|done].
Qed.

Lemma compares_head a b l1 l2 : a <> b -> compares (a - b) (a :: l1) (b :: l2).
Proof.
  intros H. destruct (Z.lt_total a b) as [?|[?|?]]; [|done|].
  - apply compares_lt; [lia|by constructor].
  - apply compares_gt; [lia|by constructor].
Qed.

Lemma strcmp_loop_cstr fuel m s1 s2 i l1 l2 : cstr m (s1 + i) l1 -> cstr m (s2 + i) l2 ->
  (length l1 < fuel)%nat -> exists r, strcmp_loop fuel m s1 s2 i = Ret r /\ compares r l1 l2.
Proof.
  revert i l1 l2. induction fuel as [|fuel IH]; intros i l1 l2 H1 H2 Hf; [lia|]. cbn [strcmp_loop].
  destruct l1 as [|a l1], l2 as [|b l2]; rewrite ?cstr_nil, ?cstr_cons in *.
  - rewrite (load8_ok _ _ _ H1), (load8_ok _ _ _ H2). cbn. eexists. split; [done|]. apply compares_eq.
  - destruct H2 as (E2 & Hb & _). rewrite (load8_ok _ _ _ H1), (load8_ok _ _ _ E2). cbn [obind].
    rewrite (proj2 (Z.eqb_neq 0 b)) by lia. eexists. split; [done|].
    apply compares_lt; [lia|constructor].
  - destruct H1 as (E1 & Hb & _). rewrite (load8_ok _ _ _ H2), (load8_ok _ _ _ E1). cbn [obind].
    rewrite (proj2 (Z.eqb_neq a 0)) by lia. eexists. split; [done|].
    apply compares_gt; [lia|constructor].
  - destruct H1 as (E1 & Ha & H1), H2 as (E2 & Hb & H2).
    rewrite (load8_ok _ _ _ E1), (load8_ok _ _ _ E2). cbn [obind].
    destruct (Z.eqb_spec a b) as [->|Hne]; [|eexists; split; [done|by apply compares_head]].
    rewrite (proj2 (Z.eqb_neq b 0)) by lia. rewrite <- !Z.add_assoc in H1, H2.
    destruct (IH (i + 1) l1 l2 H1 H2) as (r & -> & Hr); [simpl in Hf; lia|].
    exists r. split; [done|]. by apply compares_cons.
Qed.

Lemma strncmp_loop_cstr n m s1 s2 i l1 l2 : cstr m (s1 + i) l1 -> cstr m (s2 + i) l2 ->
  exists r, strncmp_loop n m s1 s2 i = Ret r /\ compares r (take n l1) (take n l2).
Proof.
  revert i l1 l2. induction n as [|n IH]; intros i l1 l2 H1 H2; cbn [strncmp_loop].
  { exists 0. split; [done|apply compares_eq]. }
  destruct l1 as [|a l1], l2 as [|b l2]; rewrite ?cstr_nil, ?cstr_cons in *; cbn [take].
  - rewrite (load8_ok _ _ _ H1), (load8_ok _ _ _ H2). cbn. eexists. split; [done|]. apply compares_eq.
  - destruct H2 as (E2 & Hb & _). rewrite (load8_ok _ _ _ H1), (load8_ok _ _ _ E2). cbn [obind].
    rewrite (proj2 (Z.eqb_neq 0 b)) by lia. eexists. split; [done|].
    apply compares_lt; [lia|constructor].
  - destruct H1 as (E1 & Hb & _). rewrite (load8_ok _ _ _ H2), (load8_ok _ _ _ E1). cbn [obind].
    rewrite (proj2 (Z.eqb_neq a 0)) by lia. eexists. split; [done|].
    apply compares_gt; [lia|constructor].
  - destruct H1 as (E1 & Ha & H1), H2 as (E2 & Hb & H2).
    rewrite (load8_ok _ _ _ E1), (load8_ok _ _ _ E2). cbn [obind].
    destruct (Z.eqb_spec a b) as [->|Hne]; cbn [negb]; [|eexists; split; [done|by apply compares_head]].
    rewrite (proj2 (Z.eqb_neq b 0)) by lia. rewrite <- !Z.add_assoc in H1, H2.
    destruct (IH (i + 1) l1 l2 H1 H2) as (r & -> & Hr).
    exists r. split; [done|]. by apply compares_cons.
Qed.

(** ** Search *)

(** [r] points to the first (the last) [c] of the bytes [l] at [s]; it is [NULL]
    when there is none. *)
Definition found_first (l : list Z) (c s r : Z) : Prop :=
  (exists k, r = s + Z.of_nat k /\ l !! k = Some c /\ forall j, (j < k)%nat -> l !! j <> Some c) \/
  (r = NULL /\ c ∉ l).
Definition found_last (l : list Z) (c s r : Z) : Prop :=
  (exists k, r = s + Z.of_nat k /\ l !! k = Some c /\ forall j, (k < j)%nat -> l !! j <> Some c) \/
  (r = NULL /\ c ∉ l).

Lemma found_first_here l c s : found_first (c :: l) c s s.
Proof. left. exists 0%nat. split_and!; [lia|done|lia]. Qed.

Lemma found_first_next l b c s r : b <> c -> found_first l c (s + 1) r -> found_first (b :: l) c s r.
Proof.
  intros Hb [(k & -> & E & H)|[-> H]]; [left; exists (S k)|right; set_solver].
  split_and!; [lia|done|]. intros [|j] Hj; [simpl; congruence|]. apply H. lia.
Qed.

Lemma strchr_loop_cstr fuel m s ch i l : cstr m (s + i) l -> (length l < fuel)%nat ->
  exists r, strchr_loop fuel m s ch i = Ret r /\ found_first (l ++ [0]) ch (s + i) r.
Proof.
  revert i l. induction fuel as [|fuel IH]; intros i l H Hf; [lia|]. cbn [strchr_loop].
  destruct l as [|b l]; rewrite ?cstr_nil, ?cstr_cons in H.
  - rewrite (load8_ok _ _ _ H). cbn [obind].
    destruct (Z.eqb_spec 0 ch) as [<-|Hne]; cbn; eexists; (split; [done|]); [apply found_first_here|].
    right. split; [done|]. set_solver.
  - destruct H as (E & Hb & H). rewrite (load8_ok _ _ _ E). cbn [obind].
    destruct (Z.eqb_spec b ch) as [->|Hne]; cbn [negb]; [eexists; split; [done|apply found_first_here]|].
    rewrite (proj2 (Z.eqb_neq b 0)) by lia. rewrite <- Z.add_assoc in H.
    destruct (IH (i + 1) l H) as (r & -> & Hr); [simpl in Hf; lia|]. exists r. split; [done|].
    apply found_first_next; [done|]. by rewrite <- Z.add_assoc.
Qed.

Lemma memchr_loop_bytes m s ch i l : bytes m (s + i) l ->
  exists r, memchr_loop (length l) m s ch i = Ret r /\ found_first l ch (s + i) r.
Proof.
  revert i. induction l as [|b l IH]; intros i H; cbn [memchr_loop length].
  - exists NULL. split; [done|]. right. split; [done|set_solver].
  - apply bytes_cons in H as [E H]. rewrite (load8_ok _ _ _ E). cbn [obind].
    destruct (Z.eqb_spec b ch) as [->|Hne]; [eexists; split; [done|apply found_first_here]|].
    rewrite <- Z.add_assoc in H. destruct (IH (i + 1) H) as (r & -> & Hr).
    exists r. split; [done|]. apply found_first_next; [done|]. by rewrite <- Z.add_assoc.
Qed.

Lemma memrchr_loop_bytes n m s ch l : bytes m s l -> n = length l ->
  exists r, memrchr_loop n m s ch = Ret r /\ found_last l ch s r.
Proof.
  revert l. induction n as [|n IH]; intros l H Hn.
  - destruct l; [|done]. exists NULL. split; [done|]. right. split; [done|set_solver].
  - destruct l as [|b l _] using rev_ind; [done|]. rewrite length_app in Hn. simpl in Hn.
    apply bytes_app in H as [H Hb]. apply bytes_cons in Hb as [Eb _].
    cbn [memrchr_loop]. replace (Z.of_nat (S n) - 1) with (Z.of_nat (length l)) by lia.
    rewrite (load8_ok _ _ _ Eb). cbn [obind]. destruct (Z.eqb_spec b ch) as [->|Hne].
    + eexists. split; [done|]. left. exists (length l). split_and!; [done|by apply list_lookup_middle|].
      intros j Hj. by rewrite lookup_ge_None_2 by (rewrite length_app; simpl; lia).
    + destruct (IH l H ltac:(lia)) as (r & -> & Hr). exists r. split; [done|].
      destruct Hr as [(k & -> & E & Hk)|[-> Hno]]; [left; exists k|right; split; [done|set_solver]].
      split_and!; [done|by apply lookup_app_l_Some|]. intros j Hj.
      destruct (decide (j < length l)%nat) as [Hl|Hl]; [rewrite lookup_app_l by done; by apply Hk|].
      rewrite lookup_app_r by lia. destruct (j - length l)%nat eqn:Ej; simpl; [congruence|done].
Qed.

(** [strstr]: the inner loop stops at the first difference. *)
Lemma strstr_match_cstr fuel m hs nd i j h n : cstr m (hs + i + j) h -> cstr m (nd + j) n ->
  (length h < fuel)%nat -> exists k c, strstr_match fuel m hs nd i j = Ret (j + Z.of_nat k) /\
    m !! (nd + (j + Z.of_nat k)) = Some c /\ (c = 0 <-> n `prefix_of` h).
Proof.
  revert j h n. induction fuel as [|fuel IH]; intros j h n Hh Hn Hf; [lia|]. cbn [strstr_match].
  assert (forall c, m !! (nd + j) = Some c -> (c = 0 <-> n = [])) as H0.
  { intros c E. destruct n; rewrite ?cstr_nil, ?cstr_cons in Hn; [|destruct Hn as (Hn & ? & _)];
      rewrite E in Hn; injection Hn as ->; split; done || lia. }
  destruct (cstr_accessible _ _ _ Hn (nd + j)) as [c Ec]; [lia|]. specialize (H0 c Ec).
  assert (forall r, r = j -> exists k c0, Ret r = Ret (j + Z.of_nat k) /\
    m !! (nd + (j + Z.of_nat k)) = Some c0 /\ (c0 = 0 <-> n = [])) as Hstop.
  { intros r ->. exists 0%nat, c. rewrite Z.add_0_r. done. }
  destruct h as [|a h]; rewrite ?cstr_nil, ?cstr_cons in Hh.
  - rewrite (load8_ok _ _ _ Hh). cbn. destruct (Hstop j eq_refl) as (k & c0 & ? & ? & Hc).
    exists k, c0. split_and!; [done..|]. rewrite Hc. split; [intros ->; apply prefix_nil|apply prefix_nil_inv].
  - destruct Hh as (Ea & Ha & Hh). rewrite (load8_ok _ _ _ Ea), (load8_ok _ _ _ Ec). cbn [obind].
    rewrite (proj2 (Z.eqb_neq a 0)) by lia. destruct (Z.eqb_spec a c) as [->|Hne]; cbn [negb].
    + destruct n as [|b n]; [rewrite cstr_nil in Hn; rewrite Ec in Hn; injection Hn; lia|].
      rewrite cstr_cons, Ec in Hn. destruct Hn as ([= <-] & Hc & Hn).
      rewrite <- (Z.add_assoc (hs + i)) in Hh. rewrite <- (Z.add_assoc nd) in Hn.
      destruct (IH (j + 1) h n Hh Hn) as (k & c0 & -> & E & Hp); [simpl in Hf; lia|].
      exists (S k), c0. replace (j + Z.of_nat (S k)) with (j + 1 + Z.of_nat k) by lia.
      split_and!; [done..|]. rewrite Hp. split; [apply prefix_cons|apply prefix_cons_inv_2].
    + destruct (Hstop j eq_refl) as (k & c0 & ? & ? & Hc). exists k, c0. split_and!; [done..|].
      rewrite Hc. split; [intros ->; apply prefix_nil|]. intros Hp. destruct n as [|b n]; [done|].
      rewrite cstr_cons, Ec in Hn. destruct Hn as ([= <-] & _ & _). by apply prefix_cons_inv_1 in Hp.
Qed.

Lemma strstr_loop_cstr fuel m hs nd i h n : cstr m (hs + i) h -> cstr m nd n -> n <> [] ->
  (length h < fuel)%nat -> exists r, strstr_loop fuel m hs nd i = Ret r /\
    ((exists k, r = hs + i + Z.of_nat k /\ n `prefix_of` drop k h /\
        forall j, (j < k)%nat -> ~ n `prefix_of` drop j h) \/
     (r = NULL /\ forall j, ~ n `prefix_of` drop j h)).
Proof.
  intros Hh Hn Hne. revert i h Hh. induction fuel as [|fuel IH]; intros i h Hh Hf; [lia|].
  cbn [strstr_loop]. destruct h as [|a h].
  - apply cstr_nil in Hh. rewrite (load8_ok _ _ _ Hh). cbn. exists NULL. split; [done|]. right.
    split; [done|]. intros j. rewrite drop_nil. by intros ?%prefix_nil_inv.
  - pose proof Hh as (Ea & Ha & Hh')%cstr_cons. rewrite (load8_ok _ _ _ Ea). cbn [obind].
    rewrite (proj2 (Z.eqb_neq a 0)) by lia.
    destruct (strstr_match_cstr (steps m) m hs nd i 0 (a :: h) n) as (k & c & -> & Ec & Hc);
      [by rewrite Z.add_0_r..|by eapply cstr_steps|].
    cbn [obind]. rewrite (load8_ok _ _ _ Ec). cbn [obind]. destruct (Z.eqb_spec c 0) as [->|Hc0].
    + eexists. split; [done|]. left. exists 0%nat. split_and!; [lia|by apply Hc|lia].
    + rewrite <- Z.add_assoc in Hh'. destruct (IH (i + 1) h Hh') as (r & -> & Hr); [simpl in Hf; lia|].
      exists r. split; [done|].
      destruct Hr as [(k' & -> & Hp & Hno)|[-> Hno]]; [left; exists (S k')|right].
      * split_and!; [lia|done|]. intros [|j] Hj; [by intros ?%Hc|]. apply Hno. lia.
      * split; [done|]. intros [|j]; [by intros ?%Hc|]. apply Hno.
Qed.

(** The searches in a string. *)
Lemma strchr_cstr m s c l : cstr m s l ->
  exists r, strchr m s c = Ret r /\ found_first (l ++ [0]) (u8 c) s r.
Proof.
  intros Hl. destruct (strchr_loop_cstr (steps m) m s (u8 c) 0 l) as (r & E & Hr);
    [by rewrite Z.add_0_r|by eapply cstr_steps|].
  exists r. rewrite Z.add_0_r in Hr. by split.
Qed.

Lemma strrchr_cstr m s c l : cstr m s l ->
  exists r, strrchr m s c = Ret r /\ found_last (l ++ [0]) (u8 c) s r.
Proof.
  intros Hl. unfold strrchr. rewrite (strlen_cstr _ _ _ Hl). cbn [obind].
  destruct (memrchr_loop_bytes (Z.to_nat (Z.of_nat (length l) + 1)) m s (u8 c) (l ++ [0]))
    as (r & E & Hr); [apply Hl|rewrite length_app; simpl; lia|]. by exists r.
Qed.

Lemma strstr_cstr m s nd l n : cstr m s l -> cstr m nd n ->
  exists r, strstr m s nd = Ret r /\
    ((exists k, r = s + Z.of_nat k /\ n `prefix_of` drop k l /\
        forall j, (j < k)%nat -> ~ n `prefix_of` drop j l) \/
     (r = NULL /\ forall j, ~ n `prefix_of` drop j l)).
Proof.
  intros Hl Hn. unfold strstr. destruct n as [|b n].
  - rewrite (load8_ok m nd 0) by by apply cstr_nil. cbn. exists s. split; [done|]. left. exists 0%nat.
    split_and!; [lia|apply prefix_nil|lia].
  - pose proof Hn as (E & Hb & _)%cstr_cons. rewrite (load8_ok _ _ _ E). cbn [obind].
    rewrite (proj2 (Z.eqb_neq b 0)) by lia.
    destruct (strstr_loop_cstr (steps m) m s nd 0 l (b :: n)) as (r & Er & Hr);
      [by rewrite Z.add_0_r|done|done|by eapply cstr_steps|]. exists r. rewrite Z.add_0_r in Hr. by split.
Qed.

(** ** Blocks *)

Lemma copy_up m dest src n : mem_ok m -> 0 <= n -> accessible m src n -> accessible m dest n ->
  dest <= src \/ src + n <= dest ->
  exists m', for_range 0 n (fun i m => let* c := load8 m (src + i) in store8 m (dest + i) c) m = Ret m' /\
    dom m' = dom m /\
    forall x, m' !! x = if decide (dest <= x < dest + n) then m !! (x - dest + src) else m !! x.
Proof.
  intros Hm Hn Hs Hd Hsep.
  destruct (for_range_inv (fun i m => let* c := load8 m (src + i) in store8 m (dest + i) c)
    (fun i m' => dom m' = dom m /\
       forall x, m' !! x = if decide (dest <= x < dest + i) then m !! (x - dest + src) else m !! x) 0 n m)
    as (m' & E & Hm' & Hx); [done|..|eauto].
  - split; [done|]. intros x. by rewrite decide_False by lia.
  - intros i m1 Hi [Hdm Hx]. destruct (Hs (src + i)) as [b Eb]; [lia|].
    assert (m1 !! (src + i) = Some b) as E1 by (rewrite Hx, decide_False by lia; done).
    assert (is_Some (m1 !! (dest + i))) as Ha by (apply (accessible_dom m m1 dest n Hdm Hd); lia).
    rewrite (load8_ok _ _ _ E1). cbn [obind]. rewrite store8_spec, u8_small by (done || by apply (Hm _ _ Eb)).
    eexists. split; [done|]. split; [by rewrite dom_insert_lookup_L|]. intros x.
    destruct (decide (x = dest + i)) as [->|Hne].
    + rewrite lookup_insert_eq, decide_True by lia. rewrite <- Eb. f_equal. lia.
    + rewrite lookup_insert_ne, Hx by done. do 2 case_decide; done || lia.
Qed.

Lemma memmove_down_spec n m dest src : mem_ok m ->
  accessible m src (Z.of_nat n + 1) -> accessible m dest (Z.of_nat n + 1) -> src <= dest ->
  exists m', memmove_down n m dest src = Ret m' /\ dom m' = dom m /\
    forall x, m' !! x = if decide (dest < x <= dest + Z.of_nat n) then m !! (x - dest + src) else m !! x.
Proof.
  revert m. induction n as [|n IH]; intros m Hm Hs Hd Hle; cbn [memmove_down].
  { exists m. split_and!; [done..|]. intros x. by rewrite decide_False by lia. }
  destruct (Hs (src + Z.of_nat (S n))) as [b Eb]; [lia|].
  rewrite (load8_ok _ _ _ Eb). cbn [obind].
  rewrite store8_spec, u8_small by (by apply (Hm _ _ Eb) || (apply Hd; lia)). cbn [obind].
  assert (is_Some (m !! (dest + Z.of_nat (S n)))) as Ha by (apply Hd; lia).
  destruct (IH (<[dest + Z.of_nat (S n) := b]> m)) as (m' & -> & Hdm & Hx).
  - apply mem_ok_insert; [done|by apply (Hm _ _ Eb)].
  - apply accessible_insert. eapply accessible_sub; [exact Hs|lia..].
  - apply accessible_insert. eapply accessible_sub; [exact Hd|lia..].
  - done.
  - exists m'. split; [done|]. split; [by rewrite Hdm, dom_insert_lookup_L|]. intros x. rewrite Hx.
    destruct (decide (x = dest + Z.of_nat (S n))) as [->|Hne].
    + rewrite decide_False, decide_True, lookup_insert_eq by lia. rewrite <- Eb. f_equal. lia.
    + do 2 case_decide; try lia; by rewrite lookup_insert_ne by lia.
Qed.

(** A range that is filled with one byte. *)
Lemma fill_range m a v lo hi : lo <= hi -> accessible m (a + lo) (hi - lo) ->
  exists m', for_range lo hi (fun i m => store8 m (a + i) v) m = Ret m' /\ dom m' = dom m /\
    forall x, m' !! x = if decide (a + lo <= x < a + hi) then Some (u8 v) else m !! x.
Proof.
  intros Hle Ha.
  destruct (for_range_inv (fun i m => store8 m (a + i) v)
    (fun i m' => dom m' = dom m /\
       forall x, m' !! x = if decide (a + lo <= x < a + i) then Some (u8 v) else m !! x) lo hi m)
    as (m' & E & Hd & Hx); [done|..|eauto].
  - split; [done|]. intros x. by rewrite decide_False by lia.
  - intros j m1 Hj [Hd Hx].
    assert (is_Some (m1 !! (a + j))) as Hs by (apply (accessible_dom m m1 _ _ Hd Ha); lia).
    rewrite store8_spec by done. eexists. split; [done|]. split; [by rewrite dom_insert_lookup_L|].
    intros x. destruct (decide (x = a + j)) as [->|Hne].
    + by rewrite lookup_insert_eq, decide_True by lia.
    + rewrite lookup_insert_ne, Hx by done. do 2 case_decide; done || lia.
Qed.

(** ** Termination

    A loop that reads a new address in each iteration stops: at the end of the
    accessible memory at the latest. *)

Lemma accessible_next m s i b : accessible m s i -> 0 <= i -> m !! (s + i) = Some b ->
  accessible m s (i + 1).
Proof. intros Ha Hi E x Hx. destruct (decide (x = s + i)) as [->|]; [eauto|]. apply Ha. lia. Qed.

Lemma visited_bound m s i (fuel : nat) : accessible m s i -> (size m < Z.to_nat i + fuel)%nat -> fuel <> 0%nat.
Proof. intros Ha%accessible_size. lia. Qed.

Lemma load8_nofuel m a : load8 m a <> NoFuel.
Proof. unfold load8. by destruct (m !! a). Qed.

Ltac visit :=
  repeat match goal with
  | |- context [obind (load8 ?m ?a) _] =>
      let E := fresh "E" in
      destruct (m !! a) eqn:E; [rewrite (load8_ok _ _ _ E)|unfold load8; rewrite E]; cbn [obind deref]
  | |- context [obind (store8 ?m ?a ?v) _] =>
      let E := fresh "E" in
      destruct (m !! a) eqn:E;
        [rewrite (store8_spec m a v) by (by rewrite E)|unfold store8; rewrite E]; cbn [obind]
  | |- context [if ?b then _ else _] => destruct b
  end.

Section Terminates.
Context (m : mem) (s i : Z) (fuel : nat).
Context (Ha : accessible m s i) (Hi : 0 <= i) (Hf : (size m < Z.to_nat i + fuel)%nat).

Lemma strlen_loop_stops : strlen_loop fuel m s i <> NoFuel.
Proof using Ha Hi Hf.
  revert i Ha Hi Hf. clear. induction fuel as [|k IH]; intros i Ha Hi Hf;
    [by destruct (visited_bound _ _ _ _ Ha Hf)|]. cbn [strlen_loop]. visit; try done.
  apply IH; [by eapply accessible_next|lia..].
Qed.

Lemma strchr_loop_stops ch : strchr_loop fuel m s ch i <> NoFuel.
Proof using Ha Hi Hf.
  revert i Ha Hi Hf. clear. induction fuel as [|k IH]; intros i Ha Hi Hf;
    [by destruct (visited_bound _ _ _ _ Ha Hf)|]. cbn [strchr_loop]. visit; try done.
  apply IH; [by eapply accessible_next|lia..].
Qed.

Lemma strcmp_loop_stops s2 : strcmp_loop fuel m s s2 i <> NoFuel.
Proof using Ha Hi Hf.
  revert i Ha Hi Hf. clear. induction fuel as [|k IH]; intros i Ha Hi Hf;
    [by destruct (visited_bound _ _ _ _ Ha Hf)|]. cbn [strcmp_loop]. visit; try done.
  apply IH; [by eapply accessible_next|lia..].
Qed.

Lemma strcasecmp_loop_stops s2 : strcasecmp_loop fuel m s s2 i <> NoFuel.
Proof using Ha Hi Hf.
  revert i Ha Hi Hf. clear. induction fuel as [|k IH]; intros i Ha Hi Hf;
    [by destruct (visited_bound _ _ _ _ Ha Hf)|]. cbn [strcasecmp_loop].
  destruct (m !! (s + i)) as [b|] eqn:E; [rewrite (load8_ok _ _ _ E)|unfold load8; by rewrite E].
  cbn [obind]. pose proof (accessible_next _ _ _ _ Ha Hi E).
  destruct (negb (b =? 0)); visit; try done; apply IH; done || lia.
Qed.

Lemma copy_loop_stops dest : copy_loop fuel m dest s i <> NoFuel.
Proof using Ha Hi Hf.
  revert m i Ha Hi Hf. clear. induction fuel as [|k IH]; intros m i Ha Hi Hf;
    [by destruct (visited_bound _ _ _ _ Ha Hf)|]. cbn [copy_loop]. visit; try done.
  apply IH; [|lia|].
  - apply accessible_insert. by eapply accessible_next.
  - rewrite map_size_insert_Some by done. lia.
Qed.

Lemma strstr_match_stops hs nd j : s = hs + j -> strstr_match fuel m hs nd j i <> NoFuel.
Proof using Ha Hi Hf.
  intros ->. revert i Ha Hi Hf. clear. induction fuel as [|k IH]; intros i Ha Hi Hf;
    [by destruct (visited_bound _ _ _ _ Ha Hf)|]. cbn [strstr_match]. visit; try done.
  apply IH; [by eapply accessible_next|lia..].
Qed.
End Terminates.

Lemma accessible_0 m s : accessible m s 0.
Proof. intros x Hx. lia. Qed.

Lemma obind_nofuel {A B} (c : outcome A) (k : A -> outcome B) :
  c <> NoFuel -> (forall a, c = Ret a -> k a <> NoFuel) -> obind c k <> NoFuel.
Proof. destruct c; simpl; auto. Qed.

Lemma store8_nofuel m a v : store8 m a v <> NoFuel.
Proof. unfold store8. by destruct (m !! a). Qed.

Lemma for_n_nofuel {S} n i (body : Z -> S -> outcome S) s :
  (forall j s, body j s <> NoFuel) -> for_n n i body s <> NoFuel.
Proof.
  intros H. revert i s. induction n as [|n IH]; intros i s; simpl; [done|].
  apply obind_nofuel; [apply H|]. intros a _. apply IH.
Qed.

Lemma strstr_loop_stops fuel m hs nd i : accessible m hs i -> 0 <= i ->
  (size m < Z.to_nat i + fuel)%nat -> strstr_loop fuel m hs nd i <> NoFuel.
Proof.
  revert i. induction fuel as [|k IH]; intros i Ha Hi Hf;
    [by destruct (visited_bound _ _ _ _ Ha Hf)|]. cbn [strstr_loop]. visit; try done.
  apply obind_nofuel.
  - eapply strstr_match_stops; [apply accessible_0|done|unfold steps; lia|done].
  - intros j _. visit; try done. apply IH; [by eapply accessible_next|lia..].
Qed.

Lemma memrchr_loop_stops n m s ch : memrchr_loop n m s ch <> NoFuel.
Proof. induction n as [|n IH]; cbn [memrchr_loop]; [done|]. by visit. Qed.

(** ** Overlapping blocks *)

(** The two blocks, as the ACSL contract of [memoverlap] separates them. *)
Definition separated (p q n : Z) : Prop := forall x, ~ (p <= x < p + n /\ q <= x < q + n).

Lemma memoverlap_spec p q n : 0 < n -> 0 <= p -> 0 <= q -> p + n < 2 ^ 64 -> q + n < 2 ^ 64 ->
  (memoverlap p q n = 0 /\ separated p q n) \/
  (memoverlap p q n = -1 /\ p <= q < p + n) \/
  (memoverlap p q n = 1 /\ q < p < q + n).
Proof.
  intros. unfold memoverlap, separated. rewrite !u64_small by (unfold in_u; lia).
  zbool; cbn; try lia.
  - left. split; [done|lia].
  - left. split; [done|lia].
Qed.

Lemma memmove_spec (m : mem) (dest src n : Z) :
  mem_ok m -> 0 <= n -> 0 <= src -> 0 <= dest -> src + n < 2 ^ 64 -> dest + n < 2 ^ 64 ->
  accessible m src n -> accessible m dest n ->
  exists m', memmove m dest src n = Ret (dest, m') /\ dom m' = dom m /\
    forall x, m' !! x = if decide (dest <= x < dest + n) then m !! (x - dest + src) else m !! x.
Proof.
  intros Hm Hn Hs0 Hd0 Hs1 Hd1 Hs Hd. unfold memmove. destruct (Z.eqb_spec n 0) as [->|Hnz].
  { exists m. split_and!; [done..|]. intros x. by rewrite decide_False by lia. }
  destruct (memoverlap_spec dest src n) as [[E Hsep]|[[E Hov]|[E Hov]]]; [lia..| | |]; rewrite E.
  - destruct (copy_up m dest src n) as (m' & -> & Hx); [done..| |by exists m'].
    destruct (Z.le_gt_cases dest src); [by left|]. right.
    destruct (Z.le_gt_cases (src + n) dest); [done|]. destruct (Hsep dest). lia.
  - destruct (copy_up m dest src n) as (m' & -> & Hx); [done..|lia|by exists m'].
  - cbn [Z.leb Z.compare]. change (1 <=? 0) with false. cbn iota.
    destruct (memmove_down_spec (Z.to_nat (n - 1)) m dest src) as (m1 & -> & Hdm & Hx1);
      [done|eapply accessible_sub; [exact Hs|lia..]|eapply accessible_sub; [exact Hd|lia..]|lia|]. cbn [obind].
    destruct (Hs src) as [b Eb]; [lia|].
    assert (m1 !! src = Some b) as E1 by (rewrite Hx1, decide_False by lia; done).
    rewrite (load8_ok _ _ _ E1). cbn [obind].
    assert (is_Some (m1 !! dest)) as Ha by (apply (accessible_dom m m1 dest n Hdm Hd); lia).
    rewrite store8_spec, u8_small by (done || by apply (Hm _ _ Eb)). cbn [obind].
    eexists. split; [done|]. split; [by rewrite dom_insert_lookup_L|]. intros x.
    destruct (decide (x = dest)) as [->|Hne].
    + rewrite lookup_insert_eq, decide_True by lia. rewrite <- Eb. f_equal. lia.
    + rewrite lookup_insert_ne, Hx1 by done. do 2 case_decide; done || lia.
Qed.

(** ** Copies of strings *)

Lemma strncpy_spec (m : mem) (dest src n : Z) (l : list Z) :
  cstr m src l -> 0 <= n -> accessible m dest n ->
  dest + Z.of_nat (length l) < src \/ src + Z.of_nat (length l) < dest ->
  exists m', strncpy m dest src n = Ret (dest, m') /\ dom m' = dom m /\
    forall x, m' !! x =
      if decide (dest <= x < dest + n) then Some (default 0 (l !! Z.to_nat (x - dest))) else m !! x.
Proof.
  intros Hl Hn Han Hsep. assert (cstr m (src + 0) l) as Hl0 by by rewrite Z.add_0_r.
  unfold strncpy. rewrite (strncpy_loop_cstr _ m _ src 0 l) by
    (done || lia || (eapply accessible_sub; [exact Han|lia..])).
  cbn [obind]. rewrite Z.add_0_r, Z.add_0_l. set (i := Z.of_nat (Z.to_nat n `min` length l)).
  set (w := write m dest _).
  assert (accessible w (dest + i) (n - i)) as Hw.
  { apply (accessible_dom m w); [|eapply accessible_sub; [exact Han|lia..]].
    apply write_dom. eapply accessible_sub; [exact Han|lia|]. rewrite length_take, length_app. simpl. lia. }
  destruct (fill_range w dest 0 i n) as (m' & -> & Hdm & Hx); [lia|done|].
  exists m'. split; [done|]. split; [rewrite Hdm; apply write_dom; eapply accessible_sub;
    [exact Han|lia|rewrite length_take, length_app; simpl; lia]|]. intros x. rewrite Hx. unfold w. rewrite write_lookup, length_take, length_app.
  simpl length. destruct (decide (dest + i <= x < dest + n)) as [H1|H1].
  + rewrite decide_True by lia. rewrite lookup_ge_None_2 by lia. done.
  + case_decide as H2; case_decide as H3; try lia; [|done].
    rewrite lookup_take_lt by lia. destruct (decide (x - dest < Z.of_nat (length l))) as [H4|H4]; [|lia].
    rewrite lookup_app_l by lia. destruct (l !! Z.to_nat (x - dest)) eqn:E; [done|].
    apply lookup_ge_None in E. lia.
Qed.

Lemma string_copies_spec (m : mem) (dest src n : Z) (l d : list Z) :
  cstr m src l -> cstr m dest d -> 0 <= n ->
  accessible m dest (Z.of_nat (length d + length l) + 1) -> accessible m dest n ->
  dest + Z.of_nat (length d + length l) < src \/ src + Z.of_nat (length l) < dest ->
  strcpy m dest src = Ret (dest, write m dest (l ++ [0])) /\
  strcat m dest src = Ret (dest, write m (dest + Z.of_nat (length d)) (l ++ [0])) /\
  strncat m dest src n =
    Ret (dest, write m (dest + Z.of_nat (length d)) (take (Z.to_nat n) l ++ [0])) /\
  exists m', strncpy m dest src n = Ret (dest, m') /\
    forall x, m' !! x =
      if decide (dest <= x < dest + n) then Some (default 0 (l !! Z.to_nat (x - dest))) else m !! x.
Proof.
  intros Hl Hd Hn Ha Han Hsep. pose proof (cstr_steps _ _ _ Hl) as Hst.
  assert (forall i k, cstr m (src + 0) l -> 0 <= i -> i + Z.of_nat k <= Z.of_nat (length d + length l) ->
    accessible m (dest + i) (Z.of_nat k + 1)) as Hacc.
  { intros i k _ Hi Hk. eapply accessible_sub; [exact Ha|lia..]. }
  assert (cstr m (src + 0) l) as Hl0 by by rewrite Z.add_0_r.
  assert (forall i k lw, 0 <= i -> i + Z.of_nat (length lw) <= Z.of_nat (length d + length l) ->
    k = Z.of_nat (length lw) ->
    store8 (write m (dest + i) lw) (dest + i + k) 0 = Ret (write m (dest + i) (lw ++ [0]))) as Hterm.
  { intros i k lw Hi Hk ->. rewrite write_app. apply (store8_spec _ _ 0).
    rewrite write_frame by lia. apply Ha. lia. }
  split_and!.
  - unfold strcpy. rewrite (copy_loop_cstr _ m dest src 0 l) by
      (done || lia || (eapply accessible_sub; [exact Ha|lia..])).
    cbn [obind]. rewrite <- (Z.add_0_r dest) at 2. rewrite Hterm by lia. by rewrite Z.add_0_r.
  - unfold strcat. rewrite (strlen_cstr _ _ _ Hd). cbn [obind].
    rewrite (copy_loop_cstr _ m _ src 0 l) by
      (done || lia || (eapply accessible_sub; [exact Ha|lia..])).
    cbn [obind]. rewrite Z.add_0_r, Z.add_0_l, Hterm by lia. done.
  - unfold strncat. rewrite (strlen_cstr _ _ _ Hd). cbn [obind].
    rewrite (strncat_loop_cstr _ m _ src 0 l) by
      (done || lia || (eapply accessible_sub; [exact Ha|lia..])).
    cbn [obind]. rewrite Z.add_0_r, Z.add_0_l, Hterm; [done|lia|..]; rewrite length_take; lia.
  - destruct (strncpy_spec m dest src n l) as (m' & E & _ & Hx); [done..|lia|eauto].
Qed.

Lemma strcpy_spec m dest src l : cstr m src l -> accessible m dest (Z.of_nat (length l) + 1) ->
  dest + Z.of_nat (length l) < src \/ src + Z.of_nat (length l) < dest ->
  strcpy m dest src = Ret (dest, write m dest (l ++ [0])).
Proof.
  intros Hl Ha Hsep. unfold strcpy. rewrite (copy_loop_cstr _ m dest src 0 l).
  - cbn [obind]. rewrite Z.add_0_r, Z.add_0_l, write_app, store8_spec; [done|].
    rewrite write_frame by lia. apply Ha. lia.
  - by rewrite Z.add_0_r.
  - by eapply cstr_steps.
  - eapply accessible_sub; [exact Ha|lia..].
  - lia.
Qed.
