(* ===== verification/LibcStringTheorems.v ===== *)
(** * Properties of the string functions of the C library *)

From S2P Require Import Prelude LibcString LibcStringSpec.

(** ** Blocks *)

(** [memmove] copies the bytes that the source had before the call, for
    every overlap of the two blocks, and changes nothing else; [memoverlap]
    chooses the direction that this needs. *)
Theorem memmove_correct (m : mem) (dest src n : Z) :
  mem_ok m -> 0 <= n -> 0 <= src -> 0 <= dest -> src + n < 2 ^ 64 -> dest + n < 2 ^ 64 ->
  accessible m src n -> accessible m dest n ->
  exists m', memmove m dest src n = Ret (dest, m') /\ dom m' = dom m /\
    forall x, m' !! x = if decide (dest <= x < dest + n) then m !! (x - dest + src) else m !! x.
Proof. apply memmove_spec. Qed.

(** Bytes 1 .. 8 at 100. *)
Definition demo_block : mem := write ∅ 100 [1; 2; 3; 4; 5; 6; 7; 8].

Lemma demo_accessible a n : 100 <= a -> a + n <= 108 -> accessible demo_block a n.
Proof.
  intros Ha Hn x Hx. unfold demo_block. rewrite write_lookup, decide_True by (simpl; lia).
  apply lookup_lt_is_Some_2. simpl. lia.
Qed.
Lemma demo_block_ok : mem_ok demo_block.
Proof.
  intros x b. unfold demo_block. rewrite write_lookup. case_decide; [|done].
  intros E%list_elem_of_lookup_2. set_unfold in E. unfold in_u. lia.
Qed.

Lemma memmove_correct_witness : exists m', memmove demo_block 102 100 5 = Ret (102, m') /\
  m' !! 106 = Some 5 /\ m' !! 102 = Some 1 /\ m' !! 101 = Some 2.
Proof.
  destruct (memmove_correct demo_block 102 100 5) as (m' & E & _ & Hx).
  - exact demo_block_ok.
  - lia.
  - lia.
  - lia.
  - lia.
  - lia.
  - apply demo_accessible; lia.
  - apply demo_accessible; lia.
  - exists m'. split; [exact E|]. rewrite !Hx. repeat split; vm_compute; reflexivity.
Defined.

(** ** Copies of strings *)

(** The copies write exactly the characters and the terminator that their
    specification names: [strcpy] the string, [strcat] the string after the one of
    the destination, [strncat] its first [n] characters and a terminator, [strncpy]
    exactly [n] bytes padded with zeros; the rest of the memory is unchanged. *)
Theorem string_copies_exact (m : mem) (dest src n : Z) (l d : list Z) :
  cstr m src l -> cstr m dest d -> 0 <= n ->
  accessible m dest (Z.of_nat (length d + length l) + 1) -> accessible m dest n ->
  dest + Z.of_nat (length d + length l) < src \/ src + Z.of_nat (length l) < dest ->
  strcpy m dest src = Ret (dest, write m dest (l ++ [0])) /\
  strcat m dest src = Ret (dest, write m (dest + Z.of_nat (length d)) (l ++ [0])) /\
  strncat m dest src n =
    Ret (dest, write m (dest + Z.of_nat (length d)) (take (Z.to_nat n) l ++ [0])) /\
  exists m', strncpy m dest src n = Ret (dest, m') /\
    forall x, m' !! x =
      if decide (dest <= x < dest + n) then Some (default 0 (l !! Z.to_nat (x - dest))) else m !! x.
Proof. apply string_copies_spec. Qed.

(** "Hi" at 100, "you" at 200, room after both. *)
Definition demo_strings : mem :=
  write (write (mem_fill 16 100 7 ∪ mem_fill 16 200 7) 100 [72; 105; 0]) 200 [121; 111; 117; 0].

Lemma demo_string_1 : cstr demo_strings 100 [72; 105].
Proof. rewrite !cstr_cons, cstr_nil. repeat split. Qed.
Lemma demo_string_2 : cstr demo_strings 200 [121; 111; 117].
Proof. rewrite !cstr_cons, cstr_nil. repeat split. Qed.
Lemma demo_strings_accessible a n : 100 <= a -> a + n <= 116 -> accessible demo_strings a n.
Proof.
  intros Ha Hn x Hx. unfold demo_strings. rewrite !write_lookup. simpl length.
  rewrite (decide_False (P := 200 <= x < _)) by lia. case_decide.
  - apply lookup_lt_is_Some_2. simpl. lia.
  - exists 7. apply lookup_union_Some_l. rewrite mem_fill_lookup, decide_True by lia. done.
Qed.

Lemma string_copies_exact_witness :
  strcat demo_strings 100 200 = Ret (100, write demo_strings 102 [121; 111; 117; 0]).
Proof.
  refine (proj1 (proj2 (string_copies_exact demo_strings 100 200 5 [121; 111; 117] [72; 105] _ _ _ _ _ _))).
  - exact demo_string_2.
  - exact demo_string_1.
  - lia.
  - apply demo_strings_accessible; simpl; lia.
  - apply demo_strings_accessible; lia.
  - left. simpl. lia.
Defined.

(** ** Comparison and search *)

(** [strcmp] and [strncmp] order strings lexicographically by their unsigned
    characters: the result is zero exactly when they are equal, and its sign says
    which one comes first. *)
Theorem strcmp_orders (m : mem) (s1 s2 n : Z) (l1 l2 : list Z) :
  cstr m s1 l1 -> cstr m s2 l2 -> 0 <= n ->
  (exists r, strcmp m s1 s2 = Ret r /\ (r = 0 <-> l1 = l2) /\
     (r < 0 <-> lex_lt l1 l2) /\ (0 < r <-> lex_lt l2 l1)) /\
  (exists r, strncmp m s1 s2 n = Ret r /\ (r = 0 <-> take (Z.to_nat n) l1 = take (Z.to_nat n) l2) /\
     (r < 0 <-> lex_lt (take (Z.to_nat n) l1) (take (Z.to_nat n) l2))).
Proof.
  intros H1 H2 Hn. assert (cstr m (s1 + 0) l1 /\ cstr m (s2 + 0) l2) as [H1' H2'] by by rewrite !Z.add_0_r.
  split.
  - destruct (strcmp_loop_cstr (steps m) m s1 s2 0 l1 l2) as (r & E & Hr); [done..|by eapply cstr_steps|].
    exists r. split; [exact E|exact Hr].
  - destruct (strncmp_loop_cstr (Z.to_nat n) m s1 s2 0 l1 l2) as (r & E & Hr & Hlt & _); [done..|].
    exists r. split; [exact E|]. by split.
Qed.

Lemma strcmp_orders_witness : exists r, strcmp demo_strings 100 200 = Ret r /\
  (r < 0 <-> lex_lt [72; 105] [121; 111; 117]).
Proof.
  destruct (strcmp_orders demo_strings 100 200 2 [72; 105] [121; 111; 117] demo_string_1 demo_string_2)
    as [(r & E & _ & H & _) _]; [lia|]. exists r. split; [exact E|exact H].
Defined.

(** The searches: [strchr] and [strrchr] point to the first and the last
    occurrence of a character, the terminator included; [strstr] points to the
    first place where the needle occurs; all three answer [NULL] exactly when there
    is no occurrence. *)
Theorem string_search_exact (m : mem) (s nd c : Z) (l n : list Z) :
  cstr m s l -> cstr m nd n -> 0 < s ->
  (exists r, strchr m s c = Ret r /\ found_first (l ++ [0]) (u8 c) s r) /\
  (exists r, strrchr m s c = Ret r /\ found_last (l ++ [0]) (u8 c) s r) /\
  (exists r, strstr m s nd = Ret r /\
     ((exists k, r = s + Z.of_nat k /\ n `prefix_of` drop k l /\
         forall j, (j < k)%nat -> ~ n `prefix_of` drop j l) \/
      (r = NULL /\ forall j, ~ n `prefix_of` drop j l))).
Proof.
  intros Hl Hn Hs. split_and!; [by apply strchr_cstr|by apply strrchr_cstr|by apply strstr_cstr].
Qed.

Lemma string_search_exact_witness : exists r, strchr demo_strings 200 111 = Ret r /\
  found_first [121; 111; 117; 0] 111 200 r.
Proof.
  destruct (string_search_exact demo_strings 200 100 111 [121; 111; 117] [72; 105] demo_string_2 demo_string_1)
    as [H _]; [lia|]. exact H.
Defined.

(** ** Termination *)

(** The loops over strings terminate on every memory, terminated strings or
    not: each of them reads a new byte in every iteration, so that it stops at the
    end of the accessible memory at the latest. *)
Theorem string_loops_terminate (m : mem) (p q c : Z) :
  strlen m p <> NoFuel /\ strcmp m p q <> NoFuel /\ strcasecmp m p q <> NoFuel /\
  strcpy m p q <> NoFuel /\ strcat m p q <> NoFuel /\ strchr m p c <> NoFuel /\
  strrchr m p c <> NoFuel /\ strstr m p q <> NoFuel.
Proof.
  assert (forall m s, strlen m s <> NoFuel) as Hlen.
  { intros m' s. apply strlen_loop_stops; [apply accessible_0|done|unfold steps; lia]. }
  assert (forall m a b, copy_loop (steps m) m a b 0 <> NoFuel) as Hcopy.
  { intros m' a b. apply copy_loop_stops; [apply accessible_0|done|unfold steps; lia]. }
  assert (forall (m : mem) (a v d : Z), (let* m := store8 m a v in Ret (d, m)) <> NoFuel) as Hst.
  { intros m' a v d. apply obind_nofuel; [apply store8_nofuel|done]. }
  split_and!; [apply Hlen| | | | | | |].
  - apply strcmp_loop_stops; [apply accessible_0|done|unfold steps; lia].
  - apply strcasecmp_loop_stops; [apply accessible_0|done|unfold steps; lia].
  - apply obind_nofuel; [apply Hcopy|]. intros [i m'] _. apply Hst.
  - apply obind_nofuel; [apply Hlen|]. intros n _. apply obind_nofuel; [apply Hcopy|].
    intros [i m'] _. apply Hst.
  - apply strchr_loop_stops; [apply accessible_0|done|unfold steps; lia].
  - apply obind_nofuel; [apply Hlen|]. intros n _. apply memrchr_loop_stops.
  - unfold strstr. apply obind_nofuel; [apply load8_nofuel|]. intros b _. destruct (b =? 0); [done|].
    apply strstr_loop_stops; [apply accessible_0|done|unfold steps; lia].
Qed.

(** ** A defect of [strcasecmp] *)

(** The sign of the result is reversed when the strings differ in a character, and
    not when one is a prefix of the other. *)
Theorem strcasecmp_sign_reversed : exists m,
  cstr m 100 [97] /\ cstr m 200 [98] /\ cstr m 300 [97; 98] /\
  strcmp m 100 200 = Ret (-1) /\ strcasecmp m 100 200 = Ret 1 /\ strcasecmp m 100 300 = Ret (-1).
Proof.
  exists (write (write (write ∅ 100 [97; 0]) 200 [98; 0]) 300 [97; 98; 0]).
  rewrite !cstr_cons, !cstr_nil. repeat split.
Qed.
