(* ===== verification/LibcWchar.v ===== *)
(** * share/libc/wchar.c and math.c

    The functions on strings of wide characters, and the floating-point functions of the
    C library.  A [wchar_t] is an [int] of four bytes, and its representation the word
    that [load32] reads; a [double] is a [spec_float], and where the code looks at its
    words, the 64 bits that represent it. *)

From Stdlib Require Import SpecFloat.
From S2P Require Import Prelude LibcString LibcStringSpec.

(** ** wchar.c *)

Definition wload (m : mem) (s i : Z) : outcome Z := load32 m (s + 4 * i).
Definition wstore (m : mem) (s i c : Z) : outcome mem := store32 m (s + 4 * i) c.

Definition wmemcpy (m : mem) (dest src n : Z) : outcome (Z * mem) :=
  let* m := for_range 0 n (fun i m => let* c := wload m src i in wstore m dest i c) m in
  Ret (dest, m).

Definition wmemset (m : mem) (dest val len : Z) : outcome (Z * mem) :=
  let* m := for_range 0 len (fun i m => wstore m dest i val) m in
  Ret (dest, m).

(** [for (i = 0; src[i] != 0; i++) dest[i] = src[i]]: the final [i] and the memory. *)
Fixpoint wcscpy_loop (fuel : nat) (m : mem) (dest src i : Z) : outcome (Z * mem) :=
  match fuel with
  | O => NoFuel
  | S fuel =>
      let* c := wload m src i in
      if negb (c =? 0) then let* m := wstore m dest i c in wcscpy_loop fuel m dest src (i + 1)
      else Ret (i, m)
  end.
Definition wcscpy (m : mem) (dest src : Z) : outcome (Z * mem) :=
  let* (i, m) := wcscpy_loop (steps m) m dest src 0 in
  let* m := wstore m dest i 0 in
  Ret (dest, m).

Fixpoint wcslen_loop (fuel : nat) (m : mem) (str i : Z) : outcome Z :=
  match fuel with
  | O => NoFuel
  | S fuel => let* c := wload m str i in
              if negb (c =? 0) then wcslen_loop fuel m str (i + 1) else Ret i
  end.
Definition wcslen (m : mem) (str : Z) : outcome Z := wcslen_loop (steps m) m str 0.

(** The copy of at most [n] characters, which stops after the terminator is copied, at
    its index. *)
Fixpoint wcsncpy_loop (n : nat) (m : mem) (dest src i : Z) : outcome (Z * mem) :=
  match n with
  | O => Ret (i, m)
  | S n =>
      let* c := wload m src i in
      let* m := wstore m dest i c in
      let* c := wload m src i in
      if c =? 0 then Ret (i, m) else wcsncpy_loop n m dest src (i + 1)
  end.
Definition wcsncpy (m : mem) (dest src n : Z) : outcome (Z * mem) :=
  let* (i, m) := wcsncpy_loop (Z.to_nat n) m dest src 0 in
  let* m := for_range i n (fun i m => wstore m dest i 0) m in
  Ret (dest, m).

Definition wcscat (m : mem) (dest src : Z) : outcome (Z * mem) :=
  let* n := wcslen m dest in
  let* (i, m) := wcscpy_loop (steps m) m (dest + 4 * n) src 0 in
  let* m := wstore m dest (n + i) 0 in
  Ret (dest, m).

(** The copy of at most [n] characters, which stops before the terminator. *)
Fixpoint wcsncat_loop (n : nat) (m : mem) (dest src i : Z) : outcome (Z * mem) :=
  match n with
  | O => Ret (i, m)
  | S n =>
      let* c := wload m src i in
      if negb (c =? 0) then let* m := wstore m dest i c in wcsncat_loop n m dest src (i + 1)
      else Ret (i, m)
  end.
Definition wcsncat (m : mem) (dest src n : Z) : outcome (Z * mem) :=
  let* dest_len := wcslen m dest in
  let* (i, m) := wcsncat_loop (Z.to_nat n) m (dest + 4 * dest_len) src 0 in
  let* m := wstore m dest (dest_len + i) 0 in
  Ret (dest, m).

(** ** math.c *)

Definition fabs (x : spec_float) : spec_float :=
  if SFeqb x (S754_zero false) then S754_zero false
  else if SFltb (S754_zero false) x then x
  else SFopp x.

(** The same code on [float]. *)
Definition fabsf (x : spec_float) : spec_float :=
  if SFeqb x (S754_zero false) then S754_zero false
  else if SFltb (S754_zero false) x then x
  else SFopp x.

(** The [k]-th half word of the bits of a number (little endian). *)
Definition half_word (bits k : Z) : Z := Z.shiftr bits (16 * k) mod 2 ^ 16.

(** Of the 32 bits of a [float]. *)
Definition finitef (bits : Z) : Z :=
  let usExp := Z.land (half_word bits 1) 32640 in
  let usExp := Z.shiftr usExp 7 in
  b2i (negb (usExp =? 255)).

(** Of the 64 bits of a [double]. *)
Definition finite (bits : Z) : Z :=
  let usExp := Z.land (half_word bits 3) 32640 in
  let usExp := Z.shiftr usExp 7 in
  b2i (negb (usExp =? 255)).

(** ** Strings of wide characters *)

(** The words [l] are stored at [a]. *)
Definition words (m : mem) (a : Z) (l : list Z) : Prop :=
  forall (i : nat) c, l !! i = Some c -> load32 m (a + 4 * Z.of_nat i) = Ret c.

Definition wcstr (m : mem) (a : Z) (l : list Z) : Prop :=
  words m a (l ++ [0]) /\ Forall (fun c => 0 < c < 2 ^ 32) l.

(** The words [l] have been written at [a], and nothing else. *)
Definition wrote (m m' : mem) (a : Z) (l : list Z) : Prop :=
  dom m' = dom m /\ words m' a l /\
  forall x, ~ (a <= x < a + 4 * Z.of_nat (length l)) -> m' !! x = m !! x.

Lemma words_cons m a c l : words m a (c :: l) <-> load32 m a = Ret c /\ words m (a + 4) l.
Proof.
  split.
  - intros H. split; [specialize (H 0%nat c eq_refl); by replace (a + 4 * Z.of_nat 0) with a in H by lia|].
    intros i d E. specialize (H (S i) d E). by replace (a + 4 + 4 * Z.of_nat i) with (a + 4 * Z.of_nat (S i)) by lia.
  - intros [H1 H2] [|i] d E; simpl in E.
    + injection E as <-. by replace (a + 4 * Z.of_nat 0) with a by lia.
    + specialize (H2 i d E). by replace (a + 4 * Z.of_nat (S i)) with (a + 4 + 4 * Z.of_nat i) by lia.
Qed.

Lemma words_app m a l1 l2 : words m a (l1 ++ l2) <->
  words m a l1 /\ words m (a + 4 * Z.of_nat (length l1)) l2.
Proof.
  revert a. induction l1 as [|c l1 IH]; intros a; cbn [app length].
  - replace (a + 4 * Z.of_nat 0) with a by lia. split; [intros H; split; [by intros i d E|done]|tauto].
  - rewrite !words_cons, IH. replace (a + 4 + 4 * Z.of_nat (length l1)) with (a + 4 * Z.of_nat (S (length l1))) by lia.
    tauto.
Qed.

Lemma words_frame m m' a l : words m a l ->
  (forall x, a <= x < a + 4 * Z.of_nat (length l) -> m' !! x = m !! x) -> words m' a l.
Proof.
  intros H Hx i c E. rewrite <- (H i c E). apply lookup_lt_Some in E. apply load_le_frame.
  intros x Hr. change (Z.of_nat 4) with 4 in Hr. apply Hx. lia.
Qed.

Lemma wcstr_cons m a c l : wcstr m a (c :: l) -> load32 m a = Ret c /\ 0 < c < 2 ^ 32 /\ wcstr m (a + 4) l.
Proof. intros [[H1 H2]%words_cons [H3 H4]%Forall_cons]. done. Qed.

Lemma wcstr_nil m a : wcstr m a [] -> load32 m a = Ret 0.
Proof. intros [[H _]%words_cons _]. done. Qed.

(** A word is in memory. *)
Lemma load32_accessible m a c : load32 m a = Ret c -> accessible m a 4.
Proof.
  unfold load32. cbn [load_le]. unfold load8. intros E. obind_split.
  repeat match goal with H : deref _ = Ret _ |- _ => apply deref_inv in H end. intros x Hx.
  assert (x = a \/ x = a + 1 \/ x = a + 1 + 1 \/ x = a + 1 + 1 + 1) as [-> |[-> |[-> | ->]]] by lia; eauto.
Qed.

(** ** Stores *)

Lemma wrote_nil m a : wrote m m a [].
Proof. split_and!; [done|by intros i c E|done]. Qed.

Lemma wrote_one m a c : 0 <= c < 2 ^ 32 -> accessible m a 4 ->
  exists m', store32 m a c = Ret m' /\ wrote m m' a [c].
Proof.
  intros Hc Ha. destruct (store_le_bytes 4 m a c Ha) as (m' & E & Hd & Hx). exists m'. split; [exact E|].
  split_and!; [done| |].
  - apply words_cons. split; [|by intros i d E'].
    unfold load32. rewrite (load_store_le 4 m a c m' E). f_equal. apply Z.mod_small.
    change (2 ^ (8 * Z.of_nat 4)) with (2 ^ 32). lia.
  - intros x Hout. rewrite Hx, decide_False; [done|]. change (Z.of_nat 4) with 4. cbn [length] in Hout. lia.
Qed.

Lemma wrote_app m m1 m2 a l1 l2 : wrote m m1 a l1 -> wrote m1 m2 (a + 4 * Z.of_nat (length l1)) l2 ->
  wrote m m2 a (l1 ++ l2).
Proof.
  intros (D1 & W1 & X1) (D2 & W2 & X2). split_and!; [congruence| |].
  - apply words_app. split; [|done]. eapply words_frame; [exact W1|]. intros x Hx. apply X2. lia.
  - intros x Hx. rewrite length_app in Hx. rewrite X2, X1; [done|lia..].
Qed.

Lemma wrote_cons m m1 m2 a c l : wrote m m1 a [c] -> wrote m1 m2 (a + 4) l -> wrote m m2 a (c :: l).
Proof. intros H1 H2. by apply (wrote_app m m1 m2 a [c] l). Qed.

Lemma wrote_accessible m m' a l p n : wrote m m' a l -> accessible m p n -> accessible m' p n.
Proof. intros (Hd & _) Ha. by eapply accessible_dom. Qed.

(** A string apart from what was written is still there. *)
Definition clear_of (a n p k : Z) : Prop := a + n <= p \/ p + k <= a.

Lemma wrote_wcstr m m' a l p s : wrote m m' a l -> wcstr m p s ->
  clear_of a (4 * Z.of_nat (length l)) p (4 * Z.of_nat (length s) + 4) -> wcstr m' p s.
Proof.
  intros (_ & _ & Hx) [Hw Hs] Hc. split; [|done]. eapply words_frame; [exact Hw|].
  intros x Hr. rewrite length_app in Hr. cbn [length] in Hr. apply Hx. unfold clear_of in Hc. lia.
Qed.

(** The terminated string has no more characters than the memory has bytes. *)
Lemma wcstr_steps m a l : wcstr m a l -> (length l < steps m)%nat.
Proof.
  intros [Hw _]. assert (accessible m a (Z.of_nat (length l) + 1)) as Ha.
  { intros x Hx. assert (is_Some ((l ++ [0]) !! Z.to_nat ((x - a) / 4))) as [c E].
    { apply lookup_lt_is_Some_2. rewrite length_app. cbn [length].
      assert (0 <= (x - a) / 4 <= x - a) by dlia. lia. }
    apply (load32_accessible _ _ _ (Hw _ _ E)). dlia. }
  apply accessible_size in Ha. unfold steps. lia.
Qed.

(** ** What the loops do *)

Lemma wcslen_loop_spec fuel m s i l : wcstr m (s + 4 * i) l -> (length l < fuel)%nat ->
  wcslen_loop fuel m s i = Ret (i + Z.of_nat (length l)).
Proof.
  revert i l. induction fuel as [|fuel IH]; intros i l Hs Hf; [lia|]. cbn [wcslen_loop]. unfold wload.
  destruct l as [|c l].
  - rewrite (wcstr_nil _ _ Hs). cbn. f_equal. lia.
  - destruct (wcstr_cons _ _ _ _ Hs) as (-> & Hc & Hs'). cbn [obind length] in *.
    rewrite (proj2 (Z.eqb_neq c 0)) by lia. cbn [negb]. rewrite (IH (i + 1) l); [f_equal; lia| |lia].
    by replace (s + 4 * (i + 1)) with (s + 4 * i + 4) by lia.
Qed.

Lemma wcslen_spec m s l : wcstr m s l -> wcslen m s = Ret (Z.of_nat (length l)).
Proof.
  intros Hs. unfold wcslen. rewrite (wcslen_loop_spec _ m s 0 l); [done| |by eapply wcstr_steps].
  by replace (s + 4 * 0) with s by lia.
Qed.

(** One step of a copy, and what it leaves to do. *)
Lemma copy_step m d s c l : wcstr m s (c :: l) -> accessible m d (4 * Z.of_nat (length (c :: l))) ->
  clear_of d (4 * Z.of_nat (length (c :: l))) s (4 * Z.of_nat (length (c :: l)) + 4) ->
  exists m1, store32 m d c = Ret m1 /\ wrote m m1 d [c] /\ wcstr m1 s (c :: l) /\ wcstr m1 (s + 4) l /\
    accessible m1 (d + 4) (4 * Z.of_nat (length l)) /\
    clear_of (d + 4) (4 * Z.of_nat (length l)) (s + 4) (4 * Z.of_nat (length l) + 4).
Proof.
  intros Hs Ha Hc. destruct (wcstr_cons _ _ _ _ Hs) as (_ & Hr & _). cbn [length] in *.
  destruct (wrote_one m d c) as (m1 & E & Hw); [lia|eapply accessible_sub; [exact Ha|lia..]|].
  exists m1. assert (wcstr m1 s (c :: l)) as Hs1.
  { eapply wrote_wcstr; [exact Hw|done|]. cbn [length]. unfold clear_of in *. lia. }
  split_and!; [done|done|done| | |].
  - by destruct (wcstr_cons _ _ _ _ Hs1) as (_ & _ & ?).
  - eapply wrote_accessible; [exact Hw|]. eapply accessible_sub; [exact Ha|lia..].
  - unfold clear_of in *. lia.
Qed.

Lemma wcscpy_loop_spec fuel m dest src i l : wcstr m (src + 4 * i) l -> (length l < fuel)%nat ->
  accessible m (dest + 4 * i) (4 * Z.of_nat (length l)) ->
  clear_of (dest + 4 * i) (4 * Z.of_nat (length l)) (src + 4 * i) (4 * Z.of_nat (length l) + 4) ->
  exists m', wcscpy_loop fuel m dest src i = Ret (i + Z.of_nat (length l), m') /\
    wrote m m' (dest + 4 * i) l.
Proof.
  revert m i l. induction fuel as [|fuel IH]; intros m i l Hs Hf Ha Hc; [lia|]. cbn [wcscpy_loop]. unfold wload, wstore.
  destruct l as [|c l].
  - rewrite (wcstr_nil _ _ Hs). exists m. cbn. split; [do 2 f_equal; lia|apply wrote_nil].
  - destruct (wcstr_cons _ _ _ _ Hs) as (-> & Hr & _). cbn [obind]. rewrite (proj2 (Z.eqb_neq c 0)) by lia. cbn [negb].
    destruct (copy_step m _ _ c l Hs Ha Hc) as (m1 & -> & Hw & _ & Hs1 & Ha1 & Hc1). cbn [obind length] in *.
    destruct (IH m1 (i + 1) l) as (m2 & -> & Hw2); try lia;
      rewrite ?(Z.mul_add_distr_l 4 i 1), ?Z.add_assoc; try done.
    exists m2. split; [do 2 f_equal; lia|]. eapply wrote_cons; [exact Hw|].
    by replace (dest + 4 * i + 4) with (dest + 4 * (i + 1)) by lia.
Qed.

Lemma wcsncat_loop_spec n m dest src i l : wcstr m (src + 4 * i) l ->
  accessible m (dest + 4 * i) (4 * Z.of_nat (length l)) ->
  clear_of (dest + 4 * i) (4 * Z.of_nat (length l)) (src + 4 * i) (4 * Z.of_nat (length l) + 4) ->
  exists m', wcsncat_loop n m dest src i = Ret (i + Z.of_nat (length (take n l)), m') /\
    wrote m m' (dest + 4 * i) (take n l).
Proof.
  revert m i l. induction n as [|n IH]; intros m i l Hs Ha Hc; cbn [wcsncat_loop].
  { exists m. rewrite take_0. cbn. split; [do 2 f_equal; lia|apply wrote_nil]. }
  unfold wload, wstore. destruct l as [|c l].
  - rewrite (wcstr_nil _ _ Hs). exists m. cbn. split; [do 2 f_equal; lia|apply wrote_nil].
  - destruct (wcstr_cons _ _ _ _ Hs) as (-> & Hr & _). cbn [obind]. rewrite (proj2 (Z.eqb_neq c 0)) by lia. cbn [negb].
    destruct (copy_step m _ _ c l Hs Ha Hc) as (m1 & -> & Hw & _ & Hs1 & Ha1 & Hc1). cbn [obind length take] in *.
    destruct (IH m1 (i + 1) l) as (m2 & -> & Hw2);
      rewrite ?(Z.mul_add_distr_l 4 i 1), ?Z.add_assoc; try done.
    exists m2. split; [do 2 f_equal; lia|]. eapply wrote_cons; [exact Hw|].
    by replace (dest + 4 * i + 4) with (dest + 4 * (i + 1)) by lia.
Qed.

(** Loops over a range of indices. *)
Lemma wfill_spec k m dest v i : 0 <= v < 2 ^ 32 -> accessible m (dest + 4 * i) (4 * Z.of_nat k) ->
  exists m', for_n k i (fun i m => wstore m dest i v) m = Ret m' /\ wrote m m' (dest + 4 * i) (replicate k v).
Proof.
  intros Hv. revert m i. induction k as [|k IH]; intros m i Ha; cbn [for_n replicate].
  { exists m. split; [done|apply wrote_nil]. }
  destruct (wrote_one m (dest + 4 * i) v) as (m1 & E & Hw); [done|eapply accessible_sub; [exact Ha|lia..]|].
  unfold wstore at 1. rewrite E. cbn [obind]. destruct (IH m1 (i + 1)) as (m2 & E2 & Hw2).
  { eapply wrote_accessible; [exact Hw|]. eapply accessible_sub; [exact Ha|lia..]. }
  exists m2. split; [exact E2|]. eapply wrote_cons; [exact Hw|].
  by replace (dest + 4 * i + 4) with (dest + 4 * (i + 1)) by lia.
Qed.

Lemma wmove_spec m dest src i l : words m (src + 4 * i) l -> Forall (fun c => 0 <= c < 2 ^ 32) l ->
  accessible m (dest + 4 * i) (4 * Z.of_nat (length l)) ->
  clear_of (dest + 4 * i) (4 * Z.of_nat (length l)) (src + 4 * i) (4 * Z.of_nat (length l)) ->
  exists m', for_n (length l) i (fun i m => let* c := wload m src i in wstore m dest i c) m = Ret m' /\
    wrote m m' (dest + 4 * i) l.
Proof.
  revert m i. induction l as [|c l IH]; intros m i Hs Hr Ha Hc; cbn [for_n length].
  { exists m. split; [done|apply wrote_nil]. }
  apply words_cons in Hs as [Ec Hs]. apply Forall_cons in Hr as [Hrc Hr]. cbn [length] in *.
  unfold wload at 1. rewrite Ec. cbn [obind].
  destruct (wrote_one m (dest + 4 * i) c) as (m1 & E & Hw); [done|eapply accessible_sub; [exact Ha|lia..]|].
  unfold wstore at 1. rewrite E. cbn [obind].
  destruct (IH m1 (i + 1)) as (m2 & E2 & Hw2).
  - replace (src + 4 * (i + 1)) with (src + 4 * i + 4) by lia. eapply words_frame; [exact Hs|].
    intros x Hx. apply Hw. cbn [length]. unfold clear_of in Hc. lia.
  - done.
  - eapply wrote_accessible; [exact Hw|]. eapply accessible_sub; [exact Ha|lia..].
  - unfold clear_of in *. lia.
  - exists m2. split; [exact E2|]. eapply wrote_cons; [exact Hw|].
    by replace (dest + 4 * i + 4) with (dest + 4 * (i + 1)) by lia.
Qed.

(** [wcsncpy] copies the terminator if it is among the [n] first characters. *)
Lemma wcsncpy_loop_spec n m dest src i l : wcstr m (src + 4 * i) l ->
  accessible m (dest + 4 * i) (4 * Z.of_nat n) ->
  clear_of (dest + 4 * i) (4 * Z.of_nat n) (src + 4 * i) (4 * Z.of_nat (length l) + 4) ->
  exists m', wcsncpy_loop n m dest src i = Ret (i + Z.of_nat (Nat.min n (length l)), m') /\
    wrote m m' (dest + 4 * i) (take n (l ++ [0])).
Proof.
  revert m i l. induction n as [|n IH]; intros m i l Hs Ha Hc; cbn [wcsncpy_loop].
  { exists m. rewrite take_0. cbn. split; [do 2 f_equal; lia|apply wrote_nil]. }
  unfold wload, wstore. destruct l as [|c l].
  - rewrite (wcstr_nil _ _ Hs). cbn [obind].
    destruct (wrote_one m (dest + 4 * i) 0) as (m1 & E & Hw); [lia|eapply accessible_sub; [exact Ha|lia..]|].
    rewrite E. cbn [obind].
    assert (wcstr m1 (src + 4 * i) []) as Hs1
      by (eapply wrote_wcstr; [exact Hw|done|]; cbn [length] in *; unfold clear_of in *; lia).
    rewrite (wcstr_nil _ _ Hs1). cbn [obind Z.eqb]. exists m1. split; [do 2 f_equal; cbn; lia|].
    cbn [app take]. by rewrite take_nil.
  - destruct (wcstr_cons _ _ _ _ Hs) as (Ec & Hr & _). rewrite Ec. cbn [obind length] in *.
    destruct (wrote_one m (dest + 4 * i) c) as (m1 & E & Hw); [lia|eapply accessible_sub; [exact Ha|lia..]|].
    rewrite E. cbn [obind].
    assert (wcstr m1 (src + 4 * i) (c :: l)) as Hs1
      by (eapply wrote_wcstr; [exact Hw|done|]; cbn [length] in *; unfold clear_of in *; lia).
    destruct (wcstr_cons _ _ _ _ Hs1) as (-> & _ & Hs2). cbn [obind]. rewrite (proj2 (Z.eqb_neq c 0)) by lia.
    destruct (IH m1 (i + 1) l) as (m2 & -> & Hw2).
    + by replace (src + 4 * (i + 1)) with (src + 4 * i + 4) by lia.
    + eapply wrote_accessible; [exact Hw|]. eapply accessible_sub; [exact Ha|lia..].
    + unfold clear_of in *. lia.
    + exists m2. split; [do 2 f_equal; lia|]. cbn [app take]. eapply wrote_cons; [exact Hw|].
      by replace (dest + 4 * i + 4) with (dest + 4 * (i + 1)) by lia.
Qed.

(** The characters that [wcsncpy] leaves: the first [n] ones, padded with zeros. *)
Definition padded (n : nat) (l : list Z) : list Z := take n l ++ replicate (n - length l) 0.

Lemma wrote_over m m1 m2 a l1 r l2 : wrote m m1 a (l1 ++ r) -> (length r <= length l2)%nat ->
  wrote m1 m2 (a + 4 * Z.of_nat (length l1)) l2 -> wrote m m2 a (l1 ++ l2).
Proof.
  intros (D1 & W1 & X1) Hr (D2 & W2 & X2). apply words_app in W1 as [W1 _]. split_and!; [congruence| |].
  - apply words_app. split; [|done]. eapply words_frame; [exact W1|]. intros x Hx. apply X2. lia.
  - intros x Hx. rewrite length_app in Hx. rewrite X2, X1; [done|rewrite length_app; lia|lia].
Qed.

(** The terminator after a copy. *)
Lemma wrote_end m m1 a l : wrote m m1 a l -> accessible m a (4 * Z.of_nat (length l) + 4) ->
  exists m2, store32 m1 (a + 4 * Z.of_nat (length l)) 0 = Ret m2 /\ wrote m m2 a (l ++ [0]).
Proof.
  intros Hw Ha. destruct (wrote_one m1 (a + 4 * Z.of_nat (length l)) 0) as (m2 & E & Hw2); [lia| |].
  { eapply wrote_accessible; [exact Hw|]. eapply accessible_sub; [exact Ha|lia..]. }
  exists m2. split; [done|]. by eapply wrote_app.
Qed.

Section Copies.
Context (m : mem) (dest src : Z) (l : list Z) (Hs : wcstr m src l).

Lemma wcscpy_spec : accessible m dest (4 * Z.of_nat (length l) + 4) ->
  clear_of dest (4 * Z.of_nat (length l)) src (4 * Z.of_nat (length l) + 4) ->
  exists m', wcscpy m dest src = Ret (dest, m') /\ wrote m m' dest (l ++ [0]).
Proof using Hs.
  intros Ha Hc. unfold wcscpy, wstore.
  destruct (wcscpy_loop_spec (steps m) m dest src 0 l) as (m1 & -> & Hw); rewrite ?Z.mul_0_r, ?Z.add_0_r in *; try done.
  { by eapply wcstr_steps. } { eapply accessible_sub; [exact Ha|lia..]. }
  cbn [obind]. destruct (wrote_end m m1 dest l Hw Ha) as (m2 & E & Hw2). rewrite Z.add_0_l, E. by exists m2.
Qed.

Context (d : list Z) (Hd : wcstr m dest d).
Context (Ha : accessible m dest (4 * Z.of_nat (length d + length l) + 4)).
Context (Hc : clear_of dest (4 * Z.of_nat (length d + length l) + 4) src (4 * Z.of_nat (length l) + 4)).

Lemma wcscat_spec :
  exists m', wcscat m dest src = Ret (dest, m') /\ wrote m m' (dest + 4 * Z.of_nat (length d)) (l ++ [0]).
Proof using Hs Hd Ha Hc.
  unfold wcscat, wstore. rewrite (wcslen_spec m dest d Hd). cbn [obind]. set (p := dest + 4 * Z.of_nat (length d)).
  destruct (wcscpy_loop_spec (steps m) m p src 0 l) as (m1 & -> & Hw); rewrite ?Z.mul_0_r, ?Z.add_0_r in *; try done.
  { by eapply wcstr_steps. } { eapply accessible_sub; [exact Ha|unfold p; lia..]. }
  { unfold clear_of, p in *. lia. }
  cbn [obind]. destruct (wrote_end m m1 p l Hw) as (m2 & E & Hw2).
  { eapply accessible_sub; [exact Ha|unfold p; lia..]. }
  replace (dest + 4 * (Z.of_nat (length d) + (0 + Z.of_nat (length l)))) with (p + 4 * Z.of_nat (length l)) by (unfold p; lia).
  rewrite E. by exists m2.
Qed.

Lemma wcsncat_spec n :
  exists m', wcsncat m dest src n = Ret (dest, m') /\
    wrote m m' (dest + 4 * Z.of_nat (length d)) (take (Z.to_nat n) l ++ [0]).
Proof using Hs Hd Ha Hc.
  unfold wcsncat, wstore. rewrite (wcslen_spec m dest d Hd). cbn [obind]. set (p := dest + 4 * Z.of_nat (length d)).
  destruct (wcsncat_loop_spec (Z.to_nat n) m p src 0 l) as (m1 & -> & Hw); rewrite ?Z.mul_0_r, ?Z.add_0_r in *; try done.
  { eapply accessible_sub; [exact Ha|unfold p; lia..]. } { unfold clear_of, p in *. lia. }
  cbn [obind]. destruct (wrote_end m m1 p (take (Z.to_nat n) l) Hw) as (m2 & E & Hw2).
  { rewrite length_take. eapply accessible_sub; [exact Ha|unfold p; lia..]. }
  replace (dest + 4 * (Z.of_nat (length d) + (0 + Z.of_nat (length (take (Z.to_nat n) l)))))
    with (p + 4 * Z.of_nat (length (take (Z.to_nat n) l))) by (unfold p; lia).
  rewrite E. by exists m2.
Qed.
End Copies.

Lemma wcsncpy_spec m dest src n l : wcstr m src l -> 0 <= n -> accessible m dest (4 * n) ->
  clear_of dest (4 * n) src (4 * Z.of_nat (length l) + 4) ->
  exists m', wcsncpy m dest src n = Ret (dest, m') /\ wrote m m' dest (padded (Z.to_nat n) l).
Proof.
  intros Hs Hn Ha Hc. unfold wcsncpy. destruct (Z_of_nat_complete n Hn) as [k ->]. rewrite Nat2Z.id.
  destruct (wcsncpy_loop_spec k m dest src 0 l) as (m1 & -> & Hw); rewrite ?Z.mul_0_r, ?Z.add_0_r in *; try done.
  cbn [obind]. unfold for_range. rewrite Z.add_0_l.
  replace (Z.to_nat (Z.of_nat k - Z.of_nat (k `min` length l))) with (k - length l)%nat by lia.
  destruct (wfill_spec (k - length l) m1 dest 0 (Z.of_nat (k `min` length l))) as (m2 & -> & Hw2); [lia| |].
  { eapply wrote_accessible; [exact Hw|]. eapply accessible_sub; [exact Ha|lia..]. }
  exists m2. split; [done|]. unfold padded.
  assert (take k (l ++ [0]) = take k l ++ take (k - length l) [0]) as E by by rewrite take_app.
  rewrite E in Hw. eapply wrote_over; [exact Hw| |by rewrite length_take].
  rewrite length_take, length_replicate. simpl. lia.
Qed.

(** C14.  The functions on wide strings: [wcslen] gives the number of characters;
    [wmemcpy] and [wmemset] write exactly their words; [wcscpy] writes the string and its
    terminator, [wcscat] writes them after the string of the destination, [wcsncat] the
    first [n] characters and a terminator, and [wcsncpy] exactly [n] characters, padded
    with zeros; nothing else changes. *)
Theorem wide_copies_exact (m : mem) (dest src n v : Z) (l d : list Z) :
  wcstr m src l -> wcstr m dest d -> 0 <= n -> 0 <= v < 2 ^ 32 ->
  accessible m dest (4 * Z.of_nat (length d + length l) + 4) -> accessible m dest (4 * n) ->
  clear_of dest (4 * Z.of_nat (length d + length l) + 4) src (4 * Z.of_nat (length l) + 4) ->
  clear_of dest (4 * n) src (4 * Z.of_nat (length l) + 4) ->
  wcslen m src = Ret (Z.of_nat (length l)) /\
  (exists m', wmemcpy m dest src (Z.of_nat (length l)) = Ret (dest, m') /\ wrote m m' dest l) /\
  (exists m', wmemset m dest v n = Ret (dest, m') /\ wrote m m' dest (replicate (Z.to_nat n) v)) /\
  (exists m', wcscpy m dest src = Ret (dest, m') /\ wrote m m' dest (l ++ [0])) /\
  (exists m', wcscat m dest src = Ret (dest, m') /\
    wrote m m' (dest + 4 * Z.of_nat (length d)) (l ++ [0])) /\
  (exists m', wcsncat m dest src n = Ret (dest, m') /\
    wrote m m' (dest + 4 * Z.of_nat (length d)) (take (Z.to_nat n) l ++ [0])) /\
  (exists m', wcsncpy m dest src n = Ret (dest, m') /\ wrote m m' dest (padded (Z.to_nat n) l)).
Proof.
  intros Hs Hd Hn Hv Ha1 Ha2 Hc1 Hc2. split; [by apply wcslen_spec|].
  split; [|split; [|split; [|split; [|split]]]].
  - unfold wmemcpy, for_range. rewrite Z.sub_0_r, Nat2Z.id.
    destruct (wmove_spec m dest src 0 l) as (m' & -> & Hw); rewrite ?Z.mul_0_r, ?Z.add_0_r in *.
    + destruct Hs as [[Hs _]%words_app _]. done.
    + eapply Forall_impl; [apply Hs|]. cbn. lia.
    + eapply accessible_sub; [exact Ha1|lia..].
    + unfold clear_of in *. lia.
    + by exists m'.
  - unfold wmemset, for_range. rewrite Z.sub_0_r.
    destruct (wfill_spec (Z.to_nat n) m dest v 0) as (m' & -> & Hw); rewrite ?Z.mul_0_r, ?Z.add_0_r in *; [done| |].
    + eapply accessible_sub; [exact Ha2|lia..].
    + by exists m'.
  - apply wcscpy_spec; [done|eapply accessible_sub; [exact Ha1|lia..]|unfold clear_of in *; lia].
  - by apply (wcscat_spec m dest src l Hs d).
  - by apply (wcsncat_spec m dest src l Hs d).
  - by apply wcsncpy_spec.
Qed.

(** "Hi" at 100 and "you" at 200, in wide characters. *)
Definition demo_word (c : Z) : list Z := [c; 0; 0; 0].
Definition demo_wide : mem :=
  write (write (mem_fill 64 100 7 ∪ mem_fill 64 200 7) 100 (flat_map demo_word [72; 105; 0]))
    200 (flat_map demo_word [121; 111; 117; 0]).

Lemma demo_wide_1 : wcstr demo_wide 100 [72; 105].
Proof.
  split; [|repeat constructor; lia].
  intros [|[|[|i]]] c; cbn; [intros [= <-]..|done]; vm_compute; reflexivity.
Qed.
Lemma demo_wide_2 : wcstr demo_wide 200 [121; 111; 117].
Proof.
  split; [|repeat constructor; lia].
  intros [|[|[|[|i]]]] c; cbn; [intros [= <-]..|done]; vm_compute; reflexivity.
Qed.
Lemma demo_wide_accessible n : n <= 64 -> accessible demo_wide 100 n.
Proof.
  intros Hn x Hx. assert (forallb (fun x => match demo_wide !! x with Some _ => true | None => false end) (seqZ 100 64) = true)
    as H by (vm_compute; reflexivity).
  rewrite forallb_forall in H. specialize (H x). destruct (demo_wide !! x); [eauto|].
  exfalso. discriminate H. apply list_elem_of_In, elem_of_seqZ. lia.
Qed.

Lemma wide_copies_exact_witness :
  wcslen demo_wide 200 = Ret 3 /\
  exists m', wcsncpy demo_wide 100 200 5 = Ret (100, m') /\ wrote demo_wide m' 100 [121; 111; 117; 0; 0].
Proof.
  destruct (wide_copies_exact demo_wide 100 200 5 1 [121; 111; 117] [72; 105] demo_wide_2 demo_wide_1
    ltac:(lia) ltac:(lia) (demo_wide_accessible 24 ltac:(lia)) (demo_wide_accessible 20 ltac:(lia))
    ltac:(unfold clear_of; simpl; lia) ltac:(unfold clear_of; simpl; lia)) as (H1 & _ & _ & _ & _ & _ & H2).
  exact (conj H1 H2).
Defined.

(** ** Floating point *)

(** [fabs] and [fabsf] are the absolute value, of zeros, infinities and NaN as well. *)
Theorem fabs_absolute_value (x : spec_float) : fabs x = SFabs x /\ fabsf x = SFabs x.
Proof. destruct x as [[]|[]| |[] p e]; split; reflexivity. Qed.

(** The sign, the exponent and the fraction of a number of [w] bits with an exponent of
    [ew] bits. *)
Definition float_bits (w ew sign exponent fraction : Z) : Z :=
  sign * 2 ^ (w - 1) + exponent * 2 ^ (w - 1 - ew) + fraction.

Lemma exponent_field bits : 0 <= bits -> Z.shiftr (Z.land (bits mod 2 ^ 16) 32640) 7 = bits / 2 ^ 7 mod 2 ^ 8.
Proof.
  intros H. apply Z.bits_inj'. intros i Hi. rewrite Z.shiftr_spec, Z.land_spec by lia.
  change 32640 with (Z.shiftl (Z.ones 8) 7). rewrite Z.shiftl_spec by lia.
  replace (i + 7 - 7) with i by lia. rewrite <- (Z.land_ones _ 8) by lia. rewrite <- Z.shiftr_div_pow2 by lia.
  rewrite Z.land_spec, Z.shiftr_spec by lia. destruct (Z.ltb_spec i 8).
  - rewrite Z.mod_pow2_bits_low by lia. done.
  - rewrite Z.ones_spec_high by lia. by rewrite !andb_false_r.
Qed.

(** [__finitef] is 1 exactly on the numbers whose exponent is not the one of infinities
    and NaN. *)
Theorem finitef_exact (sign exponent fraction : Z) :
  0 <= sign < 2 -> 0 <= exponent < 2 ^ 8 -> 0 <= fraction < 2 ^ 23 ->
  finitef (float_bits 32 8 sign exponent fraction) = b2i (negb (exponent =? 255)).
Proof.
  intros Hs He Hf. unfold finitef, half_word, float_bits. change (32 - 1 - 8) with 23. change (32 - 1) with 31.
  rewrite (Z.shiftr_div_pow2 _ (16 * 1)) by lia. rewrite exponent_field by (apply Z.div_pos; lia).
  rewrite Z.div_div by lia. change (2 ^ (16 * 1) * 2 ^ 7) with (2 ^ 23).
  replace (sign * 2 ^ 31 + exponent * 2 ^ 23 + fraction) with (fraction + (exponent + sign * 2 ^ 8) * 2 ^ 23) by lia.
  rewrite Z.div_add, (Z.div_small fraction) by lia. rewrite Z.add_0_l, Z.mod_add, Z.mod_small by lia. done.
Qed.

(** [__finite] looks at the first eight bits of an exponent of eleven: it is 0 on every
    number whose exponent is 2040 or more, finite numbers from 2^1017 on included. *)
Theorem finite_rejects_large (sign exponent fraction : Z) :
  0 <= sign < 2 -> 0 <= exponent < 2 ^ 11 -> 0 <= fraction < 2 ^ 52 ->
  finite (float_bits 64 11 sign exponent fraction) = b2i (exponent <? 2040).
Proof.
  intros Hs He Hf. unfold finite, half_word, float_bits. change (64 - 1 - 11) with 52. change (64 - 1) with 63.
  rewrite (Z.shiftr_div_pow2 _ (16 * 3)) by lia. rewrite exponent_field by (apply Z.div_pos; lia).
  rewrite Z.div_div by lia. change (2 ^ (16 * 3) * 2 ^ 7) with (2 ^ 52 * 2 ^ 3). rewrite <- Z.div_div by lia.
  replace (sign * 2 ^ 63 + exponent * 2 ^ 52 + fraction) with (fraction + (exponent + sign * 2 ^ 11) * 2 ^ 52) by lia.
  rewrite Z.div_add, (Z.div_small fraction), Z.add_0_l by lia.
  replace (sign * 2 ^ 11) with (sign * 2 ^ 8 * 2 ^ 3) by lia. rewrite Z.div_add, Z.mod_add by lia.
  change (2 ^ 3) with 8. change (2 ^ 8) with 256. change (2 ^ 11) with 2048 in *.
  rewrite Z.mod_small by dlia. f_equal.
  destruct (Z.ltb_spec exponent 2040), (Z.eqb_spec (exponent / 8) 255); cbn [negb]; dlia || done.
Qed.
