(* ===== verification/AcslString.v ===== *)
(** * The logic of the C library's contracts

    The headers under share/libc give each function a contract in ACSL.  This file
    holds what the contracts are written with: memory blocks and the validity of
    ranges, the form of a contract and what it means that a function meets one, and
    the logic functions of share/libc/__fc_string_axiomatic.h, with the proof that
    they satisfy the axioms which that file states of them. *)

From S2P Require Import Prelude LibcString LibcStringSpec.

(** ** Blocks and ranges *)

(** The built-ins [\base_addr] and [\block_length]: the block of an address. *)
Class Blocks : Type := {
  base_addr : Z -> Z;
  block_length : Z -> Z;
  block_length_base : forall a, block_length (base_addr a) = block_length a
}.

(** ** Contracts

    [requires], [assigns] and [ensures] over the memory at the call, the result and
    the memory at the return; [assigns] is the set of the bytes that may change. *)
Record contract (R : Type) : Type := mk_contract {
  requires : mem -> Prop;
  assigns : mem -> Z -> Prop;
  ensures : mem -> R -> mem -> Prop
}.
Arguments mk_contract {R}.
Arguments requires {R}.
Arguments assigns {R}.
Arguments ensures {R}.

(** Total correctness: when the precondition holds the function returns, the
    postcondition holds, and only the assigned bytes change. *)
Definition meets {R : Type} (f : mem -> outcome (R * mem)) (c : contract R) : Prop :=
  forall m, mem_ok m -> requires c m ->
  exists r m', f m = Ret (r, m') /\ ensures c m r m' /\ dom m' = dom m /\
    forall a, ~ assigns c m a -> m' !! a = m !! a.

(** A contract with one more precondition. *)
Definition with_requires {R : Type} (P : mem -> Prop) (c : contract R) : contract R :=
  mk_contract (fun m => requires c m /\ P m) (assigns c) (ensures c).

(** A function that only reads memory. *)
Definition pure_fun {R : Type} (f : mem -> outcome R) (m : mem) : outcome (R * mem) :=
  let* r := f m in Ret (r, m).
Definition nothing (m : mem) (a : Z) : Prop := False.
(** The bytes [p + (lo .. hi)]. *)
Definition range (p lo hi a : Z) : Prop := p + lo <= a <= p + hi.

(** [\separated(p+(0..i), q+(0..j))]. *)
Definition separated_ranges (p i q j : Z) : Prop := forall a, ~ (range p 0 i a /\ range q 0 j a).

Section Validity.
Context `{BK : !Blocks}.

(** [\valid(p+(lo..hi))]: the bytes are accessible and belong to the block of [p];
    so does the address after the last byte, as an end.  The model has no constants,
    so that [\valid_read] is the same, and an accessible byte is initialized. *)
Definition in_block (p a : Z) : Prop :=
  base_addr a = base_addr p /\ base_addr p <= a < base_addr p + block_length p.
Definition valid (m : mem) (p lo hi : Z) : Prop :=
  forall a, range p lo hi a -> is_Some (m !! a) /\ 0 < a < 2 ^ 64 - 1 /\ in_block p a.
Definition initialized (m : mem) (p lo hi : Z) : Prop :=
  forall a, range p lo hi a -> is_Some (m !! a).

Definition empty_block (s : Z) : Prop := block_length s = 0 /\ s - base_addr s = 0.
Definition valid_or_empty (m : mem) (s n : Z) : Prop :=
  (empty_block s \/ valid m s 0 0) /\ valid m s 0 (n - 1).
Definition valid_read_or_empty (m : mem) (s n : Z) : Prop :=
  (empty_block s \/ valid m s 0 0) /\ valid m s 1 (n - 1).
End Validity.

(** ** Logic functions *)

(** The value of [s[i]] at the address: a [char], which is signed.  An address
    without a byte holds some value other than 0. *)
Definition rd (m : mem) (a : Z) : Z := match m !! a with Some b => s8 b | None => 1 end.

(** The first terminator at [s] or after it. *)
Definition first_zero (m : mem) (s : Z) : option Z :=
  foldr (fun '(a, b) z =>
    if (s <=? a) && (s8 b =? 0) then Some (match z with Some x => Z.min x a | None => a end) else z)
    None (map_to_list m).

(** [strlen]: negative when there is no terminator. *)
Definition strlen_l (m : mem) (s : Z) : Z :=
  match first_zero m s with Some a => a - s | None => -1 end.

(** [memcmp{L1,L2}]: [s1] is read in [m1] and [s2] in [m2]. *)
Fixpoint memcmp_n (n : nat) (m1 m2 : mem) (s1 s2 : Z) : Z :=
  match n with
  | O => 0
  | S n => if rd m1 s1 =? rd m2 s2 then memcmp_n n m1 m2 (s1 + 1) (s2 + 1)
           else u8 (rd m1 s1) - u8 (rd m2 s2)
  end.
Definition memcmp_l (m1 m2 : mem) (s1 s2 n : Z) : Z := memcmp_n (Z.to_nat n) m1 m2 s1 s2.

(** [\exists int i; 0 <= i < n && s[i] == c]. *)
Definition memchr_l (m : mem) (s c n : Z) : bool :=
  existsb (fun i => rd m (s + i) =? c) (seqZ 0 (Z.min n (2 ^ 31))).
Definition memset_l (m : mem) (s c n : Z) : bool :=
  forallb (fun i => rd m (s + i) =? c) (seqZ 0 n).

Definition strcmp_l (m : mem) (s1 s2 : Z) : Z :=
  let n1 := strlen_l m s1 in
  let n2 := strlen_l m s2 in
  if (n1 <? 0) && (n2 <? 0) then 0
  else if n1 <? 0 then 1 else if n2 <? 0 then -1
  else memcmp_l m m s1 s2 (Z.min n1 n2 + 1).
Definition strncmp_l (m : mem) (s1 s2 n : Z) : Z :=
  if (strlen_l m s1 <? n) && (strcmp_l m s1 s2 =? 0) then 0 else memcmp_l m m s1 s2 n.
Definition strchr_l (m : mem) (s c : Z) : bool :=
  existsb (fun i => rd m (s + i) =? s8 c) (seqZ 0 (strlen_l m s + 1)).

Definition minimum (i j : Z) : Z := if i <? j then i else j.
Definition maximum (i j : Z) : Z := if i <? j then j else i.

Section Strings.
Context `{BK : !Blocks}.

Definition valid_string (m : mem) (s : Z) : Prop :=
  0 <= strlen_l m s /\ valid m s 0 (strlen_l m s).
Definition valid_read_string (m : mem) (s : Z) : Prop :=
  0 <= strlen_l m s /\ valid m s 0 (strlen_l m s).
(** Accessible bytes are initialized. *)
Definition valid_read_nstring (m : mem) (s n : Z) : Prop :=
  valid m s 0 (n - 1) \/ valid_read_string m s.
Definition valid_string_or_null (m : mem) (s : Z) : Prop := s = NULL \/ valid_string m s.
End Strings.

(** ** The axioms *)

(** [axiomatic MemCmp], [MemChr] and [MemSet]. *)
Definition memcmp_zero (memcmp : mem -> mem -> Z -> Z -> Z -> Z) : Prop :=
  forall m1 m2 s1 s2 n, memcmp m1 m2 s1 s2 n = 0 <->
    forall i, 0 <= i < n -> rd m1 (s1 + i) = rd m2 (s2 + i).
Definition memchr_def (memchr : mem -> Z -> Z -> Z -> bool) : Prop :=
  forall m s c n, memchr m s c n = true <->
    exists i, - 2 ^ 31 <= i < 2 ^ 31 /\ 0 <= i < n /\ rd m (s + i) = c.
Definition memset_def (memset : mem -> Z -> Z -> Z -> bool) : Prop :=
  forall m s c n, memset m s c n = true <-> forall i, 0 <= i < n -> rd m (s + i) = c.

(** [axiomatic StrLen]: the axioms on [strlen] alone, and those that relate it to
    [memcmp]. *)
Record StrLen_axioms (strlen : mem -> Z -> Z) : Prop := mk_StrLen_axioms {
  strlen_pos_or_null : forall m s i, 0 <= i -> (forall j, 0 <= j < i -> rd m (s + j) <> 0) ->
    rd m (s + i) = 0 -> strlen m s = i;
  strlen_neg : forall m s, (forall i, 0 <= i -> rd m (s + i) <> 0) -> strlen m s < 0;
  strlen_before_null : forall m s i, 0 <= i < strlen m s -> rd m (s + i) <> 0;
  strlen_at_null : forall m s, 0 <= strlen m s -> rd m (s + strlen m s) = 0;
  strlen_not_zero : forall m s i, 0 <= i <= strlen m s -> rd m (s + i) <> 0 -> i < strlen m s;
  strlen_zero : forall m s i, 0 <= i <= strlen m s -> rd m (s + i) = 0 -> i = strlen m s;
  strlen_sup : forall m s i, 0 <= i -> rd m (s + i) = 0 -> 0 <= strlen m s <= i;
  strlen_shift : forall m s i, 0 <= i <= strlen m s -> strlen m (s + i) = strlen m s - i;
  strlen_create : forall m s i, 0 <= i -> rd m (s + i) = 0 -> 0 <= strlen m s <= i;
  strlen_create_shift : forall m s i k, 0 <= k <= i -> rd m (s + i) = 0 ->
    0 <= strlen m (s + k) <= i - k
}.

Record StrLen_memcmp_axioms (strlen : mem -> Z -> Z) (memcmp : mem -> mem -> Z -> Z -> Z -> Z)
  : Prop := mk_StrLen_memcmp_axioms {
  memcmp_strlen_left : forall m s1 s2 n, memcmp m m s1 s2 n = 0 -> strlen m s1 < n ->
    strlen m s1 = strlen m s2;
  memcmp_strlen_right : forall m s1 s2 n, memcmp m m s1 s2 n = 0 -> strlen m s2 < n ->
    strlen m s1 = strlen m s2;
  memcmp_strlen_shift_left : forall m s1 s2 k n, memcmp m m s1 (s2 + k) n = 0 -> 0 <= k ->
    strlen m s1 < n -> 0 <= strlen m s2 <= k + strlen m s1;
  memcmp_strlen_shift_right : forall m s1 s2 k n, memcmp m m (s1 + k) s2 n = 0 -> 0 <= k ->
    strlen m s2 < n -> 0 <= strlen m s1 <= k + strlen m s2
}.

(** [axiomatic StrCmp], [StrNCmp] and [StrChr]. *)
Definition strcmp_zero (strlen : mem -> Z -> Z) (strcmp : mem -> Z -> Z -> Z) : Prop :=
  forall m s1 s2, strcmp m s1 s2 = 0 <->
    strlen m s1 = strlen m s2 /\
    forall i, 0 <= i <= strlen m s1 -> rd m (s1 + i) = rd m (s2 + i).
Definition strncmp_zero (strlen : mem -> Z -> Z) (strcmp : mem -> Z -> Z -> Z)
  (strncmp : mem -> Z -> Z -> Z -> Z) : Prop :=
  forall m s1 s2 n, strncmp m s1 s2 n = 0 <->
    (strlen m s1 < n /\ strcmp m s1 s2 = 0) \/
    forall i, 0 <= i < n -> rd m (s1 + i) = rd m (s2 + i).
Definition strchr_def (strlen : mem -> Z -> Z) (strchr : mem -> Z -> Z -> bool) : Prop :=
  forall m s c, strchr m s c = true <->
    exists i, 0 <= i <= strlen m s /\ rd m (s + i) = s8 c.

(** ** What the logic functions compute *)

Lemma first_zero_spec m s :
  match first_zero m s with
  | Some a => s <= a /\ rd m a = 0 /\ forall x, s <= x < a -> rd m x <> 0
  | None => forall x, s <= x -> rd m x <> 0
  end.
Proof.
  assert (forall l, (forall a b, (a, b) ∈ l -> m !! a = Some b) ->
    match foldr (fun '(a, b) z =>
      if (s <=? a) && (s8 b =? 0) then Some (match z with Some x => Z.min x a | None => a end) else z)
      None l with
    | Some a => s <= a /\ rd m a = 0 /\ forall x b, (x, b) ∈ l -> s <= x < a -> s8 b <> 0
    | None => forall x b, (x, b) ∈ l -> s <= x -> s8 b <> 0
    end) as H.
  { induction l as [|[a b] l IH]; intros Hl; simpl; [set_solver|].
    assert (m !! a = Some b) as Ea by (apply Hl; set_solver).
    assert (rd m a = s8 b) as Er by (unfold rd; by rewrite Ea).
    assert (forall a b, (a, b) ∈ l -> m !! a = Some b) as Hl' by (intros; apply Hl; set_solver).
    specialize (IH Hl'). destruct (foldr _ None l) as [z|];
      destruct (Z.leb_spec s a), (Z.eqb_spec (s8 b) 0); cbn [andb].
    2-4: try (destruct IH as (H1 & H2 & H3); split_and!; [done..|];
      intros x c [[= -> ->]|Hin]%elem_of_cons Hx; [done || lia|by eapply H3]).
    - destruct IH as (H1 & H2 & H3). destruct (Z.min_spec z a) as [[? ->]|[? ->]].
      + split_and!; [done..|]. intros x c [[= -> ->]|Hin]%elem_of_cons Hx; [lia|by eapply H3].
      + split_and!; [lia|congruence|]. intros x c [[= -> ->]|Hin]%elem_of_cons Hx; [lia|].
        apply (H3 x); [done|lia].
    - split_and!; [lia|congruence|]. intros x c [[= -> ->]|Hin]%elem_of_cons Hx; [lia|].
      apply (IH x); [done|lia].
    - intros x c [[= -> ->]|Hin]%elem_of_cons Hx; [done|by eapply IH].
    - intros x c [[= -> ->]|Hin]%elem_of_cons Hx; [lia|by eapply IH].
    - intros x c [[= -> ->]|Hin]%elem_of_cons Hx; [lia|by eapply IH]. }
  specialize (H (map_to_list m) (fun a b => proj1 (elem_of_map_to_list m a b))).
  fold (first_zero m s) in H.
  assert (forall x, (forall b, (x, b) ∈ map_to_list m -> s8 b <> 0) -> rd m x <> 0) as Hrd.
  { intros x Hx. unfold rd. destruct (m !! x) as [b|] eqn:E; [|done].
    by apply Hx, elem_of_map_to_list. }
  destruct (first_zero m s) as [a|]; [destruct H as (H1 & H2 & H); split_and!; [done..|]|];
    intros x Hx; apply Hrd; intros b Hin; by apply (H x b).
Qed.

(** The two cases of [strlen]. *)
Lemma strlen_l_spec m s :
  (0 <= strlen_l m s /\ rd m (s + strlen_l m s) = 0 /\
     forall i, 0 <= i < strlen_l m s -> rd m (s + i) <> 0) \/
  (strlen_l m s = -1 /\ forall i, 0 <= i -> rd m (s + i) <> 0).
Proof.
  pose proof (first_zero_spec m s) as H. unfold strlen_l.
  destruct (first_zero m s) as [a|]; [left|right].
  - destruct H as (H1 & H2 & H3). split_and!; [lia|by replace (s + (a - s)) with a by lia|].
    intros i Hi. apply H3. lia.
  - split; [done|]. intros i Hi. apply H. lia.
Qed.

Lemma strlen_l_unique m s i : 0 <= i -> (forall j, 0 <= j < i -> rd m (s + j) <> 0) ->
  rd m (s + i) = 0 -> strlen_l m s = i.
Proof.
  intros Hi Hb Hz. destruct (strlen_l_spec m s) as [(H0 & Hz' & Hb')|[_ Hno]]; [|by destruct (Hno i)].
  destruct (Z.lt_total (strlen_l m s) i) as [Hlt|[->|Hlt]]; [|done|].
  - by destruct (Hb (strlen_l m s)).
  - by destruct (Hb' i).
Qed.

(** A terminator bounds the length. *)
Lemma strlen_l_le m s i : 0 <= i -> rd m (s + i) = 0 -> 0 <= strlen_l m s <= i.
Proof.
  intros Hi Hz. destruct (strlen_l_spec m s) as [(H0 & _ & Hb)|[_ Hno]]; [|by destruct (Hno i)].
  split; [done|]. destruct (Z.le_gt_cases (strlen_l m s) i); [done|]. by destruct (Hb i).
Qed.

Lemma strlen_l_before m s i : 0 <= i < strlen_l m s -> rd m (s + i) <> 0.
Proof. intros Hi. destruct (strlen_l_spec m s) as [(_ & _ & Hb)|[E _]]; [by apply Hb|lia]. Qed.

Lemma strlen_l_at m s : 0 <= strlen_l m s -> rd m (s + strlen_l m s) = 0.
Proof. intros H. destruct (strlen_l_spec m s) as [(_ & E & _)|[E _]]; [done|lia]. Qed.

Lemma strlen_l_shift m s i : 0 <= i <= strlen_l m s -> strlen_l m (s + i) = strlen_l m s - i.
Proof.
  intros Hi. apply strlen_l_unique; [lia| |].
  - intros j Hj. rewrite <- Z.add_assoc. apply strlen_l_before. lia.
  - replace (s + i + (strlen_l m s - i)) with (s + strlen_l m s) by lia. apply strlen_l_at. lia.
Qed.

Lemma strlen_l_axioms : StrLen_axioms strlen_l.
Proof.
  constructor.
  - intros m s i Hi Hb Hz. by apply strlen_l_unique.
  - intros m s Hno. destruct (strlen_l_spec m s) as [(H0 & E & _)|[-> _]]; [by destruct (Hno _ H0)|lia].
  - intros m s i. apply strlen_l_before.
  - intros m s. apply strlen_l_at.
  - intros m s i Hi Hn. destruct (Z.eq_dec i (strlen_l m s)) as [->|]; [|lia].
    destruct Hn. apply strlen_l_at. lia.
  - intros m s i Hi Hz. destruct (Z.eq_dec i (strlen_l m s)) as [->|]; [done|].
    exfalso. apply (strlen_l_before m s i); [lia|done].
  - intros m s i. apply strlen_l_le.
  - intros m s i. apply strlen_l_shift.
  - intros m s i. apply strlen_l_le.
  - intros m s i k Hk Hz. apply strlen_l_le; [lia|]. by replace (s + k + (i - k)) with (s + i) by lia.
Qed.

Lemma u8_s8 b b' : - 128 <= b < 128 -> - 128 <= b' < 128 -> u8 b - u8 b' = 0 -> b = b'.
Proof. unfold u8. intros. dlia. Qed.

Lemma rd_range m a : - 128 <= rd m a < 128.
Proof.
  unfold rd. destruct (m !! a) as [b|]; [|lia]. unfold s8.
  pose proof (Z.mod_pos_bound (b + 2 ^ 7) (2 ^ 8)). lia.
Qed.

Lemma memcmp_n_zero n m1 m2 s1 s2 : memcmp_n n m1 m2 s1 s2 = 0 <->
  forall i, 0 <= i < Z.of_nat n -> rd m1 (s1 + i) = rd m2 (s2 + i).
Proof.
  revert s1 s2. induction n as [|n IH]; intros s1 s2; cbn [memcmp_n]; [split; [lia|done]|].
  destruct (Z.eqb_spec (rd m1 s1) (rd m2 s2)) as [E|E].
  - rewrite IH. split; intros H i Hi.
    + destruct (Z.eq_dec i 0) as [->|]; [by rewrite !Z.add_0_r|].
      replace (s1 + i) with (s1 + 1 + (i - 1)) by lia. replace (s2 + i) with (s2 + 1 + (i - 1)) by lia.
      apply H. lia.
    + rewrite <- !Z.add_assoc. apply H. lia.
  - split; intros H.
    + destruct E. by apply u8_s8; [apply rd_range..|].
    + destruct E. specialize (H 0). rewrite !Z.add_0_r in H. apply H. lia.
Qed.

Lemma memcmp_l_eq m1 m2 s1 s2 n : memcmp_l m1 m2 s1 s2 n = 0 <->
  forall i, 0 <= i < n -> rd m1 (s1 + i) = rd m2 (s2 + i).
Proof.
  unfold memcmp_l. rewrite memcmp_n_zero. split; intros H i Hi; apply H; lia.
Qed.

Lemma memcmp_l_zero : memcmp_zero memcmp_l.
Proof. intros m1 m2 s1 s2 n. apply memcmp_l_eq. Qed.

Lemma existsb_range (f : Z -> bool) n :
  existsb f (seqZ 0 n) = true <-> exists i, 0 <= i < n /\ f i = true.
Proof.
  rewrite existsb_exists. split; intros (i & Hi & E); exists i; (split; [|done]);
    [apply list_elem_of_In, elem_of_seqZ in Hi; lia|apply list_elem_of_In, elem_of_seqZ; lia].
Qed.

Lemma memchr_l_def : memchr_def memchr_l.
Proof.
  intros m s c n. unfold memchr_l. rewrite existsb_range. setoid_rewrite Z.eqb_eq.
  split; intros (i & ? & ?); exists i; [split_and!; [lia..|done]|split; [lia|tauto]].
Qed.

Lemma memset_l_def : memset_def memset_l.
Proof.
  intros m s c n. unfold memset_l. rewrite forallb_forall. setoid_rewrite Z.eqb_eq.
  split; intros H i Hi; apply H; [apply list_elem_of_In, elem_of_seqZ; lia|
    apply list_elem_of_In, elem_of_seqZ in Hi; lia].
Qed.

Lemma strchr_l_def : strchr_def strlen_l strchr_l.
Proof.
  intros m s c. unfold strchr_l. rewrite existsb_range. setoid_rewrite Z.eqb_eq.
  split; intros (i & ? & ?); exists i; (split; [lia|done]).
Qed.

(** Terminated strings that agree up to the shorter terminator are equal. *)
Lemma memcmp_strlen m s1 s2 n1 n2 : strlen_l m s1 = n1 -> strlen_l m s2 = n2 -> 0 <= n1 -> 0 <= n2 ->
  (forall i, 0 <= i <= Z.min n1 n2 -> rd m (s1 + i) = rd m (s2 + i)) -> n1 = n2.
Proof.
  intros E1 E2 H1 H2 H. pose proof (strlen_l_at m s1) as Z1. pose proof (strlen_l_at m s2) as Z2.
  rewrite E1, E2 in *. destruct (Z.lt_total n1 n2) as [Hlt|[?|Hlt]]; [|done|]; exfalso.
  - apply (strlen_l_before m s2 n1); [lia|]. rewrite <- H by lia. auto.
  - apply (strlen_l_before m s1 n2); [lia|]. rewrite H by lia. auto.
Qed.

Lemma strcmp_l_zero : strcmp_zero strlen_l strcmp_l.
Proof.
  intros m s1 s2. unfold strcmp_l.
  pose proof (strlen_l_spec m s1) as H1. pose proof (strlen_l_spec m s2) as H2.
  set (n1 := strlen_l m s1) in *. set (n2 := strlen_l m s2) in *.
  destruct (Z.ltb_spec n1 0), (Z.ltb_spec n2 0); cbn [andb].
  - split; [|done]. intros _. split; [lia|]. intros i Hi. lia.
  - split; [done|]. lia.
  - split; [done|]. lia.
  - rewrite memcmp_l_eq. split.
    + intros Heq. assert (n1 = n2) as E; [|split; [done|intros i Hi; apply Heq; lia]].
      apply (memcmp_strlen m s1 s2); [done..|]. intros i Hi. apply Heq. lia.
    + intros [E Heq] i Hi. apply Heq. lia.
Qed.

Lemma strncmp_l_zero : strncmp_zero strlen_l strcmp_l strncmp_l.
Proof.
  intros m s1 s2 n. unfold strncmp_l.
  destruct (Z.ltb_spec (strlen_l m s1) n), (Z.eqb_spec (strcmp_l m s1 s2) 0); cbn [andb];
    rewrite ?memcmp_l_eq; (split; [by auto|]); try (intros [[? ?]|H']; [lia|done]); done.
Qed.

(** The axioms that relate [strlen] and [memcmp] hold of terminated strings. *)
Lemma memcmp_strlen_guarded m s1 s2 n : memcmp_l m m s1 s2 n = 0 -> 0 <= strlen_l m s1 < n ->
  strlen_l m s1 = strlen_l m s2.
Proof.
  intros H Hn. rewrite memcmp_l_eq in H. symmetry. apply strlen_l_unique; [lia| |].
  - intros j Hj. rewrite <- H by lia. by apply strlen_l_before.
  - rewrite <- H by lia. apply strlen_l_at. lia.
Qed.

Lemma memcmp_strlen_shift_guarded m s1 s2 k n : memcmp_l m m s1 (s2 + k) n = 0 -> 0 <= k ->
  0 <= strlen_l m s1 < n -> 0 <= strlen_l m s2 <= k + strlen_l m s1.
Proof.
  intros H Hk Hn. rewrite memcmp_l_eq in H. apply strlen_l_le; [lia|].
  replace (s2 + (k + strlen_l m s1)) with (s2 + k + strlen_l m s1) by lia.
  rewrite <- H by lia. apply strlen_l_at. lia.
Qed.

(** The logic functions of __fc_string_axiomatic.h exist: [memcmp_l], [memchr_l],
    [memset_l], [strlen_l], [strcmp_l], [strncmp_l] and [strchr_l], which compute on
    the bytes of a memory, satisfy the axioms of MemCmp, MemChr, MemSet, StrCmp,
    StrNCmp and StrChr, the axioms of StrLen on [strlen], and, for terminated
    strings, those of StrLen that relate it to [memcmp]. *)
Theorem string_logic_consistent :
  memcmp_zero memcmp_l /\ memchr_def memchr_l /\ memset_def memset_l /\ StrLen_axioms strlen_l /\
  strcmp_zero strlen_l strcmp_l /\ strncmp_zero strlen_l strcmp_l strncmp_l /\
  strchr_def strlen_l strchr_l /\
  (forall m s1 s2 n, memcmp_l m m s1 s2 n = 0 -> 0 <= strlen_l m s1 < n ->
     strlen_l m s1 = strlen_l m s2) /\
  (forall m s1 s2 k n, memcmp_l m m s1 (s2 + k) n = 0 -> 0 <= k -> 0 <= strlen_l m s1 < n ->
     0 <= strlen_l m s2 <= k + strlen_l m s1).
Proof.
  split_and?; [apply memcmp_l_zero|apply memchr_l_def|apply memset_l_def|apply strlen_l_axioms|
    apply strcmp_l_zero|apply strncmp_l_zero|apply strchr_l_def|apply memcmp_strlen_guarded|
    apply memcmp_strlen_shift_guarded].
Qed.

(** The axioms of StrLen are contradictory as they are written: those that relate
    [strlen] and [memcmp] do not ask that the string be terminated, and for [n = 0]
    they bound a length by the negative "length" of an unterminated array. *)
Theorem strlen_axioms_contradictory (strlen : mem -> Z -> Z)
  (memcmp : mem -> mem -> Z -> Z -> Z -> Z) :
  ~ (memcmp_zero memcmp /\ StrLen_axioms strlen /\ StrLen_memcmp_axioms strlen memcmp).
Proof.
  intros (Hm & Hs & Hx). assert (strlen ∅ 0 < 0) as Hneg by by apply (strlen_neg _ Hs).
  destruct (memcmp_strlen_shift_left _ _ Hx ∅ 0 0 0 0); [|lia|lia|lia]. apply Hm. lia.
Qed.
