(* ===== verification/StringContracts.v ===== *)
(** * The contracts of share/libc/string.h

    The ACSL contracts of the functions of string.c, clause by clause, and the proof
    that the code meets them.  Where the code does not meet its contract, a theorem
    at the end of the file says so. *)

From S2P Require Import Prelude LibcString LibcStringSpec AcslString.

(** ** The contracts *)

Section Contracts.
Context `{BK : !Blocks}.

(** [memchr_off]: the header gives it no axiom; the offset at which [c] appears,
    the last of the [n] offsets if it does not. *)
Definition memchr_off_l (m : mem) (s c n : Z) : Z :=
  match list_find (fun i => rd m (s + i) = c) (seqZ 0 n) with
  | Some (_, i) => i
  | None => n - 1
  end.

Definition memcmp_contract (s1 s2 n : Z) : contract Z := {|
  requires m := valid_read_or_empty m s1 n /\ valid_read_or_empty m s2 n /\
    initialized m s1 0 (n - 1) /\ initialized m s2 0 (n - 1);
  assigns := nothing;
  ensures m r m' := r = memcmp_l m m s1 s2 n
|}.

Definition memchr_contract (s c n : Z) : contract Z := {|
  requires m :=
    (valid_read_or_empty m s n \/ valid m s 0 (memchr_off_l m s c n)) /\
    (initialized m s 0 (n - 1) \/ initialized m s 0 (memchr_off_l m s c n));
  assigns := nothing;
  ensures m r m' :=
    (* behavior found *)
    (memchr_l m s c n = true ->
       base_addr r = base_addr s /\ rd m' r = c /\
       (forall i, 0 <= i < n -> m !! (s + i) = Some c -> r <= s + i)) /\
    (* behavior not_found *)
    (memchr_l m s c n = false -> r = NULL)
|}.

Definition memcpy_contract (dest src n : Z) : contract Z := {|
  requires m := valid_or_empty m dest n /\ valid_read_or_empty m src n /\
    separated_ranges dest (n - 1) src (n - 1);
  assigns m := range dest 0 (n - 1);
  ensures m r m' := memcmp_l m' m dest src n = 0 /\ r = dest
|}.

Definition memmove_contract (dest src n : Z) : contract Z := {|
  requires m := valid_or_empty m dest n /\ valid_read_or_empty m src n;
  assigns m := range dest 0 (n - 1);
  ensures m r m' := memcmp_l m' m dest src n = 0 /\ r = dest
|}.

Definition memset_contract (s c n : Z) : contract Z := {|
  requires m := valid_or_empty m s n;
  assigns m := range s 0 (n - 1);
  ensures m r m' := memset_l m' s c n = true /\ r = s
|}.

Definition strlen_contract (s : Z) : contract Z := {|
  requires m := valid_read_string m s;
  assigns := nothing;
  ensures m r m' := r = strlen_l m s
|}.

Definition strnlen_contract (s n : Z) : contract Z := {|
  requires m := valid_read_nstring m s n;
  assigns := nothing;
  ensures m r m' := r = strlen_l m s \/ r = n
|}.

Definition strcmp_contract (s1 s2 : Z) : contract Z := {|
  requires m := valid_read_string m s1 /\ valid_read_string m s2;
  assigns := nothing;
  ensures m r m' := r = strcmp_l m s1 s2
|}.

Definition strncmp_contract (s1 s2 n : Z) : contract Z := {|
  requires m := valid_read_nstring m s1 n /\ valid_read_nstring m s2 n;
  assigns := nothing;
  ensures m r m' := r = strncmp_l m s1 s2 n
|}.

Definition strchr_contract (s c : Z) : contract Z := {|
  requires m := valid_read_string m s;
  assigns := nothing;
  ensures m r m' :=
    (* behavior found *)
    (strchr_l m s c = true ->
       rd m' r = s8 c /\ base_addr r = base_addr s /\ s <= r <= s + strlen_l m' s /\
       valid_read_string m' r /\ (forall p, s <= p < r -> rd m' p <> s8 c)) /\
    (* behavior not_found *)
    (strchr_l m s c = false -> r = NULL) /\
    (* behavior default *)
    (r = NULL \/ base_addr r = base_addr s)
|}.

Definition strrchr_contract (s c : Z) : contract Z := {|
  requires m := valid_read_string m s;
  assigns := nothing;
  ensures m r m' :=
    (* behavior found *)
    (strchr_l m s c = true -> rd m' r = c /\ base_addr r = base_addr s /\ valid_read_string m' r) /\
    (* behavior not_found *)
    (strchr_l m s c = false -> r = NULL) /\
    (* behavior default *)
    (r = NULL \/ base_addr r = base_addr s)
|}.

(** [\subset(\result, haystack+(0..))]: an address of the block, not before. *)
Definition strstr_contract (haystack needle : Z) : contract Z := {|
  requires m := valid_read_string m haystack /\ valid_read_string m needle;
  assigns := nothing;
  ensures m r m' :=
    r = NULL \/ haystack <= r /\ base_addr r = base_addr haystack /\ valid m' r 0 0 /\
      memcmp_l m m r needle (strlen_l m' needle) = 0
|}.

Definition strcpy_contract (dest src : Z) : contract Z := {|
  requires m := valid_read_string m src /\ valid m dest 0 (strlen_l m src) /\
    separated_ranges dest (strlen_l m src) src (strlen_l m src);
  assigns m := range dest 0 (strlen_l m src);
  ensures m r m' := strcmp_l m' dest src = 0 /\ r = dest
|}.

Definition strncpy_contract (dest src n : Z) : contract Z := {|
  requires m := valid_read_string m src /\ valid m dest 0 (n - 1) /\
    separated_ranges dest (n - 1) src (n - 1);
  assigns m := range dest 0 (n - 1);
  ensures m r m' := r = dest /\ initialized m' dest 0 (n - 1) /\
    (* behavior complete *)
    (strlen_l m src < n -> strcmp_l m' dest src = 0) /\
    (* behavior partial *)
    (n <= strlen_l m src -> memcmp_l m' m' dest src n = 0)
|}.

Definition strcat_contract (dest src : Z) : contract Z := {|
  requires m := valid_read_string m src /\ valid_string m dest /\
    valid m dest 0 (strlen_l m dest + strlen_l m src);
  assigns m := range dest (strlen_l m dest) (strlen_l m dest + strlen_l m src);
  ensures m r m' :=
    strlen_l m' dest = strlen_l m dest + strlen_l m src /\
    initialized m' dest 0 (strlen_l m dest + strlen_l m src) /\
    rd m' (dest + (strlen_l m dest + strlen_l m src)) = 0 /\ r = dest
|}.

(** The assumption of [behavior complete]. *)
Definition strncat_fits (m : mem) (src n : Z) : Prop := valid_read_string m src /\ strlen_l m src <= n.
Definition strncat_contract (dest src n : Z) : contract Z := {|
  requires m := valid_read_nstring m src n /\ valid_string m dest /\
    (strncat_fits m src n -> valid m (dest + strlen_l m dest) 0 (strlen_l m src)) /\
    (~ strncat_fits m src n -> valid m (dest + strlen_l m dest) 0 n);
  assigns m a := range dest (strlen_l m dest) (strlen_l m dest + n) a /\
    (strncat_fits m src n -> range dest (strlen_l m dest) (strlen_l m dest + strlen_l m src) a);
  ensures m r m' := r = dest /\
    (strncat_fits m src n -> strlen_l m' dest = strlen_l m dest + strlen_l m src) /\
    (~ strncat_fits m src n -> strlen_l m' dest = strlen_l m dest + n)
|}.
End Contracts.

(** ** Strings and lists of bytes *)

Lemma rd_some m a b : m !! a = Some b -> rd m a = s8 b.
Proof. intros E. unfold rd. by rewrite E. Qed.

Lemma s8_inj b b' : in_u 8 b -> in_u 8 b' -> s8 b = s8 b' -> b = b'.
Proof. unfold s8, in_u. intros. dlia. Qed.

Lemma s8_u8 c : s8 (u8 c) = s8 c.
Proof. unfold s8, u8. by rewrite Zplus_mod_idemp_l. Qed.

Lemma u8_s8_byte b : in_u 8 b -> u8 (s8 b) = b.
Proof. unfold s8, u8, in_u. intros. dlia. Qed.

Lemma s8_id c : - 128 <= c < 128 -> s8 c = c.
Proof. unfold s8. intros. dlia. Qed.

Lemma s8_zero b : in_u 8 b -> s8 b = 0 <-> b = 0.
Proof. unfold s8, in_u. intros. dlia. Qed.

Lemma rd_zero m a : mem_ok m -> rd m a = 0 <-> m !! a = Some 0.
Proof.
  intros Hm. unfold rd. destruct (m !! a) as [b|] eqn:E; [|done].
  rewrite (s8_zero b) by by apply (Hm _ _ E). split; congruence.
Qed.

Lemma rd_frame m m' a : m' !! a = m !! a -> rd m' a = rd m a.
Proof. intros E. unfold rd. by rewrite E. Qed.

(** The length of a string of the model, and back. *)
Lemma cstr_strlen m s l : cstr m s l -> strlen_l m s = Z.of_nat (length l).
Proof.
  intros [Hb Hl]. apply strlen_l_unique; [lia| |].
  - intros j Hj. destruct (lookup_lt_is_Some_2 l (Z.to_nat j)) as [b E]; [lia|].
    specialize (Hb (Z.to_nat j) b). rewrite Z2Nat.id in Hb by lia.
    rewrite (rd_some _ _ b) by (apply Hb; by apply lookup_app_l_Some).
    apply (Forall_lookup_1 _ _ _ _ Hl) in E. rewrite (s8_zero b) by (unfold in_u; lia). lia.
  - rewrite (rd_some _ _ 0); [done|]. apply Hb. by apply list_lookup_middle.
Qed.

(** The bytes of an accessible range. *)
Lemma accessible_bytes m a n : accessible m a (Z.of_nat n) -> exists l, length l = n /\ bytes m a l.
Proof.
  revert a. induction n as [|n IH]; intros a Ha; [exists []; split; [done|apply bytes_nil]|].
  destruct (Ha a) as [b E]; [lia|]. destruct (IH (a + 1)) as (l & Hl & Hb).
  { eapply accessible_sub; [exact Ha|lia..]. }
  exists (b :: l). split; [simpl; lia|]. by apply bytes_cons.
Qed.

Lemma strlen_cstr_ex m s : mem_ok m -> 0 <= strlen_l m s -> accessible m s (strlen_l m s + 1) ->
  exists l, cstr m s l /\ Z.of_nat (length l) = strlen_l m s.
Proof.
  intros Hm H0 Ha. destruct (accessible_bytes m s (Z.to_nat (strlen_l m s))) as (l & Hl & Hb).
  { eapply accessible_sub; [exact Ha|lia..]. }
  exists l. split; [|lia]. split.
  - apply bytes_app. split; [done|]. rewrite bytes_cons. split; [|apply bytes_nil].
    apply rd_zero; [done|]. rewrite Hl, Z2Nat.id by lia. by apply strlen_l_at.
  - apply Forall_lookup_2. intros i b E. pose proof (Hb i b E) as Eb.
    pose proof (Hm _ _ Eb) as H8. cbv beta in H8. apply lookup_lt_Some in E.
    assert (b <> 0) as Hn; [|unfold in_u in H8; lia].
    intros ->. apply (strlen_l_before m s (Z.of_nat i)); [lia|]. by apply rd_zero.
Qed.

(** ** Proofs of contracts *)

Section Proofs.
Context `{BK : !Blocks}.

Lemma meets_pure {R : Type} (f : mem -> outcome R) (c : contract R) :
  (forall m, mem_ok m -> requires c m -> exists r, f m = Ret r /\ ensures c m r m) ->
  meets (pure_fun f) c.
Proof.
  intros H m Hm Hr. destruct (H m Hm Hr) as (r & E & He). exists r, m. unfold pure_fun. by rewrite E.
Qed.

Lemma valid_accessible m p lo hi : valid m p lo hi -> accessible m (p + lo) (hi - lo + 1).
Proof. intros H a Ha. apply H. unfold range. lia. Qed.

Lemma valid_sub m p lo hi lo' hi' : valid m p lo hi -> lo <= lo' -> hi' <= hi -> valid m p lo' hi'.
Proof. intros H H1 H2 a Ha. apply H. unfold range in *. lia. Qed.

(** A range of bytes that exists starts in its block. *)
Lemma valid_at m p lo hi a : valid m p lo hi -> range p lo hi a ->
  is_Some (m !! a) /\ 0 < a < 2 ^ 64 - 1 /\ base_addr a = base_addr p.
Proof. intros H Ha. destruct (H a Ha) as (H1 & H2 & H3 & _). done. Qed.

Lemma valid_or_empty_acc m s n : valid_or_empty m s n -> accessible m s n.
Proof. intros [_ H] a Ha. apply H. unfold range. lia. Qed.

(** Addresses of one block see the same valid ranges. *)
Lemma valid_shift m p lo hi q : valid m p lo hi -> base_addr q = base_addr p ->
  valid m q (lo - (q - p)) (hi - (q - p)).
Proof.
  intros H E a Ha. destruct (H a) as (H1 & H2 & H3 & H4); [unfold range in *; lia|].
  split; [done|]. split; [done|]. unfold in_block.
  by rewrite <- (block_length_base q), E, block_length_base.
Qed.

(** An empty block has no bytes, so that only its first byte may be missing. *)
Lemma valid_read_or_empty_acc m s n : valid_read_or_empty m s n -> (n = 1 -> ~ empty_block s) ->
  accessible m s n.
Proof.
  intros [H0 H1] Hn a Ha. destruct (Z.eq_dec a s) as [->|Hne].
  - destruct H0 as [He|H0]; [|apply H0; unfold range; lia].
    destruct (Z.eq_dec n 1) as [E|]; [by destruct (Hn E)|].
    destruct (H1 (s + 1)) as (_ & _ & _ & Hb); [unfold range; lia|]. destruct He as [He1 He2]. lia.
  - apply H1. unfold range. lia.
Qed.

Lemma valid_read_or_empty_bounds m s n : valid_read_or_empty m s n -> accessible m s n -> 0 < n ->
  ~ empty_block s -> 0 <= s /\ s + n < 2 ^ 64.
Proof.
  intros [H0 H1] Ha Hn He. destruct H0 as [|H0]; [done|].
  destruct (valid_at m s 0 0 s H0) as (_ & ? & _); [unfold range; lia|].
  destruct (Z.eq_dec n 1) as [->|]; [lia|].
  destruct (valid_at m s 1 (n - 1) (s + (n - 1)) H1) as (_ & ? & _); [unfold range; lia|]. lia.
Qed.

Lemma valid_string_cstr m s : mem_ok m -> valid_read_string m s ->
  exists l, cstr m s l /\ Z.of_nat (length l) = strlen_l m s.
Proof.
  intros Hm [H0 Hv]. apply strlen_cstr_ex; [done|done|]. apply valid_accessible in Hv.
  by rewrite Z.add_0_r, Z.sub_0_r in Hv.
Qed.

(** *** Blocks *)

Lemma memcmp_loop_value n m p1 p2 i : mem_ok m ->
  accessible m (p1 + i) (Z.of_nat n) -> accessible m (p2 + i) (Z.of_nat n) ->
  memcmp_loop n m p1 p2 i = Ret (memcmp_n n m m (p1 + i) (p2 + i)).
Proof.
  intros Hm. revert i. induction n as [|n IH]; intros i H1 H2; [done|]. cbn [memcmp_loop memcmp_n].
  destruct (H1 (p1 + i)) as [a Ea]; [lia|]. destruct (H2 (p2 + i)) as [b Eb]; [lia|].
  pose proof (Hm _ _ Ea) as Ha8. pose proof (Hm _ _ Eb) as Hb8. cbv beta in *.
  rewrite (load8_ok _ _ _ Ea), (load8_ok _ _ _ Eb), (rd_some _ _ _ Ea), (rd_some _ _ _ Eb).
  cbn [obind]. destruct (Z.eqb_spec a b) as [->|Hne]; cbn [negb].
  - rewrite Z.eqb_refl, <- !Z.add_assoc. rewrite IH; [by rewrite !Z.add_assoc| |];
      [eapply accessible_sub; [exact H1|lia..]|eapply accessible_sub; [exact H2|lia..]].
  - rewrite (proj2 (Z.eqb_neq (s8 a) (s8 b))) by (intros E; apply Hne; by apply s8_inj).
    by rewrite !u8_s8_byte.
Qed.

Lemma memcmp_meets s1 s2 n : in_u 64 n -> meets (pure_fun (fun m => memcmp m s1 s2 n)) (memcmp_contract s1 s2 n).
Proof.
  intros Hn. apply meets_pure. intros m Hm (_ & _ & H1 & H2). exists (memcmp_l m m s1 s2 n).
  split; [|done]. unfold memcmp. unfold in_u in Hn.
  rewrite memcmp_loop_value; [by rewrite !Z.add_0_r|done|..]; intros a Ha; [apply H1|apply H2];
    unfold range; lia.
Qed.

(** The copy of a block, as [memcpy] and [memmove] leave it. *)
Lemma copied_block m m' dest src n : 0 <= n ->
  (forall x, m' !! x = if decide (dest <= x < dest + n) then m !! (x - dest + src) else m !! x) ->
  memcmp_l m' m dest src n = 0 /\ forall a, ~ range dest 0 (n - 1) a -> m' !! a = m !! a.
Proof.
  intros Hn Hx. split.
  - apply memcmp_l_eq. intros i Hi. unfold rd. rewrite Hx, decide_True by lia.
    by replace (dest + i - dest + src) with (src + i) by lia.
  - intros a Ha. rewrite Hx. case_decide; [|done]. destruct Ha. unfold range. lia.
Qed.

Lemma memcpy_meets dest src n : in_u 64 n -> (n = 1 -> ~ empty_block src) ->
  meets (fun m => memcpy m dest src n) (memcpy_contract dest src n).
Proof.
  intros Hn He m Hm (Hd & Hs & Hsep). unfold in_u in Hn.
  destruct (copy_up m dest src n) as (m' & E & Hdm & Hx);
    [done|lia|by apply valid_read_or_empty_acc|by apply valid_or_empty_acc| |].
  { destruct (Z.le_gt_cases dest src); [by left|]. right.
    destruct (Z.le_gt_cases (src + n) dest); [done|]. destruct (Hsep dest). unfold range. lia. }
  destruct (copied_block m m' dest src n) as [Hc Ha]; [lia|done|].
  exists dest, m'. unfold memcpy. rewrite E. by split_and!.
Qed.

Lemma memmove_meets dest src n : in_u 64 n -> ~ empty_block src -> ~ empty_block dest ->
  meets (fun m => memmove m dest src n) (memmove_contract dest src n).
Proof.
  intros Hn Hes Hed m Hm (Hd & Hs). unfold in_u in Hn.
  pose proof (valid_read_or_empty_acc m src n Hs (fun _ => Hes)) as Has.
  pose proof (valid_or_empty_acc _ _ _ Hd) as Had.
  destruct (Z.eq_dec n 0) as [->|Hnz].
  { by exists dest, m. }
  destruct (valid_read_or_empty_bounds m src n Hs Has ltac:(lia) Hes) as [B1 B2].
  assert (0 <= dest /\ dest + n < 2 ^ 64) as [B3 B4].
  { destruct Hd as [_ Hd]. destruct (valid_at m dest 0 (n - 1) dest Hd) as (_ & ? & _); [unfold range; lia|].
    destruct (valid_at m dest 0 (n - 1) (dest + (n - 1)) Hd) as (_ & ? & _); [unfold range; lia|]. lia. }
  destruct (memmove_spec m dest src n) as (m' & E & Hdm & Hx); try done; [lia|].
  destruct (copied_block m m' dest src n) as [Hc Ha]; [lia|done|].
  exists dest, m'. by split_and!.
Qed.

Lemma memset_meets s c n : in_u 64 n -> - 128 <= c < 128 ->
  meets (fun m => memset m s c n) (memset_contract s c n).
Proof.
  intros Hn Hc m Hm Hs. unfold in_u in Hn.
  destruct (fill_range m s c 0 n) as (m' & E & Hd & Hx);
    [lia|rewrite Z.add_0_r, Z.sub_0_r; by apply valid_or_empty_acc|].
  exists s, m'. unfold memset. rewrite E. split; [done|]. split; [split; [|done]|split; [done|]].
  - apply memset_l_def. intros i Hi. unfold rd. rewrite Hx, decide_True by lia.
    by rewrite s8_u8, s8_id.
  - intros a Ha. rewrite Hx. case_decide; [|done]. destruct Ha. cbn. unfold range. lia.
Qed.

Lemma s8_eq_u8 b c : in_u 8 b -> s8 b = s8 c <-> b = u8 c.
Proof.
  intros Hb. rewrite <- (s8_u8 c). split; [|congruence]. apply s8_inj; [done|].
  unfold u8, in_u. apply Z.mod_pos_bound. lia.
Qed.

(** The search in a block whose bytes are accessible up to the first occurrence. *)
Lemma memchr_loop_value n m s ch i : mem_ok m ->
  (forall j, 0 <= j < Z.of_nat n -> (forall k, 0 <= k < j -> m !! (s + i + k) <> Some ch) ->
     is_Some (m !! (s + i + j))) ->
  exists r, memchr_loop n m s ch i = Ret r /\
    ((exists j, 0 <= j < Z.of_nat n /\ r = s + i + j /\ m !! r = Some ch /\
        forall k, 0 <= k < j -> m !! (s + i + k) <> Some ch) \/
     (r = NULL /\ forall k, 0 <= k < Z.of_nat n -> m !! (s + i + k) <> Some ch)).
Proof.
  intros Hm. revert i. induction n as [|n IH]; intros i Hacc; cbn [memchr_loop].
  { exists NULL. split; [done|]. right. split; [done|lia]. }
  destruct (Hacc 0) as [b Eb]; [lia|lia|]. rewrite Z.add_0_r in Eb.
  rewrite (load8_ok _ _ _ Eb). cbn [obind]. destruct (Z.eqb_spec b ch) as [->|Hne].
  { eexists. split; [done|]. left. exists 0. split_and!; [lia..|done|lia]. }
  assert (forall k, 0 <= k < Z.of_nat (S n) -> (k = 0 \/ m !! (s + (i + 1) + (k - 1)) <> Some ch) ->
    m !! (s + i + k) <> Some ch) as Hstep.
  { intros k Hk [->|H]; [rewrite Z.add_0_r; congruence|].
    by replace (s + i + k) with (s + (i + 1) + (k - 1)) by lia. }
  destruct (IH (i + 1)) as (r & -> & Hr).
  { intros j Hj Hb. replace (s + (i + 1) + j) with (s + i + (j + 1)) by lia. apply Hacc; [lia|].
    intros k Hk. apply Hstep; [lia|]. destruct (Z.eq_dec k 0); [by left|]. right. apply Hb. lia. }
  exists r. split; [done|]. destruct Hr as [(j & Hj & -> & E & Hb)|[-> Hb]]; [left|right].
  - exists (j + 1). split_and!; [lia|lia|lia|done|]. intros k Hk. apply Hstep; [lia|].
    destruct (Z.eq_dec k 0); [by left|]. right. apply Hb. lia.
  - split; [done|]. intros k Hk. apply Hstep; [lia|].
    destruct (Z.eq_dec k 0); [by left|]. right. apply Hb. lia.
Qed.

Lemma memchr_off_spec m s c n :
  let off := memchr_off_l m s c n in
  (0 <= off < n /\ rd m (s + off) = c /\ forall i, 0 <= i < off -> rd m (s + i) <> c) \/
  (off = n - 1 /\ forall i, 0 <= i < n -> rd m (s + i) <> c).
Proof.
  unfold memchr_off_l. destruct (list_find _ _) as [[k i]|] eqn:El; [left|right; split; [done|]].
  - apply list_find_Some in El as (El & Hrd & Hb). apply lookup_seqZ in El as [-> Hk].
    split_and!; [lia..|done|]. intros i Hi. apply (Hb (Z.to_nat i)); [|lia].
    apply lookup_seqZ. lia.
  - intros i Hi Hrd. apply list_find_None in El. rewrite Forall_forall in El.
    apply (El i); [apply elem_of_seqZ; lia|done].
Qed.

Lemma memchr_meets s c n : 0 <= n <= 2 ^ 31 -> - 128 <= c < 128 ->
  meets (pure_fun (fun m => memchr m s c n)) (memchr_contract s c n).
Proof.
  intros Hn Hc. apply meets_pure. intros m Hm [Hv Hi].
  assert (forall a, m !! a = Some (u8 c) <-> is_Some (m !! a) /\ rd m a = c) as Hch.
  { intros a. unfold rd. destruct (m !! a) as [b|] eqn:E; [|naive_solver].
    rewrite <- (s8_id c Hc) at 2. pose proof (Hm _ _ E) as Hb. cbv beta in Hb.
    rewrite (s8_eq_u8 b c Hb). naive_solver. }
  pose proof (memchr_off_spec m s c n) as Hoff. set (off := memchr_off_l m s c n) in *.
  assert (off <= n - 1) as Hle by (destruct Hoff as [(? & _)|[? _]]; lia).
  assert (accessible m s (off + 1)) as Hacc.
  { destruct Hi as [Hi|Hi]; intros a Ha; apply Hi; unfold range; lia. }
  destruct (memchr_loop_value (Z.to_nat n) m s (u8 c) 0 Hm) as (r & E & Hr).
  { rewrite Z.add_0_r. intros j Hj Hb. apply Hacc. destruct Hoff as [(Ho & Hrd & _)|[? _]]; [|lia].
    destruct (Z.le_gt_cases j off); [lia|]. exfalso. apply (Hb off); [lia|].
    apply Hch. split; [apply Hacc; lia|done]. }
  rewrite Z.add_0_r in Hr. exists r. split; [exact E|]. split.
  - intros (i & _ & Hin & Hrd)%memchr_l_def.
    destruct Hoff as [(Ho & Hro & Hbo)|[_ Hno]]; [|by destruct (Hno i)].
    assert (m !! (s + off) = Some (u8 c)) as Eoff by (apply Hch; split; [apply Hacc; lia|done]).
    destruct Hr as [(j & Hj & -> & Ej & Hb)|[-> Hb]]; [|by destruct (Hb off); [lia|]].
    assert (j <= off) as Hjo by (destruct (Z.le_gt_cases j off); [lia|by destruct (Hb off); [lia|]]).
    split_and!; [|by apply Hch|].
    + destruct (Z.eq_dec j 0) as [->|]; [by rewrite Z.add_0_r|].
      destruct Hv as [[_ Hv]|Hv]; eapply (valid_at m s _ _ (s + j) Hv); unfold range; lia.
    + intros i' Hi' E'. destruct (Z.le_gt_cases j i'); [lia|]. exfalso. apply (Hb i'); [lia|].
      rewrite E'. f_equal. symmetry. apply u8_small. by apply (Hm _ _ E').
  - intros Hf. destruct Hr as [(j & Hj & -> & Ej & Hb)|[-> _]]; [|done]. exfalso.
    assert (memchr_l m s c n = true) as Ht; [|congruence].
    apply memchr_l_def. exists j. split_and!; [lia..|]. by apply Hch.
Qed.
(** *** Queries on strings *)

Lemma strlen_meets s : meets (pure_fun (fun m => strlen m s)) (strlen_contract s).
Proof.
  apply meets_pure. intros m Hm Hv. destruct (valid_string_cstr m s Hm Hv) as (l & Hl & E).
  exists (strlen_l m s). rewrite <- E at 1. split; [by apply strlen_cstr|done].
Qed.

(** A loop that stops at the terminator reads a valid array or string. *)
Lemma nstring_some m s n j : mem_ok m -> valid_read_nstring m s n -> 0 <= j < n ->
  (forall k, 0 <= k < j -> rd m (s + k) <> 0) -> is_Some (m !! (s + j)).
Proof.
  intros Hm [Hv|[H0 Hv]] Hj Hb; [apply Hv; unfold range; lia|].
  apply Hv. unfold range. split; [lia|]. destruct (Z.le_gt_cases j (strlen_l m s)); [lia|].
  exfalso. apply (Hb (strlen_l m s)); [lia|]. by apply strlen_l_at.
Qed.

Lemma strnlen_loop_value n m s i : mem_ok m ->
  (forall j, 0 <= j < Z.of_nat n -> (forall k, 0 <= k < j -> rd m (s + i + k) <> 0) ->
     is_Some (m !! (s + i + j))) ->
  exists j, strnlen_loop n m s i = Ret (i + j) /\ 0 <= j <= Z.of_nat n /\
    (forall k, 0 <= k < j -> rd m (s + i + k) <> 0) /\
    (j = Z.of_nat n \/ rd m (s + i + j) = 0).
Proof.
  intros Hm. revert i. induction n as [|n IH]; intros i Hacc; cbn [strnlen_loop].
  { exists 0. split; [f_equal; lia|]. split_and!; [lia..|auto]. }
  destruct (Hacc 0) as [b Eb]; [lia|lia|]. rewrite Z.add_0_r in Eb.
  rewrite (load8_ok _ _ _ Eb). cbn [obind]. pose proof (Hm _ _ Eb) as Hb8. cbv beta in Hb8.
  destruct (Z.eqb_spec b 0) as [->|Hne].
  { exists 0. rewrite !Z.add_0_r, (rd_some _ _ _ Eb). split_and!; [done|lia|lia|lia|by right]. }
  assert (rd m (s + i) <> 0) as Hnz by (rewrite (rd_some _ _ _ Eb), (s8_zero b) by done; done).
  assert (forall k, (k = 0 \/ rd m (s + (i + 1) + (k - 1)) <> 0) -> rd m (s + i + k) <> 0) as Hstep.
  { intros k [->|H]; [by rewrite Z.add_0_r|].
    by replace (s + i + k) with (s + (i + 1) + (k - 1)) by lia. }
  destruct (IH (i + 1)) as (j & -> & Hj & Hb & He).
  { intros j Hj Hb. replace (s + (i + 1) + j) with (s + i + (j + 1)) by lia. apply Hacc; [lia|].
    intros k Hk. apply Hstep. destruct (Z.eq_dec k 0); [by left|]. right. apply Hb. lia. }
  exists (j + 1). split_and!; [f_equal; lia|lia|lia| |].
  - intros k Hk. apply Hstep. destruct (Z.eq_dec k 0); [by left|]. right. apply Hb. lia.
  - destruct He as [->|He]; [left; lia|right]. by replace (s + i + (j + 1)) with (s + (i + 1) + j) by lia.
Qed.

Lemma strnlen_meets s n : in_u 64 n -> meets (pure_fun (fun m => strnlen m s n)) (strnlen_contract s n).
Proof.
  intros Hn. apply meets_pure. intros m Hm Hv. unfold in_u in Hn.
  destruct (strnlen_loop_value (Z.to_nat n) m s 0 Hm) as (j & E & Hj & Hb & He); rewrite ?Z.add_0_r in *.
  { intros j Hj Hb. apply (nstring_some m s n); [done|done|lia|done]. }
  exists j. split; [exact E|]. destruct He as [->|He]; [right; lia|left].
  symmetry. apply strlen_l_unique; [lia|done|done].
Qed.

Lemma strcmp_loop_value fuel m s1 s2 i l1 l2 : mem_ok m -> cstr m (s1 + i) l1 -> cstr m (s2 + i) l2 ->
  (length l1 < fuel)%nat ->
  strcmp_loop fuel m s1 s2 i = Ret (memcmp_n (S (length l1 `min` length l2)) m m (s1 + i) (s2 + i)).
Proof.
  intros Hm. revert i l1 l2. induction fuel as [|fuel IH]; intros i l1 l2 H1 H2 Hf; [lia|].
  cbn [strcmp_loop].
  destruct (cstr_accessible _ _ _ H1 (s1 + i)) as [a Ea]; [lia|].
  destruct (cstr_accessible _ _ _ H2 (s2 + i)) as [b Eb]; [lia|].
  pose proof (Hm _ _ Ea) as Ha8. pose proof (Hm _ _ Eb) as Hb8. cbv beta in *.
  rewrite (load8_ok _ _ _ Ea), (load8_ok _ _ _ Eb). cbn [obind memcmp_n].
  rewrite (rd_some _ _ _ Ea), (rd_some _ _ _ Eb).
  destruct (Z.eqb_spec a b) as [->|Hne].
  - rewrite Z.eqb_refl. destruct l1 as [|a1 l1], l2 as [|b1 l2]; rewrite ?cstr_nil, ?cstr_cons in *.
    + assert (b = 0) as -> by congruence. done.
    + destruct H2 as (E2 & ? & _). assert (b1 = 0) by congruence. lia.
    + destruct H1 as (E1 & ? & _). assert (a1 = 0) by congruence. lia.
    + destruct H1 as (E1 & ? & H1), H2 as (E2 & ? & H2). assert (b = a1) as -> by congruence.
      rewrite (proj2 (Z.eqb_neq a1 0)) by lia. rewrite <- !Z.add_assoc in H1, H2.
      rewrite (IH (i + 1) l1 l2 H1 H2) by (simpl in Hf; lia). by rewrite <- !Z.add_assoc.
  - rewrite (proj2 (Z.eqb_neq (s8 a) (s8 b))) by (intros E; apply Hne; by apply s8_inj).
    by rewrite !u8_s8_byte.
Qed.

Lemma strcmp_meets s1 s2 : meets (pure_fun (fun m => strcmp m s1 s2)) (strcmp_contract s1 s2).
Proof.
  apply meets_pure. intros m Hm [Hv1 Hv2].
  destruct (valid_string_cstr m s1 Hm Hv1) as (l1 & H1 & E1), (valid_string_cstr m s2 Hm Hv2) as (l2 & H2 & E2).
  eexists. split; [apply (strcmp_loop_value _ m s1 s2 0 l1 l2 Hm); rewrite ?Z.add_0_r; try done;
    by eapply cstr_steps|].
  rewrite !Z.add_0_r. cbn [ensures strcmp_contract]. unfold strcmp_l, memcmp_l.
  rewrite <- E1, <- E2, !(proj2 (Z.ltb_ge _ _)) by lia. cbn [andb]. f_equal. lia.
Qed.

(** [strncmp] stops at the first difference, or at the end of equal strings. *)
Lemma strncmp_loop_value n m s1 s2 i : mem_ok m ->
  (forall j, 0 <= j < Z.of_nat n -> (forall k, 0 <= k < j -> rd m (s1 + i + k) = rd m (s2 + i + k) /\
       rd m (s1 + i + k) <> 0) -> is_Some (m !! (s1 + i + j)) /\ is_Some (m !! (s2 + i + j))) ->
  exists r, strncmp_loop n m s1 s2 i = Ret r /\
    ((r = memcmp_n n m m (s1 + i) (s2 + i) /\
      forall j, 0 <= j < Z.of_nat n -> (forall k, 0 <= k <= j -> rd m (s1 + i + k) = rd m (s2 + i + k)) ->
        rd m (s1 + i + j) <> 0) \/
     (r = 0 /\ exists j, 0 <= j < Z.of_nat n /\ rd m (s1 + i + j) = 0 /\
        forall k, 0 <= k <= j -> rd m (s1 + i + k) = rd m (s2 + i + k) /\ (k < j -> rd m (s1 + i + k) <> 0))).
Proof.
  intros Hm. revert i. induction n as [|n IH]; intros i Hacc; cbn [strncmp_loop memcmp_n].
  { exists 0. split; [done|]. left. split; [done|lia]. }
  destruct (Hacc 0) as [[a Ea] [b Eb]]; [lia|lia|]. rewrite !Z.add_0_r in *.
  pose proof (Hm _ _ Ea) as Ha8. pose proof (Hm _ _ Eb) as Hb8. cbv beta in *.
  rewrite (load8_ok _ _ _ Ea), (load8_ok _ _ _ Eb). cbn [obind].
  pose proof (rd_some _ _ _ Ea) as Ra. pose proof (rd_some _ _ _ Eb) as Rb.
  destruct (Z.eqb_spec a b) as [->|Hne]; cbn [negb].
  - rewrite Ra, Rb, Z.eqb_refl. destruct (Z.eqb_spec b 0) as [->|Hb0].
    { exists 0. split; [done|]. right. split; [done|]. exists 0. rewrite !Z.add_0_r.
      split_and!; [lia..|done|]. intros k Hk. assert (k = 0) as -> by lia. rewrite !Z.add_0_r.
      split; [congruence|lia]. }
    assert (rd m (s1 + i) <> 0) as Hnz by (rewrite Ra, (s8_zero b) by done; done).
    assert (forall s k, s + i + k = s + (i + 1) + (k - 1)) as Hsh by lia.
    destruct (IH (i + 1)) as (r & -> & Hr).
    { intros j Hj Hb. replace (s1 + (i + 1) + j) with (s1 + i + (j + 1)) by lia.
      replace (s2 + (i + 1) + j) with (s2 + i + (j + 1)) by lia. apply Hacc; [lia|].
      intros k Hk. destruct (Z.eq_dec k 0) as [->|]; [rewrite !Z.add_0_r; split; [congruence|done]|].
      rewrite !Hsh. apply Hb. lia. }
    exists r. split; [done|]. rewrite <- !(Z.add_assoc _ i 1).
    destruct Hr as [[-> Hno]|(-> & j & Hj & Hz & Hb)]; [left; split; [done|]|right; split; [done|]].
    + intros j Hj Hall. destruct (Z.eq_dec j 0) as [->|]; [by rewrite Z.add_0_r|]. rewrite Hsh.
      apply Hno; [lia|]. intros k Hk. specialize (Hall (k + 1)). rewrite !Hsh in Hall.
      replace (k + 1 - 1) with k in Hall by lia. apply Hall. lia.
    + exists (j + 1). split_and!; [lia..| |].
      * rewrite Hsh. by replace (j + 1 - 1) with j by lia.
      * intros k Hk. destruct (Z.eq_dec k 0) as [->|]; [rewrite !Z.add_0_r; split; [congruence|done]|].
        rewrite !Hsh. destruct (Hb (k - 1)) as [Hb1 Hb2]; [lia|]. split; [done|]. intros ?. apply Hb2. lia.
  - assert (rd m (s1 + i) <> rd m (s2 + i)) as Hdiff by (rewrite Ra, Rb; intros E; apply Hne; by apply s8_inj).
    rewrite (proj2 (Z.eqb_neq _ _) Hdiff), Ra, Rb, !u8_s8_byte by done. eexists. split; [done|]. left.
    split; [done|]. intros j Hj Hall. destruct Hdiff. specialize (Hall 0). rewrite !Z.add_0_r in Hall.
    apply Hall. lia.
Qed.

(** The code decides when one of the arrays is terminated. *)
Definition one_terminated (s1 s2 : Z) (m : mem) : Prop := 0 <= strlen_l m s1 \/ 0 <= strlen_l m s2.

Lemma strncmp_meets s1 s2 n : in_u 64 n ->
  meets (pure_fun (fun m => strncmp m s1 s2 n))
    (with_requires (one_terminated s1 s2) (strncmp_contract s1 s2 n)).
Proof.
  intros Hn. apply meets_pure. intros m Hm [[Hv1 Hv2] Hterm]. unfold in_u in Hn.
  unfold one_terminated in Hterm. cbn [ensures strncmp_contract with_requires].
  destruct (strncmp_loop_value (Z.to_nat n) m s1 s2 0 Hm) as (r & E & Hr); rewrite ?Z.add_0_r in *.
  { intros j Hj Hb. split; [apply (nstring_some m s1 n)|apply (nstring_some m s2 n)]; try done; try lia;
      intros k Hk; destruct (Hb k Hk); congruence. }
  exists r. split; [exact E|]. unfold strncmp_l.
  destruct Hr as [[-> Hno]|(-> & j & Hj & Hz & Hb)].
  - destruct (Z.ltb_spec (strlen_l m s1) n), (Z.eqb_spec (strcmp_l m s1 s2) 0) as [Hc|]; try done.
    exfalso. apply strcmp_l_zero in Hc as [El Hall].
    apply (Hno (strlen_l m s1)); [lia|intros k Hk; apply Hall; lia|apply strlen_l_at; lia].
  - assert (strlen_l m s1 = j) as E1.
    { apply strlen_l_unique; [lia| |done]. intros k Hk. apply Hb; lia. }
    assert (strlen_l m s2 = j) as E2.
    { apply strlen_l_unique; [lia| |].
      - intros k Hk. destruct (Hb k) as [<- ?]; [lia|]. auto with lia.
      - destruct (Hb j) as [<- _]; [lia|done]. }
    assert (strcmp_l m s1 s2 = 0) as ->.
    { apply strcmp_l_zero. split; [congruence|]. rewrite E1. intros k Hk. apply Hb. lia. }
    by rewrite E1, (proj2 (Z.ltb_lt j n)) by lia.
Qed.
Lemma string_rd m s l i b : cstr m s l -> (l ++ [0]) !! i = Some b ->
  m !! (s + Z.of_nat i) = Some b /\ rd m (s + Z.of_nat i) = s8 b.
Proof. intros [Hb _] E. specialize (Hb i b E). split; [done|]. by apply rd_some. Qed.

(** A tail of a valid string. *)
Lemma valid_string_tail m s i : valid_read_string m s -> 0 <= i <= strlen_l m s ->
  base_addr (s + i) = base_addr s /\ valid_read_string m (s + i).
Proof.
  intros [H0 Hv] Hi. assert (base_addr (s + i) = base_addr s) as Eb.
  { destruct (Hv (s + i)) as (_ & _ & E & _); [unfold range; lia|done]. }
  split; [done|]. unfold valid_read_string. rewrite strlen_l_shift by done. split; [lia|].
  pose proof (valid_shift m s 0 (strlen_l m s) (s + i) Hv Eb) as H. eapply valid_sub; [exact H|lia..].
Qed.

Lemma strchr_l_cstr m s l c : mem_ok m -> cstr m s l ->
  strchr_l m s c = true <-> exists k, (l ++ [0]) !! k = Some (u8 c).
Proof.
  intros Hm Hl. assert (strlen_l m s = Z.of_nat (length l)) as El by by apply cstr_strlen.
  rewrite (strchr_l_def m s c), El. split.
  - intros (i & Hi & Hrd). destruct (lookup_lt_is_Some_2 (l ++ [0]) (Z.to_nat i)) as [b E];
      [rewrite length_app; simpl; lia|].
    destruct (string_rd m s l _ b Hl E) as [Em Er]. rewrite Z2Nat.id in Em, Er by lia.
    exists (Z.to_nat i). rewrite E. f_equal. apply s8_eq_u8; [by apply (Hm _ _ Em)|congruence].
  - intros (k & E). destruct (string_rd m s l _ _ Hl E) as [_ Er].
    apply lookup_lt_Some in E. rewrite length_app in E. simpl in E.
    exists (Z.of_nat k). split; [lia|]. by rewrite Er, s8_u8.
Qed.

Lemma strchr_l_none m s l c : mem_ok m -> cstr m s l -> u8 c ∉ l ++ [0] -> strchr_l m s c = false.
Proof.
  intros Hm Hl Hno. destruct (strchr_l m s c) eqn:E; [|done]. exfalso. apply Hno.
  apply (strchr_l_cstr m s l c Hm Hl) in E as (k & E). by apply list_elem_of_lookup_2 in E.
Qed.

Lemma strchr_meets s c : meets (pure_fun (fun m => strchr m s c)) (strchr_contract s c).
Proof.
  apply meets_pure. intros m Hm Hv. destruct (valid_string_cstr m s Hm Hv) as (l & Hl & El).
  destruct (strchr_cstr m s c l Hl) as (r & E & Hr). exists r. split; [done|].
  destruct Hr as [(k & -> & Ek & Hb)|[-> Hno]].
  - destruct (string_rd m s l k _ Hl Ek) as [_ Er]. pose proof (lookup_lt_Some _ _ _ Ek) as Hk.
    rewrite length_app in Hk. simpl in Hk.
    destruct (valid_string_tail m s (Z.of_nat k) Hv) as [Eb Ht]; [lia|].
    split; [|split; [|by right]].
    + intros _. split; [by rewrite Er, s8_u8|]. split; [done|]. split; [lia|]. split; [done|].
      intros p Hp Hrd. destruct (lookup_lt_is_Some_2 (l ++ [0]) (Z.to_nat (p - s))) as [b E'];
        [rewrite length_app; simpl; lia|].
      destruct (string_rd m s l _ b Hl E') as [Em' Er']. apply (Hb (Z.to_nat (p - s))); [lia|].
      rewrite E'. f_equal. replace (s + Z.of_nat (Z.to_nat (p - s))) with p in Em', Er' by lia.
      apply s8_eq_u8; [by apply (Hm _ _ Em')|congruence].
    + intros Hf. exfalso. assert (strchr_l m s c = true); [|congruence].
      apply (strchr_l_cstr m s l c Hm Hl). eauto.
  - pose proof (strchr_l_none m s l c Hm Hl Hno) as Hf. split; [congruence|]. split; [done|by left].
Qed.

Lemma strrchr_meets s c : - 128 <= c < 128 -> meets (pure_fun (fun m => strrchr m s c)) (strrchr_contract s c).
Proof.
  intros Hc. apply meets_pure. intros m Hm Hv. destruct (valid_string_cstr m s Hm Hv) as (l & Hl & El).
  destruct (strrchr_cstr m s c l Hl) as (r & E & Hr). exists r. split; [done|].
  destruct Hr as [(k & -> & Ek & Hb)|[-> Hno]].
  - destruct (string_rd m s l k _ Hl Ek) as [_ Er]. pose proof (lookup_lt_Some _ _ _ Ek) as Hk.
    rewrite length_app in Hk. simpl in Hk.
    destruct (valid_string_tail m s (Z.of_nat k) Hv) as [Eb Ht]; [lia|].
    split; [|split; [|by right]].
    + intros _. split; [by rewrite Er, s8_u8, s8_id|]. done.
    + intros Hf. exfalso. assert (strchr_l m s c = true); [|congruence].
      apply (strchr_l_cstr m s l c Hm Hl). eauto.
  - pose proof (strchr_l_none m s l c Hm Hl Hno) as Hf. split; [congruence|]. split; [done|by left].
Qed.

Lemma strstr_meets hs nd : meets (pure_fun (fun m => strstr m hs nd)) (strstr_contract hs nd).
Proof.
  apply meets_pure. intros m Hm [Hv1 Hv2]. destruct (valid_string_cstr m hs Hm Hv1) as (h & Hh & Eh).
  destruct (valid_string_cstr m nd Hm Hv2) as (n & Hn & En).
  destruct (strstr_cstr m hs nd h n Hh Hn) as (r & E & Hr). exists r. split; [done|].
  destruct Hr as [(k & -> & [d Ed] & Hmin)|[-> _]]; [right|by left].
  assert (k <= length h)%nat as Hk.
  { destruct (Nat.le_gt_cases k (length h)); [done|]. rewrite drop_ge in Ed by lia.
    destruct n; [|done]. destruct (Hmin 0%nat); [lia|apply prefix_nil]. }
  destruct (valid_string_tail m hs (Z.of_nat k) Hv1) as [Eb [Ht0 Ht]]; [lia|].
  split; [lia|]. split; [done|]. split; [eapply valid_sub; [exact Ht|lia..]|].
  apply memcmp_l_eq. rewrite <- En. intros i Hi.
  destruct (lookup_lt_is_Some_2 n (Z.to_nat i)) as [b Ei]; [lia|].
  assert (h !! (k + Z.to_nat i)%nat = Some b) as Ehi.
  { rewrite <- lookup_drop, Ed. by apply lookup_app_l_Some. }
  destruct (string_rd m nd n (Z.to_nat i) b Hn) as [_ R1]; [by apply lookup_app_l_Some|].
  destruct (string_rd m hs h (k + Z.to_nat i) b Hh) as [_ R2]; [by apply lookup_app_l_Some|].
  replace (nd + i) with (nd + Z.of_nat (Z.to_nat i)) by lia.
  replace (hs + Z.of_nat k + i) with (hs + Z.of_nat (k + Z.to_nat i)) by lia. congruence.
Qed.

(** *** Copies of strings *)

(** The string and the bytes that a copy writes. *)
Lemma write_cstr m a l : cstr m a l -> Forall (fun b => 0 < b < 256) l.
Proof. by intros [_ H]. Qed.

Lemma strcmp_l_same m s1 s2 l : cstr m s1 l -> cstr m s2 l -> strcmp_l m s1 s2 = 0.
Proof.
  intros H1 H2. pose proof (cstr_strlen _ _ _ H1) as E1. pose proof (cstr_strlen _ _ _ H2) as E2.
  apply strcmp_l_zero. split; [congruence|]. rewrite E1. intros i Hi.
  destruct (lookup_lt_is_Some_2 (l ++ [0]) (Z.to_nat i)) as [b E]; [rewrite length_app; simpl; lia|].
  destruct (string_rd m s1 l _ b H1 E) as [_ R1]. destruct (string_rd m s2 l _ b H2 E) as [_ R2].
  rewrite Z2Nat.id in R1, R2 by lia. congruence.
Qed.

Lemma strcpy_meets dest src : meets (fun m => strcpy m dest src) (strcpy_contract dest src).
Proof.
  intros m Hm (Hv & Hd & Hsep). destruct (valid_string_cstr m src Hm Hv) as (l & Hl & El).
  rewrite <- El in Hd, Hsep. apply valid_accessible in Hd as Ha. rewrite Z.add_0_r, Z.sub_0_r in Ha.
  assert (dest + Z.of_nat (length l) < src \/ src + Z.of_nat (length l) < dest) as Hs.
  { destruct (Z.lt_ge_cases (dest + Z.of_nat (length l)) src); [by left|]. right.
    destruct (Z.lt_ge_cases (src + Z.of_nat (length l)) dest); [done|].
    destruct (Hsep (Z.max dest src)). unfold range. lia. }
  exists dest, (write m dest (l ++ [0])). split; [by apply strcpy_spec|].
  assert (Z.of_nat (length (l ++ [0])) = Z.of_nat (length l) + 1) as Elen by (rewrite length_app; simpl; lia).
  split; [split; [|done]|split].
  - apply (strcmp_l_same _ _ _ l).
    + split; [apply write_bytes|by eapply write_cstr].
    + eapply cstr_frame; [exact Hl|]. intros x Hx. apply write_frame. lia.
  - apply write_dom. by rewrite Elen.
  - intros a Hn. apply write_frame. cbn in Hn. rewrite <- El in Hn. unfold range in Hn. lia.
Qed.
(** Bytes other than the terminator are copied as they are. *)
Lemma strncat_loop_bytes m dest src i l : bytes m (src + i) l -> Forall (fun b => 0 < b < 256) l ->
  accessible m (dest + i) (Z.of_nat (length l)) ->
  dest + Z.of_nat (length l) <= src \/ src + Z.of_nat (length l) <= dest ->
  strncat_loop (length l) m dest src i = Ret (i + Z.of_nat (length l), write m (dest + i) l).
Proof.
  revert m i. induction l as [|b l IH]; intros m i Hb Hl Ha Hs; cbn [strncat_loop length write].
  { do 2 f_equal. lia. }
  apply bytes_cons in Hb as [Eb Hb]. apply Forall_cons in Hl as [Hb8 Hl]. simpl in Ha, Hs.
  rewrite (load8_ok _ _ _ Eb). cbn [obind]. rewrite (proj2 (Z.eqb_neq b 0)) by lia.
  rewrite store8_spec, u8_small by (unfold in_u; lia || (apply Ha; lia)). cbn [obind].
  rewrite IH; [| |done| |lia].
  - rewrite <- !Z.add_assoc. do 2 f_equal. lia.
  - rewrite <- Z.add_assoc in Hb. eapply bytes_frame; [exact Hb|]. intros x Hx.
    by rewrite lookup_insert_ne by lia.
  - apply accessible_insert. eapply accessible_sub; [exact Ha|lia..].
Qed.

Lemma strncpy_loop_bytes m dest src i l : bytes m (src + i) l -> Forall (fun b => 0 < b < 256) l ->
  accessible m (dest + i) (Z.of_nat (length l)) ->
  dest + Z.of_nat (length l) <= src \/ src + Z.of_nat (length l) <= dest ->
  strncpy_loop (length l) m dest src i = Ret (i + Z.of_nat (length l), write m (dest + i) l).
Proof.
  revert m i. induction l as [|b l IH]; intros m i Hb Hl Ha Hs; cbn [strncpy_loop length write].
  { do 2 f_equal. lia. }
  apply bytes_cons in Hb as [Eb Hb]. apply Forall_cons in Hl as [Hb8 Hl]. simpl in Ha, Hs.
  rewrite (load8_ok _ _ _ Eb). cbn [obind].
  rewrite store8_spec, u8_small by (unfold in_u; lia || (apply Ha; lia)). cbn [obind].
  rewrite (load8_ok (<[_ := _]> m) (src + i) b) by (by rewrite lookup_insert_ne by lia). cbn [obind].
  rewrite (proj2 (Z.eqb_neq b 0)) by lia. rewrite IH; [| |done| |lia].
  - rewrite <- !Z.add_assoc. do 2 f_equal. lia.
  - rewrite <- Z.add_assoc in Hb. eapply bytes_frame; [exact Hb|]. intros x Hx.
    by rewrite lookup_insert_ne by lia.
  - apply accessible_insert. eapply accessible_sub; [exact Ha|lia..].
Qed.

(** The first [n] bytes of an array that has no terminator among them. *)
Lemma array_bytes m s n : mem_ok m -> 0 <= n -> accessible m s n ->
  (forall i, 0 <= i < n -> rd m (s + i) <> 0) ->
  exists l, Z.of_nat (length l) = n /\ bytes m s l /\ Forall (fun b => 0 < b < 256) l.
Proof.
  intros Hm Hn Ha Hnz. destruct (accessible_bytes m s (Z.to_nat n)) as (l & Hl & Hb).
  { by rewrite Z2Nat.id by lia. }
  exists l. split_and!; [lia|done|]. apply Forall_lookup_2. intros i b E. pose proof (Hb i b E) as Eb.
  pose proof (Hm _ _ Eb) as H8. cbv beta in H8. apply lookup_lt_Some in E.
  assert (b <> 0) as Hn0; [|unfold in_u in H8; lia].
  intros ->. apply (Hnz (Z.of_nat i)); [lia|]. by apply rd_zero.
Qed.

Lemma ranges_apart p i q j : separated_ranges p i q j -> 0 <= i -> 0 <= j -> p + i < q \/ q + j < p.
Proof.
  intros Hs Hi Hj. destruct (Z.lt_ge_cases (p + i) q); [by left|]. right.
  destruct (Z.lt_ge_cases (q + j) p); [done|]. destruct (Hs (Z.max p q)). unfold range. lia.
Qed.

Lemma strncpy_meets dest src n : in_u 64 n ->
  meets (fun m => strncpy m dest src n) (strncpy_contract dest src n).
Proof.
  intros Hn m Hm (Hv & Hd & Hsep). unfold in_u in Hn.
  destruct (valid_string_cstr m src Hm Hv) as (l & Hl & El).
  apply valid_accessible in Hd as Ha. replace (n - 1 - 0 + 1) with n in Ha by lia. rewrite Z.add_0_r in Ha.
  assert (exists m', strncpy m dest src n = Ret (dest, m') /\ dom m' = dom m /\ forall x, m' !! x =
    if decide (dest <= x < dest + n) then Some (default 0 (l !! Z.to_nat (x - dest))) else m !! x)
    as (m' & E & Hdm & Hx).
  { destruct (Z.lt_ge_cases (Z.of_nat (length l)) n) as [Hlt|Hge].
    - apply strncpy_spec; [done|lia|done|].
      destruct (ranges_apart _ _ _ _ Hsep); [lia..|left; lia|right; lia].
    - set (l' := take (Z.to_nat n) l). assert (length l' = Z.to_nat n) as Hl' by (unfold l'; rewrite length_take; lia).
      exists (write m dest l'). unfold strncpy. rewrite <- Hl'.
      assert (dest + Z.of_nat (length l') <= src \/ src + Z.of_nat (length l') <= dest) as Hs.
      { destruct (Z.eq_dec n 0) as [->|]; [lia|]. destruct (ranges_apart _ _ _ _ Hsep); lia. }
      rewrite strncpy_loop_bytes; [|rewrite Z.add_0_r|apply Forall_take; by eapply write_cstr| |done].
      + rewrite Hl', Z2Nat.id by lia. cbn [obind]. rewrite !Z.add_0_r, Z.add_0_l.
        unfold for_range. rewrite Z.sub_diag. cbn. split; [done|]. split.
        { apply write_dom. by rewrite Hl', Z2Nat.id by lia. }
        intros x. rewrite write_lookup, Hl', Z2Nat.id by lia. case_decide; [|done].
        unfold l'. rewrite lookup_take_lt by lia. destruct (l !! _) eqn:E'; [done|].
        apply lookup_ge_None in E'. lia.
      + destruct Hl as [Hb _]. intros k b Ek. unfold l' in Ek. apply lookup_take_Some in Ek as [Ek _].
        apply Hb. by apply lookup_app_l_Some.
      + by rewrite Z.add_0_r, Hl', Z2Nat.id by lia. }
  exists dest, m'. split; [done|].
  assert (forall x, range src 0 (n - 1) x -> m' !! x = m !! x) as Hsrc.
  { intros x Hr. rewrite Hx. case_decide; [|done]. destruct (Hsep x). unfold range in *. lia. }
  split; [split; [done|]; split; [|split]|split; [done|]].
  - intros a Hr. rewrite Hx. unfold range in Hr. rewrite decide_True by lia. eauto.
  - rewrite <- El. intros Hlt. apply (strcmp_l_same _ _ _ l).
    + split; [|by eapply write_cstr]. intros k b Ek. pose proof (lookup_lt_Some _ _ _ Ek) as Hk.
      rewrite length_app in Hk. simpl in Hk. rewrite Hx, decide_True by lia.
      replace (Z.to_nat (dest + Z.of_nat k - dest)) with k by lia. f_equal.
      destruct (decide (k < length l)%nat) as [Hk'|Hk'].
      * rewrite lookup_app_l in Ek by done. by rewrite Ek.
      * rewrite lookup_ge_None_2 by lia. replace k with (length l) in Ek by lia.
        rewrite list_lookup_middle in Ek by done. by injection Ek.
    + eapply cstr_frame; [exact Hl|]. intros x Hr. apply Hsrc. unfold range. lia.
  - rewrite <- El. intros Hge. apply memcmp_l_eq. intros i Hi.
    rewrite (rd_frame m m' (src + i)) by (apply Hsrc; unfold range; lia).
    destruct (lookup_lt_is_Some_2 l (Z.to_nat i)) as [b Eb]; [lia|].
    destruct (string_rd m src l (Z.to_nat i) b Hl) as [_ R]; [by apply lookup_app_l_Some|].
    rewrite Z2Nat.id in R by lia. rewrite R. apply rd_some. rewrite Hx, decide_True by lia.
    replace (dest + i - dest) with i by lia. by rewrite Eb.
  - intros a Hna. rewrite Hx. case_decide; [|done]. destruct Hna. cbn. unfold range. lia.
Qed.

(** The contracts of [strcat] and [strncat] leave out the separation of the strings,
    as their comments say. *)
Definition apart_strings (dest src n : Z) (m : mem) : Prop :=
  separated_ranges dest (strlen_l m dest + n) src n.

(** The destination after [l2] and a terminator are written after the string [l1]. *)
Lemma append_cstr m dest l1 l2 : cstr m dest l1 -> Forall (fun b => 0 < b < 256) l2 ->
  cstr (write m (dest + Z.of_nat (length l1)) (l2 ++ [0])) dest (l1 ++ l2).
Proof.
  intros [Hb H1] H2. split; [|by apply Forall_app]. rewrite <- app_assoc. apply bytes_app.
  split; [|apply write_bytes]. apply bytes_app in Hb as [Hb _].
  eapply bytes_frame; [exact Hb|]. intros x Hx. apply write_frame. lia.
Qed.

Lemma strcat_meets dest src : meets (fun m => strcat m dest src)
  (with_requires (fun m => apart_strings dest src (strlen_l m src) m) (strcat_contract dest src)).
Proof.
  intros m Hm [(Hv & Hvd & Hd) Hsep]. destruct (valid_string_cstr m src Hm Hv) as (l & Hl & El).
  destruct (valid_string_cstr m dest Hm Hvd) as (d & Hld & Ed). unfold apart_strings in Hsep.
  cbn [requires assigns ensures strcat_contract with_requires].
  rewrite <- El, <- Ed in *. apply valid_accessible in Hd as Ha. rewrite Z.add_0_r, Z.sub_0_r in Ha.
  destruct (string_copies_spec m dest src 0 l d) as (_ & E & _); [done|done|lia| | | |].
  { eapply accessible_sub; [exact Ha|lia..]. }
  { intros x ?. lia. }
  { apply ranges_apart in Hsep; lia. }
  set (m' := write _ _ _) in E. assert (length (l ++ [0]) = S (length l)) as Elen by (rewrite length_app; simpl; lia).
  assert (cstr m' dest (d ++ l)) as Hc by (apply append_cstr; [done|by eapply write_cstr]).
  pose proof (cstr_strlen _ _ _ Hc) as Es. rewrite length_app, Nat2Z.inj_add in Es.
  exists dest, m'. split; [done|]. split; [split; [done|]; split; [|split; [|done]]|split].
  - intros a Hr. apply (cstr_accessible _ _ _ Hc). unfold range in Hr. rewrite length_app. lia.
  - rewrite <- Es. apply strlen_l_at. lia.
  - apply write_dom. rewrite Elen. eapply accessible_sub; [exact Ha|lia..].
  - intros a Hn. apply write_frame. rewrite Elen. unfold range in Hn. lia.
Qed.
(** The number of characters that [strncat] appends. *)
Definition appended (m : mem) (src n : Z) : Z :=
  if (0 <=? strlen_l m src) && (strlen_l m src <=? n) then strlen_l m src else n.

(** The appended characters and the room for them, whether the source fits or not. *)
Lemma strncat_source m dest src n : mem_ok m -> 0 <= n -> requires (strncat_contract dest src n) m ->
  accessible m (dest + strlen_l m dest) (appended m src n + 1) /\
  (strncat_fits m src n -> strlen_l m src = appended m src n) /\
  (~ strncat_fits m src n -> n = appended m src n) /\
  exists l, Z.of_nat (length l) = appended m src n /\ bytes m src l /\
    Forall (fun b => 0 < b < 256) l /\
    (appended m src n = n \/ appended m src n < n /\ cstr m src l).
Proof.
  intros Hm Hn (Hs & _ & Hfit & Hbig).
  assert (strncat_fits m src n -> strlen_l m src = appended m src n) as F1.
  { intros [[H0 _] Hle]. unfold appended. by rewrite (proj2 (Z.leb_le _ _) H0), (proj2 (Z.leb_le _ _) Hle). }
  destruct (Z.lt_ge_cases (strlen_l m src) n) as [Hlt|Hge];
    [destruct (Z.le_gt_cases 0 (strlen_l m src)) as [H0|H0]|].
  - assert (valid_read_string m src) as Hv.
    { destruct Hs as [Hs|Hs]; [|done]. split; [done|]. eapply valid_sub; [exact Hs|lia..]. }
    assert (strncat_fits m src n) as Hf by (split; [done|lia]). rewrite <- (F1 Hf).
    destruct (valid_string_cstr m src Hm Hv) as (l & Hl & El). split; [|split; [done|split; [done|]]].
    + apply valid_accessible in Hfit; [|done]. by rewrite Z.add_0_r, Z.sub_0_r in Hfit.
    + exists l. split; [done|]. split; [by destruct Hl as [[Hb _]%bytes_app _]|].
      split; [by eapply write_cstr|right; split; [lia|done]].
  - assert (appended m src n = n) as Ek by (unfold appended; by rewrite (proj2 (Z.leb_gt _ _) H0)).
    rewrite Ek in *. assert (~ strncat_fits m src n) as Hnf by (intros [[? _] _]; lia).
    split; [|split; [done|split; [done|]]].
    + specialize (Hbig Hnf). apply valid_accessible in Hbig. by rewrite Z.add_0_r, Z.sub_0_r in Hbig.
    + destruct Hs as [Hs|[? _]]; [|lia]. destruct (array_bytes m src n) as (l & ? & ? & ?);
        [done|done|intros a Ha; apply Hs; unfold range; lia| |exists l; split_and?; auto].
      intros i Hi. destruct (strlen_l_spec m src) as [(? & _)|[_ Hno]]; [lia|apply Hno; lia].
  - assert (appended m src n = n) as Ek.
    { unfold appended. destruct (Z.leb_spec 0 (strlen_l m src)), (Z.leb_spec (strlen_l m src) n);
        cbn [andb]; lia. }
    rewrite Ek in *. split; [|split; [done|split; [done|]]].
    + intros a Ha. destruct (m !! a) as [b|] eqn:E; [eauto|]. exfalso.
      assert (~ strncat_fits m src n) as Hnf.
      { intros Hf. destruct (Hfit Hf a) as ([b Eb] & _); [unfold range; rewrite (F1 Hf); lia|congruence]. }
      destruct (Hbig Hnf a) as ([b Eb] & _); [unfold range; lia|congruence].
    + destruct (array_bytes m src n) as (l & ? & ? & ?); [done|done| |
        intros i Hi; apply strlen_l_before; lia|exists l; split_and?; auto].
      intros a Ha. destruct Hs as [Hs|[_ Hs]]; apply Hs; unfold range; lia.
Qed.

Lemma strncat_meets dest src n : in_u 64 n -> meets (fun m => strncat m dest src n)
  (with_requires (fun m => apart_strings dest src (appended m src n) m) (strncat_contract dest src n)).
Proof.
  intros Hn m Hm [Hreq Hsep]. unfold in_u in Hn.
  destruct (strncat_source m dest src n Hm (proj1 Hn) Hreq) as (Ha & F1 & F2 & l & El & Hb & Hl8 & Hend).
  pose proof Hreq as (_ & Hvd & _). destruct (valid_string_cstr m dest Hm Hvd) as (d & Hld & Ed).
  unfold apart_strings in Hsep. cbn [requires assigns ensures strncat_contract with_requires].
  set (k := appended m src n) in *. rewrite <- Ed in *.
  set (m' := write m (dest + Z.of_nat (length d)) (l ++ [0])).
  assert (length (l ++ [0]) = S (length l)) as Elen by (rewrite length_app; simpl; lia).
  assert (strncat m dest src n = Ret (dest, m')) as E.
  { unfold strncat. rewrite (strlen_cstr _ _ _ Hld). cbn [obind].
    assert (strncat_loop (Z.to_nat n) m (dest + Z.of_nat (length d)) src 0 =
      Ret (k, write m (dest + Z.of_nat (length d)) l)) as ->.
    { apply ranges_apart in Hsep; [|lia..]. destruct Hend as [Ek|[Hlt Hl]].
      - rewrite <- Ek, <- El, Nat2Z.id, strncat_loop_bytes;
          [by rewrite Z.add_0_r, Z.add_0_l|by rewrite Z.add_0_r|done| |lia].
        rewrite Z.add_0_r. eapply accessible_sub; [exact Ha|lia..].
      - rewrite (strncat_loop_cstr _ m _ src 0 l); [|by rewrite Z.add_0_r| |lia].
        + rewrite take_ge by lia. rewrite Z.add_0_r. do 2 f_equal. lia.
        + rewrite Z.add_0_r. eapply accessible_sub; [exact Ha|lia..]. }
    cbn [obind]. rewrite <- El, (store8_spec (write _ _ _) _ 0);
      [cbn [obind]; unfold m'; by rewrite write_app|].
    rewrite write_frame by lia. apply Ha. lia. }
  assert (cstr m' dest (d ++ l)) as Hc by by apply append_cstr.
  pose proof (cstr_strlen _ _ _ Hc) as Es. rewrite length_app, Nat2Z.inj_add in Es.
  exists dest, m'. split; [done|]. split; [split; [done|]; split|split].
  - intros Hf%F1. lia.
  - intros Hf%F2. lia.
  - apply write_dom. rewrite Elen. eapply accessible_sub; [exact Ha|lia..].
  - intros a Hna. apply write_frame. rewrite Elen. unfold range in Hna.
    destruct (Z.lt_ge_cases a (dest + Z.of_nat (length d))); [by left|right].
    destruct (Z.lt_ge_cases (dest + Z.of_nat (length d) + k) a); [lia|]. exfalso. apply Hna.
    split; [destruct Hend; lia|]. intros Hf%F1. lia.
Qed.
End Proofs.

(** ** Properties *)

(** C8.  The functions on blocks of memory meet their contracts in string.h, in every memory
    that satisfies the preconditions and for every size: they return, the contents and
    the result are as the contract says and only the assigned bytes change.
    Restrictions, beyond the preconditions: the character of [memset] and [memchr] is a
    value of type [char], from -128 to 127; [memchr] searches at most 2^31 bytes, as
    its counter is an [int]; the block that [memcpy] reads, of one byte, is not an empty
    block; and neither is a block that [memmove] reads or writes.  Without them the
    contracts are not met, see [string_contracts_violated]. *)
Theorem block_functions_meet_contracts `{BK : !Blocks} (dest src c n : Z) : in_u 64 n ->
  meets (pure_fun (fun m => memcmp m dest src n)) (memcmp_contract dest src n) /\
  ((n = 1 -> ~ empty_block src) -> meets (fun m => memcpy m dest src n) (memcpy_contract dest src n)) /\
  (~ empty_block src -> ~ empty_block dest ->
     meets (fun m => memmove m dest src n) (memmove_contract dest src n)) /\
  (- 128 <= c < 128 -> meets (fun m => memset m dest c n) (memset_contract dest c n)) /\
  (- 128 <= c < 128 -> n <= 2 ^ 31 ->
     meets (pure_fun (fun m => memchr m src c n)) (memchr_contract src c n)).
Proof.
  intros Hn. split; [by apply memcmp_meets|]. split; [by apply memcpy_meets|].
  split; [by apply memmove_meets|]. split; [by apply memset_meets|].
  intros Hc Hle. apply memchr_meets; [split; [apply Hn|done]|done].
Qed.

(** C9.  The functions that inspect strings meet their contracts in string.h, whose
    postconditions are the logic functions of __fc_string_axiomatic.h, for every limit that
    is a value of [size_t].  Restrictions, beyond the preconditions: one of the strings
    of [strncmp] is terminated, and the character of [strrchr] is a value of type [char],
    from -128 to 127; without them the contracts are not met, see
    [string_contracts_violated]. *)
Theorem string_queries_meet_contracts `{BK : !Blocks} (s1 s2 c n : Z) : in_u 64 n ->
  meets (pure_fun (fun m => strlen m s1)) (strlen_contract s1) /\
  meets (pure_fun (fun m => strnlen m s1 n)) (strnlen_contract s1 n) /\
  meets (pure_fun (fun m => strcmp m s1 s2)) (strcmp_contract s1 s2) /\
  meets (pure_fun (fun m => strncmp m s1 s2 n))
    (with_requires (one_terminated s1 s2) (strncmp_contract s1 s2 n)) /\
  meets (pure_fun (fun m => strchr m s1 c)) (strchr_contract s1 c) /\
  (- 128 <= c < 128 -> meets (pure_fun (fun m => strrchr m s1 c)) (strrchr_contract s1 c)) /\
  meets (pure_fun (fun m => strstr m s1 s2)) (strstr_contract s1 s2).
Proof.
  intros Hn. split; [apply strlen_meets|]. split; [by apply strnlen_meets|].
  split; [apply strcmp_meets|]. split; [by apply strncmp_meets|].
  split; [apply strchr_meets|]. split; [apply strrchr_meets|apply strstr_meets].
Qed.

(** C10.  The functions that copy strings meet their contracts in string.h. *)
Theorem string_copies_meet_contracts `{BK : !Blocks} (dest src n : Z) : in_u 64 n ->
  meets (fun m => strcpy m dest src) (strcpy_contract dest src) /\
  meets (fun m => strncpy m dest src n) (strncpy_contract dest src n) /\
  meets (fun m => strcat m dest src)
    (with_requires (fun m => apart_strings dest src (strlen_l m src) m) (strcat_contract dest src)) /\
  meets (fun m => strncat m dest src n)
    (with_requires (fun m => apart_strings dest src (appended m src n) m) (strncat_contract dest src n)).
Proof.
  intros Hn. split; [apply strcpy_meets|]. split; [by apply strncpy_meets|].
  split; [apply strcat_meets|by apply strncat_meets].
Qed.

(** ** Instances *)

(** Blocks of 100 bytes, and an empty one at 300. *)
Definition demo_blocks : Blocks.
Proof.
  refine {| base_addr := fun a => 100 * (a / 100);
            block_length := fun a => if a / 100 =? 3 then 0 else 100 |}.
  intros a. by rewrite (Z.mul_comm 100), Z.div_mul by lia.
Defined.

(** An array of one byte, with a buffer of eight bytes at 200. *)
Definition contract_mem (l : list Z) : mem := write (write ∅ 100 l) 200 [0; 0; 0; 0; 0; 0; 0; 0].

Section Demo.
#[local] Existing Instance demo_blocks.

(** Ranges of a concrete memory are checked address by address. *)
Definition valid_check (m : mem) (p lo hi : Z) : bool :=
  forallb (fun a => bool_decide (is_Some (m !! a)) && (0 <? a) && (a <? 2 ^ 64 - 1) &&
    (base_addr a =? base_addr p) && (base_addr p <=? a) && (a <? base_addr p + block_length p))
    (seqZ (p + lo) (hi - lo + 1)).
Lemma valid_check_ok m p lo hi : valid_check m p lo hi = true -> valid m p lo hi.
Proof.
  unfold valid_check. rewrite forallb_forall. intros H a Ha. unfold range in Ha.
  specialize (H a). rewrite !andb_true_iff, Z.eqb_eq, !Z.ltb_lt, Z.leb_le, bool_decide_eq_true in H.
  unfold in_block. destruct H as (((((? & ?) & ?) & ?) & ?) & ?);
    [apply list_elem_of_In, elem_of_seqZ; lia|]. done.
Qed.

Lemma mem_check_ok (m : mem) : bool_decide (map_Forall (fun _ b => 0 <= b < 256) m) = true -> mem_ok m.
Proof. intros H%bool_decide_eq_true. exact H. Qed.

Lemma block_functions_meet_contracts_witness :
  exists m', memcpy (contract_mem [65; 66; 67; 0]) 200 100 3 = Ret (200, m') /\
    memcmp_l m' (contract_mem [65; 66; 67; 0]) 200 100 3 = 0.
Proof.
  destruct (block_functions_meet_contracts 200 100 65 3) as (_ & H & _); [split; [lia|reflexivity]|].
  destruct (H ltac:(lia) (contract_mem [65; 66; 67; 0])) as (r & m' & E & [Hc ->] & _).
  - apply mem_check_ok. vm_compute. reflexivity.
  - split; [|split].
    + split; [right|]; apply valid_check_ok; vm_compute; reflexivity.
    + split; [right|]; apply valid_check_ok; vm_compute; reflexivity.
    + intros a. unfold range. lia.
  - exists m'. split; [exact E|exact Hc].
Defined.

Lemma string_queries_meet_contracts_witness :
  strcmp (contract_mem [65; 66; 0]) 100 101 =
    Ret (strcmp_l (contract_mem [65; 66; 0]) 100 101) /\
  strcmp_l (contract_mem [65; 66; 0]) 100 101 = -1.
Proof.
  destruct (string_queries_meet_contracts 100 101 65 3) as (_ & _ & H & _); [split; [lia|reflexivity]|].
  destruct (H (contract_mem [65; 66; 0])) as (r & m' & E & -> & _).
  - apply mem_check_ok. vm_compute. reflexivity.
  - split; (split; [vm_compute; discriminate|]); apply valid_check_ok; vm_compute; reflexivity.
  - split; [|vm_compute; reflexivity]. unfold pure_fun in E.
    destruct (strcmp (contract_mem [65; 66; 0]) 100 101) as [r| | |]; [|discriminate E..].
    cbn [obind] in E. injection E as -> _. reflexivity.
Defined.

Lemma string_copies_meet_contracts_witness :
  exists m', strcpy (contract_mem [65; 66; 0]) 200 100 = Ret (200, m') /\ strcmp_l m' 200 100 = 0.
Proof.
  destruct (string_copies_meet_contracts 200 100 3) as (H & _); [split; [lia|reflexivity]|].
  destruct (H (contract_mem [65; 66; 0])) as (r & m' & E & [Hc ->] & _).
  - apply mem_check_ok. vm_compute. reflexivity.
  - split; [split; [vm_compute; discriminate|]|split].
    + apply valid_check_ok. vm_compute. reflexivity.
    + apply valid_check_ok. vm_compute. reflexivity.
    + assert (strlen_l (contract_mem [65; 66; 0]) 100 = 2) as -> by (vm_compute; reflexivity).
      intros a. unfold range. lia.
  - exists m'. split; [exact E|exact Hc].
Defined.

(** A precondition of a concrete memory, for the counterexamples. *)
Lemma violates {R : Type} (f : mem -> outcome (R * mem)) (c : contract R) (m : mem) :
  mem_ok m -> requires c m ->
  (forall r m', f m = Ret (r, m') -> ~ ensures c m r m') -> ~ meets f c.
Proof.
  intros Hm Hr Hno H. destruct (H m Hm Hr) as (r & m' & E & He & _). by apply (Hno r m').
Qed.

(** [memset(s, 200, 1)]: a [char] is never 200. *)
Lemma memset_violates : ~ meets (fun m => memset m 100 200 1) (memset_contract 100 200 1).
Proof.
  apply (violates _ _ (contract_mem [0])).
  - apply mem_check_ok. vm_compute. reflexivity.
  - split; [right|]; apply valid_check_ok; vm_compute; reflexivity.
  - intros r m' E [Hs _]. vm_compute in E. injection E as _ <-. vm_compute in Hs. discriminate.
Qed.

(** [memchr(s, 200, 1)] and [strrchr(s, 200)], where the byte is there. *)
Lemma memchr_violates : ~ meets (pure_fun (fun m => memchr m 100 200 1)) (memchr_contract 100 200 1).
Proof.
  apply (violates _ _ (contract_mem [200])).
  - apply mem_check_ok. vm_compute. reflexivity.
  - split; left; [split; [right|]; apply valid_check_ok; vm_compute; reflexivity|].
    intros a Ha. unfold range in Ha. assert (a = 100) as -> by lia. vm_compute. eauto.
  - intros r m' E [_ Hs]. vm_compute in E. injection E as <- <-.
    specialize (Hs ltac:(vm_compute; reflexivity)). discriminate.
Qed.

Lemma strrchr_violates : ~ meets (pure_fun (fun m => strrchr m 100 200)) (strrchr_contract 100 200).
Proof.
  apply (violates _ _ (contract_mem [200; 0])).
  - apply mem_check_ok. vm_compute. reflexivity.
  - split; [vm_compute; discriminate|]. apply valid_check_ok. vm_compute. reflexivity.
  - intros r m' E [Hs _]. vm_compute in E. injection E as <- <-.
    destruct (Hs ltac:(vm_compute; reflexivity)) as [Hr _]. vm_compute in Hr. discriminate.
Qed.

(** A copy of one byte from an empty block: [valid_read_or_empty] leaves out the first
    byte. *)
Lemma memcpy_violates : ~ meets (fun m => memcpy m 100 300 1) (memcpy_contract 100 300 1).
Proof.
  apply (violates _ _ (contract_mem [0])).
  - apply mem_check_ok. vm_compute. reflexivity.
  - split; [|split].
    + split; [right|]; apply valid_check_ok; vm_compute; reflexivity.
    + split; [left; split; vm_compute; reflexivity|apply valid_check_ok; vm_compute; reflexivity].
    + intros a. unfold range. lia.
  - intros r m' E. vm_compute in E. discriminate.
Qed.

(** Two arrays of one byte, neither terminated, that differ. *)
Definition unterminated : mem := write (write ∅ 100 [65]) 400 [66].
Lemma strncmp_violates : ~ meets (pure_fun (fun m => strncmp m 100 400 1)) (strncmp_contract 100 400 1).
Proof.
  apply (violates _ _ unterminated).
  - apply mem_check_ok. vm_compute. reflexivity.
  - split; left; apply valid_check_ok; vm_compute; reflexivity.
  - intros r m' E Hs. vm_compute in E. injection E as <- <-. vm_compute in Hs. discriminate.
Qed.
End Demo.

(** Five contracts of string.h are not met where their preconditions allow more than
    the restrictions of the theorems above: [memset], [memchr] and [strrchr] with the
    character 200, which the postconditions compare with signed characters;
    [memcpy] of one byte from an empty block, whose precondition does not cover the
    byte; [strncmp] of two arrays without terminators, which the logic takes for equal. *)
Theorem string_contracts_violated : exists BK : Blocks,
  ~ meets (fun m => memset m 100 200 1) (memset_contract 100 200 1) /\
  ~ meets (pure_fun (fun m => memchr m 100 200 1)) (memchr_contract 100 200 1) /\
  ~ meets (pure_fun (fun m => strrchr m 100 200)) (strrchr_contract 100 200) /\
  ~ meets (fun m => memcpy m 100 300 1) (memcpy_contract 100 300 1) /\
  ~ meets (pure_fun (fun m => strncmp m 100 400 1)) (strncmp_contract 100 400 1).
Proof.
  exists demo_blocks. split; [apply memset_violates|]. split; [apply memchr_violates|].
  split; [apply strrchr_violates|]. split; [apply memcpy_violates|apply strncmp_violates].
Qed.
