(* ===== verification/LibcGetline.v ===== *)
(** * share/libc/stdio.c: getline

    The function reads a stream character by character into a buffer that it extends as
    needed.  Streams and the heap are interfaces: <stdio.h> and the allocation
    functions are not defined in the library. *)

From S2P Require Import Prelude LibcString LibcStringSpec.

Definition EOF : Z := -1.
Definition EINVAL : Z := 22.
Definition ENOMEM : Z := 12.
Definition EOVERFLOW : Z := 75.
Definition SSIZE_MAX : Z := 2 ^ 63 - 1.

(** ** Interfaces *)

(** Input streams: what is left to read, the indicators, and [fgetc], which gives the
    next character, as an unsigned char, or [EOF] with an indicator set. *)
Class Streams : Type := {
  stream : Type;
  contents : stream -> list Z;
  feof : stream -> bool;
  ferror : stream -> bool;
  fgetc : stream -> Z * stream;
  fgetc_char : forall s b l, contents s = b :: l -> exists s', fgetc s = (b, s') /\
    contents s' = l /\ feof s' = feof s /\ ferror s' = ferror s;
  fgetc_eof : forall s, contents s = [] -> exists s', fgetc s = (EOF, s') /\
    contents s' = [] /\ (feof s' || ferror s' = true)
}.

(** The heap: [owns m p n] says that [p] is a block of [n] bytes; it does not depend on
    what the bytes hold.  Null is the failure of an allocation. *)
Class Heap : Type := {
  owns : mem -> Z -> Z -> Prop;
  malloc : mem -> Z -> Z * mem;
  realloc : mem -> Z -> Z -> Z * mem;
  owns_accessible : forall m p n, owns m p n -> accessible m p n;
  owns_dom : forall m m' p n, owns m p n -> dom m' = dom m -> owns m' p n;
  malloc_owns : forall m n p m', malloc m n = (p, m') -> p <> 0 -> owns m' p n;
  realloc_owns : forall m p k n q m', owns m p k -> realloc m p n = (q, m') -> q <> 0 ->
    owns m' q n /\ forall i, 0 <= i < k -> i < n -> m' !! (q + i) = m !! (p + i)
}.

Section Getline.
Context `{ST : !Streams} `{HP : !Heap}.

(** [*lineptr], [*n], the memory, the stream and [errno]. *)
Record gl_state : Type := mk_gl {
  gl_line : Z;
  gl_n : Z;
  gl_mem : mem;
  gl_stream : stream;
  gl_errno : Z
}.
Definition set_mem (s : gl_state) (m : mem) : gl_state := mk_gl (gl_line s) (gl_n s) m (gl_stream s) (gl_errno s).
Definition set_stream (s : gl_state) (f : stream) : gl_state := mk_gl (gl_line s) (gl_n s) (gl_mem s) f (gl_errno s).
Definition set_line (s : gl_state) (p : Z) : gl_state := mk_gl p (gl_n s) (gl_mem s) (gl_stream s) (gl_errno s).
Definition set_n (s : gl_state) (n : Z) : gl_state := mk_gl (gl_line s) n (gl_mem s) (gl_stream s) (gl_errno s).
Definition set_errno (s : gl_state) (e : Z) : gl_state := mk_gl (gl_line s) (gl_n s) (gl_mem s) (gl_stream s) e.

(** The inner loop: the result of the function, if it returns, or [cur]. *)
Fixpoint read_chars (fuel : nat) (s : gl_state) (cur : Z) : outcome ((Z + Z) * gl_state) :=
  match fuel with
  | O => NoFuel
  | S fuel =>
      if cur <? u64 (gl_n s - 1) then
        let (b, f) := fgetc (gl_stream s) in
        let c := s8 b in
        let s := set_stream s f in
        if (c =? EOF) && (cur =? 0) then Ret (inl (-1), s)
        else
          let* (s, cur) :=
            if negb (c =? EOF) then
              let* m := store8 (gl_mem s) (gl_line s + cur) c in Ret (set_mem s m, cur + 1)
            else Ret (s, cur) in
          if (c =? 10) || (c =? EOF) then
            let* m := store8 (gl_mem s) (gl_line s + cur) 0 in
            Ret (inl cur, set_mem s m)
          else read_chars fuel s cur
      else Ret (inr cur, s)
  end.

Fixpoint read_line (fuel : nat) (s : gl_state) (cur : Z) : outcome (Z * gl_state) :=
  match fuel with
  | O => NoFuel
  | S fuel =>
      if negb (ferror (gl_stream s)) && negb (feof (gl_stream s)) then
        let* (r, s) := read_chars (S fuel) s cur in
        match r with
        | inl r => Ret (r, s)
        | inr cur =>
            if gl_n s =? SSIZE_MAX then Ret (-1, set_errno s EOVERFLOW)
            else
              let new_size := u64 (gl_n s + 1) in
              let (p, m) := realloc (gl_mem s) (gl_line s) new_size in
              let s := set_line (set_mem s m) p in
              if p =? 0 then Ret (-1, set_errno s ENOMEM)
              else read_line fuel (set_n s new_size) cur
        end
      else Ret (-1, s)
  end.

(** [lineptr], [n] and [stream] are only compared with null here. *)
Definition getline (fuel : nat) (lineptr n stream : Z) (s : gl_state) : outcome (Z * gl_state) :=
  if (lineptr =? 0) || (n =? 0) || (stream =? 0) then Ret (-1, set_errno s EINVAL)
  else if ferror (gl_stream s) || feof (gl_stream s) then Ret (-1, s)
  else if (gl_line s =? 0) || (gl_n s =? 0) then
    let (p, m) := malloc (gl_mem s) 2 in
    let s := set_line (set_mem s m) p in
    if lineptr =? 0 then Ret (-1, set_errno s ENOMEM)
    else read_line fuel (set_n s 2) 0
  else read_line fuel s 0.

(** ** Specification *)

(** The line at the start of the stream, as the function sees it: up to a newline, and
    before the character 255, which is [EOF] for a signed [char]; and what is left. *)
Fixpoint line_of (l : list Z) : list Z :=
  match l with
  | [] => []
  | b :: l => if s8 b =? EOF then [] else if s8 b =? 10 then [b] else b :: line_of l
  end.
Fixpoint rest_of (l : list Z) : list Z :=
  match l with
  | [] => []
  | b :: l => if (s8 b =? EOF) || (s8 b =? 10) then l else rest_of l
  end.

(** The characters [pre] of the line have been read into the buffer, [l] is left. *)
Record reading (s : gl_state) (pre l : list Z) : Prop := mk_reading {
  rd_owns : owns (gl_mem s) (gl_line s) (gl_n s);
  rd_pre : bytes (gl_mem s) (gl_line s) pre;
  rd_contents : contents (gl_stream s) = l;
  rd_feof : feof (gl_stream s) = false;
  rd_ferror : ferror (gl_stream s) = false;
  rd_n : 1 <= gl_n s <= SSIZE_MAX;
  rd_room : Z.of_nat (length pre) < gl_n s;
  rd_chars : Forall (fun b => in_u 8 b) l
}.

(** The buffer holds the line [t] and its terminator, [l] is left. *)
Record line_read (s : gl_state) (t l : list Z) : Prop := mk_line_read {
  lr_owns : owns (gl_mem s) (gl_line s) (gl_n s);
  lr_bytes : bytes (gl_mem s) (gl_line s) (t ++ [0]);
  lr_contents : contents (gl_stream s) = l;
  lr_room : Z.of_nat (length t) < gl_n s
}.

(** ** Lemmas *)

Lemma owns_store m p n a v b : owns m p n -> m !! a = Some b -> owns (<[a := v]> m) p n.
Proof. intros H Ha. apply (owns_dom m); [exact H |]. apply dom_insert_lookup_L. eauto. Qed.

Lemma bytes_snoc m p l v : bytes m p l -> bytes (<[p + Z.of_nat (length l) := v]> m) p (l ++ [v]).
Proof.
  intros H. apply bytes_app. split.
  - apply (bytes_frame m); [exact H |]. intros x Hx. apply lookup_insert_ne. lia.
  - apply bytes_cons. split; [apply lookup_insert_eq | apply bytes_nil].
Qed.

(** Storing a character after those read so far. *)
Lemma reading_store s pre l v : reading s pre l ->
  exists m, store8 (gl_mem s) (gl_line s + Z.of_nat (length pre)) v = Ret m /\
    owns m (gl_line s) (gl_n s) /\ bytes m (gl_line s) (pre ++ [u8 v]).
Proof.
  intros H. destruct (owns_accessible _ _ _ (rd_owns _ _ _ H) (gl_line s + Z.of_nat (length pre))) as [b Hb].
  { pose proof (rd_room _ _ _ H). lia. }
  eexists. split; [apply store8_spec; eauto |]. split.
  - exact (owns_store _ _ _ _ _ _ (rd_owns _ _ _ H) Hb).
  - apply bytes_snoc, H.
Qed.
Lemma u8_s8_char b : in_u 8 b -> u8 (s8 b) = b.
Proof. unfold u8, s8, in_u. intros H. dlia. Qed.
Lemma stream_at s pre b l : reading s pre (b :: l) ->
  exists f, fgetc (gl_stream s) = (b, f) /\ contents f = l /\ feof f = false /\ ferror f = false.
Proof.
  intros H. destruct (fgetc_char _ _ _ (rd_contents _ _ _ H)) as (f & -> & Hl & Hf & He).
  exists f. rewrite Hf, He. split; [reflexivity |]. split; [exact Hl |].
  split; [exact (rd_feof _ _ _ H) | exact (rd_ferror _ _ _ H)].
Qed.

(** The two ways in which the inner loop ends a line, in one. *)
Lemma end_line s pre l f l' : reading s pre l -> contents f = l' ->
  exists s', (let* m := store8 (gl_mem (set_stream s f)) (gl_line (set_stream s f) + Z.of_nat (length pre)) 0 in
              Ret (@inl Z Z (Z.of_nat (length pre)), set_mem (set_stream s f) m)) = Ret (inl (Z.of_nat (length pre)), s') /\
    gl_line s' = gl_line s /\ gl_n s' = gl_n s /\ line_read s' pre l'.
Proof.
  intros H Hf. destruct (reading_store s pre l 0 H) as (m & E & Hm & Hb). cbn [gl_mem gl_line set_stream].
  rewrite E. cbn [obind]. eexists. split; [reflexivity |]. split; [reflexivity |]. split; [reflexivity |].
  constructor; cbn; [exact Hm | exact Hb | exact Hf | exact (rd_room _ _ _ H)].
Qed.

Lemma read_chars_spec fuel s pre l : (length l < fuel)%nat -> reading s pre l ->
  exists r s', read_chars fuel s (Z.of_nat (length pre)) = Ret (r, s') /\ gl_line s' = gl_line s /\ gl_n s' = gl_n s /\
    ((r = inl (-1) /\ pre = [] /\ line_of l = []) \/
     (r = inl (Z.of_nat (length (pre ++ line_of l))) /\ pre ++ line_of l <> [] /\ line_read s' (pre ++ line_of l) (rest_of l)) \/
     (exists t l', r = inr (gl_n s - 1) /\ l = t ++ l' /\ line_of l = t ++ line_of l' /\ rest_of l = rest_of l' /\
        reading s' (pre ++ t) l' /\ Z.of_nat (length (pre ++ t)) + 1 = gl_n s)).
Proof.
  revert s pre l. induction fuel as [| fuel IH]; intros s pre l Hfuel H; [lia |]. cbn [read_chars].
  pose proof (rd_n _ _ _ H) as Hn. pose proof (rd_room _ _ _ H) as Hroom. unfold SSIZE_MAX in Hn.
  replace (u64 (gl_n s - 1)) with (gl_n s - 1) by (unfold u64; rewrite Z.mod_small; lia).
  destruct (Z.ltb_spec (Z.of_nat (length pre)) (gl_n s - 1)) as [Hlt | Hge].
  2: { exists (inr (Z.of_nat (length pre))), s. do 3 (split; [reflexivity |]). right. right.
       exists [], l. rewrite app_nil_r. split; [f_equal; lia |].
       do 3 (split; [reflexivity |]). split; [exact H | lia]. }
  assert (Zpre : Z.of_nat (length pre) = 0 <-> pre = []) by (destruct pre; cbn; split; (lia || discriminate || auto)).
  destruct l as [| b l].
  - destruct (fgetc_eof _ (rd_contents _ _ _ H)) as (f & -> & Hf & _). cbv iota beta zeta.
    change (s8 EOF) with EOF. rewrite Z.eqb_refl. cbn [andb negb orb line_of rest_of obind].
    destruct (Z.eqb_spec (Z.of_nat (length pre)) 0) as [E | E].
    + eexists _, _. split; [reflexivity |]. split; [reflexivity |]. split; [reflexivity |]. left. tauto.
    + rewrite orb_true_r. destruct (end_line s pre [] f [] H Hf) as (s' & -> & H1 & H2 & H3).
      exists (inl (Z.of_nat (length pre))), s'. split; [reflexivity |]. split; [exact H1 |]. split; [exact H2 |].
      right. left. rewrite app_nil_r. split; [reflexivity |]. split; [tauto | exact H3].
  - destruct (stream_at s pre b l H) as (f & -> & Hf & Hfeof & Hferr). cbv iota beta zeta.
    pose proof (rd_chars _ _ _ H) as Hb. apply Forall_cons in Hb. destruct Hb as [Hb Hl].
    cbn [line_of rest_of]. destruct (Z.eqb_spec (s8 b) EOF) as [Eb | Eb]; cbn [andb negb orb obind].
    + destruct (Z.eqb_spec (Z.of_nat (length pre)) 0) as [E | E].
      * eexists _, _. split; [reflexivity |]. split; [reflexivity |]. split; [reflexivity |]. left. tauto.
      * rewrite orb_true_r. destruct (end_line s pre (b :: l) f l H Hf) as (s' & -> & H1 & H2 & H3).
        exists (inl (Z.of_nat (length pre))), s'. split; [reflexivity |]. split; [exact H1 |]. split; [exact H2 |].
        right. left. rewrite app_nil_r. split; [reflexivity |]. split; [tauto | exact H3].
    + destruct (reading_store s pre (b :: l) (s8 b) H) as (m & E & Hm & Hpre).
      cbn [gl_mem gl_line set_stream]. rewrite E. cbn [obind]. rewrite u8_s8_char in Hpre by exact Hb.
      set (s1 := set_mem (set_stream s f) m) in *.
      assert (H1 : reading s1 (pre ++ [b]) l).
      { constructor; cbn; try assumption. rewrite length_app. cbn. lia. }
      replace (Z.of_nat (length pre) + 1) with (Z.of_nat (length (pre ++ [b]))) by (rewrite length_app; cbn; lia).
      assert (Eapp : forall t, pre ++ b :: t = (pre ++ [b]) ++ t) by (intros t; rewrite <- app_assoc; reflexivity).
      rewrite orb_false_r. destruct (Z.eqb_spec (s8 b) 10) as [E10 | E10].
      * destruct (end_line s1 (pre ++ [b]) l f l H1 Hf) as (s' & Es & Hs & H2 & H3).
        change (set_stream s1 f) with s1 in Es. rewrite Es.
        exists (inl (Z.of_nat (length (pre ++ [b])))), s'. split; [reflexivity |]. split; [exact Hs |]. split; [exact H2 |].
        right. left. split; [reflexivity |]. split; [destruct pre; discriminate | exact H3].
      * destruct (IH s1 (pre ++ [b]) l ltac:(cbn in Hfuel; lia) H1) as (r & s' & Er & Hs & H2 & Hcase).
        exists r, s'. split; [exact Er |]. split; [exact Hs |]. split; [exact H2 |].
        destruct Hcase as [(_ & K & _) | [(K1 & K2 & K3) | (t & l' & K1 & K2 & K3 & K4 & K5 & K6)]].
        -- destruct pre; discriminate.
        -- right. left. rewrite Eapp. auto.
        -- right. right. exists (b :: t), l'. rewrite Eapp. cbn [app]. rewrite <- K3, <- K2. auto 10.
Qed.
(** How a call ends: the line is in the buffer; or there is none; or the buffer could not
    be extended. *)
Inductive line_result (n : Z) (t l : list Z) : Z -> gl_state -> Prop :=
| lr_line s : t <> [] -> line_read s t l -> n <= gl_n s <= Z.max n (Z.of_nat (length t) + 2) ->
    line_result n t l (Z.of_nat (length t)) s
| lr_none s : t = [] -> line_result n t l (-1) s
| lr_nomem s : gl_errno s = ENOMEM -> gl_line s = 0 -> line_result n t l (-1) s
| lr_overflow s : gl_errno s = EOVERFLOW -> SSIZE_MAX <= Z.of_nat (length t) + 1 -> line_result n t l (-1) s.

(** The extension of the buffer by one byte. *)
Lemma reading_extend s pre l q m : reading s pre l -> Z.of_nat (length pre) + 1 = gl_n s -> gl_n s <> SSIZE_MAX ->
  realloc (gl_mem s) (gl_line s) (gl_n s + 1) = (q, m) -> q <> 0 ->
  reading (set_n (set_line (set_mem s m) q) (gl_n s + 1)) pre l.
Proof.
  intros H Hlen Hn E Hq. destruct (realloc_owns _ _ _ _ _ _ (rd_owns _ _ _ H) E Hq) as [Ho Hcopy].
  pose proof (rd_n _ _ _ H). constructor; cbn; try apply H; [exact Ho | | lia | lia].
  intros i b Hi. rewrite Hcopy; [exact (rd_pre _ _ _ H i b Hi) | |]; apply lookup_lt_Some in Hi; lia.
Qed.

Lemma read_line_spec fuel s pre l : reading s pre l ->
  (length l + (if (Z.of_nat (length pre) + 1 <? gl_n s)%Z then 1 else 2) <= fuel)%nat ->
  exists r s', read_line fuel s (Z.of_nat (length pre)) = Ret (r, s') /\
    line_result (gl_n s) (pre ++ line_of l) (rest_of l) r s'.
Proof.
  revert s pre l. induction fuel as [| fuel IH]; intros s pre l H Hfuel; [case_match; lia |].
  cbn [read_line]. rewrite (rd_feof _ _ _ H), (rd_ferror _ _ _ H). cbn [negb andb].
  destruct (read_chars_spec (S fuel) s pre l ltac:(case_match; lia) H) as (r & s1 & -> & Hline & Hn & Hcase).
  cbn [obind]. destruct Hcase as [(-> & -> & E) | [(-> & E & Hr) | (t & l' & -> & E1 & E2 & E3 & H1 & Hlen)]].
  - eexists _, _. split; [reflexivity |]. apply lr_none. exact E.
  - eexists _, _. split; [reflexivity |]. apply lr_line; [exact E | exact Hr |].
    pose proof (lr_room _ _ _ Hr). pose proof (rd_room _ _ _ H). lia.
  - rewrite Hn. destruct (Z.eqb_spec (gl_n s) SSIZE_MAX) as [Emax | Emax].
    + eexists _, _. split; [reflexivity |]. apply lr_overflow; [reflexivity |].
      rewrite E2, app_assoc, length_app. lia.
    + pose proof (rd_n _ _ _ H) as Hrange. unfold SSIZE_MAX in Hrange, Emax.
      replace (u64 (gl_n s + 1)) with (gl_n s + 1) by (unfold u64; rewrite Z.mod_small; lia).
      destruct (realloc (gl_mem s1) (gl_line s1) (gl_n s + 1)) as [q m] eqn:Er.
      destruct (Z.eqb_spec q 0) as [-> | Hq].
      { eexists _, _. split; [reflexivity |]. apply lr_nomem; reflexivity. }
      rewrite <- Hn in Er, Hlen, Emax. pose proof (reading_extend s1 (pre ++ t) l' q m H1 Hlen Emax Er Hq) as H2.
      replace (gl_n s - 1) with (Z.of_nat (length (pre ++ t))) by lia. rewrite <- Hn.
      destruct (IH _ _ _ H2) as (r & s' & Es & Hr).
      { cbn [gl_n set_n]. rewrite E1, length_app in Hfuel. rewrite length_app in Hlen |- *.
        revert Hfuel. destruct (Z.ltb_spec (Z.of_nat (length pre) + 1) (gl_n s)), (Z.ltb_spec (Z.of_nat (length pre + length t) + 1) (gl_n s1 + 1)); lia. }
      exists r, s'. split; [exact Es |]. rewrite E2, E3, app_assoc. cbn [gl_n set_n] in Hr.
      inversion Hr as [s2 K1 K2 K3 | | |]; subst; [| apply lr_none | apply lr_nomem | apply lr_overflow]; try assumption.
      apply lr_line; [exact K1 | exact K2 |]. rewrite !length_app in *. lia.
Qed.

(** The first allocation fails. *)
Lemma getline_no_room fuel lineptr n f s l : lineptr <> 0 -> n <> 0 -> f <> 0 ->
  feof (gl_stream s) = false -> ferror (gl_stream s) = false -> contents (gl_stream s) = l ->
  (length l + 2 <= fuel)%nat ->
  (gl_line s =? 0) || (gl_n s =? 0) = true -> fst (malloc (gl_mem s) 2) = 0 ->
  snd (malloc (gl_mem s) 2) !! 0 = None -> line_of l <> [] -> getline fuel lineptr n f s = Fault.
Proof.
  intros Hlp Hnp Hfp Heof Herr Hl Hfuel E Hm Hnull Hline. unfold getline.
  replace ((lineptr =? 0) || (n =? 0) || (f =? 0)) with false by lia.
  rewrite Heof, Herr, E. cbn [orb]. destruct (malloc (gl_mem s) 2) as [p m]. cbn in Hm, Hnull. subst p.
  replace (lineptr =? 0) with false by lia. destruct fuel as [| fuel]; [lia |].
  cbn [read_line gl_stream set_n set_line set_mem]. rewrite Heof, Herr. cbn [negb andb].
  destruct l as [| b l]; [contradiction |]. cbn [line_of] in Hline.
  cbn [read_chars gl_n set_n gl_stream set_line set_mem]. change (0 <? u64 (2 - 1)) with true. cbv iota.
  destruct (fgetc_char _ _ _ Hl) as (g & -> & _). cbv iota zeta.
  destruct (Z.eqb_spec (s8 b) EOF) as [_ | _]; [contradiction |]. cbn [andb negb].
  cbn [gl_mem gl_line set_stream set_n set_line set_mem]. unfold store8. change (0 + 0) with 0. rewrite Hnull. reflexivity.
Qed.
End Getline.

(** ** Theorems *)

(** C21.  getline reads a line of every stream into a buffer that it extends as needed,
    within the bounds of the buffer: it ends, it answers the length of the line, which
    the buffer holds with a terminator, in a block of the size it reports, which
    has at most one byte more than needed, and the stream is after the line; or it answers
    -1 because there is no line, the buffer cannot be extended or the size overflows.
    This assumes that the first allocation succeeds, of two bytes for a caller without a
    buffer; if it fails, the code, which tests another pointer, writes the first character
    of the line through the null pointer and faults.  A line ends after a newline, at the
    end of the stream, and, other than in POSIX, before a character 255. *)
Theorem getline_reads_line `{ST : !Streams} `{HP : !Heap} (fuel : nat) (lineptr n f : Z) (s : gl_state) (l : list Z) :
  lineptr <> 0 -> n <> 0 -> f <> 0 ->
  feof (gl_stream s) = false -> ferror (gl_stream s) = false ->
  contents (gl_stream s) = l -> Forall (fun b => in_u 8 b) l ->
  0 <= gl_n s <= SSIZE_MAX ->
  (gl_line s <> 0 -> gl_n s <> 0 -> owns (gl_mem s) (gl_line s) (gl_n s)) ->
  (length l + 2 <= fuel)%nat ->
  let fresh := (gl_line s =? 0) || (gl_n s =? 0) in
  ((fresh = true -> fst (malloc (gl_mem s) 2) <> 0) ->
   exists r s', getline fuel lineptr n f s = Ret (r, s') /\
     line_result (if fresh then 2 else gl_n s) (line_of l) (rest_of l) r s') /\
  (fresh = true -> fst (malloc (gl_mem s) 2) = 0 -> snd (malloc (gl_mem s) 2) !! 0 = None -> line_of l <> [] ->
   getline fuel lineptr n f s = Fault).
Proof.
  intros Hlp Hnp Hfp Heof Herr Hl Hch Hn Hown Hfuel fresh.
  split; [| exact (getline_no_room fuel lineptr n f s l Hlp Hnp Hfp Heof Herr Hl Hfuel)].
  intros Hmalloc. unfold fresh in *. clear fresh. unfold getline.
  replace ((lineptr =? 0) || (n =? 0) || (f =? 0)) with false by lia.
  rewrite Heof, Herr. cbn [orb].
  destruct ((gl_line s =? 0) || (gl_n s =? 0)) eqn:E.
  - destruct (malloc (gl_mem s) 2) as [p m] eqn:Em.
    assert (Hp : p <> 0) by (apply Hmalloc; reflexivity).
    replace (lineptr =? 0) with false by lia.
    set (s1 := set_n (set_line (set_mem s m) p) 2).
    assert (H1 : reading s1 [] l).
    { constructor; cbn; try assumption; [exact (malloc_owns _ _ _ _ Em Hp) | apply bytes_nil | unfold SSIZE_MAX; lia | lia]. }
    apply (read_line_spec fuel s1 [] l H1). case_match; lia.
  - assert (H1 : reading s [] l).
    { constructor; try assumption; [apply Hown; lia | apply bytes_nil | lia | cbn; lia]. }
    apply (read_line_spec fuel s [] l H1). case_match; lia.
Qed.

(** ** An instance, and where the function departs from POSIX *)

(** A stream that is a list of characters and the end-of-file indicator. *)
Definition list_streams : Streams.
Proof.
  refine {| stream := list Z * bool; contents := fst; feof := snd; ferror := fun _ => false;
            fgetc := fun '(l, e) => match l with [] => (EOF, ([], true)) | b :: l => (b, (l, e)) end |}.
  - intros [l e] b l' H. cbn in H. subst l. exists (l', e). auto.
  - intros [l e] H. cbn in H. subst l. exists ([], true). auto.
Defined.

(** A heap that puts each block after all others. *)
Definition next_address (m : mem) : Z := map_fold (fun a _ n => Z.max n (a + 1)) 100 m.
Definition bump_heap : Heap.
Proof.
  refine {| owns := accessible;
            malloc := fun m n => (next_address m, write m (next_address m) (replicate (Z.to_nat n) 0));
            realloc := fun m p n =>
              (next_address m, write m (next_address m)
                 ((fun i => match m !! (p + i) with Some b => b | None => 0 end) <$> seqZ 0 n)) |}.
  - auto.
  - intros m m' p n H Hd x Hx. apply elem_of_dom. rewrite Hd. apply elem_of_dom. auto.
  - intros m n p m' [= <- <-] _ x Hx.
    apply (bytes_accessible _ _ _ (write_bytes m (next_address m) (replicate (Z.to_nat n) 0))).
    rewrite length_replicate. lia.
  - intros m p k n q m' H [= <- <-] _. split.
    + intros x Hx. eapply bytes_accessible; [apply write_bytes |]. rewrite length_fmap, length_seqZ. lia.
    + intros i Hi Hn. destruct (H (p + i)) as [b Hb]; [lia |]. rewrite Hb.
      replace i with (Z.of_nat (Z.to_nat i)) by lia. apply write_bytes.
      rewrite list_lookup_fmap, lookup_seqZ_lt by lia. cbn.
      replace (p + (0 + Z.of_nat (Z.to_nat i))) with (p + i) by lia. rewrite Hb. reflexivity.
Defined.
(** A heap that is exhausted. *)
Definition full_heap : Heap.
Proof.
  refine {| owns := fun _ _ _ => False; malloc := fun m _ => (0, m); realloc := fun m _ _ => (0, m) |};
    try tauto; intros; simplify_eq.
Defined.

(** The call [getline(&line, &n, stream)] with a null [line] on a stream. *)
Definition first_call (HP : Heap) (l : list Z) : outcome (Z * @gl_state list_streams) :=
  @getline list_streams HP 20 1 2 3 (@mk_gl list_streams 0 0 ∅ (l, false) 0).

Lemma getline_reads_line_witness :
  exists r s', first_call bump_heap [97; 98; 10; 99] = Ret (r, s') /\
    @line_result list_streams bump_heap 2 [97; 98; 10] [99] r s'.
Proof.
  apply (@getline_reads_line list_streams bump_heap 20 1 2 3 (@mk_gl list_streams 0 0 ∅ ([97; 98; 10; 99], false) 0)
           [97; 98; 10; 99]); try reflexivity; try discriminate.
  - repeat constructor; discriminate.
  - split; discriminate.
  - cbn. intros H. contradiction.
  - cbn. lia.
Defined.

(** The result of a call: its value and the start of the buffer. *)
Definition got (n : Z) (o : outcome (Z * @gl_state list_streams)) : outcome (Z * list (option Z)) :=
  let* (r, s) := o in
  Ret (r, (fun i => @gl_mem list_streams s !! (@gl_line list_streams s + i)) <$> seqZ 0 n).

(** The null pointer of a failed allocation is written to, since the test after it is
    [!lineptr]; and a character 255 ends the line, or the function without a line,
    although the stream is not at its end. *)
Theorem getline_departures :
  first_call full_heap [97; 10] = Fault /\
  got 4 (first_call bump_heap [97; 98; 10]) = Ret (3, [Some 97; Some 98; Some 10; Some 0]) /\
  got 2 (first_call bump_heap [97; 255; 98; 10]) = Ret (1, [Some 97; Some 0]) /\
  got 0 (first_call bump_heap [255; 98; 10]) = Ret (-1, []).
Proof. vm_compute. repeat split. Qed.
