(* ===== verification/Digits.v ===== *)
(** * Numerals

    The value of a list of digits, most significant first, and the characters of
    digits; what the printing and the reading functions have in common. *)

From S2P Require Import Prelude.

(** [num_val b acc ds]: the number that is read after [acc]. *)
Fixpoint num_val (b acc : Z) (ds : list Z) : Z :=
  match ds with
  | [] => acc
  | d :: ds => num_val b (acc * b + d) ds
  end.

(** The numeral of [n] in base [b]: digits without a leading zero. *)
Definition numeral (b n : Z) (ds : list Z) : Prop :=
  Forall (fun d => 0 <= d < b) ds /\ num_val b 0 ds = n /\ ds <> [] /\
  (forall ds', ds = 0 :: ds' -> ds' = []).

(** The character of a digit, in upper case if [uc]. *)
Definition digit_char (uc : bool) (d : Z) : Z :=
  d + (if d <? 10 then 48 else (if uc then 65 else 97) - 10).

Lemma num_val_acc b acc ds : num_val b acc ds = acc * b ^ Z.of_nat (length ds) + num_val b 0 ds.
Proof.
  revert acc. induction ds as [|d ds IH]; intros acc; cbn [num_val length]; [rewrite Z.pow_0_r; lia|].
  rewrite IH, (IH (0 * b + d)), Nat2Z.inj_succ, Z.pow_succ_r by lia. ring.
Qed.

Lemma num_val_app b acc ds ds' : num_val b acc (ds ++ ds') = num_val b (num_val b acc ds) ds'.
Proof. revert acc. induction ds as [|d ds IH]; intros acc; simpl; [done|apply IH]. Qed.

Lemma num_val_bound b ds : 1 < b -> Forall (fun d => 0 <= d < b) ds ->
  0 <= num_val b 0 ds < b ^ Z.of_nat (length ds).
Proof.
  intros Hb. induction 1 as [|d ds Hd _ IH]; cbn [num_val length]; [rewrite Z.pow_0_r; lia|].
  rewrite num_val_acc, Nat2Z.inj_succ, Z.pow_succ_r by lia.
  pose proof (Z.pow_pos_nonneg b (Z.of_nat (length ds)) ltac:(lia) ltac:(lia)). nia.
Qed.

(** Numerals of a fixed length are determined by their value. *)
Lemma num_val_inj b ds ds' : 1 < b -> length ds = length ds' ->
  Forall (fun d => 0 <= d < b) ds -> Forall (fun d => 0 <= d < b) ds' ->
  num_val b 0 ds = num_val b 0 ds' -> ds = ds'.
Proof.
  intros Hb Hlen H. revert ds' Hlen. induction H as [|d ds Hd Hds IH]; intros [|d' ds'] Hlen H'; try done.
  apply Forall_cons in H' as [Hd' Hds']. injection Hlen as Hlen. cbn [num_val].
  rewrite (num_val_acc b (0 * b + d)), (num_val_acc b (0 * b + d')), Hlen.
  pose proof (num_val_bound b ds Hb Hds) as B1. pose proof (num_val_bound b ds' Hb Hds') as B2.
  rewrite Hlen in B1. set (p := b ^ Z.of_nat (length ds')) in *. intros E.
  assert (d = d') as -> by nia. f_equal. apply IH; [done|done|]. nia.
Qed.

Lemma numeral_pos b d ds : 1 < b -> Forall (fun d => 0 <= d < b) (d :: ds) -> 0 < d ->
  b ^ Z.of_nat (length ds) <= num_val b 0 (d :: ds).
Proof.
  intros Hb [_ Hds]%Forall_cons Hd. cbn [num_val]. rewrite num_val_acc.
  pose proof (num_val_bound b ds Hb Hds).
  pose proof (Z.pow_pos_nonneg b (Z.of_nat (length ds)) ltac:(lia) ltac:(lia)). nia.
Qed.

(** The numeral of a number is unique. *)
Lemma numeral_unique b n ds ds' : 1 < b -> numeral b n ds -> numeral b n ds' -> ds = ds'.
Proof.
  intros Hb (F & V & N & L) (F' & V' & N' & L').
  assert (forall l l', numeral b n l -> numeral b n l' -> (length l <= length l')%nat) as Hle.
  { clear -Hb. intros l l' (F & V & N & L) (F' & V' & N' & L').
    destruct (Nat.le_gt_cases (length l) (length l')) as [?|Hlt]; [done|exfalso].
    destruct l as [|d l]; [done|]. destruct (decide (d = 0)) as [->|Hd].
    - rewrite (L l eq_refl) in Hlt. destruct l'; [done|simpl in Hlt; lia].
    - pose proof F as [Hd0 _]%Forall_cons. pose proof (numeral_pos b d l Hb F ltac:(lia)) as H1.
      pose proof (num_val_bound b l' Hb F') as H2. simpl in Hlt.
      assert (b ^ Z.of_nat (length l') <= b ^ Z.of_nat (length l)) by (apply Z.pow_le_mono_r; lia). lia. }
  eapply num_val_inj; [exact Hb| |done|done|congruence].
  apply Nat.le_antisymm; apply Hle; by split_and!.
Qed.

Lemma digit_char_range uc d : 0 <= d < 16 -> 0 < digit_char uc d < 256.
Proof. unfold digit_char. destruct uc; zbool; lia. Qed.
