(* ===== verification/LibcStdlib.v ===== *)
(** * share/libc: ctype.c, stdlib.c, __fc_builtin.c and inttypes.c

    The character classes, the conversions, the allocation functions and the model
    of the process environment of Frama-C's C library.  The analysed program is
    non-deterministic through the volatile [Frama_C_entropy_source]: an [entropy] is
    the sequence of the values that its reads give. *)

From S2P Require Import Prelude LibcString.

(** Arithmetic on [int]: overflow is undefined behaviour. *)
Definition int_range (z : Z) : outcome Z :=
  if (- 2 ^ 31 <=? z) && (z <? 2 ^ 31) then Ret z else Fault.

(** ** ctype.c *)

Definition ISDIGIT (c : Z) : bool := (48 <=? c) && (c <=? 57).
Definition ISXDIGIT (c : Z) : bool :=
  ISDIGIT c || ((97 <=? c) && (c <=? 102)) || ((65 <=? c) && (c <=? 70)).
Definition ISLOWER (c : Z) : bool := (97 <=? c) && (c <=? 122).
Definition ISUPPER (c : Z) : bool := (65 <=? c) && (c <=? 90).
Definition ISALPHA (c : Z) : bool := ISUPPER c || ISLOWER c.
Definition ISALNUM (c : Z) : bool := ISALPHA c || ISDIGIT c.
Definition ISSPACE (c : Z) : bool :=
  (c =? 32) || (c =? 12) || (c =? 10) || (c =? 13) || (c =? 9) || (c =? 11).
Definition ISBLANK (c : Z) : bool := (c =? 32) || (c =? 9).

Definition isalnum (c : Z) : Z := b2i (ISALNUM c).
Definition isalpha (c : Z) : Z := b2i (ISALPHA c).
Definition isblank (c : Z) : Z := b2i (ISBLANK c || ISSPACE c).
Definition isdigit (c : Z) : Z := b2i (ISDIGIT c).
Definition islower (c : Z) : Z := b2i (ISLOWER c).
Definition isspace (c : Z) : Z := b2i (ISSPACE c).
Definition isupper (c : Z) : Z := b2i (ISUPPER c).
Definition isxdigit (c : Z) : Z := b2i (ISXDIGIT c).

Definition tolower (c : Z) : Z := if (65 <=? c) && (c <=? 90) then c + 32 else c.
Definition toupper (c : Z) : Z := if (97 <=? c) && (c <=? 122) then c - 32 else c.

(** ** __fc_builtin.c *)

Definition entropy : Type := nat -> Z.
(** A read of the volatile variable, an [int]. *)
Definition read_entropy (e : entropy) : Z * entropy := (s32 (e O), fun n => e (S n)).

(** [Frama_C_entropy_source = Frama_C_entropy_source]. *)
Definition Frama_C_update_entropy (e : entropy) : entropy := snd (read_entropy e).

Fixpoint make_unknown_loop (n : nat) (m : mem) (e : entropy) (p : Z) : outcome (mem * entropy) :=
  match n with
  | O => Ret (m, e)
  | S n => let (v, e) := read_entropy e in
           let* m := store8 m p v in
           make_unknown_loop n m e (p + 1)
  end.
Definition Frama_C_make_unknown (m : mem) (e : entropy) (p l : Z) : outcome (mem * entropy) :=
  make_unknown_loop (Z.to_nat l) m (Frama_C_update_entropy e) p.

Definition Frama_C_nondet {A : Type} (e : entropy) (a b : A) : A * entropy :=
  let e := Frama_C_update_entropy e in
  let (v, e) := read_entropy e in (if i2b v then a else b, e).

Definition Frama_C_interval (e : entropy) (min max : Z) : Z * entropy :=
  let e := Frama_C_update_entropy e in
  let (aux, e) := read_entropy e in
  (if (min <=? aux) && (aux <=? max) then aux else min, e).

Definition Frama_C_char_interval (e : entropy) (min max : Z) : Z * entropy :=
  let e := Frama_C_update_entropy e in
  let (v, e) := read_entropy e in
  let aux := s8 v in
  (if (min <=? aux) && (aux <=? max) then aux else min, e).

(** The classes that ctype.c leaves undetermined: [iscntrl], [isgraph], [isprint]
    and [ispunct]. *)
Definition iscntrl (e : entropy) (c : Z) : Z * entropy := Frama_C_nondet e 0 1.
Definition isgraph (e : entropy) (c : Z) : Z * entropy := Frama_C_nondet e 0 1.
Definition isprint (e : entropy) (c : Z) : Z * entropy := Frama_C_nondet e 0 1.
Definition ispunct (e : entropy) (c : Z) : Z * entropy := Frama_C_nondet e 0 1.

(** ** stdlib.c: conversions *)

Definition abs (i : Z) : outcome Z := if i <? 0 then int_range (- i) else Ret i.

(** [while (isspace(c)) c = *++up]. *)
Fixpoint atoi_spaces (fuel : nat) (m : mem) (up c : Z) : outcome (Z * Z) :=
  match fuel with
  | O => NoFuel
  | S fuel =>
      if i2b (isspace c) then
        let up := up + 1 in
        let* c := load8 m up in atoi_spaces fuel m up c
      else Ret (up, c)
  end.

(** [for (; isdigit(c = *++up); ) { n *= 10; n += '0' - c; }]. *)
Fixpoint atoi_digits (fuel : nat) (m : mem) (up n : Z) : outcome Z :=
  match fuel with
  | O => NoFuel
  | S fuel =>
      let up := up + 1 in
      let* c := load8 m up in
      if i2b (isdigit c) then
        let* n := int_range (n * 10) in
        let* n := int_range (n + (48 - c)) in
        atoi_digits fuel m up n
      else Ret n
  end.

(** The part before the digits: [None] when [atoi] answers 0, otherwise the
    position and the value of the first digit and the sign. *)
Definition atoi_start (m : mem) (p : Z) : outcome (option (Z * Z * bool)) :=
  let up := p in
  let* c := load8 m up in
  if negb (i2b (isdigit c)) then
    let* (up, c) := atoi_spaces (steps m) m up c in
    let neg := c =? 45 in
    let* (up, c) :=
      if (c =? 45) || (c =? 43) then let* c := load8 m (up + 1) in Ret (up + 1, c)
      else Ret (up, c) in
    if negb (i2b (isdigit c)) then Ret None else Ret (Some (up, c, neg))
  else Ret (Some (up, c, false)).

Definition atoi (m : mem) (p : Z) : outcome Z :=
  let* r := atoi_start m p in
  match r with
  | None => Ret 0
  | Some (up, c, neg) =>
      let* n := atoi_digits (steps m) m up (48 - c) in
      if neg then Ret n else int_range (- n)
  end.

(** ** stdlib.c: allocation *)

Section Alloc.
Context (malloc : mem -> Z -> Z * mem).

Definition calloc (m : mem) (nmemb size : Z) : outcome (Z * mem) :=
  let l := u64 (nmemb * size) in
  if negb (size =? 0) && negb (l / size =? nmemb) then Ret (0, m)
  else
    let (p, m) := malloc m l in
    if i2b p then let* (_, m) := memset m p 0 l in Ret (p, m) else Ret (p, m).

Definition posix_memalign (m : mem) (memptr alignment size : Z) : outcome (Z * mem) :=
  let (p, m) := malloc m size in
  let* m := store64 m memptr p in
  let* q := load64 m memptr in
  if negb (i2b q) then Ret (ENOMEM, m) else Ret (0, m).
End Alloc.

(** ** stdlib.c: the environment *)

Definition ARG_MAX : Z := 4096.
Definition FC_INITENV_LEN : Z := 64.
Definition INT_MIN : Z := - 2 ^ 31.
Definition INT_MAX : Z := 2 ^ 31 - 1.

(** [__fc_env], the memory with [__fc_env_strings] and the program's strings,
    [init] of [__fc_initenv], and the entropy. *)
Record env_state : Type := mk_env {
  fc_env : list Z;
  env_mem : mem;
  env_init : bool;
  env_entropy : entropy
}.

Definition set_entropy (s : env_state) (e : entropy) : env_state :=
  mk_env (fc_env s) (env_mem s) (env_init s) e.

(** [__fc_env[i] = v]. *)
Definition store_env (s : env_state) (i v : Z) : outcome env_state :=
  if (0 <=? i) && (i <? Z.of_nat (length (fc_env s))) then
    Ret (mk_env (<[Z.to_nat i := v]> (fc_env s)) (env_mem s) (env_init s) (env_entropy s))
  else Fault.
Definition load_env (s : env_state) (i : Z) : outcome Z :=
  if 0 <=? i then deref (fc_env s !! Z.to_nat i) else Fault.

Definition env_interval (s : env_state) (min max : Z) : Z * env_state :=
  let (v, e) := Frama_C_interval (env_entropy s) min max in (v, set_entropy s e).
Definition env_nondet (s : env_state) : Z * env_state :=
  let (v, e) := Frama_C_nondet (env_entropy s) 0 1 in (v, set_entropy s e).

Section Environment.
(** The address of the array [__fc_env_strings]. *)
Context (fc_env_strings : Z).

Definition env_make_unknown (s : env_state) : outcome env_state :=
  let* (m, e) := Frama_C_make_unknown (env_mem s) (env_entropy s) fc_env_strings (FC_INITENV_LEN - 1) in
  Ret (mk_env (fc_env s) m (env_init s) e).

Definition fc_initenv (s : env_state) : outcome env_state :=
  if negb (env_init s) then
    let* s := env_make_unknown s in
    let* s := for_range 0 ARG_MAX (fun i s =>
      let (v, s) := env_interval s 0 (FC_INITENV_LEN - 1) in
      store_env s i (fc_env_strings + v)) s in
    Ret (mk_env (fc_env s) (env_mem s) true (env_entropy s))
  else Ret s.

Definition getenv (s : env_state) (name : Z) : outcome (Z * env_state) :=
  let* s := fc_initenv s in
  let (b, s) := env_nondet s in
  if i2b b then
    let (i, s) := env_interval s 0 (ARG_MAX - 1) in
    let* p := load_env s i in Ret (p, s)
  else Ret (0, s).

Definition putenv (s : env_state) (string : Z) : outcome (Z * env_state) :=
  let* separator := strchr (env_mem s) string 61 in
  let* s := fc_initenv s in
  let (b, s) := env_nondet s in
  if i2b b then
    let (b, s) := env_nondet s in
    if i2b b then let (r, s) := env_interval s INT_MIN INT_MAX in Ret (r, s)
    else
      let (i, s) := env_interval s 0 (ARG_MAX - 1) in
      let* s := store_env s i string in Ret (0, s)
  else Ret (0, s).

(** The checks of the name: [None] when it is valid. *)
Definition check_name (s : env_state) (name : Z) : outcome (option Z) :=
  let* r := strchr (env_mem s) name 61 in
  if negb (r =? NULL) then Ret (Some (-1))
  else
    let* namelen := strlen (env_mem s) name in
    if namelen =? 0 then Ret (Some (-1)) else Ret None.

(** The index is computed before the value. *)
Definition setenv (s : env_state) (name value overwrite : Z) : outcome (Z * env_state) :=
  let* c := check_name s name in
  match c with
  | Some r => Ret (r, s)
  | None =>
      let* s := fc_initenv s in
      let (b, s) := env_nondet s in
      if i2b b then Ret (-1, s)
      else
        let (b, s) := env_nondet s in
        let* s := if i2b b then env_make_unknown s else Ret s in
        let (i, s) := env_interval s 0 (ARG_MAX - 1) in
        let (v, s) := env_interval s 0 (FC_INITENV_LEN - 1) in
        let* s := store_env s i (fc_env_strings + v) in
        Ret (0, s)
  end.

Definition unsetenv (s : env_state) (name : Z) : outcome (Z * env_state) :=
  let* c := check_name s name in
  match c with
  | Some r => Ret (r, s)
  | None =>
      let* s := fc_initenv s in
      let (b, s) := env_nondet s in
      if i2b b then
        let (i, s) := env_interval s 0 (ARG_MAX - 1) in
        let* s := store_env s i 0 in Ret (0, s)
      else Ret (0, s)
  end.
End Environment.

(** ** inttypes.c *)

Definition imaxabs (c : Z) : outcome Z :=
  if 0 <? c then Ret c
  else if (- 2 ^ 63 <=? - c) && (- c <? 2 ^ 63) then Ret (- c) else Fault.

(** Quotient and remainder of the truncated division. *)
Definition imaxdiv (numer denom : Z) : outcome (Z * Z) :=
  if (denom =? 0) || ((numer =? - 2 ^ 63) && (denom =? -1)) then Fault
  else Ret (Z.quot numer denom, Z.rem numer denom).
