(* ===== verification/LibcStdlibTheorems.v ===== *)
(** * Properties of stdlib.c, ctype.c and the environment model *)

From S2P Require Import Prelude LibcString LibcStringSpec Digits LibcStdlib.

(** ** Entropy *)

Lemma interval_range e min max : min <= max -> min <= fst (Frama_C_interval e min max) <= max.
Proof. intros H. unfold Frama_C_interval. cbn. zbool; cbn; lia. Qed.

(** Every value of the interval is possible. *)
Lemma interval_reaches min max v : min <= v <= max -> - 2 ^ 31 <= v < 2 ^ 31 ->
  exists e, fst (Frama_C_interval e min max) = v.
Proof.
  intros Hv Hr. exists (fun _ => v). unfold Frama_C_interval. cbn. rewrite s32_small by done.
  zbool; cbn; lia.
Qed.

Lemma make_unknown_spec n m e p : mem_ok m -> accessible m p (Z.of_nat n) ->
  exists m' e', make_unknown_loop n m e p = Ret (m', e') /\ mem_ok m' /\ dom m' = dom m /\
    forall x, ~ (p <= x < p + Z.of_nat n) -> m' !! x = m !! x.
Proof.
  revert m e p. induction n as [|n IH]; intros m e p Hm Ha; cbn [make_unknown_loop].
  { by exists m, e. }
  cbn. assert (is_Some (m !! p)) as Hp by (apply Ha; lia). rewrite store8_spec by done. cbn [obind].
  destruct (IH (<[p := u8 (s32 (e 0%nat))]> m) (fun n => e (S n)) (p + 1)) as (m' & e' & -> & Hm' & Hd & Hx).
  - apply mem_ok_insert; [done|apply u8_range].
  - apply accessible_insert. eapply accessible_sub; [exact Ha|lia..].
  - exists m', e'. split; [done|]. split; [done|]. split; [by rewrite Hd, dom_insert_lookup_L|].
    intros x Hxr. rewrite Hx, lookup_insert_ne by lia. done.
Qed.

(** ** The environment *)

(** A terminator within reach ends a string. *)
Lemma terminated_cstr n m a : mem_ok m -> accessible m a (Z.of_nat n) -> m !! (a + Z.of_nat n) = Some 0 ->
  exists l, cstr m a l.
Proof.
  revert a. induction n as [|n IH]; intros a Hm Ha H0.
  { exists []. apply cstr_nil. by rewrite Z.add_0_r in H0. }
  destruct (Ha a) as [b Eb]; [lia|]. destruct (decide (b = 0)) as [->|Hb]; [exists []; by apply cstr_nil|].
  destruct (IH (a + 1)) as [l Hl]; [done|eapply accessible_sub; [exact Ha|lia..]| |].
  - by replace (a + 1 + Z.of_nat n) with (a + Z.of_nat (S n)) by lia.
  - exists (b :: l). apply cstr_cons. split; [done|]. split; [|done]. pose proof (Hm a b Eb) as Hu.
    unfold in_u in Hu. lia.
Qed.

Section Environment.
Context (str : Z).

(** An entry is null, points into the block of the environment strings, or is a
    string that the program put there. *)
Definition entry_ok (P : Z -> Prop) (v : Z) : Prop := v = 0 \/ str <= v < str + FC_INITENV_LEN \/ P v.

Record env_ok (P : Z -> Prop) (s : env_state) : Prop := {
  eo_len : length (fc_env s) = Z.to_nat ARG_MAX;
  eo_bytes : mem_ok (env_mem s);
  eo_room : accessible (env_mem s) str FC_INITENV_LEN;
  eo_term : env_mem s !! (str + (FC_INITENV_LEN - 1)) = Some 0;
  eo_entries : Forall (entry_ok P) (fc_env s)
}.

(** What an operation keeps: the invariant and the memory outside the block. *)
Definition env_step (P P' : Z -> Prop) (s s' : env_state) : Prop :=
  env_ok P' s' /\ forall x, ~ (str <= x < str + FC_INITENV_LEN) -> env_mem s' !! x = env_mem s !! x.

Lemma env_step_refl P s : env_ok P s -> env_step P P s s.
Proof. by split. Qed.

Lemma env_step_entropy P P' s s' e : env_step P P' s s' -> env_step P P' s (set_entropy s' e).
Proof. intros [[] Hx]. split; [by constructor|done]. Qed.

Lemma env_make_unknown_ok P s : env_ok P s ->
  exists s', env_make_unknown str s = Ret s' /\ env_step P P s s'.
Proof.
  intros []. unfold env_make_unknown, Frama_C_make_unknown.
  destruct (make_unknown_spec (Z.to_nat (FC_INITENV_LEN - 1)) (env_mem s)
    (Frama_C_update_entropy (env_entropy s)) str) as (m & e & -> & Hm & Hd & Hx); [done| |].
  { eapply accessible_sub; [exact eo_room0|unfold FC_INITENV_LEN; lia..]. }
  cbn. eexists. split; [done|]. split; [constructor; cbn; try done|].
  - eapply accessible_dom; eauto.
  - rewrite Hx by (unfold FC_INITENV_LEN; lia). done.
  - intros x Hne. apply Hx. unfold FC_INITENV_LEN in *. lia.
Qed.

Lemma env_interval_spec s min max : min <= max -> exists v e,
  env_interval s min max = (v, set_entropy s e) /\ min <= v <= max.
Proof.
  intros H. unfold env_interval. pose proof (interval_range (env_entropy s) _ _ H) as Hr.
  destruct (Frama_C_interval _ _ _) as [v e]. by exists v, e.
Qed.

Lemma env_nondet_spec s : exists b e, env_nondet s = (b2i b, set_entropy s e).
Proof.
  unfold env_nondet, Frama_C_nondet. cbn. destruct (i2b _); [exists false|exists true]; by eexists.
Qed.

Lemma store_env_ok P P' s0 s i v : env_step P P' s0 s -> 0 <= i < ARG_MAX -> entry_ok P' v ->
  exists s', store_env s i v = Ret s' /\ env_step P P' s0 s'.
Proof.
  intros [[] Hx] Hi Hv. unfold store_env. rewrite eo_len0, Z2Nat.id by (unfold ARG_MAX; lia).
  rewrite (proj2 (Z.leb_le 0 i)), (proj2 (Z.ltb_lt i ARG_MAX)) by lia. cbn.
  eexists. split; [done|]. split; [constructor; cbn; try done|done].
  - by rewrite length_insert.
  - by apply Forall_insert.
Qed.

Lemma fc_initenv_ok P s : env_ok P s -> exists s', fc_initenv str s = Ret s' /\ env_step P P s s'.
Proof.
  intros H. unfold fc_initenv. destruct (env_init s); cbn [negb]; [exists s; split; [done|by apply env_step_refl]|].
  destruct (env_make_unknown_ok P s H) as (s1 & -> & H1). cbn [obind].
  destruct (for_range_inv (fun i s => let (v, s) := env_interval s 0 (FC_INITENV_LEN - 1) in
    store_env s i (str + v)) (fun _ s' => env_step P P s s') 0 ARG_MAX s1) as (s2 & -> & H2); [done|done| |].
  - intros i s' Hi Hs'. destruct (env_interval_spec s' 0 (FC_INITENV_LEN - 1)) as (v & e & -> & Hv); [done|].
    apply store_env_ok; [by apply env_step_entropy|done|]. right. left. lia.
  - cbn. eexists. split; [done|]. destruct H2 as [[] Hx]. split; [by constructor|done].
Qed.

Lemma check_name_ok s name l : cstr (env_mem s) name l -> name <> 0 ->
  exists c, check_name s name = Ret c /\ (c = None \/ c = Some (-1)).
Proof.
  intros H Hn. unfold check_name, strchr.
  destruct (strchr_loop_cstr (steps (env_mem s)) (env_mem s) name (u8 61) 0 l) as (r & -> & _);
    [by rewrite Z.add_0_r|by eapply cstr_steps|]. cbn [obind].
  destruct (negb (r =? NULL)); [eauto|]. rewrite (strlen_cstr _ _ _ H). cbn [obind]. case_match; eauto.
Qed.

(** Entries are strings as soon as the ones of the program are. *)
Lemma entry_terminated P s v : env_ok P s -> entry_ok P v -> v <> 0 ->
  (forall p, P p -> exists l, cstr (env_mem s) p l) -> exists l, cstr (env_mem s) v l.
Proof.
  intros [] [?|[Hv|Hv]] Hn HP; [done| |by apply HP].
  apply (terminated_cstr (Z.to_nat (str + (FC_INITENV_LEN - 1) - v))); [done|..].
  - eapply accessible_sub; [exact eo_room0|lia..].
  - replace (v + _) with (str + (FC_INITENV_LEN - 1)) by lia. done.
Qed.
End Environment.

Section Operations.
Context (str : Z).

Lemma getenv_ok P s s1 name : fc_initenv str s = Ret s1 -> env_step str P P s s1 ->
  exists r s', getenv str s name = Ret (r, s') /\ env_step str P P s s' /\
    (r <> 0 -> (forall p, P p -> exists k, cstr (env_mem s') p k) -> exists k, cstr (env_mem s') r k).
Proof.
  intros Ei H1.
  unfold getenv. rewrite Ei. cbn [obind]. destruct (env_nondet_spec s1) as (b & e & ->).
  rewrite b2i_i2b. destruct b; [|exists 0, (set_entropy s1 e); split; [done|split; [by apply env_step_entropy|done]]].
  destruct (env_interval_spec (set_entropy s1 e) 0 (ARG_MAX - 1)) as (i & e' & -> & Hi); [done|].
  unfold load_env. rewrite (proj2 (Z.leb_le 0 i)) by lia.
  assert (env_step str P P s (set_entropy (set_entropy s1 e) e')) as H2 by by do 2 apply env_step_entropy.
  destruct (lookup_lt_is_Some_2 (fc_env s1) (Z.to_nat i)) as [v Ev].
  { rewrite (eo_len _ _ _ (proj1 H1)). lia. }
  cbn. rewrite Ev. cbn. do 2 eexists. split; [done|]. split; [exact H2|]. intros Hv HP.
  eapply entry_terminated; [exact (proj1 H2)| |done|done].
  eapply Forall_lookup_1; [apply (eo_entries _ _ _ (proj1 H1))|done].
Qed.

Lemma putenv_ok P s s1 string l' : fc_initenv str s = Ret s1 -> env_step str P P s s1 ->
  cstr (env_mem s) string l' ->
  exists r s', putenv str s string = Ret (r, s') /\ env_step str P (fun p => P p \/ p = string) s s'.
Proof.
  intros Ei H1 Hstring.
  unfold putenv, strchr.
  destruct (strchr_loop_cstr (steps (env_mem s)) (env_mem s) string (u8 61) 0 l') as (r & -> & _);
    [by rewrite Z.add_0_r|by eapply cstr_steps|]. cbn [obind]. rewrite Ei. cbn [obind].
  assert (env_step str P (fun p => P p \/ p = string) s s1) as H1'.
  { destruct H1 as [[] Hx]. split; [constructor; try done|done].
    eapply Forall_impl; [done|]. intros v [?|[?|?]]; unfold entry_ok; auto. }
  destruct (env_nondet_spec s1) as (b & e & ->). rewrite b2i_i2b.
  destruct b; [|exists 0, (set_entropy s1 e); split; [done|by apply env_step_entropy]].
  destruct (env_nondet_spec (set_entropy s1 e)) as (b & e' & ->). rewrite b2i_i2b. destruct b.
  + destruct (env_interval_spec (set_entropy (set_entropy s1 e) e') INT_MIN INT_MAX) as (i & e2 & -> & Hi);
      [done|]. do 2 eexists. split; [done|]. by do 3 apply env_step_entropy.
  + destruct (env_interval_spec (set_entropy (set_entropy s1 e) e') 0 (ARG_MAX - 1)) as (i & e2 & -> & Hi);
      [done|].
    destruct (store_env_ok str P (fun p => P p \/ p = string) s
        (set_entropy (set_entropy (set_entropy s1 e) e') e2) i string) as (s2 & -> & H2);
      [by do 3 apply env_step_entropy|lia|right; right; by right|]. cbn. eauto.
Qed.

Lemma setenv_ok P s s1 name value ov l : env_ok str P s -> fc_initenv str s = Ret s1 -> env_step str P P s s1 ->
  cstr (env_mem s) name l -> name <> 0 ->
  exists r s', setenv str s name value ov = Ret (r, s') /\ env_step str P P s s' /\ (r = 0 \/ r = -1).
Proof.
  intros Hok Ei H1 Hname Hnz.
  unfold setenv. destruct (check_name_ok s name l Hname Hnz) as (c & -> & [->| ->]); cbn [obind];
    [|exists (-1), s; split; [done|split; [by apply env_step_refl|auto]]].
  rewrite Ei. cbn [obind]. destruct (env_nondet_spec s1) as (b & e & ->). rewrite b2i_i2b.
  destruct b; [exists (-1), (set_entropy s1 e); split; [done|split; [by apply env_step_entropy|auto]]|].
  destruct (env_nondet_spec (set_entropy s1 e)) as (b & e' & ->). rewrite b2i_i2b.
  assert (env_step str P P s (set_entropy (set_entropy s1 e) e')) as H2 by by do 2 apply env_step_entropy.
  assert (exists s2, (if b then env_make_unknown str (set_entropy (set_entropy s1 e) e')
    else Ret (set_entropy (set_entropy s1 e) e')) = Ret s2 /\ env_step str P P s s2) as (s2 & -> & H3).
  { destruct b; [|eauto]. destruct (env_make_unknown_ok str P _ (proj1 H2)) as (s2 & -> & H3).
    exists s2. split; [done|]. split; [apply H3|]. intros x Hx. by rewrite (proj2 H3), (proj2 H2). }
  cbn [obind].
  destruct (env_interval_spec s2 0 (ARG_MAX - 1)) as (i & e2 & -> & Hi); [done|].
  destruct (env_interval_spec (set_entropy s2 e2) 0 (FC_INITENV_LEN - 1)) as (v & e3 & -> & Hv); [done|].
  destruct (store_env_ok str P P s (set_entropy (set_entropy s2 e2) e3) i (str + v)) as (s4 & -> & H4);
    [by do 2 apply env_step_entropy|lia|right; left; lia|]. cbn. eauto 10.
Qed.

Lemma unsetenv_ok P s s1 name l : env_ok str P s -> fc_initenv str s = Ret s1 -> env_step str P P s s1 ->
  cstr (env_mem s) name l -> name <> 0 ->
  exists r s', unsetenv str s name = Ret (r, s') /\ env_step str P P s s' /\ (r = 0 \/ r = -1).
Proof.
  intros Hok Ei H1 Hname Hnz.
  unfold unsetenv. destruct (check_name_ok s name l Hname Hnz) as (c & -> & [->| ->]); cbn [obind];
    [|exists (-1), s; split; [done|split; [by apply env_step_refl|auto]]].
  rewrite Ei. cbn [obind]. destruct (env_nondet_spec s1) as (b & e & ->). rewrite b2i_i2b.
  destruct b; [|exists 0, (set_entropy s1 e); split; [done|split; [by apply env_step_entropy|auto]]].
  destruct (env_interval_spec (set_entropy s1 e) 0 (ARG_MAX - 1)) as (i & e2 & -> & Hi); [done|].
  destruct (store_env_ok str P P s (set_entropy (set_entropy s1 e) e2) i 0) as (s4 & -> & H4);
    [by do 2 apply env_step_entropy|lia|by left|]. cbn. eauto 10.
Qed.
End Operations.

(** C30.  The model of the environment keeps its invariant under every operation
    and for every entropy: [__fc_env] has [ARG_MAX] entries, each of them null, in
    the block of the environment strings, which stays terminated, or a string given
    to [putenv]; no access is out of bounds and no other memory is written; and
    [getenv] answers null or a terminated string. *)
Theorem environment_invariant (str : Z) (P : Z -> Prop) (s : env_state)
  (name string value ov : Z) (l l' : list Z) :
  env_ok str P s -> cstr (env_mem s) name l -> name <> 0 -> cstr (env_mem s) string l' ->
  (exists r s', getenv str s name = Ret (r, s') /\ env_step str P P s s' /\
     (r <> 0 -> (forall p, P p -> exists k, cstr (env_mem s') p k) -> exists k, cstr (env_mem s') r k)) /\
  (exists r s', putenv str s string = Ret (r, s') /\
     env_step str P (fun p => P p \/ p = string) s s') /\
  (exists r s', setenv str s name value ov = Ret (r, s') /\ env_step str P P s s' /\ (r = 0 \/ r = -1)) /\
  (exists r s', unsetenv str s name = Ret (r, s') /\ env_step str P P s s' /\ (r = 0 \/ r = -1)).
Proof.
  intros Hok Hname Hnz Hstring. destruct (fc_initenv_ok str P s Hok) as (s1 & Ei & H1).
  split_and!; [by eapply getenv_ok|by eapply putenv_ok|by eapply setenv_ok|by eapply unsetenv_ok].
Qed.

Definition demo_env : env_state :=
  mk_env (replicate (Z.to_nat ARG_MAX) 0) (write (mem_fill 64 1000 0) 2000 [65; 61; 66; 0]) false (fun _ => 1).

Lemma demo_env_ok : env_ok 1000 (fun _ => False) demo_env.
Proof.
  assert (forall x, 1000 <= x < 1064 -> env_mem demo_env !! x = Some 0) as H.
  { intros x Hx. unfold demo_env. cbn [env_mem]. rewrite write_lookup, decide_False by (simpl; lia).
    by rewrite mem_fill_lookup, decide_True by lia. }
  constructor.
  - cbn [demo_env fc_env]. apply length_replicate.
  - intros x b. unfold demo_env. cbn [env_mem]. rewrite write_lookup. case_decide.
    + intros E%list_elem_of_lookup_2. set_unfold in E. unfold in_u. lia.
    + apply (mem_fill_ok 64 1000 0). unfold in_u. lia.
  - intros x Hx. exists 0. apply H. unfold FC_INITENV_LEN in Hx. lia.
  - apply H. unfold FC_INITENV_LEN. lia.
  - cbn [demo_env fc_env]. apply Forall_replicate. by left.
Qed.

Lemma demo_env_name : cstr (env_mem demo_env) 2002 [66].
Proof. rewrite cstr_cons, cstr_nil. repeat split. Qed.
Lemma demo_env_string : cstr (env_mem demo_env) 2000 [65; 61; 66].
Proof. rewrite !cstr_cons, cstr_nil. repeat split. Qed.

Lemma environment_invariant_witness : exists r s', putenv 1000 demo_env 2000 = Ret (r, s') /\
  env_step 1000 (fun _ => False) (fun p => False \/ p = 2000) demo_env s'.
Proof.
  refine (proj1 (proj2 (environment_invariant 1000 (fun _ => False) demo_env 2002 2000 2000 1
    [66] [65; 61; 66] demo_env_ok demo_env_name _ demo_env_string))). discriminate.
Defined.

(** ** [atoi] *)

Definition dec_chars (ds : list Z) : list Z := map (fun d => 48 + d) ds.

Lemma isdigit_dec d : 0 <= d < 10 -> i2b (isdigit (48 + d)) = true.
Proof. intros H. unfold isdigit, ISDIGIT. rewrite b2i_i2b. zbool; cbn; lia. Qed.

Lemma isdigit_inv c : i2b (isdigit c) = true -> 48 <= c <= 57.
Proof. unfold isdigit, ISDIGIT. rewrite b2i_i2b. zbool; cbn; done || lia. Qed.

Lemma num_val_le b acc ds : 1 <= b -> 0 <= acc -> Forall (fun d => 0 <= d < b) ds ->
  acc <= num_val b acc ds.
Proof.
  intros Hb Ha H. revert acc Ha. induction H as [|d ds Hd _ IH]; intros acc Ha; cbn [num_val]; [lia|].
  specialize (IH (acc * b + d) ltac:(nia)). nia.
Qed.

Lemma int_range_ok z : - 2 ^ 31 <= z < 2 ^ 31 -> int_range z = Ret z.
Proof. intros H. unfold int_range. zbool; cbn; done || lia. Qed.

(** The digits are accumulated negatively, so that the least [int] is read too. *)
Lemma atoi_digits_spec fuel m up acc ds c : 0 <= acc -> Forall (fun d => 0 <= d < 10) ds ->
  bytes m (up + 1) (dec_chars ds ++ [c]) -> i2b (isdigit c) = false -> (length ds < fuel)%nat ->
  num_val 10 acc ds <= 2 ^ 31 ->
  atoi_digits fuel m up (- acc) = Ret (- num_val 10 acc ds).
Proof.
  intros Ha Hds. revert fuel up acc Ha.
  induction Hds as [|d ds Hd Hds IH]; intros [|fuel] up acc Ha Hb Hc Hf Hv; try (simpl in Hf; lia);
    cbn [atoi_digits dec_chars map app] in *; apply bytes_cons in Hb as [E Hb];
    rewrite (load8_ok _ _ _ E); cbn [obind].
  - by rewrite Hc.
  - rewrite isdigit_dec by done. cbn [num_val] in Hv |- *.
    pose proof (num_val_le 10 (acc * 10 + d) ds ltac:(lia) ltac:(lia) Hds).
    rewrite int_range_ok by lia. cbn [obind]. rewrite int_range_ok by lia. cbn [obind].
    replace (- acc * 10 + (48 - (48 + d))) with (- (acc * 10 + d)) by lia.
    apply IH; [lia|done|done|simpl in Hf; lia|done].
Qed.

Lemma atoi_spaces_spec fuel m up sp d c : Forall (fun c => i2b (isspace c) = true) sp ->
  bytes m up (sp ++ [d]) -> i2b (isspace d) = false -> (length sp < fuel)%nat -> m !! up = Some c ->
  atoi_spaces fuel m up c = Ret (up + Z.of_nat (length sp), d).
Proof.
  intros Hs Hb Hd. revert fuel up c Hb.
  induction Hs as [|x sp Hx Hs IH]; intros [|fuel] up c Hb Hf Hc; try (simpl in Hf; lia);
    cbn [atoi_spaces app] in *; apply bytes_cons in Hb as [E Hb]; rewrite Hc in E; injection E as ->.
  - rewrite Hd. do 2 f_equal. simpl. lia.
  - rewrite Hx. destruct (bytes_accessible _ _ _ Hb (up + 1)) as [y Ey]; [rewrite length_app; simpl; lia|].
    rewrite (load8_ok _ _ _ Ey). cbn [obind].
    rewrite (IH fuel (up + 1) y Hb ltac:(simpl in Hf; lia) Ey). do 2 f_equal. simpl. lia.
Qed.

(** The optional sign of a number. *)
Inductive sign : Type := NoSign | Plus | Minus.
Definition sign_chars (s : sign) : list Z :=
  match s with NoSign => [] | Plus => [43] | Minus => [45] end.
Definition signed (s : sign) (n : Z) : Z := match s with Minus => - n | _ => n end.

Lemma isspace_not_digit c : i2b (isspace c) = true -> i2b (isdigit c) = false.
Proof.
  unfold isspace, isdigit, ISSPACE, ISDIGIT. rewrite !b2i_i2b. zbool; cbn; intros; try done; lia.
Qed.

(** The characters before the digits are consumed, and the sign is found. *)
Lemma atoi_start_spec m p sp sg d t : Forall (fun c => i2b (isspace c) = true) sp -> 0 <= d < 10 ->
  bytes m p (sp ++ sign_chars sg ++ (48 + d) :: t) ->
  atoi_start m p = Ret (Some (p + Z.of_nat (length sp + length (sign_chars sg)), 48 + d,
    match sg with Minus => true | _ => false end)).
Proof.
  intros Hsp Hd Hb. unfold atoi_start.
  assert (exists x t', sign_chars sg ++ (48 + d) :: t = x :: t' /\ i2b (isspace x) = false /\
    (sg = NoSign -> x = 48 + d /\ t' = t)) as (x & t' & Ex & Hx & Hn).
  { destruct sg; cbn; do 2 eexists; (split; [done|]); (split; [|done]); try done.
    unfold isspace, ISSPACE. rewrite b2i_i2b. zbool; cbn; done || lia. }
  rewrite Ex in Hb. pose proof Hb as Hb0. rewrite cons_middle, app_assoc in Hb0.
  apply bytes_app in Hb0 as [Hb0 _].
  destruct (bytes_accessible _ _ _ Hb p) as [c Ec]; [rewrite length_app; simpl; lia|].
  rewrite (load8_ok _ _ _ Ec). cbn [obind].
  assert (length sp < steps m)%nat as Hf.
  { apply bytes_accessible, accessible_size in Hb0. rewrite length_app in Hb0. simpl in Hb0.
    unfold steps. lia. }
  assert (sp = [] /\ sg = NoSign \/ i2b (isdigit c) = false) as Hcase.
  { destruct sp as [|y sp].
    - destruct sg; [by left|right..]; apply bytes_cons in Hb as [E _]; rewrite Ec in E; injection E as ->;
        injection Ex as <- _; done.
    - right. apply bytes_cons in Hb as [E _]. rewrite Ec in E. injection E as ->.
      apply isspace_not_digit. by apply Forall_cons in Hsp as [? _]. }
  destruct Hcase as [[-> ->]|Hc].
  - destruct (Hn eq_refl) as [-> _]. apply bytes_cons in Hb as [E _]. rewrite Ec in E. injection E as ->.
    rewrite isdigit_dec by done. cbn. do 4 f_equal. lia.
  - rewrite Hc. cbn [negb]. rewrite (atoi_spaces_spec _ m p sp x c Hsp Hb0 Hx Hf Ec). cbn [obind].
    apply bytes_app in Hb as [_ Hb]. rewrite <- Ex in Hb. destruct sg; cbn [sign_chars app] in Hb, Ex.
    + destruct (Hn eq_refl) as [-> _]. rewrite (proj2 (Z.eqb_neq _ 45)), (proj2 (Z.eqb_neq _ 43)) by lia.
      cbn [orb obind]. rewrite isdigit_dec by done. cbn. do 4 f_equal. lia.
    + injection Ex as <- _. change (43 =? 45) with false. cbn [Z.eqb orb Pos.eqb].
      apply bytes_cons in Hb as [_ [E _]%bytes_cons]. rewrite (load8_ok _ _ _ E). cbn [obind].
      rewrite isdigit_dec by done. cbn [negb]. do 4 f_equal. simpl. lia.
    + injection Ex as <- _. cbn [Z.eqb orb Pos.eqb].
      apply bytes_cons in Hb as [_ [E _]%bytes_cons]. rewrite (load8_ok _ _ _ E). cbn [obind].
      rewrite isdigit_dec by done. cbn [negb]. do 4 f_equal. simpl. lia.
Qed.

Lemma atoi_spec m p sp sg ds c : Forall (fun c => i2b (isspace c) = true) sp ->
  Forall (fun d => 0 <= d < 10) ds -> ds <> [] -> i2b (isdigit c) = false ->
  bytes m p (sp ++ sign_chars sg ++ dec_chars ds ++ [c]) ->
  - 2 ^ 31 <= signed sg (num_val 10 0 ds) < 2 ^ 31 ->
  atoi m p = Ret (signed sg (num_val 10 0 ds)).
Proof.
  intros Hsp Hds Hne Hc Hb Hv. destruct ds as [|d ds]; [done|]. cbn [dec_chars map app] in Hb.
  pose proof Hds as [Hd Hds']%Forall_cons.
  unfold atoi. rewrite (atoi_start_spec m p sp sg d _ Hsp Hd Hb). cbn [obind].
  assert (length ds < steps m)%nat as Hf.
  { apply bytes_accessible, accessible_size in Hb. rewrite !length_app in Hb. simpl in Hb.
    rewrite length_app, length_map in Hb. simpl in Hb. unfold steps. lia. }
  apply bytes_app in Hb as [_ [_ Hb]%bytes_app]. rewrite <- Z.add_assoc, <- Nat2Z.inj_add in Hb.
  apply bytes_cons in Hb as [_ Hb]. replace (48 - (48 + d)) with (- d) by lia.
  cbn [num_val] in Hv |- *. rewrite Z.mul_0_l, Z.add_0_l in Hv |- *.
  pose proof (num_val_le 10 d ds ltac:(lia) ltac:(lia) Hds').
  rewrite (atoi_digits_spec _ m _ d ds c) by (done || lia || (destruct sg; simpl in Hv; lia)).
  cbn [obind]. destruct sg; cbn [signed] in *; try done; by rewrite int_range_ok, Z.opp_involutive by lia.
Qed.

(** [atoi] reads every [int]: after white space and an optional sign, the
    decimal digits up to the first other character give the number, the least [int]
    included, with no overflow on the way. *)
Theorem atoi_reads_int (m : mem) (p : Z) (sp : list Z) (sg : sign) (ds : list Z) (c : Z) :
  Forall (fun c => i2b (isspace c) = true) sp ->
  Forall (fun d => 0 <= d < 10) ds -> ds <> [] -> i2b (isdigit c) = false ->
  bytes m p (sp ++ sign_chars sg ++ dec_chars ds ++ [c]) ->
  - 2 ^ 31 <= signed sg (num_val 10 0 ds) < 2 ^ 31 ->
  atoi m p = Ret (signed sg (num_val 10 0 ds)).
Proof. apply atoi_spec. Qed.

Lemma atoi_reads_int_witness :
  atoi (write ∅ 50 [32; 9; 45; 50; 49; 52; 55; 52; 56; 51; 54; 52; 56; 0]) 50 = Ret (- 2147483648).
Proof.
  refine (atoi_reads_int _ 50 [32; 9] Minus [2; 1; 4; 7; 4; 8; 3; 6; 4; 8] 0 _ _ _ _ _ _).
  - repeat constructor.
  - repeat constructor; lia.
  - discriminate.
  - reflexivity.
  - apply write_bytes.
  - vm_compute. split; [discriminate|reflexivity].
Defined.

(** ** [calloc] *)

(** [calloc] fails without allocating exactly when the product of its
    arguments overflows; otherwise the block that [malloc] gives has the product as
    its size and is filled with zeros, and nothing else is written. *)
Theorem calloc_checks_overflow (malloc : mem -> Z -> Z * mem) (m : mem) (nmemb size : Z) :
  in_u 64 nmemb -> in_u 64 size ->
  (2 ^ 64 <= nmemb * size -> calloc malloc m nmemb size = Ret (0, m)) /\
  (forall p m1, nmemb * size < 2 ^ 64 -> malloc m (nmemb * size) = (p, m1) ->
    (p = 0 -> calloc malloc m nmemb size = Ret (0, m1)) /\
    (p <> 0 -> accessible m1 p (nmemb * size) ->
      exists m2, calloc malloc m nmemb size = Ret (p, m2) /\
        forall x, m2 !! x = if decide (p <= x < p + nmemb * size) then Some 0 else m1 !! x)).
Proof.
  unfold in_u. intros Hn Hs. unfold calloc. destruct (Z.eqb_spec size 0) as [->|Hs0].
  - rewrite Z.mul_0_r. cbn [negb andb]. split; [lia|]. intros p m1 _ E.
    change (u64 0) with 0. rewrite E. unfold i2b. split; [by intros ->|]. intros Hp Ha.
    rewrite (proj2 (Z.eqb_neq p 0)) by done. cbn. exists m1. split; [done|]. intros x.
    by rewrite decide_False by lia.
  - cbn [negb andb]. split.
    + intros Ho. assert (u64 (nmemb * size) / size <> nmemb) as Hd.
      { intros E. pose proof (Z.mul_div_le (u64 (nmemb * size)) size ltac:(lia)) as H.
        rewrite E in H. pose proof (u64_range (nmemb * size)) as Hu. unfold in_u in Hu. nia. }
      by rewrite (proj2 (Z.eqb_neq _ _) Hd).
    + intros p m1 Hlt E. rewrite u64_small by (unfold in_u; nia). rewrite Z.div_mul, Z.eqb_refl by done.
      cbn [negb]. rewrite E. unfold i2b. split; [by intros ->|]. intros Hp Ha.
      rewrite (proj2 (Z.eqb_neq p 0)) by done. cbn [negb]. unfold memset.
      destruct (fill_range m1 p 0 0 (nmemb * size)) as (m2 & -> & _ & Hx);
        [nia|eapply accessible_sub; [exact Ha|lia..]|].
      cbn. exists m2. split; [done|]. intros x. rewrite Hx. by rewrite Z.add_0_r.
Qed.

Lemma calloc_checks_overflow_witness :
  calloc (fun m n => (4096, mem_fill (Z.to_nat n) 4096 7 ∪ m)) ∅ (2 ^ 32 + 1) (2 ^ 32) = Ret (0, ∅).
Proof.
  apply calloc_checks_overflow.
  - unfold in_u. lia.
  - unfold in_u. lia.
  - lia.
Defined.
