(* ===== verification/LibcStatic.v ===== *)
(** * The functions of the C library that answer a static buffer

    strerror and strsignal of string.c, ctime of time.c, setlocale and localeconv of
    locale.c, fetestexcept of fenv.c and the assertion of assert.c, with the contracts
    of the first three.  The contents of the buffers come from the entropy source. *)

From S2P Require Import Prelude LibcString LibcStringSpec AcslString LibcStdlib LibcStdlibTheorems.

(** ** Definitions *)

(** The memory, the entropy and the flag of the initialization of a buffer. *)
Record static_state : Type := mk_static { st_mem : mem; st_entropy : entropy; st_init : bool }.

(** The common part of [strerror] and [strsignal]: a buffer of 64 characters. *)
Definition static_message (buffer : Z) (s : static_state) : outcome (Z * static_state) :=
  if negb (st_init s) then
    let* (m, e) := Frama_C_make_unknown (st_mem s) (st_entropy s) buffer 63 in
    let* m := store8 m (buffer + 63) 0 in
    Ret (buffer, mk_static m e true)
  else Ret (buffer, s).
Section Messages.
(** The addresses of [__fc_strerror] and [__fc_strsignal]. *)
Context (fc_strerror fc_strsignal : Z).
Definition strerror (errnum : Z) (s : static_state) : outcome (Z * static_state) := static_message fc_strerror s.
Definition strsignal (signum : Z) (s : static_state) : outcome (Z * static_state) := static_message fc_strsignal s.
End Messages.

(** [ctime], with the address of [__fc_ctime]. *)
Definition ctime (fc_ctime : Z) (timer : Z) (s : static_state) : outcome (Z * static_state) :=
  let* (m, e) := Frama_C_make_unknown (st_mem s) (st_entropy s) fc_ctime 26 in
  let* m := store8 m (fc_ctime + 25) 0 in
  Ret (fc_ctime, mk_static m e (st_init s)).

(** [setlocale]: the current locale and the names, of which the first is "C". *)
Section Locale.
Context (C_locale : Z) (locale_names : list Z).
Definition setlocale (m : mem) (current locale : Z) : outcome (Z * Z) :=
  let* c := load8 m locale in
  if s8 c =? 67 then let* n := deref (locale_names !! 0%nat) in Ret (n, C_locale)
  else Ret (NULL, current).
End Locale.
Definition localeconv (current : Z) : Z := current.

(** [fetestexcept]: the value read from the volatile status word, masked. *)
Definition fetestexcept (e : entropy) (excepts : Z) : Z * entropy :=
  let (v, e) := read_entropy e in (Z.land 255 v, e).

(** [__FC_assert]. *)
Definition FC_assert (c : Z) : outcome unit := if c =? 0 then Abort else Ret tt.

(** ** Contracts of string.h and time.h *)

Section Contracts.
Context `{BK : !Blocks}.
(** [strerror] and [strsignal]: the postcondition. *)
Definition message_ensures (buffer : Z) (r : Z) (m : mem) : Prop :=
  r = buffer /\ rd m (r + 63) = 0 /\ valid_read_string m r.
Definition ctime_ensures (buffer : Z) (r : Z) (m : mem) : Prop := r = buffer /\ valid_read_string m buffer.

(** The buffer of a message: an array of [n] characters, terminated once initialized. *)
Definition message_buffer (buffer : Z) (s : static_state) : Prop :=
  mem_ok (st_mem s) /\ valid (st_mem s) buffer 0 63 /\
  (st_init s = true -> st_mem s !! (buffer + 63) = Some 0).

Lemma valid_dom m m' p lo hi : valid m p lo hi -> dom m' = dom m -> valid m' p lo hi.
Proof.
  intros H Hd a Ha. destruct (H a Ha) as (H1 & H2). split; [| exact H2].
  apply elem_of_dom. rewrite Hd. apply elem_of_dom. exact H1.
Qed.

(** An array whose last character is null holds a string. *)
Lemma terminated_array m p n : 0 <= n -> valid m p 0 n -> m !! (p + n) = Some 0 -> valid_read_string m p.
Proof.
  intros Hn Hv Hz.
  assert (L : 0 <= strlen_l m p <= n) by (apply strlen_l_le; [exact Hn | unfold rd; rewrite Hz; reflexivity]).
  split; [lia |]. intros a Ha. apply Hv. unfold range in *. lia.
Qed.

(** A buffer filled with unknown characters and a terminator. *)
Lemma fill_buffer m e p k n : 0 <= k -> k <= n + 1 -> mem_ok m -> valid m p 0 n -> 0 <= n ->
  exists m' e', (let* (m, e) := Frama_C_make_unknown m e p k in
                 let* m := store8 m (p + n) 0 in Ret (m, e)) = Ret (m', e') /\
    mem_ok m' /\ dom m' = dom m /\ m' !! (p + n) = Some 0 /\
    forall x, ~ (p <= x <= p + n) -> m' !! x = m !! x.
Proof.
  intros Hk Hkn Hm Hv Hn. unfold Frama_C_make_unknown.
  assert (Ha : accessible m p (Z.of_nat (Z.to_nat k))).
  { intros x Hx. apply (Hv x). unfold range. lia. }
  destruct (make_unknown_spec (Z.to_nat k) m (Frama_C_update_entropy e) p Hm Ha) as (m1 & e1 & -> & Hm1 & Hd & Hf).
  cbn [obind]. assert (Hl : is_Some (m1 !! (p + n))).
  { apply elem_of_dom. rewrite Hd. apply elem_of_dom, (Hv (p + n)). unfold range. lia. }
  rewrite store8_spec by exact Hl. cbn [obind]. eexists _, _. split; [reflexivity |].
  split; [apply mem_ok_insert; [exact Hm1 | split; [discriminate | reflexivity]] |].
  split; [rewrite dom_insert_lookup_L by exact Hl; exact Hd |]. split; [apply lookup_insert_eq |].
  intros x Hx. rewrite lookup_insert_ne by lia. apply Hf. lia.
Qed.
End Contracts.

(** ** Theorems *)

Section MessageLemmas.
Context `{BK : !Blocks}.
Lemma static_message_spec buffer s : message_buffer buffer s ->
  exists s', static_message buffer s = Ret (buffer, s') /\
    message_ensures buffer buffer (st_mem s') /\ message_buffer buffer s' /\ st_init s' = true /\
    (st_init s = true -> s' = s) /\
    forall x, ~ (buffer <= x <= buffer + 63) -> st_mem s' !! x = st_mem s !! x.
Proof.
  intros (Hm & Hv & Hi). unfold static_message. destruct (st_init s) eqn:E; cbn [negb].
  - exists s. specialize (Hi eq_refl). split; [reflexivity |].
    split; [split; [reflexivity |]; split; [unfold rd; rewrite Hi; reflexivity |] |].
    + exact (terminated_array _ _ 63 ltac:(lia) Hv Hi).
    + split; [exact (conj Hm (conj Hv (fun _ => Hi))) |]. auto.
  - destruct (fill_buffer (st_mem s) (st_entropy s) buffer 63 63 ltac:(lia) ltac:(lia) Hm Hv ltac:(lia))
      as (m' & e' & Ef & Hm' & Hd & Hz & Hf).
    destruct (Frama_C_make_unknown (st_mem s) (st_entropy s) buffer 63) as [[m1 e1] | | |]; try discriminate.
    cbn [obind] in Ef |- *. destruct (store8 m1 (buffer + 63) 0) as [m2 | | |]; try discriminate.
    cbn [obind] in Ef |- *. injection Ef as -> ->. exists (mk_static m' e' true). split; [reflexivity |].
    pose proof (valid_dom _ _ _ _ _ Hv Hd) as Hv'.
    split; [split; [reflexivity |]; split; [cbn; unfold rd; rewrite Hz; reflexivity |] |].
    + exact (terminated_array _ _ 63 ltac:(lia) Hv' Hz).
    + split; [exact (conj Hm' (conj Hv' (fun _ => Hz))) |]. split; [reflexivity |]. split; [discriminate | exact Hf].
Qed.

Lemma ctime_spec buffer timer s : mem_ok (st_mem s) -> valid (st_mem s) buffer 0 25 ->
  exists s', ctime buffer timer s = Ret (buffer, s') /\ ctime_ensures buffer buffer (st_mem s') /\
    mem_ok (st_mem s') /\ dom (st_mem s') = dom (st_mem s) /\
    forall x, ~ (buffer <= x <= buffer + 25) -> st_mem s' !! x = st_mem s !! x.
Proof.
  intros Hm Hv. unfold ctime.
  destruct (fill_buffer (st_mem s) (st_entropy s) buffer 26 25 ltac:(lia) ltac:(lia) Hm Hv ltac:(lia))
    as (m' & e' & Ef & Hm' & Hd & Hz & Hf).
  destruct (Frama_C_make_unknown (st_mem s) (st_entropy s) buffer 26) as [[m1 e1] | | |]; try discriminate.
  cbn [obind] in Ef |- *. destruct (store8 m1 (buffer + 25) 0) as [m2 | | |]; try discriminate.
  cbn [obind] in Ef |- *. injection Ef as -> ->. eexists. split; [reflexivity |].
  split; [split; [reflexivity | exact (terminated_array _ _ 25 ltac:(lia) (valid_dom _ _ _ _ _ Hv Hd) Hz)] |].
  auto.
Qed.
End MessageLemmas.

(** Strerror, strsignal and ctime meet their contracts for every entropy: they
    answer their buffer, which holds a terminated string within its bounds, and write
    nothing else; once initialized, the buffers of strerror and strsignal keep their
    string. *)
Theorem static_buffers_meet_contracts `{BK : !Blocks} (fc_strerror fc_strsignal fc_ctime n : Z) (s : static_state) :
  message_buffer fc_strerror s -> message_buffer fc_strsignal s -> valid (st_mem s) fc_ctime 0 25 ->
  (exists s', strerror fc_strerror n s = Ret (fc_strerror, s') /\
     message_ensures fc_strerror fc_strerror (st_mem s') /\ message_buffer fc_strerror s' /\
     (forall x, ~ (fc_strerror <= x <= fc_strerror + 63) -> st_mem s' !! x = st_mem s !! x) /\
     forall k, strerror fc_strerror k s' = Ret (fc_strerror, s')) /\
  (exists s', strsignal fc_strsignal n s = Ret (fc_strsignal, s') /\
     message_ensures fc_strsignal fc_strsignal (st_mem s') /\ message_buffer fc_strsignal s' /\
     (forall x, ~ (fc_strsignal <= x <= fc_strsignal + 63) -> st_mem s' !! x = st_mem s !! x) /\
     forall k, strsignal fc_strsignal k s' = Ret (fc_strsignal, s')) /\
  (exists s', ctime fc_ctime n s = Ret (fc_ctime, s') /\ ctime_ensures fc_ctime fc_ctime (st_mem s') /\
     forall x, ~ (fc_ctime <= x <= fc_ctime + 25) -> st_mem s' !! x = st_mem s !! x).
Proof.
  intros H1 H2 H3.
  assert (K : forall b, message_buffer b s -> exists s', static_message b s = Ret (b, s') /\
     message_ensures b b (st_mem s') /\ message_buffer b s' /\
     (forall x, ~ (b <= x <= b + 63) -> st_mem s' !! x = st_mem s !! x) /\
     (Z -> static_message b s' = Ret (b, s'))).
  { intros b Hb. destruct (static_message_spec b s Hb) as (s' & E & He & Hb' & Hi & _ & Hf).
    exists s'. split; [exact E |]. split; [exact He |]. split; [exact Hb' |]. split; [exact Hf |]. intros _.
    unfold static_message. rewrite Hi. reflexivity. }
  split; [exact (K _ H1) |]. split; [exact (K _ H2) |].
  destruct (ctime_spec fc_ctime n s (proj1 H1) H3) as (s' & E & He & _ & _ & Hf). eauto.
Qed.

(** One block from 0 to 1024. *)
Definition one_block : Blocks.
Proof. refine {| base_addr := fun _ => 0; block_length := fun _ => 1024 |}. reflexivity. Defined.
Definition static_demo : static_state := mk_static (write ∅ 100 (replicate 300 0)) (fun _ => 65) false.
Lemma static_buffers_meet_contracts_witness :
  exists s', strerror 100 1 static_demo = Ret (100, s') /\ @message_ensures one_block 100 100 (st_mem s').
Proof.
  assert (Hv : forall p n, 100 <= p -> p + n < 400 -> @valid one_block (st_mem static_demo) p 0 n).
  { intros p n Hp Hn a Ha. unfold range in Ha. split; [| split; [lia | split; [reflexivity | cbn; lia]]].
    apply (bytes_accessible _ _ _ (write_bytes ∅ 100 (replicate 300 0))). rewrite length_replicate. lia. }
  assert (Hm : mem_ok (st_mem static_demo)).
  { apply (bool_decide_unpack (map_Forall (fun _ b => in_u 8 b) (st_mem static_demo))). vm_compute. exact I. }
  destruct (@static_buffers_meet_contracts one_block 100 170 250 1 static_demo) as [(s' & E & H & _) _].
  - split; [exact Hm |]. split; [apply Hv; lia | discriminate].
  - split; [exact Hm |]. split; [apply Hv; lia | discriminate].
  - apply Hv; lia.
  - exists s'. auto.
Defined.

(** setlocale takes every name that starts with [C] for the locale "C", keeps the locale
    for the other names, and reads through the null pointer that its contract allows;
    fetestexcept answers flags that it was not asked for. *)
Theorem locale_departures (C_locale : Z) (names : list Z) (n : Z) :
  names !! 0%nat = Some n ->
  (forall m current locale l, cstr m locale (67 :: l) -> setlocale C_locale names m current locale = Ret (n, C_locale)) /\
  (forall m current locale b l, cstr m locale (b :: l) -> b <> 67 -> setlocale C_locale names m current locale = Ret (NULL, current)) /\
  (forall m current, m !! NULL = None -> setlocale C_locale names m current NULL = Fault) /\
  (exists e, fst (fetestexcept e 0) <> 0).
Proof.
  intros Hn. split; [| split; [| split]].
  - intros m current locale l H. apply cstr_cons in H. unfold setlocale. rewrite (load8_ok _ _ _ (proj1 H)), Hn. reflexivity.
  - intros m current locale b l H Hb. apply cstr_cons in H. destruct H as (H & Hr & _). unfold setlocale.
    rewrite (load8_ok _ _ _ H). cbn [obind]. replace (s8 b =? 67) with false; [reflexivity |].
    symmetry. apply Z.eqb_neq. unfold s8. dlia.
  - intros m current H. unfold setlocale, load8. rewrite H. reflexivity.
  - exists (fun _ => 1). vm_compute. discriminate.
Qed.
Lemma locale_departures_witness : [5] !! 0%nat = Some 5 /\ setlocale 9 [5] ∅ 7 NULL = Fault.
Proof. split; [reflexivity |]. apply (locale_departures 9 [5] 5 eq_refl). reflexivity. Defined.
