(* ===== verification/LibcGlob.v ===== *)
(** * share/libc/glob.c

    The model of glob, which simulates a search with the entropy source, and globfree.
    The vector of paths is a block of pointers; the allocation functions are an
    interface. *)

From S2P Require Import Prelude LibcStdlib.

Definition GLOB_ERR : Z := Z.shiftl 1 0.
Definition GLOB_DOOFFS : Z := Z.shiftl 1 3.
Definition GLOB_NOCHECK : Z := Z.shiftl 1 4.
Definition GLOB_APPEND : Z := Z.shiftl 1 5.
Definition GLOB_NOSPACE : Z := 1.
Definition GLOB_ABORTED : Z := 2.
Definition GLOB_NOMATCH : Z := 3.

(** [realloc] of a block of pointers ([None] is the null pointer): a block that holds as
    many pointers as fit into the size, those of the old block first, or null. *)
Class SlotHeap : Type := {
  realloc_slots : option (list Z) -> Z -> option (list Z);
  realloc_length : forall b n l, realloc_slots b n = Some l -> Z.of_nat (length l) = n / 8;
  realloc_keeps : forall b n l i v, realloc_slots (Some b) n = Some l -> b !! i = Some v -> (i < length l)%nat ->
    l !! i = Some v
}.

(** [gl_pathc], [gl_pathv], [gl_offs], and the entropy. *)
Record glob_t : Type := mk_glob {
  gl_pathc : Z;
  gl_pathv : option (list Z);
  gl_offs : Z;
  gl_entropy : entropy
}.
Definition set_pathv (g : glob_t) (v : option (list Z)) : glob_t := mk_glob (gl_pathc g) v (gl_offs g) (gl_entropy g).
Definition set_pathc (g : glob_t) (c : Z) : glob_t := mk_glob c (gl_pathv g) (gl_offs g) (gl_entropy g).
Definition set_gentropy (g : glob_t) (e : entropy) : glob_t := mk_glob (gl_pathc g) (gl_pathv g) (gl_offs g) e.

(** Accesses to the vector. *)
Definition load_slot (v : option (list Z)) (i : Z) : outcome Z :=
  match v with
  | Some l => if 0 <=? i then deref (l !! Z.to_nat i) else Fault
  | None => Fault
  end.
Definition store_slot (v : option (list Z)) (i x : Z) : outcome (option (list Z)) :=
  match v with
  | Some l => if (0 <=? i) && (i <? Z.of_nat (length l)) then Ret (Some (<[Z.to_nat i := x]> l)) else Fault
  | None => Fault
  end.

(** [while (gl_pathv[reserve_offs+prev_len]) prev_len++]. *)
Fixpoint count_paths (fuel : nat) (v : option (list Z)) (reserve_offs prev_len : Z) : outcome Z :=
  match fuel with
  | O => NoFuel
  | S fuel =>
      let* p := load_slot v (u64 (reserve_offs + prev_len)) in
      if p =? 0 then Ret prev_len else count_paths fuel v reserve_offs (prev_len + 1)
  end.

(** [for (size_t i = 0; i < n; i++) gl_pathv[from + i] = x]. *)
Fixpoint fill_slots (n : nat) (v : option (list Z)) (from x : Z) : outcome (option (list Z)) :=
  match n with
  | O => Ret v
  | S n => let* v := store_slot v from x in fill_slots n v (from + 1) x
  end.

Section Glob.
Context `{SH : !SlotHeap}.
(** The address of the literal "glob result", and the function of the caller. *)
Context (glob_result : Z) (errfunc : option (Z -> Z)).

Definition glob (pattern flags : Z) (g : glob_t) : outcome (Z * glob_t) :=
  let (c, e) := Frama_C_interval (gl_entropy g) 0 10 in
  let g := set_gentropy (set_pathc g c) e in
  let reserve_offs := if negb (Z.land flags GLOB_DOOFFS =? 0) then gl_offs g else 0 in
  let append := negb (Z.land flags GLOB_APPEND =? 0) in
  let* prev_len :=
    if append then count_paths (S (match gl_pathv g with Some l => length l | None => O end)) (gl_pathv g) reserve_offs 0
    else Ret 0 in
  let path := if append then gl_pathv g else None in
  if gl_pathc g =? 0 then
    if negb (Z.land flags GLOB_NOCHECK =? 0) then
      let v := realloc_slots path (u64 (u64 (reserve_offs + prev_len + 2) * 8)) in
      let g := set_pathv g v in
      match v with
      | None => Ret (GLOB_NOSPACE, g)
      | Some _ =>
          let* v := fill_slots (Z.to_nat reserve_offs) v 0 0 in
          let* v := store_slot v (reserve_offs + prev_len) pattern in
          let* v := store_slot v (reserve_offs + prev_len + 1) 0 in
          Ret (0, set_pathv g v)
      end
    else Ret (GLOB_NOMATCH, g)
  else
    let v := realloc_slots path (u64 (u64 (reserve_offs + prev_len + gl_pathc g + 1) * 8)) in
    let g := set_pathv g v in
    match v with
    | None => Ret (GLOB_NOSPACE, g)
    | Some _ =>
        let* v := fill_slots (Z.to_nat reserve_offs) v 0 0 in
        let* v := fill_slots (Z.to_nat (gl_pathc g)) v (reserve_offs + prev_len) glob_result in
        let* v := store_slot v (prev_len + reserve_offs + gl_pathc g) 0 in
        let g := set_pathv g v in
        let (b, e) := Frama_C_nondet (gl_entropy g) 0 1 in
        let g := set_gentropy g e in
        if i2b b then Ret (0, g)
        else
          match errfunc with
          | Some f =>
              let (x, e) := Frama_C_interval (gl_entropy g) 0 255 in
              let g := set_gentropy g e in
              let res := f x in
              if i2b res || negb (Z.land flags GLOB_ERR =? 0) then Ret (GLOB_ABORTED, g) else Ret (0, g)
          | None => Ret (0, g)
          end
    end.

(** The block that [globfree] frees, if any. *)
Definition globfree (g : glob_t) : option (list Z) := if 0 <? gl_pathc g then gl_pathv g else None.
End Glob.

(** ** Specification *)

(** The vector of [reserve] null pointers, the paths and the terminator. *)
Definition vector (reserve : Z) (paths : list Z) : list Z := replicate (Z.to_nat reserve) 0 ++ paths ++ [0].
Definition reserved (flags : Z) (g : glob_t) : Z := if negb (Z.land flags GLOB_DOOFFS =? 0) then gl_offs g else 0.
Definition appends (flags : Z) : bool := negb (Z.land flags GLOB_APPEND =? 0).

(** ** Lemmas *)

Lemma store_slot_at l i x r : (i < length l)%nat -> r = <[i := x]> l -> store_slot (Some l) (Z.of_nat i) x = Ret (Some r).
Proof. intros H ->. unfold store_slot. replace ((0 <=? Z.of_nat i) && _) with true by lia. rewrite Nat2Z.id. reflexivity. Qed.

Lemma fill_slots_spec n l1 l2 l3 x : length l2 = n ->
  fill_slots n (Some (l1 ++ l2 ++ l3)) (Z.of_nat (length l1)) x = Ret (Some (l1 ++ replicate n x ++ l3)).
Proof.
  revert l1 l2. induction n as [| n IH]; intros l1 l2 H.
  - destruct l2; [reflexivity | discriminate].
  - destruct l2 as [| y l2]; [discriminate |]. cbn [fill_slots].
    rewrite (store_slot_at _ _ _ (l1 ++ (x :: l2) ++ l3)).
    2: { rewrite !length_app. cbn. lia. }
    2: { rewrite insert_app_r_alt by lia. rewrite Nat.sub_diag. reflexivity. }
    cbn [obind]. replace (Z.of_nat (length l1) + 1) with (Z.of_nat (length (l1 ++ [x]))) by (rewrite length_app; cbn; lia).
    replace (l1 ++ (x :: l2) ++ l3) with ((l1 ++ [x]) ++ l2 ++ l3) by (rewrite <- app_assoc; reflexivity).
    rewrite IH by (cbn in H; lia). cbn [replicate]. rewrite <- app_assoc. reflexivity.
Qed.

Lemma store_slot_spec l1 y l3 i x : i = Z.of_nat (length l1) ->
  store_slot (Some (l1 ++ y :: l3)) i x = Ret (Some (l1 ++ x :: l3)).
Proof.
  intros ->. apply store_slot_at; [rewrite length_app; cbn; lia |].
  rewrite insert_app_r_alt by lia. rewrite Nat.sub_diag. reflexivity.
Qed.

Lemma count_paths_spec fuel l r p q k : l = r ++ p ++ 0 :: q -> Forall (fun x => x <> 0) p ->
  Z.of_nat (length l) < 2 ^ 64 -> (k <= length p)%nat -> (length p - k < fuel)%nat ->
  count_paths fuel (Some l) (Z.of_nat (length r)) (Z.of_nat k) = Ret (Z.of_nat (length p)).
Proof.
  intros -> Hp Hl. revert k. induction fuel as [| fuel IH]; intros k Hk Hf; [lia |].
  cbn [count_paths]. rewrite !length_app in Hl. cbn in Hl.
  replace (u64 (Z.of_nat (length r) + Z.of_nat k)) with (Z.of_nat (length r + k)) by (unfold u64; rewrite Z.mod_small; lia).
  unfold load_slot. rewrite (proj2 (Z.leb_le 0 _)) by lia. rewrite Nat2Z.id.
  destruct (decide (k = length p)) as [-> | Hne].
  - rewrite lookup_app_r, lookup_app_r by lia. replace (length r + length p - length r - length p)%nat with 0%nat by lia.
    reflexivity.
  - destruct (lookup_lt_is_Some_2 p k ltac:(lia)) as [y Hy].
    rewrite lookup_app_r by lia. replace (length r + k - length r)%nat with k by lia.
    rewrite lookup_app_l, Hy by lia. cbn [deref obind].
    destruct (Z.eqb_spec y 0) as [-> | _]; [exfalso; exact (Forall_lookup_1 _ _ _ _ Hp Hy eq_refl) |].
    replace (Z.of_nat k + 1) with (Z.of_nat (S k)) by lia. apply IH; lia.
Qed.

Section Results.
Context `{SH : !SlotHeap}.

(** What a call that appends finds in the vector: the reserved slots, the paths of the
    calls before, and a terminator. *)
Definition holds_paths (v : option (list Z)) (reserve : Z) (prev : list Z) : Prop :=
  exists r q, v = Some (r ++ prev ++ 0 :: q) /\ Z.of_nat (length r) = reserve.

(** The vector after [realloc]: room for [k] pointers, the previous paths in place. *)
Lemma realloc_vector b k l reserve prev : 0 <= reserve -> 0 <= k < 2 ^ 61 ->
  reserve + Z.of_nat (length prev) <= k ->
  (prev = [] \/ holds_paths b reserve prev) ->
  realloc_slots b (u64 (u64 k * 8)) = Some l ->
  exists r t, l = r ++ prev ++ t /\ Z.of_nat (length r) = reserve /\
    Z.of_nat (length t) = k - reserve - Z.of_nat (length prev).
Proof.
  intros Hres Hk Hroom Hb E.
  assert (Hl : Z.of_nat (length l) = k).
  { rewrite (realloc_length _ _ _ E). unfold u64. rewrite (Z.mod_small k) by lia.
    rewrite Z.mod_small by lia. apply Z.div_mul. lia. }
  set (n := Z.to_nat reserve). exists (take n l), (drop (n + length prev) l).
  assert (Hprev : take (length prev) (drop n l) = prev).
  { destruct Hb as [-> | (r & q & -> & Hr)]; [reflexivity |]. apply list_eq_same_length with (length prev); [reflexivity | |].
    - rewrite length_take, length_drop. lia.
    - intros i x y Hi Hx Hy. rewrite lookup_take_lt, lookup_drop in Hx by lia.
      rewrite (realloc_keeps _ _ _ (n + i) y E) in Hx; [congruence | | lia].
      rewrite lookup_app_r by lia. replace (n + i - length r)%nat with i by lia.
      rewrite lookup_app_l by lia. exact Hy. }
  split; [| rewrite length_take, length_drop; lia].
  rewrite <- Hprev at 1. rewrite <- drop_drop. rewrite take_drop, take_drop. reflexivity.
Qed.

Lemma fill_vector l r mid t reserve : l = r ++ mid ++ t -> Z.of_nat (length r) = reserve ->
  fill_slots (Z.to_nat reserve) (Some l) 0 0 = Ret (Some (replicate (Z.to_nat reserve) 0 ++ mid ++ t)).
Proof. intros -> H. apply (fill_slots_spec (Z.to_nat reserve) [] r (mid ++ t)). lia. Qed.

(** The stores into a new vector of [k + 1] pointers after the reserved slots and the
    previous paths, one at a time. *)
Lemma write_vector b l reserve prev c x : 0 <= reserve -> 0 <= c -> reserve + Z.of_nat (length prev) + c + 1 < 2 ^ 61 ->
  (prev = [] \/ holds_paths b reserve prev) ->
  realloc_slots b (u64 (u64 (reserve + Z.of_nat (length prev) + c + 1) * 8)) = Some l ->
  exists v1 v2, fill_slots (Z.to_nat reserve) (Some l) 0 0 = Ret v1 /\
    fill_slots (Z.to_nat c) v1 (reserve + Z.of_nat (length prev)) x = Ret v2 /\
    store_slot v2 (Z.of_nat (length prev) + reserve + c) 0 =
      Ret (Some (vector reserve (prev ++ replicate (Z.to_nat c) x))).
Proof.
  intros Hres Hc Hb Hold Er.
  destruct (realloc_vector b (reserve + Z.of_nat (length prev) + c + 1) l reserve prev) as (r & t & El & Hr & Ht);
    [lia | lia | lia | exact Hold | exact Er |].
  assert (exists t1 t2, t = t1 ++ [t2] /\ length t1 = Z.to_nat c) as (t1 & t2 & -> & Ht1).
  { destruct (exists_last (l := t)) as (t1 & t2 & ->); [intros ->; cbn in Ht; lia |].
    exists t1, t2. split; [reflexivity |]. rewrite length_app in Ht. cbn in Ht. lia. }
  eexists _, _. split; [exact (fill_vector l r prev _ reserve El Hr) |]. rewrite app_assoc.
  replace (reserve + Z.of_nat (length prev)) with (Z.of_nat (length (replicate (Z.to_nat reserve) 0 ++ prev)))
    by (rewrite length_app, length_replicate; lia).
  split; [apply fill_slots_spec; exact Ht1 |]. rewrite app_assoc.
  rewrite store_slot_spec by (rewrite !length_app, !length_replicate; lia).
  unfold vector. rewrite <- !app_assoc. reflexivity.
Qed.

(** The count of the previous paths. *)
Lemma previous_paths v reserve prev : holds_paths v reserve prev -> Forall (fun x => x <> 0) prev ->
  (forall l, v = Some l -> Z.of_nat (length l) < 2 ^ 64) ->
  count_paths (S (match v with Some l => length l | None => O end)) v reserve 0 = Ret (Z.of_nat (length prev)).
Proof.
  intros (r & q & -> & <-) Hp Hl. apply (count_paths_spec _ _ r prev q 0); [reflexivity | exact Hp | auto | lia |].
  rewrite !length_app. cbn. lia.
Qed.
End Results.

(** ** Theorems *)

(** How a call ends: without a match; without memory; with the pattern, if there is no
    match and GLOB_NOCHECK is set; or with up to ten paths, after which errfunc may
    have ended the call. *)
Inductive glob_ends (g : glob_t) (pattern glob_result flags reserve : Z) (prev : list Z) (with_errfunc : bool) :
    Z -> glob_t -> Prop :=
| ge_nomatch g' : gl_pathc g' = 0 -> Z.land flags GLOB_NOCHECK = 0 -> gl_pathv g' = gl_pathv g ->
    glob_ends g pattern glob_result flags reserve prev with_errfunc GLOB_NOMATCH g'
| ge_nospace g' : gl_pathv g' = None ->
    glob_ends g pattern glob_result flags reserve prev with_errfunc GLOB_NOSPACE g'
| ge_pattern g' : gl_pathc g' = 0 -> Z.land flags GLOB_NOCHECK <> 0 ->
    gl_pathv g' = Some (vector reserve (prev ++ [pattern])) ->
    glob_ends g pattern glob_result flags reserve prev with_errfunc 0 g'
| ge_found code g' : 1 <= gl_pathc g' <= 10 ->
    gl_pathv g' = Some (vector reserve (prev ++ replicate (Z.to_nat (gl_pathc g')) glob_result)) ->
    (code = 0 \/ code = GLOB_ABORTED /\ with_errfunc = true) ->
    glob_ends g pattern glob_result flags reserve prev with_errfunc code g'.

(** Glob ends with one of its codes and never leaves the vector it allocates: on
    success the vector holds the reserved null slots, the paths of the calls that it
    appends to, the new paths and a terminator, and nothing more. *)
Theorem glob_vector_exact `{SH : !SlotHeap} (glob_result : Z) (errfunc : option (Z -> Z)) (pattern flags : Z)
    (g : glob_t) (prev : list Z) :
  0 <= gl_offs g -> gl_offs g + Z.of_nat (length prev) + 12 <= 2 ^ 61 ->
  (forall l, gl_pathv g = Some l -> Z.of_nat (length l) < 2 ^ 61) ->
  (if appends flags then holds_paths (gl_pathv g) (reserved flags g) prev /\ Forall (fun x => x <> 0) prev
   else prev = []) ->
  exists code g', glob glob_result errfunc pattern flags g = Ret (code, g') /\
    gl_offs g' = gl_offs g /\
    glob_ends g pattern glob_result flags (reserved flags g) prev (bool_decide (is_Some errfunc)) code g'.
Proof.
  intros Hoffs Hbound Hlen Hprev. unfold glob.
  assert (Hc : 0 <= fst (Frama_C_interval (gl_entropy g) 0 10) <= 10).
  { unfold Frama_C_interval. destruct (read_entropy _) as [v e']. cbn [fst].
    destruct ((0 <=? v) && (v <=? 10)) eqn:E; lia. }
  destruct (Frama_C_interval (gl_entropy g) 0 10) as [c e]. cbn [fst] in Hc.
  cbn [gl_offs gl_pathv gl_pathc set_gentropy set_pathc].
  fold (reserved flags g). fold (appends flags). set (reserve := reserved flags g) in *.
  assert (Hres : 0 <= reserve <= gl_offs g)
    by (unfold reserve, reserved; destruct (negb (Z.land flags GLOB_DOOFFS =? 0)); lia).
  assert (E : (if appends flags
               then count_paths (S (match gl_pathv g with Some l => length l | None => O end)) (gl_pathv g) reserve 0
               else Ret 0) = Ret (Z.of_nat (length prev))).
  { destruct (appends flags); [| rewrite Hprev; reflexivity]. destruct Hprev as [H1 H2].
    apply previous_paths; [exact H1 | exact H2 |]. intros l El. specialize (Hlen l El). lia. }
  rewrite E. cbn [obind]. clear E.
  assert (Hold : prev = [] \/ holds_paths (if appends flags then gl_pathv g else None) reserve prev).
  { destruct (appends flags); [right; apply Hprev | left; exact Hprev]. }
  set (path := if appends flags then gl_pathv g else None) in *. clearbody path.
  remember (Z.of_nat (length prev)) as n eqn:En.
  destruct (Z.eqb_spec c 0) as [-> | Hc0].
  - destruct (Z.eqb_spec (Z.land flags GLOB_NOCHECK) 0) as [Ef | Ef]; cbn [negb].
    { eexists _, _. split; [reflexivity |]. split; [reflexivity |]. apply ge_nomatch; [reflexivity | exact Ef | reflexivity]. }
    destruct (realloc_slots path _) as [l |] eqn:Er.
    2: { eexists _, _. split; [reflexivity |]. split; [reflexivity |]. apply ge_nospace. reflexivity. }
    replace (reserve + n + 2) with (reserve + n + 1 + 1) in Er by lia. subst n.
    destruct (write_vector path l reserve prev 1 pattern) as (v1 & v2 & E1 & E2 & E3); [lia.. | exact Hold | exact Er |].
    rewrite E1. cbn [obind]. change (Z.to_nat 1) with 1%nat in E2. cbn [fill_slots] in E2.
    destruct (store_slot v1 _ pattern) as [v3 | | |]; try discriminate. injection E2 as ->. cbn [obind].
    rewrite (Z.add_comm (Z.of_nat _)) in E3. rewrite E3. cbn [obind].
    eexists _, _. split; [reflexivity |]. split; [reflexivity |]. apply ge_pattern; [reflexivity | exact Ef | reflexivity].
  - destruct (realloc_slots path _) as [l |] eqn:Er.
    2: { eexists _, _. split; [reflexivity |]. split; [reflexivity |]. apply ge_nospace. reflexivity. }
    subst n. cbn [gl_pathc set_pathv set_gentropy set_pathc].
    destruct (write_vector path l reserve prev c glob_result) as (v1 & v2 & E1 & E2 & E3); [lia.. | exact Hold | exact Er |].
    rewrite E1. cbn [obind]. rewrite E2. cbn [obind]. rewrite E3. cbn [obind gl_entropy set_gentropy set_pathv set_pathc].
    unfold Frama_C_nondet. destruct (read_entropy _) as [b e1]. destruct (i2b _).
    { eexists _, _. split; [reflexivity |]. split; [reflexivity |]. apply ge_found; cbn; [lia | reflexivity | auto]. }
    destruct errfunc as [f |].
    2: { eexists _, _. split; [reflexivity |]. split; [reflexivity |]. apply ge_found; cbn; [lia | reflexivity | auto]. }
    destruct (Frama_C_interval _ 0 255) as [x e2]. destruct (i2b (f x) || negb (Z.land flags GLOB_ERR =? 0));
      (eexists _, _; split; [reflexivity |]; split; [reflexivity |]; apply ge_found; cbn; [lia | reflexivity | auto]).
Qed.

(** A heap whose new slots are null. *)
Definition slots (b : option (list Z)) (n : Z) : option (list Z) :=
  if n <? 0 then None
  else Some ((fun i => match b with Some l => nth i l 0 | None => 0 end) <$> seq 0 (Z.to_nat (n / 8))).
Definition null_slots : SlotHeap.
Proof.
  refine {| realloc_slots := slots |}; unfold slots; intros; destruct (Z.ltb_spec n 0); try discriminate; simplify_eq.
  - rewrite length_fmap, length_seq. assert (0 <= n / 8) by (apply Z.div_pos; lia). lia.
  - rewrite length_fmap, length_seq in H1.
    rewrite list_lookup_fmap, lookup_seq_lt by lia. cbn. rewrite (nth_lookup_Some _ _ _ _ H0). reflexivity.
Defined.

(** A vector with a reserved slot and the path 7. *)
Definition one_path : glob_t := mk_glob 1 (Some [0; 7; 0]) 1 (fun _ => 1).
Lemma glob_vector_exact_witness :
  exists code g', @glob null_slots 9 None 8 (GLOB_DOOFFS + GLOB_APPEND) one_path = Ret (code, g') /\
    gl_offs g' = 1 /\ glob_ends one_path 8 9 (GLOB_DOOFFS + GLOB_APPEND) 1 [7] false code g'.
Proof.
  apply (@glob_vector_exact null_slots 9 None 8 (GLOB_DOOFFS + GLOB_APPEND) one_path [7]).
  - cbn. lia.
  - cbn. lia.
  - intros l [= <-]. cbn. lia.
  - split; [exists [0], []; split; reflexivity | constructor; [discriminate | constructor]].
Defined.

(** The count of the paths is not the one of POSIX: after a call with GLOB_NOCHECK that
    finds nothing it is 0, so that globfree does not free the vector, and after a call
    with GLOB_APPEND it leaves out the paths of the calls before. *)
Theorem glob_count_departures :
  (exists g', @glob null_slots 9 None 8 GLOB_NOCHECK (mk_glob 0 None 0 (fun _ => 0)) = Ret (0, g') /\
     gl_pathv g' = Some [8; 0] /\ gl_pathc g' = 0 /\ globfree g' = None) /\
  (exists g', @glob null_slots 9 None 8 (GLOB_DOOFFS + GLOB_APPEND) one_path = Ret (0, g') /\
     gl_pathv g' = Some [0; 7; 9; 0] /\ gl_pathc g' = 1).
Proof.
  split; eexists; (split; [vm_compute; reflexivity |]); vm_compute; auto.
Qed.
