(* ===== verification/LibcNetdb.v ===== *)
(** * share/libc/netdb.c

    The models of name resolution: res_search, gethostbyname and getaddrinfo.  The
    conversion of numeric addresses, [inet_addr], and the heap are parameters. *)

From S2P Require Import Prelude LibcString LibcStringSpec Digits LibcStdlib LibcStdlibTheorems.

Definition HOSTBUF_SIZE : Z := 128.
Definition QUERYBUF_SIZE : Z := 128.
Definition CHAR_MIN : Z := -128.
Definition CHAR_MAX : Z := 127.
Definition INADDR_NONE : Z := 4294967295.
Definition AF_INET : Z := 2.

(** The entry [__fc_ghbn]: the fields of [host] and the address in [host_addr].  The name
    is copied to [hostbuf], which is in memory; the aliases and the addresses are the
    arrays of the entry, with no alias and one address. *)
Record hostent : Type := mk_host {
  h_name : Z;
  h_addrtype : Z;
  h_length : Z;
  host_addr : Z;
  host_aliases : list Z;
  h_addr_ptrs : list Z
}.

(** The memory, the entropy and the entry. *)
Record net_state : Type := mk_net { net_mem : mem; net_entropy : entropy; net_host : hostent }.
Definition set_net_mem (s : net_state) (m : mem) : net_state := mk_net m (net_entropy s) (net_host s).
Definition set_net_host (s : net_state) (h : hostent) : net_state := mk_net (net_mem s) (net_entropy s) h.

(** [for (int i = 0; i < anslen-1; i++) answer[i] = Frama_C_char_interval(CHAR_MIN, CHAR_MAX)]. *)
Fixpoint fill_answer (n : nat) (m : mem) (e : entropy) (p : Z) : outcome (mem * entropy) :=
  match n with
  | O => Ret (m, e)
  | S n =>
      let (c, e) := Frama_C_char_interval e CHAR_MIN CHAR_MAX in
      let* m := store8 m p c in fill_answer n m e (p + 1)
  end.
Definition res_search (answer anslen : Z) (s : net_state) : outcome (Z * net_state) :=
  let* (m, e) := fill_answer (Z.to_nat (anslen - 1)) (net_mem s) (net_entropy s) answer in
  let* m := store8 m (answer + (anslen - 1)) 0 in
  let (r, e) := Frama_C_interval e (-1) anslen in
  Ret (r, mk_net m e (net_host s)).

(** [for (cp = name;; ++cp)]: whether the name ends without a dot. *)
Fixpoint scan_numeric (fuel : nat) (m : mem) (cp : Z) : outcome bool :=
  match fuel with
  | O => NoFuel
  | S fuel =>
      let* b := load8 m cp in
      let c := s8 b in
      if c =? 0 then
        let* d := load8 m (cp - 1) in Ret (negb (s8 d =? 46))
      else if (c <? 48) && (57 <? c) && negb (c =? 46) then Ret false
      else scan_numeric fuel m (cp + 1)
  end.

Section Hosts.
(** [inet_addr], the addresses of the literal arrays, and of [gethostbyname]'s [buf]. *)
Context (inet_addr : mem -> Z -> Z) (hostbuf host_addr_ptr buf : Z).

(** The entry for an address: the name is copied, truncated and terminated. *)
Definition fill_host (name addr : Z) (s : net_state) : outcome net_state :=
  let* (_, m) := strncpy (net_mem s) hostbuf name (HOSTBUF_SIZE - 1) in
  let* m := store8 m (hostbuf + (HOSTBUF_SIZE - 1)) 0 in
  let h := net_host s in
  Ret (mk_net m (net_entropy s)
         (mk_host hostbuf (h_addrtype h) (h_length h) addr [0] [host_addr_ptr; 0])).

(** The result is whether the entry is returned. *)
Definition gethostbyname (name : Z) (s : net_state) : outcome (bool * net_state) :=
  let h := net_host s in
  let s := set_net_host s (mk_host (h_name h) AF_INET 4 (host_addr h) (host_aliases h) (h_addr_ptrs h)) in
  let* b := load8 (net_mem s) name in
  let* numeric :=
    if (48 <=? s8 b) && (s8 b <=? 57) then scan_numeric (steps (net_mem s)) (net_mem s) name else Ret false in
  if numeric : bool then
    let addr := inet_addr (net_mem s) name in
    if addr =? INADDR_NONE then Ret (false, s)
    else let* s := fill_host name addr s in Ret (true, s)
  else
    let* (n, s) := res_search buf QUERYBUF_SIZE s in
    if n <? 0 then Ret (false, s)
    else
      let (b, e) := Frama_C_nondet (net_entropy s) 0 1 in
      let s := mk_net (net_mem s) e (net_host s) in
      if i2b b then Ret (false, s)
      else let* s := fill_host name (inet_addr (net_mem s) name) s in Ret (true, s)
  .
End Hosts.

(** ** getaddrinfo *)

Definition EAI_BADFLAGS : Z := -1.
Definition EAI_NONAME : Z := -2.
Definition EAI_AGAIN : Z := -3.
Definition EAI_FAIL : Z := -4.
Definition EAI_FAMILY : Z := -6.
Definition EAI_SOCKTYPE : Z := -7.
Definition EAI_SERVICE : Z := -8.
Definition EAI_MEMORY : Z := -10.
Definition EAI_SYSTEM : Z := -11.
Definition EIO : Z := 5.
Definition AF_MAX : Z := 43.
Definition SOCK_SEQPACKET : Z := 5.
Definition IPPROTO_MAX : Z := 256.

Record sockaddr : Type := mk_sa { sa_family : Z; sa_data : list Z }.
Record addrinfo : Type := mk_ai {
  ai_flags : Z; ai_family : Z; ai_socktype : Z; ai_protocol : Z; ai_addrlen : Z;
  ai_addr : Z; ai_canonname : Z; ai_next : Z
}.
(** A block of the heap: an object that is not yet initialized is [None]. *)
Inductive object : Type := Addrinfo (a : option addrinfo) | Sockaddr (a : option sockaddr).

(** [malloc]: the address of a new block, unless memory is exhausted. *)
Class ObjectHeap : Type := {
  fresh : gmap Z object -> option Z;
  fresh_new : forall h p, fresh h = Some p -> p <> 0 /\ h !! p = None
}.

Record gai_state : Type := mk_gai {
  ga_heap : gmap Z object;
  ga_entropy : entropy;
  ga_errno : Z;
  ga_res : Z
}.

(** [for (int i = 0; i < 14; i++) sa->sa_data[i] = Frama_C_interval(CHAR_MIN, CHAR_MAX)]. *)
Fixpoint random_data (n : nat) (e : entropy) : list Z * entropy :=
  match n with
  | O => ([], e)
  | S n =>
      let (c, e) := Frama_C_interval e CHAR_MIN CHAR_MAX in
      let (l, e) := random_data n e in (s8 c :: l, e)
  end.

Section Getaddrinfo.
Context `{OH : !ObjectHeap} (dummy : Z).

(** [net] is the value that is read from the volatile [net_state]; [sa_family] is an
    unsigned 16-bit integer. *)
Definition getaddrinfo (net nodename servname : Z) (s : gai_state) : Z * gai_state :=
  if (nodename =? 0) && (servname =? 0) then (EAI_NONAME, s)
  else if net =? 0 then (EAI_BADFLAGS, s)
  else if net =? 1 then (EAI_AGAIN, s)
  else if net =? 2 then (EAI_FAIL, s)
  else if net =? 3 then (EAI_FAMILY, s)
  else if net =? 5 then (EAI_SERVICE, s)
  else if net =? 6 then (EAI_SOCKTYPE, s)
  else if net =? 7 then (EAI_SYSTEM, mk_gai (ga_heap s) (ga_entropy s) EIO (ga_res s))
  else
    match fresh (ga_heap s) with
    | None => (EAI_MEMORY, s)
    | Some ai =>
        let h := <[ai := Addrinfo None]> (ga_heap s) in
        match fresh h with
        | None => (EAI_MEMORY, mk_gai h (ga_entropy s) (ga_errno s) (ga_res s))
        | Some sa =>
            let (family, e) := Frama_C_interval (ga_entropy s) 0 AF_MAX in
            let (data, e) := random_data 14 e in
            let (socktype, e) := Frama_C_interval e 0 SOCK_SEQPACKET in
            let (protocol, e) := Frama_C_interval e 0 IPPROTO_MAX in
            let h := <[sa := Sockaddr (Some (mk_sa (u16 family) data))]> h in
            let h := <[ai := Addrinfo (Some (mk_ai 0 (u16 family) socktype protocol 16 sa dummy 0))]> h in
            (0, mk_gai h e (ga_errno s) ai)
        end
    end.
End Getaddrinfo.

(** ** Lemmas *)

Lemma char_interval_range e lo hi : lo <= hi -> lo <= fst (Frama_C_char_interval e lo hi) <= hi.
Proof.
  intros H. unfold Frama_C_char_interval. destruct (read_entropy _) as [v e']. cbn [fst].
  destruct ((lo <=? s8 v) && (s8 v <=? hi)) eqn:E; lia.
Qed.

Lemma random_data_range n e : length (fst (random_data n e)) = n /\
  Forall (fun c => CHAR_MIN <= c <= CHAR_MAX) (fst (random_data n e)).
Proof.
  revert e. induction n as [| n IH]; intros e; [split; [reflexivity | constructor] |]. cbn [random_data].
  destruct (Frama_C_interval e CHAR_MIN CHAR_MAX) as [c e1]. specialize (IH e1).
  destruct (random_data n e1) as [l e2]. cbn [fst] in *. destruct IH as [H1 H2].
  split; [cbn; lia | constructor; [| exact H2]].
  unfold s8, CHAR_MIN, CHAR_MAX. pose proof (Z.mod_pos_bound (c + 2 ^ 7) (2 ^ 8) ltac:(lia)). lia.
Qed.

(** The answer is filled and terminated, and nothing else is written. *)
Lemma fill_answer_spec n m e p : accessible m p (Z.of_nat n) ->
  exists m' e', fill_answer n m e p = Ret (m', e') /\ dom m' = dom m /\
    forall x, ~ (p <= x < p + Z.of_nat n) -> m' !! x = m !! x.
Proof.
  revert m e p. induction n as [| n IH]; intros m e p H; [exists m, e; auto |]. cbn [fill_answer].
  destruct (Frama_C_char_interval e CHAR_MIN CHAR_MAX) as [c e1].
  destruct (H p) as [b Hb]; [lia |]. rewrite store8_spec by eauto. cbn [obind].
  assert (Hd : dom (<[p := u8 c]> m) = dom m) by (apply dom_insert_lookup_L; eauto).
  destruct (IH (<[p := u8 c]> m) e1 (p + 1)) as (m' & e' & E & Hm & Hf).
  { intros x Hx. apply elem_of_dom. rewrite Hd. apply elem_of_dom, H. lia. }
  exists m', e'. split; [exact E |]. split; [congruence |]. intros x Hx.
  rewrite Hf by lia. apply lookup_insert_ne. lia.
Qed.

Lemma res_search_spec answer anslen s : 1 <= anslen -> accessible (net_mem s) answer anslen ->
  exists r s', res_search answer anslen s = Ret (r, s') /\ -1 <= r <= anslen /\
    net_host s' = net_host s /\ dom (net_mem s') = dom (net_mem s) /\
    net_mem s' !! (answer + (anslen - 1)) = Some 0 /\
    forall x, ~ (answer <= x < answer + anslen) -> net_mem s' !! x = net_mem s !! x.
Proof.
  intros Hn H. unfold res_search.
  destruct (fill_answer_spec (Z.to_nat (anslen - 1)) (net_mem s) (net_entropy s) answer) as (m & e & -> & Hd & Hf).
  { intros x Hx. apply H. lia. }
  cbn [obind]. assert (Hl : is_Some (m !! (answer + (anslen - 1)))).
  { apply elem_of_dom. rewrite Hd. apply elem_of_dom, H. lia. }
  rewrite store8_spec by exact Hl. cbn [obind].
  pose proof (interval_range e (-1) anslen ltac:(lia)). destruct (Frama_C_interval e (-1) anslen) as [r e'].
  eexists _, _. split; [reflexivity |]. split; [assumption |]. split; [reflexivity |]. cbn [net_mem].
  split; [rewrite dom_insert_lookup_L by exact Hl; exact Hd |].
  split; [apply lookup_insert_eq |]. intros x Hx. rewrite lookup_insert_ne by lia. apply Hf. lia.
Qed.

Lemma last_cons (l : list Z) b d : List.last (b :: l) d = List.last l b.
Proof.
  revert b d. induction l as [| c l IH]; intros b d; [reflexivity |].
  change (List.last (c :: l) d = List.last (c :: l) b). rewrite !IH. reflexivity.
Qed.

(** The loop over the name stops only at its end: its other exit tests whether a
    character is below [0] and above [9]. *)
Lemma scan_numeric_spec fuel m a d l : cstr m a l -> m !! (a - 1) = Some d -> (length l < fuel)%nat ->
  scan_numeric fuel m a = Ret (negb (s8 (List.last l d) =? 46)).
Proof.
  revert m a d l. induction fuel as [| fuel IH]; intros m a d l Hl Hd Hf; [lia |].
  cbn [scan_numeric]. destruct l as [| b l].
  - apply cstr_nil in Hl. rewrite (load8_ok _ _ _ Hl). cbn [obind]. change (s8 0 =? 0) with true. cbv iota.
    rewrite (load8_ok _ _ _ Hd). reflexivity.
  - apply cstr_cons in Hl. destruct Hl as (Hb & Hrange & Hl). rewrite (load8_ok _ _ _ Hb). cbn [obind].
    assert (Hs : s8 b <> 0) by (unfold s8; dlia).
    replace (s8 b =? 0) with false by lia.
    replace ((s8 b <? 48) && (57 <? s8 b) && negb (s8 b =? 46)) with false by lia.
    rewrite (IH m (a + 1) b l Hl) by (first [replace (a + 1 - 1) with a by lia; exact Hb | cbn in Hf; lia]).
    rewrite last_cons. reflexivity.
Qed.

(** Regions that do not meet. *)
Definition apart (p n q k : Z) : Prop := p + n <= q \/ q + k <= p.

Section HostLemmas.
Context (inet_addr : mem -> Z -> Z) (hostbuf host_addr_ptr buf : Z).

(** The entry that [gethostbyname] returns for the name [l] and the address [addr]. *)
Definition host_entry (s : net_state) (l : list Z) (addr : Z) : Prop :=
  cstr (net_mem s) hostbuf (take 127 l) /\ h_name (net_host s) = hostbuf /\
  h_addrtype (net_host s) = AF_INET /\ h_length (net_host s) = 4 /\ host_addr (net_host s) = addr /\
  host_aliases (net_host s) = [0] /\ h_addr_ptrs (net_host s) = [host_addr_ptr; 0].

Lemma copied_name m m' m'' l : accessible m hostbuf 128 -> Forall (fun b => 0 < b < 256) l ->
  (forall x, m' !! x = if decide (hostbuf <= x < hostbuf + 127)
                       then Some (default 0 (l !! Z.to_nat (x - hostbuf))) else m !! x) ->
  m'' = <[hostbuf + 127 := 0]> m' -> cstr m'' hostbuf (take 127 l).
Proof.
  intros Hacc Hl Hm' ->.
  assert (L : forall i : nat, (i < 127)%nat ->
    <[hostbuf + 127 := 0]> m' !! (hostbuf + Z.of_nat i) = Some (default 0 (l !! i))).
  { intros i Hi. rewrite lookup_insert_ne, Hm', decide_True by lia. repeat f_equal. lia. }
  split; [| apply Forall_take; exact Hl]. apply bytes_app. split.
  - intros i b Hb. pose proof (lookup_lt_Some _ _ _ Hb) as Hi. rewrite length_take in Hi.
    rewrite lookup_take_lt in Hb by lia. rewrite L, Hb by lia. reflexivity.
  - apply bytes_cons. split; [| apply bytes_nil]. rewrite length_take.
    destruct (Nat.le_gt_cases 127 (length l)).
    + rewrite Nat.min_l by lia. apply lookup_insert_eq.
    + rewrite Nat.min_r by lia. rewrite L, lookup_ge_None_2 by lia. reflexivity.
Qed.

Lemma fill_host_spec name addr s l : cstr (net_mem s) name l -> accessible (net_mem s) hostbuf 128 ->
  apart hostbuf (Z.max 128 (Z.of_nat (length l) + 1)) name (Z.of_nat (length l) + 1) ->
  h_addrtype (net_host s) = AF_INET -> h_length (net_host s) = 4 ->
  exists s', fill_host hostbuf host_addr_ptr name addr s = Ret s' /\ host_entry s' l addr /\
    net_entropy s' = net_entropy s.
Proof.
  intros Hl Hacc Hap Ht Hn. unfold fill_host. change (HOSTBUF_SIZE - 1) with 127.
  destruct (strncpy_spec (net_mem s) hostbuf name 127 l Hl) as (m' & -> & Hd & Hm');
    [lia | intros x Hx; apply Hacc; lia | unfold apart in Hap; lia |].
  cbn [obind]. assert (H127 : is_Some (m' !! (hostbuf + 127))).
  { apply elem_of_dom. rewrite Hd. apply elem_of_dom, Hacc. lia. }
  rewrite store8_spec by exact H127. cbn [obind]. eexists. split; [reflexivity |].
  split; [| reflexivity]. unfold host_entry. cbn.
  split; [exact (copied_name _ _ _ l Hacc (proj2 Hl) Hm' eq_refl) | auto 10].
Qed.
End HostLemmas.

(** ** Theorems *)

(** A name that starts with a digit and does not end with a dot. *)
Definition taken_as_number (l : list Z) : bool :=
  match l with b :: _ => (48 <=? s8 b) && (s8 b <=? 57) && negb (s8 (List.last l 0) =? 46) | [] => false end.

Lemma numeric_test m name b l : cstr m name l -> m !! name = Some b ->
  (if (48 <=? s8 b) && (s8 b <=? 57) then scan_numeric (steps m) m name else Ret false) = Ret (taken_as_number l).
Proof.
  intros Hl Hb. pose proof (cstr_steps _ _ _ Hl) as Hst. destruct l as [| c l].
  - apply cstr_nil in Hl. rewrite Hl in Hb. injection Hb as <-. reflexivity.
  - apply cstr_cons in Hl. destruct Hl as (Hc & _ & Hl). rewrite Hc in Hb. injection Hb as ->. cbn [taken_as_number].
    destruct ((48 <=? s8 b) && (s8 b <=? 57)) eqn:Ed; [| reflexivity]. cbn [andb].
    destruct (steps m) as [| n]; [lia |]. cbn [scan_numeric]. rewrite (load8_ok _ _ _ Hc). cbn [obind].
    replace (s8 b =? 0) with false by lia.
    replace ((s8 b <? 48) && (57 <? s8 b) && negb (s8 b =? 46)) with false by lia.
    rewrite (scan_numeric_spec n m (name + 1) b l Hl);
      [rewrite last_cons; reflexivity | replace (name + 1 - 1) with name by lia; exact Hc | cbn in Hst; lia].
Qed.

(** Gethostbyname ends without an access out of bounds for every name; when it
    returns its entry, the entry has the address that inet_addr gives, the family and
    the length of an IPv4 address, and the first 127 characters of the name,
    terminated.  A name that starts with a digit and does not end with a dot is taken
    as a number, whatever its other characters: it fails exactly when inet_addr fails,
    with no search. *)
Theorem gethostbyname_resolves (inet_addr : mem -> Z -> Z) (addr_of : list Z -> Z)
    (hostbuf host_addr_ptr buf name : Z) (s : net_state) (l : list Z) :
  (forall m a l, cstr m a l -> inet_addr m a = addr_of l) ->
  cstr (net_mem s) name l -> accessible (net_mem s) hostbuf 128 -> accessible (net_mem s) buf 128 ->
  apart hostbuf (Z.max 128 (Z.of_nat (length l) + 1)) name (Z.of_nat (length l) + 1) ->
  apart buf 128 name (Z.of_nat (length l) + 1) ->
  exists r s', gethostbyname inet_addr hostbuf host_addr_ptr buf name s = Ret (r, s') /\
    (r = true -> host_entry hostbuf host_addr_ptr s' l (addr_of l)) /\
    (taken_as_number l = true ->
       r = negb (addr_of l =? INADDR_NONE) /\ net_entropy s' = net_entropy s).
Proof.
  intros Hinet Hl Hhb Hbuf Hap1 Hap2. unfold gethostbyname.
  set (s0 := set_net_host s _). cbv zeta. change (net_mem s0) with (net_mem s).
  assert (Hb : exists b, net_mem s !! name = Some b).
  { destruct l as [| c l]; [apply cstr_nil in Hl | apply cstr_cons in Hl; destruct Hl as [Hl _]]; eauto. }
  destruct Hb as (b & Hb). rewrite (load8_ok _ _ _ Hb). cbn [obind].
  rewrite (numeric_test (net_mem s) name b l Hl Hb). cbn [obind].
  destruct (taken_as_number l).
  - rewrite (Hinet _ _ _ Hl). destruct (Z.eqb_spec (addr_of l) INADDR_NONE).
    { eexists _, _. split; [reflexivity |]. split; [discriminate | auto]. }
    destruct (fill_host_spec hostbuf host_addr_ptr name (addr_of l) s0 l) as (s' & -> & H1 & H2); try assumption; try reflexivity.
    cbn [obind]. eexists _, _. split; [reflexivity |]. split; [auto | auto].
  - destruct (res_search_spec buf QUERYBUF_SIZE s0) as (r & s1 & -> & Hr & Hh & Hd & _ & Hf); [unfold QUERYBUF_SIZE; lia | exact Hbuf |].
    cbn [obind]. destruct (Z.ltb_spec r 0).
    { eexists _, _. split; [reflexivity |]. split; [discriminate | discriminate]. }
    destruct (Frama_C_nondet (net_entropy s1) 0 1) as [c e]. destruct (i2b c).
    { eexists _, _. split; [reflexivity |]. split; [discriminate | discriminate]. }
    set (s2 := mk_net (net_mem s1) e (net_host s1)).
    assert (Hl2 : cstr (net_mem s2) name l).
    { apply (cstr_frame (net_mem s)); [exact Hl |]. intros x Hx. apply Hf.
      unfold apart in Hap2. unfold QUERYBUF_SIZE. lia. }
    rewrite (Hinet _ _ _ Hl2).
    destruct (fill_host_spec hostbuf host_addr_ptr name (addr_of l) s2 l Hl2) as (s' & -> & H1 & H2).
    + intros x Hx. apply elem_of_dom. change (net_mem s2) with (net_mem s1). rewrite Hd. apply elem_of_dom, Hhb, Hx.
    + exact Hap1.
    + change (net_host s2) with (net_host s1). rewrite Hh. reflexivity.
    + change (net_host s2) with (net_host s1). rewrite Hh. reflexivity.
    + cbn [obind]. eexists _, _. split; [reflexivity |]. split; [auto | discriminate].
Qed.

(** A concrete call: the name [7a], which [inet_addr] refuses. *)
Definition inet_none (m : mem) (a : Z) : Z := INADDR_NONE.
Definition net_demo : net_state :=
  mk_net (write (write (write ∅ 100 [55; 97; 0]) 200 (replicate 128 0)) 400 (replicate 128 0)) (fun _ => 0)
    (mk_host 0 0 0 0 [] []).
Lemma gethostbyname_resolves_witness :
  taken_as_number [55; 97] = true /\
  exists s', gethostbyname inet_none 200 600 400 100 net_demo = Ret (false, s').
Proof.
  split; [reflexivity |].
  destruct (gethostbyname_resolves inet_none (fun _ => INADDR_NONE) 200 600 400 100 net_demo [55; 97]) as (r & s' & E & _ & H).
  - reflexivity.
  - split; [| repeat constructor].
    intros i b Hi. destruct i as [| [| [| i]]]; cbn in Hi; simplify_eq; reflexivity.
  - apply accessible_check. vm_compute. reflexivity.
  - apply accessible_check. vm_compute. reflexivity.
  - unfold apart. cbn. lia.
  - unfold apart. cbn. lia.
  - destruct (H ltac:(reflexivity)) as [-> _]. exists s'. exact E.
Defined.

(** Getaddrinfo answers one of its codes, and EAI_NONAME for an empty request.  On
    success the result is a complete entry with its socket address, both new, with
    fields in the range of their types; on failure no block stays allocated, but for
    the first one when the second allocation fails. *)
Theorem getaddrinfo_exact `{OH : !ObjectHeap} (dummy net nodename servname : Z) (s : gai_state) :
  let '(r, s') := getaddrinfo dummy net nodename servname s in
  (r = EAI_NONAME <-> nodename = 0 /\ servname = 0) /\
  In r [0; EAI_NONAME; EAI_BADFLAGS; EAI_AGAIN; EAI_FAIL; EAI_FAMILY; EAI_SERVICE; EAI_SOCKTYPE; EAI_SYSTEM; EAI_MEMORY] /\
  (r = 0 ->
     exists ai sa family socktype protocol data,
       ga_res s' = ai /\ ai <> 0 /\ sa <> 0 /\ ai <> sa /\ ga_heap s !! ai = None /\ ga_heap s !! sa = None /\
       ga_heap s' = <[ai := Addrinfo (Some (mk_ai 0 family socktype protocol 16 sa dummy 0))]>
                      (<[sa := Sockaddr (Some (mk_sa family data))]> (ga_heap s)) /\
       0 <= family <= AF_MAX /\ 0 <= socktype <= SOCK_SEQPACKET /\ 0 <= protocol <= IPPROTO_MAX /\
       length data = 14%nat /\ Forall (fun c => CHAR_MIN <= c <= CHAR_MAX) data) /\
  (r <> 0 -> ga_res s' = ga_res s /\
     (ga_heap s' = ga_heap s \/
      r = EAI_MEMORY /\ exists ai, ga_heap s !! ai = None /\ ga_heap s' = <[ai := Addrinfo None]> (ga_heap s))).
Proof.
  unfold getaddrinfo.
  destruct ((nodename =? 0) && (servname =? 0)) eqn:E0.
  { split; [lia |]. split; [cbn; auto 12 |]. split; [discriminate |]. auto. }
  repeat match goal with |- context [net =? ?k] => destruct (net =? k);
    [split; [split; [discriminate | lia] |]; split; [cbn; auto 12 |]; split; [discriminate |]; auto |] end.
  destruct (fresh (ga_heap s)) as [ai |] eqn:E1.
  2: { split; [split; [discriminate | lia] |]. split; [cbn; auto 12 |]. split; [discriminate |]. auto. }
  destruct (fresh_new _ _ E1) as [Hai Hnew].
  destruct (fresh (<[ai := Addrinfo None]> (ga_heap s))) as [sa |] eqn:E2.
  2: { split; [split; [discriminate | lia] |]. split; [cbn; auto 12 |]. split; [discriminate |]. intros _.
       split; [reflexivity |]. right. split; [reflexivity |]. exists ai. auto. }
  destruct (fresh_new _ _ E2) as [Hsa Hnew2].
  assert (Hne : ai <> sa) by (intros ->; rewrite lookup_insert_eq in Hnew2; discriminate).
  rewrite lookup_insert_ne in Hnew2 by exact Hne.
  pose proof (interval_range (ga_entropy s) 0 AF_MAX ltac:(unfold AF_MAX; lia)) as H1.
  destruct (Frama_C_interval (ga_entropy s) 0 AF_MAX) as [family e1].
  pose proof (random_data_range 14 e1) as [H2 H3]. destruct (random_data 14 e1) as [data e2].
  pose proof (interval_range e2 0 SOCK_SEQPACKET ltac:(unfold SOCK_SEQPACKET; lia)) as H4.
  destruct (Frama_C_interval e2 0 SOCK_SEQPACKET) as [socktype e3].
  pose proof (interval_range e3 0 IPPROTO_MAX ltac:(unfold IPPROTO_MAX; lia)) as H5.
  destruct (Frama_C_interval e3 0 IPPROTO_MAX) as [protocol e4].
  split; [split; [discriminate | lia] |]. split; [cbn; auto |]. split; [| congruence]. intros _.
  cbn [fst ga_res ga_heap] in *.
  replace (u16 family) with family by (unfold u16; rewrite Z.mod_small; unfold AF_MAX in H1; lia).
  exists ai, sa, family, socktype, protocol, data. repeat (split; [first [reflexivity | assumption] |]).
  split; [| auto 10]. rewrite (insert_insert_ne _ sa ai) by congruence. rewrite insert_insert_eq. reflexivity.
Qed.
