(* ===== verification/LibcContracts.v ===== *)
(** * Contracts of ctype.h, __fc_builtin.h, stdlib.h and inttypes.h

    The functions of these headers take and give scalars.  A contract is a
    precondition, a postcondition and behaviors; what it says is decidable, and the
    contracts of the character classes are checked on each of their 257 arguments.
    The functions are those of LibcStdlib. *)

From S2P Require Import Prelude LibcStdlib.
From Stdlib Require Import SpecFloat.

(** ** Contracts with behaviors *)

Record behavior (A R : Type) : Type := mk_behavior {
  assumes : A -> bool;
  guarantees : A -> R -> bool
}.
Arguments mk_behavior {A R}.
Arguments assumes {A R}.
Arguments guarantees {A R}.

Record fcontract (A R : Type) : Type := mk_fcontract {
  fc_requires : A -> bool;
  fc_ensures : A -> R -> bool;
  fc_behaviors : list (behavior A R);
  fc_complete : bool
}.
Arguments mk_fcontract {A R}.
Arguments fc_requires {A R}.
Arguments fc_ensures {A R}.
Arguments fc_behaviors {A R}.
Arguments fc_complete {A R}.

(** The result that a contract allows for an argument. *)
Definition allows {A R : Type} (c : fcontract A R) (a : A) (r : R) : bool :=
  fc_ensures c a r && forallb (fun b => negb (assumes b a) || guarantees b a r) (fc_behaviors c).
Definition returns_allowed {A R : Type} (f : A -> outcome R) (c : fcontract A R) (a : A) : bool :=
  match f a with Ret r => allows c a r | _ => false end.
Definition fulfils {A R : Type} (f : A -> outcome R) (c : fcontract A R) : Prop :=
  forall a, fc_requires c a = true -> returns_allowed f c a = true.

(** [disjoint behaviors] and [complete behaviors]: at most one behavior applies to an
    argument, and at least one if the contract declares it. *)
Definition applicable {A R : Type} (c : fcontract A R) (a : A) : nat :=
  length (List.filter (fun b => assumes b a) (fc_behaviors c)).
Definition behaviors_at {A R : Type} (c : fcontract A R) (a : A) : bool :=
  (applicable c a <=? 1)%nat && (negb (fc_complete c) || (1 <=? applicable c a)%nat).
Definition behaviors_ok {A R : Type} (c : fcontract A R) : Prop :=
  forall a, fc_requires c a = true -> behaviors_at c a = true.

(** ** ctype.h *)

Definition EOF : Z := -1.
Definition between (lo hi c : Z) : bool := (lo <=? c) && (c <=? hi).
Definition uchar_or_eof (c : Z) : bool := between 0 255 c || (c =? EOF).

(** A class: a nonzero result on [yes] and zero on [no]. *)
Definition class_contract (yes no : Z -> bool) (complete : bool) : fcontract Z Z := {|
  fc_requires := uchar_or_eof;
  fc_ensures _ _ := true;
  fc_behaviors := [mk_behavior yes (fun _ r => i2b r); mk_behavior no (fun _ r => r =? 0)];
  fc_complete := complete
|}.

Definition isalnum_contract : fcontract Z Z := class_contract
  (fun c => between 65 90 c || between 97 122 c || between 48 57 c)
  (fun c => (c =? EOF) || between 0 47 c || between 58 64 c || between 91 96 c || between 123 127 c) false.
Definition isalpha_contract : fcontract Z Z := class_contract
  (fun c => between 65 90 c || between 97 122 c)
  (fun c => (c =? EOF) || between 0 64 c || between 91 96 c || between 123 127 c) false.
Definition isblank_contract : fcontract Z Z := class_contract
  (fun c => (c =? 32) || (c =? 9)) (fun c => negb (c =? 32) && negb (c =? 9)) true.
Definition iscntrl_contract : fcontract Z Z := class_contract
  (fun c => between 0 31 c || (c =? 127)) (fun c => (c =? EOF) || between 32 126 c) false.
Definition isdigit_contract : fcontract Z Z := class_contract
  (between 48 57) (fun c => (c <? 48) || (57 <? c)) true.
Definition isgraph_contract : fcontract Z Z := class_contract
  (between 33 126) (fun c => (c =? EOF) || between 0 32 c || (c =? 127)) false.
Definition islower_contract : fcontract Z Z := class_contract
  (between 97 122) (fun c => (c =? EOF) || between 0 96 c || between 123 126 c) false.
Definition isprint_contract : fcontract Z Z := class_contract
  (between 32 126) (fun c => (c =? EOF) || between 0 31 c || (c =? 127)) false.
Definition ispunct_contract : fcontract Z Z := class_contract
  (fun c => between 33 47 c || between 58 64 c || between 91 96 c || between 123 126 c)
  (fun c => (c =? EOF) || between 0 32 c || between 48 57 c || between 65 90 c
            || between 97 122 c || (c =? 127)) false.
Definition isspace_contract : fcontract Z Z := class_contract
  (fun c => between 9 13 c || (c =? 32))
  (fun c => (c =? EOF) || between 0 8 c || between 14 31 c || between 33 127 c) false.
Definition isupper_contract : fcontract Z Z := class_contract
  (between 65 90) (fun c => (c =? EOF) || between 0 64 c || between 91 127 c) false.
Definition hexa_digit (c : Z) : bool := between 48 57 c || between 65 70 c || between 97 102 c.
Definition isxdigit_contract : fcontract Z Z := class_contract hexa_digit (fun c => negb (hexa_digit c)) true.
(** [isascii] is only declared. *)
Definition isascii_contract : fcontract Z Z := class_contract
  (between 0 127) (fun c => negb (between 0 127 c)) true.

Definition case_contract (changed unchanged : Z -> bool) (shift : Z) : fcontract Z Z := {|
  fc_requires := uchar_or_eof;
  fc_ensures _ r := uchar_or_eof r;
  fc_behaviors := [mk_behavior changed (fun c r => r =? c + shift); mk_behavior unchanged (fun c r => r =? c)];
  fc_complete := false
|}.
Definition tolower_contract : fcontract Z Z := case_contract
  (between 65 90) (fun c => (c =? EOF) || between 0 64 c || between 91 127 c) 32.
Definition toupper_contract : fcontract Z Z := case_contract
  (between 97 122) (fun c => (c =? EOF) || between 0 96 c || between 123 127 c) (-32).

(** ** __fc_builtin.h *)

Definition nondet_contract {A : Type} `{!EqDecision A} : fcontract (entropy * A * A) A := {|
  fc_requires _ := true;
  fc_ensures '(_, a, b) r := bool_decide (r = a \/ r = b);
  fc_behaviors := [];
  fc_complete := false
|}.
(** [Frama_C_interval] and [Frama_C_char_interval]; [in_type] is the type of the bounds. *)
Definition interval_contract (in_type : Z -> bool) : fcontract (entropy * Z * Z) Z := {|
  fc_requires '(_, min, max) := in_type min && in_type max && (min <=? max);
  fc_ensures '(_, min, max) r := between min max r;
  fc_behaviors := [];
  fc_complete := false
|}.
Definition is_finite (f : spec_float) : bool :=
  match f with S754_zero _ | S754_finite _ _ _ => true | _ => false end.
(** [Frama_C_float_interval] and [Frama_C_double_interval]. *)
Definition float_interval_contract : fcontract (entropy * spec_float * spec_float) spec_float := {|
  fc_requires '(_, min, max) := is_finite min && is_finite max && SFleb min max;
  fc_ensures '(_, min, max) r := is_finite r && SFleb min r && SFleb r max;
  fc_behaviors := [];
  fc_complete := false
|}.
(** The functions choose one of the two bounds. *)
Definition Frama_C_double_interval (e : entropy) (min max : spec_float) : spec_float * entropy :=
  Frama_C_nondet e min max.

(** ** stdlib.h and inttypes.h *)

(** [abs], and [labs] and [llabs] for other widths. *)
Definition abs_contract (w : Z) : fcontract Z Z := {|
  fc_requires j := between (- 2 ^ (w - 1)) (2 ^ (w - 1) - 1) j && (- 2 ^ (w - 1) <? j);
  fc_ensures _ _ := true;
  fc_behaviors := [mk_behavior (fun j => j <? 0) (fun j r => r =? - j);
                   mk_behavior (fun j => 0 <=? j) (fun j r => r =? j)];
  fc_complete := true
|}.

Definition is_intmax (c : Z) : bool := between (- 2 ^ 63) (2 ^ 63 - 1) c.
Definition imaxabs_contract : fcontract Z Z := {|
  fc_requires c := is_intmax c && negb (s64 (- c) =? c);
  fc_ensures _ _ := true;
  fc_behaviors := [];
  fc_complete := false
|}.
Definition imaxdiv_contract : fcontract (Z * Z) (Z * Z) := {|
  fc_requires '(numer, denom) := is_intmax numer && is_intmax denom && negb (denom =? 0) &&
    (negb (denom =? -1) || negb (s64 (- numer) =? numer));
  fc_ensures '(numer, denom) '(quot, rem) := (quot =? Z.quot numer denom) && (rem =? Z.rem numer denom);
  fc_behaviors := [];
  fc_complete := false
|}.

(** ** Lemmas *)

(** A check of each argument of a character class. *)
Definition characters : list Z := seqZ (-1) 257.
Lemma for_characters (P : Z -> bool) : forallb P characters = true ->
  forall c, uchar_or_eof c = true -> P c = true.
Proof.
  intros H c Hc. rewrite forallb_forall in H. apply H, list_elem_of_In, elem_of_seqZ.
  unfold uchar_or_eof, between, EOF in Hc. lia.
Qed.

Lemma characters_fulfil (f : Z -> outcome Z) (c : fcontract Z Z) : fc_requires c = uchar_or_eof ->
  forallb (returns_allowed f c) characters = true -> fulfils f c.
Proof. intros Hr H a Ha. rewrite Hr in Ha. exact (for_characters _ H a Ha). Qed.
Lemma characters_behaviors (c : fcontract Z Z) : fc_requires c = uchar_or_eof ->
  forallb (behaviors_at c) characters = true -> behaviors_ok c.
Proof. intros Hr H a Ha. rewrite Hr in Ha. exact (for_characters _ H a Ha). Qed.

Ltac by_characters :=
  first [apply characters_fulfil | apply characters_behaviors]; [reflexivity | vm_compute; reflexivity].

(** What a class contract says of a character that one of its behaviors covers. *)
Lemma class_forces (f : Z -> outcome Z) yes no b c r : fulfils f (class_contract yes no b) ->
  uchar_or_eof c = true -> f c = Ret r -> (yes c = true -> r <> 0) /\ (no c = true -> r = 0).
Proof.
  intros H Hc Hf. specialize (H c Hc). unfold returns_allowed in H. rewrite Hf in H.
  cbn in H. unfold i2b in H. split; intros E; rewrite E in H; cbn in H; zbool; lia.
Qed.

Lemma class_returns (f : Z -> outcome Z) (c : fcontract Z Z) a : fulfils f c -> fc_requires c a = true ->
  exists r, f a = Ret r.
Proof.
  intros H Ha. specialize (H a Ha). unfold returns_allowed in H.
  destruct (f a) eqn:E; try discriminate. eauto.
Qed.

Lemma SFleb_refl f : is_finite f = true -> SFleb f f = true.
Proof.
  destruct f as [s| | |s m e]; intros H; try discriminate H; unfold SFleb, SFcompare.
  - destruct s; reflexivity.
  - rewrite Z.compare_refl, Pos.compare_refl. destruct s; reflexivity.
Qed.

(** A function of a scalar. *)
Definition pure {A R : Type} (f : A -> R) (a : A) : outcome R := Ret (f a).

(** The two numbers that are their own opposite. *)
Lemma s64_opp_fixed c : is_intmax c = true -> s64 (- c) = c <-> c = 0 \/ c = - 2 ^ 63.
Proof.
  unfold is_intmax, between. intros H. destruct (Z.eq_dec c (- 2 ^ 63)) as [-> | Hc].
  - split; [auto | intros _; reflexivity].
  - rewrite s64_small by lia. lia.
Qed.

(** A function of the entropy. *)
Definition with_entropy2 {B R : Type} (f : entropy -> B -> B -> R * entropy) : entropy * B * B -> outcome R :=
  fun '(e, a, b) => Ret (fst (f e a b)).

Lemma nondet_meets {A : Type} `{!EqDecision A} :
  fulfils (with_entropy2 (@Frama_C_nondet A)) nondet_contract.
Proof.
  intros [[e a] b] _. unfold returns_allowed, with_entropy2, Frama_C_nondet.
  destruct (read_entropy _) as [v e']. unfold allows. apply andb_true_iff. split; [| reflexivity].
  apply bool_decide_eq_true. cbn. destruct (i2b v); auto.
Qed.

Lemma interval_meets (in_type : Z -> bool) :
  fulfils (with_entropy2 Frama_C_interval) (interval_contract in_type) /\
  fulfils (with_entropy2 Frama_C_char_interval) (interval_contract in_type).
Proof.
  split; intros [[e lo] hi] H; cbn in H; unfold returns_allowed, with_entropy2;
    unfold Frama_C_interval, Frama_C_char_interval; destruct (read_entropy _) as [v e'];
    unfold allows; cbn [fst fc_ensures interval_contract fc_behaviors forallb];
    rewrite andb_true_r; unfold between; case_match; zbool; lia.
Qed.

Lemma float_interval_meets : fulfils (with_entropy2 Frama_C_double_interval) float_interval_contract.
Proof.
  intros [[e lo] hi] H. cbn in H. rewrite !andb_true_iff in H. destruct H as [[Hlo Hhi] Hle].
  unfold returns_allowed, with_entropy2, Frama_C_double_interval, Frama_C_nondet.
  destruct (read_entropy _) as [v e'].
  unfold allows. cbn -[SFleb is_finite].
  destruct (i2b v); cbn -[SFleb is_finite]; rewrite ?Hlo, ?Hhi, ?Hle, ?SFleb_refl by assumption; reflexivity.
Qed.

Lemma abs_meets : fulfils LibcStdlib.abs (abs_contract 32).
Proof.
  intros j H. change (between (- 2 ^ 31) (2 ^ 31 - 1) j && (- 2 ^ 31 <? j) = true) in H.
  unfold between in H. unfold returns_allowed, LibcStdlib.abs, int_range, allows.
  destruct (Z.ltb_spec j 0).
  - replace ((- 2 ^ 31 <=? - j) && (- j <? 2 ^ 31)) with true by lia.
    cbn. rewrite Z.eqb_refl. replace (j <? 0) with true by lia. replace (0 <=? j) with false by lia. reflexivity.
  - cbn. rewrite Z.eqb_refl. replace (j <? 0) with false by lia. rewrite !orb_true_r. reflexivity.
Qed.
Lemma abs_behaviors w : behaviors_ok (abs_contract w).
Proof.
  intros j _. unfold behaviors_at, applicable. cbn.
  destruct (j <? 0) eqn:E1, (0 <=? j) eqn:E2; try reflexivity; lia.
Qed.

Lemma imaxabs_meets : fulfils imaxabs imaxabs_contract.
Proof.
  intros c H. cbn in H. unfold returns_allowed, imaxabs, allows. cbn.
  assert (Hc : c <> - 2 ^ 63).
  { intros ->. vm_compute in H. discriminate. }
  unfold is_intmax, between in H. destruct (0 <? c); [reflexivity |].
  replace ((- 2 ^ 63 <=? - c) && (- c <? 2 ^ 63)) with true by lia. reflexivity.
Qed.

Lemma imaxdiv_meets : fulfils (fun '(n, d) => imaxdiv n d) imaxdiv_contract.
Proof.
  intros [n d] H. cbn in H. unfold returns_allowed, imaxdiv, allows. cbn.
  assert (Hn : n = - 2 ^ 63 -> d = -1 -> False).
  { intros -> ->. vm_compute in H. discriminate. }
  destruct (d =? 0) eqn:E; [rewrite andb_false_r in H; discriminate |]. cbn.
  destruct ((n =? - 2 ^ 63) && (d =? -1)) eqn:E2; [zbool; lia |].
  rewrite !Z.eqb_refl. reflexivity.
Qed.

(** The functions whose result is undetermined give 0 and 1, each for some entropy. *)
Lemma undetermined (f : entropy -> Z -> Z * entropy) (ct : fcontract Z Z) c :
  f = (fun e _ => Frama_C_nondet e 0 1) -> (exists r, 0 <= r <= 1 /\ allows ct c r = true) ->
  exists e, returns_allowed (pure (fun c => fst (f e c))) ct c = true.
Proof.
  intros -> (r & Hr & Ha). exists (fun _ => 1 - r). unfold returns_allowed. cbn.
  replace (s32 (1 - r)) with (1 - r) by (unfold s32; rewrite Z.mod_small; lia).
  replace (if i2b (1 - r) then 0 else 1) with r; [exact Ha |].
  unfold i2b. destruct (Z.eqb_spec (1 - r) 0); cbn; lia.
Qed.
Lemma undetermined_class (f : entropy -> Z -> Z * entropy) (ct : fcontract Z Z) :
  f = (fun e _ => Frama_C_nondet e 0 1) ->
  forallb (fun c => existsb (allows ct c) [0; 1]) characters = true ->
  forall c, uchar_or_eof c = true -> exists e, returns_allowed (pure (fun c => fst (f e c))) ct c = true.
Proof.
  intros Hf H c Hc. apply undetermined; [exact Hf |].
  pose proof (for_characters _ H c Hc) as E. cbn [existsb] in E. rewrite orb_false_r in E.
  apply orb_true_iff in E. destruct E as [E | E]; [exists 0 | exists 1]; split; [lia | exact E | lia | exact E].
Qed.

(** ** The interface of ctype.h

    What a client of the header may rely on: functions that fulfil the contracts. *)
Class Ctype : Type := {
  ct_alnum : Z -> outcome Z; ct_alnum_ok : fulfils ct_alnum isalnum_contract;
  ct_alpha : Z -> outcome Z; ct_alpha_ok : fulfils ct_alpha isalpha_contract;
  ct_blank : Z -> outcome Z; ct_blank_ok : fulfils ct_blank isblank_contract;
  ct_cntrl : Z -> outcome Z; ct_cntrl_ok : fulfils ct_cntrl iscntrl_contract;
  ct_digit : Z -> outcome Z; ct_digit_ok : fulfils ct_digit isdigit_contract;
  ct_graph : Z -> outcome Z; ct_graph_ok : fulfils ct_graph isgraph_contract;
  ct_lower : Z -> outcome Z; ct_lower_ok : fulfils ct_lower islower_contract;
  ct_print : Z -> outcome Z; ct_print_ok : fulfils ct_print isprint_contract;
  ct_punct : Z -> outcome Z; ct_punct_ok : fulfils ct_punct ispunct_contract;
  ct_space : Z -> outcome Z; ct_space_ok : fulfils ct_space isspace_contract;
  ct_upper : Z -> outcome Z; ct_upper_ok : fulfils ct_upper isupper_contract;
  ct_xdigit : Z -> outcome Z; ct_xdigit_ok : fulfils ct_xdigit isxdigit_contract;
  ct_tolower : Z -> outcome Z; ct_tolower_ok : fulfils ct_tolower tolower_contract;
  ct_toupper : Z -> outcome Z; ct_toupper_ok : fulfils ct_toupper toupper_contract
}.

(** The character is in the class of the function. *)
Definition in_class (f : Z -> outcome Z) (c : Z) : Prop := exists r, f c = Ret r /\ r <> 0.

Lemma in_class_iff f yes no b c : fulfils f (class_contract yes no b) -> uchar_or_eof c = true ->
  yes c = negb (no c) -> in_class f c <-> yes c = true.
Proof.
  intros H Hc E. destruct (class_returns f _ c H Hc) as [r Hr].
  pose proof (class_forces f yes no b c r H Hc Hr) as [H1 H2]. split.
  - intros (r' & Hr' & Hn). rewrite Hr in Hr'. injection Hr' as <-.
    destruct (yes c); [reflexivity |]. destruct (no c); [| discriminate]. exfalso. auto.
  - intros Hy. exists r. auto.
Qed.

(** What the contracts force on ASCII characters; [islower] says nothing of 127. *)
Section Ascii.
Context `{CT : !Ctype} (c : Z) (Hc : 0 <= c <= 127).

Lemma ascii_argument : uchar_or_eof c = true.
Proof. unfold uchar_or_eof, between, EOF. lia. Qed.

Ltac classify E := rewrite (in_class_iff _ _ _ _ _ E); [reflexivity | exact ascii_argument |];
  unfold hexa_digit, between, EOF; lia.

Lemma ascii_alnum : in_class ct_alnum c <-> between 65 90 c || between 97 122 c || between 48 57 c = true.
Proof. classify ct_alnum_ok. Qed.
Lemma ascii_alpha : in_class ct_alpha c <-> between 65 90 c || between 97 122 c = true.
Proof. classify ct_alpha_ok. Qed.
Lemma ascii_blank : in_class ct_blank c <-> (c =? 32) || (c =? 9) = true.
Proof. classify ct_blank_ok. Qed.
Lemma ascii_cntrl : in_class ct_cntrl c <-> between 0 31 c || (c =? 127) = true.
Proof. classify ct_cntrl_ok. Qed.
Lemma ascii_digit : in_class ct_digit c <-> between 48 57 c = true.
Proof. classify ct_digit_ok. Qed.
Lemma ascii_graph : in_class ct_graph c <-> between 33 126 c = true.
Proof. classify ct_graph_ok. Qed.
Lemma ascii_lower : c <> 127 -> in_class ct_lower c <-> between 97 122 c = true.
Proof. intros ?. classify ct_lower_ok. Qed.
Lemma ascii_print : in_class ct_print c <-> between 32 126 c = true.
Proof. classify ct_print_ok. Qed.
Lemma ascii_punct : in_class ct_punct c <->
  between 33 47 c || between 58 64 c || between 91 96 c || between 123 126 c = true.
Proof. classify ct_punct_ok. Qed.
Lemma ascii_space : in_class ct_space c <-> between 9 13 c || (c =? 32) = true.
Proof. classify ct_space_ok. Qed.
Lemma ascii_upper : in_class ct_upper c <-> between 65 90 c = true.
Proof. classify ct_upper_ok. Qed.
Lemma ascii_xdigit : in_class ct_xdigit c <-> hexa_digit c = true.
Proof. classify ct_xdigit_ok. Qed.
End Ascii.

(** The case of a character that the contract covers. *)
Lemma case_forces f changed unchanged d c : fulfils f (case_contract changed unchanged d) ->
  uchar_or_eof c = true -> (changed c = true -> f c = Ret (c + d)) /\ (unchanged c = true -> f c = Ret c).
Proof.
  intros H Hc. specialize (H c Hc). unfold returns_allowed, allows in H.
  destruct (f c) as [r| | |]; try discriminate. cbn in H.
  split; intros E; rewrite E in H; cbn in H; f_equal; lia.
Qed.

(** ** Theorems *)

(** The functions of ctype.c whose result is determined meet their contracts on
    every unsigned character and [EOF], [isblank] except on the white space of 10 to
    13; the functions whose result is not determined can give one that the contract
    allows; the behaviors of every contract are disjoint, and complete where the
    header says so. *)
Theorem ctype_meets_contracts :
  (fulfils (pure isalnum) isalnum_contract /\ fulfils (pure isalpha) isalpha_contract /\
   fulfils (pure isdigit) isdigit_contract /\ fulfils (pure islower) islower_contract /\
   fulfils (pure isspace) isspace_contract /\ fulfils (pure isupper) isupper_contract /\
   fulfils (pure isxdigit) isxdigit_contract /\
   fulfils (pure tolower) tolower_contract /\ fulfils (pure toupper) toupper_contract) /\
  (forall c, uchar_or_eof c = true ->
     returns_allowed (pure isblank) isblank_contract c = negb (between 10 13 c)) /\
  (forall c, uchar_or_eof c = true ->
     (exists e, returns_allowed (pure (fun c => fst (iscntrl e c))) iscntrl_contract c = true) /\
     (exists e, returns_allowed (pure (fun c => fst (isgraph e c))) isgraph_contract c = true) /\
     (exists e, returns_allowed (pure (fun c => fst (isprint e c))) isprint_contract c = true) /\
     (exists e, returns_allowed (pure (fun c => fst (ispunct e c))) ispunct_contract c = true)) /\
  Forall behaviors_ok [isalnum_contract; isalpha_contract; isblank_contract; iscntrl_contract;
    isdigit_contract; isgraph_contract; islower_contract; isprint_contract; ispunct_contract;
    isspace_contract; isupper_contract; isxdigit_contract; isascii_contract;
    tolower_contract; toupper_contract].
Proof.
  split; [| split; [| split]].
  - repeat (split; [by_characters |]). by_characters.
  - intros c Hc. apply eqb_prop.
    revert c Hc. apply (for_characters (fun c => eqb (returns_allowed (pure isblank) isblank_contract c) _)).
    vm_compute. reflexivity.
  - intros c Hc.
    split; [| split; [| split]]; apply undetermined_class; try reflexivity; assumption.
  - repeat (apply Forall_cons; split; [by_characters |]). apply Forall_nil. exact I.
Qed.

(** What the contracts of ctype.h say of ASCII characters is what the C standard
    asks of the classes: for every library that fulfils them, the alphanumeric
    characters are the letters and the digits, the letters those of lower and of upper
    case, the printing characters the space, the alphanumeric characters and the
    punctuation, and the others are control characters; [tolower] and [toupper] are
    inverse on letters. *)
Theorem ctype_classes_standard `{CT : !Ctype} (c : Z) : 0 <= c <= 127 ->
  (in_class ct_alnum c <-> in_class ct_alpha c \/ in_class ct_digit c) /\
  (c <> 127 -> in_class ct_alpha c <-> in_class ct_lower c \/ in_class ct_upper c) /\
  (in_class ct_graph c <-> in_class ct_alnum c \/ in_class ct_punct c) /\
  ~ (in_class ct_alnum c /\ in_class ct_punct c) /\
  (in_class ct_print c <-> in_class ct_graph c \/ c = 32) /\
  (in_class ct_cntrl c <-> ~ in_class ct_print c) /\
  (in_class ct_digit c -> in_class ct_xdigit c) /\
  (in_class ct_xdigit c -> in_class ct_alnum c) /\
  (in_class ct_blank c -> in_class ct_space c) /\
  (c <> 127 -> in_class ct_lower c ->
     exists u, ct_toupper c = Ret u /\ in_class ct_upper u /\ ct_tolower u = Ret c) /\
  (in_class ct_upper c ->
     exists l, ct_tolower c = Ret l /\ in_class ct_lower l /\ ct_toupper l = Ret c) /\
  (~ in_class ct_upper c -> ct_tolower c = Ret c).
Proof.
  intros Hc. rewrite ascii_alnum, ascii_alpha, ascii_blank, ascii_cntrl, ascii_digit, ascii_graph,
    ascii_print, ascii_punct, ascii_space, ascii_upper, ascii_xdigit by exact Hc.
  split_and!; try (unfold hexa_digit, between in *; lia).
  - intros H. rewrite ascii_lower by assumption. unfold between. lia.
  - intros H Hl. rewrite ascii_lower in Hl by assumption. unfold between in Hl. exists (c - 32).
    split; [| split].
    + apply (case_forces _ _ _ _ c ct_toupper_ok); unfold uchar_or_eof, between, EOF; lia.
    + apply ascii_upper; unfold between; lia.
    + replace (Ret c) with (Ret (c - 32 + 32)) by (f_equal; lia).
      apply (case_forces _ _ _ _ (c - 32) ct_tolower_ok); unfold uchar_or_eof, between, EOF; lia.
  - intros Hu. unfold between in Hu. exists (c + 32). split; [| split].
    + apply (case_forces _ _ _ _ c ct_tolower_ok); unfold uchar_or_eof, between, EOF; lia.
    + apply ascii_lower; unfold between; lia.
    + replace (Ret c) with (Ret (c + 32 + -32)) by (f_equal; lia).
      apply (case_forces _ _ _ _ (c + 32) ct_toupper_ok); unfold uchar_or_eof, between, EOF; lia.
  - intros Hu. unfold between in Hu.
    apply (case_forces _ _ _ _ c ct_tolower_ok); unfold uchar_or_eof, between, EOF; lia.
Qed.

(** The functions of ctype.c, with determined results for the classes that it leaves
    open and the contract's [isblank]. *)
Definition ascii_ctype : Ctype.
Proof.
  refine {| ct_alnum := pure isalnum; ct_alpha := pure isalpha;
            ct_blank := pure (fun c => b2i (ISBLANK c));
            ct_cntrl := pure (fun c => b2i (between 0 31 c || (c =? 127)));
            ct_digit := pure isdigit; ct_graph := pure (fun c => b2i (between 33 126 c));
            ct_lower := pure islower; ct_print := pure (fun c => b2i (between 32 126 c));
            ct_punct := pure (fun c => b2i (between 33 126 c && negb (ISALNUM c)));
            ct_space := pure isspace; ct_upper := pure isupper; ct_xdigit := pure isxdigit;
            ct_tolower := pure tolower; ct_toupper := pure toupper |}; by_characters.
Defined.

Lemma ctype_classes_standard_witness :
  0 <= 65 <= 127 /\
  (@in_class (@ct_alnum ascii_ctype) 65 <->
     @in_class (@ct_alpha ascii_ctype) 65 \/ @in_class (@ct_digit ascii_ctype) 65).
Proof. split; [lia |]. apply (@ctype_classes_standard ascii_ctype 65). lia. Defined.

(** The choices of __fc_builtin.c, [abs] and the functions of inttypes.c return a
    result that their contracts allow, with no undefined behaviour, for every entropy;
    the functions of [double] choose finite values between finite bounds.  The
    preconditions of [imaxabs] and [imaxdiv] exclude, with the least number, also 0. *)
Theorem scalar_functions_meet_contracts :
  (forall (A : Type) (D : EqDecision A), fulfils (with_entropy2 (@Frama_C_nondet A)) nondet_contract) /\
  (forall in_type, fulfils (with_entropy2 Frama_C_interval) (interval_contract in_type) /\
     fulfils (with_entropy2 Frama_C_char_interval) (interval_contract in_type)) /\
  fulfils (with_entropy2 Frama_C_double_interval) float_interval_contract /\
  (fulfils LibcStdlib.abs (abs_contract 32) /\ forall w, behaviors_ok (abs_contract w)) /\
  fulfils imaxabs imaxabs_contract /\
  fulfils (fun '(n, d) => imaxdiv n d) imaxdiv_contract /\
  (forall c, is_intmax c = true ->
     fc_requires imaxabs_contract c = false <-> c = 0 \/ c = - 2 ^ 63) /\
  (forall n d, is_intmax n = true -> is_intmax d = true ->
     fc_requires imaxdiv_contract (n, d) = false <-> d = 0 \/ d = -1 /\ (n = 0 \/ n = - 2 ^ 63)).
Proof.
  split; [exact @nondet_meets |]. split; [exact interval_meets |].
  split; [exact float_interval_meets |]. split; [exact (conj abs_meets abs_behaviors) |].
  split; [exact imaxabs_meets |]. split; [exact imaxdiv_meets |].
  split; [intros c Hc | intros n d Hn Hd]; cbn.
  - rewrite Hc. cbn. rewrite negb_false_iff, Z.eqb_eq. apply s64_opp_fixed. exact Hc.
  - rewrite Hn, Hd. cbn. rewrite andb_false_iff, orb_false_iff, !negb_false_iff, !Z.eqb_eq, s64_opp_fixed by exact Hn.
    lia.
Qed.

(** Where the code and the contracts of ctype.h part: a newline is blank for the code,
    and the undetermined classes can give what the contract excludes. *)
Theorem ctype_contracts_violated :
  ~ fulfils (pure isblank) isblank_contract /\
  exists e, ~ fulfils (pure (fun c => fst (iscntrl e c))) iscntrl_contract /\
    ~ fulfils (pure (fun c => fst (isgraph e c))) isgraph_contract /\
    ~ fulfils (pure (fun c => fst (isprint e c))) isprint_contract /\
    ~ fulfils (pure (fun c => fst (ispunct e c))) ispunct_contract.
Proof.
  split; [intros H; specialize (H 10 eq_refl); vm_compute in H; discriminate |].
  exists (fun _ => 0).
  split; [| split; [| split]]; intros H;
    [specialize (H 65 eq_refl) | specialize (H 32 eq_refl) | specialize (H 10 eq_refl) | specialize (H 65 eq_refl)];
    vm_compute in H; discriminate.
Qed.
