(* ===== verification/MachTables.v ===== *)
(** * The definitions of the machine-dependent headers

    The macros and the types of share/libc/__fc_machdep.h for its five machines, of
    __fc_machdep_linux_shared.h, which four of them include, and of limits.h, stdint.h,
    inttypes.h and errno.h, which are defined by them: one entry for each definition, in
    the order of the file.  Macros with parameters are left out. *)

From S2P Require Import Prelude.
From Stdlib Require Import String.
#[local] Open Scope string_scope.

(** ** Definitions *)

Inductive ikind : Type := SChar | UChar | Short | UShort | Int | UInt | Long | ULong | LLong | ULLong.

(** The suffix of a literal: none, [U], [L], [UL], [LL], [ULL]. *)
Inductive suffix : Type := sN | sU | sL | sUL | sLL | sULL.

(** Constant expressions; [Lit] says whether the literal is hexadecimal. *)
Inductive cexpr : Type :=
| Lit (hex : bool) (v : Z) (s : suffix)
| Ref (name : string)
| Neg (e : cexpr)
| Sub (e1 e2 : cexpr).

(** The body of a macro: an expression, a type, the name of the macro of a type, a
    string, a macro followed by a string, or other tokens. *)
Inductive body : Type :=
| Expr (e : cexpr)
| Ty (k : ikind)
| TyRef (name : string)
| Str (s : string)
| Cat (prefix s : string)
| Tokens (s : string).

Definition table : Type := list (string * body).

(** ** Headers *)

(** __fc_machdep_linux_shared.h: what the Linux machines share. *)
Definition linux_shared : table := [
  ("__FC_POSIX_VERSION", Expr (Lit false 200809 sL));
  ("__INT8_T", Ty SChar);
  ("__INT8_MIN", Expr (Ref "__FC_SCHAR_MIN"));
  ("__INT8_MAX", Expr (Ref "__FC_SCHAR_MAX"));
  ("__UINT8_T", Ty UChar);
  ("__UINT8_MIN", Expr (Ref "__FC_UCHAR_MAX"));
  ("__INT16_T", Ty Short);
  ("__INT16_MIN", Expr (Ref "__FC_SHRT_MIN"));
  ("__INT16_MAX", Expr (Ref "__FC_SHRT_MAX"));
  ("__UINT16_T", Ty UShort);
  ("__UINT16_MAX", Expr (Ref "__FC_USHRT_MAX"));
  ("__PRI8_PREFIX", Str "hh");
  ("__PRI16_PREFIX", Str "h");
  ("__INT_LEAST8_T", Ty SChar);
  ("__INT_LEAST8_MIN", Expr (Ref "__FC_SCHAR_MIN"));
  ("__INT_LEAST8_MAX", Expr (Ref "__FC_SCHAR_MAX"));
  ("__UINT_LEAST8_T", Ty UChar);
  ("__UINT_LEAST8_MAX", Expr (Ref "__FC_UCHAR_MAX"));
  ("__INT_LEAST16_T", Ty Short);
  ("__INT_LEAST16_MIN", Expr (Ref "__FC_SHRT_MIN"));
  ("__INT_LEAST16_MAX", Expr (Ref "__FC_SHRT_MAX"));
  ("__UINT_LEAST16_T", Ty UShort);
  ("__UINT_LEAST16_MAX", Expr (Ref "__FC_USHRT_MAX"));
  ("__INT_FAST8_T", Ty SChar);
  ("__INT_FAST8_MIN", Expr (Ref "__FC_SCHAR_MIN"));
  ("__INT_FAST8_MAX", Expr (Ref "__FC_SCHAR_MAX"));
  ("__UINT_FAST8_T", Ty UChar);
  ("__UINT_FAST8_MAX", Expr (Ref "__FC_UCHAR_MAX"));
  ("__INT_FAST16_T", Ty Int);
  ("__INT_FAST16_MIN", Expr (Ref "__FC_INT_MIN"));
  ("__INT_FAST16_MAX", Expr (Ref "__FC_INT_MAX"));
  ("__UINT_FAST16_T", Ty UInt);
  ("__UINT_FAST16_MAX", Expr (Ref "__FC_UINT_MAX"));
  ("__PRIFAST16_PREFIX", Str "");
  ("__INT_MAX_T", Ty LLong);
  ("__UINT_MAX_T", Ty ULLong);
  ("__PRIMAX_PREFIX", Str "ll");
  ("__FC_SCHAR_MIN", Expr (Neg (Lit false 128 sN)));
  ("__FC_SCHAR_MAX", Expr (Lit false 127 sN));
  ("__FC_UCHAR_MAX", Expr (Lit false 255 sN));
  ("__FC_SHRT_MIN", Expr (Neg (Lit false 32768 sN)));
  ("__FC_SHRT_MAX", Expr (Lit false 32767 sN));
  ("__FC_USHRT_MAX", Expr (Lit false 65535 sN));
  ("__FC_LLONG_MIN", Expr (Sub (Neg (Lit false 9223372036854775807 sLL)) (Lit false 1 sLL)));
  ("__FC_LLONG_MAX", Expr (Lit false 9223372036854775807 sLL));
  ("__FC_ULLONG_MAX", Expr (Lit false 18446744073709551615 sULL));
  ("__FC_PATH_MAX", Expr (Lit false 256 sN));
  ("__FC_HOST_NAME_MAX", Expr (Lit false 64 sN));
  ("__FC_TTY_NAME_MAX", Expr (Lit false 32 sN));
  ("__FC_VA_LIST_T", Expr (Ref "__builtin_va_list"));
  ("__FC_SIG_ATOMIC_MIN", Expr (Ref "__FC_INT_MIN"));
  ("__FC_SIG_ATOMIC_MAX", Expr (Ref "__FC_INT_MAX"));
  ("__FC_WCHAR_MIN", Expr (Ref "__FC_INT_MIN"));
  ("__FC_WCHAR_MAX", Expr (Ref "__FC_INT_MAX"));
  ("__FC_INTMAX_MIN", Expr (Sub (Neg (Lit false 9223372036854775807 sLL)) (Lit false 1 sLL)));
  ("__FC_INTMAX_MAX", Expr (Lit false 9223372036854775807 sLL));
  ("__FC_UINTMAX_MAX", Expr (Lit false 18446744073709551615 sULL));
  ("__WCHAR_T", Ty Int);
  ("__FC_BUFSIZ", Expr (Lit false 8192 sN));
  ("__FC_EOF", Expr (Neg (Lit false 1 sN)));
  ("__FC_FOPEN_MAX", Expr (Lit false 16 sN));
  ("__FC_FILENAME_MAX", Expr (Lit false 2048 sN));
  ("__FC_L_tmpnam", Expr (Lit false 2048 sN));
  ("__FC_TMP_MAX", Expr (Lit true 4294967295 sN));
  ("__FC_RAND_MAX", Expr (Lit false 32767 sN));
  ("__FC_MB_CUR_MAX", Tokens "((size_t)16)")
].

(** __fc_machdep_linux_shared.h: the error codes. *)
Definition linux_errno : table := [
  ("__FC_EPERM", Expr (Lit false 1 sN));
  ("__FC_ENOENT", Expr (Lit false 2 sN));
  ("__FC_ESRCH", Expr (Lit false 3 sN));
  ("__FC_EINTR", Expr (Lit false 4 sN));
  ("__FC_EIO", Expr (Lit false 5 sN));
  ("__FC_ENXIO", Expr (Lit false 6 sN));
  ("__FC_E2BIG", Expr (Lit false 7 sN));
  ("__FC_ENOEXEC", Expr (Lit false 8 sN));
  ("__FC_EBADF", Expr (Lit false 9 sN));
  ("__FC_ECHILD", Expr (Lit false 10 sN));
  ("__FC_EAGAIN", Expr (Lit false 11 sN));
  ("__FC_ENOMEM", Expr (Lit false 12 sN));
  ("__FC_EACCES", Expr (Lit false 13 sN));
  ("__FC_EFAULT", Expr (Lit false 14 sN));
  ("__FC_ENOTBLK", Expr (Lit false 15 sN));
  ("__FC_EBUSY", Expr (Lit false 16 sN));
  ("__FC_EEXIST", Expr (Lit false 17 sN));
  ("__FC_EXDEV", Expr (Lit false 18 sN));
  ("__FC_ENODEV", Expr (Lit false 19 sN));
  ("__FC_ENOTDIR", Expr (Lit false 20 sN));
  ("__FC_EISDIR", Expr (Lit false 21 sN));
  ("__FC_EINVAL", Expr (Lit false 22 sN));
  ("__FC_ENFILE", Expr (Lit false 23 sN));
  ("__FC_EMFILE", Expr (Lit false 24 sN));
  ("__FC_ENOTTY", Expr (Lit false 25 sN));
  ("__FC_ETXTBSY", Expr (Lit false 26 sN));
  ("__FC_EFBIG", Expr (Lit false 27 sN));
  ("__FC_ENOSPC", Expr (Lit false 28 sN));
  ("__FC_ESPIPE", Expr (Lit false 29 sN));
  ("__FC_EROFS", Expr (Lit false 30 sN));
  ("__FC_EMLINK", Expr (Lit false 31 sN));
  ("__FC_EPIPE", Expr (Lit false 32 sN));
  ("__FC_EDOM", Expr (Lit false 33 sN));
  ("__FC_ERANGE", Expr (Lit false 34 sN));
  ("__FC_EDEADLK", Expr (Lit false 35 sN));
  ("__FC_ENAMETOOLONG", Expr (Lit false 36 sN));
  ("__FC_ENOLCK", Expr (Lit false 37 sN));
  ("__FC_ENOSYS", Expr (Lit false 38 sN));
  ("__FC_ENOTEMPTY", Expr (Lit false 39 sN));
  ("__FC_ELOOP", Expr (Lit false 40 sN));
  ("__FC_EWOULDBLOCK", Expr (Ref "EAGAIN"));
  ("__FC_ENOMSG", Expr (Lit false 42 sN));
  ("__FC_EIDRM", Expr (Lit false 43 sN));
  ("__FC_ECHRNG", Expr (Lit false 44 sN));
  ("__FC_EL2NSYNC", Expr (Lit false 45 sN));
  ("__FC_EL3HLT", Expr (Lit false 46 sN));
  ("__FC_EL3RST", Expr (Lit false 47 sN));
  ("__FC_ELNRNG", Expr (Lit false 48 sN));
  ("__FC_EUNATCH", Expr (Lit false 49 sN));
  ("__FC_ENOCSI", Expr (Lit false 50 sN));
  ("__FC_EL2HLT", Expr (Lit false 51 sN));
  ("__FC_EBADE", Expr (Lit false 52 sN));
  ("__FC_EBADR", Expr (Lit false 53 sN));
  ("__FC_EXFULL", Expr (Lit false 54 sN));
  ("__FC_ENOANO", Expr (Lit false 55 sN));
  ("__FC_EBADRQC", Expr (Lit false 56 sN));
  ("__FC_EBADSLT", Expr (Lit false 57 sN));
  ("__FC_EDEADLOCK", Expr (Ref "EDEADLK"));
  ("__FC_EBFONT", Expr (Lit false 59 sN));
  ("__FC_ENOSTR", Expr (Lit false 60 sN));
  ("__FC_ENODATA", Expr (Lit false 61 sN));
  ("__FC_ETIME", Expr (Lit false 62 sN));
  ("__FC_ENOSR", Expr (Lit false 63 sN));
  ("__FC_ENONET", Expr (Lit false 64 sN));
  ("__FC_ENOPKG", Expr (Lit false 65 sN));
  ("__FC_EREMOTE", Expr (Lit false 66 sN));
  ("__FC_ENOLINK", Expr (Lit false 67 sN));
  ("__FC_EADV", Expr (Lit false 68 sN));
  ("__FC_ESRMNT", Expr (Lit false 69 sN));
  ("__FC_ECOMM", Expr (Lit false 70 sN));
  ("__FC_EPROTO", Expr (Lit false 71 sN));
  ("__FC_EMULTIHOP", Expr (Lit false 72 sN));
  ("__FC_EDOTDOT", Expr (Lit false 73 sN));
  ("__FC_EBADMSG", Expr (Lit false 74 sN));
  ("__FC_EOVERFLOW", Expr (Lit false 75 sN));
  ("__FC_ENOTUNIQ", Expr (Lit false 76 sN));
  ("__FC_EBADFD", Expr (Lit false 77 sN));
  ("__FC_EREMCHG", Expr (Lit false 78 sN));
  ("__FC_ELIBACC", Expr (Lit false 79 sN));
  ("__FC_ELIBBAD", Expr (Lit false 80 sN));
  ("__FC_ELIBSCN", Expr (Lit false 81 sN));
  ("__FC_ELIBMAX", Expr (Lit false 82 sN));
  ("__FC_ELIBEXEC", Expr (Lit false 83 sN));
  ("__FC_EILSEQ", Expr (Lit false 84 sN));
  ("__FC_ERESTART", Expr (Lit false 85 sN));
  ("__FC_ESTRPIPE", Expr (Lit false 86 sN));
  ("__FC_EUSERS", Expr (Lit false 87 sN));
  ("__FC_ENOTSOCK", Expr (Lit false 88 sN));
  ("__FC_EDESTADDRREQ", Expr (Lit false 89 sN));
  ("__FC_EMSGSIZE", Expr (Lit false 90 sN));
  ("__FC_EPROTOTYPE", Expr (Lit false 91 sN));
  ("__FC_ENOPROTOOPT", Expr (Lit false 92 sN));
  ("__FC_EPROTONOSUPPORT", Expr (Lit false 93 sN));
  ("__FC_ESOCKTNOSUPPORT", Expr (Lit false 94 sN));
  ("__FC_ENOTSUP", Expr (Lit false 95 sN));
  ("__FC_EOPNOTSUPP", Expr (Lit false 95 sN));
  ("__FC_EPFNOSUPPORT", Expr (Lit false 96 sN));
  ("__FC_EAFNOSUPPORT", Expr (Lit false 97 sN));
  ("__FC_EADDRINUSE", Expr (Lit false 98 sN));
  ("__FC_EADDRNOTAVAIL", Expr (Lit false 99 sN));
  ("__FC_ENETDOWN", Expr (Lit false 100 sN));
  ("__FC_ENETUNREACH", Expr (Lit false 101 sN));
  ("__FC_ENETRESET", Expr (Lit false 102 sN));
  ("__FC_ECONNABORTED", Expr (Lit false 103 sN));
  ("__FC_ECONNRESET", Expr (Lit false 104 sN));
  ("__FC_ENOBUFS", Expr (Lit false 105 sN));
  ("__FC_EISCONN", Expr (Lit false 106 sN));
  ("__FC_ENOTCONN", Expr (Lit false 107 sN));
  ("__FC_ESHUTDOWN", Expr (Lit false 108 sN));
  ("__FC_ETOOMANYREFS", Expr (Lit false 109 sN));
  ("__FC_ETIMEDOUT", Expr (Lit false 110 sN));
  ("__FC_ECONNREFUSED", Expr (Lit false 111 sN));
  ("__FC_EHOSTDOWN", Expr (Lit false 112 sN));
  ("__FC_EHOSTUNREACH", Expr (Lit false 113 sN));
  ("__FC_EALREADY", Expr (Lit false 114 sN));
  ("__FC_EINPROGRESS", Expr (Lit false 115 sN));
  ("__FC_ESTALE", Expr (Lit false 116 sN));
  ("__FC_EUCLEAN", Expr (Lit false 117 sN));
  ("__FC_ENOTNAM", Expr (Lit false 118 sN));
  ("__FC_ENAVAIL", Expr (Lit false 119 sN));
  ("__FC_EISNAM", Expr (Lit false 120 sN));
  ("__FC_EREMOTEIO", Expr (Lit false 121 sN));
  ("__FC_EDQUOT", Expr (Lit false 122 sN));
  ("__FC_ENOMEDIUM", Expr (Lit false 123 sN));
  ("__FC_EMEDIUMTYPE", Expr (Lit false 124 sN));
  ("__FC_ECANCELED", Expr (Lit false 125 sN));
  ("__FC_ENOKEY", Expr (Lit false 126 sN));
  ("__FC_EKEYEXPIRED", Expr (Lit false 127 sN));
  ("__FC_EKEYREVOKED", Expr (Lit false 128 sN));
  ("__FC_EKEYREJECTED", Expr (Lit false 129 sN));
  ("__FC_EOWNERDEAD", Expr (Lit false 130 sN));
  ("__FC_ENOTRECOVERABLE", Expr (Lit false 131 sN));
  ("__FC_ERFKILL", Expr (Lit false 132 sN));
  ("__FC_EHWPOISON", Expr (Lit false 133 sN));
  ("__FC_TIME_T", Ty Long)
].

(** __fc_machdep.h: the definitions of x86_32. *)
Definition x86_32_own : table := [
  ("__FC_BYTE_ORDER", Expr (Ref "__LITTLE_ENDIAN"));
  ("__WORDSIZE", Expr (Lit false 32 sN));
  ("__SIZEOF_SHORT", Expr (Lit false 2 sN));
  ("__SIZEOF_INT", Expr (Lit false 4 sN));
  ("__SIZEOF_LONG", Expr (Lit false 4 sN));
  ("__SIZEOF_LONGLONG", Expr (Lit false 8 sN));
  ("__CHAR_BIT", Expr (Lit false 8 sN));
  ("__PTRDIFF_T", Ty Int);
  ("__SIZE_T", Ty UInt);
  ("__FC_INT_MIN", Expr (Sub (Neg (Lit false 2147483647 sN)) (Lit false 1 sN)));
  ("__FC_INT_MAX", Expr (Lit false 2147483647 sN));
  ("__FC_UINT_MAX", Expr (Lit false 4294967295 sU));
  ("__FC_LONG_MIN", Expr (Sub (Neg (Lit false 2147483647 sL)) (Lit false 1 sL)));
  ("__FC_LONG_MAX", Expr (Lit false 2147483647 sL));
  ("__FC_ULONG_MAX", Expr (Lit false 4294967295 sUL));
  ("__FC_SIZE_MAX", Expr (Ref "__FC_UINT_MAX"));
  ("__INTPTR_T", Ty Int);
  ("__FC_INTPTR_MIN", Expr (Ref "__FC_INT_MIN"));
  ("__FC_INTPTR_MAX", Expr (Ref "__FC_INT_MAX"));
  ("__UINTPTR_T", Ty UInt);
  ("__FC_UINTPTR_MAX", Expr (Ref "__FC_UINT_MAX"));
  ("__INT32_T", Ty Int);
  ("__UINT32_T", Ty UInt);
  ("__INT64_T", Ty LLong);
  ("__UINT64_T", Ty ULLong);
  ("__PRI32_PREFIX", Str "");
  ("__PRI64_PREFIX", Str "ll");
  ("__PRIPTR_PREFIX", Str "");
  ("__INT_LEAST32_T", Ty Int);
  ("__INT_LEAST32_MIN", Expr (Ref "__FC_INT_MIN"));
  ("__INT_LEAST32_MAX", Expr (Ref "__FC_INT_MAX"));
  ("__UINT_LEAST32_T", Ty UInt);
  ("__UINT_LEAST32_MAX", Expr (Ref "__FC_UINT_MAX"));
  ("__INT_LEAST64_T", Ty LLong);
  ("__INT_LEAST64_MIN", Expr (Ref "__FC_LLONG_MIN"));
  ("__INT_LEAST64_MAX", Expr (Ref "__FC_LLONG_MAX"));
  ("__UINT_LEAST64_T", Ty ULLong);
  ("__UINT_LEAST64_MAX", Expr (Ref "__FC_ULLONG_MAX"));
  ("__INT_FAST32_T", Ty Int);
  ("__INT_FAST32_MIN", Expr (Ref "__FC_INT_MIN"));
  ("__INT_FAST32_MAX", Expr (Ref "__FC_INT_MAX"));
  ("__UINT_FAST32_T", Ty UInt);
  ("__UINT_FAST32_MAX", Expr (Ref "__FC_UINT_MAX"));
  ("__INT_FAST64_T", Ty LLong);
  ("__INT_FAST64_MIN", Expr (Ref "__FC_LLONG_MIN"));
  ("__INT_FAST64_MAX", Expr (Ref "__FC_LLONG_MAX"));
  ("__UINT_FAST64_T", Ty ULLong);
  ("__UINT_FAST64_MAX", Expr (Ref "__FC_ULLONG_MAX"));
  ("__SSIZE_T", Ty Int);
  ("__SSIZE_MAX", Expr (Ref "__FC_INT_MAX"));
  ("__FC_L_tmpnam", Expr (Lit false 1024 sN));
  ("__FC_PTRDIFF_MIN", Expr (Ref "__FC_INT_MIN"));
  ("__FC_PTRDIFF_MAX", Expr (Ref "__FC_INT_MAX"));
  ("__WINT_T", Ty UInt);
  ("__FC_WEOF", Expr (Lit true 4294967295 sU));
  ("__FC_WINT_MIN", Expr (Lit false 0 sN));
  ("__FC_WINT_MAX", Expr (Ref "__FC_UINT_MAX"))
].

(** __fc_machdep.h: the definitions of x86_64. *)
Definition x86_64_own : table := [
  ("__FC_BYTE_ORDER", Expr (Ref "__LITTLE_ENDIAN"));
  ("__WORDSIZE", Expr (Lit false 64 sN));
  ("__SIZEOF_SHORT", Expr (Lit false 2 sN));
  ("__SIZEOF_INT", Expr (Lit false 4 sN));
  ("__SIZEOF_LONG", Expr (Lit false 8 sN));
  ("__SIZEOF_LONGLONG", Expr (Lit false 8 sN));
  ("__CHAR_BIT", Expr (Lit false 8 sN));
  ("__PTRDIFF_T", Ty Long);
  ("__SIZE_T", Ty ULong);
  ("__FC_INT_MIN", Expr (Sub (Neg (Lit false 2147483647 sN)) (Lit false 1 sN)));
  ("__FC_INT_MAX", Expr (Lit false 2147483647 sN));
  ("__FC_UINT_MAX", Expr (Lit false 4294967295 sU));
  ("__FC_LONG_MIN", Expr (Sub (Neg (Lit false 9223372036854775807 sL)) (Lit false 1 sL)));
  ("__FC_LONG_MAX", Expr (Lit false 9223372036854775807 sL));
  ("__FC_ULONG_MAX", Expr (Lit false 18446744073709551615 sUL));
  ("__FC_SIZE_MAX", Expr (Ref "__FC_ULONG_MAX"));
  ("__INTPTR_T", Ty Long);
  ("__FC_INTPTR_MIN", Expr (Ref "__FC_LONG_MIN"));
  ("__FC_INTPTR_MAX", Expr (Ref "__FC_LONG_MAX"));
  ("__UINTPTR_T", Ty ULong);
  ("__FC_UINTPTR_MAX", Expr (Ref "__FC_ULONG_MAX"));
  ("__INT32_T", Ty Int);
  ("__INT32_MIN", Expr (Ref "__FC_INT_MIN"));
  ("__INT32_MAX", Expr (Ref "__FC_INT_MAX"));
  ("__UINT32_T", Ty UInt);
  ("__UINT32_MAX", Expr (Ref "__FC_UINT_MAX"));
  ("__INT64_T", Ty Long);
  ("__INT64_MIN", Expr (Ref "__FC_LONG_MIN"));
  ("__INT64_MAX", Expr (Ref "__FC_LONG_MAX"));
  ("__UINT64_T", Ty ULong);
  ("__UINT64_MAX", Expr (Ref "__FC_ULONG_MAX"));
  ("__PRI32_PREFIX", Str "");
  ("__PRI64_PREFIX", Str "l");
  ("__PRIPTR_PREFIX", Str "l");
  ("__INT_LEAST32_T", Ty Int);
  ("__INT_LEAST32_MIN", Expr (Ref "__FC_INT_MIN"));
  ("__INT_LEAST32_MAX", Expr (Ref "__FC_INT_MAX"));
  ("__UINT_LEAST32_T", Ty UInt);
  ("__UINT_LEAST32_MAX", Expr (Ref "__FC_UINT_MAX"));
  ("__INT_LEAST64_T", Ty Long);
  ("__INT_LEAST64_MIN", Expr (Ref "__FC_LONG_MIN"));
  ("__INT_LEAST64_MAX", Expr (Ref "__FC_LONG_MAX"));
  ("__UINT_LEAST64_T", Ty ULong);
  ("__UINT_LEAST64_MAX", Expr (Ref "__FC_ULONG_MAX"));
  ("__INT_FAST32_T", Ty Int);
  ("__INT_FAST32_MIN", Expr (Ref "__FC_INT_MIN"));
  ("__INT_FAST32_MAX", Expr (Ref "__FC_INT_MAX"));
  ("__UINT_FAST32_T", Ty UInt);
  ("__UINT_FAST32_MAX", Expr (Ref "__FC_UINT_MAX"));
  ("__INT_FAST64_T", Ty Long);
  ("__INT_FAST64_MIN", Expr (Ref "__FC_LONG_MIN"));
  ("__INT_FAST64_MAX", Expr (Ref "__FC_LONG_MAX"));
  ("__UINT_FAST64_T", Ty ULong);
  ("__UINT_FAST64_MAX", Expr (Ref "__FC_ULONG_MAX"));
  ("__SSIZE_T", Ty Long);
  ("__SSIZE_MAX", Expr (Ref "__FC_LONG_MAX"));
  ("__FC_L_tmpnam", Expr (Lit false 1024 sN));
  ("__FC_PTRDIFF_MIN", Expr (Ref "__FC_LONG_MIN"));
  ("__FC_PTRDIFF_MAX", Expr (Ref "__FC_LONG_MAX"));
  ("__WINT_T", Ty UInt);
  ("__FC_WEOF", Expr (Lit true 4294967295 sU));
  ("__FC_WINT_MIN", Expr (Lit false 0 sN));
  ("__FC_WINT_MAX", Expr (Ref "__FC_UINT_MAX"))
].

(** __fc_machdep.h: the definitions of x86_16. *)
Definition x86_16_own : table := [
  ("__FC_BYTE_ORDER", Expr (Ref "__LITTLE_ENDIAN"));
  ("__WORDSIZE", Expr (Lit false 16 sN));
  ("__SIZEOF_SHORT", Expr (Lit false 2 sN));
  ("__SIZEOF_INT", Expr (Lit false 2 sN));
  ("__SIZEOF_LONG", Expr (Lit false 4 sN));
  ("__SIZEOF_LONGLONG", Expr (Lit false 8 sN));
  ("__CHAR_BIT", Expr (Lit false 8 sN));
  ("__PTRDIFF_T", Ty Long);
  ("__SIZE_T", Ty UInt);
  ("__FC_INT_MIN", Expr (Neg (Lit false 32768 sN)));
  ("__FC_INT_MAX", Expr (Lit false 32767 sN));
  ("__FC_UINT_MAX", Expr (Lit false 65535 sU));
  ("__FC_LONG_MIN", Expr (Sub (Neg (Lit false 2147483647 sL)) (Lit false 1 sL)));
  ("__FC_LONG_MAX", Expr (Lit false 2147483647 sL));
  ("__FC_ULONG_MAX", Expr (Lit false 4294967295 sUL));
  ("__FC_SIZE_MAX", Expr (Lit false 65535 sU));
  ("__INTPTR_T", Ty Long);
  ("__FC_INTPTR_MIN", Expr (Ref "__FC_LONG_MIN"));
  ("__FC_INTPTR_MAX", Expr (Ref "__FC_LONG_MAX"));
  ("__UINTPTR_T", Ty ULong);
  ("__FC_UINTPTR_MAX", Expr (Ref "__FC_ULONG_MAX"));
  ("__INT32_T", Ty Long);
  ("__INT32_MIN", Expr (Ref "__FC_LONG_MIN"));
  ("__INT32_MAX", Expr (Ref "__FC_LONG_MAX"));
  ("__INT64_T", Ty LLong);
  ("__INT64_MIN", Expr (Ref "__FC_LLONG_MIN"));
  ("__INT64_MAX", Expr (Ref "__FC_LLONG_MAX"));
  ("__UINT32_T", Ty ULong);
  ("__UINT32_MAX", Expr (Ref "__FC_ULONG_MAX"));
  ("__UINT64_T", Ty ULLong);
  ("__UINT64_MAX", Expr (Ref "__FC_ULLONG_MAX"));
  ("__PRI32_PREFIX", Str "l");
  ("__PRI64_PREFIX", Str "ll");
  ("__PRIPTR_PREFIX", Str "l");
  ("__INT_LEAST32_T", Ty Long);
  ("__INT_LEAST32_MIN", Expr (Ref "__FC_LONG_MIN"));
  ("__INT_LEAST32_MAX", Expr (Ref "__FC_LONG_MAX"));
  ("__UINT_LEAST32_T", Ty ULong);
  ("__UINT_LEAST32_MAX", Expr (Ref "__FC_ULONG_MAX"));
  ("__INT_LEAST64_T", Ty LLong);
  ("__INT_LEAST64_MIN", Expr (Ref "__FC_LLONG_MIN"));
  ("__INT_LEAST64_MAX", Expr (Ref "__FC_LLONG_MAX"));
  ("__UINT_LEAST64_T", Ty ULLong);
  ("__UINT_LEAST64_MAX", Expr (Ref "__FC_ULLONG_MAX"));
  ("__INT_FAST32_T", Ty Long);
  ("__INT_FAST32_MIN", Expr (Ref "__FC_LONG_MIN"));
  ("__INT_FAST32_MAX", Expr (Ref "__FC_LONG_MAX"));
  ("__UINT_FAST32_T", Ty ULong);
  ("__UINT_FAST32_MAX", Expr (Ref "__FC_ULONG_MAX"));
  ("__INT_FAST64_T", Ty LLong);
  ("__INT_FAST64_MIN", Expr (Ref "__FC_LLONG_MIN"));
  ("__INT_FAST64_MAX", Expr (Ref "__FC_LLONG_MAX"));
  ("__UINT_FAST64_T", Ty ULLong);
  ("__UINT_FAST64_MAX", Expr (Ref "__FC_ULLONG_MAX"));
  ("__SSIZE_T", Ty Long);
  ("__SSIZE_MAX", Expr (Ref "__FC_LONG_MAX"));
  ("__FC_L_tmpnam", Expr (Lit false 1024 sN));
  ("__FC_PTRDIFF_MIN", Expr (Ref "__FC_LONG_MIN"));
  ("__FC_PTRDIFF_MAX", Expr (Ref "__FC_LONG_MAX"));
  ("__WINT_T", Ty ULong);
  ("__FC_WEOF", Expr (Lit true 4294967295 sUL));
  ("__FC_WINT_MIN", Expr (Lit false 0 sN));
  ("__FC_WINT_MAX", Expr (Ref "__FC_ULONG_MAX"))
].

(** __fc_machdep.h: the definitions of ppc_32. *)
Definition ppc_32_own : table := [
  ("__FC_BYTE_ORDER", Expr (Ref "__BIG_ENDIAN"));
  ("__WORDSIZE", Expr (Lit false 32 sN));
  ("__SIZEOF_SHORT", Expr (Lit false 2 sN));
  ("__SIZEOF_INT", Expr (Lit false 4 sN));
  ("__SIZEOF_LONG", Expr (Lit false 4 sN));
  ("__SIZEOF_LONGLONG", Expr (Lit false 8 sN));
  ("__CHAR_BIT", Expr (Lit false 8 sN));
  ("__PTRDIFF_T", Ty Int);
  ("__SIZE_T", Ty UInt);
  ("__FC_INT_MIN", Expr (Sub (Neg (Lit false 2147483647 sN)) (Lit false 1 sN)));
  ("__FC_INT_MAX", Expr (Lit false 2147483647 sN));
  ("__FC_UINT_MAX", Expr (Lit false 4294967295 sU));
  ("__FC_LONG_MIN", Expr (Sub (Neg (Lit false 2147483647 sL)) (Lit false 1 sL)));
  ("__FC_LONG_MAX", Expr (Lit false 2147483647 sL));
  ("__FC_ULONG_MAX", Expr (Lit false 4294967295 sUL));
  ("__FC_SIZE_MAX", Expr (Ref "__FC_UINT_MAX"));
  ("__INTPTR_T", Ty Int);
  ("__FC_INTPTR_MIN", Expr (Ref "__FC_LONG_MIN"));
  ("__FC_INTPTR_MAX", Expr (Ref "__FC_LONG_MAX"));
  ("__UINTPTR_T", Ty UInt);
  ("__FC_UINTPTR_MAX", Expr (Ref "__FC_ULONG_MAX"));
  ("__INT32_T", Ty Int);
  ("__INT32_MIN", Expr (Ref "__FC_INT_MIN"));
  ("__INT32_MAX", Expr (Ref "__FC_INT_MAX"));
  ("__UINT32_T", Ty UInt);
  ("__UINT32_MAX", Expr (Ref "__FC_UINT_MAX"));
  ("__INT64_T", Ty LLong);
  ("__INT64_MIN", Expr (Ref "__FC_LLONG_MIN"));
  ("__INT64_MAX", Expr (Ref "__FC_LLONG_MAX"));
  ("__UINT64_T", Ty ULLong);
  ("__UINT64_MAX", Expr (Ref "__FC_ULLONG_MAX"));
  ("__PRI32_PREFIX", Str "");
  ("__PRI64_PREFIX", Str "ll");
  ("__PRIPTR_PREFIX", Str "");
  ("__INT_LEAST32_T", Ty Int);
  ("__INT_LEAST32_MIN", Expr (Ref "__FC_INT_MIN"));
  ("__INT_LEAST32_MAX", Expr (Ref "__FC_INT_MAX"));
  ("__UINT_LEAST32_T", Ty UInt);
  ("__UINT_LEAST32_MAX", Expr (Ref "__FC_UINT_MAX"));
  ("__INT_LEAST64_T", Ty LLong);
  ("__INT_LEAST64_MIN", Expr (Ref "__FC_LLONG_MIN"));
  ("__INT_LEAST64_MAX", Expr (Ref "__FC_LLONG_MAX"));
  ("__UINT_LEAST64_T", Ty ULLong);
  ("__UINT_LEAST64_MAX", Expr (Ref "__FC_ULLONG_MAX"));
  ("__INT_FAST32_T", Ty Int);
  ("__INT_FAST32_MIN", Expr (Ref "__FC_INT_MIN"));
  ("__INT_FAST32_MAX", Expr (Ref "__FC_INT_MAX"));
  ("__UINT_FAST32_T", Ty UInt);
  ("__UINT_FAST32_MAX", Expr (Ref "__FC_UINT_MAX"));
  ("__INT_FAST64_T", Ty LLong);
  ("__INT_FAST64_MIN", Expr (Ref "__FC_LLONG_MIN"));
  ("__INT_FAST64_MAX", Expr (Ref "__FC_LLONG_MAX"));
  ("__UINT_FAST64_T", Ty ULLong);
  ("__UINT_FAST64_MAX", Expr (Ref "__FC_ULLONG_MAX"));
  ("__SSIZE_T", Ty Int);
  ("__SSIZE_MAX", Expr (Ref "__FC_INT_MAX"));
  ("__FC_L_tmpnam", Expr (Lit false 1024 sN));
  ("__FC_PTRDIFF_MIN", Expr (Ref "__FC_INT_MIN"));
  ("__FC_PTRDIFF_MAX", Expr (Ref "__FC_INT_MAX"));
  ("__FC_INTMAX_MIN", Expr (Sub (Neg (Lit false 9223372036854775807 sLL)) (Lit false 1 sLL)));
  ("__FC_INTMAX_MAX", Expr (Lit false 9223372036854775807 sLL));
  ("__FC_UINTMAX_MAX", Expr (Lit false 18446744073709551615 sULL));
  ("__FC_TIME_T", Ty Long);
  ("__WINT_T", Ty UInt);
  ("__FC_WEOF", Expr (Lit true 4294967295 sU));
  ("__FC_WINT_MIN", Expr (Lit false 0 sN));
  ("__FC_WINT_MAX", Expr (Ref "__FC_UINT_MAX"))
].

(** __fc_machdep.h: the definitions of msvc_x86_64. *)
Definition msvc_types : table := [
  ("__FC_BYTE_ORDER", Expr (Ref "__LITTLE_ENDIAN"));
  ("__WORDSIZE", Expr (Lit false 64 sN));
  ("__SIZEOF_SHORT", Expr (Lit false 2 sN));
  ("__SIZEOF_INT", Expr (Lit false 4 sN));
  ("__SIZEOF_LONG", Expr (Lit false 4 sN));
  ("__SIZEOF_LONGLONG", Expr (Lit false 8 sN));
  ("__CHAR_BIT", Expr (Lit false 8 sN));
  ("__PTRDIFF_T", Ty LLong);
  ("__SIZE_T", Ty ULLong);
  ("__FC_EOF", Expr (Neg (Lit false 1 sN)));
  ("__FC_FOPEN_MAX", Expr (Lit false 20 sN));
  ("__FC_RAND_MAX", Expr (Lit false 32767 sN));
  ("__WCHAR_T", Ty UShort);
  ("__FC_SCHAR_MIN", Expr (Neg (Lit false 128 sN)));
  ("__FC_SCHAR_MAX", Expr (Lit false 127 sN));
  ("__FC_UCHAR_MAX", Expr (Lit false 255 sN));
  ("__FC_SHRT_MIN", Expr (Neg (Lit false 32768 sN)));
  ("__FC_SHRT_MAX", Expr (Lit false 32767 sN));
  ("__FC_USHRT_MAX", Expr (Lit false 65535 sN));
  ("__FC_INT_MIN", Expr (Sub (Neg (Lit false 2147483647 sN)) (Lit false 1 sN)));
  ("__FC_INT_MAX", Expr (Lit false 2147483647 sN));
  ("__FC_UINT_MAX", Expr (Lit false 4294967295 sU));
  ("__FC_LONG_MIN", Expr (Sub (Neg (Lit false 2147483647 sL)) (Lit false 1 sL)));
  ("__FC_LONG_MAX", Expr (Lit false 2147483647 sL));
  ("__FC_ULONG_MAX", Expr (Lit false 4294967295 sUL));
  ("__FC_LLONG_MIN", Expr (Sub (Neg (Lit false 9223372036854775807 sLL)) (Lit false 1 sLL)));
  ("__FC_LLONG_MAX", Expr (Lit false 9223372036854775807 sLL));
  ("__FC_ULLONG_MAX", Expr (Lit false 18446744073709551615 sULL));
  ("__FC_PATH_MAX", Expr (Lit false 256 sN));
  ("__FC_SIZE_MAX", Expr (Ref "__FC_ULLONG_MAX"));
  ("__FC_HOST_NAME_MAX", Expr (Lit false 255 sN));
  ("__FC_TTY_NAME_MAX", Expr (Lit false 32 sN));
  ("__INT8_T", Ty SChar);
  ("__INT8_MIN", Expr (Ref "__FC_SCHAR_MIN"));
  ("__INT8_MAX", Expr (Ref "__FC_SCHAR_MAX"));
  ("__UINT8_T", Ty UChar);
  ("__UINT8_MIN", Expr (Ref "__FC_UCHAR_MAX"));
  ("__INT16_T", Ty Short);
  ("__INT16_MIN", Expr (Ref "__FC_SHRT_MIN"));
  ("__INT16_MAX", Expr (Ref "__FC_SHRT_MAX"));
  ("__UINT16_T", Ty UShort);
  ("__UINT16_MAX", Expr (Ref "__FC_USHRT_MAX"));
  ("__INTPTR_T", Ty LLong);
  ("__FC_INTPTR_MIN", Expr (Ref "__FC_LLONG_MIN"));
  ("__FC_INTPTR_MAX", Expr (Ref "__FC_LLONG_MAX"));
  ("__UINTPTR_T", Ty ULLong);
  ("__FC_UINTPTR_MAX", Expr (Ref "__FC_ULLONG_MAX"));
  ("__INT32_T", Ty Int);
  ("__INT32_MIN", Expr (Ref "__FC_INT_MIN"));
  ("__INT32_MAX", Expr (Ref "__FC_INT_MAX"));
  ("__UINT32_T", Ty UInt);
  ("__UINT32_MAX", Expr (Ref "__FC_UINT_MAX"));
  ("__INT64_T", Ty LLong);
  ("__INT64_MIN", Expr (Ref "__FC_LLONG_MIN"));
  ("__INT64_MAX", Expr (Ref "__FC_LLONG_MAX"));
  ("__UINT64_T", Ty ULLong);
  ("__UINT64_MAX", Expr (Ref "__FC_ULLONG_MAX"));
  ("__PRI8_PREFIX", Str "hh");
  ("__PRI16_PREFIX", Str "h");
  ("__PRIFAST16_PREFIX", Str "");
  ("__PRI32_PREFIX", Str "");
  ("__PRI64_PREFIX", Str "ll");
  ("__PRIPTR_PREFIX", Str "ll");
  ("__PRIMAX_PREFIX", Str "ll");
  ("__INT_LEAST8_T", Ty SChar);
  ("__INT_LEAST8_MIN", Expr (Ref "__FC_SCHAR_MIN"));
  ("__INT_LEAST8_MAX", Expr (Ref "__FC_SCHAR_MAX"));
  ("__UINT_LEAST8_T", Ty UChar);
  ("__UINT_LEAST8_MAX", Expr (Ref "__FC_UCHAR_MAX"));
  ("__INT_LEAST16_T", Ty Short);
  ("__INT_LEAST16_MIN", Expr (Ref "__FC_SHRT_MIN"));
  ("__INT_LEAST16_MAX", Expr (Ref "__FC_SHRT_MAX"));
  ("__UINT_LEAST16_T", Ty UShort);
  ("__UINT_LEAST16_MAX", Expr (Ref "__FC_USHRT_MAX"));
  ("__INT_LEAST32_T", Ty Int);
  ("__INT_LEAST32_MIN", Expr (Ref "__FC_INT_MIN"));
  ("__INT_LEAST32_MAX", Expr (Ref "__FC_INT_MAX"));
  ("__UINT_LEAST32_T", Ty UInt);
  ("__UINT_LEAST32_MAX", Expr (Ref "__FC_UINT_MAX"));
  ("__INT_LEAST64_T", Ty LLong);
  ("__INT_LEAST64_MIN", Expr (Ref "__FC_LLONG_MIN"));
  ("__INT_LEAST64_MAX", Expr (Ref "__FC_LLONG_MAX"));
  ("__UINT_LEAST64_T", Ty ULLong);
  ("__UINT_LEAST64_MAX", Expr (Ref "__FC_ULLONG_MAX"))
].

(** __fc_machdep.h: the definitions of msvc_x86_64, continued. *)
Definition msvc_rest : table := [
  ("__INT_FAST8_T", Ty SChar);
  ("__INT_FAST8_MIN", Expr (Ref "__FC_SCHAR_MIN"));
  ("__INT_FAST8_MAX", Expr (Ref "__FC_SCHAR_MAX"));
  ("__UINT_FAST8_T", Ty UChar);
  ("__UINT_FAST8_MAX", Expr (Ref "__FC_UCHAR_MAX"));
  ("__INT_FAST16_T", Ty Int);
  ("__INT_FAST16_MIN", Expr (Ref "__FC_INT_MIN"));
  ("__INT_FAST16_MAX", Expr (Ref "__FC_INT_MAX"));
  ("__UINT_FAST16_T", Ty UInt);
  ("__UINT_FAST16_MAX", Expr (Ref "__FC_UINT_MAX"));
  ("__INT_FAST32_T", Ty Int);
  ("__INT_FAST32_MIN", Expr (Ref "__FC_INT_MIN"));
  ("__INT_FAST32_MAX", Expr (Ref "__FC_INT_MAX"));
  ("__UINT_FAST32_T", Ty UInt);
  ("__UINT_FAST32_MAX", Expr (Ref "__FC_UINT_MAX"));
  ("__INT_FAST64_T", Ty LLong);
  ("__INT_FAST64_MIN", Expr (Ref "__FC_LLONG_MIN"));
  ("__INT_FAST64_MAX", Expr (Ref "__FC_LLONG_MAX"));
  ("__UINT_FAST64_T", Ty ULLong);
  ("__UINT_FAST64_MAX", Expr (Ref "__FC_ULLONG_MAX"));
  ("__INT_MAX_T", Ty LLong);
  ("__UINT_MAX_T", Ty ULLong);
  ("__SSIZE_T", Ty LLong);
  ("__FC_L_tmpnam", Expr (Lit false 20 sN));
  ("__FC_WCHAR_MIN", Expr (Lit false 0 sN));
  ("__FC_WCHAR_MAX", Expr (Ref "__FC_USHRT_MAX"));
  ("__FC_PTRDIFF_MIN", Expr (Ref "__FC_LLONG_MIN"));
  ("__FC_PTRDIFF_MAX", Expr (Ref "__FC_LLONG_MAX"));
  ("__FC_INTMAX_MIN", Expr (Sub (Neg (Lit false 9223372036854775807 sLL)) (Lit false 1 sLL)));
  ("__FC_INTMAX_MAX", Expr (Lit false 9223372036854775807 sLL));
  ("__FC_UINTMAX_MAX", Expr (Lit false 18446744073709551615 sULL));
  ("__FC_TIME_T", Expr (Ref "__int64"));
  ("__FC_VA_LIST_T", Tokens "char*");
  ("__WINT_T", Ty UShort);
  ("__FC_WEOF", Expr (Lit true 65535 sU));
  ("__FC_WINT_MIN", Expr (Lit false 0 sN));
  ("__FC_WINT_MAX", Expr (Ref "__FC_USHRT_MAX"));
  ("_MSC_FULL_VER", Expr (Lit false 160040219 sN));
  ("_MSC_VER", Expr (Lit false 1600 sN));
  ("__ptr64", Tokens "");
  ("__ptr32", Tokens "");
  ("__unaligned", Tokens "");
  ("__cdecl", Tokens "");
  ("__possibly_notnullterminated", Tokens "");
  ("_ERRNO_T_DEFINED", Tokens "");
  ("_WIN64", Expr (Lit false 1 sN));
  ("_AMD64_", Expr (Lit false 1 sN));
  ("_M_AMD64", Expr (Lit false 1 sN));
  ("_M_X64", Expr (Lit false 1 sN))
].

(** limits.h; no machine defines [__CHAR_UNSIGNED__], on which [CHAR_MIN] and [CHAR_MAX]
    depend. *)
Definition limits_h : table := [
  ("CHAR_BIT", Expr (Ref "__CHAR_BIT"));
  ("SCHAR_MIN", Expr (Ref "__FC_SCHAR_MIN"));
  ("SCHAR_MAX", Expr (Ref "__FC_SCHAR_MAX"));
  ("UCHAR_MAX", Expr (Ref "__FC_UCHAR_MAX"));
  ("CHAR_MIN", Expr (Ref "SCHAR_MIN"));
  ("CHAR_MAX", Expr (Ref "SCHAR_MAX"));
  ("MB_LEN_MAX", Expr (Lit false 16 sN));
  ("SHRT_MIN", Expr (Ref "__FC_SHRT_MIN"));
  ("SHRT_MAX", Expr (Ref "__FC_SHRT_MAX"));
  ("USHRT_MAX", Expr (Ref "__FC_USHRT_MAX"));
  ("INT_MIN", Expr (Ref "__FC_INT_MIN"));
  ("INT_MAX", Expr (Ref "__FC_INT_MAX"));
  ("UINT_MAX", Expr (Ref "__FC_UINT_MAX"));
  ("LONG_MAX", Expr (Ref "__FC_LONG_MAX"));
  ("LONG_MIN", Expr (Ref "__FC_LONG_MIN"));
  ("ULONG_MAX", Expr (Ref "__FC_ULONG_MAX"));
  ("LLONG_MAX", Expr (Ref "__FC_LLONG_MAX"));
  ("LLONG_MIN", Expr (Ref "__FC_LLONG_MIN"));
  ("ULLONG_MAX", Expr (Ref "__FC_ULLONG_MAX"));
  ("PATH_MAX", Expr (Ref "__FC_PATH_MAX"));
  ("HOST_NAME_MAX", Expr (Ref "__FC_HOST_NAME_MAX"));
  ("TTY_NAME_MAX", Expr (Ref "__FC_TTY_NAME_MAX"));
  ("ARG_MAX", Expr (Lit false 4096 sN))
].

(** stdint.h: the types and the limits. *)
Definition stdint_h : table := [
  ("int8_t", TyRef "__INT8_T");
  ("uint8_t", TyRef "__UINT8_T");
  ("int16_t", TyRef "__INT16_T");
  ("uint16_t", TyRef "__UINT16_T");
  ("int32_t", TyRef "__INT32_T");
  ("uint32_t", TyRef "__UINT32_T");
  ("int64_t", TyRef "__INT64_T");
  ("uint64_t", TyRef "__UINT64_T");
  ("int_least8_t", TyRef "__INT_LEAST8_T");
  ("uint_least8_t", TyRef "__UINT_LEAST8_T");
  ("int_least16_t", TyRef "__INT_LEAST16_T");
  ("uint_least16_t", TyRef "__UINT_LEAST16_T");
  ("int_least32_t", TyRef "__INT_LEAST32_T");
  ("uint_least32_t", TyRef "__UINT_LEAST32_T");
  ("int_least64_t", TyRef "__INT_LEAST64_T");
  ("uint_least64_t", TyRef "__UINT_LEAST64_T");
  ("int_fast8_t", TyRef "__INT_FAST8_T");
  ("uint_fast8_t", TyRef "__UINT_FAST8_T");
  ("int_fast16_t", TyRef "__INT_FAST16_T");
  ("uint_fast16_t", TyRef "__UINT_FAST16_T");
  ("int_fast32_t", TyRef "__INT_FAST32_T");
  ("uint_fast32_t", TyRef "__UINT_FAST32_T");
  ("int_fast64_t", TyRef "__INT_FAST64_T");
  ("uint_fast64_t", TyRef "__UINT_FAST64_T");
  ("uintptr_t", TyRef "__UINTPTR_T");
  ("UINTPTR_MAX", Expr (Ref "__FC_UINTPTR_MAX"));
  ("intmax_t", TyRef "__INT_MAX_T");
  ("uintmax_t", TyRef "__UINT_MAX_T");
  ("INT8_MIN", Expr (Neg (Lit false 128 sN)));
  ("INT8_MAX", Expr (Lit false 127 sN));
  ("UINT8_MAX", Expr (Lit false 255 sN));
  ("INT16_MIN", Expr (Neg (Lit false 32768 sN)));
  ("INT16_MAX", Expr (Lit false 32767 sN));
  ("UINT16_MAX", Expr (Lit false 65535 sN));
  ("INT32_MIN", Expr (Sub (Neg (Ref "INT32_MAX")) (Lit false 1 sN)));
  ("INT32_MAX", Expr (Lit false 2147483647 sN));
  ("UINT32_MAX", Expr (Lit false 4294967295 sU));
  ("INT64_MIN", Expr (Sub (Neg (Ref "INT64_MAX")) (Lit false 1 sLL)));
  ("INT64_MAX", Expr (Lit false 9223372036854775807 sLL));
  ("UINT64_MAX", Expr (Lit false 18446744073709551615 sULL));
  ("INT_LEAST8_MIN", Expr (Ref "__INT_LEAST8_MIN"));
  ("INT_LEAST8_MAX", Expr (Ref "__INT_LEAST8_MAX"));
  ("INT_LEAST16_MIN", Expr (Ref "__INT_LEAST16_MIN"));
  ("INT_LEAST16_MAX", Expr (Ref "__INT_LEAST16_MAX"));
  ("INT_LEAST32_MIN", Expr (Ref "__INT_LEAST32_MIN"));
  ("INT_LEAST32_MAX", Expr (Ref "__INT_LEAST32_MAX"));
  ("INT_LEAST64_MIN", Expr (Ref "__INT_LEAST64_MIN"));
  ("INT_LEAST64_MAX", Expr (Ref "__INT_LEAST64_MAX"));
  ("UINT_LEAST8_MAX", Expr (Ref "__UINT_LEAST8_MAX"));
  ("UINT_LEAST16_MAX", Expr (Ref "__UINT_LEAST16_MAX"));
  ("UINT_LEAST32_MAX", Expr (Ref "__UINT_LEAST32_MAX"));
  ("UINT_LEAST64_MAX", Expr (Ref "__UINT_LEAST64_MAX"));
  ("INT_FAST8_MIN", Expr (Ref "__INT_FAST8_MIN"));
  ("INT_FAST8_MAX", Expr (Ref "__INT_FAST8_MAX"));
  ("INT_FAST16_MIN", Expr (Ref "__INT_FAST16_MIN"));
  ("INT_FAST16_MAX", Expr (Ref "__INT_FAST16_MAX"));
  ("INT_FAST32_MIN", Expr (Ref "__INT_FAST32_MIN"));
  ("INT_FAST32_MAX", Expr (Ref "__INT_FAST32_MAX"));
  ("INT_FAST64_MIN", Expr (Ref "__INT_FAST64_MIN"));
  ("INT_FAST64_MAX", Expr (Ref "__INT_FAST64_MAX"));
  ("UINT_FAST8_MAX", Expr (Ref "__UINT_FAST8_MAX"));
  ("UINT_FAST16_MAX", Expr (Ref "__UINT_FAST16_MAX"));
  ("UINT_FAST32_MAX", Expr (Ref "__UINT_FAST32_MAX"));
  ("UINT_FAST64_MAX", Expr (Ref "__UINT_FAST64_MAX"));
  ("INTMAX_MIN", Expr (Ref "__FC_INTMAX_MIN"));
  ("INTMAX_MAX", Expr (Ref "__FC_INTMAX_MAX"));
  ("UINTMAX_MAX", Expr (Ref "__FC_UINTMAX_MAX"));
  ("PTRDIFF_MIN", Expr (Ref "__FC_PTRDIFF_MIN"));
  ("PTRDIFF_MAX", Expr (Ref "__FC_PTRDIFF_MAX"));
  ("SIG_ATOMIC_MIN", Expr (Ref "__FC_SIG_ATOMIC_MIN"));
  ("SIG_ATOMIC_MAX", Expr (Ref "__FC_SIG_ATOMIC_MAX"));
  ("SIZE_MAX", Expr (Ref "__FC_SIZE_MAX"));
  ("WCHAR_MIN", Expr (Ref "__FC_WCHAR_MIN"));
  ("WCHAR_MAX", Expr (Ref "__FC_WCHAR_MAX"));
  ("WINT_MIN", Expr (Ref "__FC_WINT_MIN"));
  ("WINT_MAX", Expr (Ref "__FC_WINT_MAX"))
].

(** inttypes.h: the conversions of printf. *)
Definition inttypes_PRI : table := [
  ("PRId8", Cat "__PRI8_PREFIX" "d");
  ("PRId16", Cat "__PRI16_PREFIX" "d");
  ("PRId32", Cat "__PRI32_PREFIX" "d");
  ("PRId64", Cat "__PRI64_PREFIX" "d");
  ("PRIdLEAST8", Cat "__PRI8_PREFIX" "d");
  ("PRIdLEAST16", Cat "__PRI16_PREFIX" "d");
  ("PRIdLEAST32", Cat "__PRI32_PREFIX" "d");
  ("PRIdLEAST64", Cat "__PRI64_PREFIX" "d");
  ("PRIdFAST8", Cat "__PRI8_PREFIX" "d");
  ("PRIdFAST16", Cat "__PRIFAST16_PREFIX" "d");
  ("PRIdFAST32", Cat "__PRI32_PREFIX" "d");
  ("PRIdFAST64", Cat "__PRI64_PREFIX" "d");
  ("PRIi8", Cat "__PRI8_PREFIX" "i");
  ("PRIi16", Cat "__PRI16_PREFIX" "i");
  ("PRIi32", Cat "__PRI32_PREFIX" "i");
  ("PRIi64", Cat "__PRI64_PREFIX" "i");
  ("PRIiLEAST8", Cat "__PRI8_PREFIX" "i");
  ("PRIiLEAST16", Cat "__PRI16_PREFIX" "i");
  ("PRIiLEAST32", Cat "__PRI32_PREFIX" "i");
  ("PRIiLEAST64", Cat "__PRI64_PREFIX" "i");
  ("PRIiFAST8", Cat "__PRI8_PREFIX" "i");
  ("PRIiFAST16", Cat "__PRIFAST16_PREFIX" "i");
  ("PRIiFAST32", Cat "__PRI32_PREFIX" "i");
  ("PRIiFAST64", Cat "__PRI64_PREFIX" "i");
  ("PRIo8", Cat "__PRI8_PREFIX" "o");
  ("PRIo16", Cat "__PRI16_PREFIX" "o");
  ("PRIo32", Cat "__PRI32_PREFIX" "o");
  ("PRIo64", Cat "__PRI64_PREFIX" "o");
  ("PRIoLEAST8", Cat "__PRI8_PREFIX" "o");
  ("PRIoLEAST16", Cat "__PRI16_PREFIX" "o");
  ("PRIoLEAST32", Cat "__PRI32_PREFIX" "o");
  ("PRIoLEAST64", Cat "__PRI64_PREFIX" "o");
  ("PRIoFAST8", Cat "__PRI8_PREFIX" "o");
  ("PRIoFAST16", Cat "__PRIFAST16_PREFIX" "o");
  ("PRIoFAST32", Cat "__PRI32_PREFIX" "o");
  ("PRIoFAST64", Cat "__PRI64_PREFIX" "o");
  ("PRIu8", Cat "__PRI8_PREFIX" "u");
  ("PRIu16", Cat "__PRI16_PREFIX" "u");
  ("PRIu32", Cat "__PRI32_PREFIX" "u");
  ("PRIu64", Cat "__PRI64_PREFIX" "u");
  ("PRIuLEAST8", Cat "__PRI8_PREFIX" "u");
  ("PRIuLEAST16", Cat "__PRI16_PREFIX" "u");
  ("PRIuLEAST32", Cat "__PRI32_PREFIX" "u");
  ("PRIuLEAST64", Cat "__PRI64_PREFIX" "u");
  ("PRIuFAST8", Cat "__PRI8_PREFIX" "u");
  ("PRIuFAST16", Cat "__PRIFAST16_PREFIX" "u");
  ("PRIuFAST32", Cat "__PRI32_PREFIX" "u");
  ("PRIuFAST64", Cat "__PRI64_PREFIX" "u");
  ("PRIx8", Cat "__PRI8_PREFIX" "x");
  ("PRIx16", Cat "__PRI16_PREFIX" "x");
  ("PRIx32", Cat "__PRI32_PREFIX" "x");
  ("PRIx64", Cat "__PRI64_PREFIX" "x");
  ("PRIxLEAST8", Cat "__PRI8_PREFIX" "x");
  ("PRIxLEAST16", Cat "__PRI16_PREFIX" "x");
  ("PRIxLEAST32", Cat "__PRI32_PREFIX" "x");
  ("PRIxLEAST64", Cat "__PRI64_PREFIX" "x");
  ("PRIxFAST8", Cat "__PRI8_PREFIX" "x");
  ("PRIxFAST16", Cat "__PRIFAST16_PREFIX" "x");
  ("PRIxFAST32", Cat "__PRI32_PREFIX" "x");
  ("PRIxFAST64", Cat "__PRI64_PREFIX" "x");
  ("PRIX8", Cat "__PRI8_PREFIX" "X");
  ("PRIX16", Cat "__PRI16_PREFIX" "X");
  ("PRIX32", Cat "__PRI32_PREFIX" "X");
  ("PRIX64", Cat "__PRI64_PREFIX" "X");
  ("PRIXLEAST8", Cat "__PRI8_PREFIX" "X");
  ("PRIXLEAST16", Cat "__PRI16_PREFIX" "X");
  ("PRIXLEAST32", Cat "__PRI32_PREFIX" "X");
  ("PRIXLEAST64", Cat "__PRI64_PREFIX" "X");
  ("PRIXFAST8", Cat "__PRI8_PREFIX" "X");
  ("PRIXFAST16", Cat "__PRIFAST16_PREFIX" "X");
  ("PRIXFAST32", Cat "__PRI32_PREFIX" "X");
  ("PRIXFAST64", Cat "__PRI64_PREFIX" "X");
  ("PRIdMAX", Cat "__PRIMAX_PREFIX" "d");
  ("PRIiMAX", Cat "__PRIMAX_PREFIX" "i");
  ("PRIoMAX", Cat "__PRIMAX_PREFIX" "o");
  ("PRIuMAX", Cat "__PRIMAX_PREFIX" "u");
  ("PRIxMAX", Cat "__PRIMAX_PREFIX" "x");
  ("PRIXMAX", Cat "__PRIMAX_PREFIX" "X");
  ("PRIdPTR", Cat "__PRIPTR_PREFIX" "d");
  ("PRIiPTR", Cat "__PRIPTR_PREFIX" "i");
  ("PRIoPTR", Cat "__PRIPTR_PREFIX" "o");
  ("PRIuPTR", Cat "__PRIPTR_PREFIX" "u");
  ("PRIxPTR", Cat "__PRIPTR_PREFIX" "x");
  ("PRIXPTR", Cat "__PRIPTR_PREFIX" "X")
].

(** inttypes.h: the conversions of scanf. *)
Definition inttypes_SCN : table := [
  ("SCNd8", Cat "__PRI8_PREFIX" "d");
  ("SCNd16", Cat "__PRI16_PREFIX" "d");
  ("SCNd32", Cat "__PRI32_PREFIX" "d");
  ("SCNd64", Cat "__PRI64_PREFIX" "d");
  ("SCNdLEAST8", Cat "__PRI8_PREFIX" "d");
  ("SCNdLEAST16", Cat "__PRI16_PREFIX" "d");
  ("SCNdLEAST32", Cat "__PRI32_PREFIX" "d");
  ("SCNdLEAST64", Cat "__PRI64_PREFIX" "d");
  ("SCNdFAST8", Cat "__PRI8_PREFIX" "d");
  ("SCNdFAST16", Cat "__PRIFAST16_PREFIX" "d");
  ("SCNdFAST32", Cat "__PRI32_PREFIX" "d");
  ("SCNdFAST64", Cat "__PRI64_PREFIX" "d");
  ("SCNi8", Cat "__PRI8_PREFIX" "i");
  ("SCNi16", Cat "__PRI16_PREFIX" "i");
  ("SCNi32", Cat "__PRI32_PREFIX" "i");
  ("SCNi64", Cat "__PRI64_PREFIX" "i");
  ("SCNiLEAST8", Cat "__PRI8_PREFIX" "i");
  ("SCNiLEAST16", Cat "__PRI16_PREFIX" "i");
  ("SCNiLEAST32", Cat "__PRI32_PREFIX" "i");
  ("SCNiLEAST64", Cat "__PRI64_PREFIX" "i");
  ("SCNiFAST8", Cat "__PRI8_PREFIX" "i");
  ("SCNiFAST16", Cat "__PRIFAST16_PREFIX" "i");
  ("SCNiFAST32", Cat "__PRI32_PREFIX" "i");
  ("SCNiFAST64", Cat "__PRI64_PREFIX" "i");
  ("SCNu8", Cat "__PRI8_PREFIX" "u");
  ("SCNu16", Cat "__PRI16_PREFIX" "u");
  ("SCNu32", Cat "__PRI32_PREFIX" "u");
  ("SCNu64", Cat "__PRI64_PREFIX" "u");
  ("SCNuLEAST8", Cat "__PRI8_PREFIX" "u");
  ("SCNuLEAST16", Cat "__PRI16_PREFIX" "u");
  ("SCNuLEAST32", Cat "__PRI32_PREFIX" "u");
  ("SCNuLEAST64", Cat "__PRI64_PREFIX" "u");
  ("SCNuFAST8", Cat "__PRI8_PREFIX" "u");
  ("SCNuFAST16", Cat "__PRIFAST16_PREFIX" "u");
  ("SCNuFAST32", Cat "__PRI32_PREFIX" "u");
  ("SCNuFAST64", Cat "__PRI64_PREFIX" "u");
  ("SCNo8", Cat "__PRI8_PREFIX" "o");
  ("SCNo16", Cat "__PRI16_PREFIX" "o");
  ("SCNo32", Cat "__PRI32_PREFIX" "o");
  ("SCNo64", Cat "__PRI64_PREFIX" "o");
  ("SCNoLEAST8", Cat "__PRI8_PREFIX" "o");
  ("SCNoLEAST16", Cat "__PRI16_PREFIX" "o");
  ("SCNoLEAST32", Cat "__PRI32_PREFIX" "o");
  ("SCNoLEAST64", Cat "__PRI64_PREFIX" "o");
  ("SCNoFAST8", Cat "__PRI8_PREFIX" "o");
  ("SCNoFAST16", Cat "__PRIFAST16_PREFIX" "o");
  ("SCNoFAST32", Cat "__PRI32_PREFIX" "o");
  ("SCNoFAST64", Cat "__PRI64_PREFIX" "o");
  ("SCNx8", Cat "__PRI8_PREFIX" "x");
  ("SCNx16", Cat "__PRI16_PREFIX" "x");
  ("SCNx32", Cat "__PRI32_PREFIX" "x");
  ("SCNx64", Cat "__PRI64_PREFIX" "x");
  ("SCNxLEAST8", Cat "__PRI8_PREFIX" "x");
  ("SCNxLEAST16", Cat "__PRI16_PREFIX" "x");
  ("SCNxLEAST32", Cat "__PRI32_PREFIX" "x");
  ("SCNxLEAST64", Cat "__PRI64_PREFIX" "x");
  ("SCNxFAST8", Cat "__PRI8_PREFIX" "x");
  ("SCNxFAST16", Cat "__PRIFAST16_PREFIX" "x");
  ("SCNxFAST32", Cat "__PRI32_PREFIX" "x");
  ("SCNxFAST64", Cat "__PRI64_PREFIX" "x");
  ("SCNdMAX", Cat "__PRIMAX_PREFIX" "d");
  ("SCNiMAX", Cat "__PRIMAX_PREFIX" "i");
  ("SCNoMAX", Cat "__PRIMAX_PREFIX" "o");
  ("SCNuMAX", Cat "__PRIMAX_PREFIX" "u");
  ("SCNxMAX", Cat "__PRIMAX_PREFIX" "x");
  ("SCNdPTR", Cat "__PRIPTR_PREFIX" "d");
  ("SCNiPTR", Cat "__PRIPTR_PREFIX" "i");
  ("SCNoPTR", Cat "__PRIPTR_PREFIX" "o");
  ("SCNuPTR", Cat "__PRIPTR_PREFIX" "u");
  ("SCNxPTR", Cat "__PRIPTR_PREFIX" "x")
].

(** errno.h. *)
Definition errno_h : table := [
  ("EDOM", Expr (Ref "__FC_EDOM"));
  ("EILSEQ", Expr (Ref "__FC_EILSEQ"));
  ("ERANGE", Expr (Ref "__FC_ERANGE"));
  ("E2BIG", Expr (Ref "__FC_E2BIG"));
  ("EACCES", Expr (Ref "__FC_EACCES"));
  ("EADDRINUSE", Expr (Ref "__FC_EADDRINUSE"));
  ("EADDRNOTAVAIL", Expr (Ref "__FC_EADDRNOTAVAIL"));
  ("EAFNOSUPPORT", Expr (Ref "__FC_EAFNOSUPPORT"));
  ("EAGAIN", Expr (Ref "__FC_EAGAIN"));
  ("EALREADY", Expr (Ref "__FC_EALREADY"));
  ("EBADE", Expr (Ref "__FC_EBADE"));
  ("EBADF", Expr (Ref "__FC_EBADF"));
  ("EBADFD", Expr (Ref "__FC_EBADFD"));
  ("EBADMSG", Expr (Ref "__FC_EBADMSG"));
  ("EBADR", Expr (Ref "__FC_EBADR"));
  ("EBADRQC", Expr (Ref "__FC_EBADRQC"));
  ("EBADSLT", Expr (Ref "__FC_EBADSLT"));
  ("EBUSY", Expr (Ref "__FC_EBUSY"));
  ("ECANCELED", Expr (Ref "__FC_ECANCELED"));
  ("ECHILD", Expr (Ref "__FC_ECHILD"));
  ("ECHRNG", Expr (Ref "__FC_ECHRNG"));
  ("ECOMM", Expr (Ref "__FC_ECOMM"));
  ("ECONNABORTED", Expr (Ref "__FC_ECONNABORTED"));
  ("ECONNREFUSED", Expr (Ref "__FC_ECONNREFUSED"));
  ("ECONNRESET", Expr (Ref "__FC_ECONNRESET"));
  ("EDEADLK", Expr (Ref "__FC_EDEADLK"));
  ("EDEADLOCK", Expr (Ref "__FC_EDEADLOCK"));
  ("EDESTADDRREQ", Expr (Ref "__FC_EDESTADDRREQ"));
  ("EDQUOT", Expr (Ref "__FC_EDQUOT"));
  ("EEXIST", Expr (Ref "__FC_EEXIST"));
  ("EFAULT", Expr (Ref "__FC_EFAULT"));
  ("EFBIG", Expr (Ref "__FC_EFBIG"));
  ("EHOSTDOWN", Expr (Ref "__FC_EHOSTDOWN"));
  ("EHOSTUNREACH", Expr (Ref "__FC_EHOSTUNREACH"));
  ("EIDRM", Expr (Ref "__FC_EIDRM"));
  ("EINPROGRESS", Expr (Ref "__FC_EINPROGRESS"));
  ("EINTR", Expr (Ref "__FC_EINTR"));
  ("EINVAL", Expr (Ref "__FC_EINVAL"));
  ("EIO", Expr (Ref "__FC_EIO"));
  ("EISCONN", Expr (Ref "__FC_EISCONN"));
  ("EISDIR", Expr (Ref "__FC_EISDIR"));
  ("EISNAM", Expr (Ref "__FC_EISNAM"));
  ("EKEYEXPIRED", Expr (Ref "__FC_EKEYEXPIRED"));
  ("EKEYREJECTED", Expr (Ref "__FC_EKEYREJECTED"));
  ("EKEYREVOKED", Expr (Ref "__FC_EKEYREVOKED"));
  ("EL2HLT", Expr (Ref "__FC_EL2HLT"));
  ("EL2NSYNC", Expr (Ref "__FC_EL2NSYNC"));
  ("EL3HLT", Expr (Ref "__FC_EL3HLT"));
  ("EL3RST", Expr (Ref "__FC_EL3RST"));
  ("ELIBACC", Expr (Ref "__FC_ELIBACC"));
  ("ELIBBAD", Expr (Ref "__FC_ELIBBAD"));
  ("ELIBMAX", Expr (Ref "__FC_ELIBMAX"));
  ("ELIBSCN", Expr (Ref "__FC_ELIBSCN"));
  ("ELIBEXEC", Expr (Ref "__FC_ELIBEXEC"));
  ("ELOOP", Expr (Ref "__FC_ELOOP"));
  ("EMEDIUMTYPE", Expr (Ref "__FC_EMEDIUMTYPE"));
  ("EMFILE", Expr (Ref "__FC_EMFILE"));
  ("EMLINK", Expr (Ref "__FC_EMLINK"));
  ("EMSGSIZE", Expr (Ref "__FC_EMSGSIZE"));
  ("EMULTIHOP", Expr (Ref "__FC_EMULTIHOP"));
  ("ENAMETOOLONG", Expr (Ref "__FC_ENAMETOOLONG"));
  ("ENETDOWN", Expr (Ref "__FC_ENETDOWN"));
  ("ENETRESET", Expr (Ref "__FC_ENETRESET"));
  ("ENETUNREACH", Expr (Ref "__FC_ENETUNREACH"));
  ("ENFILE", Expr (Ref "__FC_ENFILE"));
  ("ENOBUFS", Expr (Ref "__FC_ENOBUFS"));
  ("ENODATA", Expr (Ref "__FC_ENODATA"));
  ("ENODEV", Expr (Ref "__FC_ENODEV"));
  ("ENOENT", Expr (Ref "__FC_ENOENT"));
  ("ENOEXEC", Expr (Ref "__FC_ENOEXEC"));
  ("ENOKEY", Expr (Ref "__FC_ENOKEY"));
  ("ENOLCK", Expr (Ref "__FC_ENOLCK"));
  ("ENOLINK", Expr (Ref "__FC_ENOLINK"));
  ("ENOMEDIUM", Expr (Ref "__FC_ENOMEDIUM"));
  ("ENOMEM", Expr (Ref "__FC_ENOMEM"));
  ("ENOMSG", Expr (Ref "__FC_ENOMSG"));
  ("ENONET", Expr (Ref "__FC_ENONET"));
  ("ENOPKG", Expr (Ref "__FC_ENOPKG"));
  ("ENOPROTOOPT", Expr (Ref "__FC_ENOPROTOOPT"));
  ("ENOSPC", Expr (Ref "__FC_ENOSPC"));
  ("ENOSR", Expr (Ref "__FC_ENOSR"));
  ("ENOSTR", Expr (Ref "__FC_ENOSTR"));
  ("ENOSYS", Expr (Ref "__FC_ENOSYS"));
  ("ENOTBLK", Expr (Ref "__FC_ENOTBLK"));
  ("ENOTCONN", Expr (Ref "__FC_ENOTCONN"));
  ("ENOTDIR", Expr (Ref "__FC_ENOTDIR"));
  ("ENOTEMPTY", Expr (Ref "__FC_ENOTEMPTY"));
  ("ENOTSOCK", Expr (Ref "__FC_ENOTSOCK"));
  ("ENOTSUP", Expr (Ref "__FC_ENOTSUP"));
  ("ENOTTY", Expr (Ref "__FC_ENOTTY"));
  ("ENOTUNIQ", Expr (Ref "__FC_ENOTUNIQ"));
  ("ENXIO", Expr (Ref "__FC_ENXIO"));
  ("EOPNOTSUPP", Expr (Ref "__FC_EOPNOTSUPP"));
  ("EOVERFLOW", Expr (Ref "__FC_EOVERFLOW"));
  ("EPERM", Expr (Ref "__FC_EPERM"));
  ("EPFNOSUPPORT", Expr (Ref "__FC_EPFNOSUPPORT"));
  ("EPIPE", Expr (Ref "__FC_EPIPE"));
  ("EPROTO", Expr (Ref "__FC_EPROTO"));
  ("EPROTONOSUPPORT", Expr (Ref "__FC_EPROTONOSUPPORT"));
  ("EPROTOTYPE", Expr (Ref "__FC_EPROTOTYPE"));
  ("EREMCHG", Expr (Ref "__FC_EREMCHG"));
  ("EREMOTE", Expr (Ref "__FC_EREMOTE"));
  ("EREMOTEIO", Expr (Ref "__FC_EREMOTEIO"));
  ("ERESTART", Expr (Ref "__FC_ERESTART"));
  ("EROFS", Expr (Ref "__FC_EROFS"));
  ("ESHUTDOWN", Expr (Ref "__FC_ESHUTDOWN"));
  ("ESPIPE", Expr (Ref "__FC_ESPIPE"));
  ("ESOCKTNOSUPPORT", Expr (Ref "__FC_ESOCKTNOSUPPORT"));
  ("ESRCH", Expr (Ref "__FC_ESRCH"));
  ("ESTALE", Expr (Ref "__FC_ESTALE"));
  ("ESTRPIPE", Expr (Ref "__FC_ESTRPIPE"));
  ("ETIME", Expr (Ref "__FC_ETIME"));
  ("ETIMEDOUT", Expr (Ref "__FC_ETIMEDOUT"));
  ("ETXTBSY", Expr (Ref "__FC_ETXTBSY"));
  ("EUCLEAN", Expr (Ref "__FC_EUCLEAN"));
  ("EUNATCH", Expr (Ref "__FC_EUNATCH"));
  ("EUSERS", Expr (Ref "__FC_EUSERS"));
  ("EWOULDBLOCK", Expr (Ref "__FC_EWOULDBLOCK"));
  ("EXDEV", Expr (Ref "__FC_EXDEV"));
  ("EXFULL", Expr (Ref "__FC_EXFULL"))
].

(** __fc_define_intptr_t.h. *)
Definition intptr_t_h : table := [
  ("intptr_t", TyRef "__INTPTR_T");
  ("INTPTR_MIN", Expr (Ref "__FC_INTPTR_MIN"));
  ("INTPTR_MAX", Expr (Ref "__FC_INTPTR_MAX"))
].

(** __fc_define_size_t.h. *)
Definition size_t_h : table := [
  ("size_t", TyRef "__SIZE_T")
].

(** __fc_define_ssize_t.h. *)
Definition ssize_t_h : table := [
  ("ssize_t", TyRef "__SSIZE_T");
  ("SSIZE_MAX", Expr (Ref "__SSIZE_MAX"))
].

(** __fc_define_wchar_t.h. *)
Definition wchar_t_h : table := [
  ("wchar_t", TyRef "__WCHAR_T")
].

(** __fc_define_wint_t.h. *)
Definition wint_t_h : table := [
  ("wint_t", TyRef "__WINT_T")
].

(** stddef.h. *)
Definition ptrdiff_t_h : table := [
  ("ptrdiff_t", TyRef "__PTRDIFF_T")
].
