(* ===== verification/Machdep.v ===== *)
(** * Machine dependencies: __fc_machdep.h, limits.h, stdint.h, inttypes.h, errno.h

    The evaluation of the constant expressions of the headers with the typing rules of
    C, the five machines of share/libc/__fc_machdep.h, and the records that the
    platform keeps of the same machines in machdeps.ml. *)

From S2P Require Import Prelude MachTables.
From Stdlib Require Import String.
#[local] Open Scope string_scope.
#[local] Open Scope Z_scope.

(** ** Integer types *)

#[export] Instance ikind_eq_dec : EqDecision ikind.
Proof. solve_decision. Defined.

Record sizes : Type := mk_sizes { sz_short : Z; sz_int : Z; sz_long : Z; sz_longlong : Z }.

Definition sizeof (z : sizes) (k : ikind) : Z :=
  match k with
  | SChar | UChar => 1
  | Short | UShort => sz_short z
  | Int | UInt => sz_int z
  | Long | ULong => sz_long z
  | LLong | ULLong => sz_longlong z
  end.
Definition is_signed (k : ikind) : bool :=
  match k with SChar | Short | Int | Long | LLong => true | _ => false end.
Definition rank (k : ikind) : Z :=
  match k with
  | SChar | UChar => 1 | Short | UShort => 2 | Int | UInt => 3 | Long | ULong => 4 | LLong | ULLong => 5
  end.
Definition unsigned_of (k : ikind) : ikind :=
  match k with SChar => UChar | Short => UShort | Int => UInt | Long => ULong | LLong => ULLong | _ => k end.

Definition width (z : sizes) (k : ikind) : Z := 8 * sizeof z k.
Definition kmin (z : sizes) (k : ikind) : Z := if is_signed k then - 2 ^ (width z k - 1) else 0.
Definition kmax (z : sizes) (k : ikind) : Z :=
  if is_signed k then 2 ^ (width z k - 1) - 1 else 2 ^ width z k - 1.
Definition in_kind (z : sizes) (k : ikind) (v : Z) : bool := (kmin z k <=? v) && (v <=? kmax z k).

(** The integer promotions and the usual arithmetic conversions. *)
Definition promote (z : sizes) (k : ikind) : ikind :=
  if 3 <=? rank k then k
  else if (kmin z Int <=? kmin z k) && (kmax z k <=? kmax z Int) then Int else UInt.
Definition common (z : sizes) (k1 k2 : ikind) : ikind :=
  if Bool.eqb (is_signed k1) (is_signed k2) then (if rank k1 <=? rank k2 then k2 else k1)
  else
    let (s, u) := if is_signed k1 then (k1, k2) else (k2, k1) in
    if rank s <=? rank u then u
    else if kmax z u <=? kmax z s then s else unsigned_of s.

(** Arithmetic: no result when a signed operation overflows. *)
Definition arith (z : sizes) (k : ikind) (v : Z) : option (Z * ikind) :=
  if is_signed k then if in_kind z k v then Some (v, k) else None
  else Some (v mod 2 ^ width z k, k).

(** The types of a literal, in the order in which they are tried. *)
Definition lit_kinds (hex : bool) (s : suffix) : list ikind :=
  match s, hex with
  | sN, false => [Int; Long; LLong]
  | sN, true => [Int; UInt; Long; ULong; LLong; ULLong]
  | sU, _ => [UInt; ULong; ULLong]
  | sL, false => [Long; LLong]
  | sL, true => [Long; ULong; LLong; ULLong]
  | sUL, _ => [ULong; ULLong]
  | sLL, false => [LLong]
  | sLL, true => [LLong; ULLong]
  | sULL, _ => [ULLong]
  end.
Definition lit_kind (z : sizes) (hex : bool) (v : Z) (s : suffix) : option ikind :=
  List.find (fun k => in_kind z k v) (lit_kinds hex s).

(** ** Macros *)

Definition lookup_macro (t : table) (n : string) : option body :=
  option_map snd (List.find (fun e => String.eqb (fst e) n) t).

(** The value and the type of an expression after the expansion of macros. *)
Fixpoint eval (fuel : nat) (t : table) (z : sizes) (e : cexpr) : option (Z * ikind) :=
  match fuel with
  | O => None
  | S fuel =>
      match e with
      | Lit hex v s => option_map (pair v) (lit_kind z hex v s)
      | Ref n => match lookup_macro t n with Some (Expr e) => eval fuel t z e | _ => None end
      | Neg e =>
          match eval fuel t z e with
          | Some (v, k) => arith z (promote z k) (- v)
          | None => None
          end
      | Sub e1 e2 =>
          match eval fuel t z e1, eval fuel t z e2 with
          | Some (v1, k1), Some (v2, k2) =>
              let k := common z (promote z k1) (promote z k2) in
              let conv v := if is_signed k then v else v mod 2 ^ width z k in
              arith z k (conv v1 - conv v2)
          | _, _ => None
          end
      end
  end.
(** Enough for the deepest chain of macros of the headers. *)
Definition macro_fuel : nat := 8.
Definition macro (t : table) (z : sizes) (n : string) : option (Z * ikind) := eval macro_fuel t z (Ref n).

(** The type of the name of a type, through the macro of its definition. *)
Definition ctype (t : table) (n : string) : option ikind :=
  match lookup_macro t n with
  | Some (TyRef m) => match lookup_macro t m with Some (Ty k) => Some k | _ => None end
  | _ => None
  end.

(** The text of a macro of inttypes.h. *)
Definition conversion (t : table) (n : string) : option string :=
  match lookup_macro t n with
  | Some (Cat p s) => match lookup_macro t p with Some (Str q) => Some (q ++ s) | _ => None end
  | _ => None
  end.

(** ** Machines *)

(** The sizes that the header states. *)
Definition size_macro (t : table) (n : string) : Z :=
  match lookup_macro t n with Some (Expr (Lit _ v _)) => v | _ => 0 end.
Definition header_sizes (t : table) : sizes :=
  mk_sizes (size_macro t "__SIZEOF_SHORT") (size_macro t "__SIZEOF_INT")
    (size_macro t "__SIZEOF_LONG") (size_macro t "__SIZEOF_LONGLONG").

(** The fields of a machdep of machdeps.ml that the headers depend on. *)
Record machdep : Type := mk_machdep {
  md_sizes : sizes;
  md_ptr : Z;
  md_size_t : ikind;
  md_wchar_t : ikind;
  md_ptrdiff_t : ikind;
  md_char_is_unsigned : bool;
  md_little_endian : bool
}.
Definition md_x86_16 : machdep := mk_machdep (mk_sizes 2 2 4 8) 4 UInt Int Int false true.
Definition md_x86_32 : machdep := mk_machdep (mk_sizes 2 4 4 8) 4 UInt Int Int false true.
Definition md_x86_64 : machdep := mk_machdep (mk_sizes 2 4 8 8) 8 ULong Int Long false true.
Definition md_ppc_32 : machdep := mk_machdep (mk_sizes 2 4 4 8) 4 ULong Int Int false false.
Definition md_msvc_x86_64 : machdep := mk_machdep (mk_sizes 2 4 4 8) 8 ULLong UShort LLong false true.

Inductive machine : Type := X86_32 | X86_64 | X86_16 | PPC_32 | MSVC_X86_64.
#[export] Instance machine_eq_dec : EqDecision machine.
Proof. solve_decision. Defined.
Definition machines : list machine := [X86_32; X86_64; X86_16; PPC_32; MSVC_X86_64].

(** What __fc_machdep.h defines for a machine. *)
Definition machdep_h (m : machine) : table :=
  match m with
  | X86_32 => linux_shared ++ linux_errno ++ x86_32_own
  | X86_64 => linux_shared ++ linux_errno ++ x86_64_own
  | X86_16 => linux_shared ++ linux_errno ++ x86_16_own
  | PPC_32 => linux_shared ++ linux_errno ++ ppc_32_own
  | MSVC_X86_64 => msvc_types ++ msvc_rest
  end%list.
Definition machdep_ml (m : machine) : machdep :=
  match m with
  | X86_32 => md_x86_32 | X86_64 => md_x86_64 | X86_16 => md_x86_16
  | PPC_32 => md_ppc_32 | MSVC_X86_64 => md_msvc_x86_64
  end.

(** [ssize_t] is only defined on the machines of POSIX. *)
Definition is_posix (m : machine) : bool :=
  match lookup_macro (machdep_h m) "__FC_POSIX_VERSION" with Some _ => true | None => false end.
(** All the headers. *)
Definition headers (m : machine) : table :=
  (machdep_h m ++ intptr_t_h ++ size_t_h ++ (if is_posix m then ssize_t_h else []) ++ wchar_t_h ++ wint_t_h ++
   ptrdiff_t_h ++ limits_h ++ stdint_h ++ inttypes_PRI ++ inttypes_SCN ++ errno_h)%list.
Definition msizes (m : machine) : sizes := header_sizes (machdep_h m).

(** ** Checks *)

(** An integer type, by its name or its kind, and its limits; unsigned types have no
    macro for the minimum. *)
Inductive tyname : Type := Named (n : string) | Kind (k : ikind).
Definition kind_of (m : machine) (t : tyname) : option ikind :=
  match t with Named n => ctype (headers m) n | Kind k => Some k end.
Definition limits : list (tyname * string * string) := [
  (Kind SChar, "SCHAR_MIN", "SCHAR_MAX"); (Kind UChar, "", "UCHAR_MAX");
  (Kind SChar, "CHAR_MIN", "CHAR_MAX");
  (Kind Short, "SHRT_MIN", "SHRT_MAX"); (Kind UShort, "", "USHRT_MAX");
  (Kind Int, "INT_MIN", "INT_MAX"); (Kind UInt, "", "UINT_MAX");
  (Kind Long, "LONG_MIN", "LONG_MAX"); (Kind ULong, "", "ULONG_MAX");
  (Kind LLong, "LLONG_MIN", "LLONG_MAX"); (Kind ULLong, "", "ULLONG_MAX");
  (Named "int8_t", "INT8_MIN", "INT8_MAX"); (Named "uint8_t", "", "UINT8_MAX");
  (Named "int16_t", "INT16_MIN", "INT16_MAX"); (Named "uint16_t", "", "UINT16_MAX");
  (Named "int32_t", "INT32_MIN", "INT32_MAX"); (Named "uint32_t", "", "UINT32_MAX");
  (Named "int64_t", "INT64_MIN", "INT64_MAX"); (Named "uint64_t", "", "UINT64_MAX");
  (Named "int_least8_t", "INT_LEAST8_MIN", "INT_LEAST8_MAX"); (Named "uint_least8_t", "", "UINT_LEAST8_MAX");
  (Named "int_least16_t", "INT_LEAST16_MIN", "INT_LEAST16_MAX"); (Named "uint_least16_t", "", "UINT_LEAST16_MAX");
  (Named "int_least32_t", "INT_LEAST32_MIN", "INT_LEAST32_MAX"); (Named "uint_least32_t", "", "UINT_LEAST32_MAX");
  (Named "int_least64_t", "INT_LEAST64_MIN", "INT_LEAST64_MAX"); (Named "uint_least64_t", "", "UINT_LEAST64_MAX");
  (Named "int_fast8_t", "INT_FAST8_MIN", "INT_FAST8_MAX"); (Named "uint_fast8_t", "", "UINT_FAST8_MAX");
  (Named "int_fast16_t", "INT_FAST16_MIN", "INT_FAST16_MAX"); (Named "uint_fast16_t", "", "UINT_FAST16_MAX");
  (Named "int_fast32_t", "INT_FAST32_MIN", "INT_FAST32_MAX"); (Named "uint_fast32_t", "", "UINT_FAST32_MAX");
  (Named "int_fast64_t", "INT_FAST64_MIN", "INT_FAST64_MAX"); (Named "uint_fast64_t", "", "UINT_FAST64_MAX");
  (Named "intptr_t", "INTPTR_MIN", "INTPTR_MAX"); (Named "uintptr_t", "", "UINTPTR_MAX");
  (Named "intmax_t", "INTMAX_MIN", "INTMAX_MAX"); (Named "uintmax_t", "", "UINTMAX_MAX");
  (Named "ptrdiff_t", "PTRDIFF_MIN", "PTRDIFF_MAX"); (Named "size_t", "", "SIZE_MAX");
  (Named "wchar_t", "WCHAR_MIN", "WCHAR_MAX"); (Named "wint_t", "WINT_MIN", "WINT_MAX");
  (Kind Int, "SIG_ATOMIC_MIN", "SIG_ATOMIC_MAX")
].
(** A macro has the value [v] of the type [k]. *)
Definition has_value (m : machine) (n : string) (v : Z) : bool :=
  match macro (headers m) (msizes m) n with Some (v', _) => v' =? v | None => false end.
Definition has_type (m : machine) (n : string) (k : ikind) : bool :=
  match macro (headers m) (msizes m) n with
  | Some (_, k') => bool_decide (k' = promote (msizes m) k)
  | None => false
  end.
Definition limits_right (check : machine -> string -> ikind -> bool -> bool) (m : machine)
    (l : tyname * string * string) : bool :=
  let '(t, min, max) := l in
  match kind_of m t with
  | Some k => (String.eqb min "" || check m min k true) && check m max k false
  | None => false
  end.
Definition value_check (m : machine) (n : string) (k : ikind) (is_min : bool) : bool :=
  has_value m n (if is_min then kmin (msizes m) k else kmax (msizes m) k).
Definition type_check (m : machine) (n : string) (k : ikind) (is_min : bool) : bool := has_type m n k.
Definition wrong (check : machine -> string -> ikind -> bool -> bool) (m : machine) : list string :=
  map (fun l => snd l) (List.filter (fun l => negb (limits_right check m l)) limits).

(** The types of a width, and whether the width is exact. *)
Definition widths : list (string * bool * Z * bool) := [
  ("int8_t", true, 8, true); ("int16_t", true, 16, true); ("int32_t", true, 32, true); ("int64_t", true, 64, true);
  ("uint8_t", false, 8, true); ("uint16_t", false, 16, true); ("uint32_t", false, 32, true); ("uint64_t", false, 64, true);
  ("int_least8_t", true, 8, false); ("int_least16_t", true, 16, false);
  ("int_least32_t", true, 32, false); ("int_least64_t", true, 64, false);
  ("uint_least8_t", false, 8, false); ("uint_least16_t", false, 16, false);
  ("uint_least32_t", false, 32, false); ("uint_least64_t", false, 64, false);
  ("int_fast8_t", true, 8, false); ("int_fast16_t", true, 16, false);
  ("int_fast32_t", true, 32, false); ("int_fast64_t", true, 64, false);
  ("uint_fast8_t", false, 8, false); ("uint_fast16_t", false, 16, false);
  ("uint_fast32_t", false, 32, false); ("uint_fast64_t", false, 64, false);
  ("intmax_t", true, 64, false); ("uintmax_t", false, 64, false)
].
Definition width_ok (m : machine) '(n, signed, w, exact) : bool :=
  match ctype (headers m) n with
  | Some k => Bool.eqb (is_signed k) signed && (if exact : bool then width (msizes m) k =? w else w <=? width (msizes m) k)
  | None => false
  end.
(** The integers of pointers are as wide as the pointers of the platform. *)
Definition pointer_ok (m : machine) (n : string) : bool :=
  match ctype (headers m) n with
  | Some k => width (msizes m) k =? 8 * md_ptr (machdep_ml m)
  | None => false
  end.

(** The argument of a conversion of printf or scanf with a length modifier. *)
Definition modifier_kind (s : string) (signed : bool) : option ikind :=
  option_map (fun k => if signed then k else unsigned_of k)
    (if String.eqb s "hh" then Some SChar else if String.eqb s "h" then Some Short
     else if String.eqb s "" then Some Int else if String.eqb s "l" then Some Long
     else if String.eqb s "ll" then Some LLong else None).
(** Each conversion of inttypes.h: its macro, its letter and the type that it is for. *)
Definition conversion_types : list (string * string) := [
  ("8", "8_t"); ("16", "16_t"); ("32", "32_t"); ("64", "64_t");
  ("LEAST8", "_least8_t"); ("LEAST16", "_least16_t"); ("LEAST32", "_least32_t"); ("LEAST64", "_least64_t");
  ("FAST8", "_fast8_t"); ("FAST16", "_fast16_t"); ("FAST32", "_fast32_t"); ("FAST64", "_fast64_t");
  ("MAX", "max_t"); ("PTR", "ptr_t")
].
Definition conversions (family : string) (letters : list (string * bool)) : list (string * string * string) :=
  flat_map (fun '(c, signed) =>
    map (fun '(n, t) => (family ++ c ++ n, c, (if signed : bool then "int" else "uint") ++ t)%string)
      conversion_types) letters.
Definition all_conversions : list (string * string * string) :=
  (conversions "PRI" [("d", true); ("i", true); ("o", false); ("u", false); ("x", false); ("X", false)] ++
   conversions "SCN" [("d", true); ("i", true); ("o", false); ("u", false); ("x", false)])%list.
Definition conversion_ok (m : machine) '(n, c, t) : bool :=
  match conversion (headers m) n, ctype (headers m) t with
  | Some s, Some k =>
      existsb (fun md => String.eqb s (md ++ c) &&
                         bool_decide (modifier_kind md (is_signed k) = Some k)) ["hh"; "h"; ""; "l"; "ll"]
  | _, _ => false
  end.

(** The codes of errno.h with their values. *)
Definition errno_values (m : machine) : list (string * option Z) :=
  map (fun e => (fst e, option_map fst (macro (headers m) (msizes m) (fst e)))) errno_h.
Definition same_codes (m : machine) : list (string * string) :=
  flat_map (fun '(n1, v1) =>
    flat_map (fun '(n2, v2) =>
      if String.ltb n1 n2 && bool_decide (v1 = v2) then [(n1, n2)] else []) (errno_values m)) (errno_values m).

(** The macro that the headers define only if it is not defined: the first definition is
    the one that counts. *)
Definition defaults : list string := ["__FC_L_tmpnam"].
(** A code is a positive [int]. *)
Definition code_check (m : machine) (n : string) : bool :=
  match macro (headers m) (msizes m) n with Some (v, k) => bool_decide (k = Int) && (0 <? v) | None => false end.

(** Two definitions of one macro are the same. *)
Fixpoint cexpr_eqb (e1 e2 : cexpr) : bool :=
  match e1, e2 with
  | Lit h1 v1 s1, Lit h2 v2 s2 => Bool.eqb h1 h2 && (v1 =? v2) && bool_decide (lit_kinds h1 s1 = lit_kinds h2 s2)
  | Ref n1, Ref n2 => String.eqb n1 n2
  | Neg e1, Neg e2 => cexpr_eqb e1 e2
  | Sub a1 b1, Sub a2 b2 => cexpr_eqb a1 a2 && cexpr_eqb b1 b2
  | _, _ => false
  end.
Definition body_eqb (b1 b2 : body) : bool :=
  match b1, b2 with
  | Expr e1, Expr e2 => cexpr_eqb e1 e2
  | Ty k1, Ty k2 => bool_decide (k1 = k2)
  | TyRef n1, TyRef n2 | Str n1, Str n2 | Tokens n1, Tokens n2 => String.eqb n1 n2
  | Cat p1 s1, Cat p2 s2 => String.eqb p1 p2 && String.eqb s1 s2
  | _, _ => false
  end.
Definition no_redefinition (t : table) : bool :=
  forallb (fun '(n, b) => existsb (String.eqb n) defaults || match lookup_macro t n with Some b' => body_eqb b b' | None => false end) t.
(** The references of the portable headers to macros that are not defined. *)
Fixpoint refs (e : cexpr) : list string :=
  match e with Lit _ _ _ => [] | Ref n => [n] | Neg e => refs e | Sub a b => (refs a ++ refs b)%list end.
Definition body_refs (b : body) : list string :=
  match b with Expr e => refs e | TyRef n => [n] | Cat p _ => [p] | _ => [] end.
Definition portable_headers : table :=
  (limits_h ++ stdint_h ++ inttypes_PRI ++ inttypes_SCN ++ intptr_t_h ++ size_t_h ++ wchar_t_h ++ wint_t_h ++ ptrdiff_t_h)%list.
Definition undefined (t : table) (m : machine) : list string :=
  List.filter (fun n => match lookup_macro (headers m) n with Some _ => false | None => true end)
    (flat_map (fun e => body_refs (snd e)) t).
(** The byte order and the types on which the header and the platform must agree. *)
Definition same_byte_order (m : machine) : bool :=
  match lookup_macro (machdep_h m) "__FC_BYTE_ORDER" with
  | Some (Expr (Ref n)) =>
      String.eqb n (if md_little_endian (machdep_ml m) then "__LITTLE_ENDIAN" else "__BIG_ENDIAN")
  | _ => false
  end.
Definition disagreements (m : machine) : list string :=
  map fst (List.filter (fun e => negb (bool_decide (ctype (headers m) (fst e) = Some (snd e))))
    [("size_t", md_size_t (machdep_ml m)); ("ptrdiff_t", md_ptrdiff_t (machdep_ml m));
     ("wchar_t", md_wchar_t (machdep_ml m))]).

(** ** Lemmas *)

(** The sizes of the standard: at least one byte, and not smaller for a greater rank. *)
Definition sizes_ok (z : sizes) : Prop :=
  1 <= sz_short z <= sz_int z /\ sz_int z <= sz_long z <= sz_longlong z.

Lemma kind_range z k v : in_kind z k v = true <-> kmin z k <= v <= kmax z k.
Proof. unfold in_kind. lia. Qed.

Lemma lit_kind_range z hex v s k : lit_kind z hex v s = Some k -> in_kind z k v = true /\ 3 <= rank k.
Proof.
  intros H. apply find_some in H. destruct H as [Hin Hk]. split; [exact Hk |].
  destruct s, hex; cbn in Hin; intuition (subst; cbn; lia).
Qed.

Lemma width_nonneg z k : sizes_ok z -> 8 <= width z k.
Proof. intros (H1 & H2). unfold width. destruct k; cbn; lia. Qed.

Lemma arith_range z k v r : sizes_ok z -> arith z k v = Some r -> in_kind z (snd r) (fst r) = true /\ snd r = k.
Proof.
  intros Hz. unfold arith. destruct (is_signed k) eqn:E.
  - destruct (in_kind z k v) eqn:Hk; [| discriminate]. intros [= <-]. auto.
  - intros [= <-]. cbn. split; [| reflexivity]. apply kind_range. unfold kmin, kmax. rewrite E.
    pose proof (Z.mod_pos_bound v (2 ^ width z k) ltac:(pose proof (width_nonneg z k Hz); lia)). lia.
Qed.

Lemma rank_promote z k : 3 <= rank (promote z k).
Proof. unfold promote. destruct (Z.leb_spec 3 (rank k)); [assumption |]. case_match; cbn; lia. Qed.
Lemma rank_common z k1 k2 : 3 <= rank k1 -> 3 <= rank k2 -> 3 <= rank (common z k1 k2).
Proof.
  intros H1 H2. unfold common, unsigned_of.
  repeat case_match; simplify_eq; try assumption; cbn in *; lia.
Qed.

Lemma eval_typed fuel t z e v k : sizes_ok z -> eval fuel t z e = Some (v, k) ->
  in_kind z k v = true /\ 3 <= rank k.
Proof.
  intros Hz. revert e v k. induction fuel as [| fuel IH]; intros e v k; [discriminate |].
  destruct e as [hex x s | n | e | e1 e2]; cbn [eval].
  - destruct (lit_kind z hex x s) eqn:E; [| discriminate]. intros [= <- <-]. exact (lit_kind_range _ _ _ _ _ E).
  - destruct (lookup_macro t n) as [[e | | | | |] |]; try discriminate. apply IH.
  - destruct (eval fuel t z e) as [[v' k'] |]; [| discriminate]. intros H.
    destruct (arith_range _ _ _ _ Hz H) as [H1 H2]. cbn in *. subst k. split; [exact H1 | apply rank_promote].
  - destruct (eval fuel t z e1) as [[v1 k1] |]; [| discriminate].
    destruct (eval fuel t z e2) as [[v2 k2] |]; [| discriminate]. intros H.
    destruct (arith_range _ _ _ _ Hz H) as [H1 H2]. cbn in *. subst k.
    split; [exact H1 | apply rank_common; apply rank_promote].
Qed.

(** More fuel does not change a result. *)
Lemma eval_more fuel fuel' t z e r : (fuel <= fuel')%nat -> eval fuel t z e = Some r -> eval fuel' t z e = Some r.
Proof.
  revert fuel' e r. induction fuel as [| fuel IH]; intros fuel' e r Hle; [discriminate |].
  destruct fuel' as [| fuel']; [lia |]. assert (Hle' : (fuel <= fuel')%nat) by lia.
  destruct e as [hex x s | n | e | e1 e2]; cbn [eval].
  - auto.
  - destruct (lookup_macro t n) as [[e | | | | |] |]; try discriminate. apply IH; exact Hle'.
  - destruct (eval fuel t z e) as [p |] eqn:E; [| discriminate]. rewrite (IH _ _ _ Hle' E). auto.
  - destruct (eval fuel t z e1) as [p1 |] eqn:E1; [| discriminate]. rewrite (IH _ _ _ Hle' E1). destruct p1.
    destruct (eval fuel t z e2) as [p2 |] eqn:E2; [| discriminate]. rewrite (IH _ _ _ Hle' E2). auto.
Qed.

(** A check of a machine and an entry of a list. *)
Lemma for_machines {A : Type} (P : machine -> A -> bool) (l : list A) :
  forallb (fun m => forallb (P m) l) machines = true -> forall m a, In a l -> P m a = true.
Proof.
  intros H m a Ha. rewrite forallb_forall in H. specialize (H m). rewrite forallb_forall in H.
  apply H; [destruct m; cbn; auto 6 | exact Ha].
Qed.
Lemma machine_ok (P : machine -> bool) : forallb P machines = true -> forall m, P m = true.
Proof. intros H m. rewrite forallb_forall in H. apply H. destruct m; cbn; auto 6. Qed.

Lemma has_value_inv m n v : has_value m n v = true -> exists k, macro (headers m) (msizes m) n = Some (v, k).
Proof.
  unfold has_value. destruct (macro _ _ n) as [[v' k] |]; [| discriminate]. intros H.
  apply Z.eqb_eq in H. subst. eauto.
Qed.

Lemma has_type_inv m n k : has_type m n k = true ->
  exists v, macro (headers m) (msizes m) n = Some (v, promote (msizes m) k).
Proof.
  unfold has_type. destruct (macro _ _ n) as [[v k'] |]; [| discriminate]. intros H.
  apply bool_decide_eq_true in H. subst. eauto.
Qed.

(** ** Theorems *)

(** C25.  On every machine of __fc_machdep.h the limits of limits.h and stdint.h are the
    least and the greatest value of their types, apart from [SIG_ATOMIC_MIN] and
    [SIG_ATOMIC_MAX] on the machine of MSVC, which does not define them; the types of a stated width have it,
    the integers of pointers have the width of the platform's pointers, each
    conversion of inttypes.h is the one of its type, no macro has two definitions, and
    sizes and byte order are those of the platform. *)
Theorem machine_limits_exact (m : machine) :
  (forall t lo hi, In (t, lo, hi) limits -> ~ (m = MSVC_X86_64 /\ hi = "SIG_ATOMIC_MAX") ->
     exists k, kind_of m t = Some k /\
       (lo = "" \/ exists k', macro (headers m) (msizes m) lo = Some (kmin (msizes m) k, k')) /\
       exists k', macro (headers m) (msizes m) hi = Some (kmax (msizes m) k, k')) /\
  (forall w, In w widths -> width_ok m w = true) /\
  (pointer_ok m "intptr_t" = true /\ pointer_ok m "uintptr_t" = true) /\
  (forall c, In c all_conversions -> conversion_ok m c = true) /\
  no_redefinition (headers m) = true /\
  msizes m = md_sizes (machdep_ml m) /\ same_byte_order m = true.
Proof.
  split; [| split; [| split; [| split; [| split; [| split]]]]].
  - intros t lo hi Hin Hx.
    assert (K : forall m l, In l limits ->
      (bool_decide (m = MSVC_X86_64) && String.eqb (snd l) "SIG_ATOMIC_MAX") || limits_right value_check m l = true)
      by (apply for_machines; vm_compute; reflexivity).
    pose proof (K m _ Hin) as H. apply orb_true_iff in H. destruct H as [H | H].
    { exfalso. apply Hx. apply andb_true_iff in H. destruct H as [H1 H2].
      apply bool_decide_eq_true in H1. apply String.eqb_eq in H2. auto. }
    cbv [limits_right] in H. destruct (kind_of m t) as [k |]; [| discriminate]. exists k.
    apply andb_true_iff in H. destruct H as [H1 H2]. apply orb_true_iff in H1.
    split; [reflexivity |]. split; [| exact (has_value_inv _ _ _ H2)].
    destruct H1 as [H1 | H1]; [left; apply String.eqb_eq; exact H1 | right; exact (has_value_inv _ _ _ H1)].
  - apply (for_machines width_ok). vm_compute. reflexivity.
  - destruct m; vm_compute; auto.
  - apply (for_machines conversion_ok). vm_compute. reflexivity.
  - apply (machine_ok (fun m => no_redefinition (headers m))). vm_compute. reflexivity.
  - destruct m; vm_compute; reflexivity.
  - destruct m; vm_compute; reflexivity.
Qed.

(** On the machines of POSIX every code of errno.h is a positive [int], and two
    names have the same code only for the three pairs that POSIX lets be equal. *)
Theorem errno_codes_distinct (m : machine) : is_posix m = true ->
  (forall n, In n (map fst errno_h) -> exists v, macro (headers m) (msizes m) n = Some (v, Int) /\ 0 < v) /\
  same_codes m = [("EAGAIN", "EWOULDBLOCK"); ("EDEADLK", "EDEADLOCK"); ("ENOTSUP", "EOPNOTSUPP")].
Proof.
  intros Hm. split.
  - intros n Hn.
    assert (K : forall m n, In n (map fst errno_h) -> negb (is_posix m) || code_check m n = true)
      by (apply for_machines; vm_compute; reflexivity).
    pose proof (K m n Hn) as H. unfold code_check in H. rewrite Hm in H. cbn [negb orb] in H.
    destruct (macro _ _ n) as [[v k] |]; [| discriminate]. apply andb_true_iff in H. destruct H as [H1 H2].
    apply bool_decide_eq_true in H1. subst k. exists v. split; [reflexivity | lia].
  - destruct m; try discriminate Hm; vm_compute; reflexivity.
Qed.
Lemma errno_codes_distinct_witness :
  is_posix X86_64 = true /\ exists v, macro (headers X86_64) (msizes X86_64) "EDOM" = Some (v, Int) /\ 0 < v.
Proof.
  split; [reflexivity |].
  destruct (errno_codes_distinct X86_64 ltac:(reflexivity)) as [H _]. apply H. cbn. auto.
Defined.

Lemma machine_limits_exact_witness :
  In (Kind Int, "INT_MIN", "INT_MAX") limits /\
  exists k', macro (headers X86_64) (msizes X86_64) "INT_MAX" = Some (2147483647, k').
Proof.
  assert (Hin : In (Kind Int, "INT_MIN", "INT_MAX") limits) by (cbn; auto 10).
  split; [exact Hin |].
  destruct (machine_limits_exact X86_64) as [H _].
  destruct (H _ _ _ Hin) as (k & Hk & _ & E); [intros [E _]; discriminate |].
  injection Hk as <-. exact E.
Defined.

(** The limits whose constants do not have the promoted type of what they limit, or have
    no value; each pair is named by its maximum. *)
Definition type_departures (m : machine) : list string :=
  match m with
  | X86_32 => ["WINT_MAX"]
  | X86_64 => ["INT64_MAX"; "UINT64_MAX"; "WINT_MAX"]
  | X86_16 => ["SHRT_MAX"; "USHRT_MAX"; "INT_MAX"; "INT16_MAX"; "UINT16_MAX"; "INT_LEAST16_MAX"; "UINT_LEAST16_MAX";
               "INT_FAST16_MAX"; "WCHAR_MAX"; "WINT_MAX"; "SIG_ATOMIC_MAX"]
  | PPC_32 => ["INTPTR_MAX"; "UINTPTR_MAX"; "WINT_MAX"]
  | MSVC_X86_64 => ["SIG_ATOMIC_MAX"]
  end.
(** The types that are not those of machdeps.ml. *)
Definition kind_departures (m : machine) : list string :=
  match m with X86_16 => ["ptrdiff_t"] | PPC_32 => ["size_t"] | _ => [] end.

(** C26.  On every machine, the constants of the limits of limits.h and stdint.h have the
    promoted type of what they limit, as C11 (5.2.4.2.1 and 7.20) asks, apart from exactly
    the pairs listed in [type_departures]; [size_t], [ptrdiff_t] and [wchar_t] are those
    that the platform keeps for the machine, apart from [ptrdiff_t] of x86_16 and
    [size_t] of ppc_32; and every macro that has a value has one that its type can
    represent, which eight expansions are enough to find. *)
Theorem constant_types_exact (m : machine) :
  (forall t lo hi, In (t, lo, hi) limits -> ~ In hi (type_departures m) ->
     exists k, kind_of m t = Some k /\
       (lo = "" \/ exists v, macro (headers m) (msizes m) lo = Some (v, promote (msizes m) k)) /\
       exists v, macro (headers m) (msizes m) hi = Some (v, promote (msizes m) k)) /\
  wrong type_check m = type_departures m /\
  disagreements m = kind_departures m /\
  (forall n v k, macro (headers m) (msizes m) n = Some (v, k) ->
     (kmin (msizes m) k <= v <= kmax (msizes m) k /\ rank Int <= rank k) /\
     forall fuel, (macro_fuel <= fuel)%nat -> eval fuel (headers m) (msizes m) (Ref n) = Some (v, k)).
Proof.
  assert (W : wrong type_check m = type_departures m) by (destruct m; vm_compute; reflexivity).
  split; [| split; [exact W | split; [destruct m; vm_compute; reflexivity |]]].
  - intros t lo hi Hin Hx.
    assert (H : limits_right type_check m (t, lo, hi) = true).
    { destruct (limits_right type_check m (t, lo, hi)) eqn:E; [reflexivity |]. exfalso. apply Hx. rewrite <- W.
      unfold wrong. apply (in_map snd _ (t, lo, hi)). apply filter_In. rewrite E. auto. }
    cbv [limits_right] in H. destruct (kind_of m t) as [k |]; [| discriminate]. exists k.
    apply andb_true_iff in H. destruct H as [H1 H2]. apply orb_true_iff in H1.
    split; [reflexivity |]. split; [| exact (has_type_inv _ _ _ H2)].
    destruct H1 as [H1 | H1]; [left; apply String.eqb_eq; exact H1 | right; exact (has_type_inv _ _ _ H1)].
  - intros n v k H. assert (Hz : sizes_ok (msizes m)) by (destruct m; vm_compute; repeat split; discriminate).
    destruct (eval_typed _ _ _ _ _ _ Hz H) as [H1 H2]. apply kind_range in H1.
    split; [split; assumption |]. intros fuel Hle. exact (eval_more _ _ _ _ _ _ Hle H).
Qed.
Lemma constant_types_exact_witness :
  exists v, macro (headers X86_64) (msizes X86_64) "ULONG_MAX" = Some (v, ULong) /\ v <= kmax (msizes X86_64) ULong.
Proof.
  destruct (constant_types_exact X86_64) as (H & _ & _ & Hr).
  destruct (H (Kind ULong) "" "ULONG_MAX") as (k & Hk & _ & v & E).
  - cbn. auto 20.
  - cbn. intuition discriminate.
  - injection Hk as <-. exists v. split; [exact E |]. destruct (Hr _ _ _ E) as [[[_ K] _] _]. exact K.
Defined.

(** Where the headers depart from the standard: the 16-bit [INT_MIN] is a [long], the
    codes of errno.h, none of which is defined for MSVC, the limits of [sig_atomic_t]
    there, and the [ssize_t] of the 16-bit machine, which is wider than its [size_t]. *)
Theorem machine_divergences :
  macro (headers X86_16) (msizes X86_16) "INT_MIN" = Some (-32768, Long) /\
  Forall (fun n => macro (headers MSVC_X86_64) (msizes MSVC_X86_64) n = None) (map fst errno_h) /\
  undefined portable_headers MSVC_X86_64 = ["__FC_SIG_ATOMIC_MIN"; "__FC_SIG_ATOMIC_MAX"] /\
  (exists s u, ctype (headers X86_16) "ssize_t" = Some s /\ ctype (headers X86_16) "size_t" = Some u /\
     width (msizes X86_16) u < width (msizes X86_16) s).
Proof.
  split; [vm_compute; reflexivity |].
  split; [| split; [vm_compute; reflexivity | exists Long, UInt; vm_compute; auto]].
  apply Forall_fold_right. vm_compute. repeat split.
Qed.
