(* ===== verification/GccBuiltins.v ===== *)
(** * Contracts of __fc_gcc_builtins.h

    The arithmetic built-in functions of GCC that detect overflow are only declared, with
    contracts: the wrapped result is stored, and the returned flag says whether it is
    the mathematical one.  The types have the sizes of a machine of Machdep. *)

From S2P Require Import Prelude MachTables Machdep.

(** ** Contracts *)

(** The conversion of a number to an integer type. *)
Definition conv (z : sizes) (k : ikind) (v : Z) : Z :=
  let w := width z k in
  if is_signed k then (v + 2 ^ (w - 1)) mod 2 ^ w - 2 ^ (w - 1) else v mod 2 ^ w.

Definition bytes_of (z : sizes) (k : ikind) : nat := Z.to_nat (sizeof z k).

(** The value of an object of the type [k]. *)
Definition load_kind (z : sizes) (k : ikind) (m : mem) (p : Z) : outcome Z :=
  let* u := load_le (bytes_of z k) m p in Ret (conv z k u).

(** The contract of a function that stores [op a b]: [valid_res], [res_wrapped],
    [result_overflow] and [assigns]. *)
Record overflow_contract (op : Z -> Z -> Z) (k : ikind) (z : sizes)
    (m : mem) (a b res : Z) (result : Z) (m' : mem) : Prop := {
  res_wrapped : load_kind z k m' res = Ret (conv z k (op a b));
  result_overflow : result = if op a b =? conv z k (op a b) then 0 else 1;
  assigns_res : dom m' = dom m /\ forall x, ~ (res <= x < res + sizeof z k) -> m' !! x = m !! x
}.

Definition builtin_sadd_overflow := overflow_contract Z.add Int.
Definition builtin_saddl_overflow := overflow_contract Z.add Long.
Definition builtin_saddll_overflow := overflow_contract Z.add LLong.
Definition builtin_uadd_overflow := overflow_contract Z.add UInt.
Definition builtin_uaddl_overflow := overflow_contract Z.add ULong.
Definition builtin_uaddll_overflow := overflow_contract Z.add ULLong.
Definition builtin_ssub_overflow := overflow_contract Z.sub Int.
Definition builtin_ssubl_overflow := overflow_contract Z.sub Long.
Definition builtin_ssubll_overflow := overflow_contract Z.sub LLong.
Definition builtin_usub_overflow := overflow_contract Z.sub UInt.
Definition builtin_usubl_overflow := overflow_contract Z.sub ULong.
Definition builtin_usubll_overflow := overflow_contract Z.sub ULLong.
Definition builtin_smul_overflow := overflow_contract Z.mul Int.
Definition builtin_smull_overflow := overflow_contract Z.mul Long.
Definition builtin_smulll_overflow := overflow_contract Z.mul LLong.
Definition builtin_umul_overflow := overflow_contract Z.mul UInt.
Definition builtin_umull_overflow := overflow_contract Z.mul ULong.
Definition builtin_umulll_overflow := overflow_contract Z.mul ULLong.

(** A builtin: its operation, its type and its contract. *)
Record builtin : Type := mk_builtin {
  bi_op : Z -> Z -> Z;
  bi_kind : ikind;
  bi_contract : sizes -> mem -> Z -> Z -> Z -> Z -> mem -> Prop
}.
Definition gcc_builtins : list builtin := [
  mk_builtin Z.add Int builtin_sadd_overflow; mk_builtin Z.add Long builtin_saddl_overflow;
  mk_builtin Z.add LLong builtin_saddll_overflow; mk_builtin Z.add UInt builtin_uadd_overflow;
  mk_builtin Z.add ULong builtin_uaddl_overflow; mk_builtin Z.add ULLong builtin_uaddll_overflow;
  mk_builtin Z.sub Int builtin_ssub_overflow; mk_builtin Z.sub Long builtin_ssubl_overflow;
  mk_builtin Z.sub LLong builtin_ssubll_overflow; mk_builtin Z.sub UInt builtin_usub_overflow;
  mk_builtin Z.sub ULong builtin_usubl_overflow; mk_builtin Z.sub ULLong builtin_usubll_overflow;
  mk_builtin Z.mul Int builtin_smul_overflow; mk_builtin Z.mul Long builtin_smull_overflow;
  mk_builtin Z.mul LLong builtin_smulll_overflow; mk_builtin Z.mul UInt builtin_umul_overflow;
  mk_builtin Z.mul ULong builtin_umull_overflow; mk_builtin Z.mul ULLong builtin_umulll_overflow
].

(** ** Lemmas *)

(** The reference: the wrapped result is stored, and compared with the exact one. *)
Definition checked_op (op : Z -> Z -> Z) (k : ikind) (z : sizes) (m : mem) (a b res : Z) : outcome (Z * mem) :=
  let* m' := store_le (bytes_of z k) m res (conv z k (op a b)) in
  Ret (if in_kind z k (op a b) then 0 else 1, m').

Section Conversions.
Context (z : sizes) (Hz : sizes_ok z).

Lemma width_split k : 2 ^ width z k = 2 * 2 ^ (width z k - 1) /\ 0 < 2 ^ (width z k - 1).
Proof.
  pose proof (width_nonneg z k Hz). rewrite <- Z.pow_succ_r by lia. split; [f_equal; lia | lia].
Qed.

Lemma conv_range k v : in_kind z k (conv z k v) = true.
Proof.
  destruct (width_split k) as [E Hp]. apply kind_range. unfold conv, kmin, kmax.
  destruct (is_signed k); [pose proof (Z.mod_pos_bound (v + 2 ^ (width z k - 1)) (2 ^ width z k)) |
    pose proof (Z.mod_pos_bound v (2 ^ width z k))]; lia.
Qed.

Lemma conv_id k v : in_kind z k v = true <-> conv z k v = v.
Proof.
  split; [| intros <-; apply conv_range]. intros H%kind_range. destruct (width_split k) as [E Hp].
  unfold conv, kmin, kmax in *. destruct (is_signed k); rewrite Z.mod_small; lia.
Qed.

Lemma conv_mod k v : conv z k v mod 2 ^ width z k = v mod 2 ^ width z k.
Proof.
  destruct (width_split k) as [E Hp]. unfold conv. destruct (is_signed k); [| apply Z.mod_mod; lia].
  rewrite Zminus_mod_idemp_l. f_equal. lia.
Qed.

Lemma conv_of_mod k v w : v mod 2 ^ width z k = w mod 2 ^ width z k <-> conv z k v = conv z k w.
Proof.
  destruct (width_split k) as [E Hp]. split; [| intros H; rewrite <- (conv_mod k v), H; apply conv_mod].
  intros H. unfold conv. destruct (is_signed k); [| exact H].
  rewrite <- Zplus_mod_idemp_l, H, Zplus_mod_idemp_l. reflexivity.
Qed.

Lemma bytes_width k : 8 * Z.of_nat (bytes_of z k) = width z k.
Proof. pose proof (width_nonneg z k Hz). unfold bytes_of, width in *. lia. Qed.

(** The wrapped sum, difference or product differs from the exact one by a multiple of
    the modulus. *)
Lemma conv_multiple k v : exists q, conv z k v = v + q * 2 ^ width z k.
Proof.
  destruct (width_split k) as [E Hp].
  assert (H : (conv z k v - v) mod 2 ^ width z k = 0).
  { rewrite Zminus_mod, conv_mod, <- Zminus_mod, Z.sub_diag. apply Z.mod_0_l. lia. }
  apply Z.mod_divide in H; [| lia]. destruct H as [q Hq]. exists q. lia.
Qed.
End Conversions.

Lemma load_le_inj n m1 m2 a v : mem_ok m1 -> mem_ok m2 -> load_le n m1 a = Ret v -> load_le n m2 a = Ret v ->
  forall x, a <= x < a + Z.of_nat n -> m1 !! x = m2 !! x.
Proof.
  intros H1 H2. revert a v. induction n as [| n IH]; intros a v; cbn [load_le]; [lia |]. unfold load8.
  destruct (m1 !! a) as [b1 |] eqn:E1, (m2 !! a) as [b2 |] eqn:E2; try discriminate. cbn [deref obind].
  destruct (load_le n m1 (a + 1)) as [r1 | | |] eqn:L1, (load_le n m2 (a + 1)) as [r2 | | |] eqn:L2; try discriminate.
  cbn. intros [= <-] [= E] x Hx.
  pose proof (mem_ok_lookup _ _ _ H1 E1) as B1. pose proof (mem_ok_lookup _ _ _ H2 E2) as B2.
  unfold in_u in *. assert (b1 = b2 /\ r1 = r2) as [-> ->] by lia.
  destruct (decide (x = a)) as [-> |]; [congruence |]. apply (IH (a + 1) r2 L1 L2). lia.
Qed.

Lemma load_kind_stored z k m p v m' : sizes_ok z -> store_le (bytes_of z k) m p v = Ret m' ->
  load_kind z k m' p = Ret (conv z k v).
Proof.
  intros Hz H. unfold load_kind. rewrite (load_store_le _ _ _ _ _ H). cbn. f_equal.
  rewrite bytes_width by exact Hz. apply conv_of_mod; [exact Hz |].
  apply Z.mod_mod. pose proof (width_nonneg z k Hz). lia.
Qed.

(** The object of the type [k] at [p] determines its bytes. *)
Lemma load_kind_inj z k m1 m2 p v : sizes_ok z -> mem_ok m1 -> mem_ok m2 ->
  load_kind z k m1 p = Ret v -> load_kind z k m2 p = Ret v ->
  forall x, p <= x < p + sizeof z k -> m1 !! x = m2 !! x.
Proof.
  intros Hz H1 H2 L1 L2 x Hx. unfold load_kind in *.
  destruct (load_le _ m1 p) as [u1 | | |] eqn:E1; try discriminate L1.
  destruct (load_le _ m2 p) as [u2 | | |] eqn:E2; try discriminate L2.
  cbn in L1, L2. injection L1 as L1. injection L2 as L2.
  pose proof (load_le_range _ _ _ _ H1 E1) as R1. pose proof (load_le_range _ _ _ _ H2 E2) as R2.
  rewrite bytes_width in R1, R2 by exact Hz. unfold in_u in *.
  assert (u1 = u2) as ->.
  { rewrite <- (Z.mod_small u1 (2 ^ width z k)), <- (Z.mod_small u2 (2 ^ width z k)) by lia.
    apply conv_of_mod; [exact Hz | congruence]. }
  apply (load_le_inj (bytes_of z k) m1 m2 p u2); try assumption. unfold bytes_of. lia.
Qed.

Lemma checked_op_meets op k z m a b res : sizes_ok z -> mem_ok m -> accessible m res (sizeof z k) ->
  exists m', checked_op op k z m a b res = Ret (if in_kind z k (op a b) then 0 else 1, m') /\ mem_ok m' /\
    overflow_contract op k z m a b res (if in_kind z k (op a b) then 0 else 1) m'.
Proof.
  intros Hz Hm Ha. assert (Hn : Z.of_nat (bytes_of z k) = sizeof z k).
  { pose proof (bytes_width z Hz k). unfold width in *. lia. }
  rewrite <- Hn in Ha. destruct (store_le_bytes _ m res (conv z k (op a b)) Ha) as (m' & E & D & L).
  exists m'. unfold checked_op. rewrite E. split; [reflexivity |].
  split; [exact (store_le_ok _ _ _ _ _ Hm E) |]. split.
  - rewrite (load_kind_stored z k m res _ m' Hz E). f_equal. apply conv_id; [exact Hz | apply conv_range, Hz].
  - destruct (in_kind z k (op a b)) eqn:Hk.
    + apply conv_id in Hk; [| exact Hz]. rewrite Hk, Z.eqb_refl. reflexivity.
    + destruct (Z.eqb_spec (op a b) (conv z k (op a b))) as [He |]; [| reflexivity].
      symmetry in He. apply conv_id in He; [congruence | exact Hz].
  - split; [exact D |]. intros x Hx. rewrite L, decide_False by lia. reflexivity.
Qed.

Lemma overflow_contract_unique op k z m a b res r1 m1 r2 m2 : sizes_ok z -> mem_ok m1 -> mem_ok m2 ->
  overflow_contract op k z m a b res r1 m1 -> overflow_contract op k z m a b res r2 m2 -> r1 = r2 /\ m1 = m2.
Proof.
  intros Hz O1 O2 [W1 F1 [D1 A1]] [W2 F2 [D2 A2]]. split; [congruence |]. apply map_eq. intros x.
  destruct (decide (res <= x < res + sizeof z k)) as [Hx | Hx].
  - exact (load_kind_inj z k m1 m2 res _ Hz O1 O2 W1 W2 x Hx).
  - rewrite A1, A2 by exact Hx. reflexivity.
Qed.

(** ** Properties *)

(** C27.  The contracts of the built-in functions are consistent and determine them: for
    every type, operation and sizes of the types, exactly one flag and memory satisfy
    the contract, those of the wrapped operation; the flag is 1 exactly when the type
    cannot represent the exact result, which is the one stored otherwise; and what is
    stored differs from it by a multiple of the modulus. *)
Theorem gcc_builtins_exact (z : sizes) (f : builtin) (m : mem) (a b res : Z) :
  sizes_ok z -> In f gcc_builtins -> mem_ok m -> accessible m res (sizeof z (bi_kind f)) ->
  let v := bi_op f a b in
  exists r m', checked_op (bi_op f) (bi_kind f) z m a b res = Ret (r, m') /\
    (forall r2 m2, mem_ok m2 -> bi_contract f z m a b res r2 m2 <-> r2 = r /\ m2 = m') /\
    (r = 1 <-> ~ kmin z (bi_kind f) <= v <= kmax z (bi_kind f)) /\
    (r <> 1 -> r = 0 /\ load_kind z (bi_kind f) m' res = Ret v) /\
    exists q, load_kind z (bi_kind f) m' res = Ret (v + q * 2 ^ width z (bi_kind f)).
Proof.
  intros Hz Hf Hm Ha v.
  assert (Hc : bi_contract f = overflow_contract (bi_op f) (bi_kind f)).
  { repeat (destruct Hf as [<- | Hf]; [reflexivity |]). destruct Hf. }
  rewrite Hc. destruct (checked_op_meets (bi_op f) (bi_kind f) z m a b res Hz Hm Ha) as (m' & E & Hm' & H).
  eexists _, m'. split; [exact E |]. pose proof (res_wrapped _ _ _ _ _ _ _ _ _ H) as HW.
  pose proof (kind_range z (bi_kind f) v) as Hr. fold v in HW |- *.
  split; [| split; [| split]].
  - intros r2 m2 Hm2. split; [| intros [-> ->]; exact H].
    intros H2. exact (overflow_contract_unique _ _ _ _ _ _ _ _ _ _ _ Hz Hm2 Hm' H2 H).
  - destruct (in_kind z (bi_kind f) v); split; [lia | tauto | intros _ Hv; apply Hr in Hv; discriminate | reflexivity].
  - destruct (in_kind z (bi_kind f) v) eqn:Hk; [| lia]. intros _. split; [reflexivity |].
    apply conv_id in Hk; [| exact Hz]. rewrite HW, Hk. reflexivity.
  - destruct (conv_multiple z Hz (bi_kind f) v) as [q Hq]. exists q. rewrite HW, Hq. reflexivity.
Qed.

(** [INT_MAX + 1] on x86_64, stored at 100. *)
Lemma gcc_builtins_exact_witness : exists m',
  checked_op Z.add Int (msizes X86_64) (mem_fill 8 100 0) 2147483647 1 100 = Ret (1, m') /\
  exists q, load_kind (msizes X86_64) Int m' 100 = Ret (2147483648 + q * 2 ^ 32).
Proof.
  destruct (gcc_builtins_exact (msizes X86_64) (mk_builtin Z.add Int builtin_sadd_overflow)
    (mem_fill 8 100 0) 2147483647 1 100) as (r & m' & E & _ & Hr & _ & Hq).
  - vm_compute. repeat split; discriminate.
  - left. reflexivity.
  - apply mem_fill_ok. unfold in_u. lia.
  - apply mem_fill_accessible; vm_compute; discriminate.
  - cbn [bi_op bi_kind] in E, Hr, Hq. exists m'. assert (H1 : r = 1) by (apply Hr; vm_compute; intros [? H]; apply H; reflexivity).
    rewrite H1 in E. split; [exact E |]. destruct Hq as [q Hq]. exists q. exact Hq.
Defined.
