(* ===== verification/Bindings.v ===== *)
(** * src/libraries/utils/c_bindings.c

    The functions of C that the platform calls from OCaml: the total order of floats,
    the rounding modes, the parsing of single-precision numbers, and the comparison of
    strings.  A double is its 64-bit pattern; the functions of the C library that these
    functions call are parameters. *)

From S2P Require Import Prelude LibcString LibcStringSpec.
From Stdlib Require Import SpecFloat.

(** ** The total order of floats *)

(** [ux.i ^ (((uint64_t)(ux.i >> 63)) >> 1)]: [ux.i] is an [int64_t], the operation is
    on [uint64_t] and its result is stored as an [int64_t]. *)
Definition order_key (i : Z) : Z :=
  s64 (Z.lxor (u64 i) (Z.shiftr (u64 (Z.shiftr i 63)) 1)).

(** The arguments are bit patterns of 64 bits. *)
Definition float_compare_total (x y : Z) : Z :=
  let ux := s64 x in
  let uy := s64 y in
  if ux =? uy then 0
  else
    let ux := order_key ux in
    let uy := order_key uy in
    if ux <? uy then -1 else 1.

Definition float_is_negative (v : Z) : Z := s32 (Z.shiftr v 63).

(** The value of a pattern, of the format binary64. *)
Definition sign_bit (b : Z) : bool := 2 ^ 63 <=? b.
Definition magnitude (b : Z) : Z := b mod 2 ^ 63.
Definition of_magnitude (s : bool) (n : Z) : spec_float :=
  let e := n / 2 ^ 52 in
  let m := n mod 2 ^ 52 in
  if e =? 2047 then (if m =? 0 then S754_infinity s else S754_nan)
  else if e =? 0 then (if m =? 0 then S754_zero s else S754_finite s (Z.to_pos m) (-1074))
  else S754_finite s (Z.to_pos (2 ^ 52 + m)) (e - 1075).
Definition of_bits (b : Z) : spec_float := of_magnitude (sign_bit b) (magnitude b).

(** ** Rounding modes *)

(** [c_rounding_mode_t], the constructors of Floating_point.c_rounding_mode. *)
Inductive c_rounding_mode_t : Type := FE_ToNearest | FE_Upward | FE_Downward | FE_TowardZero.
#[export] Instance c_rounding_mode_eq_dec : EqDecision c_rounding_mode_t.
Proof. solve_decision. Defined.
Definition mode_val (r : c_rounding_mode_t) : Z :=
  match r with FE_ToNearest => 0 | FE_Upward => 1 | FE_Downward => 2 | FE_TowardZero => 3 end.

(** The result of a function of OCaml: a value or an exception. *)
Inductive ocaml (A : Type) : Type := Value (a : A) | Failure | Invalid_argument.
Arguments Value {A} a.
Arguments Failure {A}.
Arguments Invalid_argument {A}.

(** <fenv.h>: the environment and the codes of its modes. *)
Class Fenv : Type := {
  fenv : Type;
  fegetround : fenv -> Z;
  fesetround : fenv -> Z -> fenv;
  FE_TONEAREST : Z; FE_UPWARD : Z; FE_DOWNWARD : Z; FE_TOWARDZERO : Z;
  fe_distinct : NoDup [FE_TONEAREST; FE_UPWARD; FE_DOWNWARD; FE_TOWARDZERO];
  fe_set_get : forall s r, In r [FE_TONEAREST; FE_UPWARD; FE_DOWNWARD; FE_TOWARDZERO] ->
    fegetround (fesetround s r) = r
}.

Section Rounding.
Context `{FE : !Fenv}.

Definition set_round_downward (s : fenv) : fenv := fesetround s FE_DOWNWARD.
Definition set_round_upward (s : fenv) : fenv := fesetround s FE_UPWARD.
Definition set_round_nearest_even (s : fenv) : fenv := fesetround s FE_TONEAREST.
Definition set_round_toward_zero (s : fenv) : fenv := fesetround s FE_TOWARDZERO.

Definition get_rounding_mode (s : fenv) : ocaml Z :=
  let r := fegetround s in
  if r =? FE_TONEAREST then Value (mode_val FE_ToNearest)
  else if r =? FE_DOWNWARD then Value (mode_val FE_Downward)
  else if r =? FE_UPWARD then Value (mode_val FE_Upward)
  else if r =? FE_TOWARDZERO then Value (mode_val FE_TowardZero)
  else Failure.

Definition set_rounding_mode (s : fenv) (rm : Z) : ocaml unit * fenv :=
  if rm =? mode_val FE_ToNearest then (Value tt, fesetround s FE_TONEAREST)
  else if rm =? mode_val FE_Downward then (Value tt, fesetround s FE_DOWNWARD)
  else if rm =? mode_val FE_Upward then (Value tt, fesetround s FE_UPWARD)
  else if rm =? mode_val FE_TowardZero then (Value tt, fesetround s FE_TOWARDZERO)
  else (Invalid_argument, s).
End Rounding.

(** ** Strings *)

(** [memcmp] on the bytes of the strings at the two addresses. *)
Definition compare_strings (m : mem) (v1 v2 vlen : Z) : outcome bool :=
  let* r := memcmp m v1 v2 vlen in Ret (r =? 0).

Section Parsing.
(** [strtof]: the number at the start of a string and the length of its text. *)
Context {float : Type} (strtof : list Z -> float * nat).

(** A string of OCaml is the list of its bytes, terminated by a null byte. *)
Definition single_precision_of_string (s : list Z) : ocaml float :=
  let s_end := length s in
  let (f, _end) := strtof s in
  let c := nth _end (s ++ [0]) 0 in
  if negb (Nat.eqb _end s_end) then
    if negb (Nat.eqb (_end + 1) s_end) ||
       (negb (c =? 102) && negb (c =? 70) && negb (c =? 108) && (c =? 76))
    then Failure else Value f
  else Value f.
End Parsing.

(** [Val_long(((unsigned long)v) / sizeof(long))], with the tag of OCaml's integers
    taken off. *)
Definition address_of_value (v : Z) : Z := v / 8.

(** ** Lemmas *)

Lemma lxor_ones n : 0 <= n < 2 ^ 63 -> Z.lxor n (2 ^ 63 - 1) = 2 ^ 63 - 1 - n.
Proof.
  intros H. change (2 ^ 63 - 1) with (Z.ones 63).
  assert (E : Z.lxor n (Z.ones 63) + n = Z.ones 63).
  { rewrite Z.add_nocarry_lxor.
    - rewrite (Z.lxor_comm n), Z.lxor_assoc, Z.lxor_nilpotent, Z.lxor_0_r. reflexivity.
    - apply Z.bits_inj'. intros i Hi. rewrite Z.land_spec, Z.lxor_spec, Z.bits_0.
      destruct (Z.lt_ge_cases i 63).
      + rewrite Z.ones_spec_low by lia. destruct (Z.testbit n i); reflexivity.
      + rewrite <- (Z.mod_small n (2 ^ 63)), Z.mod_pow2_bits_high by lia. apply andb_false_r. }
  lia.
Qed.

Lemma sign_nocarry n : 0 <= n < 2 ^ 63 -> Z.land (2 ^ 63) n = 0.
Proof.
  intros H. apply Z.bits_inj'. intros i Hi. rewrite Z.land_spec, Z.bits_0.
  destruct (Z.lt_ge_cases i 63).
  - rewrite Z.pow2_bits_false by lia. reflexivity.
  - rewrite <- (Z.mod_small n (2 ^ 63)), Z.mod_pow2_bits_high by lia. apply andb_false_r.
Qed.

Lemma bits_split b : in_u 64 b -> b = (if sign_bit b then 2 ^ 63 else 0) + magnitude b /\ 0 <= magnitude b < 2 ^ 63.
Proof.
  unfold sign_bit, magnitude, in_u. intros H. split; [| apply Z.mod_pos_bound; lia].
  destruct (Z.leb_spec (2 ^ 63) b); dlia.
Qed.

(** The key counts the patterns up from the greatest negative magnitude. *)
Lemma order_key_value b : in_u 64 b ->
  order_key (s64 b) = if sign_bit b then - 1 - magnitude b else magnitude b.
Proof.
  intros H. destruct (bits_split b H) as [E Hm]. unfold order_key.
  destruct (sign_bit b).
  - assert (Es : s64 b = - 2 ^ 63 + magnitude b).
    { unfold s64. rewrite E at 1. replace (2 ^ 63 + magnitude b + 2 ^ 63) with (magnitude b + 1 * 2 ^ 64) by lia.
      rewrite Z.mod_add, Z.mod_small by lia. lia. }
    rewrite Es. replace (Z.shiftr (- 2 ^ 63 + magnitude b) 63) with (-1)
      by (rewrite Z.shiftr_div_pow2 by lia; dlia).
    replace (u64 (- 2 ^ 63 + magnitude b)) with (2 ^ 63 + magnitude b) by (unfold u64; dlia).
    change (Z.shiftr (u64 (-1)) 1) with (2 ^ 63 - 1).
    rewrite (Z.add_nocarry_lxor _ _ (sign_nocarry _ Hm)), Z.lxor_assoc, lxor_ones by exact Hm.
    rewrite <- Z.add_nocarry_lxor by (apply sign_nocarry; lia). unfold s64. dlia.
  - assert (Es : s64 b = magnitude b) by (unfold s64; rewrite E at 1; dlia).
    rewrite Es. rewrite (Z.shiftr_div_pow2 _ 63), Z.div_small by lia. change (Z.shiftr (u64 0) 1) with 0.
    rewrite Z.lxor_0_r. unfold u64, s64. dlia.
Qed.

Lemma key_inj b1 b2 : in_u 64 b1 -> in_u 64 b2 -> order_key (s64 b1) = order_key (s64 b2) -> b1 = b2.
Proof.
  intros H1 H2. rewrite !order_key_value by assumption.
  destruct (bits_split _ H1) as [E1 M1], (bits_split _ H2) as [E2 M2].
  destruct (sign_bit b1), (sign_bit b2); lia.
Qed.

(** The comparison of the keys. *)
Definition compare_z (a b : Z) : Z := match a ?= b with Eq => 0 | Lt => -1 | Gt => 1 end.
Lemma float_compare_keys x y : in_u 64 x -> in_u 64 y ->
  float_compare_total x y = compare_z (order_key (s64 x)) (order_key (s64 y)).
Proof.
  intros Hx Hy. unfold float_compare_total, compare_z.
  destruct (Z.eqb_spec (s64 x) (s64 y)) as [E | E]; [rewrite E, Z.compare_refl; reflexivity |].
  assert (order_key (s64 x) <> order_key (s64 y)) by (intros K; apply E; f_equal; exact (key_inj _ _ Hx Hy K)).
  destruct (Z.ltb_spec (order_key (s64 x)) (order_key (s64 y))), (Z.compare_spec (order_key (s64 x)) (order_key (s64 y))); lia.
Qed.

(** The exponent and the fraction of a magnitude, and their order. *)
Lemma magnitude_lex n1 n2 : n1 < n2 <-> n1 / 2 ^ 52 < n2 / 2 ^ 52 \/ n1 / 2 ^ 52 = n2 / 2 ^ 52 /\ n1 mod 2 ^ 52 < n2 mod 2 ^ 52.
Proof. dlia. Qed.

Lemma to_pos_compare a b : 0 < a -> 0 < b -> Pos.compare_cont Eq (Z.to_pos a) (Z.to_pos b) = (a ?= b).
Proof. intros Ha Hb. destruct a, b; try lia. reflexivity. Qed.

(** The order of two values of one sign is the order of their magnitudes. *)
Ltac magnitude_cases :=
  repeat match goal with
  | |- context [?a =? ?b] => destruct (Z.eqb_spec a b)
  end; cbn [SFcompare]; try discriminate; try lia;
  rewrite ?to_pos_compare by lia; intros [= <-];
  repeat match goal with |- context [?a ?= ?b] => destruct (Z.compare_spec a b) end; cbn [CompOpp]; try reflexivity; try lia.

Lemma SFcompare_magnitude s n1 n2 c : 0 <= n1 < 2 ^ 63 -> 0 <= n2 < 2 ^ 63 ->
  SFcompare (of_magnitude s n1) (of_magnitude s n2) = Some c ->
  c = if s then CompOpp (n1 ?= n2) else n1 ?= n2.
Proof.
  intros H1 H2.
  assert (E : forall n, n = 2 ^ 52 * (n / 2 ^ 52) + n mod 2 ^ 52) by (intros n; apply Z.div_mod; lia).
  assert (B : forall n, 0 <= n mod 2 ^ 52 < 2 ^ 52) by (intros n; apply Z.mod_pos_bound; lia).
  assert (D1 : 0 <= n1 / 2 ^ 52 < 2 ^ 11) by dlia. assert (D2 : 0 <= n2 / 2 ^ 52 < 2 ^ 11) by dlia.
  pose proof (E n1) as E1. pose proof (E n2) as E2. pose proof (B n1) as B1. pose proof (B n2) as B2.
  unfold of_magnitude. set (e1 := n1 / 2 ^ 52) in *. set (e2 := n2 / 2 ^ 52) in *.
  set (m1 := n1 mod 2 ^ 52) in *. set (m2 := n2 mod 2 ^ 52) in *. clearbody e1 e2 m1 m2. clear E B.
  remember (-1074) as emin eqn:Emin.
  destruct s; magnitude_cases.
Qed.

Lemma of_bits_sign b : of_bits b = of_magnitude (sign_bit b) (magnitude b).
Proof. reflexivity. Qed.

(** Values of different signs. *)
Lemma SFcompare_signs n1 n2 c : 0 <= n1 < 2 ^ 63 -> 0 <= n2 < 2 ^ 63 ->
  SFcompare (of_magnitude true n1) (of_magnitude false n2) = Some c ->
  c = Lt \/ c = Eq /\ n1 = 0 /\ n2 = 0.
Proof.
  intros H1 H2. unfold of_magnitude.
  repeat match goal with |- context [?a =? ?b] => destruct (Z.eqb_spec a b) end; cbn [SFcompare];
    try discriminate; intros [= <-]; auto.
  right. split; [reflexivity |]. split; dlia.
Qed.

Lemma SFcompare_swap f1 f2 c : SFcompare f1 f2 = Some c -> SFcompare f2 f1 = Some (CompOpp c).
Proof.
  destruct f1 as [s1 | s1 | | s1 m1 e1], f2 as [s2 | s2 | | s2 m2 e2]; cbn [SFcompare]; try discriminate;
    intros [= <-]; try (destruct s1); try (destruct s2); try reflexivity;
    rewrite (Z.compare_antisym e1 e2); change (Pos.compare_cont Eq m1 m2) with (Pos.compare m1 m2);
    change (Pos.compare_cont Eq m2 m1) with (Pos.compare m2 m1); rewrite (Pos.compare_antisym m1 m2);
    destruct (e1 ?= e2); try reflexivity; destruct (Pos.compare m1 m2); reflexivity.
Qed.

(** The total order refines the order of the numbers. *)
Lemma float_compare_numbers x y c : in_u 64 x -> in_u 64 y ->
  SFcompare (of_bits x) (of_bits y) = Some c ->
  match c with
  | Lt => float_compare_total x y = -1
  | Gt => float_compare_total x y = 1
  | Eq => x = y \/ (magnitude x = 0 /\ magnitude y = 0)
  end.
Proof.
  intros Hx Hy H. rewrite float_compare_keys, !order_key_value by assumption. unfold compare_z.
  destruct (bits_split _ Hx) as [Ex Mx], (bits_split _ Hy) as [Ey My].
  rewrite !of_bits_sign in H. destruct (sign_bit x), (sign_bit y).
  - apply SFcompare_magnitude in H; [| assumption..]. cbn in H. subst c.
    destruct (Z.compare_spec (magnitude x) (magnitude y)); cbn;
      first [left; lia | destruct (Z.compare_spec (- 1 - magnitude x) (- 1 - magnitude y)); lia].
  - apply SFcompare_signs in H; [| assumption..]. destruct H as [-> | (-> & ? & ?)]; [| right; auto].
    destruct (Z.compare_spec (- 1 - magnitude x) (magnitude y)); lia.
  - apply SFcompare_swap, SFcompare_signs in H; [| assumption..].
    destruct c; destruct H as [H | (H & ? & ?)]; try discriminate H; [right; auto |].
    destruct (Z.compare_spec (magnitude x) (- 1 - magnitude y)); lia.
  - apply SFcompare_magnitude in H; [| assumption..]. subst c.
    destruct (Z.compare_spec (magnitude x) (magnitude y)); [left; lia | reflexivity | reflexivity].
Qed.

(** Not-a-number lies outside the numbers, on the side of its sign. *)
Lemma nan_magnitude b : in_u 64 b -> of_bits b = S754_nan <-> 2047 * 2 ^ 52 < magnitude b.
Proof.
  intros H. destruct (bits_split _ H) as [_ M]. unfold of_bits, of_magnitude.
  repeat match goal with |- context [?a =? ?b] => destruct (Z.eqb_spec a b) end;
    (split; [try discriminate; intros _; dlia | intros K; try reflexivity; exfalso; dlia]).
Qed.

(** ** Theorems *)

(** Float_compare_total is a total order on the 64-bit patterns: it answers -1, 0
    or 1, and 0 for equal patterns only, it is antisymmetric and transitive; on
    numbers it is the order of their values, with the negative zero below the
    positive one, and not-a-number is below or above all numbers, by its sign. *)
Theorem float_order_total (x y z : Z) : in_u 64 x -> in_u 64 y -> in_u 64 z ->
  (In (float_compare_total x y) [-1; 0; 1] /\
   (float_compare_total x y = 0 <-> x = y) /\
   float_compare_total y x = - float_compare_total x y /\
   (float_compare_total x y <= 0 -> float_compare_total y z <= 0 -> float_compare_total x z <= 0)) /\
  (forall c, SFcompare (of_bits x) (of_bits y) = Some c ->
     match c with
     | Lt => float_compare_total x y = -1
     | Gt => float_compare_total x y = 1
     | Eq => x = y \/ (magnitude x = 0 /\ magnitude y = 0)
     end) /\
  (sign_bit x = true -> sign_bit y = false -> float_compare_total x y = -1) /\
  (of_bits x = S754_nan -> of_bits y <> S754_nan ->
     float_compare_total x y = if sign_bit x then -1 else 1).
Proof.
  intros Hx Hy Hz.
  assert (K : forall a b, compare_z a b = 0 /\ a = b \/ compare_z a b = -1 /\ a < b \/ compare_z a b = 1 /\ b < a).
  { intros a b. unfold compare_z. destruct (Z.compare_spec a b); auto. }
  split; [| split; [| split]].
  - rewrite !float_compare_keys by assumption.
    pose proof (key_inj x y Hx Hy) as Hinj.
    pose proof (K (order_key (s64 x)) (order_key (s64 y))). pose proof (K (order_key (s64 y)) (order_key (s64 x))).
    pose proof (K (order_key (s64 y)) (order_key (s64 z))). pose proof (K (order_key (s64 x)) (order_key (s64 z))).
    split; [cbn; lia |]. split; [| lia].
    split; [intros E; apply Hinj; lia | intros ->; lia].
  - intros c. apply float_compare_numbers; assumption.
  - intros Sx Sy. rewrite float_compare_keys, !order_key_value, Sx, Sy by assumption.
    destruct (bits_split _ Hx) as [_ ?], (bits_split _ Hy) as [_ ?].
    pose proof (K (- 1 - magnitude x) (magnitude y)). lia.
  - intros Nx Ny. rewrite nan_magnitude in Nx by assumption. rewrite nan_magnitude in Ny by assumption.
    rewrite float_compare_keys, !order_key_value by assumption.
    destruct (bits_split _ Hx) as [_ ?], (bits_split _ Hy) as [_ ?].
    pose proof (K (if sign_bit x then - 1 - magnitude x else magnitude x)
                  (if sign_bit y then - 1 - magnitude y else magnitude y)).
    destruct (sign_bit x), (sign_bit y); lia.
Qed.

(** -0.0, 1.0 and +infinity. *)
Lemma float_order_total_witness :
  in_u 64 (2 ^ 63) /\ SFcompare (of_bits (2 ^ 63)) (of_bits (1023 * 2 ^ 52)) = Some Lt /\
  float_compare_total (2 ^ 63) (1023 * 2 ^ 52) = -1.
Proof.
  assert (H : SFcompare (of_bits (2 ^ 63)) (of_bits (1023 * 2 ^ 52)) = Some Lt) by (vm_compute; reflexivity).
  split; [unfold in_u; lia |]. split; [exact H |].
  destruct (float_order_total (2 ^ 63) (1023 * 2 ^ 52) (2047 * 2 ^ 52)) as [_ [E _]];
    [unfold in_u; lia .. | exact (E Lt H)].
Defined.

(** The rounding modes of OCaml and of C correspond: a mode that is set is the one
    that is read, the four setters set the mode of their name, and another number is
    refused without a change of the environment. *)
Theorem rounding_modes_roundtrip `{FE : !Fenv} (s : fenv) :
  (forall r, exists s', set_rounding_mode s (mode_val r) = (Value tt, s') /\
     get_rounding_mode s' = Value (mode_val r)) /\
  (get_rounding_mode (set_round_nearest_even s) = Value (mode_val FE_ToNearest) /\
   get_rounding_mode (set_round_upward s) = Value (mode_val FE_Upward) /\
   get_rounding_mode (set_round_downward s) = Value (mode_val FE_Downward) /\
   get_rounding_mode (set_round_toward_zero s) = Value (mode_val FE_TowardZero)) /\
  (forall n, (forall r, n <> mode_val r) -> set_rounding_mode s n = (Invalid_argument, s)) /\
  (forall n, get_rounding_mode s = Value n ->
     exists s', set_rounding_mode s n = (Value tt, s') /\ get_rounding_mode s' = Value n).
Proof.
  assert (D : FE_TONEAREST <> FE_UPWARD /\ FE_TONEAREST <> FE_DOWNWARD /\ FE_TONEAREST <> FE_TOWARDZERO /\
              FE_UPWARD <> FE_DOWNWARD /\ FE_UPWARD <> FE_TOWARDZERO /\ FE_DOWNWARD <> FE_TOWARDZERO).
  { pose proof fe_distinct as D. rewrite !NoDup_cons, !not_elem_of_cons in D. intuition congruence. }
  destruct D as (D1 & D2 & D3 & D4 & D5 & D6).
  assert (G : get_rounding_mode (fesetround s FE_TONEAREST) = Value (mode_val FE_ToNearest) /\
              get_rounding_mode (fesetround s FE_UPWARD) = Value (mode_val FE_Upward) /\
              get_rounding_mode (fesetround s FE_DOWNWARD) = Value (mode_val FE_Downward) /\
              get_rounding_mode (fesetround s FE_TOWARDZERO) = Value (mode_val FE_TowardZero)).
  { unfold get_rounding_mode. rewrite !fe_set_get by (cbn; auto).
    repeat split; repeat (case_match; zbool; try congruence); reflexivity. }
  destruct G as (G1 & G2 & G3 & G4).
  assert (R : forall r, exists s', set_rounding_mode s (mode_val r) = (Value tt, s') /\
     get_rounding_mode s' = Value (mode_val r)).
  { intros r. destruct r; eexists; (split; [reflexivity | assumption]). }
  split; [exact R |]. split; [repeat split; assumption |]. split.
  - intros n Hn. unfold set_rounding_mode.
    pose proof (Hn FE_ToNearest). pose proof (Hn FE_Upward). pose proof (Hn FE_Downward). pose proof (Hn FE_TowardZero).
    repeat (case_match; zbool; try congruence).
  - intros n Hn.
    assert (exists r, n = mode_val r) as [r ->]; [| apply R].
    unfold get_rounding_mode in Hn. repeat case_match; try discriminate; injection Hn as <-;
      first [exact (ex_intro _ FE_ToNearest eq_refl) | exact (ex_intro _ FE_Upward eq_refl) |
             exact (ex_intro _ FE_Downward eq_refl) | exact (ex_intro _ FE_TowardZero eq_refl)].
Qed.

(** The codes of x86. *)
Definition x86_fenv : Fenv.
Proof.
  refine {| fenv := Z; fegetround := fun s => s; fesetround := fun _ r => r;
            FE_TONEAREST := 0; FE_DOWNWARD := 1024; FE_UPWARD := 2048; FE_TOWARDZERO := 3072 |}.
  - apply (bool_decide_unpack _). reflexivity.
  - reflexivity.
Defined.
Lemma rounding_modes_roundtrip_witness :
  exists s', @set_rounding_mode x86_fenv 0 1 = (Value tt, s') /\ @get_rounding_mode x86_fenv s' = Value 1.
Proof. destruct (@rounding_modes_roundtrip x86_fenv 0) as [H _]. exact (H FE_Upward). Defined.

(** The text that single_precision_of_string accepts after the number is one character
    other than [L]: a number with any suffix of one character is accepted, and the
    suffix [L] of C is refused. *)
Theorem single_precision_suffix {float : Type} (strtof : list Z -> float * nat) (s : list Z) :
  (snd (strtof s) <= length s)%nat ->
  single_precision_of_string strtof s =
    if bool_decide (snd (strtof s) = length s \/
                    (snd (strtof s) + 1 = length s)%nat /\ nth (snd (strtof s)) s 0 <> 76)
    then Value (fst (strtof s)) else Failure.
Proof.
  unfold single_precision_of_string. destruct (strtof s) as [f e]. cbn [fst snd]. intros He.
  destruct (Nat.eqb_spec e (length s)) as [-> | Hne]; cbn [negb].
  - rewrite bool_decide_eq_true_2 by auto. reflexivity.
  - rewrite app_nth1 by lia. destruct (Nat.eqb_spec (e + 1) (length s)) as [E | E]; cbn [negb orb].
    + destruct (Z.eqb_spec (nth e s 0) 76) as [-> | H].
      * cbn. rewrite bool_decide_eq_false_2; [reflexivity | intros [K | [_ K]]; congruence].
      * rewrite andb_false_r. rewrite bool_decide_eq_true_2 by auto. reflexivity.
    + rewrite bool_decide_eq_false_2; [reflexivity | intros [K | [K _]]; contradiction].
Qed.
Definition one_digit (s : list Z) : Z * nat := (1, 1%nat).
Definition one_x : list Z := [49; 120].
Lemma single_precision_suffix_witness :
  (snd (one_digit one_x) <= length one_x)%nat /\ single_precision_of_string one_digit one_x = Value 1.
Proof.
  split; [cbn; lia |].
  rewrite (single_precision_suffix one_digit one_x) by (cbn; lia). reflexivity.
Defined.
