(* ===== verification/Printf.v ===== *)
(** * e_acsl_printf.h: the printf of the run-time library

    The conversions write into a buffer in byte memory; [_format] reads the format
    from memory, takes its variadic arguments from a list and hands each character
    to a [putcf].  The state [io] holds the memory, the [write] system calls that
    were made, and the variable [s] of [rtl_sprintf]. *)

From Stdlib Require Import SpecFloat.
From S2P Require Import Prelude LibcString LibcStdlib Digits.

(** ** Numbers to characters *)

(** [while (num/d >= base) d *= base], on unsigned integers that [wrap] at their
    width. *)
Fixpoint scale_loop (fuel : nat) (wrap : Z -> Z) (num base d : Z) : outcome Z :=
  match fuel with
  | O => NoFuel
  | S fuel =>
      if d =? 0 then Fault
      else if base <=? num / d then scale_loop fuel wrap num base (wrap (d * base)) else Ret d
  end.

(** [while (d != 0) ...]: the digits from the position [bf] on; the memory and the
    position at the end.  [n] counts the characters written. *)
Fixpoint digits_loop (fuel : nat) (m : mem) (num base : Z) (uc : bool) (bf n d : Z) : outcome (mem * Z) :=
  match fuel with
  | O => NoFuel
  | S fuel =>
      if d =? 0 then Ret (m, bf)
      else
        let dgt := s32 (num / d) in
        let num := num mod d in
        let d := d / base in
        if negb (n =? 0) || (0 <? dgt) || (d =? 0) then
          let* m := store8 m bf (dgt + (if dgt <? 10 then 48 else (if uc then 65 else 97) - 10)) in
          digits_loop fuel m num base uc (bf + 1) (n + 1) d
        else digits_loop fuel m num base uc bf n d
  end.

(** Iterations of the two loops: one per digit, of which there are at most 64. *)
Definition digits_fuel : nat := 66.

Definition uli2a (m : mem) (num base : Z) (uc : bool) (bf : Z) : outcome mem :=
  let* d := scale_loop digits_fuel u64 num base 1 in
  let* (m, bf) := digits_loop digits_fuel m num base uc bf 0 d in
  store8 m bf 0.

Definition ui2a (m : mem) (num base : Z) (uc : bool) (bf : Z) : outcome mem :=
  let* d := scale_loop digits_fuel u32 num base 1 in
  let* (m, bf) := digits_loop digits_fuel m num base uc bf 0 d in
  store8 m bf 0.

(** The loops of [addr2a]; [digits] is an [unsigned int]. *)
Fixpoint addr2a_scale (fuel : nat) (addr d digits : Z) : outcome (Z * Z) :=
  match fuel with
  | O => NoFuel
  | S fuel =>
      if d =? 0 then Fault
      else if 10 <=? addr / d then addr2a_scale fuel addr (u64 (d * 10)) (u32 (digits + 1))
      else Ret (d, digits)
  end.
Fixpoint addr2a_digits (fuel : nat) (m : mem) (addr bf n d digits : Z) : outcome (mem * Z) :=
  match fuel with
  | O => NoFuel
  | S fuel =>
      if d =? 0 then Ret (m, bf)
      else
        let dgt := s32 (addr / d) in
        let addr := addr mod d in
        let d := d / 10 in
        let* (m, bf, n) :=
          if negb (n =? 0) || (0 <? dgt) || (d =? 0) then
            let* m := store8 m bf (dgt + (if dgt <? 10 then 48 else 97 - 10)) in
            Ret (m, bf + 1, n + 1)
          else Ret (m, bf, n) in
        let digits := u32 (digits - 1) in
        let* (m, bf) :=
          if (digits mod 5 =? 0) && negb (d =? 0) then
            let* m := store8 m bf 45 in Ret (m, bf + 1)
          else Ret (m, bf) in
        addr2a_digits fuel m addr bf n d digits
  end.
Definition addr2a (m : mem) (addr bf : Z) : outcome mem :=
  let* m := store8 m bf 48 in
  let* m := store8 m (bf + 1) 120 in
  let* (d, digits) := addr2a_scale digits_fuel addr 1 1 in
  let* (m, bf) := addr2a_digits digits_fuel m addr (bf + 2) 0 d digits in
  store8 m bf 0.

Definition ptr2a (m : mem) (p bf : Z) : outcome mem :=
  let* m := store8 m bf 48 in
  let* m := store8 m (bf + 1) 120 in
  uli2a m (u64 p) 16 false (bf + 2).

(** [num = -num] overflows for the least value of the type. *)
Definition li2a (m : mem) (num bf : Z) : outcome mem :=
  if num <? 0 then
    if num =? - 2 ^ 63 then Fault
    else let* m := store8 m bf 45 in uli2a m (u64 (- num)) 10 false (bf + 1)
  else uli2a m (u64 num) 10 false bf.

Definition i2a (m : mem) (num bf : Z) : outcome mem :=
  if num <? 0 then
    let* num := int_range (- num) in
    let* m := store8 m bf 45 in ui2a m (u32 num) 10 false (bf + 1)
  else ui2a m (u32 num) 10 false bf.

(** The bit loops: [bit i] is the digit of index [i], a separator follows every
    [group] of them. *)
Fixpoint bits_up (n : nat) (bit : Z -> outcome Z) (group size : Z) (m : mem) (i bf : Z)
  : outcome (mem * Z) :=
  match n with
  | O => Ret (m, bf)
  | S n =>
      let* b := bit i in
      let* m := store8 m bf (48 + b) in
      let bf := bf + 1 in
      let* (m, bf) :=
        if negb (i =? 0) && (i + 1 <? size) && ((i + 1) mod group =? 0) then
          let* m := store8 m bf 32 in Ret (m, bf + 1)
        else Ret (m, bf) in
      bits_up n bit group size m (i + 1) bf
  end.
Fixpoint bits_down (n : nat) (bit : Z -> outcome Z) (size : Z) (m : mem) (bf : Z)
  : outcome (mem * Z) :=
  match n with
  | O => Ret (m, bf)
  | S k =>
      let i := Z.of_nat k in
      let* b := bit i in
      let* m := store8 m bf (48 + b) in
      let bf := bf + 1 in
      let* (m, bf) :=
        if negb (i =? 0) && (i + 1 <? size) && (i mod 4 =? 0) then
          let* m := store8 m bf 32 in Ret (m, bf + 1)
        else Ret (m, bf) in
      bits_down k bit size m bf
  end.

Definition bits2a (m : mem) (v size bf : Z) (l2r : bool) : outcome mem :=
  let bit i := if i <? 64 then Ret (Z.land (Z.shiftr v i) 1) else Fault in
  let* (m, bf) :=
    if l2r then bits_up (Z.to_nat size) bit 8 size m 0 bf
    else bits_down (Z.to_nat size) bit size m bf in
  store8 m bf 0.

(** The bytes are read from the memory that the loop writes to. *)
Fixpoint pbits_up (n : nat) (p size : Z) (m : mem) (i bf : Z) : outcome (mem * Z) :=
  match n with
  | O => Ret (m, bf)
  | S n =>
      let* c := load8 m (p + i / 8) in
      let* m := store8 m bf (48 + Z.land (Z.shiftr (s8 c) (i mod 8)) 1) in
      let bf := bf + 1 in
      let* (m, bf) :=
        if negb (i =? 0) && (i + 1 <? size) && ((i + 1) mod 4 =? 0) then
          let* m := store8 m bf 32 in Ret (m, bf + 1)
        else Ret (m, bf) in
      pbits_up n p size m (i + 1) bf
  end.
Fixpoint pbits_down (n : nat) (p size : Z) (m : mem) (bf : Z) : outcome (mem * Z) :=
  match n with
  | O => Ret (m, bf)
  | S k =>
      let i := Z.of_nat k in
      let* c := load8 m (p + i / 8) in
      let* m := store8 m bf (48 + Z.land (Z.shiftr (s8 c) (i mod 8)) 1) in
      let bf := bf + 1 in
      let* (m, bf) :=
        if negb (i =? 0) && (i + 1 <? size) && (i mod 4 =? 0) then
          let* m := store8 m bf 32 in Ret (m, bf + 1)
        else Ret (m, bf) in
      pbits_down k p size m bf
  end.
Definition pbits2a (m : mem) (p size bf : Z) (l2r : bool) : outcome mem :=
  let* (m, bf) :=
    if l2r then pbits_up (Z.to_nat size) p size m 0 bf
    else pbits_down (Z.to_nat size) p size m bf in
  store8 m bf 0.

(** ** Characters to numbers *)

Definition a2d (ch : Z) : Z :=
  if (48 <=? ch) && (ch <=? 57) then ch - 48
  else if (97 <=? ch) && (ch <=? 102) then ch - 97 + 10
  else if (65 <=? ch) && (ch <=? 70) then ch - 65 + 10
  else -1.

(** The character after the number, the position after it, and the number. *)
Fixpoint a2i_loop (fuel : nat) (m : mem) (ch p base num : Z) : outcome (Z * Z * Z) :=
  match fuel with
  | O => NoFuel
  | S fuel =>
      let digit := a2d ch in
      if 0 <=? digit then
        if base <? digit then Ret (ch, p, num)
        else
          let* num := int_range (num * base + digit) in
          let* ch := load8 m p in
          a2i_loop fuel m ch (p + 1) base num
      else Ret (ch, p, num)
  end.
Definition a2i (m : mem) (ch src base : Z) : outcome (Z * Z * Z) :=
  a2i_loop (S (steps m)) m ch src base 0.

(** ** Output *)

Record io : Type := mk_io {
  io_mem : mem;
  io_out : list (Z * list Z);   (* calls of [write]: descriptor and bytes *)
  io_ptr : Z                    (* [s] of [rtl_sprintf] *)
}.
Definition putcf : Type := io -> Z -> outcome io.

Definition sys_write (s : io) (fd : Z) (l : list Z) : io :=
  mk_io (io_mem s) (io_out s ++ [(fd, l)]) (io_ptr s).

Definition _charc_stdout : putcf := fun s c => Ret (sys_write s 1 [u8 c]).
Definition _charc_stderr : putcf := fun s c => Ret (sys_write s 2 [u8 c]).
Definition _charc_file (p : Z) : putcf := fun s c => Ret (sys_write s p [u8 c]).
Definition _charc_literal (p : Z) : putcf := fun s c =>
  Ret (sys_write s p
    (if c =? 13 then [92; 114]
     else if c =? 12 then [92; 102]
     else if c =? 8 then [92; 98]
     else if c =? 7 then [92; 97]
     else if c =? 10 then [92; 110]
     else if c =? 9 then [92; 116]
     else if c =? 0 then [92; 48]
     else [u8 c])).
Definition putcp : putcf := fun s c =>
  let* m := store8 (io_mem s) (io_ptr s) c in
  Ret (mk_io m (io_out s) (io_ptr s + 1)).

(** [while ( *p++ && n > 0) n--]. *)
Fixpoint putchw_width (fuel : nat) (m : mem) (p n : Z) : outcome Z :=
  match fuel with
  | O => NoFuel
  | S fuel =>
      let* c := load8 m p in
      if negb (c =? 0) && (0 <? n) then putchw_width fuel m (p + 1) (n - 1) else Ret n
  end.
(** [while ((ch = *bf++)) putf(putp, ch)]. *)
Fixpoint putchw_chars (fuel : nat) (putf : putcf) (s : io) (bf : Z) : outcome io :=
  match fuel with
  | O => NoFuel
  | S fuel =>
      let* ch := load8 (io_mem s) bf in
      if negb (ch =? 0) then let* s := putf s ch in putchw_chars fuel putf s (bf + 1)
      else Ret s
  end.
Definition putchw (putf : putcf) (s : io) (n : Z) (z : bool) (bf : Z) : outcome io :=
  let fc := if z then 48 else 32 in
  let* n := putchw_width (steps (io_mem s)) (io_mem s) bf n in
  let* s := for_range 0 n (fun _ s => putf s fc) s in
  putchw_chars (steps (io_mem s)) putf s bf.

(** ** Formats *)

(** A variadic argument: an integer or a pointer by its 32 or 64 bits, or a
    [double]; [va_arg] with a type of another size is undefined. *)
Inductive va_val : Type := V32 (v : Z) | V64 (v : Z) | VDouble (d : spec_float).

Definition va_arg32 (va : list va_val) : outcome (Z * list va_val) :=
  match va with V32 v :: va => Ret (u32 v, va) | _ => Fault end.
Definition va_arg64 (va : list va_val) : outcome (Z * list va_val) :=
  match va with V64 v :: va => Ret (u64 v, va) | _ => Fault end.
Definition va_arg_double (va : list va_val) : outcome (spec_float * list va_val) :=
  match va with VDouble d :: va => Ret (d, va) | _ => Fault end.

(** Arithmetic on [double]. *)
Definition double_of_int (n : Z) : spec_float := binary_normalize 53 1024 n 0 false.
Definition double_sub : spec_float -> spec_float -> spec_float := SFsub 53 1024.
Definition double_mul : spec_float -> spec_float -> spec_float := SFmul 53 1024.
Definition int_of_double (d : spec_float) : outcome Z :=
  match d with
  | S754_zero _ => Ret 0
  | S754_finite s m e =>
      let z := if 0 <=? e then Z.pos m * 2 ^ e else Z.pos m / 2 ^ (- e) in
      int_range (if s then - z else z)
  | _ => Fault
  end.

Definition set_mem (s : io) (m : mem) : io := mk_io m (io_out s) (io_ptr s).

Section Format.
(** The address of the array [bf] of [_format], and the [putf] it is given. *)
Context (bf : Z) (putf : putcf).

(** A conversion into [bf] that is then printed. *)
Definition convert (s : io) (c : outcome mem) (w : Z) (lz : bool) : outcome io :=
  let* m := c in putchw putf (set_mem s m) w lz bf.

(** The switch of [_format]: the conversion [ch] with the width [w], the flags [lz]
    and [lng]. *)
Definition conversion (s : io) (ch w : Z) (lz lng : bool) (va : list va_val)
  : outcome (io * list va_val) :=
  let m := io_mem s in
  if ch =? 0 then Ret (s, va)
  else if ch =? 117 (* u *) then
    let* (num, va) := if lng then va_arg64 va else va_arg32 va in
    let* s := convert s (if lng then uli2a m num 10 false bf else ui2a m num 10 false bf) w lz in
    Ret (s, va)
  else if ch =? 100 (* d *) then
    let* (num, va) := if lng then va_arg64 va else va_arg32 va in
    let* s := convert s (if lng then li2a m (s64 num) bf else i2a m (s32 num) bf) w lz in
    Ret (s, va)
  else if ch =? 112 (* p *) then
    let* (p, va) := va_arg64 va in
    let* s := convert s (ptr2a m p bf) w lz in Ret (s, va)
  else if ch =? 97 (* a *) then
    let* (p, va) := va_arg64 va in
    let* s := convert s (addr2a m p bf) w lz in Ret (s, va)
  else if (ch =? 98) || (ch =? 66) (* b, B *) then
    let* (v, va) := va_arg64 va in
    let size := if 64 <? w then 64 else if negb (w =? 0) then w else 8 in
    let* s := convert s (bits2a m (s64 v) size bf (ch =? 98)) 0 false in Ret (s, va)
  else if (ch =? 118) || (ch =? 86) (* v, V *) then
    let* (p, va) := va_arg64 va in
    let size := if negb (w =? 0) then w else 8 in
    let* s := convert s (pbits2a m p size bf (ch =? 118)) 0 false in Ret (s, va)
  else if (ch =? 120) || (ch =? 88) (* x, X *) then
    let* (num, va) := if lng then va_arg64 va else va_arg32 va in
    let uc := ch =? 88 in
    let* s := convert s (if lng then uli2a m num 16 uc bf else ui2a m num 16 uc bf) w lz in
    Ret (s, va)
  else if ch =? 102 (* f *) then
    let* (num, va) := va_arg_double va in
    let* ord := int_of_double num in
    let* s := convert s (i2a m ord bf) w lz in
    let* s := putf s 46 in
    let num := double_sub num (double_of_int ord) in
    let num := double_mul num (double_of_int 1000) in
    let* ord := int_of_double num in
    let* s := convert s (i2a (io_mem s) ord bf) w lz in
    Ret (s, va)
  else if ch =? 99 (* c *) then
    let* (c, va) := va_arg32 va in
    let* s := putf s (s8 c) in Ret (s, va)
  else if ch =? 115 (* s *) then
    let* (p, va) := va_arg64 va in
    let* s := putchw putf s w false p in Ret (s, va)
  else if ch =? 37 (* % *) then
    let* s := putf s ch in Ret (s, va)
  else Ret (s, va).

(** What follows a percent sign at [fmt - 1]: the state, the position after the
    directive and the remaining arguments. *)
Definition directive (s : io) (fmt : Z) (va : list va_val) : outcome (io * Z * list va_val) :=
  let m := io_mem s in
  let* ch := load8 m fmt in
  let fmt := fmt + 1 in
  let* (ch, fmt, lz) :=
    if ch =? 48 then let* ch := load8 m fmt in Ret (ch, fmt + 1, true) else Ret (ch, fmt, false) in
  let* (ch, fmt, w) :=
    if (48 <=? ch) && (ch <=? 57) then a2i m ch fmt 10 else Ret (ch, fmt, 0) in
  let* (ch, fmt, lng) :=
    if ch =? 108 then let* ch := load8 m fmt in Ret (ch, fmt + 1, true) else Ret (ch, fmt, false) in
  let* (s, va) := conversion s ch w lz lng va in
  Ret (s, fmt, va).

Fixpoint _format_loop (fuel : nat) (s : io) (fmt : Z) (va : list va_val) : outcome io :=
  match fuel with
  | O => NoFuel
  | S fuel =>
      let* ch := load8 (io_mem s) fmt in
      let fmt := fmt + 1 in
      if ch =? 0 then Ret s
      else if negb (ch =? 37) then
        let* s := putf s ch in _format_loop fuel s fmt va
      else
        let* (s, fmt, va) := directive s fmt va in
        _format_loop fuel s fmt va
  end.
Definition _format (s : io) (fmt : Z) (va : list va_val) : outcome io :=
  _format_loop (steps (io_mem s)) s fmt va.
End Format.

(** ** The printing functions *)

Definition rtl_printf (bf : Z) (s : io) (fmt : Z) (va : list va_val) : outcome (Z * io) :=
  let* s := _format bf _charc_stdout s fmt va in Ret (1, s).
Definition rtl_eprintf (bf : Z) (s : io) (fmt : Z) (va : list va_val) : outcome (Z * io) :=
  let* s := _format bf _charc_stderr s fmt va in Ret (1, s).
Definition rtl_dprintf (bf : Z) (s : io) (fd fmt : Z) (va : list va_val) : outcome (Z * io) :=
  let* s := _format bf (_charc_file (u64 fd)) s fmt va in Ret (1, s).
Definition rtl_sprintf (bf : Z) (s : io) (str fmt : Z) (va : list va_val) : outcome (Z * io) :=
  let* s := _format bf putcp (mk_io (io_mem s) (io_out s) str) fmt va in
  let* s := putcp s 0 in
  Ret (1, s).
