(* ===== verification/PrintfSpec.v ===== *)
(** * What the conversions of e_acsl_printf.h print *)

From S2P Require Import Prelude LibcString LibcStringSpec LibcStdlib LibcStdlibTheorems Digits Printf.

(** ** Unsigned numbers *)

(** A power of the base, found without overflow. *)
Lemma scale_loop_spec fuel w num b j : 0 < w <= 64 -> 2 <= b -> 0 <= num < 2 ^ w -> (0 <= j) ->
  (j = 0 \/ b ^ j <= num) -> 64 < j + Z.of_nat fuel ->
  exists k, scale_loop fuel (fun z => z mod 2 ^ w) num b (b ^ j) = Ret (b ^ k) /\ 0 <= k <= 64 /\
    num / b ^ k < b /\ (k = 0 \/ b ^ k <= num).
Proof.
  intros Hw Hb Hnum Hj Hinv. revert j Hj Hinv. induction fuel as [|fuel IH]; intros j Hj Hinv Hf.
  { exfalso. assert (2 ^ 64 <= b ^ j).
    { transitivity (2 ^ j); [apply Z.pow_le_mono_r; lia|apply Z.pow_le_mono_l; lia]. }
    assert (2 ^ w <= 2 ^ 64) by (apply Z.pow_le_mono_r; lia). destruct Hinv; lia. }
  cbn [scale_loop]. pose proof (Z.pow_pos_nonneg b j ltac:(lia) Hj) as Hp.
  rewrite (proj2 (Z.eqb_neq (b ^ j) 0)) by lia. destruct (Z.leb_spec b (num / b ^ j)) as [Hle|Hlt].
  - assert (b ^ j * b <= num).
    { pose proof (Z.mul_div_le num (b ^ j) ltac:(lia)). nia. }
    rewrite Z.mod_small by nia. replace (b ^ j * b) with (b ^ (j + 1)) by (rewrite Z.pow_add_r by lia; lia).
    apply IH; [lia| |lia]. right. rewrite Z.pow_add_r by lia. lia.
  - exists j. split; [done|]. split; [split; [done|]|done].
    destruct Hinv as [->|Hinv]; [lia|]. apply Z.nlt_ge. intros Hj64.
    assert (2 ^ 64 <= b ^ j).
    { transitivity (2 ^ j); [apply Z.pow_le_mono_r; lia|apply Z.pow_le_mono_l; lia]. }
    assert (2 ^ w <= 2 ^ 64) by (apply Z.pow_le_mono_r; lia). lia.
Qed.

(** The digits that are written once the first one is. *)
Lemma digits_loop_spec fuel m num b uc bf n k : 2 <= b <= 16 -> 0 <= num < b ^ (Z.of_nat k + 1) ->
  0 <= n -> (n <> 0 \/ k = 0%nat \/ b ^ Z.of_nat k <= num) -> (k + 1 < fuel)%nat ->
  exists ds, length ds = S k /\ Forall (fun d => 0 <= d < b) ds /\ num_val b 0 ds = num /\
    (accessible m bf (Z.of_nat (S k)) ->
     digits_loop fuel m num b uc bf n (b ^ Z.of_nat k) =
       Ret (write m bf (map (digit_char uc) ds), bf + Z.of_nat (S k))).
Proof.
  intros Hb. revert k m num bf n. induction fuel as [|fuel IH]; intros k m num bf n Hnum Hn Hemit Hf; [lia|].
  pose proof (Z.pow_pos_nonneg b (Z.of_nat k) ltac:(lia) ltac:(lia)) as Hp.
  rewrite Z.pow_add_r, Z.pow_1_r in Hnum by lia.
  set (d := num / b ^ Z.of_nat k).
  assert (0 <= d < b) as Hd by (split; [apply Z.div_pos; lia|apply Z.div_lt_upper_bound; lia]).
  assert (s32 d = d) as Es by (apply s32_small; lia).
  assert (negb (n =? 0) || (0 <? d) || (b ^ Z.of_nat k / b =? 0) = true) as Hc.
  { rewrite !orb_true_iff, negb_true_iff, Z.eqb_neq, Z.ltb_lt, Z.eqb_eq.
    destruct Hemit as [?|[->|Hle]]; [auto|right; change (b ^ Z.of_nat 0) with 1; apply Z.div_small; lia|].
    left; right. apply Z.div_str_pos. lia. }
  assert (forall m, accessible m bf 1 -> store8 m bf (d + (if d <? 10 then 48 else (if uc then 65 else 97) - 10)) =
    Ret (<[bf := digit_char uc d]> m)) as Hst.
  { intros m0 H0. rewrite store8_spec by (apply H0; lia). fold (digit_char uc d).
    rewrite u8_small; [done|]. pose proof (digit_char_range uc d ltac:(lia)). unfold in_u. lia. }
  destruct k as [|k].
  - exists [d]. split_and!; [done|by constructor; [|constructor]| |].
    + cbn [num_val]. unfold d. change (b ^ Z.of_nat 0) with 1. rewrite Z.div_1_r. lia.
    + intros Ha. cbn [digits_loop]. rewrite (proj2 (Z.eqb_neq _ 0)) by lia. fold d. rewrite Es, Hc, Hst by done.
      cbn [obind]. change (b ^ Z.of_nat 0) with 1. rewrite (Z.div_small 1 b) by lia.
      destruct fuel as [|fuel]; [lia|]. cbn. done.
  - assert (b ^ Z.of_nat (S k) = b ^ Z.of_nat k * b) as Epow
      by (rewrite Nat2Z.inj_succ, Z.pow_succ_r by lia; lia).
    assert (b ^ Z.of_nat (S k) / b = b ^ Z.of_nat k) as Ediv by (rewrite Epow; apply Z.div_mul; lia).
    pose proof (Z.mod_pos_bound num (b ^ Z.of_nat (S k)) Hp) as Hmod.
    destruct (IH k (<[bf := digit_char uc d]> m) (num mod b ^ Z.of_nat (S k)) (bf + 1) (n + 1))
      as (ds & Hlen & Hds & Hv & E).
    + rewrite Z.pow_add_r, Z.pow_1_r, <- Epow by lia. lia.
    + lia.
    + left. lia.
    + lia.
    + exists (d :: ds). split_and!; [simpl; lia|by constructor| |].
      * cbn [num_val]. rewrite num_val_acc, Hv, Hlen. unfold d.
        pose proof (Z.div_mod num (b ^ Z.of_nat (S k)) ltac:(lia)). lia.
      * intros Ha. cbn [digits_loop]. rewrite (proj2 (Z.eqb_neq _ 0)) by lia. fold d.
        rewrite Es, Hc, Hst by (eapply accessible_sub; [exact Ha|lia..]). cbn [obind].
        rewrite Ediv, E; [cbn [map write]; do 2 f_equal; lia|].
        apply accessible_insert. eapply accessible_sub; [exact Ha|lia..].
Qed.

(** The characters of the numeral of [n]. *)
Definition unsigned_chars (b : Z) (uc : bool) (n : Z) (cs : list Z) : Prop :=
  exists ds, numeral b n ds /\ cs = map (digit_char uc) ds.

Section Unsigned.
Context (w : Z) (Hw : 0 < w <= 64).

Lemma to_chars_spec m num b uc bf : 2 <= b <= 16 -> 0 <= num < 2 ^ w ->
  exists cs, unsigned_chars b uc num cs /\ (0 < length cs <= 65)%nat /\
    Forall (fun c => 0 < c < 256) cs /\
    (accessible m bf (Z.of_nat (length cs) + 1) ->
     (let* d := scale_loop digits_fuel (fun z => z mod 2 ^ w) num b 1 in
      let* (m, bf) := digits_loop digits_fuel m num b uc bf 0 d in
      store8 m bf 0) = Ret (write m bf (cs ++ [0]))).
Proof using Hw.
  intros Hb Hnum.
  destruct (scale_loop_spec digits_fuel w num b 0) as (k & Es & Hk & Hlt & Hle);
    [lia..|by left|unfold digits_fuel; lia|]. rewrite Z.pow_0_r in Es.
  pose proof (Z.pow_pos_nonneg b k ltac:(lia) ltac:(lia)) as Hp.
  destruct (digits_loop_spec digits_fuel m num b uc bf 0 (Z.to_nat k)) as (ds & Hlen & Hds & Hv & E); [done|..].
  - rewrite Z2Nat.id, Z.pow_add_r, Z.pow_1_r by lia.
    pose proof (Z.mul_succ_div_gt num (b ^ k) ltac:(lia)). nia.
  - lia.
  - right. rewrite Z2Nat.id by lia. destruct Hle as [->|]; [by left|by right].
  - unfold digits_fuel. lia.
  - exists (map (digit_char uc) ds). rewrite length_map, Hlen. split_and!; [|lia|lia| |].
    + exists ds. split; [|done]. split_and!; [done|done|by intros ->|]. intros ds' ->.
      apply Forall_cons in Hds as [_ Hds']. cbn [num_val length] in *. injection Hlen as Hlen.
      destruct ds' as [|x ds']; [done|exfalso]. pose proof (num_val_bound b _ ltac:(lia) Hds') as Hb'.
      rewrite Hlen, Z2Nat.id in Hb' by lia. rewrite Z.mul_0_l, Z.add_0_l in Hv. simpl in Hlen.
      destruct Hle as [->|Hle]; [simpl in Hlen; lia|]. lia.
    + apply Forall_map, (Forall_impl _ _ _ Hds). intros d Hd. apply digit_char_range. lia.
    + intros Ha. rewrite Es. cbn [obind]. rewrite Z2Nat.id in E by lia.
      rewrite E by (eapply accessible_sub; [exact Ha|lia..]). cbn [obind].
      rewrite write_app, length_map, Hlen. cbn [write]. apply (store8_spec _ _ 0).
      rewrite write_frame by (rewrite length_map, Hlen; lia). apply Ha. lia.
Qed.
End Unsigned.

Lemma uli2a_spec m num b uc bf : 2 <= b <= 16 -> in_u 64 num -> exists cs,
  unsigned_chars b uc num cs /\ (0 < length cs <= 65)%nat /\ Forall (fun c => 0 < c < 256) cs /\
  (accessible m bf (Z.of_nat (length cs) + 1) -> uli2a m num b uc bf = Ret (write m bf (cs ++ [0]))).
Proof. intros. by apply (to_chars_spec 64). Qed.

Lemma ui2a_spec m num b uc bf : 2 <= b <= 16 -> in_u 32 num -> exists cs,
  unsigned_chars b uc num cs /\ (0 < length cs <= 65)%nat /\ Forall (fun c => 0 < c < 256) cs /\
  (accessible m bf (Z.of_nat (length cs) + 1) -> ui2a m num b uc bf = Ret (write m bf (cs ++ [0]))).
Proof. intros. by apply (to_chars_spec 32). Qed.

(** ** Signed numbers and pointers *)

Definition signed_chars (n : Z) (cs : list Z) : Prop :=
  if n <? 0 then exists cs', unsigned_chars 10 false (- n) cs' /\ cs = 45 :: cs'
  else unsigned_chars 10 false n cs.
Definition pointer_chars (p : Z) (cs : list Z) : Prop :=
  exists cs', unsigned_chars 16 false p cs' /\ cs = 48 :: 120 :: cs'.

Lemma unsigned_chars_unique b uc n cs cs' : 1 < b ->
  unsigned_chars b uc n cs -> unsigned_chars b uc n cs' -> cs = cs'.
Proof. intros Hb (ds & H & ->) (ds' & H' & ->). by rewrite (numeral_unique b n ds ds'). Qed.

(** A conversion that writes the characters that [P] describes, [k] at most. *)
Definition prints (k : nat) (P : list Z -> Prop) (conv : mem -> Z -> outcome mem) : Prop :=
  exists cs, P cs /\ (length cs <= k)%nat /\ Forall (fun c => 0 < c < 256) cs /\
    forall m bf, accessible m bf (Z.of_nat (length cs) + 1) -> conv m bf = Ret (write m bf (cs ++ [0])).

Lemma prints_ext k (P Q : list Z -> Prop) c c' : prints k P c -> (forall cs, P cs -> Q cs) ->
  (forall m bf, c' m bf = c m bf) -> prints k Q c'.
Proof.
  intros (cs & H1 & H2 & H3 & H4) HPQ E. exists cs. split_and!; auto. intros m bf Ha. by rewrite E, H4.
Qed.

Lemma prints_uli2a num b uc : 2 <= b <= 16 -> in_u 64 num ->
  prints 65 (unsigned_chars b uc num) (fun m bf => uli2a m num b uc bf).
Proof.
  intros Hb Hn. destruct (uli2a_spec ∅ num b uc 0 Hb Hn) as (cs & H1 & H2 & H3 & _).
  exists cs. split; [done|]. split; [lia|]. split; [done|]. intros m bf Ha.
  destruct (uli2a_spec m num b uc bf Hb Hn) as (cs' & H1' & _ & _ & E).
  assert (cs' = cs) as -> by (eapply (unsigned_chars_unique b); [lia|done..]). by apply E.
Qed.

Lemma prints_ui2a num b uc : 2 <= b <= 16 -> in_u 32 num ->
  prints 65 (unsigned_chars b uc num) (fun m bf => ui2a m num b uc bf).
Proof.
  intros Hb Hn. destruct (ui2a_spec ∅ num b uc 0 Hb Hn) as (cs & H1 & H2 & H3 & _).
  exists cs. split; [done|]. split; [lia|]. split; [done|]. intros m bf Ha.
  destruct (ui2a_spec m num b uc bf Hb Hn) as (cs' & H1' & _ & _ & E).
  assert (cs' = cs) as -> by (eapply (unsigned_chars_unique b); [lia|done..]). by apply E.
Qed.

(** A character that is written before the number. *)
Lemma prints_cons k P c conv : 0 < c < 256 -> prints k P conv ->
  prints (S k) (fun cs => exists cs', P cs' /\ cs = c :: cs')
    (fun m bf => let* m := store8 m bf c in conv m (bf + 1)).
Proof.
  intros Hc (cs & HP & Hlen & Hr & E). exists (c :: cs). split; [by exists cs|].
  split; [simpl; lia|]. split; [by constructor|].
  intros m bf Ha. simpl length in Ha. rewrite store8_spec by (apply Ha; lia). cbn [obind].
  rewrite u8_small by (unfold in_u; lia). apply E. apply accessible_insert.
  eapply accessible_sub; [exact Ha|lia..].
Qed.

Lemma prints_li2a n : - 2 ^ 63 < n < 2 ^ 63 -> prints 66 (signed_chars n) (fun m bf => li2a m n bf).
Proof.
  intros Hn. unfold signed_chars, li2a. destruct (Z.ltb_spec n 0).
  - assert (in_u 64 (- n)) as Hu by (unfold in_u; lia).
    eapply prints_ext; [eapply (prints_cons 65 _ 45); [|eapply (prints_uli2a (- n) 10 false)]|intros cs Hcs; exact Hcs|];
      [lia|lia|done|].
    intros m bf. cbn beta. by rewrite (proj2 (Z.eqb_neq n _)), u64_small by (done || lia).
  - destruct (prints_uli2a n 10 false) as (cs & ? & ? & ? & E); [lia|unfold in_u; lia|].
    exists cs. split; [done|]. split; [lia|]. split; [done|]. intros m bf Ha.
    rewrite u64_small by (unfold in_u; lia). by apply E.
Qed.

Lemma prints_i2a n : - 2 ^ 31 < n < 2 ^ 31 -> prints 66 (signed_chars n) (fun m bf => i2a m n bf).
Proof.
  intros Hn. unfold signed_chars, i2a. destruct (Z.ltb_spec n 0).
  - assert (in_u 32 (- n)) as Hu by (unfold in_u; lia).
    eapply prints_ext; [eapply (prints_cons 65 _ 45); [|eapply (prints_ui2a (- n) 10 false)]|intros cs Hcs; exact Hcs|];
      [lia|lia|done|].
    intros m bf. cbn beta. rewrite int_range_ok by lia. cbn [obind]. by rewrite u32_small.
  - destruct (prints_ui2a n 10 false) as (cs & ? & ? & ? & E); [lia|unfold in_u; lia|].
    exists cs. split; [done|]. split; [lia|]. split; [done|]. intros m bf Ha.
    rewrite u32_small by (unfold in_u; lia). by apply E.
Qed.

Lemma prints_ptr2a p : in_u 64 p -> prints 67 (pointer_chars p) (fun m bf => ptr2a m p bf).
Proof.
  intros Hp. eapply prints_ext;
    [eapply (prints_cons 66 _ 48); [|eapply (prints_cons 65 _ 120); [|eapply (prints_uli2a p 16 false)]]|..];
    try done; try lia.
  - intros cs (c1 & (c2 & H & ->) & ->). by exists c2.
  - intros m bf. cbn beta. unfold ptr2a. rewrite u64_small by done. destruct (store8 m bf 48); cbn [obind];
      [|reflexivity..]. by rewrite <- Z.add_assoc.
Qed.

(** ** Bits *)

(** The characters other than the separators. *)
Definition digits_of (cs : list Z) : list Z := filter (fun c => c <> 32) cs.
Definition bit_char (f : Z -> bool) (i : Z) : Z := 48 + b2i (f i).

Lemma bit_char_range f i : bit_char f i = 48 \/ bit_char f i = 49.
Proof. unfold bit_char. destruct (f i); auto. Qed.

(** One digit and the separator that may follow. *)
Definition bit_group (f : Z -> bool) (i : Z) (sep : bool) : list Z :=
  bit_char f i :: if sep then [32] else [].

Lemma digits_of_group f i sep : digits_of (bit_group f i sep) = [bit_char f i].
Proof.
  unfold digits_of, bit_group. destruct (bit_char_range f i) as [-> | ->]; by destruct sep.
Qed.

Lemma bit_group_store m bf f i (sep : bool) :
  accessible m bf (Z.of_nat (length (bit_group f i sep))) ->
  (let* m := store8 m bf (bit_char f i) in
   if sep then let* m := store8 m (bf + 1) 32 in Ret (m, bf + 1 + 1) else Ret (m, bf + 1)) =
  Ret (write m bf (bit_group f i sep), bf + Z.of_nat (length (bit_group f i sep))).
Proof.
  intros Ha. rewrite store8_spec by (apply Ha; simpl; lia). cbn [obind].
  rewrite u8_small by (destruct (bit_char_range f i) as [-> | ->]; by split).
  destruct sep; cbn [bit_group write length]; [|do 2 f_equal; lia].
  rewrite store8_spec.
  - change (u8 32) with 32. cbn [obind]. do 2 f_equal. lia.
  - rewrite lookup_insert_ne by lia. apply Ha. simpl. lia.
Qed.

(** Room for a second part, after the first is written. *)
Lemma accessible_write_rest m bf l k : accessible m bf (Z.of_nat (length l + k)) ->
  accessible (write m bf l) (bf + Z.of_nat (length l)) (Z.of_nat k).
Proof.
  intros Ha. apply (accessible_dom m).
  - apply write_dom. eapply accessible_sub; [exact Ha|lia..].
  - eapply accessible_sub; [exact Ha|lia..].
Qed.

Section Bits.
Context (f : Z -> bool) (bit : Z -> outcome Z) (size : Z).
Context (Hbit : forall i, 0 <= i < size -> bit i = Ret (b2i (f i))).

Lemma bits_up_spec n g i : 0 <= i -> i + Z.of_nat n <= size -> exists cs,
  digits_of cs = map (bit_char f) (seqZ i (Z.of_nat n)) /\ (length cs <= 2 * n)%nat /\
  Forall (fun c => 0 < c < 256) cs /\
  forall m bf, accessible m bf (Z.of_nat (length cs)) ->
    bits_up n bit g size m i bf = Ret (write m bf cs, bf + Z.of_nat (length cs)).
Proof using Hbit.
  revert i. induction n as [|n IH]; intros i Hi Hn.
  { exists []. split_and!; [done|simpl; lia|done|]. intros m bf _. cbn. do 2 f_equal. lia. }
  destruct (IH (i + 1)) as (cs & Hd & Hl & Hr & E); [lia..|].
  set (sep := negb (i =? 0) && (i + 1 <? size) && ((i + 1) mod g =? 0)).
  exists (bit_group f i sep ++ cs). split_and!.
  - unfold digits_of. rewrite filter_app. fold (digits_of cs). fold (digits_of (bit_group f i sep)).
    rewrite digits_of_group, Hd, (seqZ_cons i) by lia. cbn. do 3 f_equal; lia.
  - rewrite length_app. unfold bit_group. simpl. destruct sep; simpl; lia.
  - apply Forall_app. split; [|done]. unfold bit_group.
    destruct (bit_char_range f i) as [-> | ->], sep; repeat (constructor; [lia|]); constructor.
  - intros m bf Ha. rewrite length_app in Ha. cbn [bits_up]. rewrite Hbit by lia. cbn [obind].
    fold sep. change (48 + b2i (f i)) with (bit_char f i).
    assert (accessible m bf (Z.of_nat (length (bit_group f i sep)))) as Hg
      by (eapply accessible_sub; [exact Ha|lia..]).
    pose proof (bit_group_store m bf f i sep Hg) as Hst.
    destruct (store8 m bf (bit_char f i)) as [m1| | |]; try discriminate Hst. cbn [obind] in *.
    rewrite Hst. cbn [obind]. rewrite write_app, length_app.
    rewrite E by by apply accessible_write_rest. do 2 f_equal. lia.
Qed.

Lemma bits_down_spec n : Z.of_nat n <= size -> exists cs,
  digits_of cs = map (bit_char f) (reverse (seqZ 0 (Z.of_nat n))) /\ (length cs <= 2 * n)%nat /\
  Forall (fun c => 0 < c < 256) cs /\
  forall m bf, accessible m bf (Z.of_nat (length cs)) ->
    bits_down n bit size m bf = Ret (write m bf cs, bf + Z.of_nat (length cs)).
Proof using Hbit.
  induction n as [|n IH]; intros Hn.
  { exists []. split_and!; [done|simpl; lia|done|]. intros m bf _. cbn. do 2 f_equal. lia. }
  destruct IH as (cs & Hd & Hl & Hr & E); [lia|]. set (i := Z.of_nat n).
  set (sep := negb (i =? 0) && (i + 1 <? size) && (i mod 4 =? 0)).
  exists (bit_group f i sep ++ cs). split_and!.
  - unfold digits_of. rewrite filter_app. fold (digits_of cs). fold (digits_of (bit_group f i sep)).
    rewrite digits_of_group, Hd. replace (Z.of_nat (S n)) with (Z.of_nat n + 1) by lia.
    rewrite seqZ_app by lia. rewrite reverse_app. cbn. do 2 f_equal.
  - rewrite length_app. unfold bit_group. simpl. destruct sep; simpl; lia.
  - apply Forall_app. split; [|done]. unfold bit_group.
    destruct (bit_char_range f i) as [-> | ->], sep; repeat (constructor; [lia|]); constructor.
  - intros m bf Ha. rewrite length_app in Ha. cbn [bits_down]. fold i. rewrite Hbit by lia. cbn [obind].
    fold sep. change (48 + b2i (f i)) with (bit_char f i).
    assert (accessible m bf (Z.of_nat (length (bit_group f i sep)))) as Hg
      by (eapply accessible_sub; [exact Ha|lia..]).
    pose proof (bit_group_store m bf f i sep Hg) as Hst.
    destruct (store8 m bf (bit_char f i)) as [m1| | |]; try discriminate Hst. cbn [obind] in *.
    rewrite Hst. cbn [obind]. rewrite write_app, length_app.
    rewrite E by by apply accessible_write_rest. do 2 f_equal. lia.
Qed.
End Bits.

(** The order in which [bits2a] prints the bits. *)
Definition bit_order (l2r : bool) (size : Z) : list Z :=
  if l2r then seqZ 0 size else reverse (seqZ 0 size).

Lemma bits2a_spec v size l2r : 0 <= size <= 64 -> exists cs,
  digits_of cs = map (bit_char (Z.testbit v)) (bit_order l2r size) /\ (length cs <= 128)%nat /\
  Forall (fun c => 0 < c < 256) cs /\
  forall m bf, accessible m bf (Z.of_nat (length cs) + 1) -> bits2a m v size bf l2r = Ret (write m bf (cs ++ [0])).
Proof.
  intros Hs.
  assert (forall i, 0 <= i < size ->
    (if i <? 64 then Ret (Z.land (Z.shiftr v i) 1) else Fault) = Ret (b2i (Z.testbit v i))) as Hbit.
  { intros i Hi. rewrite (proj2 (Z.ltb_lt i 64)) by lia. f_equal. change 1 with (Z.ones 1).
    rewrite Z.land_ones by lia. rewrite <- Z.bit0_mod, Z.shiftr_spec by lia.
    rewrite Z.add_0_l. by destruct (Z.testbit v i). }
  assert (exists cs, digits_of cs = map (bit_char (Z.testbit v)) (bit_order l2r size) /\
    (length cs <= 128)%nat /\ Forall (fun c => 0 < c < 256) cs /\
    forall m bf, accessible m bf (Z.of_nat (length cs)) ->
      (if l2r then bits_up (Z.to_nat size) (fun i => if i <? 64 then Ret (Z.land (Z.shiftr v i) 1) else Fault)
         8 size m 0 bf
       else bits_down (Z.to_nat size) (fun i => if i <? 64 then Ret (Z.land (Z.shiftr v i) 1) else Fault)
         size m bf) = Ret (write m bf cs, bf + Z.of_nat (length cs))) as (cs & H1 & H2 & H3 & E).
  { destruct l2r.
    - destruct (bits_up_spec _ _ size Hbit (Z.to_nat size) 8 0) as (cs & H1 & H2 & H3 & E); [lia..|].
      rewrite Z2Nat.id in H1 by lia. exists cs. split_and!; [done|lia|done..].
    - destruct (bits_down_spec _ _ size Hbit (Z.to_nat size)) as (cs & H1 & H2 & H3 & E); [lia..|].
      rewrite Z2Nat.id in H1 by lia. exists cs. split_and!; [done|lia|done..]. }
  exists cs. split_and!; [done..|]. intros m bf Ha. unfold bits2a.
  rewrite E by (eapply accessible_sub; [exact Ha|lia..]). cbn [obind]. rewrite write_app. cbn [write].
  apply (store8_spec _ _ 0). rewrite write_frame by lia. apply Ha. lia.
Qed.
