(* ===== verification/PrintfOutput.v ===== *)
(** * The output of [_format]

    [formats m bf cs va out]: the format [cs] with the arguments [va] describes the
    output [out].  The loop of [_format] produces that output. *)

From S2P Require Import Prelude LibcString LibcStringSpec LibcStdlib LibcStdlibTheorems Digits Printf PrintfSpec.

(** ** What a format describes *)

(** [cs] in a field of [w] characters. *)
Definition pad (z : bool) (w : Z) (cs : list Z) : list Z :=
  replicate (Z.to_nat (w - Z.of_nat (length cs))) (if z then 48 else 32) ++ cs.

(** The 256 bytes of the buffer of [_format] are apart from a string. *)
Definition apart (bf p : Z) (l : list Z) : Prop := p + Z.of_nat (length l) < bf \/ bf + 256 <= p.

(** The conversion [ch] of the arguments: its output and the arguments left. *)
Inductive renders (m : mem) (bf w : Z) (z lng : bool) : Z -> list va_val -> list Z -> list va_val -> Prop :=
| renders_u v va cs : unsigned_chars 10 false (if lng then u64 v else u32 v) cs ->
    renders m bf w z lng 117 ((if lng then V64 v else V32 v) :: va) (pad z w cs) va
| renders_x (uc : bool) v va cs : unsigned_chars 16 uc (if lng then u64 v else u32 v) cs ->
    renders m bf w z lng (if uc then 88 else 120) ((if lng then V64 v else V32 v) :: va) (pad z w cs) va
| renders_d v va cs :
    (if lng then s64 (u64 v) <> - 2 ^ 63 else s32 (u32 v) <> - 2 ^ 31) ->
    signed_chars (if lng then s64 (u64 v) else s32 (u32 v)) cs ->
    renders m bf w z lng 100 ((if lng then V64 v else V32 v) :: va) (pad z w cs) va
| renders_p v va cs : pointer_chars (u64 v) cs ->
    renders m bf w z lng 112 (V64 v :: va) (pad z w cs) va
| renders_c v va : renders m bf w z lng 99 (V32 v :: va) [u8 v] va
| renders_s p va l : cstr m (u64 p) l -> apart bf (u64 p) l ->
    renders m bf w z lng 115 (V64 p :: va) (pad false w l) va
| renders_percent va : renders m bf w z lng 37 va [37] va.

(** A directive without its percent sign. *)
Definition directive_chars (w : Z) (z lng : bool) (ch : Z) (cs : list Z) : Prop :=
  exists ds, (w = 0 /\ ds = [] \/ 0 < w < 2 ^ 31 /\ numeral 10 w ds) /\
    cs = (if z then [48] else []) ++ dec_chars ds ++ (if lng then [108] else []) ++ [ch].

Inductive formats (m : mem) (bf : Z) : list Z -> list va_val -> list Z -> Prop :=
| formats_nil va : formats m bf [] va []
| formats_char c cs va out : c <> 37 -> formats m bf cs va out -> formats m bf (c :: cs) va (c :: out)
| formats_directive w z lng ch dcs cs va va' out out' :
    directive_chars w z lng ch dcs -> renders m bf w z lng ch va out va' ->
    formats m bf cs va' out' -> formats m bf (37 :: dcs ++ cs) va (out ++ out').

(** ** Output to a file descriptor *)

Section Output.
Context (bf fd : Z).

Definition emit (s : io) (out : list Z) : io :=
  mk_io (io_mem s) (io_out s ++ map (fun c => (fd, [c])) out) (io_ptr s).

Lemma emit_nil s : emit s [] = s.
Proof. destruct s. unfold emit. cbn. by rewrite app_nil_r. Qed.

Lemma emit_app s l l' : emit (emit s l) l' = emit s (l ++ l').
Proof. unfold emit. cbn. by rewrite map_app, app_assoc. Qed.

Lemma putf_emit s c : in_u 8 c -> _charc_file fd s c = Ret (emit s [c]).
Proof. intros Hc. unfold _charc_file, sys_write, emit. by rewrite u8_small. Qed.

Lemma putchw_width_spec fuel m p n l : cstr m p l -> (length l < fuel)%nat ->
  exists n', putchw_width fuel m p n = Ret n' /\ Z.to_nat n' = Z.to_nat (n - Z.of_nat (length l)).
Proof.
  revert p n l. induction fuel as [|fuel IH]; intros p n l H Hf; [lia|]. cbn [putchw_width].
  destruct l as [|c l]; rewrite ?cstr_nil, ?cstr_cons in H.
  - rewrite (load8_ok _ _ _ H). cbn. exists n. split; [done|]. f_equal. lia.
  - destruct H as (E & Hc & H). rewrite (load8_ok _ _ _ E). cbn [obind].
    rewrite (proj2 (Z.eqb_neq c 0)) by lia. cbn [negb andb]. destruct (Z.ltb_spec 0 n).
    + destruct (IH (p + 1) (n - 1) l H) as (n' & -> & Hn'); [simpl in Hf; lia|].
      exists n'. split; [done|]. rewrite Hn'. f_equal. simpl. lia.
    + exists n. split; [done|]. lia.
Qed.

Lemma putchw_chars_spec fuel s p l : cstr (io_mem s) p l -> (length l < fuel)%nat ->
  putchw_chars fuel (_charc_file fd) s p = Ret (emit s l).
Proof.
  revert s p l. induction fuel as [|fuel IH]; intros s p l H Hf; [lia|]. cbn [putchw_chars].
  destruct l as [|c l]; rewrite ?cstr_nil, ?cstr_cons in H.
  - rewrite (load8_ok _ _ _ H). cbn. by rewrite emit_nil.
  - destruct H as (E & Hc & H). rewrite (load8_ok _ _ _ E). cbn [obind].
    rewrite (proj2 (Z.eqb_neq c 0)) by lia. cbn [negb]. rewrite putf_emit by (unfold in_u; lia).
    cbn [obind]. rewrite (IH (emit s [c]) (p + 1) l H) by (simpl in Hf; lia). by rewrite emit_app.
Qed.

Lemma fill_spec n i s c : in_u 8 c ->
  for_n n i (fun _ s => _charc_file fd s c) s = Ret (emit s (replicate n c)).
Proof.
  intros Hc. revert i s. induction n as [|n IH]; intros i s; cbn [for_n replicate]; [by rewrite emit_nil|].
  rewrite putf_emit by done. cbn [obind]. by rewrite IH, emit_app.
Qed.

Lemma putchw_spec s n z p l : cstr (io_mem s) p l ->
  putchw (_charc_file fd) s n z p = Ret (emit s (pad z n l)).
Proof.
  intros H. unfold putchw. pose proof (cstr_steps _ _ _ H) as Hf.
  destruct (putchw_width_spec _ _ _ n l H Hf) as (n' & -> & Hn). cbn [obind].
  unfold for_range. rewrite Z.sub_0_r, Hn, fill_spec by (destruct z; by split). cbn [obind].
  rewrite (putchw_chars_spec _ _ _ l) by done. by rewrite emit_app.
Qed.

(** The memory outside the buffer is kept. *)
Definition keeps (m m' : mem) : Prop :=
  dom m' = dom m /\ forall x, ~ (bf <= x < bf + 256) -> m' !! x = m !! x.

Lemma keeps_refl m : keeps m m.
Proof. done. Qed.
Lemma keeps_trans m1 m2 m3 : keeps m1 m2 -> keeps m2 m3 -> keeps m1 m3.
Proof. intros [D1 H1] [D2 H2]. split; [congruence|]. intros x Hx. by rewrite H2, H1. Qed.
Lemma keeps_cstr m m' p l : keeps m m' -> cstr m p l -> apart bf p l -> cstr m' p l.
Proof. intros [_ H] Hc Ha. eapply cstr_frame; [done|]. intros x Hx. apply H. unfold apart in Ha. lia. Qed.
Lemma keeps_room m m' : keeps m m' -> accessible m bf 256 -> accessible m' bf 256.
Proof. intros [D _]. by apply accessible_dom. Qed.

(** A numeric conversion, printed. *)
Lemma convert_spec k P conv s w lz cs : prints k P conv -> (k < 256)%nat ->
  accessible (io_mem s) bf 256 -> P cs -> (forall cs', P cs' -> cs' = cs) ->
  exists m', convert bf (_charc_file fd) s (conv (io_mem s) bf) w lz =
      Ret (emit (set_mem s m') (pad lz w cs)) /\ keeps (io_mem s) m'.
Proof.
  intros (cs' & HP & Hlen & Hr & E) Hk Ha Hcs Hu. assert (cs' = cs) as -> by auto.
  assert (accessible (io_mem s) bf (Z.of_nat (length cs) + 1)) as Ha'
    by (eapply accessible_sub; [exact Ha|lia..]).
  exists (write (io_mem s) bf (cs ++ [0])). unfold convert. rewrite E by done. cbn [obind]. split.
  - apply putchw_spec. cbn [io_mem set_mem]. split; [apply write_bytes|done].
  - split.
    + apply write_dom. rewrite length_app. simpl. by rewrite Nat2Z.inj_add.
    + intros x Hx. apply write_frame. rewrite length_app. simpl. lia.
Qed.

Lemma signed_chars_unique n cs cs' : signed_chars n cs -> signed_chars n cs' -> cs = cs'.
Proof.
  unfold signed_chars. destruct (n <? 0).
  - intros (c1 & H1 & ->) (c2 & H2 & ->). f_equal. by eapply (unsigned_chars_unique 10).
  - by apply unsigned_chars_unique.
Qed.
Lemma pointer_chars_unique p cs cs' : pointer_chars p cs -> pointer_chars p cs' -> cs = cs'.
Proof. intros (c1 & H1 & ->) (c2 & H2 & ->). do 2 f_equal. by eapply (unsigned_chars_unique 16). Qed.

Lemma s32_range n : - 2 ^ 31 <= s32 n < 2 ^ 31.
Proof. unfold s32. dlia. Qed.
Lemma s64_range n : - 2 ^ 63 <= s64 n < 2 ^ 63.
Proof. unfold s64. dlia. Qed.
Lemma u32_range n : in_u 32 (u32 n).
Proof. unfold in_u, u32. dlia. Qed.

Lemma conversion_spec m s w z lng ch va out va' : keeps m (io_mem s) -> accessible (io_mem s) bf 256 ->
  renders m bf w z lng ch va out va' ->
  exists m', conversion bf (_charc_file fd) s ch w z lng va = Ret (emit (set_mem s m') out, va') /\
    keeps m m'.
Proof.
  intros Hk Ha Hr. assert (set_mem s (io_mem s) = s) as Es by by destruct s.
  assert (forall k P conv cs, prints k P conv -> (k < 256)%nat -> P cs -> (forall cs', P cs' -> cs' = cs) ->
    exists m', (let* s := convert bf (_charc_file fd) s (conv (io_mem s) bf) w z in Ret (s, va')) =
      Ret (emit (set_mem s m') (pad z w cs), va') /\ keeps m m') as Hconv.
  { intros k P conv cs Hp Hkk HP Hu.
    destruct (convert_spec k P conv s w z cs Hp Hkk Ha HP Hu) as (m' & -> & Hm').
    exists m'. split; [done|]. by eapply keeps_trans. }
  pose proof (u32_range). pose proof (u64_range).
  destruct Hr as [v va cs Hc|uc v va cs Hc|v va cs Hn Hc|v va cs Hc|v va|p va l Hl Hap|va].
  - destruct lng; cbn [conversion va_arg32 va_arg64 Z.eqb Pos.eqb obind].
    + apply (Hconv 65%nat _ (fun m bf => uli2a m (u64 v) 10 false bf) cs (prints_uli2a _ 10 false ltac:(lia) (u64_range v)));
        [lia|done|intros; by eapply (unsigned_chars_unique 10)].
    + apply (Hconv 65%nat _ (fun m bf => ui2a m (u32 v) 10 false bf) cs (prints_ui2a _ 10 false ltac:(lia) (u32_range v)));
        [lia|done|intros; by eapply (unsigned_chars_unique 10)].
  - destruct lng, uc; cbn [conversion va_arg32 va_arg64 Z.eqb Pos.eqb obind orb].
    + apply (Hconv 65%nat _ (fun m bf => uli2a m (u64 v) 16 true bf) cs (prints_uli2a _ 16 true ltac:(lia) (u64_range v)));
        [lia|done|intros; by eapply (unsigned_chars_unique 16)].
    + apply (Hconv 65%nat _ (fun m bf => uli2a m (u64 v) 16 false bf) cs (prints_uli2a _ 16 false ltac:(lia) (u64_range v)));
        [lia|done|intros; by eapply (unsigned_chars_unique 16)].
    + apply (Hconv 65%nat _ (fun m bf => ui2a m (u32 v) 16 true bf) cs (prints_ui2a _ 16 true ltac:(lia) (u32_range v)));
        [lia|done|intros; by eapply (unsigned_chars_unique 16)].
    + apply (Hconv 65%nat _ (fun m bf => ui2a m (u32 v) 16 false bf) cs (prints_ui2a _ 16 false ltac:(lia) (u32_range v)));
        [lia|done|intros; by eapply (unsigned_chars_unique 16)].
  - destruct lng; cbn [conversion va_arg32 va_arg64 Z.eqb Pos.eqb obind].
    + pose proof (s64_range (u64 v)).
      apply (Hconv 66%nat _ (fun m bf => li2a m (s64 (u64 v)) bf) cs (prints_li2a (s64 (u64 v)) ltac:(cbv iota in Hn; lia)));
        [lia|done|intros; by eapply signed_chars_unique].
    + pose proof (s32_range (u32 v)).
      apply (Hconv 66%nat _ (fun m bf => i2a m (s32 (u32 v)) bf) cs (prints_i2a (s32 (u32 v)) ltac:(cbv iota in Hn; lia)));
        [lia|done|intros; by eapply signed_chars_unique].
  - cbn [conversion va_arg64 Z.eqb Pos.eqb obind].
    apply (Hconv 67%nat _ (fun m bf => ptr2a m (u64 v) bf) cs (prints_ptr2a _ (u64_range v)));
      [lia|done|intros; by eapply pointer_chars_unique].
  - cbn [conversion va_arg32 Z.eqb Pos.eqb obind orb]. exists (io_mem s). split; [|done].
    assert (u8 (s8 (u32 v)) = u8 v) as Ec by (unfold u8, s8, u32; dlia).
    unfold _charc_file, sys_write, emit, set_mem. cbn [obind io_mem io_out io_ptr map]. by rewrite Ec.
  - cbn [conversion va_arg64 Z.eqb Pos.eqb obind orb]. exists (io_mem s). split; [|done].
    rewrite (putchw_spec s w false (u64 p) l) by by eapply keeps_cstr. cbn [obind]. by rewrite Es.
  - cbn [conversion Z.eqb Pos.eqb obind orb]. exists (io_mem s). split; [|done].
    rewrite putf_emit by by split. cbn [obind]. by rewrite Es.
Qed.
End Output.

(** ** Directives *)

Lemma a2d_digit d : 0 <= d < 10 -> a2d (48 + d) = d.
Proof. intros H. unfold a2d. zbool; cbn; lia. Qed.

Lemma a2i_loop_spec fuel m ch p acc ds d c : 0 <= d < 10 -> ch = 48 + d ->
  Forall (fun d => 0 <= d < 10) ds -> 0 <= acc ->
  bytes m p (dec_chars ds ++ [c]) -> (a2d c < 0 \/ 10 < a2d c) -> (length ds + 1 < fuel)%nat ->
  num_val 10 acc (d :: ds) < 2 ^ 31 ->
  a2i_loop fuel m ch p 10 acc = Ret (c, p + Z.of_nat (length ds) + 1, num_val 10 acc (d :: ds)).
Proof.
  intros Hd -> Hds. revert fuel p acc d Hd.
  induction Hds as [|d' ds Hd' Hds IH]; intros [|fuel] p acc d Hd Ha Hb Hc Hf Hv; try (simpl in Hf; lia);
    cbn [a2i_loop dec_chars map app] in *; apply bytes_cons in Hb as [E Hb]; rewrite a2d_digit by done;
    rewrite (proj2 (Z.leb_le 0 d)), (proj2 (Z.ltb_ge 10 d)) by lia; cbn [num_val] in Hv |- *.
  - rewrite int_range_ok by lia. cbn [obind]. rewrite (load8_ok _ _ _ E). cbn [obind].
    destruct fuel as [|fuel]; [simpl in Hf; lia|]. cbn [a2i_loop].
    destruct Hc as [Hc|Hc]; [rewrite (proj2 (Z.leb_gt 0 _)) by lia|
      rewrite (proj2 (Z.leb_le 0 _)), (proj2 (Z.ltb_lt 10 _)) by lia]; do 3 f_equal; simpl; lia.
  - pose proof (num_val_le 10 (acc * 10 + d) (d' :: ds) ltac:(lia) ltac:(lia) ltac:(by constructor)) as Hle.
    cbn [num_val] in Hle. rewrite int_range_ok by lia. cbn [obind]. rewrite (load8_ok _ _ _ E). cbn [obind].
    rewrite (IH fuel (p + 1) (acc * 10 + d) d') by (done || lia || (simpl in Hf; lia)).
    do 3 f_equal. simpl. lia.
Qed.

(** A character of a conversion is neither a digit, nor a length modifier, nor
    taken for a digit of the width. *)
Lemma renders_char m bf w z lng ch va out va' : renders m bf w z lng ch va out va' ->
  ~ (48 <= ch <= 57) /\ ch <> 108 /\ (a2d ch < 0 \/ 10 < a2d ch).
Proof. destruct 1 as [|[]| | | | |]; unfold a2d; cbn; lia. Qed.

Lemma load_head m p c l : bytes m p (c :: l) -> load8 m p = Ret c.
Proof. intros [E _]%bytes_cons. by apply load8_ok. Qed.

(** The parts of a directive, read one after the other. *)
Lemma read_long m p (lng : bool) ch0 ch : ch <> 108 -> bytes m p (tail ((if lng then [108] else []) ++ [ch])) ->
  head ((if lng then [108] else []) ++ [ch]) = Some ch0 ->
  (if ch0 =? 108 then let* ch := load8 m p in Ret (ch, p + 1, true) else Ret (ch0, p, false)) =
  Ret (ch, p + Z.of_nat (length (if lng then [108] else [])), lng).
Proof.
  intros Hch Hb E. destruct lng; cbn in E; injection E as <-.
  - rewrite Z.eqb_refl. cbn in Hb. by rewrite (load_head _ _ _ _ Hb).
  - rewrite (proj2 (Z.eqb_neq ch 108)) by done. cbn. by rewrite Z.add_0_r.
Qed.

Lemma read_width m p ds rest c0 c1 w : (w = 0 /\ ds = [] \/ 0 < w < 2 ^ 31 /\ numeral 10 w ds) ->
  ~ (48 <= c1 <= 57) -> (a2d c1 < 0 \/ 10 < a2d c1) ->
  bytes m p (tail (dec_chars ds ++ c1 :: rest)) -> head (dec_chars ds ++ c1 :: rest) = Some c0 ->
  (if (48 <=? c0) && (c0 <=? 57) then a2i m c0 p 10 else Ret (c0, p, 0)) =
  Ret (c1, p + Z.of_nat (length ds), w).
Proof.
  intros [[-> ->]|[Hw (Hds & Hv & Hne & _)]] Hc1 Ha Hb E.
  - cbn in E. injection E as <-. cbn [length Z.of_nat]. rewrite Z.add_0_r.
    destruct (Z.leb_spec 48 c1), (Z.leb_spec c1 57); cbn; done || lia.
  - destruct ds as [|d ds]; [done|]. cbn in E, Hb. injection E as <-.
    apply Forall_cons in Hds as [Hd Hds].
    rewrite (proj2 (Z.leb_le 48 _)), (proj2 (Z.leb_le _ 57)) by lia. cbn [andb]. unfold a2i.
    fold (dec_chars ds) in Hb. rewrite (cons_middle c1 (dec_chars ds) rest), app_assoc in Hb.
    apply bytes_app in Hb as [Hb _].
    assert (length ds + 1 < S (steps m))%nat as Hf.
    { apply bytes_accessible, accessible_size in Hb. unfold dec_chars in Hb.
      rewrite length_app, length_map in Hb. simpl in Hb. unfold steps. lia. }
    rewrite (a2i_loop_spec _ m _ p 0 ds d c1) by (done || lia). rewrite Hv. do 3 f_equal. simpl. lia.
Qed.

Section Directive.
Context (bf fd : Z) (m : mem).

Lemma directive_spec s fmt w z lng ch dcs va out va' :
  keeps bf m (io_mem s) -> accessible (io_mem s) bf 256 -> bytes (io_mem s) fmt dcs ->
  directive_chars w z lng ch dcs -> renders m bf w z lng ch va out va' ->
  exists m', directive bf (_charc_file fd) s fmt va =
      Ret (emit fd (set_mem s m') out, fmt + Z.of_nat (length dcs), va') /\ keeps bf m m'.
Proof.
  intros Hk Ha Hb (ds & Hw & ->) Hr. destruct (renders_char _ _ _ _ _ _ _ _ _ Hr) as (Hc1 & Hc2 & Hc3).
  set (tl := (if lng then [108] else []) ++ [ch]) in *.
  assert (exists c1 tl', tl = c1 :: tl' /\ ~ (48 <= c1 <= 57) /\ (a2d c1 < 0 \/ 10 < a2d c1) /\
    head tl = Some c1) as (c1 & tl' & Etl & H1 & H2 & Ehd).
  { unfold tl. destruct lng; do 2 eexists; (split; [done|]); split_and!; try done; unfold a2d; cbn; lia. }
  assert (exists c0 rest, dec_chars ds ++ tl = c0 :: rest /\ c0 <> 48) as (c0 & rest & Erest & Hc0).
  { destruct Hw as [[_ ->]|[Hw (Hds & Hv & Hne & Hz)]].
    - cbn. exists c1, tl'. split; [done|]. lia.
    - destruct ds as [|d ds]; [done|]. cbn. do 2 eexists. split; [done|].
      intros E. assert (d = 0) as -> by lia. rewrite (Hz ds eq_refl) in Hv. cbn in Hv. lia. }
  unfold directive.
  assert (exists x p0, load8 (io_mem s) fmt = Ret x /\
     (if x =? 48 then let* ch := load8 (io_mem s) (fmt + 1) in Ret (ch, fmt + 1 + 1, true)
      else Ret (x, fmt + 1, false)) = Ret (c0, p0, z) /\
     p0 = fmt + Z.of_nat (length (if z then [48] else [])) + 1 /\
     bytes (io_mem s) p0 rest) as (x & p0 & -> & E0 & Hp0 & Hb0).
  { destruct z; cbn [app] in Hb; rewrite Erest in Hb.
    - exists 48. rewrite (load_head _ _ _ _ Hb). cbn. apply bytes_cons in Hb as [_ Hb].
      rewrite (load_head _ _ _ _ Hb). cbn. apply bytes_cons in Hb as [_ Hb]. by eexists.
    - exists c0. rewrite (load_head _ _ _ _ Hb). rewrite (proj2 (Z.eqb_neq c0 48)) by done.
      apply bytes_cons in Hb as [_ Hb]. eexists. split; [done|]. split; [done|]. split; [simpl; lia|done]. }
  cbn [obind]. rewrite E0. cbn [obind].
  assert (tail (dec_chars ds ++ c1 :: tl') = rest) as Et by by rewrite <- Etl, Erest.
  rewrite (read_width (io_mem s) p0 ds tl' c0 c1 w Hw H1 H2) by
    (rewrite ?Et; done || by rewrite <- Etl, Erest).
  cbn [obind]. assert (bytes (io_mem s) (p0 + Z.of_nat (length ds)) tl') as Hb1.
  { destruct ds as [|d ds]; cbn in Et.
    - subst rest. cbn. by rewrite Z.add_0_r.
    - subst rest. fold (dec_chars ds) in Hb0. rewrite cons_middle, app_assoc in Hb0.
      apply bytes_app in Hb0 as [_ Hb0]. unfold dec_chars in Hb0. rewrite length_app, length_map in Hb0.
      simpl in Hb0. by replace (length (d :: ds)) with (length ds + 1)%nat by (simpl; lia). }
  rewrite (read_long (io_mem s) _ lng c1 ch Hc2) by (fold tl; rewrite ?Etl; done).
  cbn [obind]. destruct (conversion_spec bf fd m s w z lng ch va out va' Hk Ha Hr) as (m' & -> & Hm').
  cbn [obind]. exists m'. split; [|done]. do 3 f_equal. unfold tl, dec_chars.
  rewrite !length_app, length_map. simpl. lia.
Qed.
End Directive.

(** ** Formats *)

Lemma format_loop_spec fd m bf cs va out : formats m bf cs va out -> forall fuel s fmt,
  keeps bf m (io_mem s) -> accessible (io_mem s) bf 256 -> cstr (io_mem s) fmt cs -> apart bf fmt cs ->
  (length cs < fuel)%nat ->
  exists m', _format_loop bf (_charc_file fd) fuel s fmt va = Ret (emit fd (set_mem s m') out) /\
    keeps bf m m'.
Proof.
  induction 1 as [va|c cs va out Hc _ IH|w z lng ch dcs cs va va' out out' Hd Hr _ IH];
    intros [|fuel] s fmt Hk Ha Hcs Hap Hf; try (simpl in Hf; lia); cbn [_format_loop].
  - apply cstr_nil in Hcs. rewrite (load8_ok _ _ _ Hcs). cbn. exists (io_mem s). split; [|done].
    rewrite emit_nil. by destruct s.
  - apply cstr_cons in Hcs as (E & Hr & Hcs). rewrite (load8_ok _ _ _ E). cbn [obind].
    rewrite (proj2 (Z.eqb_neq c 0)), (proj2 (Z.eqb_neq c 37)) by lia. cbn [negb].
    rewrite putf_emit by (unfold in_u; lia). cbn [obind].
    destruct (IH fuel (emit fd s [c]) (fmt + 1)) as (m' & -> & Hm'); [done|done|done| |simpl in Hf; lia|].
    + unfold apart in *. simpl in Hap. lia.
    + exists m'. split; [|done]. unfold emit, set_mem. cbn. by rewrite <- app_assoc.
  - apply cstr_cons in Hcs as (E & _ & Hcs). rewrite (load8_ok _ _ _ E). cbn [obind Z.eqb Pos.eqb negb].
    pose proof Hcs as [Hb HF]. rewrite <- app_assoc in Hb. apply bytes_app in Hb as [Hb Hb'].
    destruct (directive_spec bf fd m s (fmt + 1) w z lng ch dcs va out va' Hk Ha Hb Hd Hr) as (m1 & -> & Hm1).
    cbn [obind]. unfold apart in Hap. simpl in Hap, Hf. rewrite length_app in Hap, Hf.
    assert (dom m1 = dom (io_mem s)) as Hdom by (rewrite (proj1 Hm1); symmetry; apply (proj1 Hk)).
    destruct (IH fuel (emit fd (set_mem s m1) out) (fmt + 1 + Z.of_nat (length dcs))) as (m2 & -> & Hm2).
    + done.
    + by eapply accessible_dom.
    + cbn. eapply (cstr_frame (io_mem s)).
      * split; [done|]. by apply Forall_app in HF as [_ ?].
      * intros x Hx. destruct Hk as [_ Hk]. destruct Hm1 as [_ Hm1].
        rewrite Hm1, Hk by lia. done.
    + unfold apart in *. lia.
    + lia.
    + exists m2. split; [|done]. unfold emit, set_mem. cbn. by rewrite map_app, app_assoc.
Qed.
