(* ===== verification/PrintfTheorems.v ===== *)
(** * Properties of e_acsl_printf.h *)

From S2P Require Import Prelude LibcString LibcStringSpec LibcStdlib LibcStdlibTheorems Digits Printf PrintfSpec PrintfOutput.

(** ** Numbers *)

(** C33.  The number conversions write the numeral of the number, which is unique,
    and a terminator: [uli2a] and [ui2a] in every base up to 16, [li2a] and [i2a]
    with a sign, for every number but the least one; their loops terminate, no
    intermediate product overflows, and 68 bytes are always enough. *)
Theorem number_conversions_exact (m : mem) (bf n b : Z) (uc : bool) :
  2 <= b <= 16 -> accessible m bf 68 ->
  (in_u 64 n -> exists ds, numeral b n ds /\ (forall ds', numeral b n ds' -> ds' = ds) /\
     uli2a m n b uc bf = Ret (write m bf (map (digit_char uc) ds ++ [0]))) /\
  (in_u 32 n -> exists ds, numeral b n ds /\
     ui2a m n b uc bf = Ret (write m bf (map (digit_char uc) ds ++ [0]))) /\
  (- 2 ^ 63 < n < 2 ^ 63 -> exists ds, numeral 10 (Z.abs n) ds /\
     li2a m n bf = Ret (write m bf ((if n <? 0 then [45] else []) ++ map (digit_char false) ds ++ [0]))) /\
  (- 2 ^ 31 < n < 2 ^ 31 -> exists ds, numeral 10 (Z.abs n) ds /\
     i2a m n bf = Ret (write m bf ((if n <? 0 then [45] else []) ++ map (digit_char false) ds ++ [0]))).
Proof.
  intros Hb Ha.
  assert (forall k P conv cs, prints k P conv -> (k <= 66)%nat -> P cs -> (forall cs', P cs' -> cs' = cs) ->
    conv m bf = Ret (write m bf (cs ++ [0]))) as Hpr.
  { intros k P conv cs (cs' & HP & Hl & _ & E) Hk Hcs Hu. assert (cs' = cs) as -> by auto. apply E.
    eapply accessible_sub; [exact Ha|lia..]. }
  assert (forall n' cs, signed_chars n' cs -> exists ds, numeral 10 (Z.abs n') ds /\
    cs = (if n' <? 0 then [45] else []) ++ map (digit_char false) ds) as Hsig.
  { intros n' cs. unfold signed_chars. destruct (Z.ltb_spec n' 0).
    - intros (cs' & (ds & Hds & ->) & ->). exists ds. split; [by rewrite Z.abs_neq by lia|done].
    - intros (ds & Hds & ->). exists ds. split; [by rewrite Z.abs_eq|done]. }
  split_and!; intros Hn.
  - pose proof (prints_uli2a n b uc Hb Hn) as H. pose proof H as (cs & (ds & Hds & ->) & _).
    exists ds. split; [done|]. split; [intros; by apply (numeral_unique b n); [lia|..]|].
    apply (Hpr _ _ _ _ H); [lia|by exists ds|]. intros cs' Hcs'.
    eapply (unsigned_chars_unique b); [lia|exact Hcs'|by exists ds].
  - pose proof (prints_ui2a n b uc Hb Hn) as H. pose proof H as (cs & (ds & Hds & ->) & _).
    exists ds. split; [done|]. apply (Hpr _ _ _ _ H); [lia|by exists ds|]. intros cs' Hcs'.
    eapply (unsigned_chars_unique b); [lia|exact Hcs'|by exists ds].
  - pose proof (prints_li2a n Hn) as H. pose proof H as (cs & Hcs & _).
    pose proof (Hpr _ _ _ _ H ltac:(lia) Hcs (fun cs' H' => signed_chars_unique n cs' cs H' Hcs)) as E.
    destruct (Hsig n cs Hcs) as (ds & Hds & ->). exists ds. split; [done|]. by rewrite E, app_assoc.
  - pose proof (prints_i2a n Hn) as H. pose proof H as (cs & Hcs & _).
    pose proof (Hpr _ _ _ _ H ltac:(lia) Hcs (fun cs' H' => signed_chars_unique n cs' cs H' Hcs)) as E.
    destruct (Hsig n cs Hcs) as (ds & Hds & ->). exists ds. split; [done|]. by rewrite E, app_assoc.
Qed.

(** A buffer of 256 bytes at 4096, and a format at 100. *)
Definition demo_buffer : mem := mem_fill 256 4096 0.
Lemma demo_buffer_room : accessible demo_buffer 4096 256.
Proof. apply mem_fill_accessible; lia. Qed.

Lemma number_conversions_exact_witness :
  exists ds, numeral 10 (Z.abs (-1234)) ds /\
    li2a demo_buffer (-1234) 4096 = Ret (write demo_buffer 4096 ([45] ++ map (digit_char false) ds ++ [0])).
Proof.
  refine (proj1 (proj2 (proj2 (number_conversions_exact demo_buffer 4096 (-1234) 10 false _ _))) _).
  - lia.
  - intros x Hx. apply demo_buffer_room. lia.
  - lia.
Defined.

(** Printing and reading a number are inverse: [atoi] of the C library reads
    back the [int] that [i2a] of the run-time library has written. *)
Theorem atoi_reads_i2a (m : mem) (bf n : Z) :
  - 2 ^ 31 < n < 2 ^ 31 -> accessible m bf 68 ->
  exists m', i2a m n bf = Ret m' /\ atoi m' bf = Ret n.
Proof.
  intros Hn Ha. destruct (prints_i2a n Hn) as (cs & Hcs & Hl & _ & E).
  rewrite E by (eapply accessible_sub; [exact Ha|lia..]). eexists. split; [done|].
  assert (forall ds, Forall (fun d => 0 <= d < 10) ds -> map (digit_char false) ds = dec_chars ds) as Hdec.
  { intros ds. induction 1 as [|d ds Hd _ IH]; [done|]. cbn. rewrite IH. f_equal. unfold digit_char.
    rewrite (proj2 (Z.ltb_lt d 10)) by lia. lia. }
  unfold signed_chars in Hcs. destruct (Z.ltb_spec n 0).
  - destruct Hcs as (cs' & (ds & (F & V & N & _) & ->) & ->). rewrite Hdec by done.
    replace n with (signed Minus (num_val 10 0 ds)) by (cbn; lia).
    apply (atoi_spec _ bf [] Minus ds 0); [constructor|done|done|done| |cbn; lia]. apply write_bytes.
  - destruct Hcs as (ds & (F & V & N & _) & ->). rewrite Hdec by done.
    replace n with (signed NoSign (num_val 10 0 ds)) by (cbn; lia).
    apply (atoi_spec _ bf [] NoSign ds 0); [constructor|done|done|done| |cbn; lia]. apply write_bytes.
Qed.

Lemma atoi_reads_i2a_witness : exists m', i2a demo_buffer (-2147483647) 4096 = Ret m' /\
  atoi m' 4096 = Ret (-2147483647).
Proof.
  apply (atoi_reads_i2a demo_buffer 4096 (-2147483647)).
  - lia.
  - intros x Hx. apply demo_buffer_room. lia.
Defined.

(** ** Bits *)

(** [bits2a] prints the bits of a number, apart from the separators, each
    once and in the order of the direction, and at most 128 characters, which fit
    in the buffer of [_format]. *)
Theorem bits2a_exact (m : mem) (bf v size : Z) (l2r : bool) :
  0 <= size <= 64 -> accessible m bf 129 ->
  exists cs, bits2a m v size bf l2r = Ret (write m bf (cs ++ [0])) /\ (length cs <= 128)%nat /\
    filter (fun c => c <> 32) cs =
      map (fun i => 48 + b2i (Z.testbit v i)) (if l2r then seqZ 0 size else reverse (seqZ 0 size)).
Proof.
  intros Hs Ha. destruct (bits2a_spec v size l2r Hs) as (cs & Hd & Hl & _ & E).
  exists cs. split; [apply E; eapply accessible_sub; [exact Ha|lia..]|]. split; [done|exact Hd].
Qed.

Lemma bits2a_exact_witness : exists cs,
  bits2a demo_buffer 5 16 4096 true = Ret (write demo_buffer 4096 (cs ++ [0])) /\ (length cs <= 128)%nat /\
  filter (fun c => c <> 32) cs = map (fun i => 48 + b2i (Z.testbit 5 i)) (seqZ 0 16).
Proof.
  apply (bits2a_exact demo_buffer 4096 5 16 true).
  - lia.
  - intros x Hx. apply demo_buffer_room. lia.
Defined.

(** ** Formats *)

(** C36.  [rtl_printf], [rtl_eprintf] and [rtl_dprintf] write, one character at a
    time, exactly the output that the format describes, for the formats of [formats]:
    ordinary characters as they are, and directives [%u %d %x %X %p %c %s %%] as the
    conversion of their argument, with an optional zero flag, a width below 2^31 and the
    modifier [l]; a field is filled on the left, with zeros before the sign for the zero
    flag.  Not among them are the directives [%a %b %B %v %V %f], a percent sign at the
    end and, for [%d], the least number of its type (see [zero_flag_before_sign],
    [fraction_loses_zeros] and [final_percent_read_past_end]).  The local buffer, which is
    apart from the format and its strings, is all that is written, and the loop
    terminates. *)
Theorem printf_output_exact (s : io) (bf fmt fd : Z) (cs : list Z) (va : list va_val) (out : list Z) :
  formats (io_mem s) bf cs va out -> cstr (io_mem s) fmt cs -> apart bf fmt cs ->
  accessible (io_mem s) bf 256 -> in_u 64 fd ->
  exists m1 m2 m3, keeps bf (io_mem s) m1 /\ keeps bf (io_mem s) m2 /\ keeps bf (io_mem s) m3 /\
    rtl_printf bf s fmt va = Ret (1, mk_io m1 (io_out s ++ map (fun c => (1, [c])) out) (io_ptr s)) /\
    rtl_eprintf bf s fmt va = Ret (1, mk_io m2 (io_out s ++ map (fun c => (2, [c])) out) (io_ptr s)) /\
    rtl_dprintf bf s fd fmt va = Ret (1, mk_io m3 (io_out s ++ map (fun c => (fd, [c])) out) (io_ptr s)).
Proof.
  intros Hf Hc Hap Ha Hfd.
  assert (forall d, exists m', _format bf (_charc_file d) s fmt va = Ret (emit d (set_mem s m') out) /\
    keeps bf (io_mem s) m') as H.
  { intros d. apply (format_loop_spec d _ bf cs va out Hf); [done..|by eapply cstr_steps]. }
  destruct (H 1) as (m1 & E1 & K1), (H 2) as (m2 & E2 & K2), (H fd) as (m3 & E3 & K3).
  exists m1, m2, m3. split_and!; try done.
  - unfold rtl_printf. change _charc_stdout with (_charc_file 1). by rewrite E1.
  - unfold rtl_eprintf. change _charc_stderr with (_charc_file 2). by rewrite E2.
  - unfold rtl_dprintf. rewrite u64_small by done. by rewrite E3.
Qed.

(** "n=%05d%%" at 100. *)
Definition demo_format : list Z := [110; 61; 37; 48; 53; 100; 37; 37].
Definition demo_io : io := mk_io (write demo_buffer 100 (demo_format ++ [0])) [] 0.

Lemma demo_formats : formats (io_mem demo_io) 4096 demo_format [V32 (u32 (-42))]
  [110; 61; 48; 48; 45; 52; 50; 37].
Proof.
  apply formats_char; [done|]. apply formats_char; [done|].
  apply (formats_directive _ _ 5 true false 100 [48; 53; 100] [37; 37] _ [] [48; 48; 45; 52; 50] [37]).
  - exists [5]. split; [right; split; [lia|]|done]. split_and!; [by repeat constructor|done|done|done].
  - apply (renders_d _ _ 5 true false (u32 (-42)) [] [45; 52; 50]); [done|].
    exists [52; 50]. split; [|done]. exists [4; 2]. split; [|done].
    split_and!; [repeat constructor; lia|done|done|done].
  - apply (formats_directive _ _ 0 false false 37 [37] [] _ [] [37] []).
    + exists []. split; [by left|done].
    + apply renders_percent.
    + apply formats_nil.
Qed.

Lemma printf_output_exact_witness : exists m',
  rtl_printf 4096 demo_io 100 [V32 (u32 (-42))] =
    Ret (1, mk_io m' (map (fun c => (1, [c])) [110; 61; 48; 48; 45; 52; 50; 37]) 0).
Proof.
  destruct (printf_output_exact demo_io 4096 100 1 demo_format [V32 (u32 (-42))]
    [110; 61; 48; 48; 45; 52; 50; 37] demo_formats) as (m1 & _ & _ & _ & _ & _ & E & _).
  - split; [apply write_bytes|]. repeat constructor; lia.
  - left. simpl. lia.
  - intros x Hx. cbn [demo_io io_mem]. rewrite write_lookup, decide_False by (simpl; lia).
    apply demo_buffer_room. lia.
  - unfold in_u. lia.
  - exists m1. exact E.
Defined.

(** ** Defects *)

(** The sign change of the least number overflows. *)
Theorem least_number_overflows (m : mem) (bf : Z) :
  li2a m (- 2 ^ 63) bf = Fault /\ i2a m (- 2 ^ 31) bf = Fault.
Proof. split; reflexivity. Qed.

(** The conversion [a] that follows a width is read as its last digit. *)
Theorem width_swallows_a (m : mem) (src : Z) : m !! src = Some 97 -> m !! (src + 1) = Some 0 ->
  a2i m 56 src 10 = Ret (0, src + 2, 90).
Proof.
  intros H1 H2. unfold a2i, steps.
  assert (exists k, size m = S k) as [k ->].
  { destruct (size m) as [|k] eqn:E; [|by exists k]. apply map_size_empty_inv in E. by rewrite E in H1. }
  cbn [a2i_loop]. cbn. rewrite (load8_ok _ _ _ H1). cbn. rewrite (load8_ok _ _ _ H2). cbn.
  by replace (src + 1 + 1) with (src + 2) by lia.
Qed.

(** A format that ends with a percent sign is read past its terminator. *)
Theorem final_percent_read_past_end : exists m fmt, cstr m fmt [37] /\
  rtl_printf 4096 (mk_io m [] 0) fmt [] = Fault.
Proof.
  exists (write ∅ 100 [37; 0]), 100. rewrite cstr_cons, cstr_nil. repeat split.
Qed.

(** The buffer of 256 bytes overflows for the conversion [v] with a large width. *)
Theorem bit_field_overflows_buffer : exists p,
  pbits2a (mem_fill 64 8192 0 ∪ demo_buffer) p 256 4096 true = Fault.
Proof. exists 8192. vm_compute. reflexivity. Qed.

(** The fraction of [f] is printed without its leading zeros: 1.0625 is printed as
    1.62. *)
Theorem fraction_loses_zeros :
  match _format 4096 (_charc_file 1)
    (mk_io (write demo_buffer 100 [37; 102; 0]) [] 0) 100
    [VDouble (double_mul (double_of_int 17) (SpecFloat.SFdiv 53 1024 (double_of_int 1) (double_of_int 16)))]
  with
  | Ret s => flat_map snd (io_out s) = [49; 46; 54; 50]
  | _ => False
  end.
Proof. vm_compute. reflexivity. Qed.

(** The zeros of the zero flag come before the sign: -5 is printed by "%04d" as 00-5. *)
Theorem zero_flag_before_sign :
  match _format 4096 (_charc_file 1) (mk_io (write demo_buffer 100 [37; 48; 52; 100; 0]) [] 0) 100 [V32 (- 5)] with
  | Ret s => flat_map snd (io_out s) = [48; 48; 45; 53]
  | _ => False
  end.
Proof. vm_compute. reflexivity. Qed.
