(* ===== verification/Shexec.v ===== *)
(** * e_acsl_shexec.h: execution of a command

    The functions that run a command with its standard streams on pipes.  The process
    keeps a table of descriptors, and the system calls are the operations of an
    interface; the private heap is another one.  What a descriptor will deliver until
    the end of file is the [pending] input of its file. *)

From S2P Require Import Prelude CString LibcString LibcStringSpec LibcStdlib.

(** ** Interfaces *)

(** The heap: a new block is apart from the accessible memory, which is kept.  Null is
    the failure of an allocation. *)
Class PrivateHeap : Type := {
  owns : mem -> Z -> Z -> Prop;
  private_malloc : mem -> Z -> Z * mem;
  private_realloc : mem -> Z -> Z -> Z * mem;
  owns_accessible : forall m p n, owns m p n -> accessible m p n;
  owns_dom : forall m m' p n, owns m p n -> dom m' = dom m -> owns m' p n;
  malloc_owns : forall m n p m', private_malloc m n = (p, m') -> p <> NULL ->
    owns m' p n /\ forall x, p <= x < p + n -> m !! x = None;
  malloc_frame : forall m n p m', private_malloc m n = (p, m') ->
    forall x, is_Some (m !! x) -> m' !! x = m !! x;
  realloc_owns : forall m p k n q m', owns m p k -> private_realloc m p n = (q, m') -> q <> NULL ->
    owns m' q n /\ (forall i, 0 <= i < k -> i < n -> m' !! (q + i) = m !! (p + i)) /\
    forall x, q <= x < q + n -> m !! x = None \/ p <= x < p + k;
  realloc_frame : forall m p k n q m', owns m p k -> private_realloc m p n = (q, m') ->
    forall x, is_Some (m !! x) -> ~ (p <= x < p + k) -> m' !! x = m !! x
}.

(** The system calls of a process, which can have [open_max] descriptors. *)
Class System : Type := {
  sys : Type;
  file : Type;
  open_max : Z;
  fds : sys -> gmap Z file;
  pending : sys -> file -> list Z;
  pipe : sys -> Z * (Z * Z) * sys;
  dup : sys -> Z -> Z * sys;
  dup2 : sys -> Z -> Z -> Z * sys;
  close : sys -> Z -> Z * sys;
  read : sys -> Z -> Z -> option (list Z) * sys;
  sys_write : sys -> Z -> list Z -> Z * sys;
  fork : sys -> Z * sys;
  waitpid : sys -> Z -> Z * sys;
  WEXITSTATUS : Z -> Z; WIFSIGNALED : Z -> Z; WTERMSIG : Z -> Z;
  pipe_opens : forall s, Z.of_nat (size (fds s)) + 2 <= open_max -> exists a b fa fb s',
    pipe s = (0, (a, b), s') /\ a <> b /\ fds s !! a = None /\ fds s !! b = None /\
    fds s' = <[b := fb]> (<[a := fa]> (fds s)) /\
    fa <> fb /\ forall fd f, fds s !! fd = Some f -> f <> fa /\ f <> fb;
  dup_opens : forall s fd f, fds s !! fd = Some f -> Z.of_nat (size (fds s)) < open_max -> exists r s',
    dup s fd = (r, s') /\ fds s !! r = None /\ fds s' = <[r := f]> (fds s) /\ pending s' = pending s;
  dup2_opens : forall s a f b, fds s !! a = Some f -> fds s !! b = None -> Z.of_nat (size (fds s)) < open_max ->
    exists r s', dup2 s a b = (r, s') /\ fds s' = <[b := f]> (fds s) /\ pending s' = pending s;
  close_closes : forall s fd, exists r s',
    close s fd = (r, s') /\ fds s' = delete fd (fds s) /\ pending s' = pending s;
  read_reads : forall s fd f n r s', fds s !! fd = Some f -> read s fd n = (r, s') ->
    fds s' = fds s /\ match r with
    | Some l => Z.of_nat (length l) <= Z.max 0 n /\ Forall (fun b => 0 <= b < 256) l /\ pending s f = l ++ pending s' f /\
        (l = [] -> 0 < n -> pending s f = []) /\ forall f', f' <> f -> pending s' f' = pending s f'
    | None => True
    end;
  write_keeps : forall s fd l r s', sys_write s fd l = (r, s') -> fds s' = fds s /\ pending s' = pending s;
  fork_keeps : forall s r s', fork s = (r, s') -> fds s' = fds s;
  wait_keeps : forall s pid r s', waitpid s pid = (r, s') -> fds s' = fds s
}.

(** ** Data *)

Record ipr_t : Type := mk_ipr {
  stderrs : Z; stdins : Z; stdouts : Z;
  exit_status : Z; pid : Z; signaled : Z; signo : Z;
  argv : Z; error : Z
}.
Definition set_error (d : ipr_t) (e : Z) : ipr_t :=
  mk_ipr (stderrs d) (stdins d) (stdouts d) (exit_status d) (pid d) (signaled d) (signo d) (argv d) e.
Definition set_stdouts (d : ipr_t) (p : Z) : ipr_t :=
  mk_ipr (stderrs d) (stdins d) p (exit_status d) (pid d) (signaled d) (signo d) (argv d) (error d).
Definition set_stderrs (d : ipr_t) (p : Z) : ipr_t :=
  mk_ipr p (stdins d) (stdouts d) (exit_status d) (pid d) (signaled d) (signo d) (argv d) (error d).
Definition set_status (d : ipr_t) (st p sg sn : Z) : ipr_t :=
  mk_ipr (stderrs d) (stdins d) (stdouts d) st p sg sn (argv d) (error d).

(** The bytes [l] stored from [p] on. *)
Fixpoint store_list (m : mem) (p : Z) (l : list Z) : outcome mem :=
  match l with
  | [] => Ret m
  | b :: l => let* m := store8 m p b in store_list m (p + 1) l
  end.

(** The bytes of the string at [p]. *)
Fixpoint load_list (n : nat) (m : mem) (p : Z) : outcome (list Z) :=
  match n with
  | O => Ret []
  | S n => let* b := load8 m p in let* l := load_list n m (p + 1) in Ret (b :: l)
  end.

Section Shexec.
Context `{HP : !PrivateHeap} `{SY : !System}.

Record proc : Type := mk_proc { pr_mem : mem; pr_sys : sys }.

(** ** fd_read *)

(** The loop; [rd] is the count of fetched characters. *)
Fixpoint fd_read_loop (fuel : nat) (fd buffer_size buffer size rd : Z) (s : proc) : outcome (Z * proc) :=
  match fuel with
  | O => NoFuel
  | S fuel =>
      let (r, y) := read (pr_sys s) fd buffer_size in
      match r with
      | None => Ret (NULL, mk_proc (pr_mem s) y)
      | Some l =>
          let* m := store_list (pr_mem s) (buffer + size - buffer_size) l in
          let fetched := Z.of_nat (length l) in
          if fetched =? 0 then let* m := store8 m (buffer + rd) 0 in Ret (buffer, mk_proc m y)
          else
            let* rd := int_range (rd + fetched) in
            let* size := int_range (size + fetched) in
            let* size1 := int_range (size + 1) in
            let (buffer, m) := private_realloc m buffer (u64 size1) in
            fd_read_loop fuel fd buffer_size buffer size rd (mk_proc m y)
      end
  end.
Definition fd_read (fuel : nat) (fd bufsize : Z) (s : proc) : outcome (Z * proc) :=
  let (buffer, m) := private_malloc (pr_mem s) (u64 bufsize) in
  fd_read_loop fuel fd bufsize buffer bufsize 0 (mk_proc m (pr_sys s)).

(** ** __shexec *)

(** The addresses of the literals of the messages, and the call of [execvp], which gives
    an error number if it returns. *)
Context (no_stdin no_stdout no_stderr bad_stdout bad_stderr failed space : Z).
Context (execvp : sys -> Z -> option Z).

Definition nstrdup (m : mem) (p : Z) : outcome (Z * mem) := CString.nstrdup (steps m) private_malloc m p.

Definition open_pipe (message : Z) (d : ipr_t) (s : proc) : outcome ((Z * Z) * (ipr_t * proc)) :=
  let '(r, p, y) := pipe (pr_sys s) in
  if i2b r then
    let* (e, m) := nstrdup (pr_mem s) message in Ret (p, (set_error d e, mk_proc m y))
  else Ret (p, (d, mk_proc (pr_mem s) y)).

Definition do_close (fd : Z) (s : proc) : proc := mk_proc (pr_mem s) (snd (close (pr_sys s) fd)).
Definition do_dup (fd : Z) (s : proc) : Z * proc := let (r, y) := dup (pr_sys s) fd in (r, mk_proc (pr_mem s) y).
Definition do_dup2 (a b : Z) (s : proc) : proc := mk_proc (pr_mem s) (snd (dup2 (pr_sys s) a b)).

(** The loop on the arguments of a command that could not be run. *)
Fixpoint append_arguments (fuel : nat) (m : mem) (arg err : Z) : outcome (Z * mem) :=
  match fuel with
  | O => NoFuel
  | S fuel =>
      let* a := load64 m arg in
      if a =? NULL then Ret (err, m)
      else let* (err, m) := sappend (steps m) private_malloc private_realloc m a err space in
           append_arguments fuel m (arg + 8) err
  end.

(** How [__shexec] ends: with its result, or with the image of the process replaced. *)
Inductive ending : Type := Returns (data : option ipr_t) | Replaced.

Definition child (infd outfd errfd : Z * Z) (data : ipr_t) (s : proc) : outcome (ending * proc) :=
  let s := do_close (fst errfd) (do_close (fst outfd) (do_close (fst infd) s)) in
  let s := do_close (snd errfd) (do_close (snd outfd) (do_close (snd infd) s)) in
  match execvp (pr_sys s) (argv data) with
  | None => Ret (Replaced, s)
  | Some errno =>
      let* s := if i2b errno then
                  let* (e, m) := nstrdup (pr_mem s) failed in
                  let* (e, m) := append_arguments (steps m) m (argv data) e in
                  Ret (mk_proc m (pr_sys s))
                else Ret s in
      Ret (Returns None, s)
  end.

(** The output of a descriptor, with a message if it cannot be read. *)
Definition fetch (fuel : nat) (fd message : Z) (d : ipr_t) (s : proc) : outcome (Z * (ipr_t * proc)) :=
  let* (p, s) := fd_read fuel fd 256 s in
  if p =? NULL then
    let* (e, m) := nstrdup (pr_mem s) message in Ret (p, (set_error d e, mk_proc m (pr_sys s)))
  else Ret (p, (d, s)).

Definition parent (fuel : nat) (infd outfd errfd : Z * Z) (oldstdin oldstdout oldstderr child_pid : Z)
    (data : ipr_t) (s : proc) : outcome (ending * proc) :=
  let s := do_close 2 (do_close 1 (do_close 0 s)) in
  let s := do_dup2 oldstderr 2 (do_dup2 oldstdout 1 (do_dup2 oldstdin 0 s)) in
  let s := do_close (fst infd) (do_close (snd errfd) (do_close (snd outfd) s)) in
  let* (r, s) :=
    if i2b (stdins data) then
      let* n := strlen (pr_mem s) (stdins data) in
      let* l := load_list (Z.to_nat n) (pr_mem s) (stdins data) in
      let (r, y) := sys_write (pr_sys s) (snd infd) l in Ret (r, mk_proc (pr_mem s) y)
    else Ret (0, s) in
  if r =? -1 then Ret (Returns None, s)
  else
    let* (out, ds) := fetch fuel (fst outfd) bad_stdout data s in
    let* (err, ds) := fetch fuel (fst errfd) bad_stderr (set_stdouts (fst ds) out) (snd ds) in
    let data := set_stderrs (fst ds) err in
    let s := do_close (snd infd) (do_close (fst errfd) (do_close (fst outfd) (snd ds))) in
    let (status, y) := waitpid (pr_sys s) child_pid in
    Ret (Returns (Some (set_status data (WEXITSTATUS status) child_pid (WIFSIGNALED status) (WTERMSIG status))),
         mk_proc (pr_mem s) y).

Definition __shexec (fuel : nat) (data : ipr_t) (s : proc) : outcome (ending * proc) :=
  let* (infd, ds) := open_pipe no_stdin data s in
  let* (outfd, ds) := open_pipe no_stdout (fst ds) (snd ds) in
  let* (errfd, ds) := open_pipe no_stderr (fst ds) (snd ds) in
  let (data, s) := ds : ipr_t * proc in
  if i2b (error data) then Ret (Returns (Some data), s)
  else
    let (oldstdin, s) := do_dup 0 s in
    let (oldstdout, s) := do_dup 1 s in
    let (oldstderr, s) := do_dup 2 s in
    let s := do_close 2 (do_close 1 (do_close 0 s)) in
    let s := do_dup2 (snd errfd) 2 (do_dup2 (snd outfd) 1 (do_dup2 (fst infd) 0 s)) in
    let (p, y) := fork (pr_sys s) in
    let s := mk_proc (pr_mem s) y in
    if i2b p then parent fuel infd outfd errfd oldstdin oldstdout oldstderr p data s
    else child infd outfd errfd data s.

(** [shexec]; [fresh] is what the new structure holds, [None] if there is no room. *)
Definition shexec (fuel : nat) (fresh : option ipr_t) (data sin : Z) (s : proc) : outcome (ending * proc) :=
  match fresh with
  | None => Fault
  | Some g =>
      let* (i, m) := nstrdup (pr_mem s) sin in
      __shexec fuel (mk_ipr NULL i NULL 0 0 0 (signo g) data (error g)) (mk_proc m (pr_sys s))
  end.

(** [free_ipr]: the objects that are given to [private_free], in order; the last one is
    the structure. *)
Definition free_ipr (ipr : Z) (d : ipr_t) : list Z :=
  if i2b ipr then
    (if i2b (stdouts d) then [stdouts d] else []) ++ (if i2b (stderrs d) then [stderrs d] else []) ++
    (if i2b (error d) then [error d] else []) ++ (if i2b (stdins d) then [stdins d] else []) ++ [ipr]
  else [].
End Shexec.

(** ** Lemmas *)

Lemma store_list_spec m p l : accessible m p (Z.of_nat (length l)) -> Forall (fun b => 0 <= b < 256) l ->
  store_list m p l = Ret (LibcString.write m p l).
Proof.
  revert m p. induction l as [| b l IH]; intros m p Ha Hl; [reflexivity |]. apply Forall_cons in Hl. destruct Hl as [Hb Hl].
  cbn [store_list LibcString.write]. destruct (Ha p) as [c Hc]; [cbn; lia |].
  unfold store8. rewrite Hc, u8_small by (unfold in_u; lia). cbn [obind]. apply IH; [| exact Hl].
  intros x Hx. destruct (decide (x = p)) as [-> |]; [rewrite lookup_insert_eq; eauto |].
  rewrite lookup_insert_ne by lia. apply Ha. cbn. lia.
Qed.

Lemma load_list_spec m p l : bytes m p l -> load_list (length l) m p = Ret l.
Proof.
  revert p. induction l as [| b l IH]; intros p H; [reflexivity |]. apply bytes_cons in H. destruct H as [Hb H].
  cbn [load_list length]. rewrite (load8_ok _ _ _ Hb). cbn. rewrite (IH _ H). reflexivity.
Qed.

Section Reading.
Context `{HP : !PrivateHeap} `{SY : !System}.
Context (Hread : forall s fd n, fst (read s fd n) <> None).
Context (Hrealloc : forall m p n, fst (private_realloc m p n) <> NULL).
Context (Hmalloc : forall m n, fst (private_malloc m n) <> NULL).

(** A block apart from an older memory [m0], which is kept. *)
Definition apart_from (m0 m : mem) (p k : Z) : Prop :=
  owns m p k /\ (forall x, p <= x < p + k -> m0 !! x = None) /\ forall x, is_Some (m0 !! x) -> m !! x = m0 !! x.

Lemma apart_write m0 m p k l q : apart_from m0 m p k -> p <= q -> q + Z.of_nat (length l) <= p + k ->
  apart_from m0 (LibcString.write m q l) p k.
Proof.
  intros (Ho & Hf & Hk) H1 H2. pose proof (owns_accessible _ _ _ Ho) as Ha. split; [| split].
  - apply (owns_dom m); [exact Ho |]. apply write_dom. intros x Hx. apply Ha. lia.
  - exact Hf.
  - intros x Hx. rewrite <- Hk by exact Hx. apply write_frame.
    destruct (Z.le_gt_cases p x); [| lia]. destruct (Z.le_gt_cases (p + k) x); [lia |].
    rewrite (Hf x) in Hx by lia. destruct Hx; discriminate.
Qed.

Lemma apart_realloc m0 m p k n : apart_from m0 m p k ->
  apart_from m0 (snd (private_realloc m p n)) (fst (private_realloc m p n)) n /\
  forall l, bytes m p l -> Z.of_nat (length l) <= k -> Z.of_nat (length l) <= n ->
    bytes (snd (private_realloc m p n)) (fst (private_realloc m p n)) l.
Proof.
  intros (Ho & Hf & Hk). destruct (private_realloc m p n) as [q m'] eqn:E. cbn.
  pose proof (Hrealloc m p n) as Hq. rewrite E in Hq.
  destruct (realloc_owns m p k n q m' Ho E Hq) as (Ho' & Hc & Hd). split; [split; [exact Ho' | split] |].
  - intros x Hx. destruct (Hd x Hx) as [Hn | Hp]; [| auto].
    destruct (m0 !! x) as [b |] eqn:Eb; [| reflexivity].
    rewrite Hk, Eb in Hn; [discriminate | rewrite Eb; eauto].
  - intros x Hx. rewrite <- Hk by exact Hx. apply (realloc_frame m p k n q m' Ho E); [rewrite Hk by exact Hx; exact Hx |].
    intros Hp. rewrite (Hf x Hp) in Hx. destruct Hx; discriminate.
  - intros l Hl H1 H2 i b Hi. pose proof (lookup_lt_Some _ _ _ Hi). rewrite Hc by lia. apply Hl. exact Hi.
Qed.

(** What a loop that reads a descriptor leaves. *)
Record fetched (m0 : mem) (f : file) (l : list Z) (p : Z) (s s' : proc) : Prop := {
  ft_nonnull : p <> NULL;
  ft_block : exists k, apart_from m0 (pr_mem s') p k /\ Z.of_nat (length l) < k;
  ft_bytes : bytes (pr_mem s') p (l ++ [0]);
  ft_fds : fds (pr_sys s') = fds (pr_sys s);
  ft_pending : forall f', f' <> f -> pending (pr_sys s') f' = pending (pr_sys s) f'
}.

Lemma fd_read_loop_spec fuel m0 fd f bs : 0 < bs -> forall buf cap l s,
  apart_from m0 (pr_mem s) buf cap -> buf <> NULL -> bytes (pr_mem s) buf l -> Z.of_nat (length l) + bs <= cap ->
  fds (pr_sys s) !! fd = Some f -> (length (pending (pr_sys s) f) < fuel)%nat ->
  Z.of_nat (length l) + Z.of_nat (length (pending (pr_sys s) f)) + bs + 1 < 2 ^ 31 ->
  exists p s', fd_read_loop fuel fd bs buf (Z.of_nat (length l) + bs) (Z.of_nat (length l)) s = Ret (p, s') /\
    fetched m0 f (l ++ pending (pr_sys s) f) p s s'.
Proof.
  intros Hbs. induction fuel as [| fuel IH]; intros buf cap l s Ha Hb Hl Hcap Hfd Hfuel Hsz; [lia |].
  cbn [fd_read_loop]. destruct (read (pr_sys s) fd bs) as [r y] eqn:Er.
  pose proof (Hread (pr_sys s) fd bs) as Hr. rewrite Er in Hr. destruct r as [c |]; [| contradiction].
  destruct (read_reads _ _ _ _ _ _ Hfd Er) as (Hfds & Hlen & Hbyte & Hp & Heof & Hother).
  replace (buf + (Z.of_nat (length l) + bs) - bs) with (buf + Z.of_nat (length l)) by lia.
  pose proof (owns_accessible _ _ _ (proj1 Ha)) as Hacc.
  rewrite store_list_spec; [| intros x Hx; apply Hacc; lia | exact Hbyte]. cbn [obind].
  pose proof (apart_write m0 _ buf cap c (buf + Z.of_nat (length l)) Ha ltac:(lia) ltac:(lia)) as Ha'.
  assert (Hl' : bytes (LibcString.write (pr_mem s) (buf + Z.of_nat (length l)) c) buf (l ++ c)).
  { apply bytes_app. split; [| apply write_bytes]. apply (bytes_frame (pr_mem s)); [exact Hl |].
    intros x Hx. apply write_frame. lia. }
  destruct (Z.eqb_spec (Z.of_nat (length c)) 0) as [Hz | Hz].
  - assert (c = []) as -> by (destruct c; [reflexivity | cbn in Hz; lia]). cbn in Hl', Ha' |- *.
    destruct (owns_accessible _ _ _ (proj1 Ha) (buf + Z.of_nat (length l))) as [b0 Eb]; [lia |].
    unfold store8. rewrite Eb. cbn. eexists _, _. split; [reflexivity |].
    rewrite (Heof eq_refl Hbs). rewrite app_nil_r in Hl' |- *.
    change (<[_ := _]> (pr_mem s)) with (LibcString.write (pr_mem s) (buf + Z.of_nat (length l)) [0]).
    split; cbn [pr_mem pr_sys]; [exact Hb | | | exact Hfds | exact Hother].
    + exists cap. split; [apply apart_write; [exact Ha | lia | cbn; lia] | lia].
    + apply bytes_app. split; [| apply write_bytes]. apply (bytes_frame (pr_mem s)); [exact Hl |].
      intros x Hx. apply write_frame. lia.
  - pose proof (f_equal length Hp) as Hpl. rewrite length_app in Hpl.
    unfold int_range.
    replace ((- 2 ^ 31 <=? Z.of_nat (length l) + Z.of_nat (length c)) && (Z.of_nat (length l) + Z.of_nat (length c) <? 2 ^ 31)) with true by lia.
    cbn [obind].
    replace ((- 2 ^ 31 <=? Z.of_nat (length l) + bs + Z.of_nat (length c)) && (Z.of_nat (length l) + bs + Z.of_nat (length c) <? 2 ^ 31)) with true by lia.
    cbn [obind].
    replace ((- 2 ^ 31 <=? Z.of_nat (length l) + bs + Z.of_nat (length c) + 1) && (Z.of_nat (length l) + bs + Z.of_nat (length c) + 1 <? 2 ^ 31)) with true by lia.
    cbn [obind].
    rewrite u64_small by (unfold in_u; lia).
    set (m1 := LibcString.write (pr_mem s) (buf + Z.of_nat (length l)) c) in *.
    set (n := Z.of_nat (length l) + bs + Z.of_nat (length c) + 1).
    destruct (apart_realloc m0 m1 buf cap n Ha') as [Hr1 Hr2].
    pose proof (Hrealloc m1 buf n) as Hq. destruct (private_realloc m1 buf n) as [q m2]. cbn in Hr1, Hr2, Hq.
    destruct (IH q n (l ++ c) (mk_proc m2 y)) as (p & s' & E & Hft); cbn [pr_mem pr_sys].
    + exact Hr1.
    + exact Hq.
    + apply Hr2; [exact Hl' | rewrite length_app; lia | rewrite length_app; unfold n; lia].
    + rewrite length_app. unfold n. lia.
    + rewrite Hfds. exact Hfd.
    + destruct c; cbn in Hz, Hpl; lia.
    + rewrite length_app. lia.
    + exists p, s'. rewrite length_app, Nat2Z.inj_add in E.
      replace (Z.of_nat (length l) + bs + Z.of_nat (length c)) with (Z.of_nat (length l) + Z.of_nat (length c) + bs) by lia.
      split; [exact E |]. cbn [pr_sys] in Hft. rewrite <- app_assoc, <- Hp in Hft.
      destruct Hft as [H1 H2 H3 H4 H5]. split; [exact H1 | exact H2 | exact H3 | cbn in H4; congruence |].
      intros f' Hf'. rewrite (H5 f' Hf'). apply Hother. exact Hf'.
Qed.

Lemma apart_malloc m n : apart_from m (snd (private_malloc m n)) (fst (private_malloc m n)) n.
Proof.
  destruct (private_malloc m n) as [p m'] eqn:E. pose proof (Hmalloc m n) as Hp. rewrite E in Hp.
  destruct (malloc_owns _ _ _ _ E Hp) as [Ho Hf]. split; [exact Ho | split; [exact Hf |]].
  exact (malloc_frame _ _ _ _ E).
Qed.

Lemma fd_read_spec fuel fd f bs s : 0 < bs < 2 ^ 15 -> fds (pr_sys s) !! fd = Some f ->
  (length (pending (pr_sys s) f) < fuel)%nat -> Z.of_nat (length (pending (pr_sys s) f)) < 2 ^ 30 ->
  exists p s', fd_read fuel fd bs s = Ret (p, s') /\ fetched (pr_mem s) f (pending (pr_sys s) f) p s s'.
Proof.
  intros Hbs Hfd Hfuel Hsz. unfold fd_read. rewrite u64_small by (unfold in_u; lia).
  pose proof (apart_malloc (pr_mem s) bs) as Ha. pose proof (Hmalloc (pr_mem s) bs) as Hp.
  destruct (private_malloc (pr_mem s) bs) as [buf m]. cbn in Ha, Hp.
  destruct (fd_read_loop_spec fuel (pr_mem s) fd f bs ltac:(lia) buf bs [] (mk_proc m (pr_sys s)) Ha Hp)
    as (p & s' & E & H); try (cbn; assumption); try (cbn; lia); [apply bytes_nil |].
  exists p, s'. split; [exact E |]. destruct H as [H1 H2 H3 H4 H5]. split; assumption.
Qed.
End Reading.

(** ** Descriptors *)

(** [memcpy] of a region onto another one. *)
Lemma memcpy_copies m d p l : bytes m p l -> accessible m d (Z.of_nat (length l)) ->
  (d + Z.of_nat (length l) <= p \/ p + Z.of_nat (length l) <= d) -> Forall (fun b => 0 <= b < 256) l ->
  Prelude.memcpy m d p (Z.of_nat (length l)) = Ret (LibcString.write m d l).
Proof.
  intros Hb Ha Hd Hl. unfold Prelude.memcpy, for_range. rewrite Z.sub_0_r, Nat2Z.id.
  assert (G : forall k j m1, m1 = LibcString.write m d (take j l) -> (j + k = length l)%nat ->
    for_n k (Z.of_nat j) (fun i m0 => let* b := load8 m0 (p + i) in store8 m0 (d + i) b) m1 =
      Ret (LibcString.write m d l)).
  { induction k as [| k IH]; intros j m1 -> Hj; cbn [for_n].
    - rewrite take_ge by lia. reflexivity.
    - destruct (lookup_lt_is_Some_2 l j ltac:(lia)) as [b Eb].
      assert (Hlen : length (take j l) = j) by (rewrite length_take; lia).
      assert (E1 : LibcString.write m d (take j l) !! (p + Z.of_nat j) = Some b).
      { rewrite write_frame by lia. apply Hb. exact Eb. }
      unfold load8. rewrite E1. cbn [deref obind].
      destruct (Ha (d + Z.of_nat j)) as [c Ec]; [lia |].
      unfold store8. rewrite write_frame, Ec by lia. cbn [obind].
      assert (Hbb : 0 <= b < 256) by (eapply Forall_lookup_1 in Hl; eauto).
      rewrite u8_small by (unfold in_u; lia).
      replace (Z.of_nat j + 1) with (Z.of_nat (S j)) by lia. apply IH; [| lia].
      rewrite (take_S_r _ _ b Eb), write_app, Hlen. reflexivity. }
  apply (G (length l) 0%nat m); [reflexivity | lia].
Qed.

Section Descriptors.
Context `{HP : !PrivateHeap} `{SY : !System}.

(** A string or null, and its copy. *)
Definition string_or_null (m : mem) (p : Z) (l : list Z) : Prop :=
  p = NULL /\ l = [] \/ p <> NULL /\ cstr m p l /\ Z.of_nat (length l) + 1 < 2 ^ 63.

Lemma nstrdup_spec m p l : (forall m n, fst (private_malloc m n) <> NULL) -> string_or_null m p l ->
  exists q m', nstrdup m p = Ret (q, m') /\ string_or_null m' q l /\ (q = NULL <-> p = NULL) /\
    forall x, is_Some (m !! x) -> m' !! x = m !! x.
Proof.
  intros Hm [[-> ->] | (Hp & Hc & Hsz)]; unfold nstrdup, CString.nstrdup.
  { exists NULL, m. split; [reflexivity |]. split; [left; auto | tauto]. }
  destruct (Z.eqb_spec p NULL) as [? | _]; [contradiction |]. cbn [negb].
  change (strlen_loop (steps m) m p 0) with (strlen m p). rewrite (strlen_cstr m p l Hc). cbn [obind].
  rewrite u64_small by (unfold in_u; lia).
  pose proof (apart_malloc Hm m (Z.of_nat (length l) + 1)) as (Ho & Hf & Hk).
  pose proof (Hm m (Z.of_nat (length l) + 1)) as Hq.
  destruct (private_malloc m _) as [q m1]. cbn in Ho, Hf, Hk, Hq.
  destruct (Z.eqb_spec q NULL) as [? | _]; [contradiction |].
  destruct Hc as [Hb Hl]. pose proof (owns_accessible _ _ _ Ho) as Ha.
  assert (Hlen : Z.of_nat (length (l ++ [0])) = Z.of_nat (length l) + 1) by (rewrite length_app; cbn; lia).
  assert (Hb1 : bytes m1 p (l ++ [0])).
  { intros i b Hi. rewrite Hk; [exact (Hb i b Hi) | rewrite (Hb i b Hi); eauto]. }
  assert (Hsep : q + Z.of_nat (length (l ++ [0])) <= p \/ p + Z.of_nat (length (l ++ [0])) <= q).
  { destruct (Z.le_gt_cases (q + Z.of_nat (length (l ++ [0]))) p); [auto |].
    destruct (Z.le_gt_cases (p + Z.of_nat (length (l ++ [0]))) q); [auto |]. exfalso.
    set (x := Z.max p q). assert (Hx : m !! x = None) by (apply Hf; lia).
    destruct (bytes_accessible _ _ _ Hb x) as [b Eb]; [lia | congruence]. }
  rewrite <- Hlen. rewrite (memcpy_copies m1 q p (l ++ [0]) Hb1); cbn [obind];
    [| rewrite Hlen; exact Ha | exact Hsep |].
  - exists q, (LibcString.write m1 q (l ++ [0])). split; [reflexivity |]. split; [| split; [tauto |]].
    + right. split; [exact Hq |]. split; [split; [apply write_bytes | exact Hl] | exact Hsz].
    + intros x Hx. rewrite <- Hk by exact Hx. apply write_frame.
      destruct (Z.le_gt_cases q x); [| lia]. destruct (Z.le_gt_cases (q + Z.of_nat (length (l ++ [0]))) x); [lia |].
      rewrite (Hf x) in Hx by lia. destruct Hx; discriminate.
  - apply Forall_app. split; [| repeat constructor; lia]. eapply Forall_impl; [exact Hl |]. cbn. lia.
Qed.

Lemma do_close_spec fd s : fds (pr_sys (do_close fd s)) = delete fd (fds (pr_sys s)) /\
  pending (pr_sys (do_close fd s)) = pending (pr_sys s) /\ pr_mem (do_close fd s) = pr_mem s.
Proof.
  destruct (close_closes (pr_sys s) fd) as (r & y & E & Hf & Hp). unfold do_close. rewrite E. auto.
Qed.

Lemma do_dup2_spec a b f s : fds (pr_sys s) !! a = Some f -> fds (pr_sys s) !! b = None ->
  Z.of_nat (size (fds (pr_sys s))) < open_max ->
  fds (pr_sys (do_dup2 a b s)) = <[b := f]> (fds (pr_sys s)) /\
  pending (pr_sys (do_dup2 a b s)) = pending (pr_sys s) /\ pr_mem (do_dup2 a b s) = pr_mem s.
Proof.
  intros Ha Hb Hs. destruct (dup2_opens _ _ _ _ Ha Hb Hs) as (r & y & E & Hf & Hp). unfold do_dup2. rewrite E. auto.
Qed.

Lemma do_dup_spec fd f s : fds (pr_sys s) !! fd = Some f -> Z.of_nat (size (fds (pr_sys s))) < open_max ->
  exists r s', do_dup fd s = (r, s') /\ fds (pr_sys s) !! r = None /\
    fds (pr_sys s') = <[r := f]> (fds (pr_sys s)) /\ pr_mem s' = pr_mem s.
Proof.
  intros Hf Hs. destruct (dup_opens _ _ _ Hf Hs) as (r & y & E & Hn & Hf' & _). unfold do_dup. rewrite E.
  exists r, (mk_proc (pr_mem s) y). auto.
Qed.

(** Both processes replace the standard streams in the same way. *)
Definition set_streams (a b c : Z) (s : proc) : proc :=
  do_dup2 c 2 (do_dup2 b 1 (do_dup2 a 0 (do_close 2 (do_close 1 (do_close 0 s))))).

Lemma set_streams_spec a b c fa fb fc s :
  fds (pr_sys s) !! a = Some fa -> fds (pr_sys s) !! b = Some fb -> fds (pr_sys s) !! c = Some fc ->
  ~ 0 <= a <= 2 -> ~ 0 <= b <= 2 -> ~ 0 <= c <= 2 ->
  is_Some (fds (pr_sys s) !! 0) -> is_Some (fds (pr_sys s) !! 1) -> is_Some (fds (pr_sys s) !! 2) ->
  Z.of_nat (size (fds (pr_sys s))) <= open_max ->
  fds (pr_sys (set_streams a b c s)) = <[2 := fc]> (<[1 := fb]> (<[0 := fa]> (fds (pr_sys s)))) /\
  pending (pr_sys (set_streams a b c s)) = pending (pr_sys s) /\ pr_mem (set_streams a b c s) = pr_mem s.
Proof.
  intros Ha Hb Hc Na Nb Nc [f0 H0] [f1 H1] [f2 H2] Hs. unfold set_streams.
  destruct (do_close_spec 0 s) as (F1 & P1 & M1). set (s1 := do_close 0 s) in *. clearbody s1.
  destruct (do_close_spec 1 s1) as (F2 & P2 & M2). set (s2 := do_close 1 s1) in *. clearbody s2.
  destruct (do_close_spec 2 s2) as (F3 & P3 & M3). set (s3 := do_close 2 s2) in *. clearbody s3.
  assert (Hs3 : Z.of_nat (size (fds (pr_sys s3))) + 3 <= open_max).
  { rewrite F3, map_size_delete_Some by (rewrite F2, F1, !lookup_delete_ne by lia; eauto).
    rewrite F2, map_size_delete_Some by (rewrite F1, !lookup_delete_ne by lia; eauto).
    rewrite F1, map_size_delete_Some by eauto.
    assert (E : (3 <= size (fds (pr_sys s)))%nat); [| lia].
    rewrite <- (insert_delete_id _ _ _ H0), map_size_insert_None by apply lookup_delete_eq.
    rewrite <- (insert_delete_id (delete 0 (fds (pr_sys s))) 1 f1) by (rewrite lookup_delete_ne by lia; exact H1).
    rewrite map_size_insert_None by apply lookup_delete_eq.
    rewrite <- (insert_delete_id (delete 1 (delete 0 (fds (pr_sys s)))) 2 f2) by (rewrite !lookup_delete_ne by lia; exact H2).
    rewrite map_size_insert_None by apply lookup_delete_eq. lia. }
  assert (L : forall x, ~ 0 <= x <= 2 -> fds (pr_sys s3) !! x = fds (pr_sys s) !! x).
  { intros x Hx. rewrite F3, F2, F1, !lookup_delete_ne by lia. reflexivity. }
  assert (N : forall x, 0 <= x <= 2 -> fds (pr_sys s3) !! x = None).
  { intros x Hx. rewrite F3, F2, F1. assert (x = 0 \/ x = 1 \/ x = 2) as [-> | [-> | ->]] by lia;
      rewrite ?(lookup_delete_ne _ 2), ?(lookup_delete_ne _ 1) by lia; apply lookup_delete_eq. }
  destruct (do_dup2_spec a 0 fa s3) as (F4 & P4 & M4); [rewrite L; assumption | apply N; lia | lia |].
  set (s4 := do_dup2 a 0 s3) in *. clearbody s4.
  destruct (do_dup2_spec b 1 fb s4) as (F5 & P5 & M5).
  { rewrite F4, lookup_insert_ne by lia. rewrite L; assumption. }
  { rewrite F4, lookup_insert_ne by lia. apply N. lia. }
  { rewrite F4, map_size_insert_None by (apply N; lia). lia. }
  set (s5 := do_dup2 b 1 s4) in *. clearbody s5.
  destruct (do_dup2_spec c 2 fc s5) as (F6 & P6 & M6).
  { rewrite F5, F4, !lookup_insert_ne by lia. rewrite L; assumption. }
  { rewrite F5, F4, !lookup_insert_ne by lia. apply N. lia. }
  { rewrite F5, map_size_insert_None by (rewrite F4, lookup_insert_ne by lia; apply N; lia).
    rewrite F4, map_size_insert_None by (apply N; lia). lia. }
  split; [| split; congruence]. rewrite F6, F5, F4, F3, F2, F1.
  apply map_eq. intros x. destruct (decide (x = 2)) as [-> |]; [rewrite !lookup_insert_eq; reflexivity |].
  rewrite !(lookup_insert_ne _ 2) by lia. destruct (decide (x = 1)) as [-> |]; [rewrite !lookup_insert_eq; reflexivity |].
  rewrite !(lookup_insert_ne _ 1) by lia. destruct (decide (x = 0)) as [-> |]; [rewrite !lookup_insert_eq; reflexivity |].
  rewrite !lookup_insert_ne, !lookup_delete_ne by lia. reflexivity.
Qed.
End Descriptors.

(** A table with more descriptors. *)
Section Tables.
Context {V : Type}.
Implicit Types (T : gmap Z V) (L : list (Z * V)).

Definition extend T L : gmap Z V := foldr (fun e T => <[e.1 := e.2]> T) T L.
Definition new_in T L : Prop := NoDup L.*1 /\ Forall (fun k => T !! k = None) L.*1.

Lemma extend_none T L x : extend T L !! x = None <-> T !! x = None /\ x ∉ L.*1.
Proof.
  induction L as [| [k v] L IH]; cbn; [split; [intros H; split; [exact H | apply not_elem_of_nil] | tauto] |].
  rewrite lookup_insert_None, IH, not_elem_of_cons. intuition congruence.
Qed.
Lemma extend_in T L k v : new_in T L -> (k, v) ∈ L -> extend T L !! k = Some v.
Proof.
  intros [Hnd _] Hin. induction L as [| [k' v'] L IH]; [by apply elem_of_nil in Hin |].
  cbn in Hnd |- *. apply NoDup_cons in Hnd. destruct Hnd as [Hni Hnd]. apply elem_of_cons in Hin. destruct Hin as [[= -> ->] | Hin].
  - apply lookup_insert_eq.
  - rewrite lookup_insert_ne; [exact (IH Hnd Hin) |]. intros ->. apply Hni. apply list_elem_of_fmap. by exists (k, v).
Qed.
Lemma extend_old T L x v : new_in T L -> T !! x = Some v -> extend T L !! x = Some v.
Proof.
  intros [_ Hn] Hx. induction L as [| [k' v'] L IH]; [exact Hx |]. cbn in Hn |- *. apply Forall_cons in Hn. destruct Hn as [Hk Hn].
  rewrite lookup_insert_ne; [exact (IH Hn) | congruence].
Qed.
Lemma extend_new T L k v : new_in T L -> extend T L !! k = None -> new_in T ((k, v) :: L).
Proof.
  intros [H1 H2] H. apply extend_none in H. destruct H. split; cbn; [by apply NoDup_cons | by apply Forall_cons].
Qed.
Lemma extend_size T L : new_in T L -> size (extend T L) = (length L + size T)%nat.
Proof.
  intros [H1 H2]. induction L as [| [k v] L IH]; [reflexivity |]. cbn in *. apply NoDup_cons in H1. apply Forall_cons in H2.
  transitivity (S (size (extend T L))); [apply map_size_insert_None, extend_none; tauto | f_equal; apply IH; tauto].
Qed.
End Tables.

(** An entry of a list that is written out. *)
Ltac in_list := repeat first [apply list_elem_of_here | apply list_elem_of_further].

Section Running.
Context `{HP : !PrivateHeap} `{SY : !System}.
Context (no_stdin no_stdout no_stderr bad_stdout bad_stderr failed space : Z) (execvp : sys -> Z -> option Z).
Context (Hread : forall s fd n, fst (read s fd n) <> None).
Context (Hwrite : forall s fd l, fst (sys_write s fd l) <> -1).
Context (Hrealloc : forall m p n, fst (private_realloc m p n) <> NULL).
Context (Hmalloc : forall m n, fst (private_malloc m n) <> NULL).

Lemma open_pipe_spec msg d s : Z.of_nat (size (fds (pr_sys s))) + 2 <= open_max ->
  exists a b fa fb s', open_pipe msg d s = Ret ((a, b), (d, s')) /\ pr_mem s' = pr_mem s /\
    pipe (pr_sys s) = (0, (a, b), pr_sys s') /\
    a <> b /\ fds (pr_sys s) !! a = None /\ fds (pr_sys s) !! b = None /\
    fds (pr_sys s') = <[b := fb]> (<[a := fa]> (fds (pr_sys s))) /\ fa <> fb /\
    forall fd f, fds (pr_sys s) !! fd = Some f -> f <> fa /\ f <> fb.
Proof.
  intros Hs. destruct (pipe_opens _ Hs) as (a & b & fa & fb & y & E & Hab & Ha & Hb & Hf & Hfab & Hn).
  unfold open_pipe. rewrite E. cbn. exists a, b, fa, fb, (mk_proc (pr_mem s) y).
  cbn [pr_mem pr_sys]. repeat split; try assumption; intros; eapply Hn; eassumption.
Qed.

Lemma fetch_spec fuel fd f msg d s : fds (pr_sys s) !! fd = Some f ->
  (length (pending (pr_sys s) f) < fuel)%nat -> Z.of_nat (length (pending (pr_sys s) f)) < 2 ^ 30 ->
  exists p s', fetch fuel fd msg d s = Ret (p, (d, s')) /\ fetched (pr_mem s) f (pending (pr_sys s) f) p s s'.
Proof.
  intros Hf H1 H2. destruct (fd_read_spec Hread Hrealloc Hmalloc fuel fd f 256 s ltac:(lia) Hf H1 H2) as (p & s' & E & H).
  unfold fetch. rewrite E. cbn [obind]. destruct (Z.eqb_spec p NULL) as [Hp |]; [destruct (ft_nonnull _ _ _ _ _ _ H Hp) |].
  exists p, s'. auto.
Qed.

Lemma fetched_frame m0 f l p s s' x : fetched m0 f l p s s' -> is_Some (m0 !! x) -> pr_mem s' !! x = m0 !! x.
Proof. intros H. destruct (ft_block _ _ _ _ _ _ H) as (k & (_ & _ & Hk) & _). apply Hk. Qed.

Lemma send_spec (d : ipr_t) w l s : string_or_null (pr_mem s) (stdins d) l ->
  exists r y, fds y = fds (pr_sys s) /\ pending y = pending (pr_sys s) /\ r <> -1 /\
    (if i2b (stdins d) then
       let* n := strlen (pr_mem s) (stdins d) in
       let* c := load_list (Z.to_nat n) (pr_mem s) (stdins d) in
       let (r, y) := sys_write (pr_sys s) w c in Ret (r, mk_proc (pr_mem s) y)
     else Ret (0, s)) = Ret (r, mk_proc (pr_mem s) y).
Proof.
  intros [[Hn ->] | (Hn & Hc & _)].
  - rewrite Hn. exists 0, (pr_sys s). destruct s. repeat split. discriminate.
  - destruct (Z.eqb_spec (stdins d) NULL) as [| _]; [contradiction |].
    replace (i2b (stdins d)) with true by (unfold i2b, NULL in *; destruct (Z.eqb_spec (stdins d) 0); [contradiction | reflexivity]).
    rewrite (strlen_cstr _ _ _ Hc). cbn [obind]. rewrite Nat2Z.id.
    assert (Hb : bytes (pr_mem s) (stdins d) l) by (destruct Hc as [Hb _]; apply bytes_app in Hb; apply Hb).
    rewrite (load_list_spec _ _ _ Hb). cbn [obind].
    pose proof (Hwrite (pr_sys s) w l) as Hr. destruct (sys_write (pr_sys s) w l) as [r y] eqn:E.
    destruct (write_keeps _ _ _ _ _ E). exists r, y. auto.
Qed.

(** The parent after [fork]: the standard streams are those that were saved, all ends of
    the pipes are closed, and the outputs of the command are in the result. *)
Lemma parent_spec fuel (a1 b1 a2 b2 a3 b3 o0 o1 o2 child_pid : Z) (f0 f1 f2 fo fe : file) (d : ipr_t) (l : list Z) (s : proc) :
  let V := fds (pr_sys s) in
  V !! o0 = Some f0 -> V !! o1 = Some f1 -> V !! o2 = Some f2 -> V !! a2 = Some fo -> V !! a3 = Some fe -> fo <> fe ->
  is_Some (V !! 0) -> is_Some (V !! 1) -> is_Some (V !! 2) -> Z.of_nat (size V) <= open_max ->
  Forall (fun x => ~ 0 <= x <= 2) [o0; o1; o2; a2; a3] -> NoDup [a1; b2; b3; a2; a3] ->
  string_or_null (pr_mem s) (stdins d) l ->
  (forall f, (length (pending (pr_sys s) f) < fuel)%nat /\ Z.of_nat (length (pending (pr_sys s) f)) < 2 ^ 30) ->
  exists d' s', parent bad_stdout bad_stderr fuel (a1, b1) (a2, b2) (a3, b3) o0 o1 o2 child_pid d s = Ret (Returns (Some d'), s') /\
    bytes (pr_mem s') (stdouts d') (pending (pr_sys s) fo ++ [0]) /\
    bytes (pr_mem s') (stderrs d') (pending (pr_sys s) fe ++ [0]) /\
    error d' = error d /\ stdins d' = stdins d /\ pid d' = child_pid /\
    (forall x, is_Some (pr_mem s !! x) -> pr_mem s' !! x = pr_mem s !! x) /\
    fds (pr_sys s') = delete b1 (delete a3 (delete a2 (delete a1 (delete b3 (delete b2
      (<[2 := f2]> (<[1 := f1]> (<[0 := f0]> V)))))))).
Proof.
  intros V H0 H1 H2 Ho He Hne S0 S1 S2 Hs Hrange Hnd Hin Hpend.
  rewrite !Forall_cons in Hrange. destruct Hrange as (R0 & R1 & R2 & R3 & R4 & _).
  unfold parent. change (do_dup2 o2 2 (do_dup2 o1 1 (do_dup2 o0 0 (do_close 2 (do_close 1 (do_close 0 s))))))
    with (set_streams o0 o1 o2 s).
  destruct (set_streams_spec o0 o1 o2 f0 f1 f2 s H0 H1 H2 R0 R1 R2 S0 S1 S2 Hs) as (F1 & P1 & M1).
  set (s1 := set_streams o0 o1 o2 s) in *. clearbody s1. cbn [fst snd].
  destruct (do_close_spec b2 s1) as (F2 & P2 & M2). set (s2 := do_close b2 s1) in *. clearbody s2.
  destruct (do_close_spec b3 s2) as (F3 & P3 & M3). set (s3 := do_close b3 s2) in *. clearbody s3.
  destruct (do_close_spec a1 s3) as (F4 & P4 & M4). set (s4 := do_close a1 s3) in *. clearbody s4.
  assert (M : pr_mem s4 = pr_mem s) by congruence. assert (P : pending (pr_sys s4) = pending (pr_sys s)) by congruence.
  rewrite <- M in Hin. destruct (send_spec d b1 l s4 Hin) as (r & y & Fy & Py & Hr & E). rewrite E. cbn [obind].
  rewrite (proj2 (Z.eqb_neq r (-1)) Hr). clear E.
  repeat (apply NoDup_cons in Hnd; destruct Hnd as [?Hnin Hnd]). rewrite ?not_elem_of_cons in *. destruct_and?.
  assert (Ey : forall x, x <> b2 -> x <> b3 -> x <> a1 -> ~ 0 <= x <= 2 -> fds y !! x = V !! x).
  { intros x Hx1 Hx2 Hx3 Hx. rewrite Fy, F4, lookup_delete_ne, F3, lookup_delete_ne, F2, lookup_delete_ne, F1 by congruence.
    assert (x <> 0 /\ x <> 1 /\ x <> 2) as (? & ? & ?) by (clear -Hx; lia).
    rewrite (lookup_insert_ne _ 2), (lookup_insert_ne _ 1), (lookup_insert_ne _ 0) by congruence. reflexivity. }
  destruct (fetch_spec fuel a2 fo bad_stdout d (mk_proc (pr_mem s4) y)) as (out & s5 & E5 & Ft5); cbn [pr_sys].
  { rewrite Ey by (assumption || congruence). exact Ho. }
  { rewrite Py, P. apply Hpend. }
  { rewrite Py, P. apply Hpend. }
  rewrite E5. cbn [obind fst snd pr_sys] in *. pose proof (ft_fds _ _ _ _ _ _ Ft5) as F5. cbn in F5.
  pose proof (ft_pending _ _ _ _ _ _ Ft5 fe ltac:(congruence)) as P5. cbn in P5.
  destruct (fetch_spec fuel a3 fe bad_stderr (set_stdouts d out) s5) as (err & s6 & E6 & Ft6).
  { rewrite F5, Ey by (assumption || congruence). exact He. }
  { rewrite P5, Py, P. apply Hpend. }
  { rewrite P5, Py, P. apply Hpend. }
  rewrite E6. cbn [obind fst snd]. pose proof (ft_fds _ _ _ _ _ _ Ft6) as F6.
  destruct (do_close_spec a2 s6) as (F7 & _ & M7). set (s7 := do_close a2 s6) in *. clearbody s7.
  destruct (do_close_spec a3 s7) as (F8 & _ & M8). set (s8 := do_close a3 s7) in *. clearbody s8.
  destruct (do_close_spec b1 s8) as (F9 & _ & M9). set (s9 := do_close b1 s8) in *. clearbody s9.
  destruct (waitpid (pr_sys s9) child_pid) as [st y'] eqn:Ew. pose proof (wait_keeps _ _ _ _ Ew) as Fw.
  assert (M6 : pr_mem s9 = pr_mem s6) by congruence.
  pose proof (ft_bytes _ _ _ _ _ _ Ft5) as B5. pose proof (ft_bytes _ _ _ _ _ _ Ft6) as B6.
  cbn [pr_sys] in B5. rewrite Py, P in B5. rewrite P5, Py, P in B6.
  eexists _, _. split; [reflexivity |]. cbn [pr_mem pr_sys stdouts stderrs error stdins pid set_status set_stderrs set_stdouts].
  rewrite M6. split; [| split; [exact B6 | split; [reflexivity | split; [reflexivity | split; [reflexivity | split]]]]].
  - intros i b Hi. rewrite (fetched_frame _ _ _ _ _ _ _ Ft6); [exact (B5 i b Hi) | rewrite (B5 i b Hi); eauto].
  - intros x Hx. rewrite <- M in Hx |- *. rewrite (fetched_frame _ _ _ _ _ _ _ Ft6), (fetched_frame _ _ _ _ _ _ _ Ft5);
      [reflexivity | exact Hx | rewrite (fetched_frame _ _ _ _ _ _ _ Ft5); exact Hx].
  - rewrite Fw, F9, F8, F7, F6, F5, Fy, F4, F3, F2, F1. reflexivity.
Qed.

(** The command's stream [n] is the write end of a pipe whose read end is the file [f]. *)
Definition piped (y : sys) (n : Z) (f : file) : Prop :=
  exists s0 a b s1, pipe s0 = (0, (a, b), s1) /\ fds s1 !! a = Some f /\ fds y !! n = fds s1 !! b.

(** A pipe and a duplicate, on a table with new descriptors. *)
Lemma open_pipe_extends T L msg d s : fds (pr_sys s) = extend T L -> new_in T L ->
  Z.of_nat (length L + size T) + 2 <= open_max ->
  exists a b fa fb s', open_pipe msg d s = Ret ((a, b), (d, s')) /\ pr_mem s' = pr_mem s /\
    fds (pr_sys s') = extend T ((b, fb) :: (a, fa) :: L) /\ new_in T ((b, fb) :: (a, fa) :: L) /\
    pipe (pr_sys s) = (0, (a, b), pr_sys s') /\ forall fd f, (fd, f) ∈ L -> f <> fa.
Proof.
  intros HF HL Hs. pose proof (extend_size T L HL) as Hsz.
  destruct (open_pipe_spec msg d s) as (a & b & fa & fb & s' & E & M & P & D & A & B & F & _ & N); [rewrite HF; lia |].
  rewrite HF in A, B, F, N. exists a, b, fa, fb, s'. split; [exact E |]. split; [exact M |]. split; [exact F |].
  split; [| split; [exact P |]].
  - apply extend_new; [by apply extend_new |]. cbn. by rewrite lookup_insert_ne.
  - intros fd f Hin. apply (N fd f). apply extend_in; assumption.
Qed.
Lemma do_dup_extends T L fd f s : fds (pr_sys s) = extend T L -> new_in T L -> T !! fd = Some f ->
  Z.of_nat (length L + size T) < open_max ->
  exists r s', do_dup fd s = (r, s') /\ pr_mem s' = pr_mem s /\
    fds (pr_sys s') = extend T ((r, f) :: L) /\ new_in T ((r, f) :: L).
Proof.
  intros HF HL Hf Hs. pose proof (extend_size T L HL) as Hsz.
  destruct (do_dup_spec fd f s) as (r & s' & E & N & F & M); [rewrite HF; by apply extend_old | rewrite HF; lia |].
  rewrite HF in N, F. exists r, s'. split; [exact E |]. split; [exact M |]. split; [exact F | by apply extend_new].
Qed.

(** The table after the calls: the nine new descriptors are gone but for the three
    duplicates of the standard streams. *)
Lemma closed_table (T : gmap Z file) (a1 b1 a2 b2 a3 b3 o0 o1 o2 : Z) (f0 f1 f2 r1 w1 r2 w2 r3 w3 x0 x1 x2 : file) :
  T !! 0 = Some f0 -> T !! 1 = Some f1 -> T !! 2 = Some f2 ->
  let L := [(o2, f2); (o1, f1); (o0, f0); (b3, w3); (a3, r3); (b2, w2); (a2, r2); (b1, w1); (a1, r1)] in new_in T L ->
  delete b1 (delete a3 (delete a2 (delete a1 (delete b3 (delete b2 (<[2 := f2]> (<[1 := f1]> (<[0 := f0]>
    (<[2 := x2]> (<[1 := x1]> (<[0 := x0]> (extend T L)))))))))))) =
  <[o2 := f2]> (<[o1 := f1]> (<[o0 := f0]> T)).
Proof.
  intros H0 H1 H2 L [Hnd Hn]. unfold L in *. clear L. cbn in Hnd, Hn |- *. rewrite !Forall_cons in Hn.
  repeat (apply NoDup_cons in Hnd; destruct Hnd as [?Hnin Hnd]). rewrite ?not_elem_of_cons in *.
  clear HP Hread Hwrite Hrealloc Hmalloc. destruct_and?.
  apply map_eq. intros x. rewrite !lookup_delete, !lookup_insert.
  repeat (case_decide; subst; try congruence).
Qed.

Section Starting.
Context (T : gmap Z file) (L : list (Z * file)) (HL : new_in T L) (f0 f1 f2 : file).
Context (T0 : T !! 0 = Some f0) (T1 : T !! 1 = Some f1) (T2 : T !! 2 = Some f2).

(** The new descriptors are not those of the standard streams. *)
Lemma new_not_standard x f : (x, f) ∈ L -> ~ 0 <= x <= 2.
Proof.
  intros Hx Hr. destruct HL as [_ H]. rewrite Forall_fmap, Forall_forall in H. specialize (H _ Hx). cbn in H.
  assert (x = 0 \/ x = 1 \/ x = 2) as [-> | [-> | ->]] by lia; congruence.
Qed.

Lemma set_streams_new a b c fa fb fc s : fds (pr_sys s) = extend T L -> Z.of_nat (length L + size T) <= open_max ->
  (a, fa) ∈ L -> (b, fb) ∈ L -> (c, fc) ∈ L ->
  fds (pr_sys (set_streams a b c s)) = <[2 := fc]> (<[1 := fb]> (<[0 := fa]> (extend T L))) /\
  pr_mem (set_streams a b c s) = pr_mem s.
Proof.
  intros HF Hs Ha Hb Hc. destruct (set_streams_spec a b c fa fb fc s) as (F & _ & M); rewrite ?HF; eauto using extend_in, new_not_standard.
  - eexists. apply extend_old; eassumption.
  - eexists. apply extend_old; eassumption.
  - eexists. apply extend_old; eassumption.
  - rewrite (extend_size T L HL). exact Hs.
  - rewrite <- HF. auto.
Qed.
End Starting.

(** Up to [fork]: the pipes are open, and the standard streams are on them. *)
Lemma shexec_starts fuel d s f0 f1 f2 : error d = 0 ->
  let T := fds (pr_sys s) in
  T !! 0 = Some f0 -> T !! 1 = Some f1 -> T !! 2 = Some f2 -> Z.of_nat (size T) + 9 <= open_max ->
  exists a1 b1 a2 b2 a3 b3 o0 o1 o2 r1 w1 r2 w2 r3 w3 s7,
    let L := [(o2, f2); (o1, f1); (o0, f0); (b3, w3); (a3, r3); (b2, w2); (a2, r2); (b1, w1); (a1, r1)] in
    new_in T L /\ r2 <> r3 /\ fds (pr_sys s7) = <[2 := w3]> (<[1 := w2]> (<[0 := r1]> (extend T L))) /\
    pr_mem s7 = pr_mem s /\ piped (pr_sys s7) 1 r2 /\ piped (pr_sys s7) 2 r3 /\
    __shexec no_stdin no_stdout no_stderr bad_stdout bad_stderr failed space execvp fuel d s =
      let (p, y) := fork (pr_sys s7) in
      if i2b p then parent bad_stdout bad_stderr fuel (a1, b1) (a2, b2) (a3, b3) o0 o1 o2 p d (mk_proc (pr_mem s7) y)
      else child failed space execvp (a1, b1) (a2, b2) (a3, b3) d (mk_proc (pr_mem s7) y).
Proof.
  intros Hd T T0 T1 T2 Hsz. unfold __shexec.
  destruct (open_pipe_extends T [] no_stdin d s) as (a1 & b1 & r1 & w1 & s1 & E1 & M1 & F1 & L1 & _ & _);
    [reflexivity | split; constructor | cbn; lia |]. rewrite E1. cbn [obind fst snd].
  destruct (open_pipe_extends T _ no_stdout d s1 F1 L1) as (a2 & b2 & r2 & w2 & s2 & E2 & M2 & F2 & L2 & P2 & _); [cbn; lia |].
  rewrite E2. cbn [obind fst snd].
  destruct (open_pipe_extends T _ no_stderr d s2 F2 L2) as (a3 & b3 & r3 & w3 & s3 & E3 & M3 & F3 & L3 & P3 & N3); [cbn; lia |].
  rewrite E3. cbn [obind fst snd]. rewrite Hd. change (i2b 0) with false. cbv iota.
  destruct (do_dup_extends T _ 0 f0 s3 F3 L3 T0) as (o0 & s4 & E4 & M4 & F4 & L4); [cbn; lia |]. rewrite E4. cbv iota beta.
  destruct (do_dup_extends T _ 1 f1 s4 F4 L4 T1) as (o1 & s5 & E5 & M5 & F5 & L5); [cbn; lia |]. rewrite E5. cbv iota beta.
  destruct (do_dup_extends T _ 2 f2 s5 F5 L5 T2) as (o2 & s6 & E6 & M6 & F6 & L6); [cbn; lia |]. rewrite E6. cbv iota beta.
  change (do_dup2 _ 2 (do_dup2 _ 1 (do_dup2 _ 0 (do_close 2 (do_close 1 (do_close 0 s6)))))) with (set_streams a1 b2 b3 s6).
  destruct (set_streams_new T _ L6 f0 f1 f2 T0 T1 T2 a1 b2 b3 r1 w2 w3 s6 F6) as (F7 & M7); [cbn; lia | in_list | in_list | in_list |].
  set (s7 := set_streams a1 b2 b3 s6) in *. clearbody s7.
  exists a1, b1, a2, b2, a3, b3, o0, o1, o2, r1, w1, r2, w2, r3, w3, s7. cbv zeta.
  split; [exact L6 |]. split; [apply (N3 a2); in_list |]. split; [exact F7 |]. split; [congruence |].
  split; [| split; [| reflexivity]].
  - exists (pr_sys s1), a2, b2, (pr_sys s2). split; [exact P2 |]. rewrite F2, F7. split; [apply (extend_in _ _ _ _ L2); in_list |].
    rewrite (extend_in _ _ b2 w2 L2) by in_list. rewrite lookup_insert_ne by lia. apply lookup_insert_eq.
  - exists (pr_sys s2), a3, b3, (pr_sys s3). split; [exact P3 |]. rewrite F3, F7. split; [apply (extend_in _ _ _ _ L3); in_list |].
    rewrite (extend_in _ _ b3 w3 L3) by in_list. apply lookup_insert_eq.
Qed.
(** The ends that stay open for a while are other descriptors. *)
Lemma new_distinct (T : gmap Z file) (a1 b1 a2 b2 a3 b3 o0 o1 o2 : Z) (f0 f1 f2 r1 w1 r2 w2 r3 w3 : file) :
  new_in T [(o2, f2); (o1, f1); (o0, f0); (b3, w3); (a3, r3); (b2, w2); (a2, r2); (b1, w1); (a1, r1)] ->
  NoDup [a1; b2; b3; a2; a3] /\ (T !! o0 = None /\ T !! o1 = None /\ T !! o2 = None /\ NoDup [o0; o1; o2]).
Proof.
  intros [Hnd Hn]. cbn in Hnd, Hn. rewrite !Forall_cons in Hn. destruct Hn as (? & ? & ? & _).
  split; [| split; [assumption | split; [assumption | split; [assumption |]]]];
    clear -Hnd; repeat (apply NoDup_cons in Hnd; destruct Hnd as [?Hn Hnd]);
    rewrite ?not_elem_of_cons in *; destruct_and?;
    repeat (apply NoDup_cons; split; [rewrite ?not_elem_of_cons; split_and?; first [congruence | apply not_elem_of_nil] |]);
    apply NoDup_nil_2.
Qed.

(** A table whose standard streams are replaced. *)
Lemma replaced_streams (V : gmap Z file) x0 x1 x2 :
  let V' := <[2 := x2]> (<[1 := x1]> (<[0 := x0]> V)) in
  is_Some (V' !! 0) /\ is_Some (V' !! 1) /\ is_Some (V' !! 2) /\ (forall x, ~ 0 <= x <= 2 -> V' !! x = V !! x) /\
  (is_Some (V !! 0) -> is_Some (V !! 1) -> is_Some (V !! 2) -> size V' = size V).
Proof.
  cbv zeta. split; [| split; [| split; [| split]]].
  - rewrite !(lookup_insert_ne _ _ 0), lookup_insert_eq by lia. eauto.
  - rewrite (lookup_insert_ne _ _ 1), lookup_insert_eq by lia. eauto.
  - rewrite lookup_insert_eq. eauto.
  - intros x Hx. rewrite !lookup_insert_ne by lia. reflexivity.
  - intros H0 H1 H2. rewrite !map_size_insert_Some; [reflexivity | exact H0 | rewrite lookup_insert_ne by lia; exact H1 |].
    rewrite !lookup_insert_ne by lia. exact H2.
Qed.
End Running.

(** ** Properties *)

(** The system calls and the private heap do not fail, and this process is the parent. *)
Record calls_succeed `{HP : !PrivateHeap} `{SY : !System} : Prop := {
  reads_succeed : forall s fd n, fst (read s fd n) <> None;
  writes_succeed : forall s fd l, fst (sys_write s fd l) <> -1;
  reallocs_succeed : forall m p n, fst (private_realloc m p n) <> NULL;
  mallocs_succeed : forall m n, fst (private_malloc m n) <> NULL;
  is_parent : forall s, fst (fork s) <> 0
}.

(** The field [error] of the new structure is tested although nothing has been stored in
    it: if it happens not to be null, the command is not run, and the pipes stay open. *)
Lemma shexec_uninitialized `{HP : !PrivateHeap} `{SY : !System} (fuel : nat)
    (no_stdin no_stdout no_stderr bad_stdout bad_stderr failed space : Z) (execvp : sys -> Z -> option Z)
    (g : ipr_t) (data sin i : Z) (m : mem) (s : proc) :
  error g <> 0 -> Z.of_nat (size (fds (pr_sys s))) + 6 <= open_max -> nstrdup (pr_mem s) sin = Ret (i, m) ->
  exists s', shexec no_stdin no_stdout no_stderr bad_stdout bad_stderr failed space execvp fuel (Some g) data sin s =
      Ret (Returns (Some (mk_ipr NULL i NULL 0 0 0 (signo g) data (error g))), s') /\
    size (fds (pr_sys s')) = (6 + size (fds (pr_sys s)))%nat.
Proof.
  intros Hg Hs Hd. unfold shexec. rewrite Hd. cbn [obind]. unfold __shexec.
  set (d := mk_ipr NULL i NULL 0 0 0 (signo g) data (error g)).
  destruct (open_pipe_extends (fds (pr_sys s)) [] no_stdin d (mk_proc m (pr_sys s)))
    as (a1 & b1 & r1 & w1 & s1 & E1 & _ & F1 & L1 & _); [reflexivity | split; constructor | cbn; lia |]. rewrite E1. cbn [obind fst snd].
  destruct (open_pipe_extends _ _ no_stdout d s1 F1 L1)
    as (a2 & b2 & r2 & w2 & s2 & E2 & _ & F2 & L2 & _); [cbn; lia |]. rewrite E2. cbn [obind fst snd].
  destruct (open_pipe_extends _ _ no_stderr d s2 F2 L2)
    as (a3 & b3 & r3 & w3 & s3 & E3 & _ & F3 & L3 & _); [cbn; lia |]. rewrite E3. cbn [obind fst snd].
  change (error d) with (error g). unfold i2b. rewrite (proj2 (Z.eqb_neq _ _) Hg). cbn [negb]. exists s3. split; [reflexivity |].
  rewrite F3, (extend_size _ _ L3). reflexivity.
Qed.

(** C35.  When no system call fails or blocks, and if the field [error] of the new structure,
    which the code does not initialize, happens to be null, [shexec] runs the command and
    returns, with the whole output of the command on its standard output and on its
    standard error as terminated strings, with no message, and with the memory of the
    program kept; the standard streams of the program are restored and the six ends of
    the pipes are closed, but the three duplicates of the streams stay open.  If the
    field is not null, [shexec] returns without running the command, no output is stored,
    the field is taken for the message and the six ends of the pipes stay open. *)
Theorem shexec_exact `{HP : !PrivateHeap} `{SY : !System} (fuel : nat)
    (no_stdin no_stdout no_stderr bad_stdout bad_stderr failed space : Z) (execvp : sys -> Z -> option Z)
    (g : ipr_t) (data sin : Z) (l : list Z) (s : proc) (f0 f1 f2 : file) :
  calls_succeed -> string_or_null (pr_mem s) sin l ->
  let T := fds (pr_sys s) in
  T !! 0 = Some f0 -> T !! 1 = Some f1 -> T !! 2 = Some f2 -> Z.of_nat (size T) + 9 <= open_max ->
  (forall y p yc f, fork y = (p, yc) ->
     (length (pending yc f) < fuel)%nat /\ Z.of_nat (length (pending yc f)) < 2 ^ 30) ->
  (error g = 0 -> exists d s' y p yc fo fe o0 o1 o2,
    shexec no_stdin no_stdout no_stderr bad_stdout bad_stderr failed space execvp fuel (Some g) data sin s =
      Ret (Returns (Some d), s') /\
    fork y = (p, yc) /\ piped y 1 fo /\ piped y 2 fe /\
    bytes (pr_mem s') (stdouts d) (pending yc fo ++ [0]) /\
    bytes (pr_mem s') (stderrs d) (pending yc fe ++ [0]) /\
    error d = 0 /\ pid d = p /\ string_or_null (pr_mem s') (stdins d) l /\
    (forall x, is_Some (pr_mem s !! x) -> pr_mem s' !! x = pr_mem s !! x) /\
    (T !! o0 = None /\ T !! o1 = None /\ T !! o2 = None /\ NoDup [o0; o1; o2]) /\
    fds (pr_sys s') = <[o2 := f2]> (<[o1 := f1]> (<[o0 := f0]> T))) /\
  (error g <> 0 -> exists d s',
    shexec no_stdin no_stdout no_stderr bad_stdout bad_stderr failed space execvp fuel (Some g) data sin s =
      Ret (Returns (Some d), s') /\
    stdouts d = NULL /\ stderrs d = NULL /\ error d = error g /\ size (fds (pr_sys s')) = (6 + size T)%nat).
Proof.
  intros [Hread Hwrite Hrealloc Hmalloc Hpar] Hsin T T0 T1 T2 Hsz Hout.
  destruct (nstrdup_spec (pr_mem s) sin l Hmalloc Hsin) as (i & m & E & Hi & _ & Hm). split; intros Hg.
  2: { destruct (shexec_uninitialized fuel no_stdin no_stdout no_stderr bad_stdout bad_stderr failed space execvp
         g data sin i m s Hg ltac:(unfold T in Hsz; lia) E) as (s' & Es & Hn). eexists _, s'. split; [exact Es | auto]. }
  unfold shexec. rewrite E. cbn [obind]. clear E.
  set (d := mk_ipr _ _ _ _ _ _ _ _ _).
  destruct (shexec_starts no_stdin no_stdout no_stderr bad_stdout bad_stderr failed space execvp fuel d (mk_proc m (pr_sys s))
    f0 f1 f2 Hg T0 T1 T2 Hsz) as (a1 & b1 & a2 & b2 & a3 & b3 & o0 & o1 & o2 & r1 & w1 & r2 & w2 & r3 & w3 & s7 & L6 & D & F7 & M8 & Q1 & Q2 & E0).
  cbn [pr_sys pr_mem] in *. fold T in L6, F7. rewrite E0. set (L := [(o2, f2); _; _; _; _; _; _; _; _]) in *.
  assert (I : forall x f, (x, f) ∈ L -> extend T L !! x = Some f) by (intros x f; exact (extend_in T L x f L6)).
  assert (K : forall x f, T !! x = Some f -> extend T L !! x = Some f) by (intros x f; exact (extend_old T L x f L6)).
  assert (R : forall x f, (x, f) ∈ L -> ~ 0 <= x <= 2) by (intros x f; exact (new_not_standard T L L6 f0 f1 f2 T0 T1 T2 x f)).
  assert (Z6 : Z.of_nat (size (extend T L)) <= open_max) by (rewrite (extend_size T L L6); cbn; lia).
  assert (In4 : (a2, r2) ∈ L) by in_list. assert (In5 : (a3, r3) ∈ L) by in_list. assert (In6 : (o0, f0) ∈ L) by in_list.
  assert (In7 : (o1, f1) ∈ L) by in_list. assert (In8 : (o2, f2) ∈ L) by in_list.
  destruct (fork (pr_sys s7)) as [p yc] eqn:Ef. pose proof (Hpar (pr_sys s7)) as Hp. rewrite Ef in Hp. cbn in Hp.
  replace (i2b p) with true by (unfold i2b; destruct (Z.eqb_spec p 0); [contradiction | reflexivity]). cbv iota.
  pose proof (fork_keeps _ _ _ Ef) as F8.
  destruct (replaced_streams (extend T L) r1 w2 w3) as (S0 & S1 & S2 & E8 & SZ). rewrite <- F7, <- F8 in S0, S1, S2, E8, SZ.
  destruct (new_distinct T a1 b1 a2 b2 a3 b3 o0 o1 o2 _ _ _ _ _ _ _ _ _ L6) as (Hnd & Hold).
  destruct (parent_spec bad_stdout bad_stderr Hread Hwrite Hrealloc Hmalloc fuel a1 b1 a2 b2 a3 b3 o0 o1 o2 p f0 f1 f2 r2 r3 d l
    (mk_proc (pr_mem s7) yc)) as (d' & s' & E & B1 & B2 & Er & Ei & Epid & Fr & FT); cbn [pr_sys pr_mem].
  1, 2, 3, 4, 5: rewrite E8; eauto.
  1, 2, 3, 4: assumption.
  - rewrite SZ; eauto.
  - repeat constructor; eapply R; eassumption.
  - exact Hnd.
  - rewrite M8. exact Hi.
  - intros f. exact (Hout _ _ _ f Ef).
  - cbn [pr_sys pr_mem] in *. exists d', s', (pr_sys s7), p, yc, r2, r3, o0, o1, o2.
    split; [exact E |]. split; [exact Ef |]. split; [exact Q1 |]. split; [exact Q2 |].
    rewrite M8 in Fr. split; [exact B1 |]. split; [exact B2 |]. split; [rewrite Er; exact Hg |]. split; [exact Epid |].
    assert (Fr' : forall x, is_Some (pr_mem s !! x) -> pr_mem s' !! x = pr_mem s !! x).
    { intros x Hx. rewrite <- (Hm x Hx). apply Fr. rewrite (Hm x Hx). exact Hx. }
    split; [| split; [exact Fr' | split; [exact Hold |]]].
    + rewrite Ei. change (stdins d) with i. destruct Hi as [[-> ->] | (Hn & Hc & Hl)]; [left; auto | right].
      split; [exact Hn |]. split; [| exact Hl]. apply (cstr_frame m); [exact Hc |].
      intros x Hx. apply Fr. apply (cstr_accessible _ _ _ Hc). lia.
    + rewrite FT, F8, F7. apply (closed_table T a1 b1 a2 b2 a3 b3 o0 o1 o2 f0 f1 f2 r1 w1 r2 w2 r3 w3); assumption.
Qed.

(** ** An instance *)

(** A heap that puts each block after the accessible memory. *)
Definition next_address (m : mem) : Z := map_fold (fun a _ n => Z.max n (a + 1)) 100 m.
Lemma next_address_fresh m : 100 <= next_address m /\ forall x, next_address m <= x -> m !! x = None.
Proof.
  unfold next_address. revert m. apply (map_fold_weak_ind (fun r m => 100 <= r /\ forall x, r <= x -> m !! x = None)).
  - split; [lia |]. intros x _. apply lookup_empty.
  - intros a b m r _ [H1 H2]. split; [lia |]. intros x Hx. rewrite lookup_insert_ne by lia. apply H2. lia.
Qed.
Definition bump_private_heap : PrivateHeap.
Proof.
  refine {| owns := accessible;
            private_malloc := fun m n =>
              (next_address m, LibcString.write m (next_address m) (replicate (Z.to_nat n) 0));
            private_realloc := fun m p n =>
              (next_address m, LibcString.write m (next_address m)
                 ((fun i => match m !! (p + i) with Some b => b | None => 0 end) <$> seqZ 0 n)) |}.
  - auto.
  - intros m m' p n H Hd. exact (accessible_dom m m' p n Hd H).
  - intros m n p m' [= <- <-] _. split.
    + intros x Hx. apply (bytes_accessible _ _ _ (write_bytes m (next_address m) (replicate (Z.to_nat n) 0))).
      rewrite length_replicate. lia.
    + intros x Hx. apply (next_address_fresh m). lia.
  - intros m n p m' [= <- <-] x Hx. apply write_frame. left. destruct (next_address_fresh m) as [_ H].
    destruct (Z.le_gt_cases (next_address m) x); [| lia]. rewrite H in Hx by assumption. destruct Hx; discriminate.
  - intros m p k n q m' H [= <- <-] _. split; [| split].
    + intros x Hx. eapply bytes_accessible; [apply write_bytes |]. rewrite length_fmap, length_seqZ. lia.
    + intros i Hi Hn. destruct (H (p + i)) as [b Hb]; [lia |]. rewrite Hb.
      replace i with (Z.of_nat (Z.to_nat i)) by lia. apply write_bytes.
      rewrite list_lookup_fmap, lookup_seqZ_lt by lia. cbn.
      replace (p + (0 + Z.of_nat (Z.to_nat i))) with (p + i) by lia. rewrite Hb. reflexivity.
    + intros x Hx. left. apply (next_address_fresh m). lia.
  - intros m p k n q m' _ [= <- <-] x Hx _. apply write_frame. left. destruct (next_address_fresh m) as [_ H].
    destruct (Z.le_gt_cases (next_address m) x); [| lia]. rewrite H in Hx by assumption. destruct Hx; discriminate.
Defined.

(** A system whose commands write the same text on both streams. *)
Definition demo_output : list Z := [111; 107].
Definition new_file (t : gmap Z Z) : Z := fresh (map_img t : gset Z).
Definition new_file2 (t : gmap Z Z) : Z := fresh ({[new_file t]} ∪ (map_img t : gset Z)).
Definition new_fd (t : gmap Z Z) : Z := fresh (dom t : gset Z).
Lemma new_fd_fresh t : t !! new_fd t = None.
Proof. unfold new_fd. apply not_elem_of_dom. exact (is_fresh (dom t : gset Z)). Qed.
Definition demo_system : System.
Proof.
  refine {| sys := gmap Z Z * (Z -> list Z); file := Z; open_max := 100; fds := fst; pending := fun s f => map u8 (snd s f);
    pipe := fun s => let t := fst s in let a := new_fd t in let t1 := <[a := new_file t]> t in
      let b := new_fd t1 in (0, (a, b), (<[b := new_file2 t]> t1, snd s));
    dup := fun s fd => match fst s !! fd with
      | Some f => (new_fd (fst s), (<[new_fd (fst s) := f]> (fst s), snd s)) | None => (-1, s) end;
    dup2 := fun s a b => match fst s !! a with Some f => (b, (<[b := f]> (fst s), snd s)) | None => (-1, s) end;
    close := fun s fd => (0, (delete fd (fst s), snd s));
    read := fun s fd n => match fst s !! fd with
      | Some f => (Some (take (Z.to_nat n) (map u8 (snd s f))),
                   (fst s, fun f' => if f' =? f then drop (Z.to_nat n) (snd s f) else snd s f'))
      | None => (Some [], s) end;
    sys_write := fun s fd l => (Z.of_nat (length l), s);
    fork := fun s => (77, (fst s, fun _ => demo_output));
    waitpid := fun s p => (0, s);
    WEXITSTATUS := fun st => st; WIFSIGNALED := fun st => 0; WTERMSIG := fun st => 0 |}.
  - intros [t o] Hs. cbn in *. set (a := new_fd t). set (t1 := <[a := new_file t]> t).
    assert (Ha : t !! a = None) by apply new_fd_fresh.
    assert (Hb : t1 !! new_fd t1 = None) by apply new_fd_fresh.
    assert (Hf : forall fd f, t !! fd = Some f -> f ∈ (map_img t : gset Z)) by (intros; by eapply elem_of_map_img_2).
    assert (H1 : new_file t ∉ (map_img t : gset Z)) by exact (is_fresh (map_img t : gset Z)).
    assert (H2 : new_file2 t ∉ ({[new_file t]} ∪ map_img t : gset Z)) by exact (is_fresh ({[new_file t]} ∪ map_img t : gset Z)).
    apply not_elem_of_union in H2. destruct H2 as [H2 H3]. rewrite not_elem_of_singleton in H2.
    apply lookup_insert_None in Hb as Hb'. destruct Hb' as [Hb1 Hb2].
    exists a, (new_fd t1), (new_file t), (new_file2 t), (<[new_fd t1 := new_file2 t]> t1, o).
    repeat split; try assumption; try congruence; intros ->; eauto.
  - intros [t o] fd f Hf Hs. cbn in *. rewrite Hf. do 2 eexists. split; [reflexivity |]. repeat split.
    apply new_fd_fresh.
  - intros [t o] a f b Hf Hn Hs. cbn in *. rewrite Hf. do 2 eexists. repeat split.
  - intros [t o] fd. do 2 eexists. repeat split.
  - intros [t o] fd f n r s' Hf E. cbn in *. rewrite Hf in E. injection E as <- <-. cbn. split; [reflexivity |].
    split; [rewrite length_take; lia |]. split; [| split; [| split]].
    + apply Forall_take. apply List.Forall_map, List.Forall_forall. intros x _. unfold u8. apply Z.mod_pos_bound. lia.
    + rewrite Z.eqb_refl. rewrite <- (take_drop (Z.to_nat n) (map u8 (o f))) at 1. f_equal. symmetry. apply fmap_drop.
    + intros Ht Hn. destruct (map u8 (o f)) as [| c l]; [reflexivity |]. destruct (Z.to_nat n) eqn:En; [lia | discriminate].
    + intros f' Hf'. destruct (Z.eqb_spec f' f); [contradiction | reflexivity].
  - intros [t o] fd l r s' [= <- <-]. auto.
  - intros [t o] r s' [= <- <-]. reflexivity.
  - intros [t o] pid r s' [= <- <-]. reflexivity.
Defined.

(** A process with its three standard streams, that runs a command without input. *)
Definition demo_process : @proc demo_system :=
  @mk_proc demo_system ∅ (<[0 := 1]> (<[1 := 2]> (<[2 := 3]> ∅)), fun _ => []).
Definition demo_ipr : ipr_t := mk_ipr 0 0 0 0 0 0 0 0 0.

Lemma shexec_exact_witness : exists d (s' : @proc demo_system) o0 o1 o2,
  @shexec bump_private_heap demo_system 1 2 3 4 5 6 7 (fun _ _ => None) 5 (Some demo_ipr) 8 NULL demo_process =
    Ret (Returns (Some d), s') /\
  bytes (@pr_mem demo_system s') (stdouts d) [111; 107; 0] /\ bytes (@pr_mem demo_system s') (stderrs d) [111; 107; 0] /\
  @fds demo_system (@pr_sys demo_system s') =
    <[o2 := 3]> (<[o1 := 2]> (<[o0 := 1]> (<[0 := 1]> (<[1 := 2]> (<[2 := 3]> (∅ : gmap Z Z)))))).
Proof.
  destruct (@shexec_exact bump_private_heap demo_system 5 1 2 3 4 5 6 7 (fun _ _ => None) demo_ipr 8 NULL [] demo_process 1 2 3)
    as [H _].
  - split.
    + intros s fd n. cbn. destruct (_ !! fd); discriminate.
    + intros s fd l. cbn. lia.
    + intros m q n. cbn. destruct (next_address_fresh m). unfold NULL. lia.
    + intros m n. cbn. destruct (next_address_fresh m). unfold NULL. lia.
    + intros s. discriminate.
  - left. auto.
  - reflexivity.
  - reflexivity.
  - reflexivity.
  - vm_compute. discriminate.
  - intros y p yc f [= <- <-]. cbn. lia.
  - destruct (H eq_refl) as (d & s' & y & p & yc & fo & fe & o0 & o1 & o2 & E & Ef & _ & _ & B1 & B2 & _ & _ & _ & _ & _ & F).
    injection Ef as <- <-. exists d, s', o0, o1, o2. split; [exact E |]. split; [exact B1 |]. split; [exact B2 | exact F].
Defined.

(** After a return with an uninitialized message, [free_ipr] releases an address that was
    never allocated. *)
Theorem shexec_reads_uninitialized `{HP : !PrivateHeap} `{SY : !System} (fuel : nat)
    (no_stdin no_stdout no_stderr bad_stdout bad_stderr failed space : Z) (execvp : sys -> Z -> option Z)
    (g : ipr_t) (data ipr : Z) (s : proc) :
  error g <> 0 -> ipr <> 0 -> Z.of_nat (size (fds (pr_sys s))) + 6 <= open_max ->
  exists d s', shexec no_stdin no_stdout no_stderr bad_stdout bad_stderr failed space execvp fuel (Some g) data NULL s =
      Ret (Returns (Some d), s') /\ stdouts d = NULL /\ In (error g) (free_ipr ipr d).
Proof.
  intros Hg Hi Hs. destruct (shexec_uninitialized fuel no_stdin no_stdout no_stderr bad_stdout bad_stderr failed space execvp
    g data NULL NULL (pr_mem s) s Hg Hs eq_refl) as (s' & E & _).
  eexists _, s'. split; [exact E |]. split; [reflexivity |].
  unfold free_ipr, i2b. cbn [stdouts stderrs stdins error].
  rewrite (proj2 (Z.eqb_neq _ _) Hg), (proj2 (Z.eqb_neq _ _) Hi). cbn. auto.
Qed.
Lemma shexec_reads_uninitialized_witness : exists d (s' : @proc demo_system),
  @shexec bump_private_heap demo_system 1 2 3 4 5 6 7 (fun _ _ => None) 5 (Some (set_error demo_ipr 9)) 8 NULL demo_process =
    Ret (Returns (Some d), s') /\ stdouts d = NULL.
Proof.
  destruct (@shexec_reads_uninitialized bump_private_heap demo_system 5 1 2 3 4 5 6 7 (fun _ _ => None) (set_error demo_ipr 9) 8 1 demo_process)
    as (d & s' & E & H & _); [discriminate | discriminate | vm_compute; discriminate |].
  exists d, s'. split; assumption.
Defined.
