(* ===== verification/Trace.v ===== *)
(** * e_acsl_trace.h: the backtrace

    The walk along the frames of the stack, and the loop that reads the addresses which
    the walk has stored.  The symbols of the addresses come from a command (Shexec)
    and are only printed. *)

From S2P Require Import Prelude.

(** ** Definitions *)

(** [struct frame_layout]: the offsets of its fields. *)
Definition off_next : Z := 0.
Definition off_return_address : Z := 8.

(** The loop of [native_backtrace], which runs at most [size - cnt] times. *)
Fixpoint backtrace_loop (n : nat) (m : mem) (array top_stack stack_end current cnt : Z) : outcome (Z * mem) :=
  match n with
  | O => Ret (cnt, m)
  | S n =>
      if (current <? top_stack) || negb (current <? stack_end) then Ret (cnt, m)
      else
        let* ra := load64 m (current + off_return_address) in
        let* m := store64 m (array + 8 * cnt) ra in
        let* next := load64 m (current + off_next) in
        backtrace_loop n m array top_stack stack_end next (cnt + 1)
  end.

(** [top_frame] is the address of the frame of the function, [top_stack] an address in
    it, and [stack_end] the value of [__libc_stack_end]. *)
Definition native_backtrace (m : mem) (array size top_frame top_stack stack_end : Z) : outcome (Z * mem) :=
  backtrace_loop (Z.to_nat size) m array top_stack stack_end top_frame 0.

(** The number of the entries that [trace] asks for. *)
Definition trace_size : Z := 24.

(** [while ( *bb) ... bb++]: the addresses that are printed. *)
Fixpoint trace_addresses (fuel : nat) (m : mem) (bb : Z) : outcome (list Z) :=
  match fuel with
  | O => NoFuel
  | S fuel =>
      let* a := load64 m bb in
      if a =? 0 then Ret [] else let* l := trace_addresses fuel m (bb + 8) in Ret (a :: l)
  end.

(** [trace]: [bb] is the new array of [trace_size] pointers, which is not initialized. *)
Definition trace (fuel : nat) (m : mem) (bb top_frame top_stack stack_end : Z) : outcome (list Z) :=
  if bb =? NULL then Fault
  else let* (_, m) := native_backtrace m bb trace_size top_frame top_stack stack_end in trace_addresses fuel m bb.

(** ** Frames *)

Section Frames.
Context (top_stack stack_end : Z).

Definition on_stack (a : Z) : Prop := top_stack <= a < stack_end.

(** The frames from the one at [cur] on have the return addresses [l], and the next one
    is at [next]. *)
Inductive frames (m : mem) : Z -> list Z -> Z -> Prop :=
| frames_end cur : frames m cur [] cur
| frames_next cur ra nx l next : on_stack cur -> load64 m (cur + 8) = Ret ra -> load64 m cur = Ret nx ->
    frames m nx l next -> frames m cur (ra :: l) next.

(** An array of words. *)
Definition words (m : mem) (a : Z) (l : list Z) : Prop :=
  forall i v, l !! i = Some v -> load64 m (a + 8 * Z.of_nat i) = Ret v.

Lemma frames_frame m m' cur l next : frames m cur l next ->
  (forall x, top_stack <= x < stack_end + 16 -> m' !! x = m !! x) -> frames m' cur l next.
Proof.
  intros H Hm. induction H as [cur | cur ra nx l next Hs Hr Hn H IH]; [constructor |].
  unfold on_stack in Hs. apply (frames_next m' cur ra nx); [exact Hs | | | exact IH].
  - unfold load64 in *. rewrite <- Hr. apply load_le_frame. intros x Hx. apply Hm. lia.
  - unfold load64 in *. rewrite <- Hn. apply load_le_frame. intros x Hx. apply Hm. lia.
Qed.

Lemma backtrace_loop_spec (array size : Z) : stack_end + 16 <= array \/ array + 8 * size <= top_stack ->
  forall n m cur cnt l next, mem_ok m -> accessible m array (8 * size) -> frames m cur l next ->
  0 <= cnt -> Z.of_nat n = size - cnt -> (length l <= n)%nat -> (length l = n \/ ~ on_stack next) ->
  exists m', backtrace_loop n m array top_stack stack_end cur cnt = Ret (cnt + Z.of_nat (length l), m') /\
    words m' (array + 8 * cnt) l /\ mem_ok m' /\ dom m' = dom m /\
    forall x, ~ (array + 8 * cnt <= x < array + 8 * (cnt + Z.of_nat (length l))) -> m' !! x = m !! x.
Proof.
  intros Hap n. induction n as [| n IH]; intros m cur cnt l next Hm Ha Hf Hc Hn Hl Hend; cbn [backtrace_loop].
  { destruct l; [| cbn in Hl; lia]. exists m. cbn. rewrite Z.add_0_r. split_and!; auto; intros i v Hi; discriminate. }
  destruct Hf as [cur | cur ra nx l next Hs Hr Hnx Hf].
  - destruct Hend as [? | Hend]; [cbn in *; lia |]. unfold on_stack in Hend.
    replace ((cur <? top_stack) || negb (cur <? stack_end)) with true by lia.
    exists m. cbn. rewrite Z.add_0_r. split_and!; auto; intros i v Hi; discriminate.
  - unfold on_stack in Hs. replace ((cur <? top_stack) || negb (cur <? stack_end)) with false by lia.
    unfold off_return_address, off_next. rewrite Hr. cbn [obind]. rewrite Z.add_0_r.
    destruct (store_le_bytes 8 m (array + 8 * cnt) ra) as (m1 & E1 & D1 & L1).
    { intros x Hx. apply Ha. lia. }
    unfold store64. rewrite E1. cbn [obind].
    assert (Hfr : forall x, top_stack <= x < stack_end + 16 -> m1 !! x = m !! x).
    { intros x Hx. rewrite L1, decide_False by lia. reflexivity. }
    unfold load64 at 1. rewrite (load_le_frame 8 m m1 cur) by (intros x Hx; apply Hfr; lia).
    fold (load64 m cur). rewrite Hnx. cbn [obind]. pose proof (store_le_ok _ _ _ _ _ Hm E1) as Hm1.
    destruct (IH m1 nx (cnt + 1) l next) as (m' & E & W & O & D & F); try assumption; try lia.
    { exact (accessible_dom m m1 _ _ D1 Ha). }
    { exact (frames_frame m m1 nx l next Hf Hfr). }
    { cbn in Hl. lia. }
    { cbn in Hend. destruct Hend; [left; lia | right; assumption]. }
    exists m'. rewrite E. cbn [length]. split; [replace (cnt + 1 + Z.of_nat (length l)) with (cnt + Z.of_nat (S (length l))) by lia; reflexivity |].
    split; [| split; [exact O | split; [congruence |]]].
    + intros i v Hi. destruct i as [| i]; cbn in Hi.
      * injection Hi as <-. rewrite Z.add_0_r. unfold load64.
        rewrite (load_le_frame 8 m1 m') by (intros x Hx; apply F; lia).
        rewrite (load_store_le 8 m (array + 8 * cnt) ra m1 E1). f_equal.
        unfold load64 in Hr. apply load_le_range in Hr; [| exact Hm]. apply Z.mod_small. exact Hr.
      * replace (array + 8 * cnt + 8 * Z.of_nat (S i)) with (array + 8 * (cnt + 1) + 8 * Z.of_nat i) by lia. apply W. exact Hi.
    + intros x Hx. rewrite F by lia. rewrite L1, decide_False by lia. reflexivity.
Qed.
End Frames.

Lemma trace_addresses_spec fuel m bb l r : words m bb (l ++ r) -> Forall (fun a => a <> 0) l -> r = [0] ->
  (length l < fuel)%nat -> trace_addresses fuel m bb = Ret l.
Proof.
  intros Hw Hl -> Hf. revert fuel bb Hw Hf. induction Hl as [| a l Ha Hl IH]; intros [| fuel] bb Hw Hf; cbn in Hf; try lia;
    cbn [trace_addresses].
  - pose proof (Hw 0%nat 0 eq_refl) as E. rewrite Z.add_0_r in E. rewrite E. reflexivity.
  - pose proof (Hw 0%nat a eq_refl) as E. rewrite Z.add_0_r in E. rewrite E. cbn [obind].
    rewrite (proj2 (Z.eqb_neq a 0) Ha), (IH fuel (bb + 8)); [reflexivity | | lia].
    intros i v Hi. replace (bb + 8 + 8 * Z.of_nat i) with (bb + 8 * Z.of_nat (S i)) by lia. apply Hw. exact Hi.
Qed.

(** ** Properties *)

(** [native_backtrace] stores the return addresses of the frames from the top of the
    stack on, up to the size of the array or the first frame pointer out of the stack,
    and returns their number; every access is to a frame of the stack or to the array,
    cyclic frames included, and nothing else is written.  [trace] prints exactly these
    addresses when the array was zero before the call and not all of it is used. *)
Theorem native_backtrace_exact (m : mem) (array size top_frame top_stack stack_end : Z) (l : list Z) (next : Z) :
  mem_ok m -> 0 <= size -> accessible m array (8 * size) -> stack_end + 16 <= array \/ array + 8 * size <= top_stack ->
  frames top_stack stack_end m top_frame l next -> Z.of_nat (length l) <= size ->
  Z.of_nat (length l) = size \/ ~ on_stack top_stack stack_end next ->
  (exists m', native_backtrace m array size top_frame top_stack stack_end = Ret (Z.of_nat (length l), m') /\
     words m' array l /\ dom m' = dom m /\
     forall x, ~ (array <= x < array + 8 * Z.of_nat (length l)) -> m' !! x = m !! x) /\
  (size = trace_size -> array <> NULL -> Z.of_nat (length l) < trace_size -> Forall (fun a => a <> 0) l ->
   load64 m (array + 8 * Z.of_nat (length l)) = Ret 0 ->
   trace (S (length l)) m array top_frame top_stack stack_end = Ret l).
Proof.
  intros Hm Hsz Ha Hap Hf Hl Hend.
  destruct (backtrace_loop_spec top_stack stack_end array size Hap (Z.to_nat size) m top_frame 0 l next Hm Ha Hf)
    as (m' & E & W & O & D & F); [lia | lia | lia | destruct Hend; [left; lia | auto] |].
  rewrite Z.mul_0_r, Z.add_0_r in W, F. rewrite Z.add_0_l in E, F. fold (native_backtrace m array size top_frame top_stack stack_end) in E.
  split; [exists m'; auto |]. intros -> Hnn Hlt Hnz H0. unfold trace. rewrite (proj2 (Z.eqb_neq array NULL) Hnn), E. cbn [obind].
  apply (trace_addresses_spec _ _ _ l [0]); [| exact Hnz | reflexivity | lia].
  intros i v Hi. apply lookup_app_Some in Hi. destruct Hi as [Hi | [Hi1 Hi2]]; [exact (W i v Hi) |].
  destruct (i - length l)%nat as [| k] eqn:Ek; [| destruct k; discriminate]. cbn in Hi2. injection Hi2 as <-.
  replace i with (length l) by lia. unfold load64. rewrite (load_le_frame 8 m m'); [exact H0 |].
  intros x Hx. apply F. lia.
Qed.

(** The array is read past its end when all of it is used. *)
Theorem trace_reads_past_end (m : mem) (array top_frame top_stack stack_end : Z) (l : list Z) (next : Z) :
  mem_ok m -> accessible m array (8 * trace_size) -> stack_end + 16 <= array \/ array + 8 * trace_size <= top_stack ->
  frames top_stack stack_end m top_frame l next -> length l = 24%nat -> Forall (fun a => a <> 0) l ->
  array <> NULL -> m !! (array + 8 * trace_size) = None ->
  trace 25 m array top_frame top_stack stack_end = Fault.
Proof.
  intros Hm Ha Hap Hf Hl Hnz Hnn Hend. unfold trace. rewrite (proj2 (Z.eqb_neq array NULL) Hnn). unfold native_backtrace.
  destruct (backtrace_loop_spec top_stack stack_end array trace_size Hap (Z.to_nat trace_size) m top_frame 0 l next Hm Ha Hf)
    as (m' & E & W & O & D & F); [lia | reflexivity | rewrite Hl; reflexivity | left; rewrite Hl; reflexivity |].
  rewrite E. cbn [obind]. rewrite Z.mul_0_r, Z.add_0_r in W. unfold trace_size in *.
  assert (Hn : m' !! (array + 8 * 24) = None) by (apply not_elem_of_dom; rewrite D; apply not_elem_of_dom; exact Hend).
  clear -W Hl Hnz Hn. assert (G : forall k l bb, words m' bb l -> length l = k -> Forall (fun a => a <> 0) l ->
    m' !! (bb + 8 * Z.of_nat k) = None -> trace_addresses (S k) m' bb = Fault).
  { clear. assert (U : forall k bb, trace_addresses (S k) m' bb =
      let* a := load64 m' bb in if a =? 0 then Ret [] else let* l := trace_addresses k m' (bb + 8) in Ret (a :: l)) by reflexivity.
    induction k as [| k IH]; intros l bb W Hl Hnz Hn; rewrite U.
    - rewrite Z.add_0_r in Hn. unfold load64. cbn [load_le]. unfold load8. rewrite Hn. reflexivity.
    - destruct l as [| a l]; [discriminate |]. apply Forall_cons in Hnz. destruct Hnz as [Ha Hnz].
      pose proof (W 0%nat a eq_refl) as E. rewrite Z.add_0_r in E. rewrite E. cbn [obind].
      rewrite (proj2 (Z.eqb_neq a 0) Ha). rewrite (IH l (bb + 8)); [reflexivity | | auto | exact Hnz |].
      + intros i v Hi. replace (bb + 8 + 8 * Z.of_nat i) with (bb + 8 * Z.of_nat (S i)) by lia. apply W. exact Hi.
      + rewrite <- Hn. f_equal. lia. }
  apply (G 24%nat l); assumption.
Qed.

(** A stack of two frames: the one at 1000 returns to 7 and has the next one at 1040,
    which returns to 9 and has none; and an array of 24 words at 4096. *)
Definition demo_stack : mem :=
  <[1000 := 16]> (<[1001 := 4]> (<[1008 := 7]> (<[1048 := 9]> (mem_fill 192 4096 0 ∪ mem_fill 64 1000 0)))).
Lemma demo_frames : frames 990 1100 demo_stack 1000 [7; 9] 0.
Proof.
  apply (frames_next _ _ _ 1000 7 1040); [split; lia | vm_compute; reflexivity | vm_compute; reflexivity |].
  apply (frames_next _ _ _ 1040 9 0); [split; lia | vm_compute; reflexivity | vm_compute; reflexivity |]. constructor.
Qed.
Lemma native_backtrace_exact_witness :
  (exists m', native_backtrace demo_stack 4096 24 1000 990 1100 = Ret (2, m') /\ words m' 4096 [7; 9]) /\
  trace 3 demo_stack 4096 1000 990 1100 = Ret [7; 9].
Proof.
  destruct (native_backtrace_exact demo_stack 4096 24 1000 990 1100 [7; 9] 0) as [(m' & E & W & _) H].
  - apply mem_ok_check. vm_compute. reflexivity.
  - lia.
  - apply accessible_check. vm_compute. reflexivity.
  - lia.
  - exact demo_frames.
  - cbn. lia.
  - right. unfold on_stack. lia.
  - split; [exists m'; auto |]. apply H; [reflexivity | discriminate | reflexivity | repeat constructor; discriminate | vm_compute; reflexivity].
Defined.

(** A stack of 24 frames, each of 16 bytes, from 1000 on. *)
Definition deep_stack : mem :=
  foldr (fun i m => <[1000 + 16 * i := (1016 + 16 * i) mod 256]> (<[1001 + 16 * i := (1016 + 16 * i) / 256]> (<[1008 + 16 * i := 7]> m)))
    (mem_fill 192 4096 0 ∪ mem_fill 384 1000 0) (seqZ 0 24).
Lemma trace_reads_past_end_witness : trace 25 deep_stack 4096 1000 990 1384 = Fault.
Proof.
  apply (trace_reads_past_end deep_stack 4096 1000 990 1384 (replicate 24 7) 1384).
  - apply mem_ok_check. vm_compute. reflexivity.
  - apply accessible_check. vm_compute. reflexivity.
  - lia.
  - repeat (eapply frames_next; [split; lia | vm_compute; reflexivity | vm_compute; reflexivity |]). apply frames_end.
  - reflexivity.
  - repeat constructor; discriminate.
  - discriminate.
  - vm_compute. reflexivity.
Defined.
