(* ===== verification/RuntimeAssert.v ===== *)
(** * e_acsl_assert.h: run-time assertions

    The assertion that the instrumentation inserts, [runtime_assert], with the messages
    that it prints through the functions of e_acsl_printf.h, and the failures that the
    run-time library reports of itself, [vabort].  The messages are composed by the
    format loop of Printf. *)

From S2P Require Import Prelude LibcString LibcStringSpec LibcStdlib LibcStdlibTheorems Digits Printf PrintfSpec PrintfOutput PrintfTheorems.
From Stdlib Require Import String Ascii.

(** ** Definitions *)

(** The characters of a literal. *)
Definition chars (s : string) : list Z := map (fun a => Z.of_N (N_of_ascii a)) (list_ascii_of_string s).

(** How the program goes on: it continues, receives SIGABRT, or exits. *)
Inductive ending : Type := Continues | Raises_abort | Exits (code : Z).

(** E_ACSL_NO_ASSERT_FAIL and E_ACSL_FAIL_EXITCODE. *)
Record assert_config : Type := mk_assert_config { no_assert_fail : bool; fail_exitcode : option Z }.

Definition nl : list Z := [10].
Definition failed_format : list Z :=
  (chars "%s failed at line %d (function %s)." ++ nl ++ chars "The failing predicate is:" ++ nl ++ chars "%s." ++ nl)%list.
Definition warning_format : list Z :=
  (chars "warning: no sound verdict (guess: %s) at line %d " ++ chars "(function %s)." ++ nl ++
   chars "The considered predicate is:" ++ nl ++ chars "%s." ++ nl)%list.

Section Assert.
Context (cfg : assert_config).
(** The array of [_format], and the addresses of the literals. *)
Context (bf failed_fmt warning_fmt ok_text fail_text : Z).

(** [runtime_abort()]; the backtrace of the debug mode is not printed. *)
Definition runtime_abort : ending := Raises_abort.

Definition runtime_assert (runtime_sound_verdict : Z) (s : io) (predicate kind fct pred_txt line : Z) : outcome (ending * io) :=
  if i2b runtime_sound_verdict then
    if predicate =? 0 then
      let* (_, s) := rtl_eprintf bf s failed_fmt [V64 kind; V32 (u32 line); V64 fct; V64 pred_txt] in
      if no_assert_fail cfg then Ret (Continues, s)
      else match fail_exitcode cfg with Some code => Ret (Exits code, s) | None => Ret (runtime_abort, s) end
    else Ret (Continues, s)
  else
    let* (_, s) := rtl_eprintf bf s warning_fmt
      [V64 (if i2b predicate then ok_text else fail_text); V32 (u32 line); V64 fct; V64 pred_txt] in
    Ret (Continues, s).

(** [vabort]: the message is printed, then the signal is raised. *)
Definition vabort (s : io) (fmt : Z) (va : list va_val) : outcome (ending * io) :=
  let* s := _format bf _charc_stderr s fmt va in Ret (runtime_abort, s).
End Assert.

(** ** Lemmas *)

(** A directive without a width pads nothing. *)
Lemma pad_zero l : pad false 0 l = l.
Proof. unfold pad. by replace (Z.to_nat (0 - Z.of_nat (List.length l))) with 0%nat by lia. Qed.

Section Messages.
Context (m : mem) (bf : Z).

(** A literal piece of a format. *)
Lemma formats_text l cs va out : forallb (fun c => negb (c =? 37)) l = true ->
  formats m bf cs va out -> formats m bf (l ++ cs) va (l ++ out).
Proof.
  intros Hl H. induction l as [| c l IH]; [exact H |]. cbn in Hl |- *. apply andb_true_iff in Hl. destruct Hl as [Hc Hl].
  apply formats_char; [lia | auto].
Qed.

Lemma formats_string p l cs va out : in_u 64 p -> cstr m p l -> PrintfOutput.apart bf p l ->
  formats m bf cs va out -> formats m bf (37 :: 115 :: cs) (V64 p :: va) (l ++ out).
Proof.
  intros Hp Hl Ha H. assert (E : u64 p = p) by (unfold u64; rewrite Z.mod_small; unfold in_u in Hp; lia).
  apply (formats_directive m bf 0 false false 115 [115] cs (V64 p :: va) va l out).
  - exists []. split; [left; auto | reflexivity].
  - rewrite <- (pad_zero l) at 1. apply (renders_s m bf 0 false false p va l); rewrite E; assumption.
  - exact H.
Qed.

Lemma formats_int n ds cs va out : - 2 ^ 31 < n < 2 ^ 31 -> signed_chars n ds ->
  formats m bf cs va out -> formats m bf (37 :: 100 :: cs) (V32 (u32 n) :: va) (ds ++ out).
Proof.
  intros Hn Hd H. assert (E : s32 (u32 (u32 n)) = n) by (unfold s32, u32; dlia).
  apply (formats_directive m bf 0 false false 100 [100] cs (V32 (u32 n) :: va) va ds out).
  - exists []. split; [left; auto | reflexivity].
  - rewrite <- (pad_zero ds) at 1. apply (renders_d m bf 0 false false (u32 n) va ds); cbv iota; rewrite E; [lia | exact Hd].
  - exact H.
Qed.
End Messages.

(** The memory after a message: only the buffer of [_format] has changed. *)
Lemma eprintf_spec (s : io) (bf fmt : Z) (cs : list Z) (va : list va_val) (out : list Z) :
  formats (io_mem s) bf cs va out -> cstr (io_mem s) fmt cs -> PrintfOutput.apart bf fmt cs ->
  accessible (io_mem s) bf 256 ->
  exists m', keeps bf (io_mem s) m' /\
    _format bf _charc_stderr s fmt va = Ret (mk_io m' (io_out s ++ map (fun c => (2, [c])) out) (io_ptr s)).
Proof.
  intros Hf Hc Hap Ha. change _charc_stderr with (_charc_file 2).
  destruct (format_loop_spec 2 (io_mem s) bf cs va out Hf) with (s := s) (fmt := fmt) (fuel := steps (io_mem s))
    as (m' & E & K); try done; [by eapply cstr_steps |].
  exists m'. split; [exact K | exact E].
Qed.

(** ** The message and the ending of an assertion *)

Section Reports.
Context (kind fct pred_txt line : list Z).

Definition failure_message : list Z :=
  (kind ++ chars " failed at line " ++ line ++ chars " (function " ++ fct ++
   (chars ")." ++ nl ++ chars "The failing predicate is:" ++ nl) ++ pred_txt ++ (chars "." ++ nl))%list.
Definition unsound_message (guess : list Z) : list Z :=
  (chars "warning: no sound verdict (guess: " ++ guess ++ chars ") at line " ++ line ++
   chars " (function " ++ fct ++
   (chars ")." ++ nl ++ chars "The considered predicate is:" ++ nl) ++ pred_txt ++ (chars "." ++ nl))%list.

(** What is written on the error stream: nothing for a predicate that holds while the verdict is sound. *)
Definition report (verdict predicate : Z) : list Z :=
  if verdict =? 0 then unsound_message (chars (if predicate =? 0 then "FAIL" else "ok"))
  else if predicate =? 0 then failure_message else [].
End Reports.

(** Only a failure with a sound verdict ends the program, as the configuration says. *)
Definition verdict_ending (cfg : assert_config) (verdict predicate : Z) : ending :=
  if (verdict =? 0) || negb (predicate =? 0) || no_assert_fail cfg then Continues
  else match fail_exitcode cfg with Some code => Exits code | None => Raises_abort end.

(** A string apart from the buffer of [_format]. *)
Definition text (m : mem) (bf p : Z) (l : list Z) : Prop := in_u 64 p /\ cstr m p l /\ PrintfOutput.apart bf p l.

(** The next piece of a format: a literal, or the directive of an argument. *)
Ltac piece l := lazymatch goal with |- formats _ _ ?cs _ _ =>
  let k := eval vm_compute in (List.skipn (List.length l) cs) in
  change cs with (l ++ k)%list; apply formats_text; [reflexivity |] end.
Ltac last_piece l := rewrite <- (app_nil_r l); piece l; apply formats_nil.

Section Formats.
Context (m : mem) (bf kind fct pred_txt line : Z) (K F P L : list Z).
Hypotheses (HK : text m bf kind K) (HF : text m bf fct F) (HP : text m bf pred_txt P).
Hypotheses (Hline : - 2 ^ 31 < line < 2 ^ 31) (HL : signed_chars line L).

Lemma formats_text_arg p l cs va out : text m bf p l ->
  formats m bf cs va out -> formats m bf (37 :: 115 :: cs) (V64 p :: va) (l ++ out).
Proof. intros (? & ? & ?). by apply formats_string. Qed.

Lemma failed_formats :
  formats m bf failed_format [V64 kind; V32 (u32 line); V64 fct; V64 pred_txt] (failure_message K F P L).
Proof.
  unfold failure_message. apply (formats_text_arg kind K); [done |]. piece (chars " failed at line ").
  apply formats_int; [done.. |]. piece (chars " (function "). apply (formats_text_arg fct F); [done |].
  piece ((chars ")." ++ nl ++ chars "The failing predicate is:" ++ nl)%list).
  apply (formats_text_arg pred_txt P); [done |]. last_piece (chars "." ++ nl)%list.
Qed.

Lemma warning_formats guess G : text m bf guess G ->
  formats m bf warning_format [V64 guess; V32 (u32 line); V64 fct; V64 pred_txt] (unsound_message F P L G).
Proof.
  intros HG. unfold unsound_message. piece (chars "warning: no sound verdict (guess: ").
  apply (formats_text_arg guess G); [done |]. piece (chars ") at line ").
  apply formats_int; [done.. |]. piece (chars " (function "). apply (formats_text_arg fct F); [done |].
  piece ((chars ")." ++ nl ++ chars "The considered predicate is:" ++ nl)%list).
  apply (formats_text_arg pred_txt P); [done |]. last_piece (chars "." ++ nl)%list.
Qed.
End Formats.

(** ** Properties *)

(** C32.  [runtime_assert] reports exactly what its arguments say, and ends the program
    exactly when it must: a predicate that holds under a sound verdict is silent and
    the program continues; a predicate that does not hold is reported with its kind,
    line, function and text, and the program then continues, exits with the code of
    the configuration or receives SIGABRT; once the verdict is unsound a warning with
    the guess is printed and the program always continues.  Only the buffer of
    [_format] is written. *)
Theorem runtime_assert_exact (cfg : assert_config) (s : io) (bf failed_fmt warning_fmt ok_text fail_text : Z)
    (verdict predicate kind fct pred_txt line : Z) (K F P L : list Z) :
  let m := io_mem s in
  accessible m bf 256 -> text m bf failed_fmt failed_format -> text m bf warning_fmt warning_format ->
  text m bf ok_text (chars "ok") -> text m bf fail_text (chars "FAIL") ->
  text m bf kind K -> text m bf fct F -> text m bf pred_txt P ->
  - 2 ^ 31 < line < 2 ^ 31 -> signed_chars line L ->
  exists m', keeps bf m m' /\
    runtime_assert cfg bf failed_fmt warning_fmt ok_text fail_text verdict s predicate kind fct pred_txt line =
      Ret (verdict_ending cfg verdict predicate,
           mk_io m' (io_out s ++ map (fun c => (2, [c])) (report K F P L verdict predicate)) (io_ptr s)).
Proof.
  intros m Ha Hff Hwf Hok Hfail HK HF HP Hline HL. unfold runtime_assert, verdict_ending, report, i2b.
  destruct (verdict =? 0); [| destruct (predicate =? 0)].
  - set (g := if negb (predicate =? 0) then ok_text else fail_text).
    set (G := chars (if predicate =? 0 then "FAIL" else "ok")).
    assert (HG : text m bf g G) by (unfold g, G; by destruct (predicate =? 0)).
    destruct (eprintf_spec s bf warning_fmt warning_format [V64 g; V32 (u32 line); V64 fct; V64 pred_txt]
      (unsound_message F P L G)) as (m' & Km & E); [by apply warning_formats | apply Hwf | apply Hwf | done |].
    exists m'. split; [done |]. unfold rtl_eprintf. cbn [negb]. by rewrite E.
  - destruct (eprintf_spec s bf failed_fmt failed_format [V64 kind; V32 (u32 line); V64 fct; V64 pred_txt]
      (failure_message K F P L)) as (m' & Km & E); [by apply failed_formats | apply Hff | apply Hff | done |].
    exists m'. split; [done |]. unfold rtl_eprintf. cbn [negb orb]. rewrite E. cbn.
    by destruct (no_assert_fail cfg), (fail_exitcode cfg).
  - exists m. split; [apply keeps_refl |]. cbn. rewrite app_nil_r. by destruct s.
Qed.

(** A memory with the texts of an assertion, each at its address. *)
Definition demo_texts : list (Z * list Z) :=
  [(1000, failed_format); (1200, warning_format); (1400, chars "ok"); (1410, chars "FAIL");
   (1500, chars "Assertion"); (1600, chars "main"); (1700, chars "\valid(p)")].
Definition demo_assert_io : io :=
  mk_io (foldr (fun t m => write m t.1 (t.2 ++ [0])) demo_buffer demo_texts) [] 0.

Lemma runtime_assert_exact_witness : exists m',
  runtime_assert (mk_assert_config false (Some 1)) 4096 1000 1200 1400 1410 1 demo_assert_io 0 1500 1600 1700 42 =
    Ret (Exits 1, mk_io m' (map (fun c => (2, [c]))
      (failure_message (chars "Assertion") (chars "main") (chars "\valid(p)") (chars "42"))) 0).
Proof.
  destruct (runtime_assert_exact (mk_assert_config false (Some 1)) demo_assert_io 4096 1000 1200 1400 1410 1 0 1500 1600 1700 42
    (chars "Assertion") (chars "main") (chars "\valid(p)") (chars "42")) as (m' & _ & E).
  - apply accessible_check. vm_compute. reflexivity.
  - by split_and!; [| apply cstr_check; vm_compute | left].
  - by split_and!; [| apply cstr_check; vm_compute | left].
  - by split_and!; [| apply cstr_check; vm_compute | left].
  - by split_and!; [| apply cstr_check; vm_compute | left].
  - by split_and!; [| apply cstr_check; vm_compute | left].
  - by split_and!; [| apply cstr_check; vm_compute | left].
  - by split_and!; [| apply cstr_check; vm_compute | left].
  - lia.
  - exists [4; 2]. split; [split_and!; [repeat constructor; lia | done..] | done].
  - exists m'. exact E.
Defined.
