(* ===== verification/Observers.v ===== *)
(** * The observers of a memory model, as its clients see them

    What e_acsl_libc_replacements.h and e_acsl_format.h ask of a memory model, and
    the laws they rely on; the instances for the two memory models are in
    ObserversInst.v. *)

From S2P Require Import Prelude AMem.

Class Observers (S : Type) : Type := {
  ob_allocated : S -> Z -> Z -> Z -> outcome Z;
  ob_writeable : S -> Z -> Z -> Z -> outcome Z;
  ob_readonly : S -> Z -> outcome Z;
  ob_block_length : S -> Z -> outcome Z;
  ob_offset : S -> Z -> outcome Z
}.

(** The bytes from [p] to [p + n] lie in one block. *)
Definition within (M : amem) (p n : Z) : Prop := exists a ab, contains M p a ab /\ p + n <= a + ab_size ab.
Definition within_writable (M : amem) (p n : Z) : Prop :=
  exists a ab, contains M p a ab /\ p + n <= a + ab_size ab /\ ab_readonly ab = false.

(** [ob_models s M]: the state represents [M]; [ob_addr s p]: the address [p] may be
    queried. *)
Class ObserversOk (S : Type) `{OB : !Observers S} : Type := {
  ob_models : S -> amem -> Prop;
  ob_addr : S -> Z -> Prop;
  ob_range : forall s M a ab, ob_models s M -> M !! a = Some ab ->
    0 <= a /\ 0 <= ab_size ab < 2 ^ 63 /\ a + ab_size ab < 2 ^ 64;
  ob_unique : forall s M p a ab a' ab', ob_models s M -> contains M p a ab -> contains M p a' ab' ->
    a = a' /\ ab = ab';
  ob_allocated_exact : forall s M p n, ob_models s M -> in_u 64 p -> ob_addr s p -> 0 < n < 2 ^ 63 ->
    exists r, ob_allocated s p n p = Ret r /\ (i2b r = true <-> within M p n);
  ob_writeable_exact : forall s M p n, ob_models s M -> in_u 64 p -> ob_addr s p -> 0 < n < 2 ^ 63 ->
    exists r, ob_writeable s p n p = Ret r /\ (i2b r = true <-> within_writable M p n);
  ob_readonly_exact : forall s M p a ab, ob_models s M -> in_u 64 p -> contains M p a ab ->
    exists r, ob_readonly s p = Ret r /\ i2b r = ab_readonly ab;
  ob_length_exact : forall s M p a ab, ob_models s M -> in_u 64 p -> contains M p a ab ->
    ob_block_length s p = Ret (ab_size ab) /\ ob_offset s p = Ret (p - a)
}.
