(* ===== verification/LibcReplacements.v ===== *)
(** * e_acsl_libc_replacements.h: checked replacements of string functions

    The replacements validate their arguments with the observers of the memory
    model and then call the function of the C library, for which LibcString.v
    stands.  A violation ends the program. *)

From S2P Require Import Prelude AMem Observers LibcString.

Section Replacements.
Context {S : Type} `{OB : !Observers S} (s : S).

(** ** Validation of strings *)

(** The loop of [valid_nstring]: [Some] when it returns, and [None] at the end of
    the block. *)
Fixpoint valid_nstring_loop (k : nat) (m : mem) (p n i : Z) : outcome (option Z) :=
  match k with
  | O => Ret None
  | Datatypes.S k =>
      let* c := load8 m (p + i) in
      if (c =? 0) || (n =? i) then Ret (Some i) else valid_nstring_loop k m p n (i + 1)
  end.

Definition valid_nstring (m : mem) (p n wrtbl : Z) : outcome Z :=
  if n =? 0 then Ret n
  else
    let* alc := ob_allocated s p 1 p in
    if i2b alc then
      let* ro := if i2b wrtbl then ob_readonly s p else Ret 0 in
      if i2b wrtbl && i2b ro then Ret (-2)
      else
        let* len := ob_block_length s p in
        let* off := ob_offset s p in
        let size := s64 (u64 (len - off)) in
        let* r := valid_nstring_loop (Z.to_nat size) m p n 0 in
        match r with
        | Some i => Ret i
        | None => if n =? size then Ret n else if size <? n then Ret (-3) else Ret (-4)
        end
    else Ret (-1).

(** [wchar_t] is a 32-bit integer. *)
Fixpoint valid_nwstring_loop (k : nat) (m : mem) (p n i : Z) : outcome (option Z) :=
  match k with
  | O => Ret None
  | Datatypes.S k =>
      let* c := load32 m (p + 4 * i) in
      if (c =? 0) || (n =? i) then Ret (Some i) else valid_nwstring_loop k m p n (i + 1)
  end.

Definition valid_nwstring (m : mem) (p n wrtbl : Z) : outcome Z :=
  if n =? 0 then Ret n
  else
    let* alc := ob_allocated s p 1 p in
    if i2b alc then
      let* ro := if i2b wrtbl then ob_readonly s p else Ret 0 in
      if i2b wrtbl && i2b ro then Ret (-2)
      else
        let* len := ob_block_length s p in
        let* off := ob_offset s p in
        let size := s64 (u64 (len - off) / 4) in
        let* r := valid_nwstring_loop (Z.to_nat size) m p n 0 in
        match r with
        | Some i => Ret i
        | None => if n =? size then Ret n else if size <? n then Ret (-3) else Ret (-4)
        end
    else Ret (-1).

Definition valid_string (m : mem) (p wrtbl : Z) : outcome Z := valid_nstring m p (-1) wrtbl.
Definition valid_wstring (m : mem) (p wrtbl : Z) : outcome Z := valid_nwstring m p (-1) wrtbl.

(** The cases of the switch end the program. *)
Definition validate_string (m : mem) (p n wrtbl : Z) : outcome Z :=
  let* size := valid_nstring m p n wrtbl in
  if (size =? -1) || (size =? -2) || (size =? -3) || (size =? -4) then Abort
  else let* _ := vassert (0 <=? size) in Ret size.

Definition validate_writeable_string (m : mem) (p n : Z) : outcome Z := validate_string m p n 1.
Definition validate_allocated_string (m : mem) (p n : Z) : outcome Z := validate_string m p n 0.

(** ** Validation of memory spaces *)

Definition disjoint_spaces (s1 s1_sz s2 s2_sz : Z) : bool :=
  (u64 (s1 + s1_sz) <=? s2) || (u64 (s2 + s2_sz) <=? s1).

Definition validate_allocated_space (p sz : Z) : outcome unit :=
  let* a := ob_allocated s p sz p in if negb (i2b a) then Abort else Ret tt.

Definition validate_writeable_space (p sz : Z) : outcome unit :=
  let* w := ob_writeable s p sz p in
  if negb (i2b w) then
    let* w1 := ob_writeable s p 1 p in if i2b w1 then Abort else Abort
  else Ret tt.

Definition validate_overlapping_spaces (s1 s1_sz s2 s2_sz : Z) : outcome unit :=
  if negb (disjoint_spaces s1 s1_sz s2 s2_sz) then Abort else Ret tt.

(** ** Strings *)

Definition builtin_strlen (m : mem) (p : Z) : outcome Z := validate_allocated_string m p (-1).

Definition builtin_strcpy (m : mem) (dest src : Z) : outcome (Z * mem) :=
  let* size := validate_allocated_string m src (-1) in
  let* _ := validate_writeable_space dest (u64 (size + 1)) in
  let* _ := validate_overlapping_spaces dest (u64 (size + 1)) src (u64 (size + 1)) in
  strcpy m dest src.

Definition builtin_strncpy (m : mem) (dest src n : Z) : outcome (Z * mem) :=
  let* _ := validate_allocated_string m src (s64 n) in
  let* _ := validate_writeable_space dest n in
  let* _ := validate_overlapping_spaces dest n src n in
  strncpy m dest src n.

Definition builtin_strcmp (m : mem) (s1 s2 : Z) : outcome Z :=
  let* _ := validate_allocated_string m s1 (-1) in
  let* _ := validate_allocated_string m s2 (-1) in
  strcmp m s1 s2.

Definition builtin_strncmp (m : mem) (s1 s2 n : Z) : outcome Z :=
  let* _ := validate_allocated_string m s1 (s64 n) in
  let* _ := validate_allocated_string m s2 (s64 n) in
  strncmp m s1 s2 n.

(** The space from [p] to the end of its block. *)
Definition avail_sz (p : Z) : outcome Z :=
  let* len := ob_block_length s p in
  let* off := ob_offset s p in
  Ret (u64 (len - off)).

Definition builtin_strcat (m : mem) (dest src : Z) : outcome (Z * mem) :=
  let* src_sz := validate_allocated_string m src (-1) in
  let* dest_sz := validate_writeable_string m dest (-1) in
  let* avail := avail_sz dest in
  if negb (u64 (src_sz + dest_sz + 1) <=? avail) then Abort
  else
    let* _ := validate_overlapping_spaces src (u64 (src_sz + 1)) dest (u64 (dest_sz + 1)) in
    strcat m dest src.

Definition builtin_strncat (m : mem) (dest src n : Z) : outcome (Z * mem) :=
  let* _ := validate_allocated_string m src (s64 n) in
  let* dest_sz := validate_writeable_string m dest (-1) in
  let* avail := avail_sz dest in
  if negb (u64 (n + dest_sz + 1) <=? avail) then Abort
  else
    let* _ := validate_overlapping_spaces src n dest dest_sz in
    strncat m dest src n.

(** ** Blocks *)

Definition builtin_memcpy (m : mem) (dest src n : Z) : outcome (Z * mem) :=
  let* _ := validate_allocated_space src n in
  let* _ := validate_writeable_space dest n in
  let* _ := validate_overlapping_spaces src n dest n in
  memcpy m dest src n.

Definition builtin_memset (m : mem) (p c n : Z) : outcome (Z * mem) :=
  let* _ := validate_writeable_space p n in
  memset m p c n.

Definition builtin_memcmp (m : mem) (s1 s2 n : Z) : outcome Z :=
  let* _ := validate_allocated_space s1 n in
  let* _ := validate_allocated_space s2 n in
  let* _ := validate_overlapping_spaces s1 n s2 n in
  memcmp m s1 s2 n.

Definition builtin_memmove (m : mem) (dest src n : Z) : outcome (Z * mem) :=
  let* _ := validate_allocated_space src n in
  let* _ := validate_writeable_space dest n in
  memmove m dest src n.
End Replacements.
