(* ===== verification/LibcReplacementsTheorems.v ===== *)
(** * Properties of the checked replacements

    Against any memory model that satisfies the laws of [ObserversOk]: what the
    validation of strings answers, and that the replacements exclude undefined
    behaviour. *)

From S2P Require Import Prelude AMem Observers LibcString LibcStringSpec LibcReplacements.

(** The program returns or is ended by a check. *)
Definition defined {A} (o : outcome A) : Prop :=
  match o with Ret _ | Abort => True | Fault | NoFuel => False end.

Lemma defined_bind {A B} (c : outcome A) (k : A -> outcome B) :
  defined c -> (forall a, c = Ret a -> defined (k a)) -> defined (obind c k).
Proof. destruct c; simpl; auto. Qed.

(** The application memory has the bytes of the tracked blocks. *)
Record backed (M : amem) (m : mem) : Prop := {
  bk_bytes : mem_ok m;
  bk_blocks : forall a ab, M !! a = Some ab -> accessible m a (ab_size ab)
}.

(** No zero among the first [n] characters. *)
Definition nonzero (m : mem) (p n : Z) : Prop := forall x, p <= x < p + n -> m !! x <> Some 0.

(** What [strncmp] and [strncpy] may read: the characters up to the terminator, and
    at most [n] of them. *)
Definition readable (m : mem) (p n : Z) : Prop :=
  forall k, 0 <= k < n -> nonzero m p k -> is_Some (m !! (p + k)).

Lemma nonzero_next m p i b : nonzero m p i -> m !! (p + i) = Some b -> b <> 0 -> nonzero m p (i + 1).
Proof.
  intros H E Hb x Hx. destruct (decide (x = p + i)) as [->|]; [congruence|]. apply H. lia.
Qed.

(** A terminator makes a string. *)
Lemma cstr_of_terminator m p r : mem_ok m -> 0 <= r -> accessible m p r -> nonzero m p r ->
  m !! (p + r) = Some 0 -> exists l, cstr m p l /\ Z.of_nat (length l) = r.
Proof.
  intros Hm Hr. revert p. pattern r. apply natlike_ind; [| |done]; clear r Hr.
  - intros p _ _ E. exists []. split; [|done]. apply cstr_nil. by rewrite Z.add_0_r in E.
  - intros r Hr IH p Ha Hn E. destruct (Ha p) as [b Eb]; [lia|].
    destruct (IH (p + 1)) as (l & Hl & El).
    + eapply accessible_sub; [exact Ha|lia..].
    + intros x Hx. apply Hn. lia.
    + by replace (p + 1 + r) with (p + Z.succ r) by lia.
    + exists (b :: l). split; [|simpl; lia]. apply cstr_cons. split; [done|]. split; [|done].
      pose proof (Hm p b Eb) as Hu. unfold in_u in Hu.
      assert (b <> 0) by (intros ->; by apply (Hn p); [lia|]). lia.
Qed.

(** ** Bounded loops on readable strings *)

Lemma strncmp_loop_defined n m s1 s2 i : 0 <= i ->
  readable m s1 (i + Z.of_nat n) -> readable m s2 (i + Z.of_nat n) ->
  nonzero m s1 i -> nonzero m s2 i -> defined (strncmp_loop n m s1 s2 i).
Proof.
  revert i. induction n as [|n IH]; intros i Hi R1 R2 N1 N2; cbn [strncmp_loop]; [done|].
  destruct (R1 i) as [a Ea]; [lia|done|]. destruct (R2 i) as [b Eb]; [lia|done|].
  rewrite (load8_ok _ _ _ Ea), (load8_ok _ _ _ Eb). cbn [obind].
  destruct (Z.eqb_spec a b) as [->|]; cbn [negb]; [|done]. destruct (Z.eqb_spec b 0) as [|Hb]; [done|].
  replace (i + Z.of_nat (S n)) with (i + 1 + Z.of_nat n) in * by lia.
  apply IH; [lia|done|done|by eapply nonzero_next|by eapply nonzero_next].
Qed.

Lemma memcmp_loop_defined n m p q i : accessible m (p + i) (Z.of_nat n) -> accessible m (q + i) (Z.of_nat n) ->
  defined (memcmp_loop n m p q i).
Proof.
  revert i. induction n as [|n IH]; intros i H1 H2; cbn [memcmp_loop]; [done|].
  destruct (H1 (p + i)) as [a Ea]; [lia|]. destruct (H2 (q + i)) as [b Eb]; [lia|].
  rewrite (load8_ok _ _ _ Ea), (load8_ok _ _ _ Eb). cbn [obind]. destruct (negb (a =? b)); [done|].
  apply IH; [eapply accessible_sub; [exact H1|lia..]|eapply accessible_sub; [exact H2|lia..]].
Qed.

(** The loop of [strncpy], on a destination apart from the source. *)
Lemma strncpy_loop_defined n m d p i : 0 <= i -> mem_ok m ->
  readable m p (i + Z.of_nat n) -> nonzero m p i ->
  accessible m (d + i) (Z.of_nat n) -> (d + i + Z.of_nat n <= p \/ p + i + Z.of_nat n <= d) ->
  exists r m', strncpy_loop n m d p i = Ret (r, m') /\ i <= r <= i + Z.of_nat n /\ dom m' = dom m.
Proof.
  revert m i. induction n as [|n IH]; intros m i Hi Hm R N Ha Hd; cbn [strncpy_loop].
  { exists i, m. split; [done|]. split; [lia|done]. }
  destruct (R i) as [b Eb]; [lia|done|]. rewrite (load8_ok _ _ _ Eb). cbn [obind].
  assert (is_Some (m !! (d + i))) as Hs by (apply Ha; lia).
  rewrite store8_spec, u8_small by (done || by apply (Hm _ _ Eb)). cbn [obind].
  assert (forall x, p <= x < p + i + Z.of_nat (S n) -> <[d + i := b]> m !! x = m !! x) as Hf.
  { intros x Hx. by rewrite lookup_insert_ne by lia. }
  rewrite (load8_ok _ (p + i) b) by (rewrite Hf by lia; done). cbn [obind].
  assert (dom (<[d + i := b]> m) = dom m) as Hdom by by apply dom_insert_lookup_L.
  destruct (Z.eqb_spec b 0) as [|Hb]; [exists i, (<[d + i := b]> m); split; [done|]; split; [lia|done]|].
  destruct (IH (<[d + i := b]> m) (i + 1)) as (r & m' & -> & Hr & Hd').
  - lia.
  - apply mem_ok_insert; [done|by apply (Hm _ _ Eb)].
  - intros k Hk Hnz. rewrite Hf by lia. apply R; [lia|]. intros x Hx. rewrite <- Hf by lia. by apply Hnz.
  - apply (nonzero_next _ _ _ b); [|rewrite Hf by lia; done|done]. intros x Hx. rewrite Hf by lia. by apply N.
  - eapply accessible_dom; [exact Hdom|]. eapply accessible_sub; [exact Ha|lia..].
  - lia.
  - exists r, m'. split; [done|]. split; [lia|congruence].
Qed.

(** ** The validation of strings *)

Section Validation.
Context {S : Type} `{OB : !Observers S, OBok : !ObserversOk S} (s : S) (M : amem) (m : mem).
Context (HM : ob_models s M) (Hb : backed M m).

Lemma within_accessible p n : within M p n -> accessible m p n.
Proof using Hb.
  intros (a & ab & [E Hc] & Hle) x Hx. apply (bk_blocks _ _ Hb a ab E). unfold covers in Hc. lia.
Qed.

Lemma writable_within p n : within_writable M p n -> within M p n.
Proof. intros (a & ab & H & Hle & _). by exists a, ab. Qed.

Lemma valid_nstring_loop_spec k p n i : 0 <= i -> accessible m p (i + Z.of_nat k) ->
  exists r, valid_nstring_loop k m p n i = Ret r /\
    match r with
    | Some j => i <= j < i + Z.of_nat k /\ (m !! (p + j) = Some 0 \/ n = j) /\
        (forall x, p + i <= x < p + j -> m !! x <> Some 0) /\ ~ (i <= n < j)
    | None => (forall x, p + i <= x < p + i + Z.of_nat k -> m !! x <> Some 0) /\ ~ (i <= n < i + Z.of_nat k)
    end.
Proof.
  revert i. induction k as [|k IH]; intros i Hi Ha; cbn [valid_nstring_loop].
  { exists None. split; [done|]. split; [intros; lia|lia]. }
  destruct (Ha (p + i)) as [c Ec]; [lia|]. rewrite (load8_ok _ _ _ Ec). cbn [obind].
  destruct (Z.eqb_spec c 0) as [->|Hc]; cbn [orb].
  { exists (Some i). split; [done|]. split; [lia|]. split; [by left|]. split; [intros; lia|lia]. }
  destruct (Z.eqb_spec n i) as [->|Hn].
  { exists (Some i). split; [done|]. split; [lia|]. split; [by right|]. split; [intros; lia|lia]. }
  destruct (IH (i + 1)) as (r & -> & Hr); [lia|eapply accessible_sub; [exact Ha|lia..]|].
  exists r. split; [done|]. destruct r as [j|].
  - destruct Hr as (H1 & H2 & H3 & H4). split; [lia|]. split; [done|]. split; [|lia].
    intros x Hx. destruct (decide (x = p + i)) as [->|]; [congruence|]. apply H3. lia.
  - destruct Hr as (H3 & H4). split; [|lia].
    intros x Hx. destruct (decide (x = p + i)) as [->|]; [congruence|]. apply H3. lia.
Qed.

(** The cases of the answer [r]. *)
Inductive nstring_answer (p n wrtbl : Z) : Z -> Prop :=
| ns_unallocated : ~ within M p 1 -> nstring_answer p n wrtbl (-1)
| ns_readonly a ab : contains M p a ab -> wrtbl <> 0 -> ab_readonly ab = true ->
    nstring_answer p n wrtbl (-2)
| ns_terminated r a ab : contains M p a ab -> 0 <= r -> p + r < a + ab_size ab ->
    (wrtbl <> 0 -> ab_readonly ab = false) -> nonzero m p r -> m !! (p + r) = Some 0 ->
    ~ (0 <= n < r) -> nstring_answer p n wrtbl r
| ns_prefix a ab : contains M p a ab -> 0 < n -> p + n <= a + ab_size ab ->
    (wrtbl <> 0 -> ab_readonly ab = false) -> nonzero m p n -> nstring_answer p n wrtbl n
| ns_too_long a ab : contains M p a ab -> a + ab_size ab < p + n ->
    nonzero m p (a + ab_size ab - p) -> nstring_answer p n wrtbl (-3)
| ns_unterminated a ab : contains M p a ab -> n < 0 ->
    nonzero m p (a + ab_size ab - p) -> nstring_answer p n wrtbl (-4).

Lemma valid_nstring_spec p n wrtbl : in_u 64 p -> ob_addr s p -> n <> 0 ->
  exists r, valid_nstring s m p n wrtbl = Ret r /\ nstring_answer p n wrtbl r.
Proof using HM Hb.
  intros Hp Had Hn. unfold valid_nstring. rewrite (proj2 (Z.eqb_neq n 0)) by done.
  destruct (ob_allocated_exact s M p 1 HM Hp Had ltac:(lia)) as (alc & -> & Halc). cbn [obind].
  destruct (i2b alc) eqn:Ea.
  2: { exists (-1). split; [done|]. apply ns_unallocated. intros H. apply Halc in H. congruence. }
  apply proj1 in Halc. destruct (Halc eq_refl) as (a & ab & Hc & Hle).
  destruct (ob_readonly_exact s M p a ab HM Hp Hc) as (ro & Ero & Hro).
  destruct (ob_length_exact s M p a ab HM Hp Hc) as [El Eo].
  destruct (ob_range s M a ab HM (proj1 Hc)) as (R1 & R2 & R3).
  set (size := a + ab_size ab - p).
  assert (0 < size < 2 ^ 63) as Hsize by (destruct Hc as [_ Hc]; unfold covers in Hc; lia).
  assert (s64 (u64 (ab_size ab - (p - a))) = size) as Es.
  { replace (ab_size ab - (p - a)) with size by lia. rewrite u64_small, s64_small; unfold in_u; lia. }
  assert (forall ro', (i2b wrtbl = true -> i2b ro' = ab_readonly ab) ->
    exists r, (if i2b wrtbl && i2b ro' then Ret (-2) else
      let* len := ob_block_length s p in let* off := ob_offset s p in
      let size := s64 (u64 (len - off)) in
      let* r := valid_nstring_loop (Z.to_nat size) m p n 0 in
      match r with
      | Some i => Ret i
      | None => if n =? size then Ret n else if size <? n then Ret (-3) else Ret (-4)
      end) = Ret r /\ nstring_answer p n wrtbl r) as Hmain.
  { intros ro' Hro'. destruct (i2b wrtbl && i2b ro') eqn:Ew.
    - apply andb_true_iff in Ew as [Ew Er]. exists (-2). split; [done|].
      apply (ns_readonly _ _ _ a ab); [done| |by rewrite <- Hro'].
      unfold i2b in Ew. by rewrite negb_true_iff, Z.eqb_neq in Ew.
    - assert (wrtbl <> 0 -> ab_readonly ab = false) as Hw.
      { intros H%Z.eqb_neq. unfold i2b in Ew at 1. rewrite H in Ew. cbn in Ew. rewrite <- Hro'; [done|].
        unfold i2b. by rewrite H. }
      rewrite El, Eo. cbn [obind]. cbv zeta. rewrite Es.
      destruct (valid_nstring_loop_spec (Z.to_nat size) p n 0) as (r & -> & Hr); [done| |].
      { rewrite Z2Nat.id by lia. apply within_accessible. exists a, ab. split; [done|lia]. }
      cbn [obind]. rewrite Z2Nat.id, !Z.add_0_l, !Z.add_0_r in Hr by lia. destruct r as [j|].
      + exists j. split; [done|]. destruct Hr as (H1 & [H2| ->] & H3 & H4).
        * by apply (ns_terminated _ _ _ _ a ab); [done|lia|lia|done|intros x Hx; apply H3; lia|done|lia].
        * by apply (ns_prefix _ _ _ a ab); [done|lia|lia|done|intros x Hx; apply H3; lia].
      + destruct Hr as [H3 H4]. destruct (Z.eqb_spec n size) as [->|Hne].
        * exists size. split; [done|]. by apply (ns_prefix _ _ _ a ab); [done|lia|lia|done|].
        * destruct (Z.ltb_spec size n); eexists; (split; [done|]).
          -- by apply (ns_too_long _ _ _ a ab); [done|lia|].
          -- by apply (ns_unterminated _ _ _ a ab); [done|lia|]. }
  destruct (i2b wrtbl) eqn:Ew; [rewrite Ero|]; cbn [obind]; by apply Hmain.
Qed.
End Validation.

(** ** Checks and what they guard *)

(** The check [c] returns the value that satisfies [R], and ends the program when
    there is none. *)
Definition checks {A} (R : A -> Prop) (c : outcome A) : Prop :=
  (exists a, c = Ret a /\ R a) \/ (c = Abort /\ forall a, ~ R a).

(** The program [o] does [o'] if [P] holds, and is ended by a check otherwise. *)
Definition guards {B} (P : Prop) (o o' : outcome B) : Prop := (P /\ o = o') \/ (~ P /\ o = Abort).

Lemma guards_bind {A B} (R Q : A -> Prop) c (k : A -> outcome B) o' :
  checks R c -> (forall a a', R a -> R a' -> a = a') -> (forall a, R a -> guards (Q a) (k a) o') ->
  guards (exists a, R a /\ Q a) (obind c k) o'.
Proof.
  intros [(a & -> & Ha)|[-> Hno]] Hu Hk; cbn [obind].
  - destruct (Hk a Ha) as [[HQ ->]|[HQ ->]]; [left; eauto|right]. split; [|done].
    intros (a' & Ha' & HQ'). by rewrite (Hu _ _ Ha' Ha) in HQ'.
  - right. split; [|done]. intros (a & Ha & _). by apply (Hno a).
Qed.

Lemma guards_unit {B} (P Q : Prop) (c : outcome unit) (k : unit -> outcome B) o' :
  checks (fun _ => P) c -> (P -> guards Q (k tt) o') -> guards (P /\ Q) (obind c k) o'.
Proof.
  intros [([] & -> & Ha)|[-> Hno]] Hk; cbn [obind].
  - destruct (Hk Ha) as [[HQ ->]|[HQ ->]]; [by left|right]. split; [tauto|done].
  - right. split; [|done]. intros [HP _]. by apply (Hno tt).
Qed.

Lemma guards_last {B} (P : Prop) (c : outcome unit) (k : unit -> outcome B) :
  checks (fun _ => P) c -> guards P (obind c k) (k tt).
Proof.
  intros [([] & -> & Ha)|[-> Hno]]; [by left|right]. split; [|done]. intros HP. by apply (Hno tt).
Qed.

Lemma guards_iff {B} (P P' : Prop) (o o' : outcome B) : (P <-> P') -> guards P o o' -> guards P' o o'.
Proof. unfold guards. tauto. Qed.

#[export] Instance guards_proper {B} : Proper (iff ==> eq ==> eq ==> iff) (@guards B).
Proof. intros P P' HP o _ <- o' _ <-. unfold guards. tauto. Qed.

(** Two spaces without a common byte. *)
Definition apart (p n q k : Z) : Prop := p + n <= q \/ q + k <= p.

(** A string in a tracked block. *)
Definition tracked_string (M : amem) (m : mem) (p : Z) (l : list Z) : Prop :=
  cstr m p l /\ within M p (Z.of_nat (length l) + 1).
Definition writable_string (M : amem) (m : mem) (p : Z) (l : list Z) : Prop :=
  cstr m p l /\ within_writable M p (Z.of_nat (length l) + 1).

(** A string of [r] characters in a tracked block, or [n] characters of it. *)
Definition tracked_nstring (M : amem) (m : mem) (p n r : Z) : Prop :=
  0 <= r <= n /\ nonzero m p r /\
  ((m !! (p + r) = Some 0 /\ within M p (r + 1)) \/ (r = n /\ within M p n)).

Lemma cstr_nonzero m p l : cstr m p l -> nonzero m p (Z.of_nat (length l)).
Proof.
  intros [Hl HF] x Hx E. pose proof (Hl (Z.to_nat (x - p))) as H.
  destruct (lookup_lt_is_Some_2 l (Z.to_nat (x - p))) as [b Eb]; [lia|].
  specialize (H b). rewrite lookup_app_l, Z2Nat.id in H by lia. specialize (H Eb).
  replace (p + (x - p)) with x in H by lia. rewrite Forall_lookup in HF. pose proof (HF _ _ Eb).
  assert (b = 0) by congruence. lia.
Qed.

Lemma cstr_end m p l : cstr m p l -> m !! (p + Z.of_nat (length l)) = Some 0.
Proof. intros [Hl _]. apply (Hl (length l)). by apply list_lookup_middle. Qed.

Lemma tracked_nstring_unique M m p n r r' :
  tracked_nstring M m p n r -> tracked_nstring M m p n r' -> r = r'.
Proof.
  intros (H1 & N1 & C1) (H2 & N2 & C2). destruct (Z.lt_trichotomy r r') as [Hlt|[?|Hlt]]; [|done|].
  - destruct C1 as [[E _]|[-> _]]; [|lia]. destruct (N2 (p + r)); [lia|done].
  - destruct C2 as [[E _]|[-> _]]; [|lia]. destruct (N1 (p + r')); [lia|done].
Qed.

Lemma cstr_length_unique m p l l' : cstr m p l -> cstr m p l' -> Z.of_nat (length l) = Z.of_nat (length l').
Proof. intros H H'. apply strlen_cstr in H, H'. congruence. Qed.

(** A string is readable to any length. *)
Lemma cstr_readable m p l n : cstr m p l -> readable m p n.
Proof.
  intros Hl k Hk Hnz. apply (bytes_accessible _ _ _ (proj1 Hl)). rewrite length_app. simpl.
  destruct (decide (k <= Z.of_nat (length l))); [lia|]. exfalso.
  apply (Hnz (p + Z.of_nat (length l))); [lia|]. by apply cstr_end.
Qed.

(** ** What the checks answer *)

Section Checks.
Context {S : Type} `{OB : !Observers S, OBok : !ObserversOk S} (s : S) (M : amem) (m : mem).
Context (HM : ob_models s M) (Hb : backed M m).

Lemma within_bounds p n : within M p n -> 0 < n -> 0 <= p /\ n < 2 ^ 63 /\ p + n < 2 ^ 64.
Proof using HM.
  intros (a & ab & Hc & Hle) Hn. destruct (ob_range s M a ab HM (proj1 Hc)) as (R1 & R2 & R3).
  destruct Hc as [_ Hc]. unfold covers in Hc. lia.
Qed.

Lemma within_sub p n k : within M p n -> k <= n -> within M p k.
Proof. intros (a & ab & Hc & Hle) Hk. exists a, ab. split; [done|lia]. Qed.

Lemma within_block p n a ab : contains M p a ab -> within M p n -> p + n <= a + ab_size ab.
Proof using HM.
  intros Hc (a' & ab' & Hc' & Hle). by destruct (ob_unique s M p a ab a' ab' HM Hc Hc') as [-> ->].
Qed.

Lemma allocated_space p n : in_u 64 p -> ob_addr s p -> 0 < n < 2 ^ 63 ->
  checks (fun _ => within M p n) (validate_allocated_space s p n).
Proof using HM.
  intros Hp Ha Hn. unfold validate_allocated_space.
  destruct (ob_allocated_exact s M p n HM Hp Ha Hn) as (r & -> & Hr). cbn [obind].
  destruct (i2b r) eqn:E; cbn [negb]; [left; exists tt; split; [done|by apply Hr]|right].
  split; [done|]. intros _ H. apply Hr in H. done.
Qed.

Lemma writeable_space p n : in_u 64 p -> ob_addr s p -> 0 < n < 2 ^ 63 ->
  checks (fun _ => within_writable M p n) (validate_writeable_space s p n).
Proof using HM.
  intros Hp Ha Hn. unfold validate_writeable_space.
  destruct (ob_writeable_exact s M p n HM Hp Ha Hn) as (r & -> & Hr). cbn [obind].
  destruct (i2b r) eqn:E; cbn [negb]; [left; exists tt; split; [done|by apply Hr]|right].
  destruct (ob_writeable_exact s M p 1 HM Hp Ha ltac:(lia)) as (r1 & -> & _). cbn [obind].
  split; [by destruct (i2b r1)|]. intros _ H. apply Hr in H. done.
Qed.

Lemma overlapping_spaces p n q k : 0 <= p -> 0 <= q -> 0 <= n -> 0 <= k -> p + n < 2 ^ 64 -> q + k < 2 ^ 64 ->
  checks (fun _ => apart p n q k) (validate_overlapping_spaces p n q k).
Proof.
  intros. unfold validate_overlapping_spaces, disjoint_spaces, apart.
  rewrite !u64_small by (unfold in_u; lia).
  zbool; cbn; first [left; exists tt; split; [done|tauto] | right; split; [done|lia]].
Qed.

Lemma answer_ret r : 0 <= r ->
  (if (r =? -1) || (r =? -2) || (r =? -3) || (r =? -4) then Abort
   else let* _ := vassert (0 <=? r) in Ret r) = Ret r.
Proof.
  intros H. rewrite !(proj2 (Z.eqb_neq r _)) by lia. cbn [orb]. by rewrite (proj2 (Z.leb_le 0 r)) by lia.
Qed.

(** The terminator of a string in the block of its first address. *)
Lemma string_in_block w p l a ab : contains M p a ab -> cstr m p l ->
  p + Z.of_nat (length l) < a + ab_size ab -> (w <> 0 -> ab_readonly ab = false) ->
  cstr m p l /\ exists a ab, contains M p a ab /\ p + (Z.of_nat (length l) + 1) <= a + ab_size ab /\
    (w <> 0 -> ab_readonly ab = false).
Proof. intros Hc Hl Hle Hw. split; [done|]. exists a, ab. split; [done|]. split; [lia|done]. Qed.

Lemma whole_string_check p w : in_u 64 p -> ob_addr s p ->
  checks (fun r => exists l, r = Z.of_nat (length l) /\ cstr m p l /\
    exists a ab, contains M p a ab /\ p + (r + 1) <= a + ab_size ab /\ (w <> 0 -> ab_readonly ab = false))
    (validate_string s m p (-1) w).
Proof using HM Hb.
  intros Hp Ha. unfold validate_string.
  destruct (valid_nstring_spec s M m HM Hb p (-1) w Hp Ha ltac:(lia)) as (r & -> & Hr). cbn [obind].
  destruct Hr as [Hno|a ab Hc Hw Hro|r a ab Hc Hr Hle Hw Hnz H0|a ab Hc Hr|a ab Hc Hlt|a ab Hc _ Hnz];
    try lia.
  - right. split; [done|]. intros r (l & -> & Hl & a & ab & Hc & Hle & _). apply Hno. exists a, ab.
    split; [done|lia].
  - right. split; [done|]. intros r (l & -> & Hl & a' & ab' & Hc' & _ & Hf).
    destruct (ob_unique s M p a ab a' ab' HM Hc Hc') as [-> ->]. rewrite (Hf Hw) in Hro. done.
  - left. exists r. split; [by apply answer_ret|].
    destruct (cstr_of_terminator m p r) as (l & Hl & El); [apply (bk_bytes _ _ Hb)|done| |done|done|].
    { apply (within_accessible M m Hb). exists a, ab. split; [done|lia]. }
    exists l. split; [done|]. split; [done|]. exists a, ab. split; [done|]. split; [lia|done].
  - destruct Hc as [_ Hc]. unfold covers in Hc. lia.
  - right. split; [done|]. intros r (l & -> & Hl & a' & ab' & Hc' & Hle & _).
    destruct (ob_unique s M p a ab a' ab' HM Hc Hc') as [-> ->].
    apply (Hnz (p + Z.of_nat (length l))); [lia|by apply cstr_end].
Qed.

Lemma checks_iff {A} (R R' : A -> Prop) c : (forall a, R a <-> R' a) -> checks R c -> checks R' c.
Proof. intros H [(a & -> & Ha)|[-> Hno]]; [left; exists a; naive_solver|right; naive_solver]. Qed.

Lemma allocated_string p : in_u 64 p -> ob_addr s p ->
  checks (fun r => exists l, r = Z.of_nat (length l) /\ tracked_string M m p l)
    (validate_allocated_string s m p (-1)).
Proof using HM Hb.
  intros Hp Ha. eapply checks_iff; [|by apply whole_string_check]. intros r. unfold tracked_string, within.
  naive_solver.
Qed.

Lemma writeable_string p : in_u 64 p -> ob_addr s p ->
  checks (fun r => exists l, r = Z.of_nat (length l) /\ writable_string M m p l)
    (validate_writeable_string s m p (-1)).
Proof using HM Hb.
  intros Hp Ha. eapply checks_iff; [|by apply whole_string_check]. intros r.
  unfold writable_string, within_writable. naive_solver.
Qed.

Lemma allocated_nstring p n : in_u 64 p -> ob_addr s p -> 0 < n ->
  checks (tracked_nstring M m p n) (validate_allocated_string s m p n).
Proof using HM Hb.
  intros Hp Ha Hn. unfold validate_allocated_string, validate_string.
  destruct (valid_nstring_spec s M m HM Hb p n 0 Hp Ha ltac:(lia)) as (r & -> & Hr). cbn [obind].
  destruct Hr as [Hno|a ab Hc Hw Hro|r a ab Hc Hr Hle _ Hnz H0 Hcut|a ab Hc Hr Hle _ Hnz|a ab Hc Hlt Hnz|a ab Hc Hneg];
    try lia.
  - right. split; [done|]. intros r (Hr & _ & [[_ H]|[-> H]]); apply Hno; (eapply within_sub; [exact H|lia]).
  - left. exists r. split; [by apply answer_ret|]. split; [lia|]. split; [done|]. left. split; [done|].
    exists a, ab. split; [done|lia].
  - left. exists n. split; [by apply answer_ret; lia|]. split; [lia|]. split; [done|]. right. split; [done|].
    by exists a, ab.
  - right. split; [done|]. intros r (Hr & _ & [[E H]|[-> H]]); apply (within_block _ _ a ab Hc) in H; [|lia].
    apply (Hnz (p + r)); [lia|done].
Qed.

Lemma tracked_nstring_readable p n r : tracked_nstring M m p n r -> readable m p n.
Proof using Hb.
  intros (Hr & Hnz & [[E H]|[-> H]]) k Hk Hnz'.
  - destruct (decide (k < r + 1)); [apply (within_accessible M m Hb _ _ H); lia|].
    exfalso. apply (Hnz' (p + r)); [lia|done].
  - apply (within_accessible M m Hb _ _ H). lia.
Qed.
End Checks.
