(* ===== verification/ObserversInst.v ===== *)
(** * The two memory models as observers

    The trie model and the shadow model both satisfy the laws of [ObserversOk], so
    what is proved of the clients holds of either. *)

From S2P Require Import Prelude AMem Alloc Temporal Trie Bittree BittreeRep BtModel BtSpec Segment SegModel SegStatic SegHeap SegTrace Observers.

(** A range that ends in the block that contains its first address. *)
Lemma allocated_in_self cfg M p n : 0 < n -> (exists a ab, allocated_in cfg M p n p a ab) <-> within M p n.
Proof.
  intros Hn. split.
  - intros (a & ab & Hc & _ & Hle). by exists a, ab.
  - intros (a & ab & Hc & Hle). by exists a, ab.
Qed.

(** [writeable] is [allocated] and then [readonly]. *)
Lemma writeable_answer M p n (ro : outcome Z) (alc : outcome Z) r :
  (forall a ab a' ab', contains M p a ab -> contains M p a' ab' -> a = a' /\ ab = ab') ->
  alc = Ret r -> (i2b r = true <-> within M p n) ->
  (forall a ab, contains M p a ab -> exists b, ro = Ret b /\ i2b b = ab_readonly ab) ->
  exists w, (let* a := alc in
    if i2b a then let* r := ro in Ret (b2i (negb (i2b r))) else Ret 0) = Ret w /\
    (i2b w = true <-> within_writable M p n).
Proof.
  intros Hu -> Hr Hro. cbn [obind]. destruct (i2b r) eqn:E.
  - destruct (proj1 Hr eq_refl) as (a & ab & Hc & Hle).
    destruct (Hro a ab Hc) as (b & -> & Hb). cbn [obind]. rewrite Hb. eexists. split; [done|].
    destruct (ab_readonly ab) eqn:Ew; cbn.
    + split; [done|]. intros (a' & ab' & Hc' & _ & Hw). destruct (Hu _ _ _ _ Hc Hc') as [_ <-]. congruence.
    + split; [|done]. intros _. by exists a, ab.
  - exists 0. split; [done|]. split; [done|]. intros (a & ab & Hc & Hle & _).
    assert (false = true) by (apply Hr; by exists a, ab). done.
Qed.

(** ** The trie *)

Section TrieObservers.
Context (cfg : config).

#[export] Instance trie_observers : Observers heap := {
  ob_allocated := BtModel.allocated cfg;
  ob_writeable := BtModel.writeable cfg;
  ob_readonly := BtModel.readonly cfg;
  ob_block_length := BtModel.block_length cfg;
  ob_offset := BtModel.offset cfg
}.

Lemma trie_range h M a ab : models h M -> M !! a = Some ab ->
  0 < a /\ 0 <= ab_size ab < max_size /\ a + ab_size ab < 2 ^ 64.
Proof.
  intros (ot & Hi & Ha) E. apply Ha in E as (b & blk & Ht & <- & ->).
  destruct (inv_ok _ _ Hi _ _ Ht). simpl. lia.
Qed.

Lemma trie_allocated_exact h M p n : models h M -> in_u 64 p -> 0 < n < 2 ^ 63 ->
  exists r, BtModel.allocated cfg h p n p = Ret r /\ (i2b r = true <-> within M p n).
Proof.
  intros HM Hp Hn. unfold BtModel.allocated. rewrite u64_small by (unfold in_u; lia).
  pose proof (allocated_in_self cfg M p n ltac:(lia)) as Hw.
  destruct (lookup_allocated_models cfg h M HM p n p) as [[-> Hno]|(r & blk & -> & Hr & _ & Ha)];
    [done|done|unfold in_u; lia|..]; cbn [obind].
  - exists 0. split; [done|]. split; [done|]. intros (a & ab & H)%Hw. by apply Hno in H.
  - exists 1. rewrite eqb_false by done. split; [done|]. split; [|done]. intros _. apply Hw. eauto.
Qed.

Lemma trie_readonly_exact h M p a ab : models h M -> in_u 64 p -> contains M p a ab ->
  exists r, BtModel.readonly cfg h p = Ret r /\ i2b r = ab_readonly ab.
Proof.
  intros HM Hp Hc. unfold BtModel.readonly.
  destruct (find_models cfg h M HM p Hp) as [-> Hno|r blk -> Hr El Hok Hc']; [by apply Hno in Hc|].
  cbn [obind]. rewrite neqb_true by done. cbn [vassert obind]. rewrite El. cbn [obind].
  eexists. split; [done|]. by destruct (BtSpec.contains_unique h M HM _ _ _ _ _ Hc Hc') as [_ ->].
Qed.

#[export, program] Instance trie_observers_ok : ObserversOk heap := {
  ob_models := models;
  ob_addr := fun _ _ => True
}.
Next Obligation.
  intros h M a ab HM E. destruct (trie_range h M a ab HM E) as (? & ? & ?). unfold max_size in *. lia.
Qed.
Next Obligation. intros h M p a ab a' ab' HM. by apply (BtSpec.contains_unique h M HM). Qed.
Next Obligation. intros h M p n HM Hp _ Hn. by apply trie_allocated_exact. Qed.
Next Obligation.
  intros h M p n HM Hp _ Hn. destruct (trie_allocated_exact h M p n HM Hp Hn) as (r & E & Hr).
  eapply writeable_answer; [intros ????; by apply (BtSpec.contains_unique h M HM p)|exact E|exact Hr|].
  intros a ab. by apply trie_readonly_exact.
Qed.
Next Obligation. intros h M p a ab HM Hp. by apply trie_readonly_exact. Qed.
Next Obligation.
  intros h M p a ab HM Hp Hc. destruct (block_length_models cfg h M HM p Hp) as [L _].
  destruct (offset_models cfg h M HM p Hp) as [O _].
  split; [by rewrite <- (L a ab Hc)|by rewrite <- (O a ab Hc)].
Qed.
End TrieObservers.

(** ** The shadows *)

Section ShadowObservers.
Context `{PB : !PublicAlloc} (cfg : config).

#[export] Instance shadow_observers : Observers SegModel.state := {
  ob_allocated st := Segment.allocated cfg (st_layout st) (st_mem st);
  ob_writeable st := Segment.writeable cfg (st_layout st) (st_mem st);
  ob_readonly st := Segment.readonly (st_layout st) (st_mem st);
  ob_block_length st := SegModel.block_length cfg st;
  ob_offset st := SegModel.offset cfg st
}.

Lemma shadow_range st M a ab : seg_models st M -> M !! a = Some ab ->
  0 <= a /\ 0 < ab_size ab < 2 ^ 63 /\ a + ab_size ab < 2 ^ 64.
Proof.
  intros HM E. pose proof (block_size_pos st M a ab HM E) as Hs. destruct (ab_freeable ab) eqn:Ef.
  - assert (heap_part M !! a = Some ab) as E' by by apply heap_part_lookup.
    pose proof (so_heap _ (gm_state _ _ HM)) as Hh.
    destruct (block_facts _ Hh _ _ (gm_heap _ _ HM) a ab E'). lia.
  - assert (static_part M !! a = Some ab) as E' by by apply static_part_lookup.
    destruct (sm_block _ _ _ (gm_static _ _ HM) _ _ E') as (s & Hn & _).
    pose proof (home_bounds _ (so_layout _ (gm_state _ _ HM)) s a _ Hn). lia.
Qed.

Lemma shadow_allocated_self st M p n : seg_models st M -> p <> hend (st_layout st) -> 0 < n < 2 ^ 63 ->
  exists r, Segment.allocated cfg (st_layout st) (st_mem st) p n p = Ret r /\
    (i2b r = true <-> within M p n).
Proof.
  intros HM Hp Hn. destruct (allocated_exact cfg st M p n p HM Hn Hp (base_ok_self _ _ _))
    as (r & E & H01 & Hr). exists r. split; [done|].
  rewrite <- (allocated_in_self cfg M p n), <- Hr by lia. by destruct H01 as [-> | ->].
Qed.

Lemma shadow_readonly_self st M p a ab : seg_models st M -> contains M p a ab ->
  exists r, Segment.readonly (st_layout st) (st_mem st) p = Ret r /\ i2b r = ab_readonly ab.
Proof.
  intros HM Hc. rewrite (seg_readonly_exact st M p a ab HM Hc). eexists. split; [done|].
  by destruct (ab_readonly ab).
Qed.

(** [IS_ON_HEAP] takes the address past the heap for an address of the heap. *)
#[export, program] Instance shadow_observers_ok : ObserversOk SegModel.state := {
  ob_models := seg_models;
  ob_addr := fun st p => p <> hend (st_layout st)
}.
Next Obligation. intros st M a ab HM E. pose proof (shadow_range st M a ab HM E). lia. Qed.
Next Obligation. intros st M p a ab a' ab' HM. by apply (seg_contains_unique st M p). Qed.
Next Obligation. intros st M p n HM _ Hp Hn. by apply shadow_allocated_self. Qed.
Next Obligation.
  intros st M p n HM _ Hp Hn. destruct (shadow_allocated_self st M p n HM Hp Hn) as (r & E & Hr).
  eapply writeable_answer; [intros ????; by apply (seg_contains_unique st M p)|exact E|exact Hr|].
  intros a ab. by apply shadow_readonly_self.
Qed.
Next Obligation. intros st M p a ab HM _. by apply shadow_readonly_self. Qed.
Next Obligation. intros st M p a ab HM _ Hc. by destruct (observers_exact cfg st M p a ab HM Hc) as (_ & ? & ?). Qed.
End ShadowObservers.
