(* ===== verification/LibcReplacementsExact.v ===== *)
(** * The checked replacements are exact

    Against any memory model that satisfies the laws of [ObserversOk]: each
    replacement is the plain function of string.c behind its precondition, and ends
    the program when the precondition fails; what the plain functions do behind
    the checks; and the preconditions that are not the ones of the C standard. *)

From S2P Require Import Prelude AMem Alloc Temporal Trie Bittree BtModel BtTrace Shadow Segment SegModel SegStatic SegHeap SegTrace SegTheorems Observers ObserversInst LibcString LibcStringSpec LibcReplacements LibcReplacementsTheorems.

(** The preconditions of the replacements that copy and compare blocks. *)
Definition may_copy (M : amem) (d p n : Z) : Prop := within M p n /\ within_writable M d n.

(** The bytes of the source, at the destination. *)
Definition copied (m m' : mem) (d p n : Z) : Prop :=
  forall x, m' !! x = if decide (d <= x < d + n) then m !! (x - d + p) else m !! x.

Section Guards.
Context {S : Type} `{OB : !Observers S, OBok : !ObserversOk S} (s : S) (M : amem) (m : mem).
Context (HM : ob_models s M) (Hb : backed M m).

(** ** Blocks *)

Lemma memcpy_guards d p n : in_u 64 d -> ob_addr s d -> in_u 64 p -> ob_addr s p -> 0 < n < 2 ^ 63 ->
  guards (within M p n /\ within_writable M d n /\ apart p n d n)
    (builtin_memcpy s m d p n) (memcpy m d p n).
Proof using HM.
  intros Hd Had Hp Hap Hn. unfold builtin_memcpy.
  apply guards_unit; [by apply (allocated_space s M)|]. intros H1.
  apply guards_unit; [by apply (writeable_space s M)|]. intros H2.
  destruct (within_bounds s M HM _ _ H1) as (?&?&?); [lia|].
  destruct (within_bounds s M HM _ _ (writable_within M _ _ H2)) as (?&?&?); [lia|].
  apply (guards_last _ _ (fun _ => memcpy m d p n)). apply overlapping_spaces; lia.
Qed.

Lemma memmove_guards d p n : in_u 64 d -> ob_addr s d -> in_u 64 p -> ob_addr s p -> 0 < n < 2 ^ 63 ->
  guards (may_copy M d p n) (builtin_memmove s m d p n) (memmove m d p n).
Proof using HM.
  intros Hd Had Hp Hap Hn. unfold builtin_memmove.
  apply guards_unit; [by apply (allocated_space s M)|]. intros H1.
  apply (guards_last _ _ (fun _ => memmove m d p n)). by apply (writeable_space s M).
Qed.

Lemma memset_guards d c n : in_u 64 d -> ob_addr s d -> 0 < n < 2 ^ 63 ->
  guards (within_writable M d n) (builtin_memset s m d c n) (memset m d c n).
Proof using HM.
  intros Hd Had Hn. apply (guards_last _ _ (fun _ => memset m d c n)). by apply (writeable_space s M).
Qed.

Lemma memcmp_guards p q n : in_u 64 p -> ob_addr s p -> in_u 64 q -> ob_addr s q -> 0 < n < 2 ^ 63 ->
  guards (within M p n /\ within M q n /\ apart p n q n) (builtin_memcmp s m p q n) (memcmp m p q n).
Proof using HM.
  intros Hp Hap Hq Haq Hn. unfold builtin_memcmp.
  apply guards_unit; [by apply (allocated_space s M)|]. intros H1.
  apply guards_unit; [by apply (allocated_space s M)|]. intros H2.
  destruct (within_bounds s M HM _ _ H1) as (?&?&?); [lia|].
  destruct (within_bounds s M HM _ _ H2) as (?&?&?); [lia|].
  apply (guards_last _ _ (fun _ => memcmp m p q n)). apply overlapping_spaces; lia.
Qed.

(** ** Strings *)

Definition is_string (p : Z) : Prop := exists l, tracked_string M m p l.
Definition is_nstring (p n : Z) : Prop := exists r, tracked_nstring M m p n r.

Lemma size_unique p (R : list Z -> Prop) : (forall l, R l -> cstr m p l) ->
  forall r r', (exists l, r = Z.of_nat (length l) /\ R l) -> (exists l, r' = Z.of_nat (length l) /\ R l) ->
  r = r'.
Proof.
  intros HR r r' (l & -> & Hl) (l' & -> & Hl'). by apply (cstr_length_unique m p); apply HR.
Qed.

Lemma strlen_guards p : in_u 64 p -> ob_addr s p ->
  guards (is_string p) (builtin_strlen s m p) (strlen m p).
Proof using HM Hb.
  intros Hp Ha. destruct (allocated_string s M m HM Hb p Hp Ha) as [(r & E & l & -> & Hl)|[E Hno]].
  - left. split; [by exists l|]. unfold builtin_strlen. rewrite E. symmetry. apply strlen_cstr, Hl.
  - right. split; [|done]. intros [l Hl]. by apply (Hno (Z.of_nat (length l))); exists l.
Qed.

Lemma string_size l p : tracked_string M m p l ->
  0 <= p /\ Z.of_nat (length l) + 1 < 2 ^ 63 /\ p + (Z.of_nat (length l) + 1) < 2 ^ 64.
Proof using HM. intros [_ H]. apply (within_bounds s M HM) in H; lia. Qed.

Lemma strcpy_guards d p : in_u 64 d -> ob_addr s d -> in_u 64 p -> ob_addr s p ->
  guards (exists l, tracked_string M m p l /\ within_writable M d (Z.of_nat (length l) + 1) /\
      apart d (Z.of_nat (length l) + 1) p (Z.of_nat (length l) + 1))
    (builtin_strcpy s m d p) (strcpy m d p).
Proof using HM Hb.
  intros Hd Had Hp Hap. unfold builtin_strcpy.
  eapply guards_iff; [|apply (guards_bind _
    (fun r => within_writable M d (r + 1) /\ apart d (r + 1) p (r + 1)) _ _ _
    (allocated_string s M m HM Hb p Hp Hap))].
  - split; [intros (r & (l & -> & Hl) & H); by exists l|intros (l & Hl & H); eauto].
  - apply (size_unique p). by intros l [].
  - intros r (l & -> & Hl). destruct (string_size l p Hl) as (?&?&?).
    rewrite (u64_small (Z.of_nat (length l) + 1)) by (unfold in_u; lia).
    apply guards_unit; [apply (writeable_space s M); [done..|lia]|]. intros H2.
    destruct (within_bounds s M HM _ _ (writable_within M _ _ H2)) as (?&?&?); [lia|].
    apply (guards_last _ _ (fun _ => strcpy m d p)). apply overlapping_spaces; lia.
Qed.

Lemma strcmp_guards p q : in_u 64 p -> ob_addr s p -> in_u 64 q -> ob_addr s q ->
  guards (is_string p /\ is_string q) (builtin_strcmp s m p q) (strcmp m p q).
Proof using HM Hb.
  intros Hp Hap Hq Haq. unfold builtin_strcmp.
  destruct (allocated_string s M m HM Hb p Hp Hap) as [(r & -> & l & _ & Hl)|[-> Hno]]; cbn [obind].
  2: { right. split; [|done]. intros [[l Hl] _]. by apply (Hno (Z.of_nat (length l))); exists l. }
  destruct (allocated_string s M m HM Hb q Hq Haq) as [(r' & -> & l' & _ & Hl')|[-> Hno]]; cbn [obind].
  2: { right. split; [|done]. intros [_ [l' Hl']]. by apply (Hno (Z.of_nat (length l'))); exists l'. }
  left. split; [|done]. split; eexists; eassumption.
Qed.

(** The bounded functions. *)
Lemma nstring_guards {B} p n (k : Z -> outcome B) Q o' : in_u 64 p -> ob_addr s p -> 0 < n < 2 ^ 63 ->
  (forall r, is_nstring p n -> guards Q (k r) o') ->
  guards (is_nstring p n /\ Q) (let* r := validate_allocated_string s m p (s64 n) in k r) o'.
Proof using HM Hb.
  intros Hp Ha Hn Hk. rewrite s64_small by lia.
  eapply guards_iff; [|apply (guards_bind _ (fun _ => Q) _ _ _ (allocated_nstring s M m HM Hb p n Hp Ha ltac:(lia)))].
  - unfold is_nstring. naive_solver.
  - apply tracked_nstring_unique.
  - intros r Hr. apply Hk. by exists r.
Qed.

Lemma strncpy_guards d p n : in_u 64 d -> ob_addr s d -> in_u 64 p -> ob_addr s p -> 0 < n < 2 ^ 63 ->
  p + n < 2 ^ 64 ->
  guards (is_nstring p n /\ within_writable M d n /\ apart d n p n)
    (builtin_strncpy s m d p n) (strncpy m d p n).
Proof using HM Hb.
  intros Hd Had Hp Hap Hn Hpn. unfold in_u in *. apply nstring_guards; [done..|]. intros _ _.
  apply guards_unit; [by apply (writeable_space s M)|]. intros H2.
  destruct (within_bounds s M HM _ _ (writable_within M _ _ H2)) as (?&?&?); [lia|].
  apply (guards_last _ _ (fun _ => strncpy m d p n)). apply overlapping_spaces; lia.
Qed.

Lemma strncmp_guards p q n : in_u 64 p -> ob_addr s p -> in_u 64 q -> ob_addr s q -> 0 < n < 2 ^ 63 ->
  guards (is_nstring p n /\ is_nstring q n) (builtin_strncmp s m p q n) (strncmp m p q n).
Proof using HM Hb.
  intros Hp Hap Hq Haq Hn. apply nstring_guards; [done..|]. intros _ _.
  eapply guards_iff; [|apply (nstring_guards q n (fun _ => strncmp m p q n) True); [done..|]]; [tauto|].
  intros _ _. by left.
Qed.

(** Concatenation. *)
Lemma avail_sz_spec d ld : in_u 64 d -> writable_string M m d ld ->
  exists v, avail_sz s d = Ret v /\ Z.of_nat (length ld) + 1 <= v < 2 ^ 63 /\ 0 <= d /\ d + v < 2 ^ 64 /\
    forall k, within_writable M d k <-> k <= v.
Proof using HM.
  intros Hd (_ & a & ab & Hc & Hle & Hw). unfold avail_sz.
  destruct (ob_length_exact s M d a ab HM Hd Hc) as [-> ->]. cbn [obind].
  destruct (ob_range s M a ab HM (proj1 Hc)) as (R1 & R2 & R3).
  assert (0 <= d - a <= ab_size ab) as Hr by (destruct Hc as [_ Hc]; unfold covers in Hc; lia).
  exists (ab_size ab - (d - a)). rewrite u64_small by (unfold in_u; lia). split; [done|].
  split; [lia|]. split; [lia|]. split; [lia|]. intros k. split.
  - intros (a' & ab' & Hc' & Hle' & _). destruct (ob_unique s M d a ab a' ab' HM Hc Hc') as [-> ->]. lia.
  - intros Hk. exists a, ab. split; [done|]. split; [lia|done].
Qed.

Lemma strcat_guards d p : in_u 64 d -> ob_addr s d -> in_u 64 p -> ob_addr s p ->
  guards (exists l ld, tracked_string M m p l /\ writable_string M m d ld /\
      within_writable M d (Z.of_nat (length l) + Z.of_nat (length ld) + 1) /\
      apart p (Z.of_nat (length l) + 1) d (Z.of_nat (length ld) + 1))
    (builtin_strcat s m d p) (strcat m d p).
Proof using HM Hb.
  intros Hd Had Hp Hap. unfold builtin_strcat.
  destruct (allocated_string s M m HM Hb p Hp Hap) as [(r & -> & l & -> & Hl)|[-> Hno]]; cbn [obind].
  2: { right. split; [|done]. intros (l & _ & Hl & _). by apply (Hno (Z.of_nat (length l))); exists l. }
  destruct (writeable_string s M m HM Hb d Hd Had) as [(r & -> & ld & -> & Hld)|[-> Hno]]; cbn [obind].
  2: { right. split; [|done]. intros (_ & ld & _ & Hld & _). by apply (Hno (Z.of_nat (length ld))); exists ld. }
  destruct (string_size l p Hl) as (?&?&?).
  destruct (avail_sz_spec d ld Hd Hld) as (v & -> & Hv & ? & ? & Hin). cbn [obind].
  rewrite !u64_small by (unfold in_u; lia).
  eapply (guards_iff (within_writable M d (Z.of_nat (length l) + Z.of_nat (length ld) + 1) /\
    apart p (Z.of_nat (length l) + 1) d (Z.of_nat (length ld) + 1))).
  { split; [intros [Hroom Hsep]; by exists l, ld|intros (l' & ld' & Hl' & Hld' & Hroom & Hsep)].
    by rewrite (cstr_length_unique m p l l' (proj1 Hl) (proj1 Hl')),
      (cstr_length_unique m d ld ld' (proj1 Hld) (proj1 Hld')). }
  rewrite Hin. destruct (Z.leb_spec (Z.of_nat (length l) + Z.of_nat (length ld) + 1) v) as [Hle|Hlt]; cbn [negb].
  - eapply guards_iff; [|apply (guards_last _ _ (fun _ => strcat m d p)), overlapping_spaces; lia]. tauto.
  - right. split; [lia|done].
Qed.

Lemma strncat_guards d p n : in_u 64 d -> ob_addr s d -> in_u 64 p -> ob_addr s p -> 0 < n < 2 ^ 63 ->
  p + n < 2 ^ 64 ->
  guards (is_nstring p n /\ exists ld, writable_string M m d ld /\
      within_writable M d (n + Z.of_nat (length ld) + 1) /\ apart p n d (Z.of_nat (length ld)))
    (builtin_strncat s m d p n) (strncat m d p n).
Proof using HM Hb.
  intros Hd Had Hp Hap Hn Hpn. unfold in_u in *. apply nstring_guards; [done..|]. intros _ _.
  destruct (writeable_string s M m HM Hb d Hd Had) as [(r & -> & ld & -> & Hld)|[-> Hno]]; cbn [obind].
  2: { right. split; [|done]. intros (ld & Hld & _). by apply (Hno (Z.of_nat (length ld))); exists ld. }
  destruct (avail_sz_spec d ld Hd Hld) as (v & -> & Hv & ? & ? & Hin). cbn [obind].
  rewrite !u64_small by (unfold in_u; lia).
  eapply (guards_iff (within_writable M d (n + Z.of_nat (length ld) + 1) /\ apart p n d (Z.of_nat (length ld)))).
  { split; [intros [Hroom Hsep]; by exists ld|intros (ld' & Hld' & Hroom & Hsep)].
    by rewrite (cstr_length_unique m d ld ld' (proj1 Hld) (proj1 Hld')). }
  rewrite Hin. destruct (Z.leb_spec (n + Z.of_nat (length ld) + 1) v) as [Hle|Hlt]; cbn [negb].
  - eapply guards_iff; [|apply (guards_last _ _ (fun _ => strncat m d p n)), overlapping_spaces; lia]. tauto.
  - right. split; [lia|done].
Qed.
End Guards.

(** ** Behind the checks *)

Section Behind.
Context (M : amem) (m : mem) (Hb : backed M m).

Lemma memcpy_behind d p n : 0 < n -> within M p n -> within_writable M d n -> apart p n d n ->
  exists m', memcpy m d p n = Ret (d, m') /\ copied m m' d p n.
Proof using Hb.
  intros Hn H1 H2%writable_within Hsep. unfold apart in Hsep. unfold memcpy.
  destruct (copy_up m d p n) as (m' & -> & _ & Hx); [apply (bk_bytes _ _ Hb)|lia| | |lia|by exists m'];
    by eapply within_accessible.
Qed.

Lemma memset_behind d c n : 0 < n -> within_writable M d n ->
  exists m', memset m d c n = Ret (d, m') /\
    forall x, m' !! x = if decide (d <= x < d + n) then Some (u8 c) else m !! x.
Proof using Hb.
  intros Hn H2%writable_within. unfold memset.
  destruct (fill_range m d c 0 n) as (m' & -> & _ & Hx); [lia| |].
  - rewrite Z.add_0_r, Z.sub_0_r. by eapply within_accessible.
  - exists m'. split; [done|]. intros x. by rewrite Hx, Z.add_0_r.
Qed.

Lemma memcmp_behind p q n : 0 < n -> within M p n -> within M q n -> defined (memcmp m p q n).
Proof using Hb.
  intros Hn H1 H2. apply memcmp_loop_defined; rewrite Z.add_0_r, Z2Nat.id by lia; by eapply within_accessible.
Qed.

Lemma strcpy_behind d p l : tracked_string M m p l -> within_writable M d (Z.of_nat (length l) + 1) ->
  apart d (Z.of_nat (length l) + 1) p (Z.of_nat (length l) + 1) ->
  strcpy m d p = Ret (d, write m d (l ++ [0])).
Proof using Hb.
  intros [Hl _] H2%writable_within Hsep. unfold apart in Hsep.
  apply strcpy_spec; [done| |lia]. by eapply within_accessible.
Qed.

Lemma strcmp_behind p q l l' : cstr m p l -> cstr m q l' -> exists r, strcmp m p q = Ret r /\ compares r l l'.
Proof.
  intros Hl Hl'. unfold strcmp.
  apply strcmp_loop_cstr; [by rewrite Z.add_0_r|by rewrite Z.add_0_r|by eapply cstr_steps].
Qed.

Lemma strncpy_behind d p n : 0 < n -> readable m p n -> within_writable M d n -> apart d n p n ->
  exists m', strncpy m d p n = Ret (d, m') /\ dom m' = dom m.
Proof using Hb.
  intros Hn Hread Hin%writable_within Hsep. unfold apart in Hsep.
  pose proof (within_accessible M m Hb _ _ Hin) as Hda. unfold strncpy.
  rewrite <- (Z2Nat.id n) in Hread by lia.
  destruct (strncpy_loop_defined (Z.to_nat n) m d p 0) as (i & m' & -> & Hi & Hdm);
    [done|apply (bk_bytes _ _ Hb)|done|intros x Hx; lia| |lia|].
  { rewrite Z.add_0_r, Z2Nat.id by lia. done. }
  cbn [obind]. destruct (fill_range m' d 0 i n) as (m2 & -> & Hd2 & _); [lia| |].
  - apply (accessible_dom m); [done|]. eapply accessible_sub; [exact Hda|lia..].
  - exists m2. split; [done|congruence].
Qed.

Lemma strncmp_behind p q n : 0 < n -> readable m p n -> readable m q n -> defined (strncmp m p q n).
Proof.
  intros Hn R1 R2. apply strncmp_loop_defined; [lia|rewrite Z2Nat.id by lia; done..|intros x Hx; lia|].
  intros x Hx. lia.
Qed.
End Behind.

Lemma memmove_behind {S : Type} `{OB : !Observers S, OBok : !ObserversOk S} (s : S) M m d p n :
  ob_models s M -> backed M m -> 0 < n -> may_copy M d p n ->
  exists m', memmove m d p n = Ret (d, m') /\ copied m m' d p n.
Proof.
  intros HM Hb Hn [H1 H2]. pose proof (writable_within M _ _ H2) as H2'.
  destruct (within_bounds s M HM _ _ H1) as (?&?&?); [lia|].
  destruct (within_bounds s M HM _ _ H2') as (?&?&?); [lia|].
  destruct (memmove_spec m d p n) as (m' & -> & _ & Hx); [apply (bk_bytes _ _ Hb)|lia..| | |by exists m'];
    by eapply within_accessible.
Qed.

(** ** The claims *)

(** C37.  [valid_nstring] decides what a string is: with [n] negative, the length of
    the string at [p] if its terminator is in the block of [p]; with [n] positive,
    that length if it is at most [n], or [n] if the block has [n] characters that
    are not a terminator; and the four error codes exactly when the address is not
    allocated, when the block is read-only and must not be, when the block ends
    before the [n] characters, and when it ends before any terminator. *)
Theorem valid_nstring_exact {S : Type} `{OB : !Observers S, OBok : !ObserversOk S}
  (s : S) (M : amem) (m : mem) (p n wrtbl : Z) :
  ob_models s M -> backed M m -> in_u 64 p -> ob_addr s p -> n <> 0 ->
  exists r, valid_nstring s m p n wrtbl = Ret r /\ nstring_answer M m p n wrtbl r.
Proof. intros. by apply valid_nstring_spec. Qed.

(** C38.  The replacements of the block functions: each is the plain function behind
    exactly the precondition that its checks stand for, and ends the program
    otherwise; behind the checks the functions have no undefined behaviour and
    [memcpy], [memmove] and [memset] write what they should. *)
Theorem memory_replacements_exact {S : Type} `{OB : !Observers S, OBok : !ObserversOk S}
  (s : S) (M : amem) (m : mem) (d p c n : Z) :
  ob_models s M -> backed M m -> in_u 64 d -> ob_addr s d -> in_u 64 p -> ob_addr s p ->
  0 < n < 2 ^ 63 ->
  (guards (within M p n /\ within_writable M d n /\ apart p n d n)
     (builtin_memcpy s m d p n) (memcpy m d p n) /\
   guards (may_copy M d p n) (builtin_memmove s m d p n) (memmove m d p n) /\
   guards (within_writable M d n) (builtin_memset s m d c n) (memset m d c n) /\
   guards (within M d n /\ within M p n /\ apart d n p n)
     (builtin_memcmp s m d p n) (memcmp m d p n)) /\
  (may_copy M d p n ->
   (exists m', memmove m d p n = Ret (d, m') /\ copied m m' d p n) /\
   (apart p n d n -> exists m', memcpy m d p n = Ret (d, m') /\ copied m m' d p n)) /\
  (within_writable M d n -> exists m', memset m d c n = Ret (d, m') /\
     forall x, m' !! x = if decide (d <= x < d + n) then Some (u8 c) else m !! x) /\
  (within M d n -> within M p n -> defined (memcmp m d p n)).
Proof.
  intros HM Hb Hd Had Hp Hap Hn. split_and!.
  - by apply memcpy_guards.
  - by apply memmove_guards.
  - by apply memset_guards.
  - by apply memcmp_guards.
  - intros Hc. split; [by apply (memmove_behind s M); [..|lia|]|]. destruct Hc.
    intros; apply (memcpy_behind M m Hb); done || lia.
  - intros H2. by apply (memset_behind M m Hb); [lia|].
  - intros H1 H2. by apply (memcmp_behind M m Hb); [lia|..].
Qed.


(** ** Instances *)

(** The bytes of the blocks of [demo_mem]: zeros, and the literal "hello". *)
Definition demo_app : mem :=
  write (mem_fill 16 4096 0 ∪ mem_fill 6 8192 0 ∪ mem_fill 32 65536 0) 8192 [104; 101; 108; 108; 111; 0].

Lemma backed_check M m : bool_decide (map_Forall (fun _ b => in_u 8 b) m) = true ->
  bool_decide (map_Forall (fun a ab => Forall (fun x => is_Some (m !! x)) (seqZ a (ab_size ab))) M) = true ->
  backed M m.
Proof.
  intros H1 H2%bool_decide_eq_true. split; [by apply mem_ok_check|]. intros a ab E x Hx.
  specialize (H2 a ab E). cbn in H2. rewrite Forall_forall in H2. apply H2, elem_of_seqZ. lia.
Qed.

Lemma demo_backed : backed demo_mem demo_app.
Proof. apply backed_check; vm_compute; reflexivity. Qed.

Lemma demo_hello : cstr demo_app 8192 [104; 101; 108; 108; 111].
Proof. rewrite !cstr_cons, cstr_nil. vm_compute. repeat split; congruence. Qed.

#[local] Existing Instance trie_observers_ok.

Lemma valid_nstring_exact_witness :
  exists r, @valid_nstring heap (trie_observers default_config) demo_heap demo_app 8192 3 0 = Ret r.
Proof.
  destruct (@valid_nstring_exact heap (trie_observers default_config) (trie_observers_ok default_config)
    demo_heap demo_mem demo_app 8192 3 0 demo_models demo_backed) as (r & E & _).
  - split; [discriminate|reflexivity].
  - exact I.
  - discriminate.
  - exists r. exact E.
Defined.

(** The blocks of [tiny_final] of the shadow model. *)
Definition tiny_app : mem := write (mem_fill 16 4192 0 ∪ mem_fill 20 24580 1 ∪ mem_fill 5 45056 0) 45056 [102; 111; 111].

Lemma tiny_backed : backed tiny_final tiny_app.
Proof. apply backed_check; vm_compute; reflexivity. Qed.

Lemma memory_replacements_exact_witness :
  exists m', @builtin_memmove _ (@shadow_observers tiny_public default_config) tiny_st tiny_app 24582 45056 4
    = Ret (24582, m') /\ m' !! 24584 = Some 111.
Proof.
  destruct (@memory_replacements_exact _ (@shadow_observers tiny_public default_config)
    (@shadow_observers_ok tiny_public default_config) tiny_st tiny_final tiny_app 24582 45056 0 4
    tiny_st_models tiny_backed) as ((_ & G & _) & H & _).
  - split; [discriminate|reflexivity].
  - change (24582 <> hend (st_layout tiny_st)). rewrite tiny_st_layout. vm_compute. discriminate.
  - split; [discriminate|reflexivity].
  - change (45056 <> hend (st_layout tiny_st)). rewrite tiny_st_layout. vm_compute. discriminate.
  - split; reflexivity.
  - assert (may_copy tiny_final 24582 45056 4) as Hpre.
    { split.
      - exists 45056, (mk_ablock 5 (all_offsets 5) true false).
        split; [split; [reflexivity|left; simpl; lia]|simpl; lia].
      - exists 24580, (mk_ablock 20 (offsets 4 12) false false).
        split; [split; [reflexivity|left; simpl; lia]|split; [simpl; lia|reflexivity]]. }
    destruct (proj1 (H Hpre)) as (m' & E & Hx). exists m'. split.
    + destruct G as [[_ ->]|[Hno _]]; [exact E|exact (False_ind _ (Hno Hpre))].
    + rewrite Hx. vm_compute. reflexivity.
Defined.


(** ** Preconditions that are not the ones of the C standard *)

(** [memcmp] only reads: it is defined on spaces that overlap, and its replacement
    ends the program. *)
Theorem memcmp_false_alarm :
  memcmp demo_app 8192 8193 3 = Ret 3 /\
  @builtin_memcmp heap (trie_observers default_config) demo_heap demo_app 8192 8193 3 = Abort.
Proof. split; vm_compute; reflexivity. Qed.

(** "hi" at 4096, "lo" at 4099. *)
Definition adjacent_app : mem := write demo_app 4096 [104; 105; 0; 108; 111; 0].

(** [strcat] writes after the string of the destination; the check compares the
    source with that string only, and lets the source be overwritten. *)
Theorem strcat_overwrites_source : exists m',
  @builtin_strcat heap (trie_observers default_config) demo_heap adjacent_app 4096 4099 = Ret (4096, m') /\
  cstr adjacent_app 4099 [108; 111] /\ m' !! 4099 = Some 111.
Proof.
  eexists. split; [vm_compute; reflexivity|]. split; [|vm_compute; reflexivity].
  rewrite !cstr_cons, cstr_nil. vm_compute. repeat split; congruence.
Qed.

(** [strncpy] reads the source up to its terminator; the check compares [n]
    characters of it with the destination. *)
Theorem strncpy_false_alarm :
  (exists m', strncpy adjacent_app 4102 4099 4 = Ret (4102, m')) /\
  @builtin_strncpy heap (trie_observers default_config) demo_heap adjacent_app 4102 4099 4 = Abort.
Proof. split; [eexists|]; vm_compute; reflexivity. Qed.
