(* ===== verification/Format.v ===== *)
(** * e_acsl_format.h: validation of format strings

    A call of a function of the printf family is preceded by the validation of its
    format against the abbreviated types of its arguments.  The format string and
    the description of the arguments are in byte memory; the directives that the
    private heap holds are records, and the array of pointers to them a list of
    options.  Sizes of types are those of a 64-bit system. *)

From Stdlib Require Import String Ascii.
From S2P Require Import Prelude AMem CString Observers LibcString LibcStdlib LibcReplacements Printf.

(** The characters of a literal string. *)
Fixpoint chars (s : string) : list Z :=
  match s with
  | EmptyString => []
  | String c s => Z.of_N (N_of_ascii c) :: chars s
  end.
Definition chr (s : string) : Z := hd 0 (chars s).
Arguments chars s%_string.
Arguments chr s%_string.

(** ** Abbreviated types *)

Inductive abbrev : Type :=
| IChar | IUChar | IShort | IUShort | IInt | IUInt | ILong | IULong | ILongLong | IULongLong
| FFloat | FDouble | FLongDouble
| PChar | PUChar | PShort | PUShort | PInt | PUInt | PLong | PULong | PLongLong | PULongLong | PVoid.
#[export] Instance abbrev_eq_dec : EqDecision abbrev.
Proof. solve_decision. Defined.

(** [abbreviated_types]: the character, the type and its size. *)
Definition abbreviated_types : list (abbrev * string * string * Z) :=
  [(IChar, "c", "char", 1); (IUChar, "C", "unsigned char", 1);
   (IShort, "h", "short", 2); (IUShort, "H", "unsigned short", 2);
   (IInt, "d", "int", 4); (IUInt, "D", "unsigned int", 4);
   (ILong, "l", "long", 8); (IULong, "L", "unsigned long", 8);
   (ILongLong, "r", "long long", 8); (IULongLong, "R", "unsigned long long", 8);
   (FFloat, "f", "float", 4); (FDouble, "e", "double", 8); (FLongDouble, "E", "long double", 16);
   (PChar, "s", "char*", 8); (PUChar, "S", "unsigned char*", 8);
   (PShort, "q", "short*", 8); (PUShort, "Q", "unsigned short*", 8);
   (PInt, "i", "int*", 8); (PUInt, "I", "unsigned int*", 8);
   (PLong, "z", "long*", 8); (PULong, "Z", "unsigned long*", 8);
   (PLongLong, "w", "long long*", 8); (PULongLong, "W", "unsigned long long*", 8);
   (PVoid, "p", "void*", 8)]%string.

(** The value of an enumerator. *)
Definition abbrev_t (a : abbrev) : Z :=
  match list_find (fun e => e.1.1.1 = a) abbreviated_types with
  | Some (_, e) => chr e.1.1.2
  | None => 0
  end.

(** The switch over the characters of the table. *)
Definition abbrev_entry (type : Z) : option (abbrev * string * string * Z) :=
  snd <$> list_find (fun e => chr e.1.1.2 = type) abbreviated_types.
Definition abbr2str (type : Z) : option string := (fun e => e.1.2) <$> abbrev_entry type.
Definition abbr2size (type : Z) : Z := default 0 (snd <$> abbrev_entry type).

Definition size2abbri (size : Z) (sign : bool) : outcome Z :=
  if size <=? 4 then Ret (abbrev_t (if sign then IInt else IUInt))
  else if size =? 8 then Ret (abbrev_t (if sign then ILong else IULong))
  else if size =? 8 then Ret (abbrev_t (if sign then ILongLong else IULongLong))
  else Abort.

Definition size2abbrf (size : Z) : outcome Z :=
  if size =? 4 then Ret (abbrev_t FFloat)
  else if size =? 8 then Ret (abbrev_t FDouble)
  else if size =? 16 then Ret (abbrev_t FLongDouble)
  else Abort.

Definition abbr2ptr (c : Z) : outcome Z :=
  if c =? abbrev_t IInt then Ret (abbrev_t PInt)
  else if c =? abbrev_t IUInt then Ret (abbrev_t PUInt)
  else if c =? abbrev_t ILong then Ret (abbrev_t PLong)
  else if c =? abbrev_t IULong then Ret (abbrev_t PULong)
  else if c =? abbrev_t ILongLong then Ret (abbrev_t PLongLong)
  else if c =? abbrev_t IULongLong then Ret (abbrev_t PULongLong)
  else Abort.

(** ** Character classes *)

Definition length_chars : list Z := chars "hljztL".
Definition flag_chars : list Z := chars "-+ #0'".
Definition specifier_chars : list Z := chars "diouxXfFeEgGaAcspn".
Definition period_chars : list Z := chars ".".

Definition specifier_id : Z := chr "s".
Definition length_id : Z := chr "l".
Definition flag_id : Z := chr "f".
Definition period_id : Z := chr "r".

(** [format_char_map]: 256 characters. *)
Notation char_map := (list Z) (only parsing).
Definition zero_map : char_map := replicate 256 0.

Definition set_class (cs : list Z) (id : Z) (map : char_map) : char_map :=
  foldl (fun map c => <[Z.to_nat c := id]> map) map cs.
Definition set_format_char_map (map : char_map) : char_map :=
  let init_idx := 0%nat in
  let init_char := chr "i" in
  if negb (default 0 (map !! init_idx) =? init_char) then
    let map := zero_map in
    let map := set_class specifier_chars specifier_id map in
    let map := set_class length_chars length_id map in
    let map := set_class flag_chars flag_id map in
    let map := set_class period_chars period_id map in
    <[init_idx := init_char]> map
  else map.

(** [format_char_map[(int)_c] == id]: the index is a signed character. *)
Definition is_class (map : char_map) (id c : Z) : outcome bool :=
  let i := s8 c in
  let* v := if 0 <=? i then deref (map !! Z.to_nat i) else Fault in
  Ret (v =? id).
Definition is_specifier_char (map : char_map) (c : Z) : outcome bool := is_class map specifier_id c.
Definition is_flag_char (map : char_map) (c : Z) : outcome bool := is_class map flag_id c.
Definition is_length_char (map : char_map) (c : Z) : outcome bool := is_class map length_id c.
Definition is_period_char (map : char_map) (c : Z) : outcome bool := is_class map period_id c.

(** ** Directives *)

Record flags : Type := mk_flags {
  fl_specified : bool; fl_minus : bool; fl_plus : bool; fl_space : bool;
  fl_hash : bool; fl_zero : bool; fl_apostroph : bool
}.

Record format_directive : Type := mk_directive {
  fd_format : Z;
  fd_directive : list Z;          (* 16 characters *)
  fd_index : Z;
  fd_expl : bool;
  fd_flags : flags;
  fd_field_width : Z;             (* INT_MIN if not given, -1 if '*' *)
  fd_precision : Z;               (* INT_MIN if not given, -1 if '*' *)
  fd_bytes : Z;
  fd_mod : Z;
  fd_extended : bool;
  fd_specifier : Z
}.

(** [private_calloc(1, sizeof(format_directive))]. *)
Definition no_flags : flags := mk_flags false false false false false false false.
Definition zero_directive : format_directive :=
  mk_directive NULL (replicate 16 0) 0 false no_flags 0 0 0 0 false 0.

Definition set_format (d : format_directive) (v : Z) : format_directive :=
  mk_directive v (fd_directive d) (fd_index d) (fd_expl d) (fd_flags d) (fd_field_width d)
    (fd_precision d) (fd_bytes d) (fd_mod d) (fd_extended d) (fd_specifier d).
Definition set_text (d : format_directive) (v : list Z) : format_directive :=
  mk_directive (fd_format d) v (fd_index d) (fd_expl d) (fd_flags d) (fd_field_width d)
    (fd_precision d) (fd_bytes d) (fd_mod d) (fd_extended d) (fd_specifier d).
Definition set_arg (d : format_directive) (index : Z) (expl : bool) : format_directive :=
  mk_directive (fd_format d) (fd_directive d) index expl (fd_flags d) (fd_field_width d)
    (fd_precision d) (fd_bytes d) (fd_mod d) (fd_extended d) (fd_specifier d).
Definition set_flags (d : format_directive) (v : flags) : format_directive :=
  mk_directive (fd_format d) (fd_directive d) (fd_index d) (fd_expl d) v (fd_field_width d)
    (fd_precision d) (fd_bytes d) (fd_mod d) (fd_extended d) (fd_specifier d).
Definition set_field_width (d : format_directive) (v : Z) : format_directive :=
  mk_directive (fd_format d) (fd_directive d) (fd_index d) (fd_expl d) (fd_flags d) v
    (fd_precision d) (fd_bytes d) (fd_mod d) (fd_extended d) (fd_specifier d).
Definition set_precision (d : format_directive) (v : Z) : format_directive :=
  mk_directive (fd_format d) (fd_directive d) (fd_index d) (fd_expl d) (fd_flags d) (fd_field_width d)
    v (fd_bytes d) (fd_mod d) (fd_extended d) (fd_specifier d).
Definition set_length (d : format_directive) (bytes md : Z) (extended : bool) : format_directive :=
  mk_directive (fd_format d) (fd_directive d) (fd_index d) (fd_expl d) (fd_flags d) (fd_field_width d)
    (fd_precision d) bytes md extended (fd_specifier d).
Definition set_specifier (d : format_directive) (v : Z) : format_directive :=
  mk_directive (fd_format d) (fd_directive d) (fd_index d) (fd_expl d) (fd_flags d) (fd_field_width d)
    (fd_precision d) (fd_bytes d) (fd_mod d) (fd_extended d) v.

(** ** Parsing of a directive *)

(** [while (isdigit( *p)) { n = n * 10 + ( *p - '0'); p++; }]. *)
Fixpoint scan_digits (fuel : nat) (m : mem) (p n : Z) : outcome (Z * Z) :=
  match fuel with
  | O => NoFuel
  | S fuel =>
      let* c := load8 m p in
      if i2b (isdigit c) then
        let* n := int_range (n * 10) in
        let* n := int_range (n + (c - 48)) in
        scan_digits fuel m (p + 1) n
      else Ret (n, p)
  end.

Definition fetch_format_argno (m : mem) (fmt : Z) (dir : format_directive)
  (prev : option format_directive) (ind : Z) : outcome (Z * format_directive) :=
  let* c := load8 m fmt in
  if negb (c =? chr "0") then
    let* (argno, ret) := scan_digits (steps m) m fmt 0 in
    let* c := load8 m ret in
    let (ret, dir) :=
      if c =? chr "$" then (ret + 1, set_arg dir (argno - 1) true)
      else (fmt, set_arg dir ind false) in
    match prev with
    | Some prev =>
        if negb (Bool.eqb (fd_expl prev) (fd_expl dir)) then Abort else Ret (ret, dir)
    | None => Ret (ret, dir)
    end
  else Ret (fmt, dir).

(** [set_format_flag]: the flag that the character [c] sets. *)
Definition set_format_flag (f : flags) (c : Z) : outcome flags :=
  let 'mk_flags specified minus plus space hash zero apostroph := f in
  if c =? chr "#" then
    if hash then Abort else Ret (mk_flags specified minus plus space true zero apostroph)
  else if c =? chr "-" then
    if minus then Abort else Ret (mk_flags specified true plus space hash zero apostroph)
  else if c =? chr "+" then
    if plus then Abort else Ret (mk_flags specified minus true space hash zero apostroph)
  else if c =? chr " " then
    if space then Abort else Ret (mk_flags specified minus plus true hash zero apostroph)
  else if c =? chr "'" then
    if apostroph then Abort else Ret (mk_flags specified minus plus space hash zero true)
  else if c =? chr "0" then
    if zero then Abort else Ret (mk_flags specified minus plus space hash true apostroph)
  else Ret f.

Definition specify (f : flags) : flags :=
  mk_flags true (fl_minus f) (fl_plus f) (fl_space f) (fl_hash f) (fl_zero f) (fl_apostroph f).

Fixpoint flags_loop (fuel : nat) (map : char_map) (m : mem) (fmt : Z) (f : flags) : outcome (Z * flags) :=
  match fuel with
  | O => NoFuel
  | S fuel =>
      let* c := load8 m fmt in
      let* b := is_flag_char map c in
      if b then
        let* f := set_format_flag (specify f) c in
        flags_loop fuel map m (fmt + 1) f
      else Ret (fmt, f)
  end.
Definition fetch_format_flags (map : char_map) (m : mem) (fmt : Z) (dir : format_directive)
  : outcome (Z * format_directive) :=
  let* (fmt, f) := flags_loop (steps m) map m fmt (fd_flags dir) in
  Ret (fmt, set_flags dir f).

Definition fetch_format_field_width (m : mem) (fmt : Z) (dir : format_directive)
  : outcome (Z * format_directive) :=
  let dir := set_field_width dir INT_MIN in
  let* c := load8 m fmt in
  if c =? chr "*" then Ret (fmt + 1, set_field_width dir (-1))
  else if i2b (isdigit c) then
    if c =? chr "0" then Abort
    else
      let* (len, fmt) := scan_digits (steps m) m fmt 0 in
      Ret (fmt, set_field_width dir len)
  else Ret (fmt, dir).

Definition fetch_format_precision (map : char_map) (m : mem) (fmt : Z) (dir : format_directive)
  : outcome (Z * format_directive) :=
  let dir := set_precision dir INT_MIN in
  let* c := load8 m fmt in
  let* b := is_period_char map c in
  if b then
    let fmt := fmt + 1 in
    let* c := load8 m fmt in
    if c =? chr "*" then Ret (fmt + 1, set_precision dir (-1))
    else
      let* (n, fmt) := scan_digits (steps m) m fmt 0 in
      Ret (fmt, set_precision dir n)
  else Ret (fmt, dir).

(** The switch of [fetch_format_length]: the bytes, whether the modifier is repeated,
    and the position of its last character. *)
Definition length_modifier (m : mem) (fmt : Z) : outcome (Z * bool * Z) :=
  let* c := load8 m fmt in
  if c =? chr "h" then
    let* d := load8 m (fmt + 1) in
    Ret (if d =? chr "h" then (1, true, fmt + 1) else (2, false, fmt))
  else if c =? chr "l" then
    let* d := load8 m (fmt + 1) in
    Ret (if d =? chr "l" then (8, true, fmt + 1) else (8, false, fmt))
  else if (c =? chr "j") || (c =? chr "z") || (c =? chr "t") then Ret (8, false, fmt)
  else if c =? chr "L" then Ret (16, false, fmt)
  else Ret (0, false, fmt).

Definition fetch_format_length (map : char_map) (m : mem) (fmt : Z) (dir : format_directive)
  : outcome (Z * format_directive) :=
  let* (bytes, extended, fmt) := length_modifier m fmt in
  let dir := set_length dir bytes 0 extended in
  let* b := if fd_mod dir =? 0 then Ret true else is_length_char map (fd_mod dir) in
  let* _ := vassert b in
  let* (fmt, dir) :=
    if negb (fd_bytes dir =? 0) then
      let* c := load8 m fmt in Ret (fmt + 1, set_length dir bytes c extended)
    else Ret (fmt, dir) in
  let* c := load8 m fmt in
  let dir := set_specifier dir c in
  if negb (fd_specifier dir =? 0) then
    let* b := is_specifier_char map (fd_specifier dir) in
    if negb b then if fd_specifier dir =? chr "%" then Abort else Abort
    else Ret (fmt + 1, dir)
  else Ret (fmt + 1, dir).

(** ** Parsing of the format *)

(** The characters that [strncpy(dst, p, n)] stores. *)
Fixpoint strncpy_chars (n : nat) (m : mem) (p : Z) : outcome (list Z) :=
  match n with
  | O => Ret []
  | S k =>
      let* c := load8 m p in
      if c =? 0 then Ret (replicate n 0)
      else let* l := strncpy_chars k m (p + 1) in Ret (c :: l)
  end.

(** The text of the directive between [fmt_start] and [fmt], for the messages. *)
Definition directive_text (m : mem) (fmt_start fmt : Z) (text : list Z) : outcome (list Z) :=
  let fmt_len := fmt - fmt_start in
  let max_len := 15 in
  let len := s32 (if fmt_len <? max_len then fmt_len else max_len) in
  let* l := strncpy_chars (Z.to_nat len) m fmt_start in
  let text := l ++ drop (length l) text in
  if (0 <=? len + 1) && (len + 1 <? Z.of_nat (length text)) then
    Ret (<[Z.to_nat (len + 1) := 0]> text)
  else Fault.

(** A directive whose percent sign is at [fmt - 1]. *)
Definition fetch_directive (map : char_map) (m : mem) (format_string fmt : Z)
  (prev : option format_directive) (i : Z) : outcome (Z * format_directive) :=
  let dir := set_format zero_directive format_string in
  let fmt_start := fmt - 1 in
  let* (fmt, dir) := fetch_format_argno m fmt dir prev i in
  let* (fmt, dir) := fetch_format_flags map m fmt dir in
  let* (fmt, dir) := fetch_format_field_width m fmt dir in
  let* (fmt, dir) := fetch_format_precision map m fmt dir in
  let* (fmt, dir) := fetch_format_length map m fmt dir in
  let* text := directive_text m fmt_start fmt (fd_directive dir) in
  Ret (fmt, set_text dir text).

Definition store_directive (dirs : list (option format_directive)) (i : Z) (dir : format_directive)
  : outcome (list (option format_directive)) :=
  if (0 <=? i) && (i <? Z.of_nat (length dirs)) then Ret (<[Z.to_nat i := Some dir]> dirs) else Fault.

(** Whether the private allocator has room for the array of a number of pointers, and for
    the [i]-th directive.  The code stores into both without a test. *)
Class DirectiveRoom : Type := {
  array_room : Z -> bool;
  directive_room : Z -> bool
}.
Class DirectiveRoomOk `{DR : !DirectiveRoom} : Prop := {
  array_room_ok : forall n, array_room n = true;
  directive_room_ok : forall i, directive_room i = true
}.
Definition stores (room : bool) : outcome unit := if room then Ret tt else Fault.

Fixpoint directives_loop `{DR : !DirectiveRoom} (fuel : nat) (map : char_map) (m : mem) (format_string fmt i : Z)
  (prev : option format_directive) (dirs : list (option format_directive))
  : outcome (list (option format_directive)) :=
  match fuel with
  | O => NoFuel
  | S fuel =>
      let* ch := load8 m fmt in
      let fmt := fmt + 1 in
      if negb (ch =? 0) then
        if ch =? chr "%" then
          let* c := load8 m fmt in
          if c =? chr "%" then directives_loop fuel map m format_string (fmt + 1) i prev dirs
          else
            let* _ := stores (directive_room i) in
            let* (fmt, dir) := fetch_directive map m format_string fmt prev i in
            let* dirs := store_directive dirs i dir in
            directives_loop fuel map m format_string fmt (i + 1) (Some dir) dirs
        else directives_loop fuel map m format_string fmt i prev dirs
      else Ret dirs
  end.

(** The array of directives, and the character map, which the function fills. *)
Definition get_format_directives `{DR : !DirectiveRoom} (map : char_map) (m : mem) (fmt : Z)
  : outcome (list (option format_directive) * char_map) :=
  let* n := charcount (steps m) m fmt (chr "%") in
  let* sz := int_range (n + 1) in
  let* _ := stores (array_room sz) in
  let map := set_format_char_map map in
  let* dirs := directives_loop (steps m) map m fmt fmt 0 None (replicate (Z.to_nat sz) None) in
  Ret (dirs, map).

(** [release_directives] counts the percent signs again, and frees that many entries of
    the array and the array.  The entries that are left, which it leaks. *)
Definition release_directives (m : mem) (fmt : Z) (dirs : list (option format_directive))
  : outcome (list (option format_directive)) :=
  let* n := charcount (steps m) m fmt (chr "%") in
  let* formats := int_range (n + 1) in
  if Z.of_nat (length dirs) <? formats then Fault else Ret (drop (Z.to_nat formats) dirs).

(** ** Well-formedness of a directive *)

(** [strchr(allowed, dir->specifier)]: the terminator of [allowed] is found too. *)
Definition validate_application (dir : format_directive) (allowed : list Z) : outcome unit :=
  vassert (bool_decide (fd_specifier dir ∈ allowed ++ [0])).

Definition validate_when (b : bool) (dir : format_directive) (allowed : list Z) : outcome unit :=
  if b then validate_application dir allowed else Ret tt.

Definition validate_length_modifier (map : char_map) (dir : format_directive) : outcome unit :=
  if negb (fd_mod dir =? 0) then
    let* b := is_length_char map (fd_mod dir) in
    let* _ := vassert b in
    if (fd_mod dir =? chr "l") && negb (fd_extended dir) then
      validate_application dir (chars "diouxXncsfFeEgGaA")
    else if bool_decide (fd_mod dir ∈ chars "lhjzt") then
      validate_application dir (chars "diouxXn")
    else if fd_mod dir =? chr "L" then
      validate_application dir (chars "aAeEfFgG")
    else Abort
  else Ret tt.

Definition validate_applications (map : char_map) (dir : format_directive) : outcome unit :=
  let f := fd_flags dir in
  let* _ := validate_when (fl_apostroph f) dir (chars "idufFgG") in
  let* _ := validate_when (fl_hash f) dir (chars "oxXaAeEfFgG") in
  let* _ := validate_when (fl_zero f) dir (chars "diouxXaAeEfFgG") in
  let* _ := vassert (negb (fl_specified f && (fd_specifier dir =? chr "n"))) in
  let* _ := validate_when (negb (fd_precision dir =? INT_MIN)) dir (chars "diouxXaAeEfFgGs") in
  let* _ := vassert (negb ((fd_specifier dir =? chr "n") && negb (fd_field_width dir =? INT_MIN))) in
  validate_length_modifier map dir.

(** ** Types of the arguments *)

Definition infer_integral_abbr (dir : format_directive) (sgn : bool) : outcome Z :=
  let md := fd_mod dir in
  if md =? chr "l" then
    Ret (abbrev_t (if fd_extended dir then if sgn then ILongLong else IULongLong
                   else if sgn then ILong else IULong))
  else if md =? chr "h" then Ret (abbrev_t IInt)
  else if md =? chr "j" then size2abbri 8 sgn
  else if md =? chr "z" then size2abbri 8 sgn
  else if md =? chr "t" then size2abbri 8 sgn
  else if md =? 0 then Ret (abbrev_t (if sgn then IInt else IUInt))
  else Abort.

Definition infer_n_abbr (dir : format_directive) : outcome Z :=
  let md := fd_mod dir in
  if md =? chr "h" then Ret (abbrev_t (if fd_extended dir then PChar else PShort))
  else if md =? chr "l" then Ret (abbrev_t (if fd_extended dir then PLongLong else PLong))
  else if md =? chr "j" then let* c := size2abbri 8 true in abbr2ptr c
  else if md =? chr "z" then let* c := size2abbri 8 false in abbr2ptr c
  else if md =? chr "t" then let* c := size2abbri 8 true in abbr2ptr c
  else if md =? 0 then Ret (abbrev_t PInt)
  else Abort.

Definition validate_format_type (m : mem) (expected_t fmtdesc : Z) (dir : format_directive) : outcome unit :=
  let* c := load8 m (fmtdesc + fd_index dir) in
  if negb (s8 c =? expected_t) then Abort else Ret tt.

(** [UNSIGNED(n)]. *)
Definition UNSIGNED (n compl : Z) : bool := (0 <=? n) && (0 <=? compl).

(** [wint_t] is [unsigned int] and [wchar_t] is [int]. *)
Definition wint_sign : bool := UNSIGNED 1 (u32 (- 1 - 1)).
Definition wchar_sign : bool := UNSIGNED 1 (s32 (- 1 - 1)).

(** [va_arg(ap, void * )]: a slot of 64 bits; a [double] is not in such a slot. *)
Definition va_pointer (v : va_val) : outcome Z :=
  match v with V32 v => Ret (u32 v) | V64 v => Ret (u64 v) | VDouble _ => Fault end.

Fixpoint va_args (n : nat) (va : list va_val) : outcome (list Z) :=
  match n, va with
  | O, _ => Ret []
  | S n, v :: va => let* a := va_pointer v in let* args := va_args n va in Ret (a :: args)
  | S _, [] => Fault
  end.

(** ** Validation *)

Section Validate.
Context {S : Type} `{OB : !Observers S} `{DR : !DirectiveRoom} (s : S).

Definition validate_format_string_argument (m : mem) (p : Z) (dir : format_directive) (wide : bool)
  : outcome Z :=
  let limit := if 0 <=? fd_precision dir then fd_precision dir else -1 in
  let* size := if wide then valid_nwstring s m p limit 0 else valid_nstring s m p limit 0 in
  if (size =? -1) || (size =? -2) || (size =? -3) || (size =? -4) then Abort else Ret size.

Definition validate_overlapping_buffer (buffer buf_sz arg arg_sz : Z) : outcome unit :=
  if i2b buffer then
    if negb (disjoint_spaces buffer buf_sz arg arg_sz) then Abort else Ret tt
  else Ret tt.

(** The body of the loop of [validate_format]: a directive and the argument at [addr]. *)
Definition validate_argument (m : mem) (fmtdesc : Z) (dir : format_directive) (addr buffer buf_size : Z)
  : outcome unit :=
  let c := fd_specifier dir in
  let validate_type t := validate_format_type m t fmtdesc dir in
  if bool_decide (c ∈ chars "di") then
    let* t := infer_integral_abbr dir true in validate_type t
  else if bool_decide (c ∈ chars "ouxX") then
    let* t := infer_integral_abbr dir false in validate_type t
  else if bool_decide (c ∈ chars "fFeEgGaA") then
    validate_type (abbrev_t (if fd_mod dir =? chr "L" then FLongDouble else FDouble))
  else if c =? chr "c" then
    let* t := if fd_mod dir =? chr "l" then size2abbri 4 (negb wint_sign) else Ret (abbrev_t IInt) in
    validate_type t
  else if c =? chr "s" then
    let wide := fd_mod dir =? chr "l" in
    let* t := if wide then let* t := size2abbri 4 (negb wchar_sign) in abbr2ptr t
              else Ret (abbrev_t PChar) in
    let* _ := validate_type t in
    let* asz := validate_format_string_argument m addr dir wide in
    validate_overlapping_buffer buffer buf_size addr (u64 (s32 asz))
  else if c =? chr "p" then
    let* _ := validate_type (abbrev_t PVoid) in
    let* a := ob_allocated s addr 1 addr in
    if negb (i2b a) then Abort else validate_overlapping_buffer buffer buf_size addr 1
  else if c =? chr "n" then
    let* t := infer_n_abbr dir in
    let* _ := validate_type t in
    let size := if fd_bytes dir =? 0 then 4 else fd_bytes dir in
    let* w := ob_writeable s addr size addr in
    if negb (i2b w) then Abort else validate_overlapping_buffer buffer buf_size addr size
  else Abort.

(** [while ( *dirs)]. *)
Fixpoint validate_directives (map : char_map) (m : mem) (fmtdesc : Z) (args : list Z) (buffer buf_size : Z)
  (dirs : list (option format_directive)) : outcome unit :=
  match dirs with
  | [] => Fault
  | None :: _ => Ret tt
  | Some dir :: dirs =>
      let* _ := validate_applications map dir in
      let argno := fd_index dir in
      if Z.of_nat (length args) <=? argno then Abort
      else
        let* addr := if 0 <=? argno then deref (args !! Z.to_nat argno) else Fault in
        let* _ := validate_argument m fmtdesc dir addr buffer buf_size in
        validate_directives map m fmtdesc args buffer buf_size dirs
  end.

(** Returns the character map. *)
Definition validate_format (map : char_map) (m : mem) (fmtdesc fmt : Z) (va : list va_val)
  (buffer buf_size : Z) : outcome char_map :=
  let* v := valid_string s m fmt 0 in
  if v <? 0 then Abort
  else
    let* (dirs, map) := get_format_directives map m fmt in
    let* arglen := strlen m fmtdesc in
    let* args := va_args (Z.to_nat (s32 arglen)) va in
    let* _ := validate_directives map m fmtdesc args buffer buf_size dirs in
    let* _ := release_directives m fmt dirs in
    Ret map.

(** ** The functions of the printf family

    The functions of the C library that they end with, and those of the system that
    tell whether a file is open, are parameters. *)

Context (R : Type)
  (vprintf : mem -> Z -> list va_val -> outcome R)
  (vfprintf vdprintf vsprintf vsyslog : mem -> Z -> Z -> list va_val -> outcome R)
  (vsnprintf : mem -> Z -> Z -> Z -> list va_val -> outcome R).
Context (vsnprintf_length : mem -> Z -> list va_val -> outcome Z) (fileno fcntl_getfd : Z -> Z).

Definition builtin_printf (map : char_map) (m : mem) (fmtdesc fmt : Z) (va : list va_val) : outcome (R * char_map) :=
  let* map := validate_format map m fmtdesc fmt va NULL 0 in
  let* r := vprintf m fmt va in Ret (r, map).

Definition builtin_fprintf (map : char_map) (m : mem) (fmtdesc stream fmt : Z) (va : list va_val)
  : outcome (R * char_map) :=
  let* a := ob_allocated s stream 1 stream in
  if negb (i2b a) then Abort
  else
    let fd := fileno stream in
    if fd =? -1 then Abort
    else if fcntl_getfd fd =? -1 then Abort
    else
      let* map := validate_format map m fmtdesc fmt va NULL 0 in
      let* r := vfprintf m stream fmt va in Ret (r, map).

Definition builtin_dprintf (map : char_map) (m : mem) (fmtdesc fd fmt : Z) (va : list va_val)
  : outcome (R * char_map) :=
  if fcntl_getfd fd =? -1 then Abort
  else
    let* map := validate_format map m fmtdesc fmt va NULL 0 in
    let* r := vdprintf m fd fmt va in Ret (r, map).

(** [vsnprintf(NULL, 0, fmt, ap)] runs on the format before it is validated; [len + 1]
    is an [int], converted to [size_t]. *)
Definition builtin_sprintf (map : char_map) (m : mem) (fmtdesc buffer fmt : Z) (va : list va_val)
  : outcome (R * char_map) :=
  let* len := vsnprintf_length m fmt va in
  let* n := int_range (len + 1) in
  let* w := ob_writeable s buffer (u64 n) buffer in
  if negb (i2b w) then Abort
  else
    let* map := validate_format map m fmtdesc fmt va buffer (u64 n) in
    let* r := vsprintf m buffer fmt va in Ret (r, map).

Definition builtin_snprintf (map : char_map) (m : mem) (fmtdesc buffer size fmt : Z) (va : list va_val)
  : outcome (R * char_map) :=
  let* map := validate_format map m fmtdesc fmt va buffer size in
  let* w := if 0 <? size then ob_writeable s buffer size buffer else Ret 1 in
  if (0 <? size) && negb (i2b w) then Abort
  else let* r := vsnprintf m buffer size fmt va in Ret (r, map).

Definition builtin_syslog (map : char_map) (m : mem) (fmtdesc priority fmt : Z) (va : list va_val)
  : outcome (R * char_map) :=
  let* map := validate_format map m fmtdesc fmt va NULL 0 in
  let* r := vsyslog m priority fmt va in Ret (r, map).
End Validate.
