(* ===== verification/FormatSpec.v ===== *)
(** * The syntax of format strings

    Formats as lists of characters and directives, the text of a directive, and the
    directive that the parser of e_acsl_format.h makes of it. *)

From Stdlib Require Import String.
From S2P Require Import Prelude AMem CString Observers LibcString LibcStringSpec LibcStdlib LibcStdlibTheorems Digits LibcReplacements Printf Format.

(** ** Syntax *)

Inductive amount : Type := Absent | Star | Num (ds : list Z).
Inductive length_modifier_syntax : Type := LNone | Lhh | Lh | Ll | Lll | Lj | Lz | Lt | LL.

(** A directive: the digits of the argument number, the flags, the field width, the
    precision, the length modifier and the conversion specifier. *)
Record dspec : Type := mk_dspec {
  ds_arg : option (list Z);
  ds_flags : list Z;
  ds_width : amount;
  ds_prec : amount;
  ds_len : length_modifier_syntax;
  ds_spec : Z
}.

Definition arg_text (a : option (list Z)) : list Z :=
  match a with Some ds => dec_chars ds ++ chars "$" | None => [] end.
Definition width_text (a : amount) : list Z :=
  match a with Absent => [] | Star => chars "*" | Num ds => dec_chars ds end.
Definition prec_text (a : amount) : list Z :=
  match a with Absent => [] | Star => chars ".*" | Num ds => chars "." ++ dec_chars ds end.
Definition len_text (l : length_modifier_syntax) : list Z :=
  match l with
  | LNone => [] | Lhh => chars "hh" | Lh => chars "h" | Ll => chars "l" | Lll => chars "ll"
  | Lj => chars "j" | Lz => chars "z" | Lt => chars "t" | LL => chars "L"
  end.
(** The text after the percent sign. *)
Definition spec_text (d : dspec) : list Z :=
  arg_text (ds_arg d) ++ ds_flags d ++ width_text (ds_width d) ++ prec_text (ds_prec d) ++
  len_text (ds_len d) ++ [ds_spec d].

Definition is_digit (d : Z) : Prop := 0 <= d < 10.
(** A positive number without leading zeros, in the range of [int]. *)
Definition positive_number (ds : list Z) : Prop :=
  Forall is_digit ds /\ 0 < hd 0 ds /\ num_val 10 0 ds < 2 ^ 31.

Record wf_dspec (d : dspec) : Prop := {
  wd_arg : forall ds, ds_arg d = Some ds -> positive_number ds;
  wd_flags : NoDup (ds_flags d) /\ Forall (fun c => c ∈ flag_chars) (ds_flags d);
  wd_width : forall ds, ds_width d = Num ds -> positive_number ds;
  wd_prec : forall ds, ds_prec d = Num ds -> Forall is_digit ds /\ num_val 10 0 ds < 2 ^ 31;
  wd_spec : ds_spec d ∈ specifier_chars;
  wd_short : (length (spec_text d) <= 13)%nat
}.

(** ** What the parser makes of a directive *)

Definition flags_set (fs : list Z) : flags :=
  mk_flags (bool_decide (fs <> [])) (bool_decide (chr "-" ∈ fs)) (bool_decide (chr "+" ∈ fs))
    (bool_decide (chr " " ∈ fs)) (bool_decide (chr "#" ∈ fs)) (bool_decide (chr "0" ∈ fs))
    (bool_decide (chr "'" ∈ fs)).
Definition amount_value (a : amount) : Z :=
  match a with Absent => INT_MIN | Star => -1 | Num ds => num_val 10 0 ds end.
Definition len_bytes (l : length_modifier_syntax) : Z :=
  match l with LNone => 0 | Lhh => 1 | Lh => 2 | Ll | Lll | Lj | Lz | Lt => 8 | LL => 16 end.
Definition len_mod (l : length_modifier_syntax) : Z := hd 0 (len_text l).
Definition len_extended (l : length_modifier_syntax) : bool :=
  match l with Lhh | Lll => true | _ => false end.

(** Whether the directive names its argument by a number. *)
Definition numbered (d : dspec) : bool := match ds_arg d with Some _ => true | None => false end.

(** A directive, for the argument with the index [index]. *)
Definition description (format index : Z) (d : dspec) : format_directive :=
  let text := chr "%" :: spec_text d in
  mk_directive format (text ++ replicate (16 - length text) 0) index (numbered d)
    (flags_set (ds_flags d)) (amount_value (ds_width d)) (amount_value (ds_prec d))
    (len_bytes (ds_len d)) (len_mod (ds_len d)) (len_extended (ds_len d)) (ds_spec d).

(** The argument of the [i]-th directive: the one of its number, which counts from 1, or
    else the [i]-th. *)
Definition argument_index (i : Z) (d : dspec) : Z :=
  match ds_arg d with Some ds => num_val 10 0 ds - 1 | None => i end.

(** *** The code

    A directive without a number that starts with the flag [0]: the parser takes the zero
    for the end of the argument number, and leaves before it sets the index and before
    it compares the directive with the previous one. *)
Definition starts_with_zero (d : dspec) : bool :=
  match ds_arg d with None => bool_decide (head (ds_flags d) = Some (chr "0")) | Some _ => false end.
Definition parsed_index (d : dspec) (i : Z) : Z := if starts_with_zero d then 0 else argument_index i d.
Definition parsed (format i : Z) (d : dspec) : format_directive := description format (parsed_index d i) d.

(** The parser refuses [d] after [prev]. *)
Definition kind_changes (prev : option format_directive) (d : dspec) : bool :=
  match prev with
  | Some p => negb (starts_with_zero d) && negb (Bool.eqb (fd_expl p) (numbered d))
  | None => false
  end.

(** ** The character map *)

Definition full_map : char_map := Eval vm_compute in set_format_char_map zero_map.

(** The map before and after its initialization. *)
Definition map_ok (map : char_map) : Prop := map = zero_map \/ map = full_map.

Lemma set_map_ok map : map_ok map -> set_format_char_map map = full_map.
Proof. intros [-> | ->]; vm_compute; reflexivity. Qed.

Definition ascii7 (c : Z) : Prop := 0 <= c < 128.

Lemma ascii7_check (f : Z -> bool) : forallb f (seqZ 0 128) = true -> forall c, ascii7 c -> f c = true.
Proof. intros H c Hc. rewrite forallb_forall in H. apply H, list_elem_of_In, elem_of_seqZ. unfold ascii7 in Hc. lia. Qed.

Definition answers (o : outcome bool) (b : bool) : bool :=
  match o with Ret b' => Bool.eqb b' b | _ => false end.
Lemma answers_ret o b : answers o b = true -> o = Ret b.
Proof. destruct o as [b'| | |]; try done. by intros ->%Bool.eqb_prop. Qed.

(** The classes of the ASCII characters. *)
Lemma flag_char_spec c : ascii7 c -> is_flag_char full_map c = Ret (bool_decide (c ∈ flag_chars)).
Proof.
  intros Hc. apply answers_ret. revert c Hc. apply (ascii7_check (fun c => answers _ _)). by vm_compute.
Qed.
Lemma period_char_spec c : ascii7 c -> is_period_char full_map c = Ret (c =? chr ".").
Proof.
  intros Hc. apply answers_ret. revert c Hc. apply (ascii7_check (fun c => answers _ _)). by vm_compute.
Qed.
Lemma specifier_char_spec c : ascii7 c ->
  is_specifier_char full_map c = Ret (bool_decide (c ∈ specifier_chars)).
Proof.
  intros Hc. apply answers_ret. revert c Hc. apply (ascii7_check (fun c => answers _ _)). by vm_compute.
Qed.
Lemma length_char_spec c : ascii7 c ->
  is_length_char full_map c = Ret (bool_decide (c ∈ length_chars)).
Proof.
  intros Hc. apply answers_ret. revert c Hc. apply (ascii7_check (fun c => answers _ _)). by vm_compute.
Qed.

(** ** Characters of the text *)

(** A character that ends a number: not a digit and not the dollar sign. *)
Definition ends_number (c : Z) : Prop := ascii7 c /\ i2b (isdigit c) = false /\ c <> chr "$".
#[export] Instance ends_number_dec c : Decision (ends_number c).
Proof. unfold ends_number, ascii7. apply _. Defined.

Lemma in_list_check (l : list Z) (P : Z -> Prop) `{HP : !forall c, Decision (P c)} :
  forallb (fun c => bool_decide (P c)) l = true -> forall c, c ∈ l -> P c.
Proof. intros H c Hc%list_elem_of_In. rewrite forallb_forall in H. by apply (bool_decide_eq_true_1 (P c)), H. Qed.

Lemma specifier_ends c : c ∈ specifier_chars -> ends_number c.
Proof. apply (in_list_check specifier_chars ends_number). by vm_compute. Qed.
Lemma flag_ends c : c ∈ flag_chars -> c <> chr "0" -> ends_number c.
Proof.
  intros H. apply (in_list_check flag_chars (fun c => c <> chr "0" -> ends_number c)); [|done].
  by vm_compute.
Qed.

(** What follows the precision is neither a flag nor a part of a number. *)
Definition is_tail (x : Z) : Prop :=
  ends_number x /\ x ∉ flag_chars /\ x <> chr "." /\ x <> chr "*" /\ x <> chr "0".
#[export] Instance is_tail_dec x : Decision (is_tail x).
Proof. unfold is_tail. apply _. Defined.

Lemma tail_char x : x ∈ length_chars \/ x ∈ specifier_chars -> is_tail x.
Proof.
  intros [Hx|Hx]; revert x Hx;
    [apply (in_list_check length_chars is_tail)|apply (in_list_check specifier_chars is_tail)];
    by vm_compute.
Qed.

(** The first character of the length modifier and the specifier. *)
Lemma tail_head l c : c ∈ specifier_chars -> exists x t, len_text l ++ [c] = x :: t /\ is_tail x.
Proof.
  intros Hc. destruct l; do 2 eexists; (split; [reflexivity|]); apply tail_char;
    first [by right | left; apply (bool_decide_unpack _); by vm_compute].
Qed.
