(* ===== verification/FormatParse.v ===== *)
(** * The parser of format strings

    The functions of e_acsl_format.h that parse a directive make of its text the
    directive of FormatSpec.v, and the loop over the format makes the array of them. *)

From Stdlib Require Import String.
From S2P Require Import Prelude AMem CString Observers LibcString LibcStringSpec LibcStdlib LibcStdlibTheorems Digits LibcReplacements Printf Format FormatSpec.

(** ** Numbers *)

Lemma bytes_steps m p l : bytes m p l -> (length l < steps m)%nat.
Proof. intros H%bytes_accessible%accessible_size. unfold steps. lia. Qed.

Lemma bytes_head m p c t : bytes m p (c :: t) -> load8 m p = Ret c.
Proof. intros [E _]%bytes_cons. by apply load8_ok. Qed.

Lemma scan_digits_spec fuel m p acc ds c t : 0 <= acc -> Forall is_digit ds ->
  bytes m p (dec_chars ds ++ c :: t) -> i2b (isdigit c) = false -> (length ds < fuel)%nat ->
  num_val 10 acc ds < 2 ^ 31 ->
  scan_digits fuel m p acc = Ret (num_val 10 acc ds, p + Z.of_nat (length ds)).
Proof.
  revert p acc ds. induction fuel as [|fuel IH]; intros p acc [|d ds] Ha Hds Hb Hc Hf Hv; try (simpl in Hf; lia);
    cbn [scan_digits dec_chars map app] in *; rewrite (bytes_head _ _ _ _ Hb); cbn [obind].
  - rewrite Hc. cbn. do 2 f_equal. lia.
  - apply Forall_cons in Hds as [Hd Hds]. unfold is_digit in Hd. rewrite isdigit_dec by done.
    cbn [num_val length] in *. pose proof (num_val_le 10 (acc * 10 + d) ds ltac:(lia) ltac:(lia) Hds).
    rewrite int_range_ok by lia. cbn [obind]. replace (48 + d - 48) with d by lia.
    rewrite int_range_ok by lia. cbn [obind]. apply bytes_cons in Hb as [_ Hb].
    rewrite (IH (p + 1) (acc * 10 + d) ds) by (done || lia). do 2 f_equal. lia.
Qed.

(** ** The argument number *)

Lemma prec_tail_head a l c : c ∈ specifier_chars -> exists x t, prec_text a ++ len_text l ++ [c] = x :: t /\
  ends_number x /\ x ∉ flag_chars /\ x <> chr "*" /\ x <> chr "0".
Proof.
  intros Hc. destruct (tail_head l c Hc) as (x & t & E & H1 & H2 & _ & H3 & H4).
  destruct a; cbn [prec_text app chars]; rewrite ?E; do 2 eexists; (split; [reflexivity|]);
    [done|..]; (split; [by apply (bool_decide_unpack _)|]); (split; [|done]);
    by apply (bool_decide_unpack _).
Qed.

(** Without an argument number, the text starts with a number that is not followed
    by a dollar sign. *)
Lemma number_prefix d t : wf_dspec d -> ds_arg d = None -> starts_with_zero d = false ->
  exists ds c u, spec_text d ++ t = dec_chars ds ++ c :: u /\ Forall is_digit ds /\
    num_val 10 0 ds < 2 ^ 31 /\ ends_number c /\ hd 0 (spec_text d ++ t) <> chr "0".
Proof.
  intros Hw Ea Hz. unfold starts_with_zero in Hz. rewrite Ea in Hz. apply bool_decide_eq_false in Hz.
  unfold spec_text. rewrite Ea. cbn [arg_text app].
  destruct (prec_tail_head (ds_prec d) (ds_len d) _ (wd_spec _ Hw)) as (x & t' & E & Hx & _ & _ & H0).
  destruct (ds_flags d) as [|f fs] eqn:Ef; cbn [app].
  - rewrite E. destruct (ds_width d) as [| |ds] eqn:Ew; cbn [width_text app chars].
    + exists [], x, (t' ++ t). by do 4 (split; [done|]).
    + exists [], (chr "*"), (x :: t' ++ t). do 3 (split; [done|]). split; [|done]. by apply (bool_decide_unpack _).
    + destruct (wd_width _ Hw ds Ew) as (H1 & H2 & H3).
      exists ds, x, (t' ++ t). rewrite <- app_assoc. do 4 (split; [done|]).
      destruct ds; cbn in *; lia.
  - destruct (wd_flags _ Hw) as [_ Hf]. rewrite Ef in Hf. apply Forall_cons in Hf as [Hf _].
    assert (f <> chr "0") as Hne by (intros ->; by apply Hz).
    exists [], f. eexists. split; [reflexivity|].
    do 2 (split; [done|]). split; [by apply flag_ends|done].
Qed.

Lemma argno_spec m p d t format prev i : wf_dspec d -> bytes m p (spec_text d ++ t) ->
  fetch_format_argno m p (set_format zero_directive format) prev i =
    if kind_changes prev d then Abort
    else Ret (p + Z.of_nat (length (arg_text (ds_arg d))),
              set_arg (set_format zero_directive format) (parsed_index d i) (numbered d)).
Proof.
  intros Hw Hb. pose proof (bytes_steps _ _ _ Hb) as Hf. unfold fetch_format_argno, kind_changes, parsed_index, argument_index, numbered.
  destruct (ds_arg d) as [ds|] eqn:Ea.
  - destruct (wd_arg _ Hw ds Ea) as (H1 & H2 & H3). unfold starts_with_zero. rewrite Ea.
    assert (exists u, spec_text d ++ t = dec_chars ds ++ chr "$" :: u) as [u E].
    { unfold spec_text. rewrite Ea. cbn [arg_text]. rewrite <- !app_assoc. by eexists. }
    rewrite E in Hb, Hf. assert (length ds < steps m)%nat.
    { rewrite length_app in Hf. unfold dec_chars in Hf. rewrite length_map in Hf. lia. }
    destruct (bytes_accessible _ _ _ Hb p) as [c Ec]; [rewrite length_app; simpl; lia|].
    rewrite (load8_ok _ _ _ Ec). cbn [obind].
    rewrite (scan_digits_spec _ m p 0 ds (chr "$") u) by done. cbn [obind].
    assert (c =? chr "0" = false) as ->.
    { destruct ds as [|d0 ds]; cbn in H2; [lia|]. cbn [dec_chars map app] in Hb.
      apply bytes_cons in Hb as [E' _]. rewrite Ec in E'. injection E' as ->. apply Z.eqb_neq. cbn. lia. }
    cbn [negb]. apply bytes_app in Hb as [_ Hb]. unfold dec_chars in Hb. rewrite length_map in Hb.
    rewrite (bytes_head _ _ _ _ Hb). cbn [obind]. rewrite Z.eqb_refl.
    cbn [arg_text]. rewrite length_app. unfold dec_chars. rewrite length_map. cbn [length chars].
    replace (p + Z.of_nat (length ds + 1)) with (p + Z.of_nat (length ds) + 1) by lia.
    by destruct prev.
  - cbn [arg_text length]. rewrite Z.add_0_r. destruct (starts_with_zero d) eqn:Ez.
    + unfold starts_with_zero in Ez. rewrite Ea in Ez. apply bool_decide_eq_true in Ez.
      unfold spec_text in Hb. rewrite Ea in Hb. destruct (ds_flags d) as [|f fs]; [done|].
      injection Ez as ->. rewrite (bytes_head _ _ _ _ Hb). cbn. by destruct prev.
    + destruct (number_prefix d t Hw Ea Ez) as (ds & c & u & E & H1 & H2 & (H3 & H4 & H5) & H0).
      destruct (spec_text d ++ t) as [|x l] eqn:El; [by destruct ds|]. cbn in H0.
      rewrite (bytes_head _ _ _ _ Hb). cbn [obind]. rewrite (proj2 (Z.eqb_neq x (chr "0"))) by done. cbn [negb].
      rewrite E in Hb, Hf. assert (length ds < steps m)%nat.
      { rewrite length_app in Hf. unfold dec_chars in Hf. rewrite length_map in Hf. lia. }
      rewrite (scan_digits_spec _ m p 0 ds c u) by done. cbn [obind].
      apply bytes_app in Hb as [_ Hb]. unfold dec_chars in Hb. rewrite length_map in Hb.
      rewrite (bytes_head _ _ _ _ Hb). cbn [obind]. rewrite (proj2 (Z.eqb_neq c (chr "$"))) by done.
      by destruct prev.
Qed.

(** ** Flags *)

Lemma set_flag_spec pre c : c ∈ flag_chars -> c ∉ pre ->
  set_format_flag (specify (flags_set pre)) c = Ret (flags_set (pre ++ [c])).
Proof.
  intros Hc Hn.
  assert (forall k, k <> c -> bool_decide (k ∈ pre ++ [c]) = bool_decide (k ∈ pre)) as Hk.
  { intros k Hk. apply bool_decide_ext. set_solver. }
  assert (bool_decide (c ∈ pre ++ [c]) = true) as Hin by (apply bool_decide_eq_true; set_solver).
  assert (bool_decide (c ∈ pre) = false) as Hout by by apply bool_decide_eq_false.
  assert (bool_decide (pre ++ [c] <> []) = true) as Hs by (apply bool_decide_eq_true; by destruct pre).
  unfold flags_set. rewrite Hs.
  assert (c = chr "-" \/ c = chr "+" \/ c = chr " " \/ c = chr "#" \/ c = chr "0" \/ c = chr "'") as Hcase
    by (unfold flag_chars in Hc; cbn in Hc |- *; set_solver).
  destruct Hcase as [-> |[-> |[-> |[-> |[-> | ->]]]]]; rewrite Hin, !Hk by done;
    unfold specify; cbn [fl_minus fl_plus fl_space fl_hash fl_zero fl_apostroph]; rewrite Hout; reflexivity.
Qed.

Lemma flags_loop_spec fuel m p pre fs c t : Forall (fun c => c ∈ flag_chars) fs -> NoDup (pre ++ fs) ->
  bytes m p (fs ++ c :: t) -> ascii7 c -> c ∉ flag_chars -> (length fs < fuel)%nat ->
  flags_loop fuel full_map m p (flags_set pre) = Ret (p + Z.of_nat (length fs), flags_set (pre ++ fs)).
Proof.
  revert p pre fs. induction fuel as [|fuel IH]; intros p pre [|f fs] Hfs Hnd Hb Hc Hn Hf;
    try (simpl in Hf; lia); cbn [flags_loop app] in *; rewrite (bytes_head _ _ _ _ Hb); cbn [obind].
  - rewrite flag_char_spec, bool_decide_false by done. cbn. by rewrite app_nil_r, Z.add_0_r.
  - apply Forall_cons in Hfs as [Hff Hfs].
    assert (ascii7 f) as Ha.
    { exact (in_list_check flag_chars (fun c => 0 <= c < 128) ltac:(by vm_compute) f Hff). }
    rewrite flag_char_spec, bool_decide_true by done. cbn [obind].
    rewrite cons_middle, app_assoc in Hnd.
    assert (f ∉ pre) by (apply NoDup_app in Hnd as (Hnd & _ & _); apply NoDup_app in Hnd; set_solver).
    rewrite set_flag_spec by done. cbn [obind]. apply bytes_cons in Hb as [_ Hb].
    rewrite (IH (p + 1) (pre ++ [f]) fs) by (done || (simpl in Hf; lia)).
    rewrite <- app_assoc. do 2 f_equal. simpl. lia.
Qed.

Lemma width_tail_head d : wf_dspec d -> exists x t,
  width_text (ds_width d) ++ prec_text (ds_prec d) ++ len_text (ds_len d) ++ [ds_spec d] = x :: t /\
  ascii7 x /\ x ∉ flag_chars.
Proof.
  intros Hw. destruct (prec_tail_head (ds_prec d) (ds_len d) _ (wd_spec _ Hw)) as (x & t & -> & Hx & Hn & _).
  destruct (ds_width d) as [| |ds] eqn:Ew; cbn [width_text app chars].
  - exists x, t. split; [reflexivity|]. split; [apply Hx|done].
  - do 2 eexists. split; [reflexivity|]. by split; apply (bool_decide_unpack _).
  - destruct (wd_width _ Hw ds Ew) as (H1 & H2 & _). destruct ds as [|d0 ds]; [cbn in H2; lia|].
    cbn [dec_chars map app]. apply Forall_cons in H1 as [H1 _]. unfold is_digit in H1. cbn in H2.
    do 2 eexists. split; [reflexivity|]. split; [unfold ascii7; lia|]. unfold flag_chars. cbn. set_solver by lia.
Qed.

(** ** Field width, precision, length modifier *)

Lemma fetch_flags_spec m p d t dir : wf_dspec d -> fd_flags dir = no_flags ->
  bytes m p (ds_flags d ++ width_text (ds_width d) ++ prec_text (ds_prec d) ++ len_text (ds_len d) ++ [ds_spec d] ++ t) ->
  fetch_format_flags full_map m p dir =
    Ret (p + Z.of_nat (length (ds_flags d)), set_flags dir (flags_set (ds_flags d))).
Proof.
  intros Hw Ef Hb. destruct (width_tail_head d Hw) as (x & u & E & Hx & Hn).
  assert (bytes m p (ds_flags d ++ x :: u ++ t)) as Hb'.
  { rewrite app_comm_cons, <- E, <- !app_assoc. exact Hb. }
  destruct (wd_flags _ Hw) as [H1 H2]. unfold fetch_format_flags. rewrite Ef.
  change no_flags with (flags_set []).
  rewrite (flags_loop_spec _ m p [] (ds_flags d) x (u ++ t)); [done..|].
  pose proof (bytes_steps _ _ _ Hb') as Hf. rewrite length_app in Hf. lia.
Qed.

Lemma width_spec m p d t dir : wf_dspec d ->
  bytes m p (width_text (ds_width d) ++ prec_text (ds_prec d) ++ len_text (ds_len d) ++ [ds_spec d] ++ t) ->
  fetch_format_field_width m p dir =
    Ret (p + Z.of_nat (length (width_text (ds_width d))), set_field_width dir (amount_value (ds_width d))).
Proof.
  intros Hw Hb. destruct (prec_tail_head (ds_prec d) (ds_len d) _ (wd_spec _ Hw)) as (x & u & E & Hx & _ & Hs & H0).
  assert (bytes m p (width_text (ds_width d) ++ x :: u ++ t)) as Hb'.
  { rewrite app_comm_cons, <- E, <- !app_assoc. exact Hb. }
  clear Hb. unfold fetch_format_field_width.
  destruct (ds_width d) as [| |ds] eqn:Ew; cbn [width_text app chars amount_value] in *.
  - rewrite (bytes_head _ _ _ _ Hb'). cbn [obind]. rewrite (proj2 (Z.eqb_neq x _)) by done.
    destruct Hx as (_ & -> & _). by rewrite Z.add_0_r.
  - rewrite (bytes_head _ _ _ _ Hb'). reflexivity.
  - destruct (wd_width _ Hw ds Ew) as (H1 & H2 & H3). destruct Hx as (_ & Hd & _).
    pose proof (bytes_steps _ _ _ Hb') as Hf. rewrite length_app in Hf. unfold dec_chars in Hf at 1.
    rewrite length_map in Hf.
    rewrite (scan_digits_spec _ m p 0 ds x (u ++ t)) by (done || lia).
    destruct ds as [|d0 ds]; [cbn in H2; lia|]. cbn [dec_chars map app] in Hb'.
    apply Forall_cons in H1 as [H1 _]. unfold is_digit in H1. cbn in H2.
    rewrite (bytes_head _ _ _ _ Hb'). cbn [obind].
    rewrite (proj2 (Z.eqb_neq (48 + d0) (chr "*"))) by (cbn; lia). rewrite isdigit_dec by lia.
    rewrite (proj2 (Z.eqb_neq (48 + d0) (chr "0"))) by (cbn; lia). cbn [obind].
    unfold dec_chars. by rewrite length_map.
Qed.

Lemma precision_spec m p d t dir : wf_dspec d ->
  bytes m p (prec_text (ds_prec d) ++ len_text (ds_len d) ++ [ds_spec d] ++ t) ->
  fetch_format_precision full_map m p dir =
    Ret (p + Z.of_nat (length (prec_text (ds_prec d))), set_precision dir (amount_value (ds_prec d))).
Proof.
  intros Hw Hb. destruct (tail_head (ds_len d) _ (wd_spec _ Hw)) as (x & u & E & (Ha & Hd & _) & _ & Hp & Hs & H0).
  assert (bytes m p (prec_text (ds_prec d) ++ x :: u ++ t)) as Hb'.
  { rewrite app_comm_cons, <- E, <- !app_assoc. exact Hb. }
  clear Hb. unfold fetch_format_precision.
  destruct (ds_prec d) as [| |ds] eqn:Ew; cbn [prec_text app chars amount_value] in *.
  - rewrite (bytes_head _ _ _ _ Hb'). cbn [obind]. rewrite period_char_spec by done. cbn [obind].
    rewrite (proj2 (Z.eqb_neq x _)) by done. by rewrite Z.add_0_r.
  - rewrite (bytes_head _ _ _ _ Hb'). apply bytes_cons in Hb' as [_ Hb'].
    cbn [obind]. rewrite period_char_spec by (by apply (bool_decide_unpack _)). cbn [obind].
    rewrite Z.eqb_refl, (bytes_head _ _ _ _ Hb'). cbn [obind]. rewrite Z.eqb_refl. do 2 f_equal. simpl. lia.
  - destruct (wd_prec _ Hw ds Ew) as (H1 & H2).
    rewrite (bytes_head _ _ _ _ Hb'). apply bytes_cons in Hb' as [_ Hb'].
    cbn [obind]. rewrite period_char_spec by (by apply (bool_decide_unpack _)). cbn [obind].
    rewrite Z.eqb_refl.
    destruct (bytes_accessible _ _ _ Hb' (p + 1)) as [c Ec]; [rewrite length_app; simpl; lia|].
    rewrite (load8_ok _ _ _ Ec). cbn [obind].
    assert (c =? chr "*" = false) as ->.
    { apply Z.eqb_neq. destruct ds as [|d0 ds]; cbn [dec_chars map app] in Hb'; apply bytes_cons in Hb' as [E' _];
        rewrite Ec in E'; injection E' as ->; [done|]. apply Forall_cons in H1 as [H1 _]. unfold is_digit in H1.
      cbn. lia. }
    pose proof (bytes_steps _ _ _ Hb') as Hf. rewrite length_app in Hf. unfold dec_chars in Hf at 1.
    rewrite length_map in Hf.
    rewrite (scan_digits_spec _ m (p + 1) 0 ds x (u ++ t)) by (done || lia). cbn [obind].
    unfold dec_chars. cbn [length]. rewrite length_map. do 2 f_equal. lia.
Qed.

Lemma specifier_facts c : c ∈ specifier_chars -> ascii7 c /\ c <> 0 /\ c ∉ length_chars.
Proof.
  apply (in_list_check specifier_chars (fun c => (0 <= c < 128) /\ c <> 0 /\ c ∉ length_chars)). by vm_compute.
Qed.

(** The length modifier, whose last character the answer points to. *)
Lemma length_modifier_spec m p l c t : c ∈ specifier_chars -> bytes m p (len_text l ++ c :: t) ->
  length_modifier m p =
    Ret (len_bytes l, len_extended l, p + Z.of_nat (length (len_text l)) - (if len_bytes l =? 0 then 0 else 1)).
Proof.
  intros Hs Hb. destruct (specifier_facts _ Hs) as (_ & _ & Hn).
  assert (forall k, k ∈ length_chars -> c =? k = false) as Hne.
  { intros k Hk. apply Z.eqb_neq. by intros <-. }
  unfold length_modifier.
  destruct l; cbn [len_text app chars] in Hb; rewrite (bytes_head _ _ _ _ Hb); apply bytes_cons in Hb as [_ Hb];
    cbn [obind];
    try (rewrite !Hne by (by apply (bool_decide_unpack _)); cbn; do 2 f_equal; lia);
    try (cbn; do 2 f_equal; lia);
    match goal with |- context [load8 m (p + 1)] => rewrite (bytes_head _ _ _ _ Hb) | _ => idtac end;
    cbn; try (change 104 with (chr "h"); rewrite Hne by (by apply (bool_decide_unpack _)));
    try (change 108 with (chr "l"); rewrite Hne by (by apply (bool_decide_unpack _)));
    cbn; rewrite ?(bytes_head _ _ _ _ Hb); cbn; do 2 f_equal; lia.
Qed.

Lemma len_last l : len_bytes l <> 0 -> exists l', len_text l = l' ++ [len_mod l].
Proof. destruct l; intros H; try done; first [by exists [] | by exists [len_mod Lhh] | by exists [len_mod Lll]]. Qed.

Lemma length_spec m p d t dir : wf_dspec d ->
  bytes m p (len_text (ds_len d) ++ ds_spec d :: t) ->
  fetch_format_length full_map m p dir =
    Ret (p + Z.of_nat (length (len_text (ds_len d))) + 1,
         set_specifier (set_length dir (len_bytes (ds_len d)) (len_mod (ds_len d)) (len_extended (ds_len d)))
           (ds_spec d)).
Proof.
  intros Hw Hb. pose proof (wd_spec _ Hw) as Hs. destruct (specifier_facts _ Hs) as (Ha & H0 & _).
  unfold fetch_format_length. rewrite (length_modifier_spec m p _ _ t Hs Hb). cbn [obind].
  cbn [fd_mod set_length Z.eqb obind vassert fd_bytes].
  pose proof Hb as [Hl Ht]%bytes_app.
  assert (forall f dir', fd_specifier dir' = ds_spec d ->
    (if negb (fd_specifier dir' =? 0) then
       let* b := is_specifier_char full_map (fd_specifier dir') in
       if negb b then if fd_specifier dir' =? chr "%" then Abort else Abort else Ret (f + 1, dir')
     else Ret (f + 1, dir')) = Ret (f + 1, dir')) as Hend.
  { intros f dir' ->. rewrite (proj2 (Z.eqb_neq (ds_spec d) 0)) by done. cbn [negb].
    by rewrite specifier_char_spec, bool_decide_true. }
  destruct (Z.eqb_spec (len_bytes (ds_len d)) 0) as [E|E]; cbn [negb obind].
  - assert (ds_len d = LNone) as El by (by destruct (ds_len d)). rewrite El in Ht |- *.
    cbn [len_text length] in Ht |- *. rewrite Z.add_0_r, Z.sub_0_r in *.
    rewrite (bytes_head _ _ _ _ Ht). cbn [obind]. cbv zeta. by rewrite Hend.
  - destruct (len_last _ E) as [l' El]. rewrite El in Hl, Ht |- *. apply bytes_app in Hl as [_ Hl].
    rewrite length_app in *. cbn [length] in *.
    replace (p + Z.of_nat (length l' + 1) - 1) with (p + Z.of_nat (length l')) by lia.
    rewrite (bytes_head _ _ _ _ Hl). cbn [obind].
    replace (p + Z.of_nat (length l') + 1) with (p + Z.of_nat (length l' + 1)) by lia.
    rewrite (bytes_head _ _ _ _ Ht). cbn [obind]. cbv zeta. by rewrite Hend.
Qed.

(** ** The text of a directive *)

Lemma strncpy_chars_bytes m p l : bytes m p l -> Forall (fun c => c <> 0) l ->
  strncpy_chars (length l) m p = Ret l.
Proof.
  intros Hb Hl. revert p Hb. induction Hl as [|c l Hc _ IH]; intros p Hb; cbn [strncpy_chars length]; [done|].
  rewrite (bytes_head _ _ _ _ Hb). cbn [obind]. rewrite (proj2 (Z.eqb_neq c 0)) by done.
  apply bytes_cons in Hb as [_ Hb]. by rewrite IH.
Qed.

Lemma directive_text_spec m p l : bytes m p l -> Forall (fun c => c <> 0) l -> (length l <= 14)%nat ->
  directive_text m p (p + Z.of_nat (length l)) (replicate 16 0) = Ret (l ++ replicate (16 - length l) 0).
Proof.
  intros Hb Hl Hlen. unfold directive_text.
  replace (p + Z.of_nat (length l) - p) with (Z.of_nat (length l)) by lia.
  rewrite (proj2 (Z.ltb_lt _ 15)), s32_small, Nat2Z.id, strncpy_chars_bytes by (done || lia). cbn [obind].
  rewrite drop_replicate, length_app, length_replicate.
  rewrite (proj2 (Z.leb_le _ _)), (proj2 (Z.ltb_lt _ _)) by lia. cbn [andb].
  rewrite list_insert_id; [done|]. rewrite lookup_app_r by lia.
  apply lookup_replicate. split; [done|]. lia.
Qed.

(** A character of a directive: not the terminator, and not a percent sign. *)
Definition in_directive (c : Z) : Prop := 0 < c < 128 /\ c <> chr "%".
#[export] Instance in_directive_dec c : Decision (in_directive c).
Proof. unfold in_directive. apply _. Defined.

Lemma spec_text_chars d : wf_dspec d -> Forall in_directive (spec_text d).
Proof.
  intros Hw. assert (forall ds, Forall is_digit ds -> Forall in_directive (dec_chars ds)) as Hd.
  { intros ds H. unfold dec_chars. rewrite Forall_map. eapply Forall_impl; [exact H|].
    unfold is_digit, in_directive. cbn. lia. }
  assert (forall l, forallb (fun c => bool_decide (in_directive c)) l = true -> Forall in_directive l) as Hc.
  { intros l H. apply Forall_forall. by apply (in_list_check l in_directive). }
  unfold spec_text. rewrite !Forall_app. split_and!.
  - destruct (ds_arg d) as [ds|] eqn:E; cbn [arg_text]; [|done]. rewrite Forall_app. split.
    + by apply Hd, (wd_arg _ Hw).
    + by apply Hc.
  - destruct (wd_flags _ Hw) as [_ H]. eapply Forall_impl; [exact H|].
    apply (in_list_check flag_chars in_directive). by vm_compute.
  - destruct (ds_width d) as [| |ds] eqn:E; cbn [width_text]; [done|by apply Hc|].
    by apply Hd, (wd_width _ Hw).
  - destruct (ds_prec d) as [| |ds] eqn:E; cbn [prec_text]; [done|by apply Hc|].
    apply Forall_app. split; [by apply Hc|]. by apply Hd, (wd_prec _ Hw).
  - by destruct (ds_len d); apply Hc.
  - apply Forall_singleton. apply (in_list_check specifier_chars in_directive); [by vm_compute|apply (wd_spec _ Hw)].
Qed.

Lemma fetch_directive_spec m format p d t prev i : wf_dspec d ->
  bytes m (p - 1) (chr "%" :: spec_text d ++ t) ->
  fetch_directive full_map m format p prev i =
    if kind_changes prev d then Abort
    else Ret (p + Z.of_nat (length (spec_text d)), parsed format i d).
Proof.
  intros Hw Hb. pose proof Hb as [_ Hp]%bytes_cons. replace (p - 1 + 1) with p in Hp by lia.
  unfold fetch_directive. rewrite (argno_spec m p d t format prev i Hw Hp).
  destruct (kind_changes prev d); cbn [obind]; [done|].
  unfold spec_text in Hp. rewrite <- !app_assoc in Hp. apply bytes_app in Hp as [_ Hp].
  rewrite (fetch_flags_spec m _ d t) by done. cbn [obind]. apply bytes_app in Hp as [_ Hp].
  rewrite (width_spec m _ d t) by done. cbn [obind]. apply bytes_app in Hp as [_ Hp].
  rewrite (precision_spec m _ d t) by done. cbn [obind]. apply bytes_app in Hp as [_ Hp].
  rewrite (length_spec m _ d t) by done. cbn [obind].
  pose proof (wd_short _ Hw) as Hlen. pose proof (spec_text_chars d Hw) as Hnz.
  rewrite app_comm_cons in Hb. apply bytes_app in Hb as [Hb _].
  replace (p + Z.of_nat (length (arg_text (ds_arg d))) + Z.of_nat (length (ds_flags d)) +
    Z.of_nat (length (width_text (ds_width d))) + Z.of_nat (length (prec_text (ds_prec d))) +
    Z.of_nat (length (len_text (ds_len d))) + 1) with (p + Z.of_nat (length (spec_text d))).
  2: { unfold spec_text. rewrite !length_app. cbn [length]. lia. }
  replace (p + Z.of_nat (length (spec_text d))) with
    (p - 1 + Z.of_nat (length (chr "%" :: spec_text d))) by (cbn [length]; lia).
  cbn [fd_directive set_specifier set_length set_precision set_field_width set_flags set_arg set_format zero_directive].
  rewrite directive_text_spec; [|done| |cbn [length]; lia].
  - cbn [obind]. reflexivity.
  - constructor; [done|]. eapply Forall_impl; [exact Hnz|]. intros c [Hc _]. cbn in *. lia.
Qed.

(** ** Formats *)

Inductive item : Type := Lit (c : Z) | Percent | Dir (d : dspec).
Definition item_text (x : item) : list Z :=
  match x with Lit c => [c] | Percent => chars "%%" | Dir d => chr "%" :: spec_text d end.
Definition format_text (items : list item) : list Z := flat_map item_text items.
Definition wf_item (x : item) : Prop :=
  match x with Lit c => 0 < c < 256 /\ c <> chr "%" | Percent => True | Dir d => wf_dspec d end.

(** What the parser makes of a format, [None] when it refuses a directive. *)
Fixpoint parse_items (format i : Z) (prev : option format_directive) (items : list item)
  : option (list format_directive) :=
  match items with
  | [] => Some []
  | Dir d :: items =>
      if kind_changes prev d then None
      else cons (parsed format i d) <$> parse_items format (i + 1) (Some (parsed format i d)) items
  | _ :: items => parse_items format i prev items
  end.
Fixpoint directive_count (items : list item) : nat :=
  match items with
  | [] => 0
  | Dir _ :: items => S (directive_count items)
  | _ :: items => directive_count items
  end.

Lemma parse_items_length format i prev items l : parse_items format i prev items = Some l ->
  length l = directive_count items.
Proof.
  revert i prev l. induction items as [|[c| |d] items IH]; intros i prev l; cbn [parse_items directive_count];
    [by intros [= <-]|apply IH|apply IH|].
  destruct (kind_changes prev d); [done|].
  intros (l' & E & ->)%fmap_Some. cbn [length]. f_equal. by eapply IH.
Qed.

(** The number of percent signs. *)
Definition percents (l : list Z) : nat := length (filter (fun c => c = chr "%") l).

Lemma percents_app l l' : percents (l ++ l') = (percents l + percents l')%nat.
Proof. unfold percents. by rewrite filter_app, length_app. Qed.

Lemma percents_none l : chr "%" ∉ l -> percents l = 0%nat.
Proof.
  unfold percents. induction l as [|c l IH]; [done|]. intros [H1 H2]%not_elem_of_cons.
  rewrite filter_cons_False by congruence. by apply IH.
Qed.

Lemma directive_count_percents items : (directive_count items <= percents (format_text items))%nat.
Proof.
  induction items as [|[c| |d] items IH]; cbn [directive_count format_text flat_map]; [lia|..];
    rewrite percents_app; unfold format_text in IH; [lia|lia|].
  unfold percents at 1. cbn [item_text]. rewrite filter_cons_True by done. cbn [length]. lia.
Qed.

Lemma format_text_range items : Forall wf_item items -> Forall (fun c => 0 < c < 256) (format_text items).
Proof.
  induction 1 as [|[c| |d] items Hx _ IH]; cbn [format_text flat_map item_text]; [done|..].
  - constructor; [apply Hx|done].
  - by repeat constructor.
  - constructor; [done|]. apply Forall_app. split; [|done].
    eapply Forall_impl; [by apply spec_text_chars|]. unfold in_directive. cbn. lia.
Qed.

(** ** The count of the percent signs *)

Lemma strchr_found fuel m s l c t : bytes m s (l ++ c :: t) -> c ∉ l -> Forall (fun b => b <> 0) l ->
  (length l < fuel)%nat -> CString.strchr fuel m s c = Ret (s + Z.of_nat (length l)).
Proof.
  revert s l. induction fuel as [|fuel IH]; intros s l Hb Hn H0 Hf; [lia|]. cbn [CString.strchr].
  destruct l as [|b l]; cbn [app] in Hb; rewrite (bytes_head _ _ _ _ Hb); cbn [obind].
  - rewrite Z.eqb_refl, Z.add_0_r. done.
  - apply not_elem_of_cons in Hn as [Hn Hn']. apply Forall_cons in H0 as [Hb0 H0].
    rewrite (proj2 (Z.eqb_neq b c)), (proj2 (Z.eqb_neq b 0)) by done.
    apply bytes_cons in Hb as [_ Hb]. rewrite (IH (s + 1) l) by (done || (simpl in Hf; lia)). f_equal. simpl. lia.
Qed.

Lemma strchr_absent fuel m s l c : bytes m s (l ++ [0]) -> c ∉ l -> c <> 0 -> Forall (fun b => b <> 0) l ->
  (length l < fuel)%nat -> CString.strchr fuel m s c = Ret NULL.
Proof.
  revert s l. induction fuel as [|fuel IH]; intros s l Hb Hn Hc H0 Hf; [lia|]. cbn [CString.strchr].
  destruct l as [|b l]; cbn [app] in Hb; rewrite (bytes_head _ _ _ _ Hb); cbn [obind].
  - by rewrite (proj2 (Z.eqb_neq 0 c)) by done.
  - apply not_elem_of_cons in Hn as [Hn Hn']. apply Forall_cons in H0 as [Hb0 H0].
    rewrite (proj2 (Z.eqb_neq b c)), (proj2 (Z.eqb_neq b 0)) by done.
    apply bytes_cons in Hb as [_ Hb]. rewrite (IH (s + 1) l) by (done || (simpl in Hf; lia)). done.
Qed.

Lemma charcount_loop_spec n fuel m s l cnt : 0 < s -> cstr m s l -> (length l < fuel)%nat ->
  (percents l < n)%nat -> 0 <= cnt -> cnt + Z.of_nat (percents l) < 2 ^ 31 ->
  charcount_loop fuel n m s (chr "%") cnt = Ret (cnt + Z.of_nat (percents l)).
Proof.
  revert s l cnt. induction n as [|n IH]; intros s l cnt Hs [Hb Hl] Hf Hn Hc Hv; [lia|]. cbn [charcount_loop].
  assert (Forall (fun b => b <> 0) l) as H0 by (eapply Forall_impl; [exact Hl|]; cbn; lia).
  destruct (decide (chr "%" ∈ l)) as [Hin|Hout].
  - destruct (list_elem_of_split_l l (chr "%") Hin) as (l1 & l2 & -> & Hout).
    rewrite <- app_assoc in Hb. apply Forall_app in H0 as [H1 H2]. apply Forall_app in Hl as [_ [_ Hl2]%Forall_cons].
    rewrite length_app in Hf. cbn [length] in Hf.
    rewrite (strchr_found _ m s l1 (chr "%") (l2 ++ [0])) by (done || lia). cbn [obind].
    rewrite (proj2 (Z.eqb_neq _ NULL)) by (unfold NULL; lia). cbn [negb].
    assert (percents (l1 ++ chr "%" :: l2) = S (percents l2)) as E.
    { rewrite percents_app. unfold percents. rewrite filter_cons_True by done. cbn [length].
      by rewrite (percents_none l1 Hout : length (filter _ l1) = 0%nat). }
    rewrite E in Hn, Hv |- *. apply bytes_app in Hb as [_ [_ Hb]%bytes_cons].
    rewrite s32_small, (IH _ l2) by (lia || by split). f_equal. lia.
  - rewrite (strchr_absent _ m s l) by done. cbn. f_equal.
    rewrite (percents_none l Hout). lia.
Qed.

(** ** The array of directives *)

(** The array with the directives [l] and [k] free entries. *)
Definition array (l : list format_directive) (k : nat) : list (option format_directive) :=
  map Some l ++ replicate k None.

Lemma store_array l k dir : store_directive (array l (S k)) (Z.of_nat (length l)) dir = Ret (array (l ++ [dir]) k).
Proof.
  unfold store_directive, array. rewrite length_app, length_map, length_replicate.
  rewrite (proj2 (Z.leb_le _ _)), (proj2 (Z.ltb_lt _ _)) by lia. cbn [andb]. f_equal.
  rewrite Nat2Z.id, insert_app_r_alt by (rewrite length_map; lia).
  rewrite length_map, Nat.sub_diag. cbn. by rewrite map_app, <- app_assoc.
Qed.

Definition parse_answer (l : list format_directive) (k : nat) (r : option (list format_directive))
  : outcome (list (option format_directive)) :=
  match r with Some l' => Ret (array (l ++ l') (k - length l')) | None => Abort end.

Lemma parse_answer_cons l k dir r :
  parse_answer l (S k) (cons dir <$> r) = parse_answer (l ++ [dir]) k r.
Proof. destruct r as [l'|]; cbn; [|done]. by rewrite <- app_assoc. Qed.

Lemma directives_loop_spec `{DRok : DirectiveRoomOk} fuel m format p i prev items l k : Forall wf_item items ->
  bytes m p (format_text items ++ [0]) -> (length items < fuel)%nat -> (directive_count items <= k)%nat ->
  i = Z.of_nat (length l) ->
  directives_loop fuel full_map m format p i prev (array l k) =
    parse_answer l k (parse_items format i prev items).
Proof.
  revert p i prev items l k. induction fuel as [|fuel IH]; intros p i prev items l k Hw Hb Hf Hk Hi; [lia|].
  cbn [directives_loop]. destruct Hw as [|x items Hx Hw].
  { cbn [format_text flat_map app] in Hb. rewrite (bytes_head _ _ _ _ Hb). cbn. by rewrite app_nil_r, Nat.sub_0_r. }
  cbn [format_text flat_map] in Hb. fold (format_text items) in Hb. rewrite <- app_assoc in Hb. simpl in Hf.
  destruct x as [c| |d]; cbn [item_text app chars] in Hb; cbn [parse_items directive_count] in *;
    rewrite (bytes_head _ _ _ _ Hb); cbn [obind].
  - destruct Hx as [Hx Hne]. rewrite (proj2 (Z.eqb_neq c 0)), (proj2 (Z.eqb_neq c (chr "%"))) by (done || lia).
    cbn [negb]. apply bytes_cons in Hb as [_ Hb]. apply IH; [done|done|lia|done|done].
  - apply bytes_cons in Hb as [_ Hb]. rewrite (bytes_head _ _ _ _ Hb). cbn.
    apply bytes_cons in Hb as [_ Hb]. apply IH; [done|done|lia|done|done].
  - change (chr "%" =? 0) with false. rewrite Z.eqb_refl. cbn [negb].
    pose proof Hb as [_ Hb1]%bytes_cons. pose proof (spec_text_chars d Hx) as Hc.
    destruct (spec_text d) as [|y u] eqn:Et.
    { apply (f_equal length) in Et. unfold spec_text in Et. rewrite !length_app in Et. simpl in Et. lia. }
    apply Forall_cons in Hc as [[Hy Hy'] _]. cbn [app] in Hb1. rewrite (bytes_head _ _ _ _ Hb1). cbn [obind].
    rewrite (proj2 (Z.eqb_neq y (chr "%"))) by done.
    replace p with (p + 1 - 1) in Hb by lia. rewrite <- Et in Hb.
    rewrite directive_room_ok. cbn [stores obind].
    rewrite (fetch_directive_spec m format (p + 1) d (format_text items ++ [0])) by done.
    destruct (kind_changes prev d); cbn [obind]; [done|]. destruct k as [|k]; [lia|]. subst i.
    rewrite store_array. cbn [obind]. rewrite parse_answer_cons. rewrite app_comm_cons in Hb1. rewrite <- Et in Hb1.
    apply bytes_app in Hb1 as [_ Hb1]. apply IH; [done|done|lia|lia|rewrite length_app; simpl; lia].
Qed.

Lemma items_length items : Forall wf_item items -> (length items <= length (format_text items))%nat.
Proof.
  induction 1 as [|x items Hx _ IH]; cbn [format_text flat_map length]; [lia|]. rewrite length_app.
  unfold format_text in IH. destruct x as [c| |d]; cbn [item_text length chars]; lia.
Qed.

(** Both counts of the percent signs. *)
Lemma percents_count m fmt items : 0 < fmt -> Forall wf_item items -> cstr m fmt (format_text items) ->
  Z.of_nat (percents (format_text items)) < 2 ^ 31 - 1 ->
  charcount (steps m) m fmt (chr "%") = Ret (Z.of_nat (percents (format_text items))).
Proof.
  intros Hfmt Hw Hs Hn. unfold charcount. pose proof (cstr_steps _ _ _ Hs) as Hst.
  assert (percents (format_text items) <= length (format_text items))%nat by (unfold percents; apply length_filter).
  by rewrite (charcount_loop_spec _ _ m fmt (format_text items) 0) by (done || lia).
Qed.

(** The parser makes the directives of the text of a format. *)
Lemma get_format_directives_spec `{DRok : DirectiveRoomOk} map m fmt items : map_ok map -> 0 < fmt -> Forall wf_item items ->
  cstr m fmt (format_text items) -> Z.of_nat (percents (format_text items)) < 2 ^ 31 - 1 ->
  get_format_directives map m fmt =
    (let* dirs := parse_answer [] (S (percents (format_text items))) (parse_items fmt 0 None items) in
     Ret (dirs, full_map)).
Proof.
  intros Hmap Hfmt Hw Hs Hn. unfold get_format_directives.
  rewrite (percents_count m fmt items) by done. cbn [obind].
  pose proof (cstr_steps _ _ _ Hs) as Hst. pose proof (items_length items Hw) as Hil.
  rewrite int_range_ok by lia. cbn [obind]. rewrite array_room_ok, set_map_ok by done. cbn [stores obind].
  pose proof (directive_count_percents items).
  replace (Z.to_nat (Z.of_nat (percents (format_text items)) + 1)) with (S (percents (format_text items))) by lia.
  change (replicate (S (percents (format_text items))) None) with (array [] (S (percents (format_text items)))).
  destruct Hs as [Hb _]. rewrite (directives_loop_spec _ m fmt fmt 0 None items []) by (done || lia). done.
Qed.

(** The array of the parser is released as a whole. *)
Lemma release_directives_spec m fmt items prev l : 0 < fmt -> Forall wf_item items ->
  cstr m fmt (format_text items) -> Z.of_nat (percents (format_text items)) < 2 ^ 31 - 1 ->
  parse_items fmt 0 prev items = Some l ->
  release_directives m fmt (array l (S (percents (format_text items)) - length l)) = Ret [].
Proof.
  intros Hfmt Hw Hs Hn El. unfold release_directives. rewrite (percents_count m fmt items) by done. cbn [obind].
  rewrite int_range_ok by lia. cbn [obind]. apply parse_items_length in El.
  pose proof (directive_count_percents items).
  assert (length (array l (S (percents (format_text items)) - length l)) = S (percents (format_text items))) as Ea.
  { unfold array. rewrite length_app, length_map, length_replicate. lia. }
  rewrite Ea, (proj2 (Z.ltb_ge _ _)), drop_ge by (rewrite ?Ea; lia). done.
Qed.

(** ** The directives that a format describes *)

Definition directives_of (items : list item) : list dspec :=
  omap (fun x => match x with Dir d => Some d | _ => None end) items.

(** All directives are numbered, or none is. *)
Definition uniform (ds : list dspec) : Prop :=
  Forall (fun d => numbered d = true) ds \/ Forall (fun d => numbered d = false) ds.
#[export] Instance uniform_dec ds : Decision (uniform ds).
Proof. unfold uniform. apply _. Defined.

(** The directives from the [i]-th on. *)
Definition descriptions (format i : Z) (ds : list dspec) : list format_directive :=
  imap (fun k d => description format (argument_index (i + Z.of_nat k) d) d) ds.

(** The directive does not start with the flag [0], unless it is numbered. *)
Definition zero_later (d : dspec) : Prop := ds_arg d = None -> head (ds_flags d) <> Some (chr "0").

Lemma zero_later_starts d : zero_later d -> starts_with_zero d = false.
Proof. unfold zero_later, starts_with_zero. destruct (ds_arg d); [done|]. intros H. apply bool_decide_eq_false. auto. Qed.

Lemma zero_later_index d i : zero_later d -> parsed_index d i = argument_index i d.
Proof. intros H. unfold parsed_index. by rewrite zero_later_starts. Qed.

Lemma descriptions_cons format i d ds : zero_later d ->
  descriptions format i (d :: ds) = parsed format i d :: descriptions format (i + 1) ds.
Proof.
  intros Hz. unfold descriptions, parsed. rewrite (zero_later_index d i Hz). cbn [imap]. rewrite Z.add_0_r. f_equal.
  apply imap_ext. intros k x _. cbn. do 2 f_equal. lia.
Qed.

(** The kind of all directives, given the one before them. *)
Definition follows (prev : option bool) (ds : list dspec) : Prop :=
  match prev with Some b => Forall (fun d => numbered d = b) ds | None => uniform ds end.
#[export] Instance follows_dec prev ds : Decision (follows prev ds).
Proof. destruct prev; apply _. Defined.

Lemma follows_cons prev d ds : follows (fd_expl <$> prev) (d :: ds) <->
  match prev with Some p => fd_expl p = numbered d | None => True end /\ follows (Some (numbered d)) ds.
Proof.
  destruct prev as [p|]; cbn [fmap option_fmap option_map follows].
  - rewrite Forall_cons. split; [intros [-> H]; done|intros [-> H]; done].
  - unfold uniform. rewrite !Forall_cons. destruct (numbered d); split; try tauto; intros [[]|[]]; done || tauto.
Qed.

(** The parser without the two effects of the flag [0]. *)
Lemma parse_items_described format i prev items : Forall zero_later (directives_of items) ->
  parse_items format i prev items =
    if decide (follows (fd_expl <$> prev) (directives_of items))
    then Some (descriptions format i (directives_of items)) else None.
Proof.
  revert i prev. induction items as [|[c| |d] items IH]; intros i prev Hz; [|exact (IH i prev Hz)..|].
  - rewrite decide_True; [done|]. destruct prev; [|left]; constructor.
  - change (directives_of (Dir d :: items)) with (d :: directives_of items) in *. cbn [parse_items].
    apply Forall_cons in Hz as [Hd Hz]. rewrite (IH _ _ Hz), (descriptions_cons _ _ _ _ Hd).
    cbn [fmap option_fmap option_map parsed description fd_expl].
    unfold kind_changes. rewrite (zero_later_starts d Hd). cbn [negb andb].
    pose proof (follows_cons prev d (directives_of items)) as Hf. destruct prev as [p|]; cbn [fmap option_fmap option_map] in Hf |- *.
    + destruct (Bool.eqb (fd_expl p) (numbered d)) eqn:E; cbn [negb].
      * apply eqb_prop in E. repeat case_decide; tauto || done.
      * apply eqb_false_iff in E. rewrite decide_False by tauto. done.
    + repeat case_decide; tauto || done.
Qed.

Lemma parse_items_uniform format items : Forall zero_later (directives_of items) ->
  parse_items format 0 None items =
    if decide (uniform (directives_of items)) then Some (descriptions format 0 (directives_of items)) else None.
Proof. apply (parse_items_described format 0 None). Qed.
