(* ===== verification/FormatValidate.v ===== *)
(** * The validation of formats is exact

    A call of a function of the printf family against the requirements of the C
    standard on its format and arguments, as e_acsl_format.h understands them, and the
    proof that [validate_format] accepts exactly the calls that satisfy them. *)

From Stdlib Require Import String.
From S2P Require Import Prelude AMem CString Observers LibcString LibcStringSpec LibcStdlib LibcStdlibTheorems Digits LibcReplacements LibcReplacementsTheorems Printf Format FormatSpec FormatParse.

(** ** Requirements *)

(** The flags, the precision, the field width and the length modifier apply to the
    conversion. *)
Record applicable (d : dspec) : Prop := {
  ap_thousands : chr "'" ∈ ds_flags d -> ds_spec d ∈ chars "idufFgG";
  ap_alternative : chr "#" ∈ ds_flags d -> ds_spec d ∈ chars "oxXaAeEfFgG";
  ap_zero : chr "0" ∈ ds_flags d -> ds_spec d ∈ chars "diouxXaAeEfFgG";
  ap_precision : ds_prec d <> Absent -> ds_spec d ∈ chars "diouxXaAeEfFgGs";
  ap_count : ds_spec d = chr "n" -> ds_flags d = [] /\ ds_width d = Absent;
  ap_length : match ds_len d with
    | LNone => True
    | Ll => ds_spec d ∈ chars "diouxXncsfFeEgGaA"
    | LL => ds_spec d ∈ chars "aAeEfFgG"
    | _ => ds_spec d ∈ chars "diouxXn"
    end
}.

(** The type of an integer argument; [short] and [char] are promoted to [int]. *)
Definition integral_type (sgn : bool) (l : length_modifier_syntax) : option abbrev :=
  match l with
  | LNone => Some (if sgn then IInt else IUInt)
  | Lh | Lhh => Some IInt
  | Ll | Lj | Lz | Lt => Some (if sgn then ILong else IULong)
  | Lll => Some (if sgn then ILongLong else IULongLong)
  | LL => None
  end.
(** The type of the argument of the conversion [n]. *)
Definition count_type (l : length_modifier_syntax) : option abbrev :=
  match l with
  | LNone => Some PInt | Lh => Some PShort | Lhh => Some PChar | Ll | Lj | Lt => Some PLong
  | Lll => Some PLongLong | Lz => Some PULong | LL => None
  end.
Definition wide (d : dspec) : bool := len_mod (ds_len d) =? chr "l".

(** The type that a directive expects of its argument. *)
Definition expected_type (d : dspec) : option abbrev :=
  let c := ds_spec d in
  if bool_decide (c ∈ chars "di") then integral_type true (ds_len d)
  else if bool_decide (c ∈ chars "ouxX") then integral_type false (ds_len d)
  else if bool_decide (c ∈ chars "fFeEgGaA") then
    Some (match ds_len d with LL => FLongDouble | _ => FDouble end)
  else if c =? chr "c" then Some (if wide d then IUInt else IInt)
  else if c =? chr "s" then Some (if wide d then PInt else PChar)
  else if c =? chr "p" then Some PVoid
  else if c =? chr "n" then count_type (ds_len d)
  else None.

(** The most characters that the conversion [s] prints, if they are limited. *)
Definition limit (d : dspec) : option Z :=
  match ds_prec d with Num ds => Some (num_val 10 0 ds) | _ => None end.

(** The size of the object that the conversion [n] writes. *)
Definition count_size (d : dspec) : Z := match ds_len d with LNone => 4 | l => len_bytes l end.

Section Call.
Context (M : amem) (m : mem) (types : list abbrev) (args : list Z) (buffer buf_size : Z).

(** The output buffer, if there is one, is apart from the bytes of an argument. *)
Definition clear (p n : Z) : Prop := buffer = NULL \/ apart buffer buf_size p n.

Definition string_argument (limit : option Z) (p : Z) : Prop :=
  match limit with
  | None => exists l, tracked_string M m p l /\ clear p (Z.of_nat (length l))
  | Some 0 => clear p 0
  | Some n => exists r, tracked_nstring M m p n r /\ clear p r
  end.

Definition argument_ok (d : dspec) (p : Z) : Prop :=
  let c := ds_spec d in
  if c =? chr "s" then string_argument (limit d) p
  else if c =? chr "p" then within M p 1 /\ clear p 1
  else if c =? chr "n" then within_writable M p (count_size d) /\ clear p (count_size d)
  else True.

(** The directive applies to the argument with the index [j]. *)
Definition directive_at (j : Z) (d : dspec) : Prop :=
  applicable d /\ exists t p, types !! Z.to_nat j = Some t /\ args !! Z.to_nat j = Some p /\
    expected_type d = Some t /\ argument_ok d p.

(** Every directive applies to its argument. *)
Definition arguments_ok (ds : list dspec) : Prop :=
  forall k d, ds !! k = Some d -> directive_at (argument_index (Z.of_nat k) d) d.

(** The requirements on the directives of a call: numbered ones and others are not mixed,
    and every one applies to its argument. *)
Definition valid_call (items : list item) : Prop :=
  uniform (directives_of items) /\ arguments_ok (directives_of items).

(** What the code checks: the argument whose index the parser stores. *)
Definition directive_ok (i : Z) (d : dspec) : Prop := directive_at (parsed_index d i) d.

Fixpoint directives_ok (i : Z) (items : list item) : Prop :=
  match items with
  | [] => True
  | Dir d :: items => directive_ok i d /\ directives_ok (i + 1) items
  | _ :: items => directives_ok i items
  end.

Lemma directives_ok_arguments i items : Forall zero_later (directives_of items) ->
  directives_ok i items <->
  forall k d, directives_of items !! k = Some d -> directive_at (argument_index (i + Z.of_nat k) d) d.
Proof.
  revert i. induction items as [|[c| |d] items IH]; intros i Hz; [by split|exact (IH i Hz)..|].
  change (directives_of (Dir d :: items)) with (d :: directives_of items) in *. cbn [directives_ok].
  apply Forall_cons in Hz as [Hd Hz]. rewrite (IH (i + 1) Hz). unfold directive_ok. rewrite (zero_later_index d i Hd).
  split.
  - intros [H1 H2] [|k] e Ek; [injection Ek as <-; by rewrite Z.add_0_r|].
    specialize (H2 k e Ek). by replace (i + Z.of_nat (S k)) with (i + 1 + Z.of_nat k) by lia.
  - intros H. split; [specialize (H 0%nat d eq_refl); by rewrite Z.add_0_r in H|].
    intros k e Ek. specialize (H (S k) e Ek). by replace (i + 1 + Z.of_nat k) with (i + Z.of_nat (S k)) by lia.
Qed.

Lemma valid_call_parsed format items : Forall zero_later (directives_of items) ->
  valid_call items <-> is_Some (parse_items format 0 None items) /\ directives_ok 0 items.
Proof.
  intros Hz. unfold valid_call. rewrite (directives_ok_arguments 0 items Hz), (parse_items_uniform _ _ Hz).
  split; intros [H1 H2]; split; try exact H2.
  - rewrite decide_True by done. eauto.
  - case_decide; [done|]. by destruct H1.
Qed.
End Call.

(** The directives that the theorems on calls are about: neither a flag [0] at the
    start of a directive without number, nor a field width or a precision [*], which would
    have an argument of its own. *)
Definition plain (d : dspec) : Prop := zero_later d /\ ds_width d <> Star /\ ds_prec d <> Star.

(** No conversion of strings of wide characters. *)
Definition narrow (x : item) : Prop :=
  match x with Dir d => ds_spec d = chr "s" -> wide d = false | _ => True end.

(** ** Combining checks *)

Lemma guards_seq {B} (P Q : Prop) (c : outcome unit) (k o : outcome B) :
  guards P c (Ret tt) -> (P -> guards Q k o) -> guards (P /\ Q) (let* _ := c in k) o.
Proof.
  intros [[HP ->]|[HP ->]] Hk; cbn [obind].
  - destruct (Hk HP) as [[HQ ->]|[HQ ->]]; [by left|right]. tauto.
  - right. tauto.
Qed.

Lemma guards_vassert (b : bool) (P : Prop) : (b = true <-> P) -> guards P (vassert b) (Ret tt).
Proof. destruct b; intros H; [left|right]; naive_solver. Qed.

Lemma guards_true {B} (o : outcome B) : guards True o o.
Proof. by left. Qed.

Lemma guards_of_checks {P : Prop} c : checks (fun _ : unit => P) c -> guards P c (Ret tt).
Proof. intros [([] & -> & H)|[-> H]]; [by left|right; split; [intros HP; by apply (H tt)|done]]. Qed.

(** ** Applications *)

Section Applications.
Context (format i : Z) (d : dspec) (Hw : wf_dspec d).

Lemma application_guards allowed : guards (ds_spec d ∈ allowed) (validate_application (parsed format i d) allowed) (Ret tt).
Proof using Hw.
  destruct (specifier_facts _ (wd_spec _ Hw)) as (_ & H0 & _).
  apply guards_vassert. rewrite bool_decide_eq_true. cbn [parsed description fd_specifier].
  rewrite elem_of_app, list_elem_of_singleton. tauto.
Qed.

Lemma when_guards b (P : Prop) allowed : (b = true <-> P) ->
  guards (P -> ds_spec d ∈ allowed) (validate_when b (parsed format i d) allowed) (Ret tt).
Proof using Hw.
  intros HP. unfold validate_when. destruct b.
  - destruct (application_guards allowed) as [[H ->]|[H ->]]; [left|right]; tauto.
  - left. split; [|done]. intros H%HP. done.
Qed.

Lemma length_modifier_guards : guards (match ds_len d with
    | LNone => True
    | Ll => ds_spec d ∈ chars "diouxXncsfFeEgGaA"
    | LL => ds_spec d ∈ chars "aAeEfFgG"
    | _ => ds_spec d ∈ chars "diouxXn"
    end) (validate_length_modifier full_map (parsed format i d)) (Ret tt).
Proof using Hw.
  assert (validate_length_modifier full_map (parsed format i d) = match ds_len d with
    | LNone => Ret tt
    | Ll => validate_application (parsed format i d) (chars "diouxXncsfFeEgGaA")
    | LL => validate_application (parsed format i d) (chars "aAeEfFgG")
    | _ => validate_application (parsed format i d) (chars "diouxXn")
    end) as ->.
  { unfold validate_length_modifier. change (fd_mod (parsed format i d)) with (len_mod (ds_len d)).
    change (fd_extended (parsed format i d)) with (len_extended (ds_len d)).
    generalize (parsed format i d). intros dir. destruct (ds_len d); cbv -[validate_application]; reflexivity. }
  destruct (ds_len d); [by left|..]; apply application_guards.
Qed.

Lemma amount_absent a : amount_value a <> INT_MIN -> a <> Absent.
Proof. by intros H ->. Qed.

Lemma amount_given a : (forall ds, a = Num ds -> Forall is_digit ds) -> a <> Absent -> amount_value a <> INT_MIN.
Proof.
  intros Hds Ha. destruct a as [| |ds]; [done|done|]. cbn. specialize (Hds ds eq_refl).
  pose proof (num_val_bound 10 ds ltac:(lia) Hds). unfold INT_MIN. lia.
Qed.

Lemma applications_guards : guards (applicable d) (validate_applications full_map (parsed format i d)) (Ret tt).
Proof using Hw.
  assert (amount_value (ds_prec d) =? INT_MIN = true <-> ds_prec d = Absent) as Hprec.
  { rewrite Z.eqb_eq. split; [|by intros ->]. intros E. destruct (ds_prec d) as [| |ds] eqn:Ep; [done|done|exfalso].
    apply (amount_given (Num ds)); [intros ds' [= <-]; by apply (wd_prec _ Hw)|done|done]. }
  assert (amount_value (ds_width d) =? INT_MIN = true <-> ds_width d = Absent) as Hwidth.
  { rewrite Z.eqb_eq. split; [|by intros ->]. intros E. destruct (ds_width d) as [| |ds] eqn:Ep; [done|done|exfalso].
    apply (amount_given (Num ds)); [intros ds' [= <-]; by apply (wd_width _ Hw)|done|done]. }
  unfold validate_applications.
  eapply guards_iff; cycle 1.
  - apply guards_seq; [apply (when_guards _ (chr "'" ∈ ds_flags d)), bool_decide_eq_true|intros _].
    apply guards_seq; [apply (when_guards _ (chr "#" ∈ ds_flags d)), bool_decide_eq_true|intros _].
    apply guards_seq; [apply (when_guards _ (chr "0" ∈ ds_flags d)), bool_decide_eq_true|intros _].
    apply guards_seq; [apply (guards_vassert _ (ds_spec d = chr "n" -> ds_flags d = []))|intros _].
    { cbn [parsed description fd_flags flags_set fl_specified fd_specifier]. rewrite negb_true_iff, andb_false_iff.
      rewrite bool_decide_eq_false, Z.eqb_neq. destruct (ds_flags d); naive_solver. }
    apply guards_seq; [apply (when_guards _ (ds_prec d <> Absent))|intros _].
    { cbn [parsed description fd_precision]. rewrite negb_true_iff, <- not_true_iff_false, Hprec. done. }
    apply guards_seq; [apply (guards_vassert _ (ds_spec d = chr "n" -> ds_width d = Absent))|intros _].
    { cbn [parsed description fd_field_width fd_specifier]. rewrite negb_true_iff, andb_false_iff, negb_false_iff, Hwidth.
      rewrite Z.eqb_neq. destruct (decide (ds_spec d = chr "n")); naive_solver. }
    apply length_modifier_guards.
  - split; [intros (?&?&?&?&?&?&?); constructor; naive_solver|intros []; naive_solver].
Qed.
End Applications.

(** ** Types *)

Lemma abbrev_t_range a : 0 < abbrev_t a < 128.
Proof. by destruct a. Qed.
Lemma abbrev_t_inj a b : abbrev_t a = abbrev_t b -> a = b.
Proof. destruct a, b; vm_compute; congruence. Qed.

Lemma validate_type_guards m e fmtdesc types dir : cstr m fmtdesc (map abbrev_t types) ->
  0 <= fd_index dir < Z.of_nat (length types) ->
  guards (types !! Z.to_nat (fd_index dir) = Some e) (validate_format_type m (abbrev_t e) fmtdesc dir) (Ret tt).
Proof.
  intros [Hb _] Hi. unfold validate_format_type.
  destruct (lookup_lt_is_Some_2 types (Z.to_nat (fd_index dir))) as [t Et]; [lia|].
  assert (load8 m (fmtdesc + fd_index dir) = Ret (abbrev_t t)) as ->.
  { apply load8_ok. specialize (Hb (Z.to_nat (fd_index dir)) (abbrev_t t)). rewrite Z2Nat.id in Hb by lia.
    apply Hb. rewrite lookup_app_l by (rewrite length_map; lia). by rewrite list_lookup_fmap, Et. }
  cbn [obind]. pose proof (abbrev_t_range t). assert (s8 (abbrev_t t) = abbrev_t t) as ->.
  { unfold s8. rewrite Z.mod_small; lia. }
  rewrite Et. destruct (Z.eqb_spec (abbrev_t t) (abbrev_t e)) as [E|E]; [left|right]; cbn [negb].
  - split; [|done]. f_equal. by apply abbrev_t_inj.
  - split; [|done]. by intros [= ->].
Qed.

Lemma infer_integral_spec format i d sgn : infer_integral_abbr (parsed format i d) sgn =
  match integral_type sgn (ds_len d) with Some t => Ret (abbrev_t t) | None => Abort end.
Proof.
  unfold infer_integral_abbr. change (fd_mod (parsed format i d)) with (len_mod (ds_len d)).
  change (fd_extended (parsed format i d)) with (len_extended (ds_len d)).
  by destruct (ds_len d), sgn.
Qed.

Lemma infer_n_spec format i d : infer_n_abbr (parsed format i d) =
  match count_type (ds_len d) with Some t => Ret (abbrev_t t) | None => Abort end.
Proof.
  unfold infer_n_abbr. change (fd_mod (parsed format i d)) with (len_mod (ds_len d)).
  change (fd_extended (parsed format i d)) with (len_extended (ds_len d)).
  by destruct (ds_len d).
Qed.

(** A type that may not exist. *)
Lemma typed_guards {A} (t : option abbrev) (o : outcome Z) (types : list abbrev) (k : nat) (P : Prop) c (r : outcome A) :
  o = match t with Some t => Ret (abbrev_t t) | None => Abort end ->
  (forall e, t = Some e -> guards (types !! k = Some e /\ P) (c (abbrev_t e)) r) ->
  guards (exists e, types !! k = Some e /\ t = Some e /\ P) (let* x := o in c x) r.
Proof.
  intros -> H. destruct t as [e|]; cbn [obind].
  - eapply guards_iff; [|by apply H]. naive_solver.
  - right. split; [naive_solver|done].
Qed.

(** ** Arguments *)

Section Arguments.
Context {S : Type} `{OB : !Observers S, OBok : !ObserversOk S} (s : S) (M : amem) (m : mem).
Context (HM : ob_models s M) (Hb : backed M m).
Context (buffer buf_size : Z).
(** The blocks have less than 2^31 bytes, and the buffer does not wrap around. *)
Context (Hsmall : forall a ab, M !! a = Some ab -> ab_size ab < 2 ^ 31).
Context (Hbuf : 0 <= buffer /\ 0 <= buf_size /\ buffer + buf_size < 2 ^ 64).

Lemma clear_guards p n : 0 <= p -> 0 <= n -> p + n < 2 ^ 64 ->
  guards (clear buffer buf_size p n) (validate_overlapping_buffer buffer buf_size p n) (Ret tt).
Proof using Hbuf.
  intros. unfold validate_overlapping_buffer, clear, i2b. destruct (Z.eqb_spec buffer 0) as [->|Hne]; cbn [negb].
  { left. split; [by left|done]. }
  change (guards (buffer = NULL \/ apart buffer buf_size p n) (validate_overlapping_spaces buffer buf_size p n) (Ret tt)).
  eapply guards_iff; [|apply guards_of_checks, overlapping_spaces; lia].
  split; [by right|]. intros [->|?]; [by destruct Hne|done].
Qed.

Lemma contains_small p a ab : contains M p a ab -> 0 <= a + ab_size ab - p < 2 ^ 31.
Proof using Hsmall. intros [E Hc]. pose proof (Hsmall a ab E). unfold covers in Hc. lia. Qed.

Lemma within_small p n : within M p n -> n < 2 ^ 31.
Proof using Hsmall. intros (a & ab & Hc & Hle). pose proof (contains_small p a ab Hc). lia. Qed.

Lemma nstring_answer_cases p n r : nstring_answer M m p n 0 r ->
  r = -1 \/ r = -2 \/ r = -3 \/ r = -4 \/ 0 <= r.
Proof. intros []; lia. Qed.

Lemma format_argument_string p dir n : in_u 64 p -> ob_addr s p -> n <> 0 ->
  (if 0 <=? fd_precision dir then fd_precision dir else -1) = n ->
  validate_format_string_argument s m p dir false = validate_allocated_string s m p n.
Proof using HM Hb.
  intros Hp Ha Hn E. unfold validate_format_string_argument, validate_allocated_string, validate_string. rewrite E.
  destruct (valid_nstring_spec s M m HM Hb p n 0 Hp Ha Hn) as (r & -> & Hr). cbn [obind].
  apply nstring_answer_cases in Hr. zbool; cbn [orb]; try done; lia.
Qed.

Lemma size_int n : 0 <= n < 2 ^ 31 -> u64 (s32 n) = n.
Proof. intros H. rewrite s32_small, u64_small by (unfold in_u; lia). done. Qed.

(** The conversion [s], for strings that are not wide. *)
Lemma string_argument_guards format i d p : wf_dspec d -> in_u 64 p -> ob_addr s p ->
  guards (string_argument M m buffer buf_size (limit d) p)
    (let* asz := validate_format_string_argument s m p (parsed format i d) false in
     validate_overlapping_buffer buffer buf_size p (u64 (s32 asz))) (Ret tt).
Proof using HM Hb Hsmall Hbuf.
  intros Hw Hp Ha. pose proof Hp as Hp'. unfold in_u in Hp'.
  set (lim := if 0 <=? fd_precision (parsed format i d) then fd_precision (parsed format i d) else -1).
  destruct (limit d) as [v|] eqn:El.
  - assert (lim = v /\ 0 <= v < 2 ^ 31) as [E Hv].
    { unfold lim, limit in *. cbn [parsed description fd_precision]. destruct (ds_prec d) as [| |ds] eqn:Ep; try done.
      injection El as <-. destruct (wd_prec _ Hw ds Ep) as [H1 H2].
      pose proof (num_val_bound 10 ds ltac:(lia) H1). cbn [amount_value].
      rewrite (proj2 (Z.leb_le _ _)) by lia. lia. }
    destruct (decide (v = 0)) as [->|Hne].
    + unfold validate_format_string_argument. fold lim. rewrite E. unfold valid_nstring. cbn [Z.eqb obind orb].
      rewrite size_int by lia. cbn [string_argument]. apply clear_guards; lia.
    + rewrite (format_argument_string p _ v Hp Ha Hne E).
      assert (string_argument M m buffer buf_size (Some v) p =
        exists r, tracked_nstring M m p v r /\ clear buffer buf_size p r) as -> by (by destruct v).
      apply guards_bind; [by apply (allocated_nstring s M m HM Hb p v Hp Ha ltac:(lia))|apply tracked_nstring_unique|].
      intros r Hr. pose proof Hr as (Hr1 & _ & Hr2).
      assert (p + r < 2 ^ 64).
      { destruct Hr2 as [[_ H]|[-> H]]; apply (within_bounds s M HM) in H; lia. }
      rewrite size_int by lia. apply clear_guards; lia.
  - assert (lim = -1) as E by (unfold lim, limit in *; cbn [parsed description fd_precision]; by destruct (ds_prec d)).
    rewrite (format_argument_string p _ (-1) Hp Ha ltac:(lia) E). cbn [string_argument].
    eapply guards_iff; cycle 1.
    + apply (guards_bind _ (fun r => clear buffer buf_size p r) _ _ _ (allocated_string s M m HM Hb p Hp Ha)).
      * intros r r' (l & -> & Hl & _) (l' & -> & Hl' & _). by apply (cstr_length_unique m p).
      * intros r (l & -> & Hl). destruct Hl as [_ Hin]. pose proof (within_small _ _ Hin).
        apply (within_bounds s M HM) in Hin; [|lia]. rewrite size_int by lia. apply clear_guards; lia.
    + split; [intros (r & (l & -> & Hl) & Hc); by exists l|intros (l & Hl & Hc); eauto].
Qed.

Context (types : list abbrev) (fmtdesc : Z) (Hdesc : cstr m fmtdesc (map abbrev_t types)).

Lemma validate_argument_guards format i d p : wf_dspec d -> (ds_spec d = chr "s" -> wide d = false) ->
  0 <= parsed_index d i < Z.of_nat (length types) -> in_u 64 p -> ob_addr s p ->
  guards (exists t, types !! Z.to_nat (parsed_index d i) = Some t /\ expected_type d = Some t /\
      argument_ok M m buffer buf_size d p)
    (validate_argument s m fmtdesc (parsed format i d) p buffer buf_size) (Ret tt).
Proof using HM Hb Hsmall Hbuf Hdesc.
  intros Hw Hnarrow Hi Hp Ha. pose proof Hp as Hp'. unfold in_u in Hp'. unfold validate_argument, expected_type, argument_ok.
  change (fd_specifier (parsed format i d)) with (ds_spec d).
  change (fd_mod (parsed format i d)) with (len_mod (ds_len d)).
  change (fd_bytes (parsed format i d)) with (len_bytes (ds_len d)).
  assert (forall e, guards (types !! Z.to_nat (parsed_index d i) = Some e)
    (validate_format_type m (abbrev_t e) fmtdesc (parsed format i d)) (Ret tt)) as Htype.
  { intros e. by apply (validate_type_guards m e fmtdesc types (parsed format i d)). }
  assert (forall e, guards (exists t, types !! Z.to_nat (parsed_index d i) = Some t /\ Some e = Some t /\ True)
    (validate_format_type m (abbrev_t e) fmtdesc (parsed format i d)) (Ret tt)) as Htype1.
  { intros e. eapply guards_iff; [|apply (Htype e)]. naive_solver. }
  assert (forall c, c ∈ chars "diouxXfFeEgGaAc" -> (c =? chr "s") = false /\ (c =? chr "p") = false /\
    (c =? chr "n") = false) as Hc.
  { apply (in_list_check _ (fun c => (c =? chr "s") = false /\ (c =? chr "p") = false /\ (c =? chr "n") = false)).
    by vm_compute. }
  assert (forall l, forallb (fun c => bool_decide (c ∈ chars "diouxXfFeEgGaAc")) l = true ->
    ds_spec d ∈ l -> (ds_spec d =? chr "s") = false /\ (ds_spec d =? chr "p") = false /\
    (ds_spec d =? chr "n") = false) as Hsub.
  { intros l Hl Hin. apply Hc. by apply (in_list_check l (fun c => c ∈ chars "diouxXfFeEgGaAc") Hl). }
  case_bool_decide as H1; [|case_bool_decide as H2; [|case_bool_decide as H3]].
  - destruct (Hsub (chars "di") ltac:(by vm_compute) H1) as (-> & -> & ->).
    apply typed_guards; [apply infer_integral_spec|]. intros e _. eapply guards_iff; [|apply (Htype e)]. tauto.
  - destruct (Hsub (chars "ouxX") ltac:(by vm_compute) H2) as (-> & -> & ->).
    apply typed_guards; [apply infer_integral_spec|]. intros e _. eapply guards_iff; [|apply (Htype e)]. tauto.
  - destruct (Hsub (chars "fFeEgGaA") ltac:(by vm_compute) H3) as (-> & -> & ->).
    assert ((if len_mod (ds_len d) =? chr "L" then FLongDouble else FDouble) =
      match ds_len d with LL => FLongDouble | _ => FDouble end) as -> by (by destruct (ds_len d)).
    apply Htype1.
  - destruct (Z.eqb_spec (ds_spec d) (chr "c")) as [Ec|_].
    { rewrite Ec. change (chr "c" =? chr "s") with false. change (chr "c" =? chr "p") with false.
      change (chr "c" =? chr "n") with false. fold (wide d).
      apply (typed_guards (Some (if wide d then IUInt else IInt))); [by destruct (wide d)|].
      intros e _. eapply guards_iff; [|apply (Htype e)]. tauto. }
    destruct (Z.eqb_spec (ds_spec d) (chr "s")) as [Es|_].
    { fold (wide d). rewrite (Hnarrow Es). cbv zeta. cbn [obind].
      eapply guards_iff; [|apply guards_seq; [apply (Htype PChar)|intros _; by apply string_argument_guards]].
      naive_solver. }
    destruct (Z.eqb_spec (ds_spec d) (chr "p")) as [Ep|_].
    { eapply guards_iff; [|apply guards_seq; [apply (Htype PVoid)|intros _]].
      2: { instantiate (1 := within M p 1 /\ clear buffer buf_size p 1).
           destruct (ob_allocated_exact s M p 1 HM Hp Ha ltac:(lia)) as (r & -> & Hr). cbn [obind].
           destruct (i2b r); cbn [negb].
           - assert (within M p 1) as H by by apply Hr. pose proof (within_bounds s M HM _ _ H ltac:(lia)).
             eapply guards_iff; [|apply (clear_guards p 1); lia]. tauto.
           - right. split; [|done]. intros [H%Hr _]. done. }
      naive_solver. }
    destruct (Z.eqb_spec (ds_spec d) (chr "n")) as [En|_].
    { apply typed_guards; [apply infer_n_spec|]. intros e _.
      apply guards_seq; [apply (Htype e)|intros _].
      assert ((if len_bytes (ds_len d) =? 0 then 4 else len_bytes (ds_len d)) = count_size d) as ->
        by (unfold count_size; by destruct (ds_len d)).
      assert (0 < count_size d < 2 ^ 31) by (unfold count_size; by destruct (ds_len d)).
      destruct (ob_writeable_exact s M p (count_size d) HM Hp Ha ltac:(lia)) as (r & -> & Hr). cbn [obind].
      destruct (i2b r); cbn [negb].
      - assert (within_writable M p (count_size d)) as H' by by apply Hr.
        pose proof (within_bounds s M HM _ _ (writable_within M _ _ H') ltac:(lia)).
        eapply guards_iff; [|apply (clear_guards p (count_size d)); lia]. tauto.
      - right. split; [|done]. intros [H'%Hr _]. done. }
    right. split; [naive_solver|done].
Qed.
(** ** All directives *)

Context (args : list Z) (Hlen : length args = length types).
Context (Hargs : Forall (fun p => in_u 64 p /\ ob_addr s p) args).

Lemma parsed_index_nonneg d i : wf_dspec d -> 0 <= i -> 0 <= parsed_index d i.
Proof.
  intros Hw Hi. unfold parsed_index. destruct (starts_with_zero d); [lia|]. unfold argument_index.
  destruct (ds_arg d) as [ds|] eqn:E; [|done].
  destruct (wd_arg _ Hw ds E) as (H1 & H2 & _). destruct ds as [|d0 ds]; cbn in H2; [lia|].
  pose proof (numeral_pos 10 d0 ds ltac:(lia) H1 H2).
  pose proof (Z.pow_pos_nonneg 10 (Z.of_nat (length ds)) ltac:(lia) ltac:(lia)). lia.
Qed.

Lemma directive_guards {B} format i d (k o : outcome B) (Q : Prop) : wf_dspec d -> narrow (Dir d) -> 0 <= i ->
  guards Q k o ->
  guards (directive_ok M m types args buffer buf_size i d /\ Q)
    (let* _ := validate_applications full_map (parsed format i d) in
     let argno := fd_index (parsed format i d) in
     if Z.of_nat (length args) <=? argno then Abort
     else
       let* addr := if 0 <=? argno then deref (args !! Z.to_nat argno) else Fault in
       let* _ := validate_argument s m fmtdesc (parsed format i d) addr buffer buf_size in k) o.
Proof using HM Hb Hsmall Hbuf Hdesc Hlen Hargs.
  intros Hw Hn Hi HQ. unfold directive_ok. cbv zeta. change (fd_index (parsed format i d)) with (parsed_index d i).
  pose proof (parsed_index_nonneg d i Hw Hi) as Hidx.
  eapply guards_iff; [apply and_assoc|].
  apply guards_seq; [by apply applications_guards|]. intros _.
  destruct (Z.leb_spec (Z.of_nat (length args)) (parsed_index d i)) as [Hge|Hlt].
  { right. split; [|done]. intros [(t & p & _ & Ep & _) _]. apply lookup_lt_Some in Ep. lia. }
  rewrite (proj2 (Z.leb_le _ _)) by lia.
  destruct (lookup_lt_is_Some_2 args (Z.to_nat (parsed_index d i))) as [p Ep]; [lia|].
  rewrite Ep. cbn [deref obind]. rewrite Forall_lookup in Hargs. destruct (Hargs _ _ Ep) as [Hp Ha].
  apply guards_seq; [|done].
  eapply guards_iff; [|apply (validate_argument_guards format i d p Hw Hn ltac:(lia) Hp Ha)].
  split; [intros (t & ? & ? & ?); by exists t, p|intros (t & p' & ? & [= <-] & ? & ?); by exists t].
Qed.

Lemma validate_directives_guards format i prev items l k : Forall wf_item items -> Forall narrow items -> 0 <= i ->
  parse_items format i prev items = Some l ->
  guards (directives_ok M m types args buffer buf_size i items)
    (validate_directives s full_map m fmtdesc args buffer buf_size (array l (Datatypes.S k))) (Ret tt).
Proof using HM Hb Hsmall Hbuf Hdesc Hlen Hargs.
  intros Hw Hn. revert i prev l. induction Hw as [|x items Hx Hw IH]; intros i prev l Hi;
    cbn [parse_items directives_ok].
  { intros [= <-]. by left. }
  apply Forall_cons in Hn as [Hnx Hn]. destruct x as [c| |d]; [by apply IH|by apply IH|].
  destruct (kind_changes prev d); [done|]. intros (l' & E & ->)%fmap_Some.
  cbn [array map app validate_directives]. apply directive_guards; [done|done|done|].
  apply (IH Hn (i + 1) (Some (parsed format i d)) l'); [lia|exact E].
Qed.
End Arguments.

Lemma va_args_length n va args : va_args n va = Ret args -> length args = n.
Proof.
  revert va args. induction n as [|n IH]; intros va args; [destruct va; by intros [= <-]|].
  destruct va as [|v va]; [done|]. cbn [va_args]. intros E. obind_split. subst. cbn [length]. f_equal. by eapply IH.
Qed.

(** ** The whole check *)

(** A call: the items of the format, the types of the arguments and their values. *)
Record call_ok {S} `{OB : !Observers S, OBok : !ObserversOk S} (s : S) (M : amem) (m : mem)
  (items : list item) (types : list abbrev) (args : list Z) (va : list va_val) (fmt fmtdesc buffer buf_size : Z)
  : Prop := {
  co_items : Forall wf_item items /\ Forall narrow items;
  co_plain : Forall plain (directives_of items);
  co_format : tracked_string M m fmt (format_text items) /\ in_u 64 fmt /\ ob_addr s fmt /\ 0 < fmt;
  co_desc : cstr m fmtdesc (map abbrev_t types);
  co_args : va_args (length types) va = Ret args;
  co_addr : Forall (fun p => in_u 64 p /\ ob_addr s p) args;
  co_buffer : 0 <= buffer /\ 0 <= buf_size /\ buffer + buf_size < 2 ^ 64;
  co_small : (forall a ab, M !! a = Some ab -> ab_size ab < 2 ^ 31) /\ Z.of_nat (length types) < 2 ^ 31
}.

Lemma validate_format_guards {S} `{OB : !Observers S, OBok : !ObserversOk S} `{DRok : DirectiveRoomOk} (s : S) M m map items types args va
  fmt fmtdesc buffer buf_size :
  ob_models s M -> backed M m -> map_ok map ->
  call_ok s M m items types args va fmt fmtdesc buffer buf_size ->
  guards (valid_call M m types args buffer buf_size items)
    (validate_format s map m fmtdesc fmt va buffer buf_size) (Ret full_map).
Proof.
  intros HM Hb Hmap [[Hw Hn] Hpl (Hf & Hfmt & Hfa & Hf0) Hdesc Hva Haddr Hbuf [Hsmall Hty]].
  eapply guards_iff; [symmetry; apply (valid_call_parsed M m types args buffer buf_size fmt items); eapply Forall_impl; [exact Hpl|by intros d []]|].
  pose proof (va_args_length _ _ _ Hva) as Hlen. unfold validate_format.
  assert (valid_string s m fmt 0 = Ret (Z.of_nat (length (format_text items)))) as ->.
  { unfold valid_string. destruct (valid_nstring_spec s M m HM Hb fmt (-1) 0 Hfmt Hfa ltac:(lia)) as (r & E & _).
    rewrite E. destruct (allocated_string s M m HM Hb fmt Hfmt Hfa) as [(r' & E' & l & -> & Hl)|[E' Hno]].
    - unfold validate_allocated_string, validate_string in E'. rewrite E in E'. cbn [obind] in E'.
      destruct ((r =? -1) || (r =? -2) || (r =? -3) || (r =? -4)); [done|].
      destruct (0 <=? r); cbn in E'; [|done]. injection E' as ->.
      by rewrite (cstr_length_unique m fmt l (format_text items)) by (apply Hl || apply Hf).
    - exfalso. by apply (Hno (Z.of_nat (length (format_text items)))); exists (format_text items). }
  cbn [obind]. rewrite (proj2 (Z.ltb_ge _ 0)) by lia.
  assert (Z.of_nat (length (format_text items)) + 1 < 2 ^ 31) as Hflen.
  { destruct Hf as [_ Hin]. by apply (within_small M Hsmall) in Hin. }
  assert (percents (format_text items) <= length (format_text items))%nat by (unfold percents; apply length_filter).
  rewrite (get_format_directives_spec map m fmt items Hmap Hf0 Hw (proj1 Hf)) by lia.
  pose proof (directive_count_percents items). set (k := Datatypes.S (percents (format_text items))).
  destruct (parse_items fmt 0 None items) as [l|] eqn:Ep; cbn [parse_answer obind app].
  2: { right. split; [|done]. by intros [[l [=]] _]. }
  rewrite (strlen_cstr _ _ _ Hdesc). cbn [obind]. rewrite length_map, s32_small, Nat2Z.id by lia.
  rewrite Hva. cbn [obind].
  pose proof (release_directives_spec m fmt items None l Hf0 Hw (proj1 Hf) ltac:(lia) Ep) as Hrel. fold k in Hrel.
  rewrite Hrel. cbn [obind]. clear Hrel. rewrite (parse_items_length _ _ _ _ _ Ep).
  replace (k - directive_count items)%nat with (Datatypes.S (k - directive_count items - 1)) by lia.
  eapply guards_iff; [|apply (guards_seq (directives_ok M m types args buffer buf_size 0 items) True)].
  - split; [intros [Hok _]; split; [by exists l|done]|tauto].
  - by apply (validate_directives_guards s M m HM Hb buffer buf_size Hsmall Hbuf types fmtdesc Hdesc args Hlen Haddr
      fmt 0 None items l).
  - intros _. apply guards_true.
Qed.
