(* ===== verification/FormatTheorems.v ===== *)
(** * Properties of the validation of formats *)

From Stdlib Require Import String.
From S2P Require Import Prelude AMem Alloc Temporal Trie Bittree BtModel BtTrace CString Observers ObserversInst LibcString LibcStringSpec LibcStdlib LibcStdlibTheorems Digits LibcReplacements LibcReplacementsTheorems LibcReplacementsExact Printf Format FormatSpec FormatParse FormatValidate.

(** C40.  Round trip of the format parser: for the text of every sequence of characters
    and well-formed directives, [get_format_directives] makes exactly the directives that
    the text was written from, each with the index of its argument (the number of the
    directive less one or, if it has none, its position), in an array that is terminated
    by a null pointer, never overflows and is released as a whole, if either all
    directives are numbered or none is, and ends the program otherwise.  A directive has at
    most 14 characters, percent sign included, its numbers are in the range of [int], and,
    unless it is numbered, it does not start with the flag [0] (see
    [zero_flag_checks_first_argument] and [long_directive_overflows_text] for the other
    ones); the private allocator has room for the directives. *)
Theorem format_parse_roundtrip `{DRok : DirectiveRoomOk} (map : list Z) (m : mem) (fmt : Z) (items : list item) :
  map_ok map -> 0 < fmt -> Forall wf_item items -> Forall zero_later (directives_of items) ->
  cstr m fmt (format_text items) -> Z.of_nat (percents (format_text items)) < 2 ^ 31 - 1 ->
  let ds := directives_of items in
  (uniform ds -> exists k, let dirs := List.map Some (descriptions fmt 0 ds) ++ replicate (S k) None in
     get_format_directives map m fmt = Ret (dirs, full_map) /\ release_directives m fmt dirs = Ret []) /\
  (~ uniform ds -> get_format_directives map m fmt = Abort).
Proof.
  intros Hmap Hf Hw Hz Hs Hn. cbv zeta. rewrite (get_format_directives_spec map m fmt items Hmap Hf Hw Hs Hn).
  pose proof (parse_items_uniform fmt items Hz) as E. split; intros Hu.
  2: { rewrite decide_False in E by done. by rewrite E. }
  rewrite decide_True in E by done. rewrite E.
  pose proof (release_directives_spec m fmt items None _ Hf Hw Hs Hn E) as Hrel.
  apply parse_items_length in E. pose proof (directive_count_percents items).
  exists (percents (format_text items) - length (descriptions fmt 0 (directives_of items)))%nat.
  cbn [parse_answer obind app]. unfold array in *. by rewrite Nat.sub_succ_l in * by lia.
Qed.

(** A private allocator that never fails. *)
Definition ample_room : DirectiveRoom := {| array_room _ := true; directive_room _ := true |}.
Lemma ample_room_ok : @DirectiveRoomOk ample_room.
Proof. by constructor. Qed.
#[local] Existing Instance ample_room.
#[local] Existing Instance ample_room_ok.

(** "%d %-4s", and its types. *)
Definition demo_items : list item :=
  [Dir (mk_dspec None [] Absent Absent LNone (chr "d")); Lit 32;
   Dir (mk_dspec None [chr "-"] (Num [4]) Absent LNone (chr "s"))].
Definition demo_types : list abbrev := [IInt; PChar].
Definition demo_format_app : mem :=
  write (write demo_app 65536 (format_text demo_items ++ [0])) 4096 (List.map abbrev_t demo_types ++ [0]).

Ltac closed_elem := apply (bool_decide_unpack _); vm_compute; exact I.

Lemma demo_items_wf : Forall wf_item demo_items.
Proof.
  apply Forall_cons. split; [|apply Forall_cons; split; [|apply Forall_singleton]]; cbn [wf_item].
  - constructor; cbn [ds_arg ds_flags ds_width ds_prec ds_spec]; try discriminate.
    + split; constructor.
    + closed_elem.
    + cbn. lia.
  - split; [lia|discriminate].
  - constructor; cbn [ds_arg ds_flags ds_width ds_prec ds_spec]; try discriminate.
    + split; [apply NoDup_singleton|]. apply Forall_singleton. closed_elem.
    + intros ds [= <-]. split; [repeat constructor; lia|]. split; [cbn; lia|reflexivity].
    + closed_elem.
    + cbn. lia.
Qed.

Lemma demo_format_cstr : cstr demo_format_app 65536 (format_text demo_items).
Proof. apply cstr_check; vm_compute; reflexivity. Qed.

Lemma demo_items_later : Forall zero_later (directives_of demo_items).
Proof. repeat constructor; discriminate. Qed.

Lemma format_parse_roundtrip_witness :
  exists k, let dirs := List.map Some
      [description 65536 0 (mk_dspec None [] Absent Absent LNone (chr "d"));
       description 65536 1 (mk_dspec None [chr "-"] (Num [4]) Absent LNone (chr "s"))] ++ replicate (S k) None in
    get_format_directives zero_map demo_format_app 65536 = Ret (dirs, full_map) /\
    release_directives demo_format_app 65536 dirs = Ret [].
Proof.
  apply (format_parse_roundtrip zero_map demo_format_app 65536 demo_items (or_introl eq_refl) eq_refl
    demo_items_wf demo_items_later demo_format_cstr eq_refl). right. repeat constructor.
Defined.

(** C16.  [validate_format] accepts exactly the valid calls: it returns if numbered
    directives and others are not mixed and every directive has flags, precision,
    width and length modifier that apply to its conversion, an argument of the type
    that it expects, and, where the argument is a pointer, memory that the call may
    read or write and that is apart from the output buffer; and ends the program
    otherwise.  This is about the calls of [call_ok]: the format is a tracked string of
    ordinary characters and well-formed directives of at most 14 characters, none of which
    has the field width or precision [*], is a [%ls] or, without a number, starts with
    the flag [0]; the arguments, fewer than 2^31, are integers and pointers of the models,
    none of type [double], as many as their types; blocks are smaller than 2^31 bytes, and
    the private allocator has room for the directives.  For other calls see the end of the file: some are undefined behaviour of the check. *)
Theorem validate_format_exact {S : Type} `{OB : !Observers S, OBok : !ObserversOk S} `{DRok : DirectiveRoomOk}
  (s : S) (M : amem) (m : mem) (map : list Z) (items : list item) (types : list abbrev) (args : list Z)
  (va : list va_val) (fmt fmtdesc buffer buf_size : Z) :
  ob_models s M -> backed M m -> map_ok map ->
  call_ok s M m items types args va fmt fmtdesc buffer buf_size ->
  guards (valid_call M m types args buffer buf_size items)
    (validate_format s map m fmtdesc fmt va buffer buf_size) (Ret full_map).
Proof. apply validate_format_guards. Qed.

Lemma demo_format_backed : backed demo_mem demo_format_app.
Proof. apply backed_check; vm_compute; reflexivity. Qed.

#[local] Existing Instance trie_observers_ok.

Lemma demo_call buffer size : 0 <= buffer -> 0 <= size -> buffer + size < 2 ^ 64 ->
  @call_ok heap (trie_observers default_config) (trie_observers_ok default_config)
  demo_heap demo_mem demo_format_app demo_items demo_types [5; 8192] [V32 5; V64 8192] 65536 4096 buffer size.
Proof.
  intros Hb Hs Hbs. constructor.
  - split; [apply demo_items_wf|]. repeat constructor; done.
  - repeat constructor; discriminate.
  - split; [|split; [split; lia|split; [apply I|lia]]]. split; [apply demo_format_cstr|].
    exists 65536, (mk_ablock 32 ∅ false true). split; [split; [reflexivity|left; simpl; lia]|vm_compute; congruence].
  - apply cstr_check; vm_compute; reflexivity.
  - reflexivity.
  - repeat (apply Forall_cons; split; [split; [split; reflexivity || discriminate|exact I]|]). apply Forall_nil. exact I.
  - lia.
  - split; [|done].
    assert (map_Forall (fun _ ab => ab_size ab < 2 ^ 31) demo_mem) as H
      by (apply (bool_decide_unpack _); vm_compute; exact I).
    exact H.
Qed.

Lemma demo_valid buffer size : clear buffer size 8192 5 ->
  valid_call demo_mem demo_format_app demo_types [5; 8192] buffer size demo_items.
Proof.
  intros Hc. split; [right; repeat constructor|]. intros [|[|k]] d E; [injection E as <-..|done].
  - split; [constructor; try (intros H; exfalso; revert H); cbn; set_solver|].
    exists IInt, 5. repeat split.
  - split; [constructor; cbn; first [set_solver | discriminate | done]|].
    exists PChar, 8192. split; [reflexivity|]. split; [reflexivity|]. split; [reflexivity|].
    exists [104; 101; 108; 108; 111]. split; [|exact Hc]. split; [apply cstr_check; vm_compute; reflexivity|].
    exists 8192, (mk_ablock 6 (all_offsets 6) true false).
    split; [split; [reflexivity|left; simpl; lia]|simpl; lia].
Qed.

Lemma validate_format_exact_witness :
  @validate_format heap (trie_observers default_config) ample_room demo_heap zero_map demo_format_app 4096 65536
    [V32 5; V64 8192] 0 0 = Ret full_map.
Proof.
  destruct (@validate_format_exact heap (trie_observers default_config) (trie_observers_ok default_config) ample_room ample_room_ok
    demo_heap demo_mem demo_format_app zero_map demo_items demo_types [5; 8192] [V32 5; V64 8192] 65536 4096 0 0
    demo_models demo_format_backed (or_introl eq_refl) (demo_call 0 0 ltac:(lia) ltac:(lia) ltac:(lia)))
    as [[_ E]|[Hno _]]; [exact E|].
  exfalso. apply Hno. apply demo_valid. by left.
Defined.

(** ** The functions of the printf family *)

Lemma guards_then {A B} (P : Prop) (c : outcome A) (a : A) (k : A -> outcome B) :
  guards P c (Ret a) -> guards P (obind c k) (k a).
Proof. intros [[HP ->]|[HP ->]]; [by left|by right]. Qed.

Lemma guards_test {B} (b : bool) (P Q : Prop) (k o : outcome B) : (b = false <-> P) ->
  (P -> guards Q k o) -> guards (P /\ Q) (if b then Abort else k) o.
Proof.
  intros Hb HQ. destruct b.
  - right. split; [|done]. intros [HP _]. by apply Hb in HP.
  - assert (P) as HP by by apply Hb. destruct (HQ HP) as [[H ->]|[H ->]]; [left|right]; tauto.
Qed.

Lemma guards_trans {B} (P Q : Prop) (o1 o2 o3 : outcome B) :
  guards P o1 o2 -> (P -> guards Q o2 o3) -> guards (Q /\ P) o1 o3.
Proof. intros [[HP ->]|[HP ->]] HQ; [|right; tauto]. destruct (HQ HP) as [[H ->]|[H ->]]; [left|right]; tauto. Qed.

Section Family.
Context {S : Type} `{OB : !Observers S, OBok : !ObserversOk S} `{DRok : DirectiveRoomOk} (s : S) (M : amem) (m : mem) (map : list Z).
Context (HM : ob_models s M) (Hb : backed M m) (Hmap : map_ok map).
Context (items : list item) (types : list abbrev) (args : list Z) (va : list va_val) (fmt fmtdesc : Z).
Context (R : Type) (ret : list Z -> outcome R).

Lemma validate_then {B} buffer buf_size (k : list Z -> outcome B) :
  call_ok s M m items types args va fmt fmtdesc buffer buf_size ->
  guards (valid_call M m types args buffer buf_size items)
    (obind (validate_format s map m fmtdesc fmt va buffer buf_size) k) (k full_map).
Proof using HM Hb Hmap DRok. intros Hc. by apply guards_then, validate_format_guards. Qed.

Lemma allocated_test {B} p (Q : Prop) (k o : outcome B) : in_u 64 p -> ob_addr s p ->
  guards Q k o -> guards (within M p 1 /\ Q)
    (let* a := ob_allocated s p 1 p in if negb (i2b a) then Abort else k) o.
Proof using HM.
  intros Hp Ha HQ. destruct (ob_allocated_exact s M p 1 HM Hp Ha ltac:(lia)) as (r & -> & Hr). cbn [obind].
  apply guards_test; [|done]. by rewrite negb_false_iff.
Qed.

Lemma writeable_test {B} p n (Q : Prop) (k o : outcome B) : in_u 64 p -> ob_addr s p -> 0 < n < 2 ^ 63 ->
  guards Q k o -> guards (within_writable M p n /\ Q)
    (let* a := ob_writeable s p n p in if negb (i2b a) then Abort else k) o.
Proof using HM.
  intros Hp Ha Hn HQ. destruct (ob_writeable_exact s M p n HM Hp Ha Hn) as (r & -> & Hr). cbn [obind].
  apply guards_test; [|done]. by rewrite negb_false_iff.
Qed.
End Family.

(** C15.  The checked functions of the printf family run the plain function exactly on
    the calls whose format and arguments are valid, whose stream or file descriptor is
    open, and whose output buffer is writable and large enough; they end the program on
    the other ones of the calls that [call_ok] describes (see [validate_format_exact]):
    a tracked format of well-formed directives of at most 14 characters, none with a
    [*], a [%ls] or, without a number, the flag [0] at its start, integer and pointer
    arguments, blocks below 2^31 bytes, room for the directives.  For [sprintf] moreover the formatting that
    computes the length of the output, before the format is checked, returns one that
    is less than 2^31 - 1. *)
Theorem printf_family_exact {S R : Type} `{OB : !Observers S, OBok : !ObserversOk S} `{DRok : DirectiveRoomOk}
  (s : S) (M : amem) (m : mem) (map : list Z) (items : list item) (types : list abbrev) (args : list Z)
  (va : list va_val) (fmt fmtdesc : Z)
  (vprintf : mem -> Z -> list va_val -> outcome R)
  (vfprintf vdprintf vsprintf vsyslog : mem -> Z -> Z -> list va_val -> outcome R)
  (vsnprintf : mem -> Z -> Z -> Z -> list va_val -> outcome R)
  (vsnprintf_length : mem -> Z -> list va_val -> outcome Z) (fileno fcntl_getfd : Z -> Z) :
  ob_models s M -> backed M m -> map_ok map ->
  (call_ok s M m items types args va fmt fmtdesc NULL 0 ->
    guards (valid_call M m types args NULL 0 items)
      (builtin_printf s R vprintf map m fmtdesc fmt va)
      (let* r := vprintf m fmt va in Ret (r, full_map)) /\
    (forall priority, guards (valid_call M m types args NULL 0 items)
      (builtin_syslog s R vsyslog map m fmtdesc priority fmt va)
      (let* r := vsyslog m priority fmt va in Ret (r, full_map))) /\
    (forall fd, guards (fcntl_getfd fd <> -1 /\ valid_call M m types args NULL 0 items)
      (builtin_dprintf s R vdprintf fcntl_getfd map m fmtdesc fd fmt va)
      (let* r := vdprintf m fd fmt va in Ret (r, full_map))) /\
    (forall stream, in_u 64 stream -> ob_addr s stream ->
      guards (within M stream 1 /\ fileno stream <> -1 /\ fcntl_getfd (fileno stream) <> -1 /\
          valid_call M m types args NULL 0 items)
        (builtin_fprintf s R vfprintf fileno fcntl_getfd map m fmtdesc stream fmt va)
        (let* r := vfprintf m stream fmt va in Ret (r, full_map)))) /\
  (forall buffer size, in_u 64 buffer -> ob_addr s buffer -> 0 <= size < 2 ^ 63 ->
    call_ok s M m items types args va fmt fmtdesc buffer size ->
    guards ((0 < size -> within_writable M buffer size) /\ valid_call M m types args buffer size items)
      (builtin_snprintf s R vsnprintf map m fmtdesc buffer size fmt va)
      (let* r := vsnprintf m buffer size fmt va in Ret (r, full_map))) /\
  (forall buffer len, in_u 64 buffer -> ob_addr s buffer -> 0 <= len < 2 ^ 31 - 1 ->
    vsnprintf_length m fmt va = Ret len ->
    call_ok s M m items types args va fmt fmtdesc buffer (len + 1) ->
    guards (within_writable M buffer (len + 1) /\ valid_call M m types args buffer (len + 1) items)
      (builtin_sprintf s R vsprintf vsnprintf_length map m fmtdesc buffer fmt va)
      (let* r := vsprintf m buffer fmt va in Ret (r, full_map))).
Proof.
  intros HM Hb Hmap. split; [intros Hc; split; [|split; [|split]]|split].
  - unfold builtin_printf. by apply (validate_then s M m map HM Hb Hmap).
  - intros priority. unfold builtin_syslog. by apply (validate_then s M m map HM Hb Hmap).
  - intros fd. unfold builtin_dprintf. apply guards_test; [apply Z.eqb_neq|intros _].
    by apply (validate_then s M m map HM Hb Hmap).
  - intros stream Hs Ha. unfold builtin_fprintf. apply (allocated_test s M HM); [done|done|].
    apply guards_test; [apply Z.eqb_neq|intros _]. apply guards_test; [apply Z.eqb_neq|intros _].
    by apply (validate_then s M m map HM Hb Hmap).
  - intros buffer size Hbu Ha Hsz Hc. unfold builtin_snprintf.
    eapply guards_trans; [by apply (validate_then s M m map HM Hb Hmap)|intros _].
    destruct (Z.ltb_spec 0 size) as [Hpos|Hzero]; cbn [andb obind].
    + eapply guards_iff; [|apply (writeable_test s M HM _ _ True); [done|done|lia|apply guards_true]]. tauto.
    + left. split; [lia|done].
  - intros buffer len Hbu Ha Hlen Hv Hc. unfold builtin_sprintf. rewrite Hv. cbn [obind].
    rewrite int_range_ok by lia. cbn [obind]. rewrite u64_small by (unfold in_u; lia).
    apply (writeable_test s M HM); [done|done|lia|]. by apply (validate_then s M m map HM Hb Hmap).
Qed.

(** [printf] and [sprintf] of "%d %-4s" for 5 and "hello": seven characters, for a buffer
    in the block of 16 bytes. *)
Lemma printf_family_exact_witness :
  @builtin_printf heap (trie_observers default_config) ample_room demo_heap Z (fun _ _ _ => Ret 7) zero_map demo_format_app
    4096 65536 [V32 5; V64 8192] = Ret (7, full_map) /\
  @builtin_sprintf heap (trie_observers default_config) ample_room demo_heap Z (fun _ _ _ _ => Ret 7) (fun _ _ _ => Ret 7)
    zero_map demo_format_app 4096 4104 65536 [V32 5; V64 8192] = Ret (7, full_map).
Proof.
  destruct (@printf_family_exact heap Z (trie_observers default_config) (trie_observers_ok default_config) ample_room ample_room_ok
    demo_heap demo_mem demo_format_app zero_map demo_items demo_types [5; 8192] [V32 5; V64 8192] 65536 4096
    (fun _ _ _ => Ret 7) (fun _ _ _ _ => Ret 7) (fun _ _ _ _ => Ret 7) (fun _ _ _ _ => Ret 7)
    (fun _ _ _ _ => Ret 7) (fun _ _ _ _ _ => Ret 7) (fun _ _ _ => Ret 7) (fun _ => 1) (fun _ => 0)
    demo_models demo_format_backed (or_introl eq_refl)) as (Hp & _ & Hs).
  split.
  - destruct (Hp (demo_call 0 0 ltac:(lia) ltac:(lia) ltac:(lia))) as ([[_ E]|[Hno _]] & _); [exact E|].
    exfalso. apply Hno. apply demo_valid. by left.
  - destruct (Hs 4104 7 ltac:(split; lia) I ltac:(lia) eq_refl (demo_call 4104 8 ltac:(lia) ltac:(lia) ltac:(lia)))
      as [[_ E]|[Hno _]]; [exact E|].
    exfalso. apply Hno. split; [|apply demo_valid; right; red; lia].
    exists 4096, (mk_ablock 16 (offsets 0 4) false false).
    split; [split; [reflexivity|left; simpl; lia]|split; [simpl; lia|reflexivity]].
Defined.

(** ** What the parser gets wrong *)

(** The check of a call, on the heap of the examples, with a format at [65536] and the
    types of the arguments at [4096]. *)
Definition demo_check (format types : list Z) (va : list va_val) : outcome (list Z) :=
  @validate_format heap (trie_observers default_config) ample_room demo_heap zero_map
    (write (write demo_app 65536 (format ++ [0])) 4096 (types ++ [0])) 4096 65536 va 0 0.

(** "%d %05d": a directive that starts with the flag 0 is checked against the first
    argument, so that a second argument of a wrong type is accepted, and refused where
    the first one has another type; and it may be mixed with numbered ones. *)
Theorem zero_flag_checks_first_argument :
  demo_check (chars "%d %05d") (chars "dD") [V32 1; V32 2] = Ret full_map /\
  demo_check (chars "%s %05d") (chars "sd") [V64 8192; V32 2] = Abort /\
  demo_check (chars "%1$d %05d") (chars "d") [V32 1] = Ret full_map.
Proof. repeat split; vm_compute; reflexivity. Qed.

(** "%*s": the argument of the field width is not counted, so that it is taken for the
    argument of the conversion: a valid call is refused, and one with a string for an
    integer accepted.  "%2$*1$d", the example of the comment on argument numbers, is
    refused. *)
Theorem star_argument_not_counted :
  demo_check (chars "%*s") (chars "ds") [V32 5; V64 8192] = Abort /\
  demo_check (chars "%*d") (chars "ds") [V32 5; V64 8192] = Ret full_map /\
  demo_check (chars "%2$*1$d") (chars "dd") [V32 5; V32 6] = Abort.
Proof. repeat split; vm_compute; reflexivity. Qed.

(** "%$d": an empty argument number is an index of -1, outside of the arguments. *)
Theorem empty_argument_number_out_of_bounds : demo_check (chars "%$d") (chars "d") [V32 1] = Fault.
Proof. vm_compute. reflexivity. Qed.

(** "%-+ #0'1111.1ld": the terminator of the message text goes one byte past the end of the
    directive's buffer if the directive has 15 characters. *)
Theorem long_directive_overflows_text :
  demo_check (chars "%-+ #0'1111.1ld") (chars "l") [V64 1] = Fault.
Proof. vm_compute. reflexivity. Qed.

(** "%5": a format that ends within a directive is read past its terminator. *)
Theorem unfinished_directive_read_past_end :
  @get_format_directives ample_room zero_map (write ∅ 65536 (chars "%5" ++ [0])) 65536 = Fault.
Proof. vm_compute. reflexivity. Qed.

(** "%f": the argument of a conversion of floating-point numbers is fetched as a pointer. *)
Theorem double_fetched_as_pointer :
  demo_check (chars "%f") (chars "e") [VDouble (SpecFloat.S754_zero false)] = Fault.
Proof. vm_compute. reflexivity. Qed.

(** The results of the private allocator are not tested: without room for the array, or
    for the first directive, the code stores through a null pointer. *)
Theorem no_room_for_directives `{DR : !DirectiveRoom} :
  (array_room 2 = false -> get_format_directives zero_map (write ∅ 65536 (chars "%d" ++ [0])) 65536 = Fault) /\
  (directive_room 0 = false -> get_format_directives zero_map (write ∅ 65536 (chars "%d" ++ [0])) 65536 = Fault).
Proof.
  assert (charcount (steps (write ∅ 65536 (chars "%d" ++ [0]))) (write ∅ 65536 (chars "%d" ++ [0])) 65536 (chr "%") = Ret 1) as E
    by (vm_compute; reflexivity).
  unfold get_format_directives. rewrite E. cbn [obind]. rewrite int_range_ok by lia. cbn [obind].
  change (1 + 1) with 2. split; intros Hr.
  - by rewrite Hr.
  - destruct (array_room 2); [|done]. cbn [stores obind].
    assert (load8 (write ∅ 65536 (chars "%d" ++ [0])) 65536 = Ret (chr "%")) as E0 by (vm_compute; reflexivity).
    assert (load8 (write ∅ 65536 (chars "%d" ++ [0])) (65536 + 1) = Ret (chr "d")) as E1 by (vm_compute; reflexivity).
    destruct (steps (write ∅ 65536 (chars "%d" ++ [0]))) as [|k] eqn:Es; [discriminate Es|]. cbn [directives_loop].
    rewrite E0. cbn [obind]. change (negb (chr "%" =? 0)) with true. rewrite Z.eqb_refl. cbv iota.
    rewrite E1. cbn [obind]. change (chr "d" =? chr "%") with false. cbv iota. by rewrite Hr.
Qed.

(** [sprintf] formats the arguments before it validates the format. *)
Theorem sprintf_formats_before_check {S R} `{OB : !Observers S} `{DR : !DirectiveRoom} (s : S) vsprintf vsnprintf_length map m
  fmtdesc buffer fmt va :
  vsnprintf_length m fmt va = Fault ->
  builtin_sprintf s R vsprintf vsnprintf_length map m fmtdesc buffer fmt va = Fault.
Proof. intros E. unfold builtin_sprintf. by rewrite E. Qed.

(** A character that is not ASCII after a percent sign is a negative index into the
    table of character classes. *)
Theorem non_ascii_index_out_of_bounds :
  @get_format_directives ample_room zero_map (write ∅ 65536 (chars "%" ++ [233; 0])) 65536 = Fault.
Proof. vm_compute. reflexivity. Qed.
