(* ===== verification/ApiContracts.v ===== *)
(** * The contracts of e_acsl.h

    The header e_acsl.h gives the entry points of the run-time library contracts
    in ACSL, over the memory that the memory models track.  This file holds the
    built-ins that the contracts are written with, the contracts of the queries,
    and the proofs that both memory models meet them, on which domain, and where
    they do not. *)

From S2P Require Import Prelude AMem Alloc Temporal Trie Bittree BittreeRep BtModel BtSpec BtRefine BtHeap BtTrace BtTheorems Shadow Segment SegModel SegStatic SegHeap SegTrace SegTheorems Agree LibcStdlib LibcContracts Observers.

(** ** The built-ins of the logic *)

Definition readable_block (ab : ablock) : bool := true.
Definition writable_block (ab : ablock) : bool := negb (ab_readonly ab).

(** The byte [q] is in a block with [ok]. *)
Definition byte_in (ok : Z -> ablock -> bool) (M : amem) (q : Z) : bool :=
  bool_decide (map_Exists (fun a ab => a <= q < a + ab_size ab /\ ok a ab = true) M).

Definition all_bytes (P : Z -> bool) (p n : Z) : bool := forallb P (seqZ p n).

(** [\valid(p+(0..n-1))] and [\valid_read(p+(0..n-1))], of characters. *)
Definition valid_range (access : ablock -> bool) (M : amem) (p n : Z) : bool :=
  all_bytes (byte_in (fun _ => access) M) p n.

(** [\initialized(p+(0..n-1))]. *)
Definition initialized_range (M : amem) (p n : Z) : bool :=
  all_bytes (fun q => byte_in (fun a ab => bool_decide (q - a ∈ ab_init ab)) M q) p n.

(** The block of [p], which [\base_addr], [\block_length] and [\offset] speak of. *)
Definition block_at (M : amem) (p : Z) : option (Z * ablock) :=
  snd <$> list_find (fun b => covers b.1 (ab_size b.2) p) (map_to_list M).

(** [\separated(p+(0..n-1), \base_addr(b)+(0..\block_length(b)-1))]. *)
Definition separated_from (M : amem) (p n b : Z) : bool :=
  match block_at M b with
  | Some (a, ab) => all_bytes (fun q => negb ((a <=? q) && (q <? a + ab_size ab))) p n
  | None => true
  end.

(** ** The contracts

    [\base_addr(p)] has a value for an address of a block; the contracts that use
    it are read there. *)

Definition in_block (M : amem) (p : Z) : bool := if block_at M p then true else false.

(** [valid] and [valid_read]: a range and a base. *)
Definition validity_contract (access : ablock -> bool) (M : amem) : fcontract (Z * Z * Z) Z := {|
  fc_requires := fun '(p, n, b) => in_block M b;
  fc_ensures _ _ := true;
  fc_behaviors :=
    [mk_behavior (fun '(p, n, b) => valid_range access M p n && ((n <=? 0) || negb (separated_from M p n b)))
       (fun _ r => r =? 1);
     mk_behavior (fun '(p, n, b) => negb (valid_range access M p n)) (fun _ r => r =? 0);
     mk_behavior (fun '(p, n, b) => (0 <? n) && separated_from M p n b) (fun _ r => r =? 0)];
  fc_complete := true
|}.

Definition valid_contract : amem -> fcontract (Z * Z * Z) Z := validity_contract writable_block.
Definition valid_read_contract : amem -> fcontract (Z * Z * Z) Z := validity_contract readable_block.

Definition initialized_contract (M : amem) : fcontract (Z * Z) Z := {|
  fc_requires _ := true;
  fc_ensures _ _ := true;
  fc_behaviors :=
    [mk_behavior (fun '(p, n) => initialized_range M p n) (fun _ r => r =? 1);
     mk_behavior (fun '(p, n) => negb (initialized_range M p n)) (fun _ r => r =? 0)];
  fc_complete := true
|}.

(** [base_addr], [block_length] and [offset]: the result is the built-in. *)
Definition block_contract (v : Z -> Z -> ablock -> Z) (M : amem) : fcontract Z Z := {|
  fc_requires := in_block M;
  fc_ensures p r := match block_at M p with Some (a, ab) => r =? v p a ab | None => true end;
  fc_behaviors := [];
  fc_complete := false
|}.
Definition base_addr_contract : amem -> fcontract Z Z := block_contract (fun _ a _ => a).
Definition block_length_contract : amem -> fcontract Z Z := block_contract (fun _ _ ab => ab_size ab).
Definition offset_contract : amem -> fcontract Z Z := block_contract (fun p a _ => p - a).

(** [store_block] and [store_block_duplicate]: [\result == ptr]. *)
Definition store_block_contract : fcontract (Z * Z) Z := {|
  fc_requires _ := true;
  fc_ensures '(p, _) r := r =? p;
  fc_behaviors := [];
  fc_complete := false
|}.

(** A function meets a contract at one argument. *)
Definition fulfils_at {A R : Type} (f : A -> outcome R) (c : fcontract A R) (a : A) : Prop :=
  fc_requires c a = true -> returns_allowed f c a = true.

(** ** The entry points of a memory model, in one of its states *)

Record entry_points : Type := mk_entry_points {
  ep_valid : Z -> Z -> Z -> Z -> outcome Z;
  ep_valid_read : Z -> Z -> Z -> Z -> outcome Z;
  ep_initialized : Z -> Z -> outcome Z;
  ep_base_addr : Z -> outcome Z;
  ep_block_length : Z -> outcome Z;
  ep_offset : Z -> outcome Z
}.

Definition trie_entry_points (cfg : config) (h : heap) : entry_points := {|
  ep_valid := BtModel.valid cfg h;
  ep_valid_read := BtModel.valid_read cfg h;
  ep_initialized := BtModel.initialized cfg h;
  ep_base_addr := BtModel.base_addr cfg h;
  ep_block_length := BtModel.block_length cfg h;
  ep_offset := BtModel.offset cfg h
|}.

Definition shadow_entry_points `{PB : !PublicAlloc} (cfg : config) (st : SegModel.state) : entry_points := {|
  ep_valid := SegModel.valid cfg st;
  ep_valid_read := SegModel.valid_read cfg st;
  ep_initialized := SegModel.initialized cfg st;
  ep_base_addr := SegModel.base_addr cfg st;
  ep_block_length := SegModel.block_length cfg st;
  ep_offset := SegModel.offset cfg st
|}.

(** The validity queries meet their contracts on the range of [n] bytes at [x] with
    the base [base], the other queries on that range and at [x]. *)
Definition validity_contracts (E : entry_points) (M : amem) (x n base addrof : Z) : Prop :=
  fulfils_at (fun '(p, n, b) => ep_valid E p n b addrof) (valid_contract M) (x, n, base) /\
  fulfils_at (fun '(p, n, b) => ep_valid_read E p n b addrof) (valid_read_contract M) (x, n, base).
Definition block_contracts (E : entry_points) (M : amem) (x : Z) : Prop :=
  fulfils_at (ep_base_addr E) (base_addr_contract M) x /\
  fulfils_at (ep_block_length E) (block_length_contract M) x /\
  fulfils_at (ep_offset E) (offset_contract M) x.
Definition initialized_meets (E : entry_points) (M : amem) (x n : Z) : Prop :=
  fulfils_at (fun '(p, n) => ep_initialized E p n) (initialized_contract M) (x, n).

(** The block of [x] is not followed by another in the range of [n] bytes. *)
Definition one_block (M : amem) (x n : Z) : Prop :=
  forall a ab, contains M x a ab ->
    x + n <= a + ab_size ab \/ byte_in (fun _ => readable_block) M (a + ab_size ab) = false.

(** ** Lemmas on the built-ins *)

Lemma byte_in_iff ok M q :
  byte_in ok M q = true <-> exists a ab, M !! a = Some ab /\ a <= q < a + ab_size ab /\ ok a ab = true.
Proof. unfold byte_in. rewrite bool_decide_eq_true. unfold map_Exists. naive_solver. Qed.

Lemma all_bytes_iff P p n : all_bytes P p n = true <-> forall q, p <= q < p + n -> P q = true.
Proof.
  unfold all_bytes. rewrite forallb_forall. setoid_rewrite <- list_elem_of_In.
  setoid_rewrite elem_of_seqZ. done.
Qed.

Lemma all_bytes_false P p n :
  all_bytes (fun q => negb (P q)) p n = false <-> exists q, p <= q < p + n /\ P q = true.
Proof.
  split.
  - intros H. destruct (existsb P (seqZ p n)) eqn:E.
    + apply existsb_exists in E as (q & Hq%list_elem_of_In%elem_of_seqZ & HP). by exists q.
    + exfalso. assert (all_bytes (fun q => negb (P q)) p n = true); [|congruence].
      apply all_bytes_iff. intros q Hq. destruct (P q) eqn:EP; [|done].
      assert (existsb P (seqZ p n) = true); [|congruence].
      apply existsb_exists. exists q. by rewrite <- list_elem_of_In, elem_of_seqZ.
  - intros (q & Hq & HP). apply not_true_is_false. intros H.
    pose proof (proj1 (all_bytes_iff _ _ _) H q Hq) as Hq'. cbn in Hq'. by rewrite HP in Hq'.
Qed.

(** A byte in a block, and a block that contains the byte. *)
Lemma covers_byte a sz q : a <= q < a + sz -> covers a sz q.
Proof. unfold covers. lia. Qed.
Lemma covers_range a sz p n : covers a sz p -> 0 < n -> p + n <= a + sz -> a <= p.
Proof. unfold covers. lia. Qed.

Section Unique.
Context (M : amem).
Context (Hu : forall p a ab a' ab', contains M p a ab -> contains M p a' ab' -> a = a' /\ ab = ab').

Lemma block_at_contains p a ab : block_at M p = Some (a, ab) <-> contains M p a ab.
Proof using Hu.
  unfold block_at. split.
  - destruct (list_find _ _) as [[i [a' ab']]|] eqn:E; [|done]. intros [= -> ->].
    apply list_find_Some in E as (E & Hc & _). split; [|exact Hc].
    apply elem_of_map_to_list. by eapply list_elem_of_lookup_2.
  - intros Hin. destruct Hin as [El Hc] eqn:Eh. clear Eh. pose proof El as Hm.
    apply elem_of_map_to_list in Hm.
    destruct (list_find_elem_of (fun b => covers b.1 (ab_size b.2) p) _ _ Hm Hc) as [[i [a' ab']] E].
    rewrite E. cbn. apply list_find_Some in E as (E & Hc' & _).
    assert (contains M p a' ab') as Hin'.
    { split; [|exact Hc']. apply elem_of_map_to_list. by eapply list_elem_of_lookup_2. }
    by destruct (Hu _ _ _ _ _ Hin Hin') as [-> ->].
Qed.

Lemma in_block_contains p : in_block M p = true -> exists a ab, contains M p a ab.
Proof using Hu.
  unfold in_block. destruct (block_at M p) as [[a ab]|] eqn:E; [|done].
  intros _. exists a, ab. by apply block_at_contains.
Qed.

Lemma separated_from_false p n b a ab : contains M b a ab ->
  separated_from M p n b = false <-> exists q, p <= q < p + n /\ a <= q < a + ab_size ab.
Proof using Hu.
  intros Hb%block_at_contains. unfold separated_from. rewrite Hb.
  rewrite (all_bytes_false (fun q => (a <=? q) && (q <? a + ab_size ab))).
  setoid_rewrite andb_true_iff. setoid_rewrite Z.leb_le. setoid_rewrite Z.ltb_lt. done.
Qed.

(** A valid range that does not run into a next block is in one block. *)
Lemma valid_range_within access p n : 0 < n -> one_block M p n ->
  valid_range access M p n = true ->
  exists a ab, contains M p a ab /\ a <= p /\ p + n <= a + ab_size ab /\ access ab = true.
Proof using Hu.
  intros Hn H1 Hv. pose proof (proj1 (all_bytes_iff _ _ _) Hv) as Hall.
  destruct (proj1 (byte_in_iff _ _ _) (Hall p ltac:(lia))) as (a & ab & E & Hp & Hacc).
  exists a, ab. assert (contains M p a ab) as Hc by (split; [done|by apply covers_byte]).
  split_and!; [done|lia| |done]. destruct (H1 a ab Hc) as [|Hno]; [done|].
  destruct (Z.le_gt_cases (p + n) (a + ab_size ab)); [done|].
  destruct (proj1 (byte_in_iff _ _ _) (Hall (a + ab_size ab) ltac:(lia))) as (a' & ab' & E' & Hq & _).
  assert (byte_in (fun _ => readable_block) M (a + ab_size ab) = true); [|congruence].
  apply byte_in_iff. by exists a', ab'.
Qed.

Lemma within_valid_range access p n a ab : M !! a = Some ab -> a <= p -> p + n <= a + ab_size ab ->
  access ab = true -> valid_range access M p n = true.
Proof.
  intros E Hp Hle Hacc. apply all_bytes_iff. intros q Hq. apply byte_in_iff.
  exists a, ab. split; [done|]. split; [lia|done].
Qed.

(** The answer 1 exactly when the range is in the block of the base. *)
Definition same_block_answer (access : ablock -> bool) (p n b r : Z) : Prop :=
  (r = 0 \/ r = 1) /\
  (r = 1 <-> exists a ab, contains M p a ab /\ contains M b a ab /\ p + n <= a + ab_size ab /\
                          access ab = true).

Lemma valid_contract_allows access p n b r : 0 < n -> one_block M p n ->
  same_block_answer access p n b r -> in_block M b = true ->
  allows (validity_contract access M) (p, n, b) r = true.
Proof using Hu.
  intros Hn H1 [H01 Hr] Hin. destruct (in_block_contains b Hin) as (a & ab & Hb).
  pose proof (separated_from_false p n b a ab Hb) as Hs.
  assert (r = 1 <-> valid_range access M p n = true /\ separated_from M p n b = false) as Hiff.
  - rewrite Hr, Hs. split.
    + intros (a' & ab' & Hp & Hb' & Hle & Hacc).
      destruct (Hu _ _ _ _ _ Hb Hb') as [<- <-]. destruct Hp as [E Hp].
      pose proof (covers_range _ _ _ _ Hp Hn Hle). split; [by eapply within_valid_range|].
      exists p. lia.
    + intros [Hv (q & Hq & Hqb)].
      destruct (valid_range_within access p n Hn H1 Hv) as (a' & ab' & Hp & Hle & Hle' & Hacc).
      exists a', ab'. split; [done|].
      destruct (Hu q a ab a' ab') as [-> ->]; [|split; [apply Hp|apply covers_byte; lia]|done].
      split; [apply Hb|by apply covers_byte].
  - unfold allows. cbn [fc_ensures validity_contract fc_behaviors forallb assumes guarantees andb].
    destruct (Z.leb_spec n 0), (Z.ltb_spec 0 n); try lia.
    destruct (valid_range access M p n), (separated_from M p n b), H01 as [-> | ->]; cbn; try done;
      exfalso; destruct Hiff as [Hi1 Hi2]; (discriminate (Hi2 (conj eq_refl eq_refl)) || by destruct (Hi1 eq_refl)).
Qed.

Lemma initialized_contract_allows p n a ab r : 0 < n -> contains M p a ab -> p + n <= a + ab_size ab ->
  (r = 0 \/ r = 1) -> (r = 1 <-> forall i, p - a <= i < p - a + n -> i ∈ ab_init ab) ->
  allows (initialized_contract M) (p, n) r = true.
Proof using Hu.
  intros Hn [E Hp] Hle H01 Hr. pose proof (covers_range _ _ _ _ Hp Hn Hle) as Hap.
  assert (r = 1 <-> initialized_range M p n = true) as Hiff.
  - rewrite Hr. unfold initialized_range. rewrite all_bytes_iff. split.
    + intros Hall q Hq. apply byte_in_iff. exists a, ab. split; [done|]. split; [lia|].
      apply bool_decide_eq_true, Hall. lia.
    + intros Hall i Hi.
      destruct (proj1 (byte_in_iff _ _ _) (Hall (a + i) ltac:(lia))) as (a' & ab' & E' & Hq & Hin).
      apply bool_decide_eq_true in Hin.
      destruct (Hu (a + i) a ab a' ab') as [-> ->]; [split; [done|apply covers_byte; lia]..|].
      by replace i with (a' + i - a') by lia.
  - unfold allows. cbn [fc_ensures initialized_contract fc_behaviors forallb assumes guarantees andb].
    destruct (initialized_range M p n), H01 as [-> | ->]; cbn; try done;
      exfalso; destruct Hiff as [Hi1 Hi2]; (discriminate (Hi2 eq_refl) || discriminate (Hi1 eq_refl)).
Qed.

(** A query that answers with a part of the block of an address. *)
Lemma block_contract_fulfilled v f p :
  (forall a ab, contains M p a ab -> f p = Ret (v p a ab)) -> fulfils_at f (block_contract v M) p.
Proof using Hu.
  intros Hf Hin. destruct (in_block_contains p Hin) as (a & ab & Hc).
  unfold returns_allowed. rewrite (Hf a ab Hc). unfold allows. cbn.
  rewrite (proj2 (block_at_contains p a ab) Hc). by rewrite Z.eqb_refl.
Qed.
End Unique.

(** ** Behaviors

    For a range that is not empty, the first behavior of [valid] applies or one of
    the two others does; these two overlap. *)
Lemma valid_behaviors access M p n b : 0 < n ->
  applicable (validity_contract access M) (p, n, b) =
  if negb (valid_range access M p n) && separated_from M p n b then 2%nat else 1%nat.
Proof.
  intros Hn. unfold applicable, validity_contract. cbn [fc_behaviors List.filter assumes].
  destruct (Z.leb_spec n 0), (Z.ltb_spec 0 n); try lia.
  by destruct (valid_range access M p n), (separated_from M p n b).
Qed.

(** ** The contracts are met *)

Lemma same_block_verdict cfg M access p n b o :
  cfg_weak_validity cfg = false ->
  (exists r, o = Ret r /\ (r = 0 \/ r = 1) /\
     (r = 1 <-> exists a ab, allocated_in cfg M p n b a ab /\ access ab = true)) ->
  exists r, o = Ret r /\ same_block_answer M access p n b r.
Proof.
  intros Hw (r & -> & H01 & Hr). exists r. split; [done|]. split; [done|]. rewrite Hr.
  unfold allocated_in. split; intros (a & ab & H); exists a, ab; naive_solver.
Qed.

Lemma writable_false (P : Z -> ablock -> Prop) :
  (exists a ab, P a ab /\ ab_readonly ab = false) <-> exists a ab, P a ab /\ writable_block ab = true.
Proof. unfold writable_block. setoid_rewrite negb_true_iff. done. Qed.

Lemma readable_true (P : Z -> ablock -> Prop) :
  (exists a ab, P a ab) <-> exists a ab, P a ab /\ readable_block ab = true.
Proof. unfold readable_block. naive_solver. Qed.

(** What is asked of a memory model: its queries are exact. *)
Lemma validity_contracts_met cfg E M x n base addrof :
  (forall p a ab a' ab', contains M p a ab -> contains M p a' ab' -> a = a' /\ ab = ab') ->
  cfg_weak_validity cfg = false -> 0 < n -> one_block M x n ->
  (exists r, ep_valid E x n base addrof = Ret r /\ (r = 0 \/ r = 1) /\
     (r = 1 <-> exists a ab, allocated_in cfg M x n base a ab /\ ab_readonly ab = false)) ->
  (exists r, ep_valid_read E x n base addrof = Ret r /\ (r = 0 \/ r = 1) /\
     (r = 1 <-> exists a ab, allocated_in cfg M x n base a ab)) ->
  validity_contracts E M x n base addrof.
Proof.
  intros Hu Hw Hn H1 Hv Hr. setoid_rewrite writable_false in Hv. setoid_rewrite readable_true in Hr.
  apply (same_block_verdict cfg M _ _ _ _ _ Hw) in Hv as (rv & Ev & Av).
  apply (same_block_verdict cfg M _ _ _ _ _ Hw) in Hr as (rr & Er & Ar).
  split; intros Hin; unfold returns_allowed; rewrite ?Ev, ?Er; by apply valid_contract_allows.
Qed.

Section Models.
Context (cfg : config) (M : amem).

Lemma trie_contracts h x n base addrof : models h M -> cfg_temporal cfg = false ->
  cfg_weak_validity cfg = false -> in_u 64 x -> in_u 64 base -> 0 < n < 2 ^ 32 -> one_block M x n ->
  let E := trie_entry_points cfg h in
  validity_contracts E M x n base addrof /\ block_contracts E M x /\
  (forall a ab, contains M x a ab -> x + n <= a + ab_size ab -> initialized_meets E M x n).
Proof.
  intros HM Ht Hw Hx Hb Hn H1 E.
  pose proof (fun p a ab a' ab' => BtSpec.contains_unique h M HM p a ab a' ab') as Hu.
  assert (in_u 64 n) as Hn' by (unfold in_u; lia). split_and!.
  - apply (validity_contracts_met cfg); [done..|lia|done| |].
    + by apply valid_models.
    + by apply valid_read_models.
  - split_and!; apply (block_contract_fulfilled M Hu); intros a ab Hc.
    + by apply (proj1 (base_addr_models cfg h M HM x Hx) a ab).
    + by apply (proj1 (block_length_models cfg h M HM x Hx) a).
    + by apply (proj1 (offset_models cfg h M HM x Hx) a ab).
  - intros a ab Hc Hle _. destruct (initialized_models cfg h M HM x n a ab Hc Hx Hn Hle) as (r & Er & H01 & Hr).
    unfold returns_allowed. cbn [ep_initialized E trie_entry_points]. rewrite Er.
    apply (initialized_contract_allows M Hu x n a ab r); done || lia.
Qed.

Lemma shadow_contracts `{PB : !PublicAlloc} st x n base addrof : seg_models st M -> cfg_temporal cfg = false ->
  cfg_weak_validity cfg = false -> 0 < n < 2 ^ 63 -> one_block M x n ->
  x <> hend (st_layout st) -> base_ok (st_layout st) M x base ->
  let E := shadow_entry_points cfg st in
  validity_contracts E M x n base addrof /\ block_contracts E M x /\
  (forall a ab, contains M x a ab -> x + n <= a + ab_size ab -> (ab_freeable ab = true -> x mod 8 = 0) ->
   initialized_meets E M x n).
Proof.
  intros HM Ht Hw Hn H1 Hx Hb E.
  pose proof (fun p a ab a' ab' => seg_contains_unique st M p a ab a' ab' HM) as Hu. split_and!.
  - apply (validity_contracts_met cfg); [done..|lia|done| |].
    + by apply (seg_valid_exact cfg Ht st M).
    + by apply (seg_valid_read_exact cfg Ht st M).
  - split_and!; apply (block_contract_fulfilled M Hu); intros a ab Hc;
      by destruct (observers_exact cfg st M x a ab HM Hc) as (? & ? & ?).
  - intros a ab Hc Hle H8 _.
    destruct (seg_initialized_exact cfg st M x a ab n HM Hc Hn Hle H8) as (r & Er & H01 & Hr).
    unfold returns_allowed. cbn [ep_initialized E shadow_entry_points]. rewrite Er.
    apply (initialized_contract_allows M Hu x n a ab r); done || lia.
Qed.
End Models.


(** ** Departures *)

(** The function does not meet the contract at an argument that it allows. *)
Definition departs {A R : Type} (f : A -> outcome R) (c : fcontract A R) (a : A) : bool :=
  fc_requires c a && negb (returns_allowed f c a).

Section Departures.
#[local] Existing Instance demo_private.
#[local] Existing Instance demo_public.

Definition weak_config : config :=
  mk_config false true false false.

(** Two blocks side by side, of which the first is initialized. *)
Definition side_ops : list op := [OStore 4096 16; OFullInit 4096; OStore 4112 16].
Definition side_mem : amem :=
  <[4096 := mk_ablock 16 (all_offsets 16) false false]> (<[4112 := mk_ablock 16 ∅ false false]> ∅).
Definition side_heap : heap :=
  match BtTrace.run default_config demo_st0 side_ops with Ret st => BtModel.st_heap st | _ => BtModel.st_heap demo_st0 end.

Lemma side_asteps : asteps default_config (∅, 65536) side_ops (side_mem, 65536).
Proof.
  unfold side_ops.
  eapply asteps_cons; [apply (@AStore demo_public); apply tiny_new_range; reflexivity|].
  eapply asteps_cons; [eapply (@AFullInit demo_public); by rewrite lookup_insert_eq|].
  eapply asteps_cons; [apply (@AStore demo_public); apply tiny_new_range; reflexivity|].
  match goal with |- asteps _ ?s _ _ => assert (s = (side_mem, 65536)) as -> end; [|constructor].
  vm_compute. done.
Qed.

Lemma side_models : models side_heap side_mem.
Proof.
  pose proof demo_private_ok.
  destruct (BtTrace.run_simulated default_config demo_st0 (∅, 65536) side_ops (side_mem, 65536)
    demo_simulates0 side_asteps) as (st & E & Hsim).
  unfold side_heap. rewrite E. apply Hsim.
Qed.

(** Where the models do not meet the contracts.  The behaviors of [valid] are
    complete, but not disjoint as they are said to be: two apply to an invalid range
    apart from the block of the base.  The code answers 0 for a valid range over two
    blocks, and for an empty range of an address that is in no block; in weak validity
    it answers 1 for a range apart from the block of the base.  [initialized] answers 1
    for a range past the end of a fully initialized block; [store_block] of the trie
    model returns its block record, and [store_block_duplicate] the null pointer. *)
Theorem entry_points_depart :
  models side_heap side_mem /\
  (forall access M p n b, 0 < n ->
     applicable (validity_contract access M) (p, n, b) =
     if negb (valid_range access M p n) && separated_from M p n b then 2%nat else 1%nat) /\
  applicable (valid_contract side_mem) (100, 1, 4096) = 2%nat /\
  departs (fun '(p, n, b) => BtModel.valid default_config side_heap p n b 0)
    (valid_contract side_mem) (4108, 8, 4096) = true /\
  departs (fun '(p, n, b) => BtModel.valid default_config side_heap p n b 0)
    (valid_contract side_mem) (100, 0, 4096) = true /\
  departs (fun '(p, n, b) => BtModel.valid weak_config side_heap p n b 0)
    (valid_contract side_mem) (4096, 4, 4112) = true /\
  departs (fun '(p, n) => BtModel.initialized default_config side_heap p n)
    (initialized_contract side_mem) (4096, 17) = true /\
  departs (fun '(p, n) => let* (r, _) := BtModel.store_block default_config demo_st0 p n in Ret r)
    store_block_contract (4096, 16) = true /\
  departs (fun '(p, n) => let* (r, _) := BtModel.store_block_duplicate default_config demo_st0 p n in Ret r)
    store_block_contract (4096, 16) = true.
Proof. split; [exact side_models|]. split; [exact valid_behaviors|]. vm_compute. repeat split. Qed.
End Departures.

(** A range of 4 bytes in a stack block. *)
Lemma tiny_one_block : one_block tiny_final 24590 4.
Proof.
  intros a ab [E Hc]. left. unfold tiny_final in E.
  rewrite lookup_insert_Some in E. destruct E as [[<- <-]|[_ E]]; [unfold covers in Hc; cbn in Hc; lia|].
  rewrite lookup_insert_Some in E. destruct E as [[<- <-]|[_ E]]; [unfold covers in Hc; cbn in Hc; lia|].
  rewrite lookup_insert_Some, lookup_empty in E. destruct E as [[<- <-]|[_ E]]; [cbn; lia|done].
Qed.

