(* ===== verification/ApiBuiltins.v ===== *)
(** * The contracts that e_acsl.h gives the replacements of libc functions

    Each contract says which bytes may change and what is returned; a violation of
    the checks ends the program.  The replacements are those of
    e_acsl_libc_replacements.h, over any memory model. *)

From S2P Require Import Prelude AMem Observers LibcString LibcStringSpec AcslString LibcReplacements LibcReplacementsTheorems Trie Bittree BtModel BtSpec BtTrace ObserversInst LibcReplacementsExact.

(** ** The contracts *)

Definition copy_contract (assigned : Z -> Prop) (dest : Z) : contract Z :=
  mk_contract (fun _ => True) (fun _ => assigned) (fun _ r _ => r = dest).
(** [assigns dest[0..n-1]], [assigns dest[0..]] and [assigns dest[..]]. *)
Definition bounded_contract (dest n : Z) : contract Z := copy_contract (fun a => dest <= a < dest + n) dest.
Definition upward_contract (dest : Z) : contract Z := copy_contract (fun a => dest <= a) dest.
Definition anywhere_contract (dest : Z) : contract Z := copy_contract (fun _ => True) dest.

Definition builtin_strcpy_contract : Z -> contract Z := upward_contract.
Definition builtin_strncpy_contract : Z -> Z -> contract Z := bounded_contract.
Definition builtin_strcat_contract : Z -> contract Z := anywhere_contract.
Definition builtin_strncat_contract : Z -> contract Z := anywhere_contract.
Definition builtin_memcpy_contract : Z -> Z -> contract Z := bounded_contract.
Definition builtin_memset_contract : Z -> Z -> contract Z := bounded_contract.
Definition builtin_memmove_contract : Z -> Z -> contract Z := bounded_contract.

(** What a contract says of a call that returns. *)
Definition kept {R : Type} (c : contract R) (m : mem) (x : R * mem) : Prop :=
  ensures c m x.1 x.2 /\ forall a, ~ assigns c m a -> x.2 !! a = m !! a.

(** The call ends the program, or returns and meets the contract. *)
Definition checked_by {R : Type} (c : contract R) (m : mem) (o : outcome (R * mem)) : Prop :=
  o = Abort \/ exists x, o = Ret x /\ kept c m x.

(** ** Partial correctness *)

Definition post {A : Type} (Q : A -> Prop) (o : outcome A) : Prop := forall x, o = Ret x -> Q x.

Lemma post_ret {A} (Q : A -> Prop) x : Q x -> post Q (Ret x).
Proof. by intros ? ? [= <-]. Qed.
Lemma post_weaken {A} (Q R : A -> Prop) o : post Q o -> (forall x, Q x -> R x) -> post R o.
Proof. intros H HR x E. by apply HR, H. Qed.
Lemma post_bind {A B} (Q : A -> Prop) (R : B -> Prop) o k :
  post Q o -> (forall x, Q x -> post R (k x)) -> post R (obind o k).
Proof. intros H Hk y E. destruct o as [x| | |]; try done. by apply (Hk x (H x eq_refl)). Qed.
Lemma post_skip {A B} (R : B -> Prop) (o : outcome A) k : (forall x, post R (k x)) -> post R (obind o k).
Proof. intros Hk. by apply (post_bind (fun _ => True)). Qed.

(** The bytes outside of [P] keep their values. *)
Definition same (P : Z -> Prop) (m m' : mem) : Prop := forall a, ~ P a -> m' !! a = m !! a.

#[export] Instance same_preorder P : PreOrder (same P).
Proof. split; [by intros m a|]. intros m1 m2 m3 H1 H2 a Ha. by rewrite H2, H1. Qed.

Lemma same_mono (P Q : Z -> Prop) m m' : (forall a, P a -> Q a) -> same P m m' -> same Q m m'.
Proof. intros H Hs a Ha. apply Hs. intros HP. by apply Ha, H. Qed.

Lemma post_store8 (P : Z -> Prop) m a v : P a -> post (same P m) (store8 m a v).
Proof.
  intros HP m' E x Hx. unfold store8 in E. destruct (m !! a); [|done]. injection E as <-.
  rewrite lookup_insert_ne; [done|]. by intros ->.
Qed.

Lemma post_for_n {S} (Q : S -> S -> Prop) `{!PreOrder Q} n : forall lo body (s : S),
  (forall i s, lo <= i < lo + Z.of_nat n -> post (Q s) (body i s)) -> post (Q s) (for_n n lo body s).
Proof.
  induction n as [|n IH]; intros lo body s H; cbn [for_n]; [by apply post_ret|].
  apply (post_bind (Q s)); [apply H; lia|]. intros s1 H1.
  apply (post_weaken (Q s1)); [apply IH; intros; apply H; lia|]. intros s2. by transitivity s1.
Qed.

Lemma post_for_range {S} (Q : S -> S -> Prop) `{!PreOrder Q} lo hi body (s : S) :
  (forall i s, lo <= i < hi -> post (Q s) (body i s)) -> post (Q s) (for_range lo hi body s).
Proof. intros H. apply post_for_n; [done|]. intros i s' Hi. apply H. lia. Qed.

(** ** The loops of string.c write where they should *)

Lemma post_copy_loop (P : Z -> Prop) d : (forall a, d <= a -> P a) -> forall fuel m p i, 0 <= i ->
  post (fun x => 0 <= x.1 /\ same P m x.2) (copy_loop fuel m d p i).
Proof.
  intros HP. induction fuel as [|fuel IH]; intros m p i Hi; [done|]. cbn [copy_loop].
  apply post_skip. intros c. destruct (c =? 0); [by apply post_ret|].
  apply (post_bind (same P m)); [apply post_store8, HP; lia|]. intros m1 H1.
  apply (post_weaken _ _ _ (IH m1 p (i + 1) ltac:(lia))). intros x [Hx H2].
  split; [done|]. by transitivity m1.
Qed.

Lemma post_strncat_loop (P : Z -> Prop) d : (forall a, d <= a -> P a) -> forall n m p i, 0 <= i ->
  post (fun x => 0 <= x.1 /\ same P m x.2) (strncat_loop n m d p i).
Proof.
  intros HP. induction n as [|n IH]; intros m p i Hi; [by apply post_ret|]. cbn [strncat_loop].
  apply post_skip. intros c. destruct (c =? 0); [by apply post_ret|].
  apply (post_bind (same P m)); [apply post_store8, HP; lia|]. intros m1 H1.
  apply (post_weaken _ _ _ (IH m1 p (i + 1) ltac:(lia))). intros x [Hx H2].
  split; [done|]. by transitivity m1.
Qed.

Lemma post_strncpy_loop (P : Z -> Prop) d : forall n m p i, 0 <= i ->
  (forall a, d + i <= a < d + i + Z.of_nat n -> P a) ->
  post (fun x => 0 <= x.1 /\ same P m x.2) (strncpy_loop n m d p i).
Proof.
  induction n as [|n IH]; intros m p i Hi HP; [by apply post_ret|]. cbn [strncpy_loop].
  apply post_skip. intros c.
  apply (post_bind (same P m)); [apply post_store8, HP; lia|]. intros m1 H1.
  apply post_skip. intros c'. destruct (c' =? 0); [by apply post_ret|].
  eapply post_weaken; [apply (IH m1 p (i + 1)); [lia|intros a Ha; apply HP; lia]|]. intros x [Hx H2].
  split; [done|]. by transitivity m1.
Qed.

Lemma post_memmove_down (P : Z -> Prop) d p : forall n m, (forall a, d < a <= d + Z.of_nat n -> P a) ->
  post (same P m) (memmove_down n m d p).
Proof.
  induction n as [|n IH]; intros m HP; [by apply post_ret|]. cbn [memmove_down].
  apply post_skip. intros c. apply (post_bind (same P m)); [apply post_store8, HP; lia|]. intros m1 H1.
  eapply post_weaken; [apply IH; intros a Ha; apply HP; lia|]. intros m2. by transitivity m1.
Qed.

Lemma post_strlen m p : post (fun n => 0 <= n) (strlen m p).
Proof.
  unfold strlen. assert (forall fuel n, 0 <= n -> post (fun n => 0 <= n) (strlen_loop fuel m p n)) as H; [|by apply H].
  induction fuel as [|fuel IH]; intros n Hn; [done|]. cbn [strlen_loop].
  apply post_skip. intros c. destruct (c =? 0); [by apply post_ret|]. apply IH. lia.
Qed.

(** ** The functions of string.c *)

(** A function that returns its destination after [same] memory. *)
Lemma post_copy (P : Z -> Prop) d m o : post (same P m) o ->
  post (kept (copy_contract P d) m) (let* m := o in Ret (d, m)).
Proof. intros H. apply (post_bind (same P m)); [done|]. intros m' Hm. by apply post_ret. Qed.

Lemma memcpy_kept m d p n : post (kept (bounded_contract d n) m) (memcpy m d p n).
Proof.
  apply post_copy. apply (post_for_range (same (fun a => d <= a < d + n))). intros i m' Hi.
  apply post_skip. intros c. apply post_store8. lia.
Qed.

Lemma memset_kept m d c n : post (kept (bounded_contract d n) m) (memset m d c n).
Proof.
  apply post_copy. apply (post_for_range (same (fun a => d <= a < d + n))). intros i m' Hi.
  apply post_store8. lia.
Qed.

Lemma memmove_kept m d p n : 0 <= n -> post (kept (bounded_contract d n) m) (memmove m d p n).
Proof.
  intros Hn. unfold memmove. destruct (Z.eqb_spec n 0) as [->|Hn0]; [by apply post_ret|].
  destruct (memoverlap d p n <=? 0); [apply memcpy_kept|].
  apply (post_bind (same (fun a => d <= a < d + n) m)); [apply post_memmove_down; lia|]. intros m1 H1.
  apply post_skip. intros c. apply (post_bind (same (fun a => d <= a < d + n) m1)); [apply post_store8; lia|].
  intros m2 H2. apply post_ret. split; [done|]. exact (transitivity H1 H2).
Qed.

Lemma strcpy_kept m d p : post (kept (upward_contract d) m) (strcpy m d p).
Proof.
  unfold strcpy. eapply post_bind; [by apply (post_copy_loop (fun a => d <= a) d)|].
  intros [i m1] [Hi H1]. apply (post_bind (same (fun a => d <= a) m1)); [apply post_store8; cbn in *; lia|].
  intros m2 H2. apply post_ret. split; [done|]. exact (transitivity H1 H2).
Qed.

Lemma strncpy_kept m d p n : 0 <= n -> post (kept (bounded_contract d n) m) (strncpy m d p n).
Proof.
  intros Hn. unfold strncpy.
  eapply post_bind; [apply (post_strncpy_loop (fun a => d <= a < d + n)); lia|].
  intros [i m1] [Hi H1]. cbn in *.
  apply (post_bind (same (fun a => d <= a < d + n) m1)).
  - apply (post_for_range (same (fun a => d <= a < d + n))). intros j m' Hj. apply post_store8. lia.
  - intros m2 H2. apply post_ret. split; [done|]. exact (transitivity H1 H2).
Qed.

(** The concatenations also write nothing below the destination. *)
Lemma strcat_kept m d p : post (kept (upward_contract d) m) (strcat m d p).
Proof.
  unfold strcat. eapply post_bind; [apply post_strlen|]. intros n Hn. cbn in Hn.
  eapply post_bind; [apply (post_copy_loop (fun a => d <= a)); lia|].
  intros [i m1] [Hi H1]. apply (post_bind (same (fun a => d <= a) m1)); [apply post_store8; cbn in *; lia|].
  intros m2 H2. apply post_ret. split; [done|]. exact (transitivity H1 H2).
Qed.

Lemma strncat_kept m d p n : post (kept (upward_contract d) m) (strncat m d p n).
Proof.
  unfold strncat. eapply post_bind; [apply post_strlen|]. intros l Hl. cbn in Hl.
  eapply post_bind; [apply (post_strncat_loop (fun a => d <= a)); lia|].
  intros [i m1] [Hi H1]. apply (post_bind (same (fun a => d <= a) m1)); [apply post_store8; cbn in *; lia|].
  intros m2 H2. apply post_ret. split; [done|]. exact (transitivity H1 H2).
Qed.

Lemma upward_anywhere d m x : kept (upward_contract d) m x -> kept (anywhere_contract d) m x.
Proof. intros [H _]. split; [done|]. by intros a Ha. Qed.

(** ** The replacements *)

(** Checks before a function do not change what it keeps. *)
Ltac behind_checks H :=
  repeat first
    [ apply H
    | apply post_skip; intros ?
    | match goal with |- post _ (if ?b then Abort else _) => destruct b; [done|] end ].

Section Replacements.
Context {S : Type} `{OB : !Observers S} (s : S).

Lemma builtin_strcat_kept m d p : post (kept (upward_contract d) m) (builtin_strcat s m d p).
Proof. unfold builtin_strcat. behind_checks strcat_kept. Qed.
Lemma builtin_strncat_kept m d p n : post (kept (upward_contract d) m) (builtin_strncat s m d p n).
Proof. unfold builtin_strncat. behind_checks strncat_kept. Qed.

(** A call that is guarded by its precondition, behind which it returns. *)
Lemma guarded_checked {R} (P : Prop) (c : contract R) m o o' :
  guards P o o' -> (P -> exists x, o' = Ret x) -> post (kept c m) o' -> checked_by c m o.
Proof.
  intros [[HP ->]|[_ ->]] Hret Hk; [right|by left].
  destruct (Hret HP) as [x Hx]. exists x. split; [done|]. by apply Hk.
Qed.
End Replacements.

(** C34.  The replacements of the functions that write meet the contracts of e_acsl.h.
    On any memory model, a call of one of the first five ends the program or returns
    the destination, having changed at most the bytes that the contract assigns; the
    concatenations, which may overwrite their source, do so when they return, and they
    change nothing below the destination. *)
Theorem builtins_meet_contracts {S : Type} `{OB : !Observers S, OBok : !ObserversOk S}
  (s : S) (M : amem) (m : mem) (d p c n : Z) :
  ob_models s M -> backed M m -> in_u 64 d -> ob_addr s d -> in_u 64 p -> ob_addr s p ->
  0 < n < 2 ^ 63 -> p + n < 2 ^ 64 ->
  checked_by (builtin_memcpy_contract d n) m (builtin_memcpy s m d p n) /\
  checked_by (builtin_memmove_contract d n) m (builtin_memmove s m d p n) /\
  checked_by (builtin_memset_contract d n) m (builtin_memset s m d c n) /\
  checked_by (builtin_strcpy_contract d) m (builtin_strcpy s m d p) /\
  checked_by (builtin_strncpy_contract d n) m (builtin_strncpy s m d p n) /\
  (forall r m', builtin_strcat s m d p = Ret (r, m') ->
     kept (builtin_strcat_contract d) m (r, m') /\ forall a, a < d -> m' !! a = m !! a) /\
  (forall r m', builtin_strncat s m d p n = Ret (r, m') ->
     kept (builtin_strncat_contract d) m (r, m') /\ forall a, a < d -> m' !! a = m !! a).
Proof.
  intros HM Hb Hd Had Hp Hap Hn Hpn. split_and!.
  - eapply guarded_checked; [by apply (memcpy_guards s M m)|intros (H1 & H2 & H3)|by apply memcpy_kept].
    destruct (memcpy_behind M m Hb d p n) as (m' & -> & _); try done; [lia|eauto].
  - eapply guarded_checked; [by apply (memmove_guards s M m)|intros Hc|apply memmove_kept; lia].
    destruct (memmove_behind s M m d p n HM Hb ltac:(lia) Hc) as (m' & -> & _). eauto.
  - eapply guarded_checked; [by apply (memset_guards s M m)|intros H1|apply memset_kept].
    destruct (memset_behind M m Hb d c n) as (m' & -> & _); try done; [lia|eauto].
  - eapply guarded_checked; [by apply (strcpy_guards s M m)|intros (l & H1 & H2 & H3)|apply strcpy_kept].
    rewrite (strcpy_behind M m Hb d p l) by done. eauto.
  - eapply guarded_checked; [by apply (strncpy_guards s M m)|intros ([r Hr] & H2 & H3)|apply strncpy_kept; lia].
    destruct (strncpy_behind M m Hb d p n) as (m' & -> & _); try done; [lia| |eauto].
    by apply (tracked_nstring_readable M m Hb p n r).
  - intros r m' E. pose proof (builtin_strcat_kept s m d p _ E) as Hk. split; [by apply upward_anywhere|].
    intros a Ha. apply Hk. cbn. lia.
  - intros r m' E. pose proof (builtin_strncat_kept s m d p n _ E) as Hk. split; [by apply upward_anywhere|].
    intros a Ha. apply Hk. cbn. lia.
Qed.

#[local] Existing Instance trie_observers_ok.

(** Five bytes of the literal "hello" are copied to the stack block of [demo_mem]. *)
Lemma builtins_meet_contracts_witness :
  checked_by (builtin_memcpy_contract 4096 5) demo_app
    (@builtin_memcpy heap (trie_observers default_config) demo_heap demo_app 4096 8192 5).
Proof.
  destruct (@builtins_meet_contracts heap (trie_observers default_config) (trie_observers_ok default_config)
    demo_heap demo_mem demo_app 4096 8192 0 5 demo_models demo_backed) as [H _].
  - split; [discriminate|reflexivity].
  - exact I.
  - split; [discriminate|reflexivity].
  - exact I.
  - lia.
  - reflexivity.
  - exact H.
Defined.
