(* ===== verification/FloatingPoint.v ===== *)
(** * e_acsl_floating_point.h: exceptions and infinities

    The report of the floating-point exceptions of a statement, on the status flags of
    fenv.h, and the initialization of the infinities that annotations refer to; the
    two functions of fenv.c that save and install an environment.  The values of the
    macros of fenv.h are parameters with their laws. *)

From S2P Require Import Prelude LibcString LibcStringSpec LibcStdlib LibcStdlibTheorems Digits Printf PrintfSpec PrintfOutput PrintfTheorems RuntimeAssert.
From Stdlib Require Import String Ascii SpecFloat.

(** ** The status flags *)

(** The macros of fenv.h: each exception has its flags, apart from the others'. *)
Class FpExceptions : Type := {
  FE_DIVBYZERO : Z; FE_INEXACT : Z; FE_INVALID : Z; FE_OVERFLOW : Z; FE_UNDERFLOW : Z;
  FE_ALL_EXCEPT : Z
}.
Definition fe_macros `{FE : !FpExceptions} : list Z :=
  [FE_DIVBYZERO; FE_INEXACT; FE_INVALID; FE_OVERFLOW; FE_UNDERFLOW].
Class FpExceptionsOk `{FE : !FpExceptions} : Prop := {
  fe_nonzero : forall e, e ∈ fe_macros -> e <> 0;
  fe_all : forall e, e ∈ fe_macros -> Z.land e FE_ALL_EXCEPT = e;
  fe_apart : forall i j e e', fe_macros !! i = Some e -> fe_macros !! j = Some e' -> i <> j -> Z.land e e' = 0
}.

(** [fetestexcept] and [feclearexcept], on the flags. *)
Definition fetestexcept (flags excepts : Z) : Z := Z.land flags excepts.
Definition feclearexcept (flags excepts : Z) : Z := Z.ldiff flags excepts.

(** ** Definitions *)

(** The variables for the infinities, which are zero before the initialization. *)
Record infinities : Type := mk_infinities {
  math_HUGE_VAL : spec_float; math_HUGE_VALF : spec_float; math_INFINITY : spec_float
}.
Definition infinities0 : infinities := mk_infinities (S754_zero false) (S754_zero false) (S754_zero false).

(** The addresses of the literals. *)
Record fp_literals : Type := mk_fp_literals {
  fp_statement : Z; fp_exception : Z;
  fp_divbyzero : Z; fp_inexact : Z; fp_invalid : Z; fp_overflow : Z; fp_underflow : Z
}.

Definition statement_format : list Z :=
  (chars "Execution of the statement `%s` leads to a floating point exception" ++ nl)%list.
Definition exception_format : list Z := (chars "Exception:  %s" ++ nl)%list.
Definition divbyzero_text : list Z := chars "Division by zero".
Definition inexact_text : list Z :=
  chars "Rounded result of an operation is not equal to the infinite precision result".
Definition invalid_text : list Z := chars "Result of a floating-point operation is not well-defined".
Definition overflow_text : list Z := chars "Floating-point overflow".
Definition underflow_text : list Z := chars "Floating-point underflow".

Section Runtime.
Context `{FE : !FpExceptions} (bf : Z) (lits : fp_literals).

(** HUGE_VAL, HUGE_VALF and INFINITY are the positive infinity. *)
Definition init_infinity_values (v : infinities) (flags : Z) : infinities * Z :=
  (mk_infinities (S754_infinity false) (S754_infinity false) (S754_infinity false),
   feclearexcept flags FE_ALL_EXCEPT).

(** The pointer [resp]. *)
Definition exception_resp (flags : Z) : Z :=
  let except := fetestexcept flags FE_ALL_EXCEPT in
  if i2b except then
    if i2b (fetestexcept flags FE_DIVBYZERO) then fp_divbyzero lits
    else if i2b (fetestexcept flags FE_INEXACT) then fp_inexact lits
    else if i2b (fetestexcept flags FE_INVALID) then fp_invalid lits
    else if i2b (fetestexcept flags FE_OVERFLOW) then fp_overflow lits
    else if i2b (fetestexcept flags FE_UNDERFLOW) then fp_underflow lits
    else NULL
  else NULL.

Definition floating_point_exception (s : io) (flags exp : Z) : outcome (io * Z) :=
  let resp := exception_resp flags in
  let* s :=
    if negb (resp =? NULL) then
      let* (_, s) := rtl_printf bf s (fp_statement lits) [V64 exp] in
      let* (_, s) := rtl_printf bf s (fp_exception lits) [V64 resp] in
      Ret s
    else Ret s in
  Ret (s, feclearexcept flags FE_ALL_EXCEPT).
End Runtime.

(** fenv.c: an environment is copied between an object and the volatile variable. *)
Section Fenv.
Context {fenv : Type}.

Definition feholdexcept (__fc_fenv_state : fenv) (objects : gmap Z fenv) (envp : Z) : outcome (Z * gmap Z fenv) :=
  match objects !! envp with
  | Some _ => Ret (0, <[envp := __fc_fenv_state]> objects)
  | None => Fault
  end.

Definition fesetenv (objects : gmap Z fenv) (envp : Z) : outcome (Z * fenv) :=
  match objects !! envp with Some e => Ret (0, e) | None => Fault end.
End Fenv.

(** ** What is reported *)

Section Reported.
Context `{FE : !FpExceptions, FEok : !FpExceptionsOk}.

(** The exceptions in the order in which they are tested, with their texts. *)
Definition fp_table : list (Z * list Z) :=
  [(FE_DIVBYZERO, divbyzero_text); (FE_INEXACT, inexact_text); (FE_INVALID, invalid_text);
   (FE_OVERFLOW, overflow_text); (FE_UNDERFLOW, underflow_text)].

(** The text of the first exception whose flag is set. *)
Definition diagnosis (flags : Z) : option (list Z) :=
  snd <$> head (List.filter (fun x => i2b (fetestexcept flags x.1)) fp_table).

Definition fp_report (flags : Z) (statement : list Z) : list Z :=
  match diagnosis flags with
  | Some t => (chars "Execution of the statement `" ++ statement ++
               (chars "` leads to a floating point exception" ++ nl ++ chars "Exception:  ") ++ t ++ nl)%list
  | None => []
  end.

(** IEEE 754, default handling: an overflow and an underflow that is flagged are
    inexact too. *)
Inductive fp_event : Type := EInvalid | EDivByZero | EOverflow | EUnderflow | EInexact.
Definition fp_raised (e : fp_event) : Z :=
  match e with
  | EInvalid => FE_INVALID
  | EDivByZero => FE_DIVBYZERO
  | EOverflow => Z.lor FE_OVERFLOW FE_INEXACT
  | EUnderflow => Z.lor FE_UNDERFLOW FE_INEXACT
  | EInexact => FE_INEXACT
  end.
(** The flags after the operations of a statement, none being set before. *)
Definition flags_after (events : list fp_event) : Z := foldr (fun e f => Z.lor (fp_raised e) f) 0 events.
End Reported.

(** ** Lemmas *)

(** A message on the standard output. *)
Lemma printf_spec (s : io) (bf fmt : Z) (cs : list Z) (va : list va_val) (out : list Z) :
  formats (io_mem s) bf cs va out -> text (io_mem s) bf fmt cs -> accessible (io_mem s) bf 256 ->
  exists m', keeps bf (io_mem s) m' /\
    rtl_printf bf s fmt va = Ret (1, mk_io m' (io_out s ++ map (fun c => (1, [c])) out) (io_ptr s)).
Proof.
  intros Hf (Hu & Hc & Hap) Ha. unfold rtl_printf. change _charc_stdout with (_charc_file 1).
  destruct (format_loop_spec 1 (io_mem s) bf cs va out Hf) with (s := s) (fmt := fmt) (fuel := steps (io_mem s))
    as (m' & E & K); try done; [by eapply cstr_steps |].
  exists m'. split; [exact K |]. unfold _format. by rewrite E.
Qed.

Lemma keeps_text bf m m' p l : keeps bf m m' -> text m bf p l -> text m' bf p l.
Proof. intros Hk (Hu & Hc & Ha). split; [done|]. split; [by eapply keeps_cstr|done]. Qed.

Lemma statement_formats m bf p l : text m bf p l ->
  formats m bf statement_format [V64 p]
    (chars "Execution of the statement `" ++ l ++ (chars "` leads to a floating point exception" ++ nl)).
Proof.
  intros H. piece (chars "Execution of the statement `"). apply (formats_text_arg m bf p l); [done |].
  last_piece (chars "` leads to a floating point exception" ++ nl)%list.
Qed.

Lemma exception_formats m bf p l : text m bf p l ->
  formats m bf exception_format [V64 p] (chars "Exception:  " ++ l ++ nl).
Proof. intros H. piece (chars "Exception:  "). apply (formats_text_arg m bf p l); [done |]. last_piece nl. Qed.

Section Exact.
Context `{FE : !FpExceptions, FEok : !FpExceptionsOk}.

(** A literal of the program. *)
Definition literal (m : mem) (bf p : Z) (l : list Z) : Prop := p <> NULL /\ text m bf p l.
Definition fp_literals_at (m : mem) (bf : Z) (lits : fp_literals) : Prop :=
  text m bf (fp_statement lits) statement_format /\ text m bf (fp_exception lits) exception_format /\
  literal m bf (fp_divbyzero lits) divbyzero_text /\ literal m bf (fp_inexact lits) inexact_text /\
  literal m bf (fp_invalid lits) invalid_text /\ literal m bf (fp_overflow lits) overflow_text /\
  literal m bf (fp_underflow lits) underflow_text.

Lemma no_exception flags e : e ∈ fe_macros -> fetestexcept flags FE_ALL_EXCEPT = 0 -> fetestexcept flags e = 0.
Proof using FEok.
  intros He H. unfold fetestexcept in *. rewrite <- (fe_all e He), (Z.land_comm e), Z.land_assoc, H.
  apply Z.land_0_l.
Qed.

Lemma exception_resp_spec m bf lits flags : fp_literals_at m bf lits ->
  match diagnosis flags with
  | Some t => literal m bf (exception_resp lits flags) t
  | None => exception_resp lits flags = NULL
  end.
Proof using FEok.
  intros (_ & _ & H1 & H2 & H3 & H4 & H5). unfold exception_resp, diagnosis, fp_table.
  cbn [List.filter fst].
  destruct (i2b (fetestexcept flags FE_ALL_EXCEPT)) eqn:E.
  - destruct (i2b (fetestexcept flags FE_DIVBYZERO)); [exact H1|].
    destruct (i2b (fetestexcept flags FE_INEXACT)); [exact H2|].
    destruct (i2b (fetestexcept flags FE_INVALID)); [exact H3|].
    destruct (i2b (fetestexcept flags FE_OVERFLOW)); [exact H4|].
    destruct (i2b (fetestexcept flags FE_UNDERFLOW)); [exact H5|done].
  - assert (fetestexcept flags FE_ALL_EXCEPT = 0) as H0 by (unfold i2b in E; lia).
    rewrite !(no_exception flags) by (done || set_solver). done.
Qed.

Lemma test_lor a b e : fetestexcept (Z.lor a b) e = 0 <-> fetestexcept a e = 0 /\ fetestexcept b e = 0.
Proof. unfold fetestexcept. by rewrite Z.land_lor_distr_l, Z.lor_eq_0_iff. Qed.

Lemma test_self e : e ∈ fe_macros -> fetestexcept e e <> 0.
Proof using FEok. unfold fetestexcept. rewrite Z.land_diag. apply fe_nonzero. Qed.

Lemma test_other i j e e' : fe_macros !! i = Some e -> fe_macros !! j = Some e' -> i <> j -> fetestexcept e e' = 0.
Proof using FEok. apply fe_apart. Qed.

(** Under IEEE 754 the flag of an overflow or of an underflow is set with the one of
    an inexact result. *)
Lemma raised_inexact ev e : e = FE_OVERFLOW \/ e = FE_UNDERFLOW ->
  fetestexcept (fp_raised ev) e <> 0 -> fetestexcept (fp_raised ev) FE_INEXACT <> 0.
Proof using FEok.
  assert (FE_INEXACT ∈ fe_macros) as Hin by set_solver. pose proof (test_self _ Hin) as Hs.
  intros He. destruct ev; cbn [fp_raised]; intros Hne; try (rewrite test_lor; tauto); [| |exact Hs];
    exfalso; apply Hne; destruct He as [-> | ->].
  - by apply (test_other 2%nat 3%nat).
  - by apply (test_other 2%nat 4%nat).
  - by apply (test_other 0%nat 3%nat).
  - by apply (test_other 0%nat 4%nat).
Qed.

Lemma flags_after_inexact events e : e = FE_OVERFLOW \/ e = FE_UNDERFLOW ->
  fetestexcept (flags_after events) e <> 0 -> fetestexcept (flags_after events) FE_INEXACT <> 0.
Proof using FEok.
  intros He. induction events as [|ev events IH]; cbn [flags_after foldr]; [by unfold fetestexcept; rewrite Z.land_0_l|].
  change (foldr (fun e f => Z.lor (fp_raised e) f) 0 events) with (flags_after events) in *.
  rewrite !test_lor. intros Hne [H1 H2]. apply Hne. split.
  - destruct (Z.eq_dec (fetestexcept (fp_raised ev) e) 0) as [|H]; [done|]. by apply (raised_inexact ev e He) in H.
  - destruct (Z.eq_dec (fetestexcept (flags_after events) e) 0) as [|H]; [done|]. by apply IH in H.
Qed.

(** So neither is ever reported as what it is. *)
Lemma overflow_not_diagnosed events t : diagnosis (flags_after events) = Some t ->
  t = divbyzero_text \/ t = inexact_text \/ t = invalid_text.
Proof using FEok.
  unfold diagnosis, fp_table. set (f := flags_after events). cbn [List.filter fst].
  destruct (i2b (fetestexcept f FE_DIVBYZERO)); [intros [= <-]; tauto|].
  destruct (i2b (fetestexcept f FE_INEXACT)) eqn:E; [intros [= <-]; tauto|].
  assert (fetestexcept f FE_INEXACT = 0) as H0 by (unfold i2b in E; lia).
  destruct (i2b (fetestexcept f FE_INVALID)); [intros [= <-]; tauto|].
  assert (forall e, e = FE_OVERFLOW \/ e = FE_UNDERFLOW -> i2b (fetestexcept f e) = false) as Hno.
  { intros e He. destruct (Z.eq_dec (fetestexcept f e) 0) as [->|H]; [done|].
    by apply (flags_after_inexact events e He) in H. }
  rewrite (Hno FE_OVERFLOW), (Hno FE_UNDERFLOW) by auto. done.
Qed.

(** C29.  [floating_point_exception] reports the first exception whose flag is set, with the
    text of the statement, on the standard output, nothing when no flag is set, and
    clears the flags, no others; only the buffer of [_format] is written.  After
    operations that follow IEEE 754 the report never names an overflow or an
    underflow, which the test for an inexact result hides. *)
Theorem floating_point_exception_exact (s : io) (bf : Z) (lits : fp_literals) (flags exp : Z) (E : list Z) :
  let m := io_mem s in
  accessible m bf 256 -> fp_literals_at m bf lits -> text m bf exp E ->
  (exists m', keeps bf m m' /\
    floating_point_exception bf lits s flags exp =
      Ret (mk_io m' (io_out s ++ map (fun c => (1, [c])) (fp_report flags E)) (io_ptr s),
           feclearexcept flags FE_ALL_EXCEPT)) /\
  (forall e, e ∈ fe_macros -> fetestexcept (feclearexcept flags FE_ALL_EXCEPT) e = 0) /\
  (forall events t, diagnosis (flags_after events) = Some t ->
     t = divbyzero_text \/ t = inexact_text \/ t = invalid_text).
Proof using FEok.
  intros m Ha Hl HE. split; [|split; [|exact overflow_not_diagnosed]].
  - pose proof (exception_resp_spec m bf lits flags Hl) as Hr. destruct Hl as (Hst & Hex & _).
    unfold floating_point_exception, fp_report. destruct (diagnosis flags) as [t|].
    + destruct Hr as [Hne Ht]. rewrite (proj2 (Z.eqb_neq _ _) Hne). cbn [negb].
      destruct (printf_spec s bf (fp_statement lits) _ _ _ (statement_formats m bf exp E HE) Hst Ha)
        as (m1 & K1 & ->). cbn [obind].
      set (s1 := mk_io _ _ _).
      destruct (printf_spec s1 bf (fp_exception lits) _ _ _
        (exception_formats m1 bf _ t (keeps_text _ _ _ _ _ K1 Ht)) (keeps_text _ _ _ _ _ K1 Hex)
        (keeps_room _ _ _ K1 Ha)) as (m2 & K2 & ->). cbn [obind].
      exists m2. split; [by eapply keeps_trans|]. do 3 f_equal. unfold s1. cbn [io_out].
      rewrite <- app_assoc, <- map_app. do 2 f_equal. by rewrite <- !app_assoc.
    + rewrite Hr. cbn. exists m. split; [apply keeps_refl|]. rewrite app_nil_r. by destruct s.
  - intros e He. unfold fetestexcept, feclearexcept. rewrite <- (fe_all e He). 
    apply Z.bits_inj_0. intros i. rewrite !Z.land_spec, Z.ldiff_spec.
    by destruct (Z.testbit flags i), (Z.testbit e i), (Z.testbit FE_ALL_EXCEPT i).
Qed.
End Exact.

(** ** An instance *)

(** The flags of an x86 processor. *)
Definition x86_flags : FpExceptions :=
  {| FE_DIVBYZERO := 4; FE_INEXACT := 32; FE_INVALID := 1; FE_OVERFLOW := 8; FE_UNDERFLOW := 16;
     FE_ALL_EXCEPT := 61 |}.
Lemma x86_flags_ok : @FpExceptionsOk x86_flags.
Proof.
  constructor.
  - intros e He. unfold fe_macros in He. cbn in He. set_solver.
  - intros e He. unfold fe_macros in He. cbn in He. rewrite !elem_of_cons, elem_of_nil in He.
    by destruct He as [->|[->|[->|[->|[->|[]]]]]].
  - intros i j e e' Hi Hj Hne. unfold fe_macros in *. cbn in Hi, Hj.
    do 5 (destruct i as [|i]; [injection Hi as <-; do 5 (destruct j as [|j]; [by injection Hj as <-|]); done|]).
    done.
Qed.

Definition demo_literals : fp_literals := mk_fp_literals 1000 1200 1300 1400 1500 1600 1700.
Definition demo_fp_texts : list (Z * list Z) :=
  [(1000, statement_format); (1200, exception_format); (1300, divbyzero_text); (1400, inexact_text);
   (1500, invalid_text); (1600, overflow_text); (1700, underflow_text); (1800, chars "x = a * b;")].
Definition demo_fp_io : io :=
  mk_io (foldr (fun t m => write m t.1 (t.2 ++ [0])) demo_buffer demo_fp_texts) [] 0.

Lemma demo_fp_text p l : bool_decide (Forall (fun t => t.1 + Z.of_nat (List.length t.2) < 4096) [(p, l)]) = true ->
  bool_decide (0 <= p) = true -> cstr (io_mem demo_fp_io) p l -> text (io_mem demo_fp_io) 4096 p l.
Proof.
  intros H%bool_decide_eq_true H0%bool_decide_eq_true Hc. apply Forall_inv in H. cbn in H.
  split; [unfold in_u; lia|]. split; [done|]. left. lia.
Qed.

(** An overflow is reported as a rounded result. *)
Lemma floating_point_exception_exact_witness : exists m',
  @floating_point_exception x86_flags 4096 demo_literals demo_fp_io 40 1800 =
    Ret (mk_io m' (map (fun c => (1, [c])) (@fp_report x86_flags 40 (chars "x = a * b;"))) 0, 0) /\
  @diagnosis x86_flags 40 = Some inexact_text.
Proof.
  destruct (@floating_point_exception_exact x86_flags x86_flags_ok demo_fp_io 4096 demo_literals 40 1800
    (chars "x = a * b;")) as ((m' & _ & E) & _ & _).
  - apply accessible_check. vm_compute. reflexivity.
  - split_and!; try (split; [done|]); (apply demo_fp_text; [reflexivity..|apply cstr_check; vm_compute; reflexivity]).
  - apply demo_fp_text; [reflexivity..|apply cstr_check; vm_compute; reflexivity].
  - exists m'. split; [exact E|reflexivity].
Defined.
