(* ===== verification/DebugLog.v ===== *)
(** * e_acsl_debug.h and the internal assertions of e_acsl_assert.h

    The choice of the descriptor of the debug log, and [vassert_fail], which composes
    the format of its message at run time. *)

From S2P Require Import Prelude LibcString LibcStringSpec LibcStdlib LibcStdlibTheorems Digits Printf PrintfSpec PrintfOutput PrintfTheorems RuntimeAssert.
From Stdlib Require Import String Ascii.

(** ** Definitions *)

Definition vassert_format : list Z := (chars "%s at %s:%d" ++ nl)%list.
Definition open_format : list Z := (chars "Cannot open file descriptor for %s" ++ nl)%list.

Section Debug.
Context (bf : Z).

(** The message is formatted into an array on the stack, at [buf] with the
    indeterminate bytes [junk], and that array is the format of the output. *)
Definition vassert_fail (PATH_MAX afmt buf junk : Z) (s : io) (expr line file fmt : Z) (va : list va_val)
  : outcome (ending * io) :=
  if expr =? 0 then
    let* n := strlen (io_mem s) fmt in
    let* k := strlen (io_mem s) afmt in
    let s := mk_io (mem_fill (Z.to_nat (n + k + PATH_MAX + 11)) buf junk ∪ io_mem s) (io_out s) (io_ptr s) in
    let* (_, s) := rtl_sprintf bf s buf afmt [V64 fmt; V64 file; V32 (u32 line)] in
    let* s := _format bf _charc_stderr s buf va in
    Ret (runtime_abort, s)
  else Ret (Continues, s).

(** The descriptor of the log: [open_] is the result of open(2) on the name. *)
Definition initialize_report_file (open_ : Z) (dash one message : Z) (s : io) (dlog_name : Z)
  : outcome (ending * Z * io) :=
  let* c := strcmp (io_mem s) dlog_name dash in
  let* std := if c =? 0 then Ret true else
    let* c := strcmp (io_mem s) dlog_name one in Ret (c =? 0) in
  let dlog_fd := if (std : bool) then 2 else open_ in
  if dlog_fd =? -1 then
    let* (e, s) := vabort bf s message [V64 dlog_name] in Ret (e, dlog_fd, s)
  else Ret (Continues, dlog_fd, s).
End Debug.

(** ** Properties *)

Lemma strcmp_zero m p q l l' : cstr m p l -> cstr m q l' ->
  exists r, strcmp m p q = Ret r /\ (r =? 0) = bool_decide (l = l').
Proof.
  intros Hl Hl'. unfold strcmp.
  destruct (strcmp_loop_cstr (steps m) m p q 0 l l') as (r & E & Hr & _).
  - by rewrite Z.add_0_r.
  - by rewrite Z.add_0_r.
  - by eapply cstr_steps.
  - exists r. split; [done|]. apply eq_bool_prop_intro. rewrite bool_decide_spec. rewrite <- Hr.
    destruct (Z.eqb_spec r 0); naive_solver.
Qed.

(** The descriptor of the log, and whether there is one. *)
Definition log_descriptor (name : list Z) (open_ : Z) : Z :=
  if bool_decide (name = chars "-") || bool_decide (name = chars "1") then 2 else open_.

(** [initialize_report_file] logs to the error stream when the name is - or 1, and
    otherwise to the file that is opened; when that fails, the name is reported on the
    error stream and the program receives SIGABRT. *)
Theorem initialize_report_file_exact (s : io) (bf open_ dash one message dlog_name : Z) (N : list Z) :
  let m := io_mem s in
  accessible m bf 256 -> text m bf dash (chars "-") -> text m bf one (chars "1") ->
  text m bf message open_format -> text m bf dlog_name N ->
  exists m', keeps bf m m' /\
    initialize_report_file bf open_ dash one message s dlog_name =
      if log_descriptor N open_ =? -1
      then Ret (Raises_abort, -1,
             mk_io m' (io_out s ++ map (fun c => (2, [c]))
               (chars "Cannot open file descriptor for " ++ N ++ nl)%list) (io_ptr s))
      else Ret (Continues, log_descriptor N open_, s).
Proof.
  intros m Ha Hd Ho Hm HN. unfold initialize_report_file, log_descriptor.
  destruct (strcmp_zero m dlog_name dash N _ ltac:(apply HN) ltac:(apply Hd)) as (r & Er & Hr).
  destruct (strcmp_zero m dlog_name one N _ ltac:(apply HN) ltac:(apply Ho)) as (r' & Er' & Hr').
  fold m. rewrite Er. cbn [obind]. rewrite Hr.
  destruct (eprintf_spec s bf message open_format [V64 dlog_name] (chars "Cannot open file descriptor for " ++ N ++ nl)%list)
    as (m' & Km & E); [|apply Hm|apply Hm|done|].
  { piece (chars "Cannot open file descriptor for "). apply (formats_text_arg _ bf dlog_name N); [done|]. last_piece nl. }
  exists m'. split; [done|]. destruct (bool_decide (N = chars "-")); [done|].
  cbn [orb]. rewrite Er'. cbn [obind]. rewrite Hr'. destruct (bool_decide (N = chars "1")); [done|].
  destruct (Z.eqb_spec open_ (-1)) as [->|]; [|done]. unfold vabort. by rewrite E.
Qed.

Definition demo_log_io (name : string) : io :=
  mk_io (foldr (fun t m => write m t.1 (t.2 ++ [0])) demo_buffer
    [(1000, chars "-"); (1010, chars "1"); (1100, open_format); (1200, chars name)]) [] 0.

(** The log cannot be opened. *)
Lemma initialize_report_file_exact_witness : exists m',
  initialize_report_file 4096 (-1) 1000 1010 1100 (demo_log_io "/log") 1200 =
    Ret (Raises_abort, -1, mk_io m' (map (fun c => (2, [c]))
      (chars "Cannot open file descriptor for " ++ chars "/log" ++ nl)%list) 0).
Proof.
  destruct (initialize_report_file_exact (demo_log_io "/log") 4096 (-1) 1000 1010 1100 1200 (chars "/log"))
    as (m' & _ & E).
  - apply accessible_check. vm_compute. reflexivity.
  - by split_and!; [| apply cstr_check; vm_compute | left].
  - by split_and!; [| apply cstr_check; vm_compute | left].
  - by split_and!; [| apply cstr_check; vm_compute | left].
  - by split_and!; [| apply cstr_check; vm_compute | left].
  - exists m'. exact E.
Defined.

(** [vassert_fail] formats its arguments behind its own message and the name of the
    file; that text is a format: a percent sign in the name of the file is taken for a
    directive, and reads an argument that the call does not have. *)
Definition demo_vassert_io (file : string) : io :=
  mk_io (foldr (fun t m => write m t.1 (t.2 ++ [0])) demo_buffer
    [(1000, vassert_format); (1100, chars "size %d"); (1200, chars file)]) [] 0.
Definition demo_vassert (file : string) : outcome (ending * io) :=
  vassert_fail 4096 64 1000 8192 205 (demo_vassert_io file) 0 12 1200 1100 [V32 7].

Theorem vassert_fail_formats_file_name :
  (let* (e, s) := demo_vassert "a.c" in Ret (e, io_out s)) =
    Ret (Raises_abort, map (fun c => (2, [c])) (chars "size 7 at a.c:12" ++ nl)%list) /\
  (forall r, demo_vassert "a%s.c" <> Ret r).
Proof. split; [vm_compute; reflexivity|]. intros r. vm_compute. discriminate. Qed.
