(* ===== verification/AllocContracts.v ===== *)
(** * Contracts of the functions that allocate

    calloc and posix_memalign of stdlib.h, strdup and strndup of string.h, against the
    contract of malloc and the axiom of __fc_alloc_axiomatic.h.  The functions are those
    of LibcStdlib and LibcString; malloc has no code under share/libc. *)

From S2P Require Import Prelude LibcString LibcStringSpec LibcStdlib LibcStdlibTheorems AcslString.

(** ** The logic *)

(** [\fresh(p, n)]: the [n] bytes at [p] were not allocated before the call, and are
    after it; the other bytes are as before. *)
Record fresh (m m' : mem) (p n : Z) : Prop := mk_fresh {
  fresh_base : 0 < p < 2 ^ 64 /\ 0 <= n /\ p + n <= 2 ^ 64;
  fresh_new : forall x, p <= x < p + n -> m !! x = None /\ is_Some (m' !! x);
  fresh_frame : forall x, ~ (p <= x < p + n) -> m' !! x = m !! x
}.

(** [is_allocable], with its axiom, and the contract of [malloc]. *)
Class Malloc : Type := {
  is_allocable : mem -> Z -> bool;
  malloc : mem -> Z -> Z * mem
}.
Class MallocOk `{ML : !Malloc} : Prop := {
  never_allocable : forall m i, i < 0 \/ 2 ^ 64 <= i -> is_allocable m i = false;
  malloc_allocation : forall m n, mem_ok m -> is_allocable m n = true ->
    exists p m', malloc m n = (p, m') /\ fresh m m' p n /\ mem_ok m';
  malloc_no_allocation : forall m n, is_allocable m n = false -> malloc m n = (NULL, m)
}.

(** The longest string at [s] of at most [n] characters. *)
Definition nchars (m : mem) (s n : Z) (l : list Z) : Prop :=
  bytes m s l /\ Forall (fun b => 0 < b < 256) l /\
  (Z.of_nat (length l) = n \/ Z.of_nat (length l) < n /\ m !! (s + Z.of_nat (length l)) = Some 0).

(** [valid_string(p)] with the characters [l], in the [n] bytes allocated at [p]. *)
Definition valid_string_in (m : mem) (p n : Z) (l : list Z) : Prop := cstr m p l /\ Z.of_nat (length l) < n.

(** ** The contracts, on the result and the memory at the return *)

Section Contracts.
Context `{ML : !Malloc}.

(** The behaviors [allocation] and [no_allocation]. *)
Definition alloc_behaviors (m : mem) (n : Z) (yes no : Prop) : Prop := if is_allocable m n then yes else no.

Definition calloc_contract (m : mem) (nmemb size : Z) (r : Z) (m' : mem) : Prop :=
  alloc_behaviors m (nmemb * size)
    (fresh m m' r (nmemb * size) /\ forall x, r <= x < r + nmemb * size -> m' !! x = Some 0)
    (r = NULL /\ m' = m).

(** The contract of [posix_memalign] as it is written: it assigns the result, but not
    [ *memptr]. *)
Definition posix_memalign_requires (m : mem) (memptr alignment : Z) : Prop :=
  accessible m memptr 8 /\ 8 <= alignment /\ Z.land alignment (alignment - 1) = 0.
Definition posix_memalign_contract (m : mem) (memptr size : Z) (r : Z) (m' : mem) : Prop :=
  alloc_behaviors m size
    (r = 0 /\ exists p, load64 m' memptr = Ret p /\ fresh m m' p size)
    (r <> 0 /\ m' = m).

(** What the code does: a fresh block, which need not be aligned, and then a store of its
    address, or of null. *)
Definition allocates_into (m : mem) (memptr size : Z) (r : Z) (m' : mem) : Prop :=
  alloc_behaviors m size
    (r = 0 /\ exists p m1, fresh m m1 p size /\ store64 m1 memptr p = Ret m' /\ load64 m' memptr = Ret p)
    (r = LibcString.ENOMEM /\ store64 m memptr NULL = Ret m').

(** The contracts of [strdup] and [strndup] as they are written, for a string with the
    characters [l]: the block has the length of the string. *)
Definition strdup_contract (m : mem) (l : list Z) (r : Z) (m' : mem) : Prop :=
  let n := Z.of_nat (length l) in
  alloc_behaviors m n (fresh m m' r n /\ valid_string_in m' r n l) (r = NULL).

(** What the code does: one byte more, and [errno] is set when there is no room. *)
Definition duplicates (m : mem) (errno : Z) (l : list Z) (x : Z * mem * Z) : Prop :=
  let '(r, m', e) := x in
  let n := Z.of_nat (length l) + 1 in
  alloc_behaviors m n (fresh m m' r n /\ valid_string_in m' r n l /\ e = errno)
    (r = NULL /\ m' = m /\ e = LibcString.ENOMEM).
End Contracts.

(** ** Lemmas *)

Section Fresh.
Context (m m' : mem) (p n : Z) (Hf : fresh m m' p n).

Lemma fresh_accessible : accessible m' p n.
Proof using Hf. intros x Hx. by apply (fresh_new _ _ _ _ Hf). Qed.

Lemma fresh_keeps x b : m !! x = Some b -> m' !! x = Some b /\ ~ (p <= x < p + n).
Proof using Hf.
  intros E. assert (~ (p <= x < p + n)) as Hx.
  - intros Hx. destruct (fresh_new _ _ _ _ Hf x Hx). congruence.
  - split; [|done]. by rewrite (fresh_frame _ _ _ _ Hf x Hx).
Qed.

(** A range of old bytes does not meet the block. *)
Lemma fresh_separated q k : 0 < n -> 0 < k -> accessible m q k -> q + k <= p \/ p + n <= q.
Proof using Hf.
  intros Hn Hk Ha. destruct (decide (q + k <= p)); [by left|]. right.
  destruct (decide (p + n <= q)); [done|]. exfalso.
  assert (exists x, p <= x < p + n /\ q <= x < q + k) as (x & Hx & Hq).
  - destruct (decide (p <= q)); [exists q|exists p]; lia.
  - destruct (Ha x Hq) as [b E]. by apply (fresh_keeps x b) in E as [_ ?].
Qed.

Lemma fresh_write m2 : (forall x, p <= x < p + n -> is_Some (m2 !! x)) ->
  (forall x, ~ (p <= x < p + n) -> m2 !! x = m' !! x) -> fresh m m2 p n.
Proof using Hf.
  intros Hin Hout. constructor; [apply Hf|..].
  - intros x Hx. split; [by apply (fresh_new _ _ _ _ Hf)|by apply Hin].
  - intros x Hx. rewrite Hout by done. by apply (fresh_frame _ _ _ _ Hf).
Qed.
End Fresh.

Lemma fresh_bytes m m' p n q l : fresh m m' p n -> bytes m q l -> bytes m' q l.
Proof. intros Hf Hb i b E. by apply (fresh_keeps m m' p n Hf), Hb. Qed.

Lemma bytes_copied m m' d q l : bytes m q l ->
  (forall x, d <= x < d + Z.of_nat (length l) -> m' !! x = m !! (x - d + q)) -> bytes m' d l.
Proof.
  intros Hb Hx i b E. pose proof (lookup_lt_Some _ _ _ E). rewrite Hx by lia.
  replace (d + Z.of_nat i - d + q) with (q + Z.of_nat i) by lia. by apply Hb.
Qed.

Section Allocations.
Context `{ML : !Malloc, MLok : !MallocOk}.

Lemma allocable_size m n : is_allocable m n = true -> in_u 64 n.
Proof using MLok.
  intros H. unfold in_u. destruct (Z.ltb_spec n 0), (Z.leb_spec (2 ^ 64) n); try lia;
    rewrite never_allocable in H by lia; done.
Qed.

(** ** calloc and posix_memalign *)

Lemma calloc_meets m nmemb size : mem_ok m -> in_u 64 nmemb -> in_u 64 size ->
  exists r m', calloc malloc m nmemb size = Ret (r, m') /\ calloc_contract m nmemb size r m'.
Proof using MLok.
  intros Hm Hn Hs. destruct (calloc_checks_overflow malloc m nmemb size Hn Hs) as [Hover Hok].
  unfold calloc_contract, alloc_behaviors. destruct (is_allocable m (nmemb * size)) eqn:E.
  - pose proof (allocable_size _ _ E) as Hsz. unfold in_u in Hsz.
    destruct (malloc_allocation m _ Hm E) as (p & m1 & Em & Hf & _).
    destruct (Hok p m1 ltac:(lia) Em) as [_ Hp]. pose proof (fresh_base _ _ _ _ Hf) as Hb.
    destruct (Hp ltac:(lia) (fresh_accessible _ _ _ _ Hf)) as (m2 & E2 & Hx).
    exists p, m2. split; [done|]. split.
    + apply (fresh_write _ _ _ _ Hf); intros x Hr; rewrite Hx; [rewrite decide_True|rewrite decide_False]; eauto.
    + intros x Hr. by rewrite Hx, decide_True.
  - exists NULL, m. split; [|done]. destruct (Z.le_gt_cases (2 ^ 64) (nmemb * size)) as [Hle|Hlt].
    + by apply Hover.
    + by apply (Hok NULL m Hlt (malloc_no_allocation m _ E)).
Qed.

Lemma posix_memalign_allocates m memptr alignment size : mem_ok m -> accessible m memptr 8 -> in_u 64 size ->
  exists r m', posix_memalign malloc m memptr alignment size = Ret (r, m') /\ allocates_into m memptr size r m'.
Proof using MLok.
  intros Hm Ha Hs. unfold posix_memalign, allocates_into, alloc_behaviors.
  destruct (is_allocable m size) eqn:E.
  - destruct (malloc_allocation m _ Hm E) as (p & m1 & -> & Hf & _).
    assert (accessible m1 memptr 8) as Ha1.
    { intros x Hx. destruct (Ha x Hx) as [b Hb]. exists b. by apply (fresh_keeps _ _ _ _ Hf). }
    destruct (store_le_bytes 8 m1 memptr p Ha1) as (m2 & E2 & _). unfold store64, load64. rewrite E2. cbn [obind].
    rewrite (load_store_le _ _ _ _ _ E2). pose proof (fresh_base _ _ _ _ Hf) as Hb.
    rewrite Z.mod_small by (change (8 * Z.of_nat 8) with 64; lia). cbn [obind].
    unfold i2b. rewrite (proj2 (Z.eqb_neq p 0)) by lia. cbn [negb].
    exists 0, m2. split; [done|]. split; [done|]. exists p, m1. split_and!; [done..|].
    rewrite (load_store_le _ _ _ _ _ E2). by rewrite Z.mod_small by (change (8 * Z.of_nat 8) with 64; lia).
  - rewrite (malloc_no_allocation m _ E).
    destruct (store_le_bytes 8 m memptr NULL Ha) as (m2 & E2 & _). unfold store64, load64. rewrite E2. cbn [obind].
    rewrite (load_store_le _ _ _ _ _ E2). cbn. eexists _, m2. split; [done|]. done.
Qed.

(** ** strdup and strndup *)

(** The copy of [k] bytes of old memory into a fresh block. *)
Lemma copy_into_fresh m m1 p n q k : fresh m m1 p n -> mem_ok m1 -> 0 <= k <= n -> accessible m q k ->
  exists m2, LibcString.memcpy m1 p q k = Ret (p, m2) /\ dom m2 = dom m1 /\
    forall x, m2 !! x = if decide (p <= x < p + k) then m !! (x - p + q) else m1 !! x.
Proof.
  intros Hf Hm1 Hk Ha. unfold LibcString.memcpy.
  assert (accessible m1 q k) as Ha1.
  { intros x Hx. destruct (Ha x Hx) as [b Hb]. exists b. by apply (fresh_keeps _ _ _ _ Hf). }
  assert (accessible m1 p k) as Hp1.
  { eapply accessible_sub; [apply (fresh_accessible _ _ _ _ Hf)|lia..]. }
  destruct (Z.eq_dec k 0) as [->|Hk0].
  { exists m1. split; [done|]. split; [done|]. intros x. by rewrite decide_False by lia. }
  destruct (fresh_separated _ _ _ _ Hf q k ltac:(lia) ltac:(lia) Ha) as [Hsep|Hsep].
  all: destruct (copy_up m1 p q k Hm1 ltac:(lia) Ha1 Hp1 ltac:(lia)) as (m2 & -> & Hd & Hx); cbn [obind].
  all: exists m2; split; [done|]; split; [done|]; intros x; rewrite Hx; case_decide; [|done].
  all: apply (fresh_frame _ _ _ _ Hf); lia.
Qed.

Lemma strdup_duplicates m errno s l : mem_ok m -> cstr m s l -> Z.of_nat (length l) + 1 < 2 ^ 64 ->
  exists x, strdup malloc m errno s = Ret x /\ duplicates m errno l x.
Proof using MLok.
  intros Hm Hc Hl. unfold strdup. rewrite (strlen_cstr _ _ _ Hc). cbn [obind].
  rewrite u64_small by (unfold in_u; lia). unfold duplicates, alloc_behaviors.
  destruct (is_allocable m (Z.of_nat (length l) + 1)) eqn:E.
  - destruct (malloc_allocation m _ Hm E) as (p & m1 & -> & Hf & Hm1).
    rewrite (proj2 (Z.eqb_neq p NULL)) by (pose proof (fresh_base _ _ _ _ Hf); unfold NULL; lia).
    assert (length (l ++ [0]) = (length l + 1)%nat) as Hlen by (rewrite length_app; done).
    destruct (copy_into_fresh m m1 p _ s (Z.of_nat (length l) + 1) Hf Hm1) as (m2 & -> & Hd & Hx); [lia| |].
    { replace (Z.of_nat (length l) + 1) with (Z.of_nat (length (l ++ [0]))) by lia. apply bytes_accessible, Hc. }
    cbn [obind]. eexists. split; [done|]. split; [|split; [|done]].
    + apply (fresh_write _ _ _ _ Hf); intros x Hr.
      * apply (accessible_dom m1 m2 p _ Hd (fresh_accessible _ _ _ _ Hf)). lia.
      * by rewrite Hx, decide_False.
    + split; [|lia]. split; [|apply Hc]. apply (bytes_copied m m2 p s); [apply Hc|].
      intros x Hr. rewrite Hx, decide_True by lia. done.
  - rewrite (malloc_no_allocation m _ E). cbn. eexists. split; [done|]. done.
Qed.

Lemma strnlen_loop_nchars k m s i l : nchars m (s + i) (Z.of_nat k) l ->
  strnlen_loop k m s i = Ret (i + Z.of_nat (length l)).
Proof.
  revert i l. induction k as [|k IH]; intros i l (Hb & Hl & Hend); cbn [strnlen_loop].
  - destruct l; [cbn; f_equal; lia|cbn in Hend; lia].
  - destruct l as [|c l].
    + destruct Hend as [Hend|[_ Hend]]; [cbn in Hend; lia|]. cbn in Hend. rewrite Z.add_0_r in Hend.
      rewrite (load8_ok _ _ _ Hend). cbn. f_equal. lia.
    + pose proof (Hb 0%nat c eq_refl) as Ec. cbn in Ec. rewrite Z.add_0_r in Ec.
      rewrite (load8_ok _ _ _ Ec). cbn [obind]. apply Forall_cons in Hl as [Hc Hl].
      rewrite (proj2 (Z.eqb_neq c 0)) by lia. rewrite (IH (i + 1) l).
      * cbn [length]. f_equal. lia.
      * split; [|split; [done|]].
        -- intros j b Ej. specialize (Hb (S j) b Ej). rewrite <- Hb. f_equal. lia.
        -- cbn [length] in Hend. destruct Hend as [Hend|[Hlt Hend]]; [left; lia|right]. split; [lia|].
           rewrite <- Hend. f_equal. lia.
Qed.

Lemma strndup_duplicates m errno s n l : mem_ok m -> 0 <= n -> nchars m s n l ->
  Z.of_nat (length l) + 1 < 2 ^ 64 ->
  exists x, strndup malloc m errno s n = Ret x /\ duplicates m errno l x.
Proof using MLok.
  intros Hm Hn Hc Hl. unfold strndup, strnlen.
  rewrite (strnlen_loop_nchars (Z.to_nat n) m s 0 l) by (by rewrite Z.add_0_r, Z2Nat.id).
  cbn [obind]. rewrite Z.add_0_l, u64_small by (unfold in_u; lia). unfold duplicates, alloc_behaviors.
  destruct (is_allocable m (Z.of_nat (length l) + 1)) eqn:E.
  - destruct (malloc_allocation m _ Hm E) as (p & m1 & -> & Hf & Hm1).
    rewrite (proj2 (Z.eqb_neq p NULL)) by (pose proof (fresh_base _ _ _ _ Hf); unfold NULL; lia).
    destruct Hc as (Hb & Hnz & _).
    destruct (copy_into_fresh m m1 p _ s (Z.of_nat (length l)) Hf Hm1) as (m2 & -> & Hd & Hx);
      [lia|by apply bytes_accessible|].
    cbn [obind]. pose proof (fresh_accessible _ _ _ _ Hf) as Hacc.
    assert (accessible m2 p (Z.of_nat (length l) + 1)) as Hacc2 by by apply (accessible_dom m1).
    rewrite store8_spec by (apply Hacc2; lia). cbn [obind]. eexists. split; [done|]. split; [|split; [|done]].
    + apply (fresh_write _ _ _ _ Hf); intros x Hr.
      * destruct (decide (x = p + Z.of_nat (length l))) as [->|Hne]; [rewrite lookup_insert_eq; eauto|].
        rewrite lookup_insert_ne by done. by apply Hacc2.
      * rewrite lookup_insert_ne by lia. rewrite Hx, decide_False by lia. done.
    + split; [|lia]. split; [|done]. intros i b Ei. destruct (decide (i < length l)%nat) as [Hi|Hi].
      * rewrite lookup_app_l in Ei by lia. rewrite lookup_insert_ne by lia.
        rewrite Hx, decide_True by lia. rewrite <- (Hb i b Ei). f_equal. lia.
      * pose proof (lookup_lt_Some _ _ _ Ei) as Hlt. rewrite length_app in Hlt. cbn in Hlt.
        assert (i = length l) as -> by lia. rewrite lookup_app_r, Nat.sub_diag in Ei by lia.
        injection Ei as <-. by rewrite lookup_insert_eq.
  - rewrite (malloc_no_allocation m _ E). cbn. eexists. split; [done|]. done.
Qed.

(** C28.  With a [malloc] that meets its contract: [calloc] meets its own, overflow of the
    product included; [posix_memalign] stores at [memptr] the address of a fresh block,
    whatever the alignment, and answers 0, or stores null and answers [ENOMEM], which
    is not its contract (see [allocation_contracts_violated]); [strdup] and [strndup] answer
    a fresh terminated copy of the string, or of its first [n] characters, in a block
    with one byte for the terminator, and null with [errno] set when that cannot be
    allocated; no other byte is changed. *)
Theorem allocations_exact (m : mem) (nmemb size memptr alignment errno s n : Z) (l l' : list Z) :
  mem_ok m -> in_u 64 nmemb -> in_u 64 size -> accessible m memptr 8 ->
  cstr m s l -> Z.of_nat (length l) + 1 < 2 ^ 64 ->
  0 <= n -> nchars m s n l' -> Z.of_nat (length l') + 1 < 2 ^ 64 ->
  (exists r m', calloc malloc m nmemb size = Ret (r, m') /\ calloc_contract m nmemb size r m') /\
  (exists r m', posix_memalign malloc m memptr alignment size = Ret (r, m') /\
     allocates_into m memptr size r m') /\
  (exists x, strdup malloc m errno s = Ret x /\ duplicates m errno l x) /\
  (exists x, strndup malloc m errno s n = Ret x /\ duplicates m errno l' x).
Proof using MLok.
  intros Hm Hn Hs Ha Hc Hl Hn0 Hc' Hl'. split_and!;
    [by apply calloc_meets|by apply posix_memalign_allocates|by apply strdup_duplicates|by apply strndup_duplicates].
Qed.

(** ** Departures *)

Lemma load64_frame m m' q : (forall x, q <= x < q + 8 -> m' !! x = m !! x) -> load64 m' q = load64 m q.
Proof.
  intros H. unfold load64. assert (forall n p, q <= p -> p + Z.of_nat n <= q + 8 -> load_le n m' p = load_le n m p) as L.
  { induction n as [|n IH]; intros p H1 H2; [done|]. cbn [load_le]. unfold load8. rewrite H by lia.
    destruct (m !! p); [|done]. cbn [obind]. by rewrite IH by lia. }
  apply L; lia.
Qed.

(** The contract of [strdup] cannot be met when the allocation is possible: a block of
    as many bytes as the string has characters has no room for the terminator.  The
    contract of [posix_memalign] cannot be met either if [ *memptr] is null before the
    call: it does not assign [ *memptr], which has to be the address of the new block. *)
Theorem allocation_contracts_violated :
  (forall m l r m', is_allocable m (Z.of_nat (length l)) = true -> ~ strdup_contract m l r m') /\
  (forall m memptr alignment size r m', is_allocable m size = true ->
     posix_memalign_requires m memptr alignment -> load64 m memptr = Ret NULL ->
     ~ posix_memalign_contract m memptr size r m').
Proof.
  split.
  - intros m l r m' E. unfold strdup_contract, alloc_behaviors. rewrite E. intros [_ [_ H]]. lia.
  - intros m memptr alignment size r m' E [Ha _] H0. unfold posix_memalign_contract, alloc_behaviors. rewrite E.
    intros (_ & p & Hp & Hf). assert (load64 m' memptr = load64 m memptr) as El.
    { apply load64_frame. intros x Hx. destruct (Ha x Hx) as [b Hb].
      destruct (fresh_keeps _ _ _ _ Hf x b Hb) as [-> _]. done. }
    rewrite El, H0 in Hp. injection Hp as <-. pose proof (fresh_base _ _ _ _ Hf). unfold NULL in *. lia.
Qed.
End Allocations.

(** ** An instance *)

(** Blocks above every byte of the memory, filled with the byte 205. *)
Definition top (m : mem) : Z := set_fold Z.max 0 (dom m).
Definition room_above (m : mem) (n : Z) : bool := (0 <=? n) && (top m + 1 + n <? 2 ^ 64).
Definition above_malloc : Malloc := {|
  is_allocable := room_above;
  malloc := fun m n => if room_above m n then (top m + 1, mem_fill (Z.to_nat n) (top m + 1) 205 ∪ m) else (NULL, m)
|}.

Lemma top_spec m : 0 <= top m /\ forall x, is_Some (m !! x) -> x <= top m.
Proof.
  unfold top. assert (forall X : gset Z, 0 <= set_fold Z.max 0 X /\ forall x, x ∈ X -> x <= set_fold Z.max 0 X) as H.
  - apply (set_fold_ind_L (fun r (X : gset Z) => 0 <= r /\ forall x, x ∈ X -> x <= r)); [split; [lia|set_solver]|].
    intros x Y r _ [Hr HY]. split; [lia|]. intros y. rewrite elem_of_union, elem_of_singleton.
    intros [->|Hy]; [lia|]. specialize (HY y Hy). lia.
  - destruct (H (dom m)) as [H0 Hx]. split; [done|]. intros x Hs. apply Hx. by apply elem_of_dom.
Qed.

Lemma above_malloc_ok : @MallocOk above_malloc.
Proof.
  constructor; cbn [is_allocable malloc above_malloc].
  - intros m i Hi. unfold room_above. destruct (top_spec m) as [H0 _]. lia.
  - intros m n Hm Hn. rewrite Hn. unfold room_above in Hn. destruct (top_spec m) as [H0 Htop].
    eexists _, _. split; [done|]. split.
    + constructor; [lia|..].
      * intros x Hx. split.
        -- destruct (m !! x) eqn:E; [|done]. specialize (Htop x ltac:(eauto)). lia.
        -- rewrite lookup_union, mem_fill_lookup, decide_True by lia. destruct (m !! x); eauto.
      * intros x Hx. rewrite lookup_union, mem_fill_lookup, decide_False by lia. by destruct (m !! x).
    + intros x b. rewrite lookup_union_Some_raw. intros [E|[_ E]]; [|by apply (Hm x b)].
      apply (mem_fill_ok (Z.to_nat n) (top m + 1) 205) in E; [done|unfold in_u; lia].
  - intros m n ->. done.
Qed.

Lemma hello_mem_ok : mem_ok (write (mem_fill 16 4096 0) 4096 [104; 105; 0]).
Proof. apply mem_ok_check. vm_compute. reflexivity. Qed.

Lemma allocations_exact_witness : exists x,
  strdup (@malloc above_malloc) (write (mem_fill 16 4096 0) 4096 [104; 105; 0]) 7 4096 = Ret x /\
  @duplicates above_malloc (write (mem_fill 16 4096 0) 4096 [104; 105; 0]) 7 [104; 105] x.
Proof.
  destruct (@allocations_exact above_malloc above_malloc_ok (write (mem_fill 16 4096 0) 4096 [104; 105; 0])
    3 4 4104 16 7 4096 1 [104; 105] [104] hello_mem_ok) as (_ & _ & H & _).
  - split; [discriminate|reflexivity].
  - split; [discriminate|reflexivity].
  - intros x Hx. rewrite write_lookup, decide_False by (simpl; lia). rewrite mem_fill_lookup, decide_True by lia. eauto.
  - apply cstr_check; vm_compute; reflexivity.
  - reflexivity.
  - lia.
  - split; [|split; [by repeat constructor|by left]]. intros [|[|i]] b E; [injection E as <-; reflexivity|discriminate..].
  - reflexivity.
  - exact H.
Defined.
