(* ===== verification/CStringTheorems.v ===== *)
(** * The string helpers of e_acsl_string.h are exact

    Functional correctness of nstrcat, nstrdup, sappend, endswith and charcount on
    terminated strings; the private allocator is any one that meets the contract of
    [malloc], and the result of its [realloc] is described by [regrown]. *)

From S2P Require Import Prelude CString LibcString LibcStringSpec LibcStdlib AllocContracts.

(** ** What the functions promise *)

(** [realloc(q, n)] gave [p] for an object of [k] bytes: the contents are kept, and the
    bytes outside of the old object are untouched and not in the new one. *)
Record regrown (m m' : mem) (q k p n : Z) : Prop := mk_regrown {
  rg_base : 0 < p /\ p + n <= 2 ^ 64;
  rg_room : accessible m' p n;
  rg_kept : forall i, 0 <= i < Z.min k n -> m' !! (p + i) = m !! (q + i);
  rg_other : forall x b, m !! x = Some b -> ~ (q <= x < q + k) -> m' !! x = Some b /\ ~ (p <= x < p + n)
}.

(** A string apart from the [k] bytes at [q]. *)
Definition string_off (m : mem) (p : Z) (l : list Z) (q k : Z) : Prop :=
  cstr m p l /\ (p + Z.of_nat (length l) < q \/ q + k <= p).

(** The number of the characters [c]. *)
Definition occurrences (c : Z) (l : list Z) : nat := length (filter (fun b => b = c) l).

(** ** Comparison and search *)

Lemma strncmp_equal_length n m p q a b : cstr m p a -> cstr m q b -> length a = n -> length b = n ->
  exists r, CString.strncmp n m p q = Ret r /\ (r = 0 <-> a = b).
Proof.
  revert p q a b. induction n as [|n IH]; intros p q [|x a] [|y b] Ha Hb Hla Hlb; try discriminate.
  - by exists 0.
  - rewrite cstr_cons in Ha, Hb. destruct Ha as (Ex & Hx & Ha), Hb as (Ey & Hy & Hb). cbn [CString.strncmp].
    rewrite (load8_ok _ _ _ Ex), (load8_ok _ _ _ Ey). cbn [obind].
    destruct (Z.eqb_spec x y) as [<-|Hne]; cbn [negb].
    + rewrite (proj2 (Z.eqb_neq x 0)) by lia. injection Hla as Hla. injection Hlb as Hlb.
      destruct (IH (p + 1) (q + 1) a b Ha Hb Hla Hlb) as (r & -> & Hr). exists r. split; [done|].
      rewrite Hr. split; [by intros ->|by intros [= ->]].
    + eexists. split; [done|]. split; [destruct (x <? y); discriminate|by intros [= ? _]].
Qed.

(** The end of a string is a string. *)
Lemma cstr_app m p a b : cstr m p (a ++ b) -> cstr m (p + Z.of_nat (length a)) b.
Proof.
  revert p. induction a as [|x a IH]; intros p H; cbn [length app] in *; [by rewrite Z.add_0_r|].
  rewrite cstr_cons in H. destruct H as (_ & _ & H). apply IH in H.
  by replace (p + Z.of_nat (S (length a))) with (p + 1 + Z.of_nat (length a)) by lia.
Qed.

Lemma strchr_first fuel m p c l : cstr m p l -> (length l < fuel)%nat -> 0 < c ->
  (CString.strchr fuel m p c = Ret NULL /\ c ∉ l) \/
  exists a b, l = a ++ c :: b /\ c ∉ a /\ CString.strchr fuel m p c = Ret (p + Z.of_nat (length a)).
Proof.
  revert p l. induction fuel as [|fuel IH]; intros p l H Hf Hc; [lia|]. cbn [CString.strchr].
  destruct l as [|x l]; rewrite ?cstr_nil, ?cstr_cons in H.
  - rewrite (load8_ok _ _ _ H). cbn [obind]. rewrite (proj2 (Z.eqb_neq 0 c)) by lia. left. split; [done|set_solver].
  - destruct H as (E & Hx & H). rewrite (load8_ok _ _ _ E). cbn [obind].
    destruct (Z.eqb_spec x c) as [->|Hne].
    + right. exists [], l. split; [done|]. split; [set_solver|]. cbn. by rewrite Z.add_0_r.
    + rewrite (proj2 (Z.eqb_neq x 0)) by lia.
      destruct (IH (p + 1) l H ltac:(cbn in Hf; lia) Hc) as [[-> Hno]|(a & b & -> & Ha & ->)].
      * left. split; [done|set_solver].
      * right. exists (x :: a), b. split; [done|]. split; [set_solver|]. f_equal. cbn. lia.
Qed.

Lemma occurrences_none c l : c ∉ l -> occurrences c l = 0%nat.
Proof.
  intros H. unfold occurrences. induction l as [|x l IH]; [done|].
  rewrite filter_cons_False by set_solver. apply IH. set_solver.
Qed.
Lemma occurrences_next c a b : c ∉ a -> occurrences c (a ++ c :: b) = S (occurrences c b).
Proof.
  intros H. unfold occurrences. rewrite filter_app, length_app. fold (occurrences c a).
  rewrite occurrences_none by done. by rewrite filter_cons_True.
Qed.

(** ** The helpers *)

Section Helpers.
Context (fuel : nat).

Lemma endswith_spec m p q l k : p <> NULL -> q <> NULL -> cstr m p l -> cstr m q k ->
  (length l < fuel)%nat -> (length k < fuel)%nat ->
  exists r, endswith fuel m p q = Ret r /\ (r = 0 <-> k `suffix_of` l).
Proof.
  intros Hp Hq Hl Hk Hfl Hfk. unfold endswith.
  rewrite (proj2 (Z.eqb_neq p NULL) Hp), (proj2 (Z.eqb_neq q NULL) Hq). cbn [negb andb].
  rewrite (strlen_loop_cstr fuel m p 0 l), (strlen_loop_cstr fuel m q 0 k) by (done || by rewrite Z.add_0_r).
  cbn [obind]. destruct (Z.leb_spec (0 + Z.of_nat (length k)) (0 + Z.of_nat (length l))) as [Hle|Hlt].
  - set (d := (length l - length k)%nat).
    destruct (strncmp_equal_length (Z.to_nat (0 + Z.of_nat (length k))) m (p + (0 + Z.of_nat (length l) - (0 + Z.of_nat (length k)))) q
      (drop d l) k) as (r & -> & Hr).
    + replace (0 + Z.of_nat (length l) - (0 + Z.of_nat (length k))) with (Z.of_nat (length (take d l)))
        by (rewrite length_take; lia).
      apply cstr_app. by rewrite take_drop.
    + done.
    + rewrite length_drop. lia.
    + lia.
    + exists r. split; [done|]. rewrite Hr. split.
      * intros E. exists (take d l). transitivity (take d l ++ drop d l); [by rewrite take_drop|by f_equal].
      * intros [a E]. unfold d. rewrite E, length_app. apply drop_app_length'. lia.
  - exists 1. split; [done|]. split; [done|]. intros [a ->]. rewrite length_app in Hlt. lia.
Qed.

Lemma charcount_loop_counts m c : 0 < c -> forall n p l count, cstr m p l -> (length l < fuel)%nat ->
  (occurrences c l < n)%nat -> 0 <= count -> count + Z.of_nat (length l) < 2 ^ 31 -> 0 < p ->
  charcount_loop fuel n m p c count = Ret (count + Z.of_nat (occurrences c l)).
Proof.
  intros Hc. induction n as [|n IH]; intros p l count Hl Hf Hn H0 Hb Hp; [lia|]. cbn [charcount_loop].
  destruct (strchr_first fuel m p c l Hl Hf Hc) as [[-> Hno]|(a & b & -> & Ha & ->)]; cbn [obind].
  - cbn. rewrite occurrences_none by done. f_equal. lia.
  - rewrite (proj2 (Z.eqb_neq _ NULL)) by (unfold NULL; lia). cbn [negb].
    rewrite occurrences_next in * by done. rewrite length_app in *. cbn [length] in *.
    rewrite s32_small by lia. rewrite (IH _ b).
    + f_equal. lia.
    + rewrite cons_middle, app_assoc in Hl. apply cstr_app in Hl. rewrite length_app in Hl. cbn in Hl.
      by replace (p + Z.of_nat (length a) + 1) with (p + Z.of_nat (length a + 1)) by lia.
    + lia.
    + lia.
    + lia.
    + lia.
    + lia.
Qed.

Lemma nstrcat_spec m p q l k : mem_ok m -> cstr m p l -> cstr m q k ->
  accessible m p (Z.of_nat (length l) + Z.of_nat (length k) + 1) ->
  q + Z.of_nat (length k) < p \/ p + Z.of_nat (length l) + Z.of_nat (length k) < q ->
  (length l < fuel)%nat -> (length k < fuel)%nat ->
  exists m', nstrcat fuel m p q = Ret (p, m') /\ cstr m' p (l ++ k) /\ dom m' = dom m /\ mem_ok m' /\
    forall x, ~ (p <= x <= p + Z.of_nat (length l) + Z.of_nat (length k)) -> m' !! x = m !! x.
Proof.
  intros Hm Hl Hk Hroom Hap Hfl Hfk. unfold nstrcat.
  rewrite (strlen_loop_cstr fuel m p 0 l), (strlen_loop_cstr fuel m q 0 k) by (done || by rewrite Z.add_0_r).
  cbn [obind]. rewrite !Z.add_0_l. pose proof (cstr_accessible _ _ _ Hk) as Hka.
  destruct (copy_up m (p + Z.of_nat (length l)) q (Z.of_nat (length k) + 1)) as (m' & E & Hd & Hx);
    [done|lia|done|eapply accessible_sub; [exact Hroom|lia..]|lia|].
  unfold Prelude.memcpy. rewrite E. cbn [obind]. exists m'. split; [done|]. split; [|split; [done|split]].
  - split; [|apply Forall_app; split; [apply Hl|apply Hk]]. rewrite <- app_assoc. intros i b Eb.
    destruct (decide (i < length l)%nat) as [Hi|Hi].
    + rewrite Hx, decide_False by lia. apply (proj1 Hl). rewrite lookup_app_l in Eb by lia. by rewrite lookup_app_l.
    + rewrite lookup_app_r in Eb by lia. pose proof (lookup_lt_Some _ _ _ Eb) as Hlt. rewrite length_app in Hlt. cbn in Hlt.
      rewrite Hx, decide_True by lia. rewrite <- (proj1 Hk _ _ Eb). f_equal. lia.
  - intros x b Eb. rewrite Hx in Eb. case_decide; by eapply Hm.
  - intros x Hr. by rewrite Hx, decide_False by lia.
Qed.
End Helpers.

(** ** Copies *)

Section Copies.
Context `{ML : !Malloc, MLok : !MallocOk} (fuel : nat).

(** [nstrdup] is [strdup] without [errno]. *)
Lemma nstrdup_strdup m errno s l : s <> NULL -> cstr m s l -> (length l < fuel)%nat ->
  nstrdup fuel malloc m s = let* x := strdup malloc m errno s in Ret x.1.
Proof.
  intros Hs Hl Hf. unfold nstrdup, strdup. rewrite (proj2 (Z.eqb_neq s NULL) Hs). cbn [negb].
  rewrite (strlen_loop_cstr fuel m s 0 l), (strlen_cstr _ _ _ Hl) by (done || by rewrite Z.add_0_r).
  cbn [obind]. rewrite Z.add_0_l. destruct (malloc m (u64 (Z.of_nat (length l) + 1))) as [p m1].
  destruct (p =? NULL); [done|]. unfold Prelude.memcpy, LibcString.memcpy. by destruct (for_range _ _ _ _).
Qed.

Lemma nstrdup_copies m s l : mem_ok m -> s <> NULL -> cstr m s l -> (length l < fuel)%nat ->
  Z.of_nat (length l) + 1 < 2 ^ 64 ->
  exists r m', nstrdup fuel malloc m s = Ret (r, m') /\
    alloc_behaviors m (Z.of_nat (length l) + 1)
      (fresh m m' r (Z.of_nat (length l) + 1) /\ cstr m' r l) (r = NULL /\ m' = m).
Proof using MLok.
  intros Hm Hs Hl Hf Hsz. destruct (strdup_duplicates m 0 s l Hm Hl Hsz) as ([[r m'] e] & E & Hd).
  rewrite (nstrdup_strdup m 0 s l Hs Hl Hf), E. exists r, m'. split; [done|].
  unfold duplicates, alloc_behaviors in *. destruct (is_allocable m _); [|tauto].
  destruct Hd as (Hfr & [Hc _] & _). done.
Qed.
End Copies.

Section Append.
Context (fuel : nat) (private_malloc : mem -> Z -> Z * mem) (private_realloc : mem -> Z -> Z -> Z * mem).

Lemma regrown_string m m' q k p n s l : regrown m m' q k p n -> string_off m s l q k -> 0 < k ->
  cstr m' s l /\ (0 < n -> s + Z.of_nat (length l) < p \/ p + n <= s).
Proof.
  intros Hg [Hl Hoff] Hk. pose proof (cstr_accessible _ _ _ Hl) as Ha.
  assert (forall x, s <= x <= s + Z.of_nat (length l) -> m' !! x = m !! x /\ ~ (p <= x < p + n)) as Hx.
  { intros x Hx. destruct (Ha x ltac:(lia)) as [b Eb].
    destruct (rg_other _ _ _ _ _ _ Hg x b Eb ltac:(lia)) as [-> ?]. done. }
  split.
  - eapply cstr_frame; [exact Hl|]. intros x H. by apply Hx.
  - intros Hn. destruct (Z.lt_ge_cases (s + Z.of_nat (length l)) p) as [|Hge]; [by left|right].
    destruct (Z.lt_ge_cases s p).
    + destruct (Hx p ltac:(lia)) as [_ []]. lia.
    + destruct (Hx s ltac:(lia)) as [_ ?]. lia.
Qed.

(** A delimiter: none, or a string. *)
Definition delimiter (m : mem) (p : Z) (l : list Z) (q k : Z) : Prop :=
  (p = NULL /\ l = []) \/ (p <> NULL /\ string_off m p l q k).

Lemma delimiter_length m p l q k : delimiter m p l q k -> (length l < fuel)%nat ->
  (if negb (p =? NULL) then strlen_loop fuel m p 0 else Ret 0) = Ret (Z.of_nat (length l)).
Proof.
  intros [[-> ->]|[Hp [Hl _]]] Hf; [done|]. rewrite (proj2 (Z.eqb_neq p NULL) Hp). cbn [negb].
  by rewrite (strlen_loop_cstr fuel m p 0 l) by (done || by rewrite Z.add_0_r).
Qed.

(** Up to the call of [realloc], with the length of both strings, the delimiter and the
    terminator. *)
Lemma sappend_reallocates m dest src delim ld ls l k :
  dest <> NULL -> src <> NULL -> cstr m dest ld -> cstr m src ls -> delimiter m delim l dest k ->
  (length (ld ++ l ++ ls) < fuel)%nat -> Z.of_nat (length (ld ++ l ++ ls)) + 1 < 2 ^ 64 ->
  sappend fuel private_malloc private_realloc m dest src delim =
    (let (p, m) := private_realloc m dest (Z.of_nat (length (ld ++ l ++ ls)) + 1) in
     let* (p, m) := if i2b (Z.of_nat (length l)) then nstrcat fuel m p delim else Ret (p, m) in
     nstrcat fuel m p src).
Proof.
  intros Hd Hs Hld Hls Hl Hf Hsz. rewrite !length_app in *. unfold sappend.
  rewrite (proj2 (Z.eqb_neq dest NULL) Hd), (proj2 (Z.eqb_neq src NULL) Hs). cbn [negb andb].
  rewrite (delimiter_length m delim l dest k Hl) by lia. cbn [obind].
  rewrite (strlen_loop_cstr fuel m src 0 ls), (strlen_loop_cstr fuel m dest 0 ld)
    by (lia || rewrite Z.add_0_r; done). cbn [obind]. rewrite !Z.add_0_l.
  assert ((if i2b (Z.of_nat (length l)) then u64 (u64 (Z.of_nat (length ls) + Z.of_nat (length ld) + 1) + Z.of_nat (length l))
    else u64 (Z.of_nat (length ls) + Z.of_nat (length ld) + 1)) = Z.of_nat (length ld + (length l + length ls)) + 1) as ->; [|done].
  rewrite (u64_small (Z.of_nat (length ls) + Z.of_nat (length ld) + 1)) by (unfold in_u; lia). unfold i2b.
  destruct (Z.eqb_spec (Z.of_nat (length l)) 0); cbn [negb]; [lia|]. rewrite u64_small by (unfold in_u; lia). lia.
Qed.

(** A failed [realloc] is not noticed: its null result is taken for the string. *)
Lemma sappend_no_room m dest src delim ld ls l k :
  dest <> NULL -> src <> NULL -> cstr m dest ld -> cstr m src ls -> delimiter m delim l dest k ->
  (length (ld ++ l ++ ls) < fuel)%nat -> Z.of_nat (length (ld ++ l ++ ls)) + 1 < 2 ^ 64 ->
  private_realloc m dest (Z.of_nat (length (ld ++ l ++ ls)) + 1) = (NULL, m) -> m !! NULL = None ->
  sappend fuel private_malloc private_realloc m dest src delim = Fault.
Proof.
  intros Hd Hs Hld Hls Hl Hf Hsz Er H0. rewrite (sappend_reallocates m dest src delim ld ls l k) by done.
  rewrite Er. assert (forall q, nstrcat fuel m NULL q = Fault) as Hcat.
  { intros x. unfold nstrcat. destruct fuel as [|n]; [lia|]. cbn [strlen_loop].
    unfold load8, NULL in *. change (0 + 0) with 0. by rewrite H0. }
  destruct (i2b (Z.of_nat (length l))); cbn [obind]; by rewrite !Hcat.
Qed.

Lemma sappend_spec m dest src delim ld ls l k : mem_ok m ->
  dest <> NULL -> src <> NULL -> cstr m dest ld -> Z.of_nat (length ld) < k ->
  string_off m src ls dest k -> delimiter m delim l dest k ->
  (length (ld ++ l ++ ls) < fuel)%nat -> Z.of_nat (length (ld ++ l ++ ls)) + 1 < 2 ^ 64 ->
  (forall p m', let n := Z.of_nat (length (ld ++ l ++ ls)) + 1 in
     private_realloc m dest n = (p, m') -> regrown m m' dest k p n /\ mem_ok m') ->
  exists p m', sappend fuel private_malloc private_realloc m dest src delim = Ret (p, m') /\
    cstr m' p (ld ++ l ++ ls).
Proof.
  intros Hm Hd Hs Hld Hk Hls Hl Hf Hsz Hgrow.
  rewrite (sappend_reallocates m dest src delim ld ls l k) by (done || apply Hls).
  cbn zeta in Hgrow. rewrite !length_app in *. set (n := Z.of_nat (length ld + (length l + length ls)) + 1) in *.
  destruct (private_realloc m dest n) as [p m1] eqn:Er. destruct (Hgrow p m1 eq_refl) as [Hg Hm1].
  destruct (regrown_string _ _ _ _ _ _ src ls Hg Hls) as [Hls1 Hoff1]; [lia|].
  pose proof (rg_room _ _ _ _ _ _ Hg) as Hroom.
  assert (cstr m1 p ld) as Hld1.
  { split; [|apply Hld]. intros i b Eb. pose proof (lookup_lt_Some _ _ _ Eb) as Hlt. rewrite length_app in Hlt. cbn in Hlt.
    rewrite (rg_kept _ _ _ _ _ _ Hg) by lia. by apply (proj1 Hld). }
  assert (exists m2, (if i2b (Z.of_nat (length l)) then nstrcat fuel m1 p delim else Ret (p, m1)) = Ret (p, m2) /\
    cstr m2 p (ld ++ l) /\ cstr m2 src ls /\ mem_ok m2 /\ dom m2 = dom m1) as (m2 & -> & Hld2 & Hls2 & Hm2 & Hdom).
  - destruct Hl as [[-> ->]|[Hdel Hl]]; [exists m1; by rewrite app_nil_r|].
    destruct (regrown_string _ _ _ _ _ _ delim l Hg Hl) as [Hl1 Hoff]; [lia|].
    unfold i2b. destruct (Z.eqb_spec (Z.of_nat (length l)) 0) as [E0|Hne]; cbn [negb].
    { destruct l; [|cbn in E0; lia]. exists m1. by rewrite app_nil_r. }
    destruct (nstrcat_spec fuel m1 p delim ld l) as (m2 & -> & Hc & Hdom & Hm2 & Hfr);
      [done..|eapply accessible_sub; [exact Hroom|lia..]|lia|lia|lia|].
    exists m2. split; [done|]. split; [done|]. split; [|done].
    eapply cstr_frame; [exact Hls1|]. intros x Hx. apply Hfr. lia.
  - cbn [obind]. destruct (nstrcat_spec fuel m2 p src (ld ++ l) ls) as (m3 & -> & Hc & _);
      [done..| | |rewrite length_app; lia|lia|].
    + apply (accessible_dom m1 m2 p _ Hdom). eapply accessible_sub; [exact Hroom|lia|rewrite length_app; lia].
    + rewrite length_app. lia.
    + exists p, m3. split; [done|]. by rewrite app_assoc.
Qed.
End Append.

(** ** Properties *)

(** C31.  [endswith] is zero exactly on the suffixes; [charcount] counts the occurrences of a
    character; [nstrcat] appends a string in place and writes nothing else;
    [nstrdup] answers a fresh copy, or null when there is no room; [sappend] answers the
    reallocated first string followed by the delimiter, if there is one, and the second
    string, provided that [realloc] succeeds, and faults, the null result not being tested,
    if it fails.  The strings are terminated and shorter than 2^31 - 1 characters together,
    the second one and the delimiter apart from the object of the first one, which has
    room for the result of [nstrcat]. *)
Theorem string_helpers_exact `{ML : !Malloc, MLok : !MallocOk} (fuel : nat) (private_realloc : mem -> Z -> Z -> Z * mem)
  (m : mem) (p q d c k : Z) (lp lq ld : list Z) :
  mem_ok m -> 0 < p -> q <> NULL -> cstr m p lp -> Z.of_nat (length lp) < k ->
  string_off m q lq p k -> delimiter m d ld p k -> 0 < c ->
  (length (lp ++ ld ++ lq) < fuel)%nat -> Z.of_nat (length (lp ++ ld ++ lq)) + 1 < 2 ^ 31 ->
  (exists r, endswith fuel m p q = Ret r /\ (r = 0 <-> lq `suffix_of` lp)) /\
  charcount fuel m p c = Ret (Z.of_nat (occurrences c lp)) /\
  (accessible m p (Z.of_nat (length lp) + Z.of_nat (length lq) + 1) ->
   p + Z.of_nat (length lp) + Z.of_nat (length lq) < p + k ->
   exists m', nstrcat fuel m p q = Ret (p, m') /\ cstr m' p (lp ++ lq) /\ dom m' = dom m /\
     forall x, ~ (p <= x <= p + Z.of_nat (length lp) + Z.of_nat (length lq)) -> m' !! x = m !! x) /\
  (exists r m', nstrdup fuel malloc m p = Ret (r, m') /\
     alloc_behaviors m (Z.of_nat (length lp) + 1)
       (fresh m m' r (Z.of_nat (length lp) + 1) /\ cstr m' r lp) (r = NULL /\ m' = m)) /\
  ((forall r m', let n := Z.of_nat (length (lp ++ ld ++ lq)) + 1 in
      private_realloc m p n = (r, m') -> regrown m m' p k r n /\ mem_ok m') ->
   exists r m', sappend fuel malloc private_realloc m p q d = Ret (r, m') /\ cstr m' r (lp ++ ld ++ lq)) /\
  (private_realloc m p (Z.of_nat (length (lp ++ ld ++ lq)) + 1) = (NULL, m) -> m !! NULL = None ->
   sappend fuel malloc private_realloc m p q d = Fault).
Proof.
  intros Hm Hp Hq Hlp Hk Hlq Hd Hc Hf Hsz. pose proof Hf as Hf'. pose proof Hsz as Hsz'.
  rewrite !length_app in Hf', Hsz'. split_and!.
  - apply endswith_spec; try done; [unfold NULL; lia|apply Hlq|lia|lia].
  - unfold charcount. rewrite (charcount_loop_counts fuel m c Hc _ p lp); try done; try lia.
    unfold occurrences. pose proof (length_filter (fun b => b = c) lp). lia.
  - intros Ha Hroom. destruct (nstrcat_spec fuel m p q lp lq) as (m' & E & H1 & H2 & _ & H3); try done; try lia.
    + apply Hlq.
    + destruct Hlq as [_ Hoff]. lia.
    + by exists m'.
  - apply nstrdup_copies; try done; [unfold NULL; lia|lia|lia].
  - intros Hg. apply (sappend_spec fuel malloc private_realloc m p q d lp lq ld k); try done;
      [unfold NULL; lia|lia].
  - intros Er H0. apply (sappend_no_room fuel malloc private_realloc m p q d lp lq ld k); try done;
      [unfold NULL; lia|apply Hlq|lia].
Qed.

(** ** An instance: "hello" and "lo", with the delimiter ", " *)

Definition demo_strings : mem := write (write (write (mem_fill 64 4096 0) 4096 [104; 101; 108; 108; 111; 0]) 4112 [108; 111; 0]) 4120 [44; 32; 0].
Definition demo_realloc (m : mem) (q n : Z) : Z * mem :=
  (8192, write (mem_fill (Z.to_nat n) 8192 205 ∪ m) 8192 [104; 101; 108; 108; 111; 0]).

Lemma demo_strings_ok : mem_ok demo_strings.
Proof. apply mem_ok_check. vm_compute. reflexivity. Qed.

Lemma demo_regrown r m' : demo_realloc demo_strings 4096 10 = (r, m') ->
  regrown demo_strings m' 4096 6 r 10 /\ mem_ok m'.
Proof.
  intros E. unfold demo_realloc in E. apply pair_equal_spec in E as [<- <-]. split.
  - constructor; [lia|..].
    + intros x Hx. rewrite write_lookup. case_decide; [by apply lookup_lt_is_Some_2; cbn in *; lia|].
      rewrite lookup_union, mem_fill_lookup, decide_True by lia. destruct (demo_strings !! x); eauto.
    + intros i Hi. assert (i = 0 \/ i = 1 \/ i = 2 \/ i = 3 \/ i = 4 \/ i = 5) as [->|[->|[->|[->|[->| ->]]]]] by lia; vm_compute; reflexivity.
    + intros x b Eb _. assert (4096 <= x < 4160) as Hx.
      { assert (bool_decide (map_Forall (fun x _ => 4096 <= x < 4160) demo_strings) = true) as H by (vm_compute; reflexivity).
        apply bool_decide_eq_true in H. exact (H x b Eb). }
      split; [|lia]. rewrite write_lookup, decide_False by (simpl; lia).
      rewrite lookup_union, Eb, mem_fill_lookup, decide_False by lia. done.
  - apply mem_ok_check. vm_compute. reflexivity.
Qed.

Lemma string_helpers_exact_witness :
  exists r m', sappend 12 (@malloc above_malloc) demo_realloc demo_strings 4096 4112 4120 = Ret (r, m') /\
    cstr m' r [104; 101; 108; 108; 111; 44; 32; 108; 111].
Proof.
  destruct (@string_helpers_exact above_malloc above_malloc_ok 12 demo_realloc demo_strings 4096 4112 4120 108 6
    [104; 101; 108; 108; 111] [108; 111] [44; 32] demo_strings_ok) as (_ & _ & _ & _ & H & _).
  - lia.
  - discriminate.
  - apply cstr_check; vm_compute; reflexivity.
  - reflexivity.
  - split; [apply cstr_check; vm_compute; reflexivity|right; cbn; lia].
  - right. split; [discriminate|]. split; [apply cstr_check; vm_compute; reflexivity|right; cbn; lia].
  - lia.
  - cbn. lia.
  - reflexivity.
  - apply H. intros r m'. exact (demo_regrown r m').
Defined.
